(* ===== verification/_CoqProject ===== *)
-Q . S2P
Prelude.v
PyFloat.v
PySorted.v
Regex.v
Redaction.v
Identities.v
Values.v
Requests.v
Records.v
State.v
Samples.v
Control.v
Clock.v
Proofs.v
Permit.v
Order.v
Answers.v
Episode.v
Forward.v
Ledger.v
LedgerSafe.v
LedgerEvents.v
LedgerKept.v
Waits.v
WaitsEnd.v
Compact.v
Adoption.v
AdoptionSafe.v
Settlement.v
SettlementSafe.v
Scheduling.v
SchedulingSafe.v
Attempts.v
Park.v
Decide.v
Exclusion.v
LogRecord.v
Skeleton.v
Epoch.v
Framing.v
LogFile.v
Head.v
Standing.v
Upgrade.v
Observe.v
Writer.v
Durability.v
FoldText.v
FoldCache.v
ConfirmedLog.v
RunLog.v
Operations.v
OperationsSafe.v
OperationsWake.v
OperationsRuns.v
PyText.v
SlurmStates.v
SlurmOutcomes.v
SlurmLedger.v
SlurmSettled.v
SlurmProg.v
SlurmStore.v
SlurmActions.v
SlurmEntry.v
SlurmListing.v
SlurmAttach.v
SlurmSim.v
SlurmLawful.v
SlurmLawfulRun.v
SlurmCancel.v
SlurmAttached.v
SlurmWorld.v
SlurmClients.v
SlurmSafe.v
SlurmApart.v
