(* ===== verification/Prelude.v ===== *)
(** * VibeSys: a verification library

    VibeSys runs long autonomous searches: agents' turns, evaluations and workspaces, driven by a
    lifecycle kernel whose every decision is recorded in an append-only log, so that a run that
    stops, for whatever reason, goes on from its log.  This library models the parts that make
    that true and proves what they promise.  Paths below are under [src/libs/].

    ** The parts and how they interact

    - The kernel, [vs-core/src/vs_core].  A [CoreState] is the fold of the records of a run.  A
      step (a request with a stated limit) is prepared, run by attempts and settled; the recovery
      rule [decide] is a function of that state and the run clock which says what the runner
      does next.  The runner records what it did before it acts on it.  What an executor answers
      goes to the request ledger, which closes the request, re-sends it or cancels what depended on
      it, and tells the area that owns it.
    - The run log, [vs-runlog/src/vs_runlog].  Every record of a run goes through one appender
      ([ConfirmedLog]) to one writer ([FileRunLogWriter]), whose committer syncs the file, folds
      the records into projections and publishes them; a start recovers the file, and reads the
      kernel's fold from a cache when that is the fold of this log ([vs-runtime]'s keeper).  A
      process that shows a run reads its head, of the committed record, and recovers from the log
      what a previous writer's head does not state.
    - Asynchronous operations, [vs-async-ops/src/vs_async_ops].  A host runs what an agent asks for
      (an evaluation, say) as an operation: a record in a store, accepted before its task is
      created, that callers wait for and cancel while tasks of one event loop run it.
    - The ledger of evaluations on a Slurm cluster, [vs-slurm/src/vs_slurm] and [vs-sandbox]'s
      [slurm_ledger.py].  Runs on different machines share the jobs of equal requests: an attempt is
      claimed, submitted and recorded by compare-and-swap on files; a run that wants a request leases it,
      and a withdrawal (an operator's, the sweep's, that of a run that stops) marks the attempt, reads its
      mark back, and cancels the job only while the mark holds.
    - The diagnostic redactor, [vs-redaction/src/vs_redaction], between what a child process prints
      and what is shown or stored.

    ** Files

    Shared: this prelude ([result] and its notations, Python's containers, functional update of
    records, tactics, hints), [PyFloat] (binary64), [PySorted] (a stable sort), [Regex], [Samples] (values for witnesses).

    The redactor: [Redaction] ([_patterns.py], [_stream.py]).

    The kernel's data: [Identities], [Values], [Requests] ([types/], [_generated/]), [Records]
    (the request ledger and the policy per kind of request), [State] ([CoreState] and the view of
    every area).

    The kernel's rules: [Control] (operator controls, the pause, a new epoch), [Clock] (limits on
    the run clock), [Proofs] (what the ledger establishes), [Permit] (the permit of a turn, caps),
    [Order] (which steps may run beside which), [Attempts] (attempts as the log records them),
    [Park] (draining a run), [Decide] (the recovery rule), [Exclusion] (what the rule makes of the
    order).

    The request ledger: [Answers] (what the shell and the areas tell each other about a request),
    [Episode] ([_dispatch_episode.py], [_session_scope.py]: whether a request may still be sent),
    [Forward] ([_request_forward.py]: what an answer tells the owner of a request), [Ledger]
    ([_request_ledger.py], [records.py]), [LedgerSafe] (one answer), [LedgerEvents] (one event),
    [LedgerKept] (what any sequence of events keeps), [Waits] ([_waits.py]: what ends every wait),
    [WaitsEnd] (orphans and their resolvers), [Compact] ([_ledger_compaction.py]).

    Areas of the kernel: [Adoption] ([_adoption.py]: publishing the winner of a run),
    [AdoptionSafe] (what any event leaves of it), [Settlement] ([_settlement.py], [settlement.py]:
    the one settlement of an attempt and what proves it), [SettlementSafe], [Scheduling] ([scheduling.py]: the queue of
    attempts and the capacity they occupy), [SchedulingSafe] (what any event keeps of them).

    The run log, each file over those before it: [LogRecord] (messages, and the codec as a class),
    [Skeleton] ([_fold.py], [_upgrade.py]), [Epoch] ([_epoch.py]), [Framing] ([_framing.py]),
    [LogFile] (reader, recovery and content of [_file.py]), [Writer] ([FileRunLogWriter] and its
    commit policy, as a labelled step relation over the disk), [Durability] (its invariant), [Head]
    ([_head.py]), [Standing] (what its projection promises), [Upgrade] (the upgrade of stored
    keyframes in [_upgrade.py]), [Observe] ([_observe.py], [_prefix.py]),
    [FoldText] ([Folded.encode] and [Folded.decode] of [vs-core]), [FoldCache] ([_fold_cache.py],
    [_fold_keeper.py]), [ConfirmedLog] ([_confirmed_log.py] over
    the interface [RunLogRecords]), [RunLog] (the file writer as an instance of it: the committer's thread
    runs between and within the appender's calls, and what ended it is what they raise).

    Asynchronous operations: [Operations] ([models.py], and [coordinator.py] as the step relation of
    its tasks), [OperationsSafe] (its invariant), [OperationsWake] (the events of its waiters),
    [OperationsRuns] (scripts of steps, evaluated).

    The Slurm ledger: [PyText] (methods of [str]), [SlurmStates] ([scheduler_states.py]), [SlurmOutcomes]
    ([cluster_types.py], the handles and results of [runner.py]), [SlurmLedger] ([ledger.py]),
    [SlurmSettled] (when an attempt is completed), [SlurmProg] (programs over the storage, the cluster and
    the clock; histories of many processes), [SlurmStore] ([fake_ledger.py]), [SlurmEntry] (what an entry
    shows of what was read), [SlurmListing] ([ledger_listing.py]), [SlurmActions] ([ledger_actions.py]), [SlurmAttach] ([slurm_ledger.py]),
    [SlurmSim] (a storage that never fails, for witnesses), [SlurmLawful] and [SlurmLawfulRun] (the reason
    of each write), [SlurmCancel] (what precedes a cancel), [SlurmAttached] (what precedes an attachment),
    [SlurmWorld] (what holds of the storage in every history), [SlurmClients] (what runs and operators
    do: any operations, one after another, killed at any call), [SlurmSafe] and [SlurmApart] (what clients
    never do to each other).

    ** How code is modelled

    A function of the source is a [Definition] of its name; the doc comment above a definition
    names the source's when they differ.  A class is a [Record] of its fields, an enum or a tagged
    union an [Inductive].  A raised exception is an [Err]; a method that changes its object returns
    the new one.  Python's [float] is the Standard Library's [spec_float] at binary64, an [int] is
    [Z], [bytes] are [list Z], a [dict] whose order nobody reads is a [gmap].  What threads and
    crashes can do is a step relation: a step is what happens under one hold of a lock, or one
    operation on the disk (the keyframe of a commit and its head are two steps); a coroutine's step is its run from one [await] to the next.  A client of the
    Slurm ledger is a finite program of calls ([SlurmProg.prog]), run against whatever the calls answer; a
    world is a history of the calls of many such processes, each one indivisible, as a link or a rename on
    the cluster's filesystem is, any of which may fail before or after its effect.

    ** What the theorems show

    - The recovery rule: what it starts is due, accepted by the fold, within the retry limit and
      the scope order at the time it starts it, with the steps already running; what is past its limit
      ends; it sleeps past nothing; a parked run only stops; it always answers ([Decide], [Exclusion], [Attempts], [Park]).
    - The request ledger: across any events a closed request keeps how it was closed, a failed
      one that may be tried again is due, prepared and sent again within its limit, and one whose tries
      ran out stays closed, no unsent one waits for a failure, cancellations along dependencies
      end although these may be cyclic, answers are taken in sequence, the same again changing nothing and another under its
      number refused, and a request is dispatched once ([LedgerKept]); the names core derives for different invocations differ ([Episode]).
    - Waits: every wait nothing can end is one a resolver lists; a wait a checked step newly records is no orphan, unless its
      dispatcher's host is dead or it is an acquisition that names sessions only, and the chains of
      waits stay finite ([WaitsEnd]); compaction changes no wait and no answer ([Compact]).
    - Scheduling: slots never share an attempt, a pool or the root, admission is first in, first
      out within the limits, no head that may be admitted waits after an event that could admit it,
      a start is registered only within the budget, and an admission never fails a step
      ([SchedulingSafe]).
    - Settlement: an attempt is settled once, by the choice recorded for it or as cancelled, after its
      owner released everything it held, and an
      eligible settlement is proven by the run's evidence; over any events an adopted candidate was
      ([SettlementSafe]).
    - Adoption: a winner is adopted only when it is eligible and verified only by an answer that
      names it; a verified one stands; rounds are numbered and bounded ([AdoptionSafe]).
    - Limits: a cap only shortens, a quota pause moves a turn's limits together, the run clock
      goes forward ([Permit], [Clock]).
    - Walks and folds agree with their meaning: scope order with reachability, the permit lookup
      with the nearest turn, the pause with its controls ([Order], [Permit], [Control]).
    - Frames: what was written reads back, damage stops the reader where it is, a cut log reads as
      its whole records, and recovery keeps those ([Framing], [LogFile]).
    - Durability: over any life of writers, crashes and reopenings, what was committed is read
      back, a commit is served by one round of the committer or ends it with what refused it,
      keyframes are folds of the log ([Durability]).
    - The appender: the log stays dense and in order of its clocks whatever the threads call, no
      record is dated after the present, what is [Appended] is durable and survives a crash of
      the machine, through the file writer, as long as what is appended and staged folds
      ([ConfirmedLog], [RunLog]).
    - The cache: it changes no result, whether the fold it holds reads, is refused or is of rules
      without a name ([FoldCache]).
    - The head: what stands of an objective only improves and is of an idea that passed, whatever
      order a dict iterates in ([Standing]).
    - Readers: they see what the head has committed and nothing past it; a head recovered from the
      nearest keyframe is the one a scan of every record finds, as upgrading a skeleton is
      upgrading its records; what is remembered changes no answer; a log that lost committed
      records is damage ([Upgrade], [Observe]).
    - Asynchronous operations: work of one key is exclusive and admissions are bounded, a record
      only moves forward, an operation that was cancelled is no longer at work, no wakeup is lost
      ([OperationsSafe], [OperationsWake]).
    - The Slurm ledger: in every world of runs and operators, stored records follow the state machine of
      an attempt and one process submits a job under it ([SlurmSafe]; the reason of each write is proved
      of the programs, [SlurmClients.played_world]); a withdrawal cancels only a job seen live while its
      mark, read back, holds ([SlurmCancel]), so never the job of a run that attached and kept its lease
      ([SlurmApart]); an attempt is completed by whole results only ([SlurmSettled]); a job's life goes
      forward and completes only on a clean exit, whatever squeue and sacct say ([SlurmStates]); a listing
      hides no request and a removal is of the requests named ([SlurmListing]).
    - The redactor: the text let through does not depend on a secret's value nor on how the stream
      is cut, and what is held is bounded ([Redaction]).

    Where a theorem shows the code differs from what it says, the doc comment of the theorem
    says how: [Decide.decide_overflows], [Redaction.overflow_at_separator_not_sealed],
    [ConfirmedLog.refused_stage_stalls], [RunLog.uncertain_log_unreadable],
    [FoldCache.damaged_state_used], [OperationsRuns.lost_answer_strands_waiter],
    [OperationsRuns.cancelled_at_birth_refuses_close],
    [Observe.remembered_damage_repeats_path], [LedgerKept.refine_drops_the_manifest],
    [LedgerKept.refine_breaks_the_manifest].

    ** Fuel

    Recursion that is not structural takes fuel, and a lemma says how much is enough: the walk over
    a step's dependencies, the number of records of the ledger ([Order]); the length prefix of a
    frame, the binary logarithm of the length ([Framing]); the reader's loop, one round more than
    the file has bytes ([LogFile.read_frames_total], [Observe.bounded_total]); the walk to the span an
    idea owns, the number of spans ([Standing.owner_total]); the depth of the cancellations an
    answer causes, the number of records of the ledger ([LedgerKept.cancellations_end]); the walk
    over the commands about a request, one more than those records ([WaitsEnd.open_reaches]); a
    chain of waits, one more than the entities it may name ([WaitsEnd.checked_step_waits]).  The rounds of
    [SlurmActions.withdraw] and of [SlurmAttach.attach] are the source's own bounds.

    ** Parameters

    Code that is not of this repository is an argument: the codec of records and CRC-32C ([Codec],
    with [CodecLaws]: a record that validates decodes to itself), the decoder of gate attributes
    ([GateAttrs]) and of the other payloads of labels ([HeadAttrs]), the order in which a dict of spans
    iterates ([SpanItems]), the digest that names the rounds of a winner ([SelectionDigest]), the JSON parser of outputs ([JsonParser]), the codec of the cache and SHA-256 ([CacheCodec]), the digests of requests
    ([Proofs]), pydantic's reading and writing of a fold ([FoldJson], with [FoldJsonLaws]: a written body reads as
    itself or is refused), the JSON of ledger documents ([LedgerCodec], with [LedgerCodecLaws]: what was
    stored is read back, which of the real JSON holds of finite numbers and of documents under its cap).  What the storage, the cluster and the clocks answer is not constrained but by what the storage
    holds.  So is code of the repository that a part is told by its caller: the headline
    projection of the writer, what one record does to core's fold in [FoldCache], what the run's clock
    reads.  Every law asked of a parameter is kept by a concrete one in the witnesses.

    ** Not modelled

    The kernel's reducers other than those of the request ledger, scheduling, settlement
    and adoption ([_step.py], which routes what one area tells another, and the session, acquisition,
    retirement and measurement areas), of which only the records no reducer handles are folded;
    payloads of requests that no modelled rule looks inside (canonical text); file
    locks and atomic replacement ([_lock.py], [_atomic.py]), of which the writer's model assumes
    that a published file is seen whole or not at all; [install_run_log]; threads' wakeups (a wait
    is the condition it waits for).  Methods of one run's attachment that its threads overlap (those on
    different requests, the renewals during an attach) are taken one after another ([SlurmClients]).  Of [vs-async-ops], the bounded [await_result], [records], what an
    event sink raises, the inside of [_LockPool] (a lock is held by one task), [finish] and the
    test doubles.  Of the Slurm ledger, the key of a request and the digest of a directory ([evaluation_key],
    [content_digest]), the remote store's shell commands ([ledger_store.py], which makes the
    calls the model makes), the runner with its staging and transport, and log messages.  Outside these
    libraries: the runtime's process hosting, agents,
    sandboxes, evaluators, and the adapters to projects, prompts, GitHub and issue trackers are
    effects on the outside world; simulation and fault injection are tests of the system; wire
    schemas are generated. *)

From stdpp Require Export prelude list strings gmap.
From Stdlib Require Export ZArith Lia ZifyBool.

#[global] Open Scope Z_scope.

(** ** Results: a Python computation that returns or raises *)

(** [Err e] is a raised exception of the typed error [e]; the first one raised ends
    the computation, as Python's does. *)
Inductive result (E A : Type) : Type :=
  | Ok (a : A)
  | Err (e : E).

Arguments Ok {E A} a.
Arguments Err {E A} e.

Definition rbind {E A B : Type} (c : result E A) (k : A -> result E B) : result E B :=
  match c with
  | Ok a => k a
  | Err e => Err e
  end.

(** [if not ok: raise e] *)
Definition ensure {E : Type} (ok : bool) (e : E) : result E unit :=
  if ok then Ok tt else Err e.

(** A Python loop whose body updates an accumulator and may raise. *)
Fixpoint rfold {E A B : Type} (f : B -> A -> result E B) (acc : B) (l : list A) : result E B :=
  match l with
  | [] => Ok acc
  | x :: l' => rbind (f acc x) (fun acc' => rfold f acc' l')
  end.

Declare Scope vibesys_scope.
Delimit Scope vibesys_scope with vibesys.
Notation "'let*' x ':=' c 'in' k" :=
  (rbind c (fun x => k)) (at level 10, x name, k at level 200) : vibesys_scope.
Notation "'require*' b 'else' e 'in' k" :=
  (rbind (ensure b e) (fun _ => k)) (at level 10, k at level 200) : vibesys_scope.
#[global] Open Scope vibesys_scope.

(** [[f(x) for x in l]] and [[x for x in l if p(x)]], whose element or test may raise *)
Fixpoint rmap {E A B : Type} (f : A -> result E B) (l : list A) : result E (list B) :=
  match l with
  | [] => Ok []
  | x :: l' => let* y := f x in let* ys := rmap f l' in Ok (y :: ys)
  end.
Fixpoint filter_result {E A : Type} (p : A -> result E bool) (l : list A) : result E (list A) :=
  match l with
  | [] => Ok []
  | x :: l' =>
      let* keep := p x in
      let* rest := filter_result p l' in
      Ok (if keep : bool then x :: rest else rest)
  end.

(** ** Python containers *)

(** [next((x for x in l if p(x)), None)] *)
Fixpoint next_such {A : Type} (p : A -> bool) (l : list A) : option A :=
  match l with
  | [] => None
  | x :: l' => if p x then Some x else next_such p l'
  end.

(** [any(p(x) for x in l)] and [all(p(x) for x in l)] *)
Definition any {A : Type} (p : A -> bool) (l : list A) : bool := existsb p l.
Definition all {A : Type} (p : A -> bool) (l : list A) : bool := forallb p l.

(** [len(set(l)) == len(l)] *)
Definition distinct {A : Type} `{EqDecision A} (l : list A) : bool := bool_decide (NoDup l).

(** [tuple(dict.fromkeys(l))]: the first occurrence of each element, in order. *)
Fixpoint fromkeys {A : Type} `{EqDecision A} (seen l : list A) : list A :=
  match l with
  | [] => []
  | x :: l' => if decide (x ∈ seen) then fromkeys seen l' else x :: fromkeys (x :: seen) l'
  end.

(** [value is None] and [value is not None] *)
Definition is_none {A : Type} (o : option A) : bool :=
  match o with Some _ => false | None => true end.
Definition not_none {A : Type} (o : option A) : bool := negb (is_none o).

(** [value in (a, b, ...)] on values with decidable equality *)
Definition among {A : Type} `{EqDecision A} (a : A) (l : list A) : bool := bool_decide (a ∈ l).

(** [a == b] on values with decidable equality *)
Definition eqb {A : Type} `{EqDecision A} (a b : A) : bool := bool_decide (a = b).

(** ** Functional record update: [value.model_copy(update={"field": v})] *)

(** [Eta R] is the eta expansion of the record type [R]; [update f g r] is [r] with its
    field [f] replaced by [g] of it, and [r <| f := v |>] sets the field. *)
Class Eta (R : Type) := eta : R -> R.

Class Update {R T : Type} (field : R -> T) := update : (T -> T) -> R -> R.
Arguments update {R T} field {_} _ _ /.

Ltac solve_update R field :=
  let e := constr:(_ : Eta R) in
  let e := eval red in e in
  let e := match e with ?h => eval unfold h in h | _ => e end in
  match eval pattern field in e with
  | ?build _ => exact (fun g => build (fun r => g (field r)))
  end.

#[export] Hint Extern 0 (@Update ?R _ ?field) => solve_update R field : typeclass_instances.

Notation "r <| f := v |>" := (update f (fun _ => v) r)
  (at level 1, left associativity, f at level 10, v at level 200) : vibesys_scope.

(** ** Automation *)

Create HintDb vibesys.
Create Rewrite HintDb vibesys.

Ltac destruct_match :=
  match goal with
  | |- context [match ?x with _ => _ end] => destruct x eqn:?
  | H : context [match ?x with _ => _ end] |- _ => destruct x eqn:?
  end.

(** Turn boolean tests of a branch into propositions. *)
Ltac to_prop :=
  repeat match goal with
    | H : andb _ _ = true |- _ => apply andb_true_iff in H; destruct H
    | H : orb _ _ = false |- _ => apply orb_false_iff in H; destruct H
    | H : negb _ = true |- _ => apply negb_true_iff in H
    | H : negb _ = false |- _ => apply negb_false_iff in H
    | H : bool_decide _ = true |- _ => apply bool_decide_eq_true in H
    | H : bool_decide _ = false |- _ => apply bool_decide_eq_false in H
    | H : eqb _ _ = true |- _ => unfold eqb in H; apply bool_decide_eq_true in H
    | H : eqb _ _ = false |- _ => unfold eqb in H; apply bool_decide_eq_false in H
    end.

(** Case on the computation a [let*] waits for, discarding the raising branch. *)
Ltac rinvert H :=
  unfold rbind, ensure in H;
  repeat match type of H with
    | context [match ?x with _ => _ end] => destruct x eqn:?; try discriminate H
    | context [if ?x then _ else _] => destruct x eqn:?; try discriminate H
    end.

(** ** Lemmas the components share *)

Section Shared.
Context {A B E : Type}.
Implicit Types (p : A -> bool) (l : list A).

Lemma eqb_true `{EqDecision A} (a b : A) : eqb a b = true <-> a = b.
Proof. apply bool_decide_eq_true. Qed.

Lemma eqb_false `{EqDecision A} (a b : A) : eqb a b = false <-> a <> b.
Proof. apply bool_decide_eq_false. Qed.

Lemma eqb_refl `{EqDecision A} (a : A) : eqb a a = true.
Proof. by apply eqb_true. Qed.

Lemma eqb_eq `{EqDecision A} (a b : A) : eqb a b = true -> a = b.
Proof. apply bool_decide_eq_true. Qed.

Lemma eqb_neq `{EqDecision A} (a b : A) : eqb a b = false -> a <> b.
Proof. apply bool_decide_eq_false. Qed.

Lemma among_true `{EqDecision A} (a : A) l : among a l = true <-> a ∈ l.
Proof. apply bool_decide_eq_true. Qed.

Lemma among_false `{EqDecision A} (a : A) l : among a l = false <-> a ∉ l.
Proof. apply bool_decide_eq_false. Qed.

Lemma elem_of_filterb p l x : x ∈ List.filter p l <-> x ∈ l /\ p x = true.
Proof. by rewrite !list_elem_of_In, filter_In. Qed.

Lemma any_app p l1 l2 : any p (l1 ++ l2) = any p l1 || any p l2.
Proof. apply existsb_app. Qed.

Lemma next_such_Some p l x :
  next_such p l = Some x -> x ∈ l /\ p x = true.
Proof.
  induction l as [|y l IH]; simpl; [done|].
  destruct (p y) eqn:Hy; intros [= <-] || intros H.
  - split; [left|done].
  - destruct (IH H). split; [by right|done].
Qed.

Lemma next_such_None p l :
  next_such p l = None <-> forall x, x ∈ l -> p x = false.
Proof.
  induction l as [|y l IH]; simpl; [set_solver|].
  destruct (p y) eqn:Hy; split; try done.
  - intros H. rewrite (H y) in Hy; [done|left].
  - intros H x [->|Hx]%elem_of_cons; [done|]. by apply IH.
  - intros H. apply IH. intros x Hx. apply H. by right.
Qed.

Lemma any_true p l : any p l = true <-> exists x, x ∈ l /\ p x = true.
Proof.
  unfold any. rewrite existsb_exists.
  split; intros (x & Hx & Hp); exists x; (split; [by apply list_elem_of_In|done]).
Qed.

Lemma any_false p l : any p l = false <-> forall x, x ∈ l -> p x = false.
Proof.
  destruct (any p l) eqn:H.
  - apply any_true in H as (x & Hx & Hp). split; [done|]. intros H'. by rewrite H' in Hp.
  - split; [|done]. intros _ x Hx. apply not_true_is_false. intros Hp.
    assert (any p l = true); [|congruence]. apply any_true. eauto.
Qed.

Lemma all_true p l : all p l = true <-> forall x, x ∈ l -> p x = true.
Proof.
  unfold all. rewrite forallb_forall.
  split; intros H x Hx; apply H; by apply list_elem_of_In.
Qed.

Lemma rbind_Ok {C} (c : result E A) (k : A -> result E C) b :
  rbind c k = Ok b -> exists a, c = Ok a /\ k a = Ok b.
Proof. destruct c as [a|e]; simpl; [by exists a|done]. Qed.

Lemma ensure_Ok b (e : E) u : ensure b e = Ok u -> b = true.
Proof. by destruct b. Qed.

Lemma rfold_app (f : B -> A -> result E B) acc l1 l2 :
  rfold f acc (l1 ++ l2) = (let* mid := rfold f acc l1 in rfold f mid l2).
Proof.
  revert acc; induction l1 as [|x l1 IH]; intros acc; simpl; [done|].
  destruct (f acc x); simpl; [apply IH|done].
Qed.

Lemma rfold_inv (P : B -> Prop) (f : B -> A -> result E B) acc l acc' :
  (forall b x b', P b -> f b x = Ok b' -> P b') ->
  P acc -> rfold f acc l = Ok acc' -> P acc'.
Proof.
  intros Hstep; revert acc; induction l as [|x l IH]; intros acc Hacc; simpl.
  - by intros [= <-].
  - destruct (f acc x) eqn:Hf; simpl; [|done]. eauto.
Qed.

Lemma rfold_inv_in (P : B -> Prop) (f : B -> A -> result E B) acc l acc' :
  (forall b x b', x ∈ l -> P b -> f b x = Ok b' -> P b') ->
  P acc -> rfold f acc l = Ok acc' -> P acc'.
Proof.
  revert acc; induction l as [|x l IH]; intros acc Hstep Hacc; simpl.
  - by intros [= <-].
  - destruct (f acc x) eqn:Hf; simpl; [|done]. apply IH.
    + intros b y b' Hy. apply Hstep. by right.
    + eapply Hstep; [by left|done|done].
Qed.

Lemma rfold_total (P : B -> Prop) (f : B -> A -> result E B) acc l :
  (forall b x, x ∈ l -> P b -> exists b', f b x = Ok b' /\ P b') ->
  P acc -> exists acc', rfold f acc l = Ok acc' /\ P acc'.
Proof.
  revert acc; induction l as [|x l IH]; intros acc Hstep Hacc; simpl; [by exists acc|].
  destruct (Hstep acc x) as (b' & -> & Hb'); [by left|done|]. simpl. apply IH; [|done].
  intros b y Hy. apply Hstep. by right.
Qed.
End Shared.

(** Filters and maps keep the order of what they keep. *)
Lemma filterb_sublist {A} (p : A -> bool) (l : list A) : List.filter p l `sublist_of` l.
Proof. induction l as [|x l IH]; simpl; [done|]. destruct (p x); by constructor. Qed.

Lemma flat_map_sublist {A B} (f : A -> list B) l l' :
  l `sublist_of` l' -> flat_map f l `sublist_of` flat_map f l'.
Proof.
  induction 1 as [|x l l' _ IH|x l l' _ IH]; simpl; [done|by apply sublist_app|].
  by apply sublist_inserts_l.
Qed.

Lemma map_sublist {A B} (f : A -> B) l l' : l `sublist_of` l' -> map f l `sublist_of` map f l'.
Proof. induction 1; simpl; by constructor. Qed.

(** ** Comprehensions that may raise *)

Section Results.
Context {E A B : Type}.
Implicit Types (f : A -> result E B) (l : list A).

Lemma rmap_Ok f l ys : rmap f l = Ok ys -> Forall2 (fun x y => f x = Ok y) l ys.
Proof.
  revert ys; induction l as [|x l IH]; intros ys E'; simpl in E'; [by simplify_eq|].
  apply rbind_Ok in E' as (y & Hy & E'). apply rbind_Ok in E' as (ys' & Hys & E'). simplify_eq.
  constructor; [done|by apply IH].
Qed.

Lemma rmap_total f l : (forall x, x ∈ l -> exists y, f x = Ok y) -> exists ys, rmap f l = Ok ys.
Proof.
  induction l as [|x l IH]; intros Hf; simpl; [by exists []|].
  destruct (Hf x) as (y & ->); [by left|]. destruct IH as (ys & ->); [intros; apply Hf; by right|].
  by exists (y :: ys).
Qed.

Lemma rmap_In f l ys y : rmap f l = Ok ys -> y ∈ ys -> exists x, x ∈ l /\ f x = Ok y.
Proof.
  intros Hys%rmap_Ok. induction Hys as [|x z l ys Hf _ IH]; [by intros ?%not_elem_of_nil|].
  intros [->|Hy]%elem_of_cons; [exists x; by split; [left|]|].
  destruct (IH Hy) as (x' & ? & ?). exists x'. split; [by right|done].
Qed.

Lemma rmap_hit f l ys x y :
  rmap f l = Ok ys -> x ∈ l -> f x = Ok y -> y ∈ ys.
Proof.
  intros Hys%rmap_Ok Hx Hy. induction Hys as [|z y' l ys Hf _ IH]; [by apply not_elem_of_nil in Hx|].
  apply elem_of_cons in Hx as [->|Hx]; [rewrite Hy in Hf; simplify_eq; by left|]. right. by apply IH.
Qed.

Lemma filter_result_Ok (p : A -> result E bool) l kept :
  filter_result p l = Ok kept -> forall x, x ∈ kept <-> x ∈ l /\ p x = Ok true.
Proof.
  revert kept. induction l as [|x l IH]; intros kept; simpl; [intros [= <-]; set_solver|].
  destruct (p x) as [keep|] eqn:Hp; simpl; [|done].
  destruct (filter_result p l) as [rest|]; simpl; [|done]. intros [= <-] y. specialize (IH rest eq_refl y).
  destruct keep; rewrite ?elem_of_cons, IH; split; [intros [->|[? ?]]; auto| |intros [? ?]; auto|].
  - intros [[->|?] ?]; auto.
  - intros [[->|?] ?]; [congruence|done].
Qed.

Lemma filter_result_total (p : A -> result E bool) l :
  (forall x, x ∈ l -> exists keep, p x = Ok keep) -> exists kept, filter_result p l = Ok kept.
Proof.
  induction l as [|x l IH]; intros Hp; simpl; [by exists []|].
  destruct (Hp x) as [keep ->]; [by left|]. destruct IH as [rest ->]; [intros; apply Hp; by right|].
  simpl. eauto.
Qed.
End Results.

(** ** Lists keyed by one of their fields *)

Section Keyed.
Context {A K : Type} `{EqDecision K} (f : A -> K).
Implicit Types (l : list A).

Lemma filter_key_absent k l : k ∉ map f l -> filter (fun x => f x = k) l = [].
Proof.
  induction l as [|x l IH]; simpl; [done|]. rewrite not_elem_of_cons. intros [Hne Hin].
  rewrite filter_cons, decide_False by congruence. by apply IH.
Qed.

Lemma filter_key_unique l x :
  NoDup (map f l) -> x ∈ l -> filter (fun y => f y = f x) l = [x].
Proof.
  induction l as [|y l IH]; simpl; [by intros _ ?%not_elem_of_nil|].
  intros [Hnew Hnd]%NoDup_cons [->|Hin]%elem_of_cons; rewrite filter_cons.
  - rewrite decide_True by done. by rewrite filter_key_absent.
  - rewrite decide_False; [by apply IH|]. intros E. apply Hnew. rewrite E.
    by apply list_elem_of_fmap_2.
Qed.

Lemma key_inj l x y : NoDup (map f l) -> x ∈ l -> y ∈ l -> f x = f y -> x = y.
Proof.
  intros Hnd Hx Hy E. pose proof (filter_key_unique l x Hnd Hx) as Hf.
  assert (y ∈ filter (fun y => f y = f x) l) as Hin by (by apply list_elem_of_filter).
  rewrite Hf in Hin. by apply list_elem_of_singleton in Hin.
Qed.

Lemma sublist_NoDup l l' : sublist l l' -> NoDup (map f l') -> NoDup (map f l).
Proof.
  induction 1 as [|x l l' Hs IH|x l l' Hs IH]; simpl; [done| |];
    intros [Hnew Hnd]%NoDup_cons; [|by apply IH].
  apply NoDup_cons. split; [|by apply IH]. intros Hin. apply Hnew.
  apply list_elem_of_fmap in Hin as (y & -> & Hin). apply list_elem_of_fmap_2.
  eapply elem_of_submseteq; [exact Hin|by apply sublist_submseteq].
Qed.
End Keyed.

#[export] Hint Rewrite @eqb_true @eqb_false @any_true @any_false @all_true : vibesys.
#[export] Hint Resolve eqb_refl : vibesys.
