(* ===== verification/PyFloat.v ===== *)
(** * Python floats

    A Python [float] is an IEEE-754 binary64 number.  It is modelled by the Standard
    Library's executable [spec_float] at precision 53 and maximal exponent 1024, so every
    addition rounds as the code's does.  The comparisons are a total preorder on the
    numbers that are not NaN, which is all the components use of them; [max] and [min]
    return their first argument on a tie, as Python's do. *)

From Stdlib Require Import SpecFloat.
From S2P Require Import Prelude.

(** ** The values and operations *)

Abbreviation float := spec_float.

Definition prec : Z := 53.
Definition emax : Z := 1024.

Definition flt (x y : float) : bool := SFltb x y.
Definition fle (x y : float) : bool := SFleb x y.
Definition feq (x y : float) : bool := SFeqb x y.
Definition fadd (x y : float) : float := SFadd prec emax x y.
Definition fsub (x y : float) : float := SFsub prec emax x y.
Definition fmul (x y : float) : float := SFmul prec emax x y.

(** [float(m)], the conversion of an integer *)
Definition of_int (m : Z) : float := binary_normalize prec emax m 0 false.

Definition fzero : float := S754_zero false.
Definition finf : float := S754_infinity false.

(** [max(x, y)] and [min(x, y)]: the first of the two on a tie *)
Definition fmax (x y : float) : float := if flt x y then y else x.
Definition fmin (x y : float) : float := if flt y x then y else x.

Definition is_nan (x : float) : bool := match x with S754_nan => true | _ => false end.

(** [math.isfinite(x)] *)
Definition is_finite (x : float) : bool :=
  match x with S754_zero _ | S754_finite _ _ _ => true | _ => false end.

#[export] Instance float_eq_dec : EqDecision float.
Proof. solve_decision. Defined.

(** ** The order

    A non-NaN float is ordered by its sign class, then its exponent, then its mantissa. *)

Definition rank (x : float) : Z * Z * Z :=
  match x with
  | S754_nan => (0, 0, 0)
  | S754_zero _ => (0, 0, 0)
  | S754_infinity s => (if s then -2 else 2, 0, 0)
  | S754_finite false m e => (1, e, Z.pos m)
  | S754_finite true m e => (-1, - e, Z.neg m)
  end.

Definition lex_lt (a b : Z * Z * Z) : Prop :=
  let '(a1, a2, a3) := a in
  let '(b1, b2, b3) := b in
  a1 < b1 \/ (a1 = b1 /\ (a2 < b2 \/ (a2 = b2 /\ a3 < b3))).

Lemma flt_rank x y :
  flt x y = true <-> is_nan x = false /\ is_nan y = false /\ lex_lt (rank x) (rank y).
Proof.
  unfold flt, SFltb.
  destruct x as [[]|[]| |[] m e]; destruct y as [[]|[]| |[] m' e']; cbn;
    try (split; [done|lia]); try lia;
    change (Pos.compare_cont Eq m m') with (Pos.compare m m');
    destruct (Z.compare_spec e e'); try destruct (Pos.compare_spec m m');
    simpl; subst; split; intros; try done; lia.
Qed.

Lemma fle_rank x y :
  fle x y = true <-> is_nan x = false /\ is_nan y = false /\ ~ lex_lt (rank y) (rank x).
Proof.
  unfold fle, SFleb.
  destruct x as [[]|[]| |[] m e]; destruct y as [[]|[]| |[] m' e']; cbn;
    try (split; [done|lia]); try lia;
    change (Pos.compare_cont Eq m m') with (Pos.compare m m');
    destruct (Z.compare_spec e e'); try destruct (Pos.compare_spec m m');
    simpl; subst; split; intros; try done; lia.
Qed.

Ltac rank_solve :=
  repeat match goal with
    | H : flt _ _ = true |- _ => apply flt_rank in H as (? & ? & ?)
    | H : fle _ _ = true |- _ => apply fle_rank in H as (? & ? & ?)
    end;
  try apply flt_rank; try apply fle_rank;
  repeat match goal with
    | |- context [rank ?x] => let r := fresh in set (r := rank x) in *; clearbody r; destruct r as [[? ?] ?]
    | H : context [rank ?x] |- _ => let r := fresh in set (r := rank x) in *; clearbody r; destruct r as [[? ?] ?]
    end;
  unfold lex_lt in *; simplify_eq/=; repeat split; try done; try lia.

Lemma fle_refl x : is_nan x = false -> fle x x = true.
Proof. intros. rank_solve. Qed.

Lemma fle_trans x y z : fle x y = true -> fle y z = true -> fle x z = true.
Proof. intros. rank_solve. Qed.

Lemma flt_trans x y z : flt x y = true -> flt y z = true -> flt x z = true.
Proof. intros. rank_solve. Qed.

Lemma flt_le_trans x y z : flt x y = true -> fle y z = true -> flt x z = true.
Proof. intros. rank_solve. Qed.

Lemma fle_lt_trans x y z : fle x y = true -> flt y z = true -> flt x z = true.
Proof. intros. rank_solve. Qed.

Lemma flt_fle x y : flt x y = true -> fle x y = true.
Proof. intros. rank_solve. Qed.

Lemma flt_irrefl x : flt x x = false.
Proof. destruct (flt x x) eqn:H; [|done]. rank_solve. Qed.

Lemma not_flt_fle x y :
  is_nan x = false -> is_nan y = false -> flt x y = false -> fle y x = true.
Proof.
  intros Hx Hy H. apply fle_rank. repeat split; [done..|].
  intros Hlt. assert (flt x y = true); [by apply flt_rank|congruence].
Qed.

Lemma not_fle_flt x y :
  is_nan x = false -> is_nan y = false -> fle x y = false -> flt y x = true.
Proof.
  intros Hx Hy H. destruct (flt y x) eqn:E; [done|].
  rewrite (not_flt_fle y x) in H; done.
Qed.

Lemma feq_refl x : is_nan x = false -> feq x x = true.
Proof.
  unfold feq, SFeqb. destruct x as [|[]| |[] m e]; cbn; try done; intros _;
    by rewrite Z.compare_refl, Pos.compare_cont_refl.
Qed.

Lemma feq_fle x y : feq x y = true -> fle x y = true /\ fle y x = true.
Proof.
  unfold feq, fle, SFeqb, SFleb. destruct x as [[]|[]| |[] m e], y as [[]|[]| |[] m' e']; cbn; try done;
    destruct (Z.compare_spec e e'); try done; subst; rewrite ?Z.compare_refl;
    change (Pos.compare_cont Eq ?a ?b) with (Pos.compare a b);
    destruct (Pos.compare_spec m m'); try done; subst; by rewrite ?Pos.compare_refl.
Qed.

Lemma fle_not_flt x y : fle x y = true -> flt y x = false.
Proof. intros H. destruct (flt y x) eqn:H'; [|done]. rank_solve. Qed.

Lemma flt_not_fle x y : flt x y = true -> fle y x = false.
Proof. intros H. destruct (fle y x) eqn:H'; [|done]. rank_solve. Qed.

Lemma fle_nan_l x y : fle x y = true -> is_nan x = false.
Proof. by intros (? & ? & ?)%fle_rank. Qed.

Lemma fle_nan_r x y : fle x y = true -> is_nan y = false.
Proof. by intros (? & ? & ?)%fle_rank. Qed.

Lemma fmax_ge_l x y : is_nan x = false -> fle x (fmax x y) = true.
Proof. intros. unfold fmax. destruct (flt x y) eqn:?; [by apply flt_fle|by apply fle_refl]. Qed.

Lemma fmax_ge_r x y : is_nan x = false -> is_nan y = false -> fle y (fmax x y) = true.
Proof. intros. unfold fmax. destruct (flt x y) eqn:?; [by apply fle_refl|by apply not_flt_fle]. Qed.

Lemma fmin_le_l x y : is_nan x = false -> fle (fmin x y) x = true.
Proof. intros. unfold fmin. destruct (flt y x) eqn:?; [by apply flt_fle|by apply fle_refl]. Qed.

Lemma fmin_le_r x y : is_nan x = false -> is_nan y = false -> fle (fmin x y) y = true.
Proof. intros. unfold fmin. destruct (flt y x) eqn:?; [by apply fle_refl|by apply not_flt_fle]. Qed.

Lemma fmax_lub x y z : fle x z = true -> fle y z = true -> fle (fmax x y) z = true.
Proof. intros. unfold fmax. by destruct (flt x y). Qed.

Lemma fmin_glb x y z : fle z x = true -> fle z y = true -> fle z (fmin x y) = true.
Proof. intros. unfold fmin. by destruct (flt y x). Qed.

Lemma fmax_nan x y : is_nan x = false -> is_nan (fmax x y) = false.
Proof.
  intros. unfold fmax. destruct (flt x y) eqn:H'; [|done].
  by apply flt_fle, fle_nan_r in H'.
Qed.

Lemma fmin_nan x y : is_nan x = false -> is_nan (fmin x y) = false.
Proof.
  intros. unfold fmin. destruct (flt y x) eqn:H'; [|done].
  by apply flt_fle, fle_nan_l in H'.
Qed.

#[export] Hint Resolve fle_refl flt_fle fmax_ge_l fmax_ge_r fmin_le_l fmin_le_r
  fmax_nan fmin_nan fmax_lub fmin_glb : vibesys.
