(* ===== verification/PySorted.v ===== *)
(** * Python's [sorted]

    [sorted] with a key is stable; here, insertion in order.  [before x y] is that the key of [x] is
    less than the key of [y]. *)

From stdpp Require Import sorting.
From S2P Require Import Prelude.

Section Sorted.
Context {A : Type} (before : A -> A -> bool).

Fixpoint insert_by (x : A) (l : list A) : list A :=
  match l with
  | [] => [x]
  | y :: l => if before x y then x :: y :: l else y :: insert_by x l
  end.

Definition sorted_by (l : list A) : list A := fold_left (fun sorted x => insert_by x sorted) l [].

Lemma insert_by_perm x l : insert_by x l ≡ₚ x :: l.
Proof.
  induction l as [|y l IH]; cbn; [done|]. destruct (before x y); [done|]. rewrite IH. by constructor.
Qed.

Lemma sorted_by_snoc l x : sorted_by (l ++ [x]) = insert_by x (sorted_by l).
Proof. unfold sorted_by. by rewrite fold_left_app. Qed.

Lemma sorted_by_perm l : sorted_by l ≡ₚ l.
Proof.
  induction l as [|x l IH] using rev_ind; [done|].
  rewrite sorted_by_snoc, insert_by_perm, IH. by rewrite Permutation_app_comm.
Qed.

Lemma elem_sorted_by x l : x ∈ sorted_by l <-> x ∈ l.
Proof. by rewrite sorted_by_perm. Qed.

(** Not before: the order of the keys *)
Definition not_before (x y : A) : Prop := before y x = false.

Lemma insert_by_last x l : Forall (fun y => not_before y x) l -> insert_by x l = l ++ [x].
Proof. induction 1 as [|y l Hy _ IH]; cbn; [done|]. by rewrite Hy, IH. Qed.

Lemma insert_by_app x l z : before x z = true -> insert_by x (l ++ [z]) = insert_by x l ++ [z].
Proof.
  intros Hz. induction l as [|y l IH]; cbn; [by rewrite Hz|]. destruct (before x y); cbn; [done|]. by rewrite IH.
Qed.

Lemma insert_by_app_all x l l' : Forall (fun z => before x z = true) l' -> insert_by x (l ++ l') = insert_by x l ++ l'.
Proof.
  induction l' as [|z l' IH] using rev_ind; [by rewrite !app_nil_r|].
  rewrite Forall_app, Forall_singleton. intros [H1 H2]. by rewrite app_assoc, insert_by_app, IH, app_assoc.
Qed.

(** A list whose elements are all early or late: the late ones, of one key, keep their order. *)
Lemma sorted_by_split (early : A -> bool) l :
  (forall x y, x ∈ l -> y ∈ l -> early x = true -> early y = false -> before x y = true /\ before y x = false) ->
  (forall x y, x ∈ l -> y ∈ l -> early x = false -> early y = false -> before x y = false) ->
  sorted_by l = sorted_by (List.filter early l) ++ List.filter (fun x => negb (early x)) l.
Proof.
  induction l as [|x l IH] using rev_ind; [done|]. intros H1 H2.
  assert (Hl : forall y, y ∈ l -> y ∈ l ++ [x]) by (intros; apply elem_of_app; by left).
  assert (Hx : x ∈ l ++ [x]) by (apply elem_of_app; right; by left).
  rewrite sorted_by_snoc, IH by auto. rewrite !List.filter_app. cbn [List.filter]. destruct (early x) eqn:Ex; cbn [negb].
  - rewrite app_nil_r, sorted_by_snoc, insert_by_app_all; [done|]. apply Forall_forall. intros z Hz.
    apply elem_of_filterb in Hz as [Hz Hez]. apply H1; [by auto..|by apply negb_true_iff].
  - rewrite app_nil_r, insert_by_last; [by rewrite app_assoc|]. apply Forall_forall. intros z Hz. unfold not_before.
    apply elem_of_app in Hz as [Hz|Hz].
    + rewrite elem_sorted_by in Hz. apply elem_of_filterb in Hz as [Hz Hez]. by apply H1; auto.
    + apply elem_of_filterb in Hz as [Hz Hez]. apply H2; [by auto..|by apply negb_true_iff].
Qed.

Section Order.
Context (total : forall x y, before x y = true -> before y x = false)
        (transitive : forall x y z, not_before x y -> not_before y z -> not_before x z).

Lemma sorted_by_sorted l : StronglySorted not_before (sorted_by l).
Proof using total transitive.
  induction l as [|x l IH] using rev_ind; [constructor|]. rewrite sorted_by_snoc.
  induction IH as [|y l' Hs IHl Hall]; cbn; [by repeat constructor|].
  destruct (before x y) eqn:E.
  - constructor; [by constructor|]. constructor; [by apply total|].
    eapply Forall_impl; [exact Hall|]. intros z Hz. eapply transitive; [by apply total|done].
  - constructor; [done|]. rewrite insert_by_perm. by constructor.
Qed.

(** The order the elements come in does not matter where no two have the same key. *)
Lemma sorted_by_unique l l' : l ≡ₚ l' ->
  (forall x y, x ∈ l -> y ∈ l -> not_before x y -> not_before y x -> x = y) -> sorted_by l = sorted_by l'.
Proof using total transitive.
  intros Hl Hkey. eapply (StronglySorted_unique_strong not_before); [|by apply sorted_by_sorted..|].
  - intros x y Hx Hy. rewrite sorted_by_perm in Hx. rewrite sorted_by_perm, <- Hl in Hy. by apply Hkey.
  - by rewrite !sorted_by_perm.
Qed.
End Order.
End Sorted.
