(* ===== verification/Regex.v ===== *)
(** * Regular expressions

    The part of Python's [re] the diagnostic redactor uses: literals, character classes,
    concatenation, alternation, repetition and the inline flag [(?i:...)], over strings of
    code points.  [matches] decides a full match by derivatives; [matches_lang] shows it
    agrees with the language the expression denotes. *)

From S2P Require Import Prelude.

(** A Python string: its code points. *)
Abbreviation text := (list Z).

(** [str] literals of the source as code points. *)
Definition str (s : string) : text := map (fun a => Z.of_N (Ascii.N_of_ascii a)) (String.list_ascii_of_string s).

(** A character class, as inclusive ranges of code points. *)
Abbreviation ranges := (list (Z * Z)).

Inductive regex : Type :=
  | Void
  | Eps
  | Class (icase : bool) (r : ranges)
  | Seq (a b : regex)
  | Alt (a b : regex)
  | Star (a : regex).

Definition in_ranges (r : ranges) (c : Z) : bool :=
  any (fun '(lo, hi) => (lo <=? c) && (c <=? hi)) r.

(** The other case of an ASCII letter, which [(?i:...)] also accepts. *)
Definition swap_case (c : Z) : Z :=
  if (65 <=? c) && (c <=? 90) then c + 32
  else if (97 <=? c) && (c <=? 122) then c - 32
  else c.

Definition class_has (icase : bool) (r : ranges) (c : Z) : bool :=
  in_ranges r c || (icase && in_ranges r (swap_case c)).

(** Simplifying constructors, so that derivatives stay small. *)
Definition seq_ (a b : regex) : regex :=
  match a, b with
  | Void, _ | _, Void => Void
  | Eps, _ => b
  | _, _ => Seq a b
  end.

Definition alt_ (a b : regex) : regex :=
  match a, b with
  | Void, _ => b
  | _, Void => a
  | _, _ => Alt a b
  end.

Fixpoint nullable (r : regex) : bool :=
  match r with
  | Void | Class _ _ => false
  | Eps | Star _ => true
  | Seq a b => nullable a && nullable b
  | Alt a b => nullable a || nullable b
  end.

Fixpoint deriv (c : Z) (r : regex) : regex :=
  match r with
  | Void | Eps => Void
  | Class i rs => if class_has i rs c then Eps else Void
  | Seq a b =>
      if nullable a then alt_ (seq_ (deriv c a) b) (deriv c b) else seq_ (deriv c a) b
  | Alt a b => alt_ (deriv c a) (deriv c b)
  | Star a => seq_ (deriv c a) (Star a)
  end.

(** [re.fullmatch(r, s) is not None] *)
Fixpoint matches (r : regex) (s : text) : bool :=
  match s with
  | [] => nullable r
  | c :: s' => matches (deriv c r) s'
  end.

(** The derived forms of the syntax: ["abc"], [r+], [r?], [a|b|...]. *)
Definition lit (icase : bool) (s : string) : regex :=
  fold_right (fun c r => Seq (Class icase [(c, c)]) r) Eps (str s).
Definition plus (r : regex) : regex := Seq r (Star r).
Definition opt (r : regex) : regex := Alt r Eps.
Definition alts (rs : list regex) : regex := fold_right Alt Void rs.

(** ** The language an expression denotes *)

Inductive lang : regex -> text -> Prop :=
  | lang_eps : lang Eps []
  | lang_class i rs c : class_has i rs c = true -> lang (Class i rs) [c]
  | lang_seq a b s t : lang a s -> lang b t -> lang (Seq a b) (s ++ t)
  | lang_alt_l a b s : lang a s -> lang (Alt a b) s
  | lang_alt_r a b s : lang b s -> lang (Alt a b) s
  | lang_star_nil a : lang (Star a) []
  | lang_star_cons a c s t : lang a (c :: s) -> lang (Star a) t -> lang (Star a) (c :: s ++ t).

#[local] Hint Constructors lang : core.

Lemma lang_seq_inv a b s :
  lang (Seq a b) s -> exists u t, s = u ++ t /\ lang a u /\ lang b t.
Proof. intros H. inversion H; subst. eauto. Qed.

Lemma lang_star_inv a c s :
  lang (Star a) (c :: s) -> exists u t, s = u ++ t /\ lang a (c :: u) /\ lang (Star a) t.
Proof. intros H. inversion H; subst. eauto. Qed.

Lemma lang_seq_ a b s : lang (seq_ a b) s <-> lang (Seq a b) s.
Proof.
  destruct a, b; simpl; try done; split; intros H; inversion H; subst;
    repeat match goal with
      | H : lang Void _ |- _ => inversion H
      | H : lang Eps _ |- _ => inversion H; clear H; subst
      end; simpl in *; eauto; by apply (lang_seq Eps _ []).
Qed.

Lemma lang_alt_ a b s : lang (alt_ a b) s <-> lang (Alt a b) s.
Proof.
  destruct a, b; simpl; try done; split; intros H; inversion H; subst; eauto;
    match goal with H : lang Void _ |- _ => inversion H end.
Qed.

Lemma nullable_lang r : nullable r = true <-> lang r [].
Proof.
  induction r; simpl; split; intros H; try done; to_prop.
  - inversion H.
  - inversion H.
  - apply (lang_seq _ _ [] []); tauto.
  - apply lang_seq_inv in H as (u & t & Heq & Ha & Hb).
    symmetry in Heq. apply app_eq_nil in Heq as [-> ->]. apply andb_true_iff. tauto.
  - apply orb_true_iff in H as [H|H]; [apply lang_alt_l|apply lang_alt_r]; tauto.
  - apply orb_true_iff. inversion H; subst; tauto.
Qed.

Lemma deriv_lang c r s : lang (deriv c r) s <-> lang r (c :: s).
Proof.
  revert s; induction r as [| |i rs|a IHa b IHb|a IHa b IHb|a IHa]; intros s; simpl.
  - split; intros H; inversion H.
  - split; intros H; inversion H.
  - destruct (class_has i rs c) eqn:Hc; split; intros H; inversion H; subst; eauto; congruence.
  - assert (Hsplit : lang (Seq a b) (c :: s) <->
      (exists u t, s = u ++ t /\ lang a (c :: u) /\ lang b t) \/ (lang a [] /\ lang b (c :: s))).
    { split.
      - intros (u & t & Heq & Ha & Hb)%lang_seq_inv.
        destruct u as [|d u]; simpl in *; simplify_eq; eauto 10.
      - intros [(u & t & -> & Ha & Hb)|[Ha Hb]].
        + by apply (lang_seq a b (c :: u) t).
        + by apply (lang_seq a b [] (c :: s)). }
    assert (Hd : lang (seq_ (deriv c a) b) s <-> exists u t, s = u ++ t /\ lang a (c :: u) /\ lang b t).
    { rewrite lang_seq_. split.
      - intros (u & t & -> & Ha & Hb)%lang_seq_inv. apply IHa in Ha. eauto.
      - intros (u & t & -> & Ha & Hb). apply lang_seq; [by apply IHa|done]. }
    rewrite Hsplit, <- nullable_lang. destruct (nullable a).
    + rewrite lang_alt_. split.
      * intros H; inversion H; subst; [left; by apply Hd|right; split; [done|by apply IHb]].
      * intros [H|[_ H]]; [apply lang_alt_l; by apply Hd|apply lang_alt_r; by apply IHb].
    + rewrite Hd. split; [by left|by intros [?|[? _]]].
  - rewrite lang_alt_. split; intros H; inversion H; subst;
      solve [apply lang_alt_l; by apply IHa|apply lang_alt_r; by apply IHb].
  - rewrite lang_seq_. split; intros H.
    + apply lang_seq_inv in H as (u & t & -> & Ha & Hb). apply IHa in Ha. by apply lang_star_cons.
    + apply lang_star_inv in H as (u & t & -> & Ha & Hb).
      apply lang_seq; [by apply IHa|done].
Qed.

(** [matches] decides membership in the denoted language. *)
Lemma matches_lang r s : matches r s = true <-> lang r s.
Proof.
  revert r; induction s as [|c s IH]; intros r; simpl.
  - apply nullable_lang.
  - rewrite IH. apply deriv_lang.
Qed.
