(* ===== verification/Redaction.v ===== *)
(** * The diagnostic redactor

    [libs/vs-redaction]: the secret-name grammar ([_patterns.py]) and the incremental
    stream redactor [DiagnosticRedactor] ([_stream.py]).  [append] and [finish] are the
    public methods; [consume] and its helpers are the private ones, with the object's
    fields passed as a state and the [emitted] list appended to in place as the returned
    list.  The theorems: the redactor never holds more than its bound, loses no text
    until it redacts, emits the same text however the stream is cut into fragments, and
    what follows a secret name never depends on the secret. *)

From S2P Require Import Prelude Regex.

(** ** Definitions *)

(** *** The grammar of secret names ([_patterns.py]) *)

Definition alnum_lower : ranges := [(97, 122); (48, 57)].
Definition alnum : ranges := [(65, 90); (97, 122); (48, 57)].
Definition underscore_dash : ranges := [(95, 95); (45, 45)].
Definition upper : ranges := [(65, 90)].

Definition COMPACT_SECRET_NAMES : list string :=
  ["accesskey"; "accesstoken"; "apikey"; "authtoken"; "awsaccesskeyid"; "awssecretaccesskey";
   "bearertoken"; "clientkey"; "clientsecret"; "databasepassword"; "dbpassword"; "githubtoken";
   "idtoken"; "openaiapikey"; "privatekey"; "refreshtoken"; "secretkey"; "sessiontoken"]%string.

Definition COMPACT_SECRET_PATTERN : regex := alts (map (lit true) COMPACT_SECRET_NAMES).

(** The verbose pattern of the source, in its order: under the case-insensitive flag,
    segments joined by underscores or dashes with a key word after the first, the compact
    names and the bare words; else a camel-case word. *)
Definition SECRET_NAME : regex :=
  let i := true in
  Alt
    (alts
      [Seq (plus (Seq (plus (Class i alnum_lower)) (Class i underscore_dash)))
         (Seq (alts (map (lit i) ["token"; "password"; "secret"; "key"]%string))
            (Star (Seq (Class i underscore_dash) (plus (Class i alnum_lower)))));
       COMPACT_SECRET_PATTERN;
       lit i "password"; lit i "secret"; lit i "token"])
    (Seq (Star (Class false alnum))
      (Seq (alts (map (lit false) ["Token"; "Password"; "Secret"; "Key"]%string))
        (opt (Seq (Class false upper) (Star (Class false alnum)))))).

Definition BEARER : regex := lit true "bearer".

(** *** Characters *)

(** [character.isspace()], for one character of a Python string *)
Definition isspace (c : Z) : bool :=
  in_ranges [(9, 13); (28, 32); (133, 133); (160, 160); (5760, 5760); (8192, 8202);
             (8232, 8233); (8239, 8239); (8287, 8287); (12288, 12288)] c.

Definition is_token_character (c : Z) : bool := in_ranges (alnum ++ underscore_dash) c.

(** [character in ",;"] and [character in ":="] *)
Definition in_terminators (c : Z) : bool := in_ranges [(44, 44); (59, 59)] c.
Definition in_assigns (c : Z) : bool := in_ranges [(58, 58); (61, 61)] c.

(** [\w], for the ASCII characters a token holds *)
Definition is_word (c : Z) : bool := in_ranges (alnum ++ [(95, 95)]) c.

(** [\b] between the character before a position and the one after it *)
Definition boundary (before after : option Z) : bool :=
  let w := from_option is_word false in
  xorb (w before) (w after).

(** [re.search(r"\b(?P<name>...)\b$", token)]: the leftmost suffix that is a name, split
    off the token.  [end_boundary] is the pattern's closing [\b]. *)
Fixpoint search_at_end (name : regex) (end_boundary : bool) (before : option Z) (token : text)
  : option (text * text) :=
  let here :=
    boundary before (head token) && matches name token
    && (negb end_boundary || boundary (last token) None) in
  if here then Some ([], token)
  else
    match token with
    | [] => None
    | c :: token' =>
        match search_at_end name end_boundary (Some c) token' with
        | Some (pre, nm) => Some (c :: pre, nm)
        | None => None
        end
    end.

Definition SECRET_AT_END (token : text) : option (text * text) :=
  search_at_end SECRET_NAME true None token.
Definition BEARER_AT_END (token : text) : option (text * text) :=
  search_at_end BEARER false None token.

(** *** The redactor's state *)

Definition MAX_PENDING_CHARACTERS : Z := 1024 * 1024.
Definition OVERSIZED_CANDIDATE : text :=
  str "[vibesys-redaction] oversized diagnostic token omitted".
Definition REDACTED : text := str "[REDACTED]".

Inductive Mode : Type :=
  | TEXT
  | ASSIGNMENT_SEPARATOR
  | ASSIGNMENT_VALUE
  | BEARER_VALUE
  | SECRET_VALUE
  | SEALED.

#[export] Instance Mode_eq_dec : EqDecision Mode.
Proof. solve_decision. Defined.

Record DiagnosticRedactor : Type := mk_redactor {
  mode : Mode;
  pending : list text;
  pending_size : Z;
  finished : bool;
}.

Definition new_redactor : DiagnosticRedactor := mk_redactor TEXT [] 0 false.

(** Every private method returns the new state and the [emitted] list. *)
Abbreviation Step := (DiagnosticRedactor * list text)%type.

Definition set_mode (m : Mode) (s : DiagnosticRedactor) : DiagnosticRedactor :=
  mk_redactor m (pending s) (pending_size s) (finished s).

Definition clear_pending (s : DiagnosticRedactor) : DiagnosticRedactor :=
  mk_redactor (mode s) [] 0 (finished s).

Definition emit_pending (s : DiagnosticRedactor) (emitted : list text) : Step :=
  (clear_pending s, emitted ++ pending s).

Definition replace_pending (t : text) (s : DiagnosticRedactor) : DiagnosticRedactor :=
  mk_redactor (mode s) [t] (Z.of_nat (length t)) (finished s).

Definition hold (t : text) (s : DiagnosticRedactor) (emitted : list text) : Step :=
  let s := mk_redactor (mode s) (pending s ++ [t]) (pending_size s + Z.of_nat (length t)) (finished s) in
  if pending_size s <=? MAX_PENDING_CHARACTERS then (s, emitted)
  else (set_mode SEALED (clear_pending s), emitted ++ [OVERSIZED_CANDIDATE]).

(** [self._hold(separator, emitted)] followed by [self._mode = m] *)
Definition hold_then (m : Mode) (t : text) (s : DiagnosticRedactor) (emitted : list text) : Step :=
  let '(s, emitted) := hold t s emitted in (set_mode m s, emitted).

Definition finish_token (separator : Z) (s : DiagnosticRedactor) (emitted : list text) : Step :=
  let token := concat (pending s) in
  match SECRET_AT_END token with
  | Some (pre, name) =>
      let emitted := emitted ++ [pre] in
      let s := replace_pending name s in
      if isspace separator then hold_then ASSIGNMENT_SEPARATOR [separator] s emitted
      else if in_assigns separator then hold_then ASSIGNMENT_VALUE [separator] s emitted
      else let '(s, emitted) := emit_pending s emitted in (s, emitted ++ [[separator]])
  | None =>
      match BEARER_AT_END token with
      | Some (pre, name) =>
          if isspace separator then
            hold_then BEARER_VALUE [separator] (replace_pending name s) (emitted ++ [pre])
          else let '(s, emitted) := emit_pending s emitted in (s, emitted ++ [[separator]])
      | None => let '(s, emitted) := emit_pending s emitted in (s, emitted ++ [[separator]])
      end
  end.

Definition consume_secret_value (c : Z) (s : DiagnosticRedactor) (emitted : list text) : Step :=
  if isspace c || in_terminators c then (set_mode TEXT s, emitted ++ [[c]]) else (s, emitted).

(** The last two branches of [_consume], which are the whole of it in mode [TEXT]. *)
Definition consume_text (c : Z) (s : DiagnosticRedactor) (emitted : list text) : Step :=
  if is_token_character c then hold [c] s emitted else finish_token c s emitted.

Definition consume_assignment_separator (c : Z) (s : DiagnosticRedactor) (emitted : list text) : Step :=
  if isspace c then hold [c] s emitted
  else if in_assigns c then hold_then ASSIGNMENT_VALUE [c] s emitted
  else let '(s, emitted) := emit_pending s emitted in consume_text c (set_mode TEXT s) emitted.

Definition consume_value_prefix (c : Z) (s : DiagnosticRedactor) (emitted : list text) : Step :=
  if isspace c then hold [c] s emitted
  else
    let '(s, emitted) := emit_pending s emitted in
    if in_terminators c then (set_mode TEXT s, emitted ++ [[c]])
    else (set_mode SECRET_VALUE s, emitted ++ [REDACTED]).

Definition consume (c : Z) (s : DiagnosticRedactor) (emitted : list text) : Step :=
  match mode s with
  | SEALED => (s, emitted)
  | SECRET_VALUE => consume_secret_value c s emitted
  | ASSIGNMENT_SEPARATOR => consume_assignment_separator c s emitted
  | ASSIGNMENT_VALUE | BEARER_VALUE => consume_value_prefix c s emitted
  | TEXT => consume_text c s emitted
  end.

(** The loop of [append] over the characters of its text. *)
Definition consume_all (t : text) (s : DiagnosticRedactor) (emitted : list text) : Step :=
  fold_left (fun '(s, emitted) c => consume c s emitted) t (s, emitted).

Inductive redactor_error : Type := AppendToFinished.

Definition append (s : DiagnosticRedactor) (t : text) : result redactor_error (DiagnosticRedactor * text) :=
  require* negb (finished s) else AppendToFinished in
  let '(s, emitted) := consume_all t s [] in
  Ok (s, concat emitted).

Definition finish (s : DiagnosticRedactor) : DiagnosticRedactor * text :=
  if finished s then (s, [])
  else
    let s := mk_redactor (mode s) (pending s) (pending_size s) true in
    match mode s with
    | SECRET_VALUE | SEALED => (clear_pending s, [])
    | _ => (clear_pending s, concat (pending s))
    end.

(** A whole stream delivered as fragments: the text the caller has seen after [finish]. *)
Fixpoint deliver (s : DiagnosticRedactor) (fragments : list text) : result redactor_error text :=
  match fragments with
  | [] => Ok (snd (finish s))
  | f :: fs =>
      let* r := append s f in
      let* rest := deliver (fst r) fs in
      Ok (snd r ++ rest)
  end.

Definition redact (fragments : list text) : result redactor_error text :=
  deliver new_redactor fragments.

(** ** Lemmas *)

(** What a reachable redactor satisfies. *)
Definition redactor_ok (s : DiagnosticRedactor) : Prop :=
  pending_size s = Z.of_nat (length (concat (pending s)))
  /\ pending_size s <= MAX_PENDING_CHARACTERS
  /\ (mode s = TEXT -> Forall (fun c => is_token_character c = true) (concat (pending s)))
  /\ (mode s = SECRET_VALUE \/ mode s = SEALED -> pending s = []).

(** The modes in which text may have been suppressed. *)
Definition redacting (s : DiagnosticRedactor) : bool :=
  match mode s with SECRET_VALUE | SEALED => true | _ => false end.

Definition pending_text (s : DiagnosticRedactor) : text := concat (pending s).

Lemma search_at_end_split name eb before token pre nm :
  search_at_end name eb before token = Some (pre, nm) ->
  token = pre ++ nm /\ matches name nm = true
  /\ boundary (match pre with [] => before | _ => last pre end) (head nm) = true
  /\ (eb = true -> boundary (last nm) None = true).
Proof.
  revert before pre; induction token as [|c token IH]; intros before pre; cbn [search_at_end].
  - destruct (boundary _ _ && _ && _) eqn:H; [|done]. intros [= <- <-]. to_prop.
    repeat split; [done..|]. intros ->. by destruct (boundary _ _) in *.
  - destruct (boundary _ _ && _ && _) eqn:H.
    + intros [= <- <-]. to_prop. repeat split; [done..|]. by intros ->.
    + destruct (search_at_end name eb (Some c) token) as [[pre' nm']|] eqn:Hs; [|done].
      intros [= <- <-]. apply IH in Hs as (-> & Hm & Hb & He). repeat split; by try destruct pre'.
Qed.

Lemma hold_app t s em :
  hold t s em = (fst (hold t s []), em ++ snd (hold t s [])).
Proof. unfold hold. destruct (_ <=? _); simpl; by rewrite ?app_nil_r. Qed.

Lemma hold_then_app m t s em :
  hold_then m t s em = (fst (hold_then m t s []), em ++ snd (hold_then m t s [])).
Proof. unfold hold_then. rewrite hold_app. by destruct (hold t s []). Qed.

Lemma hold_then_extend m t s em em' :
  hold_then m t s (em ++ em') =
  (fst (hold_then m t s em'), em ++ snd (hold_then m t s em')).
Proof. rewrite hold_then_app, (hold_then_app _ _ _ em'). simpl. by rewrite app_assoc. Qed.

Lemma finish_token_app c s em :
  finish_token c s em = (fst (finish_token c s []), em ++ snd (finish_token c s [])).
Proof.
  unfold finish_token, emit_pending.
  destruct (SECRET_AT_END _) as [[pre nm]|]; [destruct (isspace c); [|destruct (in_assigns c)]|
    destruct (BEARER_AT_END _) as [[pre nm]|]; [destruct (isspace c)|]]; simpl;
    first [apply hold_then_extend | by rewrite <- !app_assoc].
Qed.

Lemma consume_text_app c s em :
  consume_text c s em = (fst (consume_text c s []), em ++ snd (consume_text c s [])).
Proof. unfold consume_text. destruct (is_token_character c); [apply hold_app|apply finish_token_app]. Qed.

(** A step only appends to the emitted list, so the list so far does not matter. *)
Lemma consume_app c s em :
  consume c s em = (fst (consume c s []), em ++ snd (consume c s [])).
Proof.
  unfold consume. destruct (mode s).
  - apply consume_text_app.
  - unfold consume_assignment_separator, emit_pending.
    destruct (isspace c); [apply hold_app|]. destruct (in_assigns c); [apply hold_then_app|].
    rewrite (consume_text_app _ _ (em ++ _)), (consume_text_app _ _ ([] ++ _)). simpl.
    by rewrite app_assoc.
  - unfold consume_value_prefix, emit_pending.
    destruct (isspace c); [apply hold_app|]. destruct (in_terminators c); simpl; by rewrite app_assoc.
  - unfold consume_value_prefix, emit_pending.
    destruct (isspace c); [apply hold_app|]. destruct (in_terminators c); simpl; by rewrite app_assoc.
  - unfold consume_secret_value. destruct (_ || _); simpl; by rewrite ?app_nil_r.
  - simpl. by rewrite app_nil_r.
Qed.

Lemma consume_all_cons c t s em :
  consume_all (c :: t) s em =
  (let '(s', em') := consume c s em in consume_all t s' em').
Proof. unfold consume_all. simpl. by destruct (consume c s em). Qed.

Lemma consume_all_app_em t s em :
  consume_all t s em = (fst (consume_all t s []), em ++ snd (consume_all t s [])).
Proof.
  revert s em; induction t as [|c t IH]; intros s em.
  - simpl. by rewrite app_nil_r.
  - rewrite !consume_all_cons, (consume_app c s em).
    destruct (consume c s []) as [s' d]; simpl.
    rewrite (IH s' (em ++ d)), (IH s' d). simpl. by rewrite app_assoc.
Qed.

Lemma consume_all_app t u s em :
  consume_all (t ++ u) s em =
  (let '(s', em') := consume_all t s em in consume_all u s' em').
Proof. unfold consume_all. rewrite fold_left_app. by destruct (fold_left _ t (s, em)). Qed.

(** *** The well-formedness of a step *)

Lemma concat_snoc {A} (l : list (list A)) x : concat (l ++ [x]) = concat l ++ x.
Proof. rewrite concat_app. simpl. by rewrite app_nil_r. Qed.

Lemma hold_ok t s em :
  redactor_ok s -> (mode s = TEXT -> Forall (fun c => is_token_character c = true) t) ->
  redacting s = false -> redactor_ok (fst (hold t s em)).
Proof.
  intros (Hsz & Hmax & Htok & Hnil) Ht Hr. unfold hold; simpl.
  destruct (Z.leb_spec (pending_size s + Z.of_nat (length t)) MAX_PENDING_CHARACTERS); simpl.
  - unfold redactor_ok; simpl. rewrite concat_snoc, length_app. split_and!; [lia|lia| |].
    + intros Hm. apply Forall_app. auto.
    + unfold redacting in Hr. intros [Hm|Hm]; rewrite Hm in Hr; done.
  - unfold redactor_ok; simpl. unfold MAX_PENDING_CHARACTERS. split_and!; by try lia.
Qed.

Lemma hold_then_ok m t s em :
  redactor_ok s -> m <> TEXT -> m <> SECRET_VALUE -> m <> SEALED ->
  redactor_ok (fst (hold_then m t s em)).
Proof.
  intros (Hsz & Hmax & Htok & Hnil) H1 H2 H3. unfold hold_then, hold; simpl.
  destruct (Z.leb_spec (pending_size s + Z.of_nat (length t)) MAX_PENDING_CHARACTERS); simpl;
    unfold redactor_ok; simpl.
  - rewrite concat_snoc, length_app. split_and!; [lia|lia|done|by intros [?|?]].
  - unfold MAX_PENDING_CHARACTERS. split_and!; [done|lia|done|by intros [?|?]].
Qed.

Lemma clear_pending_ok s : redactor_ok (clear_pending s).
Proof. unfold redactor_ok, MAX_PENDING_CHARACTERS; simpl. split_and!; [done|lia|done|done]. Qed.

Lemma set_mode_clear_ok m s : redactor_ok (set_mode m (clear_pending s)).
Proof. unfold redactor_ok, MAX_PENDING_CHARACTERS; simpl. split_and!; [done|lia|done|done]. Qed.

Lemma replace_pending_ok name eb s pre nm :
  redactor_ok s -> mode s = TEXT ->
  search_at_end name eb None (concat (pending s)) = Some (pre, nm) ->
  redactor_ok (replace_pending nm s).
Proof.
  intros (Hsz & Hmax & Htok & Hnil) Hm Hs.
  apply search_at_end_split in Hs as (Heq & _). specialize (Htok Hm).
  rewrite Heq in Hsz, Htok. rewrite length_app in Hsz. apply Forall_app in Htok as [_ Htok].
  unfold redactor_ok; simpl. rewrite app_nil_r. split_and!; [done|lia|done|].
  rewrite Hm. by intros [?|?].
Qed.

Lemma finish_token_ok c s em :
  redactor_ok s -> mode s = TEXT -> redactor_ok (fst (finish_token c s em)).
Proof.
  intros Hok Hm. unfold finish_token, emit_pending.
  destruct (SECRET_AT_END _) as [[pre nm]|] eqn:Hs;
    [|destruct (BEARER_AT_END _) as [[pre nm]|] eqn:Hb];
    repeat match goal with |- context [if ?b then _ else _] => destruct b end; simpl;
    solve [apply clear_pending_ok
          | apply hold_then_ok; [by eapply replace_pending_ok|done..]].
Qed.

Lemma consume_text_ok c s em :
  redactor_ok s -> mode s = TEXT -> redactor_ok (fst (consume_text c s em)).
Proof.
  intros Hok Hm. unfold consume_text. destruct (is_token_character c) eqn:Hc.
  - apply hold_ok; [done|by repeat constructor|by unfold redacting; rewrite Hm].
  - by apply finish_token_ok.
Qed.

Lemma hold_ok_mode m t s em :
  mode s = m -> m <> TEXT -> m <> SECRET_VALUE -> m <> SEALED ->
  redactor_ok s -> redactor_ok (fst (hold t s em)).
Proof.
  intros Hm H1 H2 H3 Hok. apply hold_ok; [done|congruence|].
  unfold redacting. by rewrite Hm; destruct m.
Qed.

Lemma consume_ok c s em : redactor_ok s -> redactor_ok (fst (consume c s em)).
Proof.
  intros Hok. unfold consume. destruct (mode s) eqn:Hm; try done.
  - by apply consume_text_ok.
  - unfold consume_assignment_separator, emit_pending.
    destruct (isspace c); [by eapply hold_ok_mode|].
    destruct (in_assigns c); [by apply hold_then_ok|].
    apply consume_text_ok; [apply set_mode_clear_ok|done].
  - unfold consume_value_prefix, emit_pending.
    destruct (isspace c); [by eapply hold_ok_mode|].
    destruct (in_terminators c); simpl; apply set_mode_clear_ok.
  - unfold consume_value_prefix, emit_pending.
    destruct (isspace c); [by eapply hold_ok_mode|].
    destruct (in_terminators c); simpl; apply set_mode_clear_ok.
  - unfold consume_secret_value. destruct (_ || _); simpl; [|done].
    destruct Hok as (Hsz & Hmax & _ & Hnil). unfold redactor_ok; simpl.
    rewrite Hnil in Hsz |- * by auto. by split_and!.
Qed.

Lemma consume_all_ok t s em : redactor_ok s -> redactor_ok (fst (consume_all t s em)).
Proof.
  revert s em; induction t as [|c t IH]; intros s em Hok; [done|].
  rewrite consume_all_cons. pose proof (consume_ok c s em Hok) as H.
  destruct (consume c s em). by apply IH.
Qed.

Lemma new_redactor_ok : redactor_ok new_redactor.
Proof. unfold redactor_ok, MAX_PENDING_CHARACTERS; simpl. split_and!; [done|lia|done|done]. Qed.

(** *** No text is lost before the first redaction *)

(** Emitted text followed by held text. *)
Definition seen (r : Step) : text := concat (snd r) ++ pending_text (fst r).

Lemma hold_seen t s em :
  redacting (fst (hold t s em)) = false -> seen (hold t s em) = seen (s, em) ++ t.
Proof.
  unfold hold, seen, pending_text; simpl. destruct (_ <=? _); simpl; [|done].
  intros _. by rewrite concat_snoc, app_assoc.
Qed.

Lemma hold_then_seen m t s em :
  pending_size s + Z.of_nat (length t) <= MAX_PENDING_CHARACTERS ->
  seen (hold_then m t s em) = seen (s, em) ++ t.
Proof.
  intros Hsz. unfold hold_then, hold, seen, pending_text; simpl.
  destruct (Z.leb_spec (pending_size s + Z.of_nat (length t)) MAX_PENDING_CHARACTERS); [|lia].
  simpl. by rewrite concat_snoc, app_assoc.
Qed.

Lemma seen_split pre nm s em token :
  pending_text s = token -> token = pre ++ nm ->
  seen (replace_pending nm s, em ++ [pre]) = seen (s, em).
Proof.
  intros <- Heq. unfold seen, pending_text in *; simpl.
  by rewrite concat_snoc, app_nil_r, <- app_assoc, <- Heq.
Qed.

Lemma seen_emit s em c :
  seen (clear_pending s, (em ++ pending s) ++ [[c]]) = seen (s, em) ++ [c].
Proof.
  unfold seen, pending_text; simpl. by rewrite concat_snoc, concat_app, app_nil_r.
Qed.

(** Whether a step overflows the bound, which is the only way to lose text without
    having found a secret. *)
Definition overflows (c : Z) (s : DiagnosticRedactor) : Prop :=
  MAX_PENDING_CHARACTERS < pending_size s + 1.

Lemma finish_token_seen c s em :
  redactor_ok s -> mode s = TEXT -> ~ overflows c s ->
  seen (finish_token c s em) = seen (s, em) ++ [c].
Proof.
  unfold overflows. intros (Hsz & Hmax & _) Hm Hov. unfold finish_token, emit_pending.
  assert (Hnm : forall pre nm, concat (pending s) = pre ++ nm ->
    pending_size (replace_pending nm s) + Z.of_nat (length [c]) <= MAX_PENDING_CHARACTERS).
  { intros pre nm Heq. rewrite Heq, length_app in Hsz. simpl. lia. }
  destruct (SECRET_AT_END _) as [[pre nm]|] eqn:Hs;
    [|destruct (BEARER_AT_END _) as [[pre nm]|] eqn:Hb];
    repeat match goal with |- context [if ?b then _ else _] => destruct b end; simpl;
    try (apply search_at_end_split in Hs as (Heq & _));
    try (apply search_at_end_split in Hb as (Heq & _));
    rewrite ?hold_then_seen by eauto;
    try (by erewrite seen_split by done); try apply seen_emit.
  change ([nm]) with (pending (replace_pending nm s)).
  change (mk_redactor (mode s) [] 0 (finished s)) with (clear_pending (replace_pending nm s)).
  rewrite (seen_emit (replace_pending nm s) (em ++ [pre]) c). by erewrite seen_split by done.
Qed.

Lemma consume_seen c s em :
  redactor_ok s -> ~ overflows c s ->
  redacting s = false -> redacting (fst (consume c s em)) = false ->
  seen (consume c s em) = seen (s, em) ++ [c].
Proof.
  intros Hok Hov Hr. assert (Hsz : pending_size s + Z.of_nat (length [c]) <= MAX_PENDING_CHARACTERS)
    by (unfold overflows in Hov; simpl; lia).
  unfold consume. unfold redacting in Hr. destruct (mode s) eqn:Hm; try done.
  - unfold consume_text. destruct (is_token_character c).
    + apply hold_seen.
    + intros _. by apply finish_token_seen.
  - unfold consume_assignment_separator, emit_pending. destruct (isspace c).
    { apply hold_seen. }
    destruct (in_assigns c); [intros _; by apply hold_then_seen|].
    intros _. set (s0 := set_mode TEXT (clear_pending s)).
    replace (seen (s, em)) with (seen (s0, em ++ pending s)) by
      (unfold seen, pending_text; simpl; by rewrite concat_app, app_nil_r).
    unfold consume_text. destruct (is_token_character c).
    + by apply hold_seen.
    + by apply finish_token_seen; [apply set_mode_clear_ok|..].
  - unfold consume_value_prefix, emit_pending. destruct (isspace c); [apply hold_seen|].
    destruct (in_terminators c); [|done]. intros _. apply seen_emit.
  - unfold consume_value_prefix, emit_pending. destruct (isspace c); [apply hold_seen|].
    destruct (in_terminators c); [|done]. intros _. apply seen_emit.
Qed.

Lemma redacting_false_finish s :
  redactor_ok s -> finished s = false -> redacting s = false -> snd (finish s) = pending_text s.
Proof. intros _ Hf Hr. unfold finish. rewrite Hf. unfold redacting in Hr; simpl. by destruct (mode s). Qed.

Lemma hold_finished t s em : finished (fst (hold t s em)) = finished s.
Proof. unfold hold. by destruct (_ <=? _). Qed.

Lemma hold_then_finished m t s em : finished (fst (hold_then m t s em)) = finished s.
Proof. unfold hold_then, hold. simpl. by destruct (_ <=? _). Qed.

Lemma finish_token_finished c s em : finished (fst (finish_token c s em)) = finished s.
Proof.
  unfold finish_token, emit_pending.
  destruct (SECRET_AT_END _) as [[pre nm]|]; [|destruct (BEARER_AT_END _) as [[pre nm]|]];
    repeat match goal with |- context [if ?b then _ else _] => destruct b end;
    simpl; by rewrite ?hold_then_finished.
Qed.

Lemma consume_finished c s em : finished (fst (consume c s em)) = finished s.
Proof.
  unfold consume, consume_assignment_separator, consume_value_prefix,
    consume_secret_value, consume_text, emit_pending.
  destruct (mode s);
    repeat match goal with |- context [if ?b then _ else _] => destruct b end;
    simpl; by rewrite ?hold_then_finished, ?hold_finished, ?finish_token_finished.
Qed.

Lemma consume_all_finished t s em : finished (fst (consume_all t s em)) = finished s.
Proof.
  revert s em; induction t as [|c t IH]; intros s em; [done|].
  rewrite consume_all_cons. pose proof (consume_finished c s em) as H.
  destruct (consume c s em) as [s' em']. simpl in H. by rewrite IH.
Qed.

(** [append] as a function of the whole run. *)
Lemma append_open s t :
  finished s = false ->
  append s t = Ok (fst (consume_all t s []), concat (snd (consume_all t s []))).
Proof. intros Hf. unfold append. rewrite Hf. simpl. by destruct (consume_all t s []). Qed.

Lemma deliver_open s fs :
  finished s = false ->
  deliver s fs =
  Ok (concat (snd (consume_all (concat fs) s []))
      ++ snd (finish (fst (consume_all (concat fs) s [])))).
Proof.
  revert s; induction fs as [|f fs IH]; intros s Hf; [done|].
  simpl. rewrite append_open by done. simpl.
  rewrite IH by (by rewrite consume_all_finished). simpl.
  rewrite consume_all_app.
  destruct (consume_all f s []) as [s' em'] eqn:Hc; simpl.
  rewrite (consume_all_app_em (concat fs) s' em'). simpl.
  by rewrite concat_app, app_assoc.
Qed.

(** *** The path of a secret *)

Definition value_character (c : Z) : bool := negb (isspace c || in_terminators c).

Lemma secret_value_run v s em :
  mode s = SECRET_VALUE -> all value_character v = true -> consume_all v s em = (s, em).
Proof.
  intros Hm. revert em; induction v as [|c v IH]; intros em; [done|]. unfold all; simpl.
  intros [Hc Hv]%andb_true_iff. rewrite consume_all_cons. unfold consume. rewrite Hm.
  unfold consume_secret_value. unfold value_character in Hc.
  apply negb_true_iff in Hc. rewrite Hc. by apply IH.
Qed.

(** In a mode that waits for a value, the value is replaced whatever it is. *)
Lemma value_redacted v s em :
  mode s = ASSIGNMENT_VALUE \/ mode s = BEARER_VALUE ->
  v <> [] -> all value_character v = true ->
  consume_all v s em = (set_mode SECRET_VALUE (clear_pending s), (em ++ pending s) ++ [REDACTED]).
Proof.
  intros Hm Hv Hall. destruct v as [|c v]; [done|]. unfold all in Hall; simpl in Hall.
  apply andb_true_iff in Hall as [Hc Hall].
  unfold value_character in Hc. apply negb_true_iff, orb_false_iff in Hc as [Hs Ht].
  rewrite consume_all_cons. unfold consume.
  assert (Hp : consume_value_prefix c s em =
    (set_mode SECRET_VALUE (clear_pending s), (em ++ pending s) ++ [REDACTED])).
  { unfold consume_value_prefix, emit_pending. by rewrite Hs, Ht. }
  destruct Hm as [Hm|Hm]; rewrite Hm, Hp; by apply secret_value_run.
Qed.

Definition blanks (sp : text) : Prop := all isspace sp = true.

Lemma set_mode_id s : set_mode (mode s) s = s.
Proof. by destruct s. Qed.

Lemma hold_fits t s em :
  pending_size s + Z.of_nat (length t) <= MAX_PENDING_CHARACTERS ->
  hold t s em =
  (mk_redactor (mode s) (pending s ++ [t]) (pending_size s + Z.of_nat (length t)) (finished s), em).
Proof. intros H. unfold hold; simpl. apply Z.leb_le in H. by rewrite H. Qed.

(** Blanks after the separator are held with it. *)
Lemma value_blanks sp s em :
  mode s = ASSIGNMENT_VALUE \/ mode s = BEARER_VALUE -> blanks sp ->
  pending_size s + Z.of_nat (length sp) <= MAX_PENDING_CHARACTERS ->
  exists s', consume_all sp s em = (s', em) /\ mode s' = mode s /\ finished s' = finished s
    /\ pending_text s' = pending_text s ++ sp
    /\ pending_size s' = pending_size s + Z.of_nat (length sp).
Proof.
  intros Hm Hb. revert s Hm; induction sp as [|c sp IH]; intros s Hm Hsz.
  - exists s. unfold consume_all. simpl. rewrite app_nil_r. split_and!; try done. lia.
  - unfold blanks, all in Hb; simpl in Hb. apply andb_true_iff in Hb as [Hc Hb].
    simpl in Hsz.
    rewrite consume_all_cons.
    assert (Hcons : consume c s em = hold [c] s em).
    { unfold consume, consume_value_prefix. by destruct Hm as [Hm|Hm]; rewrite Hm, Hc. }
    rewrite Hcons, hold_fits by (simpl; lia).
    destruct (IH Hb (mk_redactor (mode s) (pending s ++ [[c]])
      (pending_size s + Z.of_nat (length [c])) (finished s)))
      as (s' & Hrun & Hm' & Hf' & Hp' & Hs'); [done|simpl; lia|].
    exists s'. split_and!; [done|done|done| |simpl in *; lia].
    rewrite Hp'. unfold pending_text; simpl. by rewrite concat_snoc, <- app_assoc.
Qed.

(** A token is held character by character. *)
Lemma token_run t s em :
  mode s = TEXT -> all is_token_character t = true ->
  pending_size s + Z.of_nat (length t) <= MAX_PENDING_CHARACTERS ->
  exists s', consume_all t s em = (s', em) /\ mode s' = TEXT /\ finished s' = finished s
    /\ pending_text s' = pending_text s ++ t
    /\ pending_size s' = pending_size s + Z.of_nat (length t).
Proof.
  intros Hm Ht. revert s Hm; induction t as [|c t IH]; intros s Hm Hsz.
  - exists s. unfold consume_all. simpl. rewrite app_nil_r. split_and!; try done. lia.
  - unfold all in Ht; simpl in Ht. apply andb_true_iff in Ht as [Hc Ht]. simpl in Hsz.
    rewrite consume_all_cons. unfold consume, consume_text. rewrite Hm, Hc.
    rewrite hold_fits by (simpl; lia).
    destruct (IH Ht (mk_redactor (mode s) (pending s ++ [[c]])
      (pending_size s + Z.of_nat (length [c])) (finished s)))
      as (s' & Hrun & Hm' & Hf' & Hp' & Hs'); [done|simpl; lia|].
    exists s'. split_and!; [done|done|done| |simpl in *; lia].
    rewrite Hp'. unfold pending_text; simpl. by rewrite concat_snoc, <- app_assoc.
Qed.

(** Reading a secret's name and its separator leaves the redactor waiting for the value,
    with everything read so far still shown or held. *)
Lemma secret_name_run tok pre nm a s em :
  mode s = TEXT -> pending s = [] -> pending_size s = 0 ->
  all is_token_character tok = true -> SECRET_AT_END tok = Some (pre, nm) ->
  isspace a = false -> in_assigns a = true -> is_token_character a = false ->
  Z.of_nat (length tok) + 1 <= MAX_PENDING_CHARACTERS ->
  exists s', consume_all (tok ++ [a]) s em = (s', em ++ [pre]) /\ mode s' = ASSIGNMENT_VALUE
    /\ finished s' = finished s /\ pending_text s' = nm ++ [a]
    /\ pending_size s' = Z.of_nat (length nm) + 1.
Proof.
  intros Hm Hp Hz Htok Hs Hsp Ha Hnt Hlen.
  destruct (token_run tok s em Hm Htok) as (s1 & Hrun & Hm1 & Hf1 & Hp1 & Hz1); [lia|].
  unfold pending_text in Hp1. rewrite Hp in Hp1. simpl in Hp1.
  assert (Hnm : Z.of_nat (length nm) <= Z.of_nat (length tok)).
  { apply search_at_end_split in Hs as (-> & _). rewrite length_app. lia. }
  rewrite consume_all_app, Hrun, consume_all_cons.
  unfold consume, consume_text. rewrite Hm1, Hnt.
  unfold finish_token. rewrite Hp1, Hs, Hsp, Ha.
  unfold hold_then. rewrite hold_fits by (simpl; lia). simpl.
  eexists. unfold consume_all; simpl. split_and!; [reflexivity|done|done|done|simpl; lia].
Qed.

Lemma assigns_not_space a : in_assigns a = true -> isspace a = false /\ is_token_character a = false.
Proof.
  unfold in_assigns, in_ranges. simpl. rewrite orb_false_r. intros H.
  assert (a = 58 \/ a = 61) as [-> | ->] by lia; done.
Qed.

(** The hypotheses under which a stream position introduces a secret: the redactor is at
    the start of a token [tok] that ends in a secret name, followed by a separator and
    blanks, all within the bound. *)
Record introduces_secret (s : DiagnosticRedactor) (tok : text) (a : Z) (sp : text) : Prop := {
  is_mode : mode s = TEXT;
  is_pending : pending s = [];
  is_size : pending_size s = 0;
  is_open : finished s = false;
  is_token : all is_token_character tok = true;
  is_secret : SECRET_AT_END tok <> None;
  is_assign : in_assigns a = true;
  is_blank : blanks sp;
  is_bounded : Z.of_nat (length tok) + 1 + Z.of_nat (length sp) <= MAX_PENDING_CHARACTERS;
}.

Lemma secret_run s tok a sp v em :
  introduces_secret s tok a sp -> v <> [] -> all value_character v = true ->
  exists s' em', consume_all (tok ++ [a] ++ sp ++ v) s em = (s', em ++ em')
    /\ concat em' = tok ++ [a] ++ sp ++ REDACTED
    /\ s' = mk_redactor SECRET_VALUE [] 0 false.
Proof.
  intros [Hm Hp Hz Hf Htok Hs Ha Hb Hlen] Hv Hall.
  destruct (SECRET_AT_END tok) as [[pre nm]|] eqn:Hs'; [|done].
  destruct (assigns_not_space a Ha) as [Hsp Hnt].
  destruct (secret_name_run tok pre nm a s em) as (s1 & Hr1 & Hm1 & Hf1 & Hp1 & Hz1); [done..|lia|].
  pose proof (search_at_end_split _ _ _ _ _ _ Hs') as (Heq & _).
  assert (length nm <= length tok)%nat by (rewrite Heq, length_app; lia).
  destruct (value_blanks sp s1 (em ++ [pre])) as (s2 & Hr2 & Hm2 & Hf2 & Hp2 & Hz2);
    [by left|done|lia|].
  rewrite app_assoc, consume_all_app, Hr1, consume_all_app, Hr2.
  rewrite value_redacted by (try done; left; congruence).
  eexists _, _. split; [by rewrite <- !app_assoc|]. split.
  - simpl. rewrite concat_snoc. unfold pending_text in Hp2, Hp1.
    rewrite Hp2, Hp1, Heq. by rewrite <- !app_assoc.
  - destruct s2; simpl in *. by rewrite Hf2, Hf1, Hf.
Qed.

Lemma SECRET_AT_END_token pre nm w : SECRET_AT_END w = Some (pre, nm) -> w = pre ++ nm.
Proof. intros H. by apply search_at_end_split in H as (-> & _). Qed.

Lemma is_token_not_space c : is_token_character c = true -> isspace c = false.
Proof.
  unfold is_token_character, isspace, in_ranges, alnum, underscore_dash. simpl. lia.
Qed.

(** The state of a run that has found no secret: in [TEXT], holding the current token. *)
Lemma plain_run t : forall w s em,
  mode s = TEXT -> redactor_ok s -> pending_text s = w ->
  Z.of_nat (length (w ++ t)) <= MAX_PENDING_CHARACTERS ->
  (forall p u q, w ++ t = p ++ u ++ q -> all is_token_character u = true ->
    SECRET_AT_END u = None /\ BEARER_AT_END u = None) ->
  mode (fst (consume_all t s em)) = TEXT /\ seen (consume_all t s em) = seen (s, em) ++ t.
Proof.
  induction t as [|c t IH]; intros w s em Hm Hok Hw Hlen Hno.
  { unfold consume_all; simpl. by rewrite app_nil_r. }
  pose proof Hok as (Hsz & _ & Htok & _). specialize (Htok Hm).
  unfold pending_text in Hw. rewrite Hw in Hsz, Htok. rewrite length_app in Hlen. simpl in Hlen.
  assert (Hfits : ~ overflows c s) by (unfold overflows; lia).
  rewrite consume_all_cons. destruct (consume c s em) as [s1 em1] eqn:Hc.
  assert (Hok1 : redactor_ok s1) by (pose proof (consume_ok c s em Hok) as H; by rewrite Hc in H).
  assert (Hstep : mode s1 = TEXT /\ seen (s1, em1) = seen (s, em) ++ [c]
    /\ pending_text s1 = if is_token_character c then w ++ [c] else []).
  { revert Hc. unfold consume. rewrite Hm. unfold consume_text.
    destruct (is_token_character c) eqn:Hct.
    - rewrite hold_fits by (simpl; lia). intros [= <- <-]; simpl. unfold seen, pending_text; simpl.
      rewrite concat_snoc, app_assoc, Hw. done.
    - assert (HSB : SECRET_AT_END w = None /\ BEARER_AT_END w = None).
      { apply (Hno [] w (c :: t)); [done|]. apply all_true. intros x Hx.
        rewrite Forall_forall in Htok. by apply Htok. }
      destruct HSB as [HS HB].
      intros Hft. pose proof (finish_token_seen c s em Hok Hm Hfits) as Hseen.
      rewrite Hft in Hseen. unfold finish_token, emit_pending in Hft. rewrite Hw, HS, HB in Hft.
      injection Hft as <- <-. by rewrite Hseen. }
  destruct Hstep as (Hm1 & Hseen & Hp1).
  destruct (IH (pending_text s1) s1 em1) as [Hm2 Hseen2]; try done.
  - rewrite Hp1. destruct (is_token_character c); rewrite ?length_app; simpl; lia.
  - intros p u q Heq Hu. rewrite Hp1 in Heq. destruct (is_token_character c).
    + apply (Hno p u q); [|done]. by rewrite <- Heq, <- app_assoc.
    + simpl in Heq. apply (Hno (w ++ c :: p) u q); [|done]. by rewrite Heq, <- app_assoc.
  - split; [done|]. by rewrite Hseen2, Hseen, <- app_assoc.
Qed.

(** ** Properties *)

(** However a diagnostic stream is cut into fragments, the text the redactor lets
    through is the one it lets through for the whole stream delivered at once. *)
Theorem redact_chunk_invariant (fragments : list text) :
  redact fragments = redact [concat fragments].
Proof. unfold redact. rewrite !deliver_open by done. simpl. by rewrite app_nil_r. Qed.

(** C38: the text let through after a secret name does not depend on the secret.  Whatever
    the stream before it left behind, once a token that ends in a secret name is followed
    by a separator, two streams that differ only in the value give the same output and
    leave the same state. *)
Theorem secret_value_independent (s : DiagnosticRedactor) (tok sp v1 v2 rest : text) (a : Z) :
  introduces_secret s tok a sp ->
  v1 <> [] -> all value_character v1 = true -> v2 <> [] -> all value_character v2 = true ->
  append s (tok ++ [a] ++ sp ++ v1 ++ rest) = append s (tok ++ [a] ++ sp ++ v2 ++ rest).
Proof.
  intros Hi Hv1 Ha1 Hv2 Ha2. pose proof (is_open _ _ _ _ Hi) as Hf.
  rewrite !append_open by done.
  replace (tok ++ [a] ++ sp ++ v1 ++ rest) with ((tok ++ [a] ++ sp ++ v1) ++ rest)
    by (by rewrite <- !app_assoc).
  replace (tok ++ [a] ++ sp ++ v2 ++ rest) with ((tok ++ [a] ++ sp ++ v2) ++ rest)
    by (by rewrite <- !app_assoc).
  destruct (secret_run s tok a sp v1 [] Hi Hv1 Ha1) as (s1 & e1 & Hr1 & Hc1 & ->).
  destruct (secret_run s tok a sp v2 [] Hi Hv2 Ha2) as (s2 & e2 & Hr2 & Hc2 & ->).
  rewrite (consume_all_app (tok ++ [a] ++ sp ++ v1) rest), (consume_all_app (tok ++ [a] ++ sp ++ v2) rest), Hr1, Hr2.
  rewrite (consume_all_app_em _ _ ([] ++ e1)), (consume_all_app_em _ _ ([] ++ e2)). simpl.
  by rewrite !concat_app, Hc1, Hc2.
Qed.

(** An assignment to a secret name is shown with its name, separator and blanks, and
    the marker in place of its value. *)
Theorem secret_assignment_redacted (s : DiagnosticRedactor) (tok sp v : text) (a : Z) :
  introduces_secret s tok a sp -> v <> [] -> all value_character v = true ->
  append s (tok ++ [a] ++ sp ++ v) =
  Ok (mk_redactor SECRET_VALUE [] 0 false, tok ++ [a] ++ sp ++ REDACTED).
Proof.
  intros Hi Hv Ha. rewrite append_open by apply (is_open _ _ _ _ Hi).
  destruct (secret_run s tok a sp v [] Hi Hv Ha) as (s1 & e1 & -> & Hc & ->).
  by rewrite <- Hc.
Qed.

(** A stream none of whose words ends in a secret name or in [bearer] passes through
    unchanged. *)
Theorem redact_transparent (t : text) :
  Z.of_nat (length t) <= MAX_PENDING_CHARACTERS ->
  (forall p w q, t = p ++ w ++ q -> all is_token_character w = true ->
    SECRET_AT_END w = None /\ BEARER_AT_END w = None) ->
  redact [t] = Ok t.
Proof.
  intros Hlen Hno. unfold redact. rewrite deliver_open by done. simpl. rewrite app_nil_r.
  destruct (plain_run t [] new_redactor [] eq_refl new_redactor_ok eq_refl Hlen Hno) as [Hm Hseen].
  rewrite redacting_false_finish.
  - f_equal. unfold seen in Hseen. simpl in Hseen. exact Hseen.
  - by apply consume_all_ok, new_redactor_ok.
  - by rewrite consume_all_finished.
  - unfold redacting. by rewrite Hm.
Qed.

(** The redactor's private candidate never exceeds its bound, and its size counter is
    the length of the text it holds. *)
Theorem append_bounded (s s' : DiagnosticRedactor) (t out : text) :
  redactor_ok s -> append s t = Ok (s', out) ->
  redactor_ok s' /\ Z.of_nat (length (pending_text s')) <= MAX_PENDING_CHARACTERS.
Proof.
  intros Hok Ha. unfold append in Ha. rinvert Ha. injection Ha as <- _.
  assert (redactor_ok d) as Hd.
  { pose proof (consume_all_ok t s [] Hok) as H. by rewrite Heqp in H. }
  split; [done|]. destruct Hd as (Hsz & Hmax & _). unfold pending_text. lia.
Qed.

(** Text is lost only to a redaction: on a stream where no step redacts or overflows,
    what was shown and what is still held are together exactly what was read, in order. *)
Theorem consume_all_lossless (t : text) (s : DiagnosticRedactor) (emitted : list text) :
  redactor_ok s -> redacting s = false ->
  (forall p c q, t = p ++ c :: q ->
    ~ overflows c (fst (consume_all p s emitted))
    /\ redacting (fst (consume_all (p ++ [c]) s emitted)) = false) ->
  seen (consume_all t s emitted) = seen (s, emitted) ++ t.
Proof.
  revert s emitted; induction t as [|c t IH]; intros s em Hok Hr Hall.
  { unfold consume_all; simpl. by rewrite app_nil_r. }
  destruct (Hall [] c t eq_refl) as [Hov Hred].
  unfold consume_all in Hov, Hred; simpl in Hov, Hred.
  rewrite consume_all_cons. destruct (consume c s em) as [s1 em1] eqn:Hc.
  rewrite IH.
  - rewrite <- Hc, consume_seen; [by rewrite <- app_assoc|done..|by rewrite Hc].
  - pose proof (consume_ok c s em Hok) as H. by rewrite Hc in H.
  - done.
  - intros p d q ->. specialize (Hall (c :: p) d q eq_refl).
    by rewrite <- app_comm_cons, !consume_all_cons, Hc in Hall.
Qed.

(** [finish] is idempotent and final: a second call returns no text, and text cannot be
    appended any more. *)
Theorem finish_final (s : DiagnosticRedactor) (t : text) :
  snd (finish (fst (finish s))) = []
  /\ fst (finish (fst (finish s))) = fst (finish s)
  /\ append (fst (finish s)) t = Err AppendToFinished.
Proof.
  assert (Hf : finished (fst (finish s)) = true).
  { unfold finish. destruct (finished s) eqn:H; [done|]. simpl. by destruct (mode s). }
  unfold append. unfold finish at 1 3. by rewrite Hf.
Qed.

(** A candidate that overflows at its separator is dropped with the marker, but the
    redactor is not sealed: the mode set after [_hold] replaces [SEALED], and the stream
    goes on after the value. *)
Theorem overflow_at_separator_not_sealed (s : DiagnosticRedactor) (c : Z) (emitted : list text) :
  mode s = ASSIGNMENT_SEPARATOR -> pending_size s = MAX_PENDING_CHARACTERS ->
  in_assigns c = true ->
  consume c s emitted =
  (mk_redactor ASSIGNMENT_VALUE [] 0 (finished s), emitted ++ [OVERSIZED_CANDIDATE]).
Proof.
  intros Hm Hz Ha. destruct (assigns_not_space c Ha) as [Hs _].
  unfold consume, consume_assignment_separator. rewrite Hm, Hs, Ha.
  unfold hold_then, hold. simpl. rewrite Hz. done.
Qed.

(** ** Witnesses *)

Lemma secret_value_independent_witness :
  append new_redactor (str "DB_PASSWORD" ++ [61] ++ str " " ++ str "hunter2" ++ str "; ok")
  = append new_redactor (str "DB_PASSWORD" ++ [61] ++ str " " ++ str "x" ++ str "; ok").
Proof.
  apply (secret_value_independent new_redactor (str "DB_PASSWORD") (str " ")); try done;
    split; vm_compute; done.
Defined.

Lemma secret_assignment_redacted_witness :
  append new_redactor (str "apikey" ++ [58] ++ str " " ++ str "abc")
  = Ok (mk_redactor SECRET_VALUE [] 0 false, str "apikey" ++ [58] ++ str " " ++ REDACTED).
Proof.
  apply (secret_assignment_redacted new_redactor (str "apikey") (str " ") (str "abc") 58); try done;
    split; vm_compute; done.
Defined.

Lemma redact_transparent_witness : redact [str "a!"] = Ok (str "a!").
Proof.
  apply (redact_transparent (str "a!")); [vm_compute; done|].
  intros p w q Heq Hw.
  change (str "a!") with [97; 33] in Heq.
  destruct w as [|c w]; [by split|].
  destruct p as [|d [|e p]]; simpl in Heq; inversion Heq; subst.
  - destruct w as [|d w]; [by split|]. simpl in Heq. inversion Heq; subst. vm_compute in Hw. done.
  - vm_compute in Hw. done.
  - by destruct p.
Defined.

Lemma append_bounded_witness :
  exists s' out, append new_redactor (str "x = 1") = Ok (s', out)
    /\ redactor_ok s' /\ Z.of_nat (length (pending_text s')) <= MAX_PENDING_CHARACTERS.
Proof.
  eexists _, _. split; [reflexivity|].
  apply (append_bounded new_redactor _ (str "x = 1") (str "x = ")); [apply new_redactor_ok|reflexivity].
Defined.

Lemma consume_all_lossless_witness : seen (consume_all (str "a b") new_redactor []) = str "a b".
Proof.
  apply (consume_all_lossless (str "a b") new_redactor []); [apply new_redactor_ok|done|].
  intros p c q Heq. change (str "a b") with [97; 32; 98] in Heq.
  destruct p as [|x [|y [|z p]]]; simpl in Heq; inversion Heq; subst; [..|by destruct p];
    (split; vm_compute; congruence).
Defined.

Lemma overflow_at_separator_not_sealed_witness :
  consume 58 (mk_redactor ASSIGNMENT_SEPARATOR [] MAX_PENDING_CHARACTERS false) []
  = (mk_redactor ASSIGNMENT_VALUE [] 0 false, [OVERSIZED_CANDIDATE]).
Proof. apply (overflow_at_separator_not_sealed (mk_redactor ASSIGNMENT_SEPARATOR [] MAX_PENDING_CHARACTERS false) 58 []); reflexivity. Defined.
