(* ===== verification/Identities.v ===== *)
(** * Identities, scopes and the closed vocabularies of the lifecycle kernel

    [libs/vs-core/src/vs_core/_generated/vibesys/core/v1/common_cv.py], [vocabulary_cv.py],
    [leaves_cv.py] and [_revision_ref.py].  An identity is nominal: its domain is part of its
    type, as each generated class has its own [kind] tag. *)

From Stdlib Require Import Ascii.
From S2P Require Import Prelude PyFloat.

(** ** Nominal identities *)

Inductive Domain : Set :=
  | DRun | DAttempt | DItem | DSession | DInvocation | DContinuation | DInput | DEvidence
  | DDecision | DRequest | DEvent | DSettlement | DStrategy | DOperation | DArtifact | DResource
  | DRevision | DRole | DPool | DCharge | DControl | DHost.

Record Identity (kind : Domain) : Set := MkIdentity { root : string }.
Arguments MkIdentity {kind} root.
Arguments root {kind} _.

#[export] Instance Identity_dec (kind : Domain) : EqDecision (Identity kind).
Proof. solve_decision. Defined.

Definition RunId := Identity DRun.
Definition AttemptId := Identity DAttempt.
Definition ItemId := Identity DItem.
Definition SessionId := Identity DSession.
Definition InvocationId := Identity DInvocation.
Definition ContinuationId := Identity DContinuation.
Definition InputId := Identity DInput.
Definition EvidenceId := Identity DEvidence.
Definition DecisionId := Identity DDecision.
Definition RequestId := Identity DRequest.
Definition EventId := Identity DEvent.
Definition SettlementId := Identity DSettlement.
Definition StrategyId := Identity DStrategy.
Definition OperationId := Identity DOperation.
Definition ArtifactId := Identity DArtifact.
Definition ResourceId := Identity DResource.
Definition RevisionId := Identity DRevision.
Definition RoleId := Identity DRole.
Definition PoolId := Identity DPool.
Definition ChargeId := Identity DCharge.
Definition ControlId := Identity DControl.

(** ** Closed vocabularies *)

Module RunStatus.
Inductive RunStatus : Set := RUNNING | PAUSED | CLOSING | TERMINAL | BLOCKED | DRAINING | PARKED.
End RunStatus.
Abbreviation RunStatus := RunStatus.RunStatus.
#[export] Instance RunStatus_dec : EqDecision RunStatus.
Proof. solve_decision. Defined.

Module PauseOwner.
Inductive PauseOwner : Set := OPERATOR | QUOTA.
End PauseOwner.
Abbreviation PauseOwner := PauseOwner.PauseOwner.
#[export] Instance PauseOwner_dec : EqDecision PauseOwner.
Proof. solve_decision. Defined.

Module StopMode.
Inductive StopMode : Set := DRAIN | CANCEL.
End StopMode.
Abbreviation StopMode := StopMode.StopMode.
#[export] Instance StopMode_dec : EqDecision StopMode.
Proof. solve_decision. Defined.

(** [ResumeWhen]: ["now"] and ["capacity_returns"] *)
Module ResumeWhen.
Inductive ResumeWhen : Set := NOW | CAPACITY_RETURNS.
End ResumeWhen.
Abbreviation ResumeWhen := ResumeWhen.ResumeWhen.
#[export] Instance ResumeWhen_dec : EqDecision ResumeWhen.
Proof. solve_decision. Defined.

Module InputMode.
Inductive InputMode : Set := NEXT_TURN | INTERRUPT | STANDING.
End InputMode.
Abbreviation InputMode := InputMode.InputMode.
#[export] Instance InputMode_dec : EqDecision InputMode.
Proof. solve_decision. Defined.

Module ControlAction.
Inductive ControlAction : Set := PAUSE | RESUME | STOP | STEER | WITHDRAW | CANCEL_ATTEMPT | CANCEL_ITEM | SET_MAX_PARALLEL | PARK | PAUSE_NOW.
End ControlAction.
Abbreviation ControlAction := ControlAction.ControlAction.
#[export] Instance ControlAction_dec : EqDecision ControlAction.
Proof. solve_decision. Defined.

Module LifecycleClass.
Inductive LifecycleClass : Set := QUERY | IDEMPOTENT_WRITE | OWNED_JOB | SESSION_TURN.
End LifecycleClass.
Abbreviation LifecycleClass := LifecycleClass.LifecycleClass.
#[export] Instance LifecycleClass_dec : EqDecision LifecycleClass.
Proof. solve_decision. Defined.

Module EvidenceKind.
Inductive EvidenceKind : Set := CORRECTNESS | BENCHMARK | PROFILING.
End EvidenceKind.
Abbreviation EvidenceKind := EvidenceKind.EvidenceKind.
#[export] Instance EvidenceKind_dec : EqDecision EvidenceKind.
Proof. solve_decision. Defined.

Module ObservationStatus.
Inductive ObservationStatus : Set := SUCCEEDED | PENDING | CANCELLED | REJECTED | FAILED | UNKNOWN.
End ObservationStatus.
Abbreviation ObservationStatus := ObservationStatus.ObservationStatus.
#[export] Instance ObservationStatus_dec : EqDecision ObservationStatus.
Proof. solve_decision. Defined.

Module ChargeKind.
Inductive ChargeKind : Set := ADMISSION | ATTEMPT | TURN.
End ChargeKind.
Abbreviation ChargeKind := ChargeKind.ChargeKind.
#[export] Instance ChargeKind_dec : EqDecision ChargeKind.
Proof. solve_decision. Defined.

(** ** Values that name other values *)

(** Canonical JSON of a value that no modelled rule looks inside; two such values are equal
    when their canonical texts are. *)
Definition Canonical := string.

Record SchemaRef := {
  schema_name : string;
  schema_version : Z
}.
#[export] Instance SchemaRef_dec : EqDecision SchemaRef.
Proof. solve_decision. Defined.
#[export] Instance SchemaRef_eta : Eta SchemaRef := fun r => Build_SchemaRef (schema_name r)
  (schema_version r).

Record ArtifactRef := {
  artifact_artifact_id : ArtifactId;
  artifact_digest : string;
  artifact_schema_ref : option SchemaRef
}.
#[export] Instance ArtifactRef_dec : EqDecision ArtifactRef.
Proof. solve_decision. Defined.
#[export] Instance ArtifactRef_eta : Eta ArtifactRef := fun r => Build_ArtifactRef
  (artifact_artifact_id r) (artifact_digest r) (artifact_schema_ref r).

Inductive ScopeOwner : Set :=
  | OwnerRun (run : RunId)
  | OwnerAttempt (attempt : AttemptId).

#[export] Instance ScopeOwner_dec : EqDecision ScopeOwner.
Proof. solve_decision. Defined.

(** [isinstance(scope.owner, AttemptId)] *)
Definition is_attempt (owner : ScopeOwner) : bool :=
  match owner with OwnerAttempt _ => true | OwnerRun _ => false end.

Record Scope := {
  scope_owner : ScopeOwner;
  scope_generation : Z
}.
#[export] Instance Scope_dec : EqDecision Scope.
Proof. solve_decision. Defined.
#[export] Instance Scope_eta : Eta Scope := fun r => Build_Scope (scope_owner r)
  (scope_generation r).

Record InvocationRef := {
  iref_session_id : SessionId;
  iref_invocation_id : InvocationId;
  iref_generation : Z
}.
#[export] Instance InvocationRef_dec : EqDecision InvocationRef.
Proof. solve_decision. Defined.
#[export] Instance InvocationRef_eta : Eta InvocationRef := fun r => Build_InvocationRef
  (iref_session_id r) (iref_invocation_id r) (iref_generation r).

Record AttemptRef := {
  aref_attempt_id : AttemptId;
  aref_generation : Z
}.
#[export] Instance AttemptRef_dec : EqDecision AttemptRef.
Proof. solve_decision. Defined.
#[export] Instance AttemptRef_eta : Eta AttemptRef := fun r => Build_AttemptRef
  (aref_attempt_id r) (aref_generation r).

(** ** Revisions *)

Record RevisionRef := {
  revision_revision_id : RevisionId;
  revision_digest : string
}.
#[export] Instance RevisionRef_dec : EqDecision RevisionRef.
Proof. solve_decision. Defined.
#[export] Instance RevisionRef_eta : Eta RevisionRef := fun r => Build_RevisionRef
  (revision_revision_id r) (revision_digest r).

Definition GIT_COMMIT : string := "git-commit".
Definition git_prefix : string := GIT_COMMIT +:+ ":".

(** ASCII characters [str.strip] removes: tab, newline, vertical tab, form feed, carriage
    return, the four separators and space. *)
Definition is_space (c : Ascii.ascii) : bool :=
  let n := Ascii.nat_of_ascii c in
  ((9 <=? n)%nat && (n <=? 13)%nat) || ((28 <=? n)%nat && (n <=? 32)%nat).

Definition bare_commit (commit : string) : bool :=
  let chars := String.list_ascii_of_string commit in
  not_none (head chars)
  && match head chars, last chars with
     | Some a, Some b => negb (is_space a) && negb (is_space b)
     | _, _ => false
     end
  && negb (any (fun c => eqb c ":"%char) chars).

Inductive RevisionError : Set := CommitNotBare.

(** [RevisionReference.of_git_commit] *)
Definition of_git_commit (commit : string) : result RevisionError RevisionRef :=
  require* bare_commit commit else CommitNotBare in
  Ok {| revision_revision_id := MkIdentity commit; revision_digest := git_prefix +:+ commit |}.

(** [digest.removeprefix(prefix)] when the prefix is there *)
Fixpoint strip_prefix (prefix s : string) : option string :=
  match prefix, s with
  | "", _ => Some s
  | String a prefix', String b s' => if eqb a b then strip_prefix prefix' s' else None
  | String _ _, "" => None
  end%string.

(** [RevisionReference.git_commit] *)
Definition git_commit (ref : RevisionRef) : option string :=
  match strip_prefix git_prefix (revision_digest ref) with
  | None => None
  | Some commit =>
      if negb (eqb commit ""%string) && eqb commit (root (revision_revision_id ref))
      then Some commit
      else None
  end.

Lemma strip_prefix_app prefix s : strip_prefix prefix (prefix +:+ s) = Some s.
Proof. induction prefix as [|a prefix IH]; simpl; [done|]. by rewrite eqb_refl. Qed.

Lemma strip_prefix_Some prefix s rest :
  strip_prefix prefix s = Some rest -> s = prefix +:+ rest.
Proof.
  revert s; induction prefix as [|a prefix IH]; intros s; simpl; [by intros [= ->]|].
  destruct s as [|b s]; [done|]. destruct (eqb a b) eqn:E; [|done].
  intros H. apply eqb_true in E as ->. by rewrite (IH s H).
Qed.

(** A git revision names its commit.  A revision reference is the one minted from a commit
    exactly when it is read back as that commit and the commit is a bare one: not empty, no
    space at either end, no colon.  So minting and reading are inverse, and no reference whose
    identity and digest disagree is read as a commit. *)
Theorem git_revision_roundtrip ref commit :
  of_git_commit commit = Ok ref <-> git_commit ref = Some commit /\ bare_commit commit = true.
Proof.
  unfold of_git_commit, git_commit. split.
  - destruct (bare_commit commit) eqn:Hbare; cbn [ensure rbind]; [|done]. intros [= <-].
    cbn [revision_digest revision_revision_id root]. rewrite strip_prefix_app, eqb_refl, andb_true_r. split; [|done].
    destruct (eqb commit "") eqn:E; [|done]. apply eqb_eq in E as ->. by vm_compute in Hbare.
  - intros [E ->]. simpl. destruct (strip_prefix git_prefix (revision_digest ref)) as [c|] eqn:Hp; [|done].
    destruct (_ && _) eqn:Hc; [|done]. injection E as ->. apply andb_true_iff in Hc as [_ Hroot].
    apply eqb_eq in Hroot. apply strip_prefix_Some in Hp. destruct ref as [[id] digest]. simpl in *.
    by subst.
Qed.
