(* ===== verification/Values.v ===== *)
(** * Values the lifecycle areas share, with the rules their constructors enforce

    [libs/vs-core/src/vs_core/types/common.py] and the controls of
    [_generated/vibesys/core/v1/control_cv.py].  A pydantic validator is a function to
    [result]: [Err field] is the [ContractValidationError] naming that field (for the generated
    values, the [ValueError] of that rule), and the first failing rule is the one raised. *)

From S2P Require Import Prelude PyFloat Identities.

(** [type Seconds]: [Field(ge=0, allow_inf_nan=False)] *)
Definition seconds_ok (x : float) : bool := is_finite x && fle fzero x.

(** ** Enumerations *)

Module RejectionCode.
Inductive RejectionCode : Set := STALE_VIEW | IDENTITY_CONFLICT | UNKNOWN_KIND | UNKNOWN_SCHEMA | UNDECLARED_OPERATION | CAPABILITY | OWNERSHIP | GENERATION | CLOSED_SCOPE | BUDGET | DEPENDENCY | EVIDENCE | ALREADY_SETTLED | NOT_IMPLEMENTED_IN_KERNEL.
End RejectionCode.
Abbreviation RejectionCode := RejectionCode.RejectionCode.
#[export] Instance RejectionCode_dec : EqDecision RejectionCode.
Proof. solve_decision. Defined.

Module InterruptPolicy.
Inductive InterruptPolicy : Set := RERUN | CANCEL.
End InterruptPolicy.
Abbreviation InterruptPolicy := InterruptPolicy.InterruptPolicy.
#[export] Instance InterruptPolicy_dec : EqDecision InterruptPolicy.
Proof. solve_decision. Defined.

Module ClosePolicy.
Inductive ClosePolicy : Set := WAIT | WITHDRAW.
End ClosePolicy.
Abbreviation ClosePolicy := ClosePolicy.ClosePolicy.
#[export] Instance ClosePolicy_dec : EqDecision ClosePolicy.
Proof. solve_decision. Defined.

Module EndPolicy.
Inductive EndPolicy : Set := CANCEL | RELEASE.
End EndPolicy.
Abbreviation EndPolicy := EndPolicy.EndPolicy.
#[export] Instance EndPolicy_dec : EqDecision EndPolicy.
Proof. solve_decision. Defined.

Module RevisionAuthority.
Inductive RevisionAuthority : Set := NONE | SNAPSHOT | RETAIN | RESTORE | DISCARD.
End RevisionAuthority.
Abbreviation RevisionAuthority := RevisionAuthority.RevisionAuthority.
#[export] Instance RevisionAuthority_dec : EqDecision RevisionAuthority.
Proof. solve_decision. Defined.

Module OperationNormalizationKind.
Inductive OperationNormalizationKind : Set := NONE | SCOPE_REOPEN.
End OperationNormalizationKind.
Abbreviation OperationNormalizationKind := OperationNormalizationKind.OperationNormalizationKind.
#[export] Instance OperationNormalizationKind_dec : EqDecision OperationNormalizationKind.
Proof. solve_decision. Defined.

Module TurnFailureKind.
Inductive TurnFailureKind : Set := PROVIDER_FAILED | TRANSPORT_LOST | CANCELLED | EPOCH_INTERRUPTED | PROVIDER_UNAVAILABLE.
End TurnFailureKind.
Abbreviation TurnFailureKind := TurnFailureKind.TurnFailureKind.
#[export] Instance TurnFailureKind_dec : EqDecision TurnFailureKind.
Proof. solve_decision. Defined.

Module SetupFailureKind.
Inductive SetupFailureKind : Set := TRANSIENT | PERMANENT | UNSUPPORTED | UNKNOWN.
End SetupFailureKind.
Abbreviation SetupFailureKind := SetupFailureKind.SetupFailureKind.
#[export] Instance SetupFailureKind_dec : EqDecision SetupFailureKind.
Proof. solve_decision. Defined.

Module WorkspaceMode.
Inductive WorkspaceMode : Set := EXCLUSIVE_ROOT | ISOLATED_CHILD | READ_ONLY_REVISION.
End WorkspaceMode.
Abbreviation WorkspaceMode := WorkspaceMode.WorkspaceMode.
#[export] Instance WorkspaceMode_dec : EqDecision WorkspaceMode.
Proof. solve_decision. Defined.

Module CompletionStatus.
Inductive CompletionStatus : Set := SUCCEEDED | FAILED | CANCELLED.
End CompletionStatus.
Abbreviation CompletionStatus := CompletionStatus.CompletionStatus.
#[export] Instance CompletionStatus_dec : EqDecision CompletionStatus.
Proof. solve_decision. Defined.

Module DependencyStatus.
Inductive DependencyStatus : Set := PENDING | SUCCEEDED | FAILED.
End DependencyStatus.
Abbreviation DependencyStatus := DependencyStatus.DependencyStatus.
#[export] Instance DependencyStatus_dec : EqDecision DependencyStatus.
Proof. solve_decision. Defined.

Module ActionRefusal.
Inductive ActionRefusal : Set := NO_SUCH_SUBJECT | ENDED | PARKED | ALREADY_CANCELLED | ABOVE_LAUNCH_LIMIT.
End ActionRefusal.
Abbreviation ActionRefusal := ActionRefusal.ActionRefusal.
#[export] Instance ActionRefusal_dec : EqDecision ActionRefusal.
Proof. solve_decision. Defined.

(** ** Operations *)

Record OperationSchemaRef := {
  opschema_kind : string;
  opschema_request_schema : SchemaRef;
  opschema_outcome_schema : SchemaRef;
  opschema_lifecycle : LifecycleClass;
  opschema_on_interrupt : InterruptPolicy
}.
#[export] Instance OperationSchemaRef_dec : EqDecision OperationSchemaRef.
Proof. solve_decision. Defined.
#[export] Instance OperationSchemaRef_eta : Eta OperationSchemaRef := fun r => Build_OperationSchemaRef
  (opschema_kind r) (opschema_request_schema r) (opschema_outcome_schema r) (opschema_lifecycle r)
  (opschema_on_interrupt r).

(** [OperationSchemaRef.only_turns_cancel] *)
Definition only_turns_cancel (self : OperationSchemaRef) : result string unit :=
  ensure (negb (eqb (opschema_on_interrupt self) InterruptPolicy.CANCEL
                && negb (eqb (opschema_lifecycle self) LifecycleClass.SESSION_TURN)))
         "on_interrupt".

(** A descriptor is a schema reference with the ownership it declares. *)
Record OperationDescriptor := {
  descriptor_schema : OperationSchemaRef;
  descriptor_normalization : OperationNormalizationKind;
  descriptor_inspect : bool;
  descriptor_cancel : bool;
  descriptor_watch : bool;
  descriptor_resource_pool : option PoolId;
  descriptor_revision_authority : RevisionAuthority;
  descriptor_on_close : ClosePolicy
}.
#[export] Instance OperationDescriptor_dec : EqDecision OperationDescriptor.
Proof. solve_decision. Defined.
#[export] Instance OperationDescriptor_eta : Eta OperationDescriptor := fun r => Build_OperationDescriptor
  (descriptor_schema r) (descriptor_normalization r) (descriptor_inspect r) (descriptor_cancel r)
  (descriptor_watch r) (descriptor_resource_pool r) (descriptor_revision_authority r)
  (descriptor_on_close r).

Definition descriptor_kind (d : OperationDescriptor) : string := opschema_kind (descriptor_schema d).
Definition descriptor_lifecycle (d : OperationDescriptor) : LifecycleClass :=
  opschema_lifecycle (descriptor_schema d).

(** [OperationDescriptor.lifecycle_contract] *)
Definition lifecycle_contract (self : OperationDescriptor) : result string unit :=
  let owned := eqb (descriptor_lifecycle self) LifecycleClass.OWNED_JOB in
  let write := eqb (descriptor_lifecycle self) LifecycleClass.IDEMPOTENT_WRITE in
  let revises := negb (eqb (descriptor_revision_authority self) RevisionAuthority.NONE) in
  require* negb (owned && is_none (descriptor_resource_pool self)) else "resource_pool" in
  require* negb (negb owned && not_none (descriptor_resource_pool self)) else "resource_pool" in
  require* negb (revises && negb write) else "revision_authority" in
  ensure (negb (eqb (descriptor_normalization self) OperationNormalizationKind.SCOPE_REOPEN
                && (negb write || negb (descriptor_inspect self)
                    || not_none (descriptor_resource_pool self) || revises)))
         "normalization".

(** [Capabilities], its set of [lifecycle] capabilities as the sorted list it is written as *)
Record Capabilities := {
  capabilities_lifecycle : list string;
  capabilities_operations : list OperationDescriptor
}.
#[export] Instance Capabilities_dec : EqDecision Capabilities.
Proof. solve_decision. Defined.
#[export] Instance Capabilities_eta : Eta Capabilities := fun r => Build_Capabilities
  (capabilities_lifecycle r) (capabilities_operations r).

Record ScopeReopenNormalization := {
  norm_attempt : AttemptRef;
  norm_continuation_id : ContinuationId;
  norm_park_authority : RequestId;
  norm_resolved_cancelled_jobs : list ResourceId
}.
#[export] Instance ScopeReopenNormalization_dec : EqDecision ScopeReopenNormalization.
Proof. solve_decision. Defined.
#[export] Instance ScopeReopenNormalization_eta : Eta ScopeReopenNormalization := fun r => Build_ScopeReopenNormalization
  (norm_attempt r) (norm_continuation_id r) (norm_park_authority r)
  (norm_resolved_cancelled_jobs r).

(** [ScopeReopenNormalization.unique_resolutions] *)
Definition unique_resolutions (self : ScopeReopenNormalization) : result string unit :=
  ensure (distinct (norm_resolved_cancelled_jobs self)) "resolved_cancelled_jobs".

(** ** Requests' common part *)

Record RequestBase := {
  base_request_id : option RequestId;
  base_scope : Scope;
  base_depends_on : list RequestId;
  base_decision_id : option DecisionId;
  base_admission_id : option DecisionId
}.
#[export] Instance RequestBase_dec : EqDecision RequestBase.
Proof. solve_decision. Defined.
#[export] Instance RequestBase_eta : Eta RequestBase := fun r => Build_RequestBase
  (base_request_id r) (base_scope r) (base_depends_on r) (base_decision_id r)
  (base_admission_id r).

(** ** Observations *)

(** [basis]: how the executor knows the whole manifest *)
Module ManifestBasis.
Inductive ManifestBasis : Set := ENUMERATED | LIFECYCLE_CLOSED.
End ManifestBasis.
Abbreviation ManifestBasis := ManifestBasis.ManifestBasis.
#[export] Instance ManifestBasis_dec : EqDecision ManifestBasis.
Proof. solve_decision. Defined.

Record ChildManifest := {
  manifest_members : list ResourceId;
  manifest_basis : ManifestBasis
}.
#[export] Instance ChildManifest_dec : EqDecision ChildManifest.
Proof. solve_decision. Defined.
#[export] Instance ChildManifest_eta : Eta ChildManifest := fun r => Build_ChildManifest
  (manifest_members r) (manifest_basis r).

(** [ChildManifest.distinct_members] *)
Definition distinct_members (self : ChildManifest) : result string unit :=
  ensure (distinct (manifest_members self)) "members".

Record Observation := {
  obs_event_id : EventId;
  obs_request_id : RequestId;
  obs_scope : Scope;
  obs_sequence : Z;
  obs_observed_at : float;
  obs_status : ObservationStatus;
  obs_resource_id : option ResourceId;
  obs_revision : option RevisionRef;
  obs_measured_input : option string;
  obs_accepted : bool;
  obs_terminal : bool;
  obs_released : bool;
  obs_children : list ResourceId;
  obs_children_complete : bool;
  obs_child_manifest : option ChildManifest;
  obs_admission_id : option DecisionId;
  obs_diagnostic : string
}.
#[export] Instance Observation_dec : EqDecision Observation.
Proof. solve_decision. Defined.
#[export] Instance Observation_eta : Eta Observation := fun r => Build_Observation
  (obs_event_id r) (obs_request_id r) (obs_scope r) (obs_sequence r) (obs_observed_at r)
  (obs_status r) (obs_resource_id r) (obs_revision r) (obs_measured_input r) (obs_accepted r)
  (obs_terminal r) (obs_released r) (obs_children r) (obs_children_complete r)
  (obs_child_manifest r) (obs_admission_id r) (obs_diagnostic r).

Definition RETRYABLE_FAILURES : list ObservationStatus :=
  [ObservationStatus.FAILED; ObservationStatus.REJECTED; ObservationStatus.CANCELLED].

(** [Observation.retryable] *)
Definition obs_retryable (self : Observation) : bool :=
  negb (obs_terminal self) && among (obs_status self) RETRYABLE_FAILURES.

Definition manifest_of (self : Observation) : list ResourceId :=
  match obs_child_manifest self with None => [] | Some m => manifest_members m end.

(** [Observation.descendants] *)
Definition obs_descendants (self : Observation) : list ResourceId :=
  fromkeys [] (obs_children self ++ manifest_of self).

(** [Observation.manifest_covers_children] *)
Definition manifest_covers_children (self : Observation) : result string unit :=
  match obs_child_manifest self with
  | None => Ok tt
  | Some m =>
      require* obs_children_complete self else "child_manifest" in
      ensure (all (fun child => among child (manifest_members m)) (obs_children self))
             "child_manifest"
  end.

(** [validate_setup_failure] *)
Definition validate_setup_failure (observation : Observation) (failure : SetupFailureKind)
    : result string unit :=
  ensure (negb (negb (eqb failure SetupFailureKind.UNKNOWN)
                && negb (obs_terminal observation
                         && among (obs_status observation)
                              [ObservationStatus.FAILED; ObservationStatus.REJECTED;
                               ObservationStatus.CANCELLED])))
         "setup_failure".

(** ** Charges *)

Record ChargeReceipt := {
  charge_charge_id : ChargeId;
  charge_kind : ChargeKind;
  charge_invocation_id : option InvocationId;
  charge_source_request : option RequestId;
  charge_charged : Z;
  charge_refunded : Z;
  charge_refund_sources : list RequestId;
  charge_historical_proof : option ArtifactRef
}.
#[export] Instance ChargeReceipt_dec : EqDecision ChargeReceipt.
Proof. solve_decision. Defined.
#[export] Instance ChargeReceipt_eta : Eta ChargeReceipt := fun r => Build_ChargeReceipt
  (charge_charge_id r) (charge_kind r) (charge_invocation_id r) (charge_source_request r)
  (charge_charged r) (charge_refunded r) (charge_refund_sources r) (charge_historical_proof r).

(** [ChargeReceipt.bounded_refund] *)
Definition bounded_refund (self : ChargeReceipt) : result string unit :=
  require* charge_refunded self <=? charge_charged self else "refunded" in
  require* negb (eqb (charge_kind self) ChargeKind.TURN && negb (charge_refunded self =? 0))
    else "refunded" in
  ensure (distinct (charge_refund_sources self)) "refund_sources".

(** ** Release dependencies *)

Inductive ReleaseDependency : Set :=
  | DependsOnSession (identity : SessionId)
  | DependsOnJob (identity : ResourceId)
  | DependsOnWorkspace (identity : RequestId)
  | DependsOnOperation (identity : OperationId)
  | DependsOnRequest (identity : RequestId).

#[export] Instance ReleaseDependency_dec : EqDecision ReleaseDependency.
Proof. solve_decision. Defined.

Record WorkspaceRef := {
  workspace_scope : Scope;
  workspace_revision : RevisionRef;
  workspace_mode : WorkspaceMode
}.
#[export] Instance WorkspaceRef_dec : EqDecision WorkspaceRef.
Proof. solve_decision. Defined.
#[export] Instance WorkspaceRef_eta : Eta WorkspaceRef := fun r => Build_WorkspaceRef
  (workspace_scope r) (workspace_revision r) (workspace_mode r).

Record OperationWire := {
  wire_schema_ref : OperationSchemaRef;
  wire_payload_json : string
}.
#[export] Instance OperationWire_dec : EqDecision OperationWire.
Proof. solve_decision. Defined.
#[export] Instance OperationWire_eta : Eta OperationWire := fun r => Build_OperationWire
  (wire_schema_ref r) (wire_payload_json r).

Record ReservedInputOccurrence := {
  reserved_input_id : InputId;
  reserved_artifact : ArtifactRef
}.
#[export] Instance ReservedInputOccurrence_dec : EqDecision ReservedInputOccurrence.
Proof. solve_decision. Defined.
#[export] Instance ReservedInputOccurrence_eta : Eta ReservedInputOccurrence := fun r => Build_ReservedInputOccurrence
  (reserved_input_id r) (reserved_artifact r).

(** ** Stops *)

(** [escalate_stop] *)
Definition escalate_stop (held : option StopMode) (asked : StopMode) : StopMode :=
  if among (Some StopMode.CANCEL) [held; Some asked] then StopMode.CANCEL else StopMode.DRAIN.

(** ** Controls *)

Inductive InputTarget : Set :=
  | ScopeInputTarget (scope : Scope)
  | ItemInputTarget (item_id : ItemId)
  | InvocationInputTarget (invocation : InvocationRef)
  | RoleInputTarget (role_id : RoleId).

#[export] Instance InputTarget_dec : EqDecision InputTarget.
Proof. solve_decision. Defined.

Definition is_invocation_target (target : InputTarget) : bool :=
  match target with InvocationInputTarget _ => true | _ => false end.

Record PoolCapacity := {
  pool_pool_id : PoolId;
  pool_capacity : Z
}.
#[export] Instance PoolCapacity_dec : EqDecision PoolCapacity.
Proof. solve_decision. Defined.
#[export] Instance PoolCapacity_eta : Eta PoolCapacity := fun r => Build_PoolCapacity
  (pool_pool_id r) (pool_capacity r).

Record RequestRetries := {
  retries_limit : Z;
  retries_backoff : float;
  retries_backoff_cap : float
}.
#[export] Instance RequestRetries_dec : EqDecision RequestRetries.
Proof. solve_decision. Defined.
#[export] Instance RequestRetries_eta : Eta RequestRetries := fun r => Build_RequestRetries
  (retries_limit r) (retries_backoff r) (retries_backoff_cap r).

Definition MAX_REQUEST_RETRIES : Z := 10.

(** The field bounds and [__post_init__] of [RequestRetries] *)
Definition validate_retries (self : RequestRetries) : result string unit :=
  require* (0 <=? retries_limit self) && is_finite (retries_backoff self)
           && flt fzero (retries_backoff self) && is_finite (retries_backoff_cap self)
           && flt fzero (retries_backoff_cap self) else "field" in
  require* retries_limit self <=? MAX_REQUEST_RETRIES else "limit above the hard cap 10" in
  ensure (fle (retries_backoff self) (retries_backoff_cap self)) "backoff_cap below backoff".

Record Limits := {
  limits_max_attempts : Z;
  limits_max_turns : Z;
  limits_max_parallel : Z;
  limits_pool_capacities : list PoolCapacity;
  limits_max_refunds : Z;
  limits_max_adoption_rounds : Z;
  limits_request_retries : RequestRetries;
  limits_cancellation_bound : float;
  limits_cleanup_bound : float;
  limits_reconciliation_bound : float;
  limits_observe_interval : float;
  limits_observe_backoff_cap : float;
  limits_queue_wait_budget : float;
  limits_queue_notice_interval : float
}.
#[export] Instance Limits_dec : EqDecision Limits.
Proof. solve_decision. Defined.
#[export] Instance Limits_eta : Eta Limits := fun r => Build_Limits (limits_max_attempts r)
  (limits_max_turns r) (limits_max_parallel r) (limits_pool_capacities r) (limits_max_refunds r)
  (limits_max_adoption_rounds r) (limits_request_retries r) (limits_cancellation_bound r)
  (limits_cleanup_bound r) (limits_reconciliation_bound r) (limits_observe_interval r)
  (limits_observe_backoff_cap r) (limits_queue_wait_budget r) (limits_queue_notice_interval r).

(** [Field(gt=0.0, allow_inf_nan=False)] *)
Definition positive_ok (x : float) : bool := is_finite x && flt fzero x.

(** The field bounds and [__post_init__] of [Limits] *)
Definition validate_limits (self : Limits) : result string unit :=
  require* (0 <=? limits_max_attempts self) && (0 <=? limits_max_turns self)
           && (1 <=? limits_max_parallel self) && (0 <=? limits_max_refunds self)
           && (1 <=? limits_max_adoption_rounds self)
           && seconds_ok (limits_cancellation_bound self)
           && positive_ok (limits_cleanup_bound self)
           && seconds_ok (limits_reconciliation_bound self)
           && positive_ok (limits_observe_interval self)
           && positive_ok (limits_observe_backoff_cap self)
           && positive_ok (limits_queue_wait_budget self)
           && positive_ok (limits_queue_notice_interval self) else "field" in
  require* fle (limits_observe_interval self) (limits_observe_backoff_cap self)
    else "observe_backoff_cap below observe_interval" in
  ensure (distinct (map (fun p => root (pool_pool_id p)) (limits_pool_capacities self)))
         "pool_capacities duplicate pool_id".

Record RunPause := {
  pause_owner : PauseOwner;
  pause_capacity_wait : bool
}.
#[export] Instance RunPause_dec : EqDecision RunPause.
Proof. solve_decision. Defined.
#[export] Instance RunPause_eta : Eta RunPause := fun r => Build_RunPause (pause_owner r)
  (pause_capacity_wait r).

Record ControlInput := {
  control_control_id : ControlId;
  control_action : ControlAction;
  control_mode : option StopMode;
  control_artifact : option ArtifactRef;
  control_target : option InputTarget;
  control_input_mode : option InputMode;
  control_withdraws : option InputId;
  control_owner : option PauseOwner;
  control_when : option ResumeWhen;
  control_fallback : bool;
  control_capacity_wait_stands : bool;
  control_attempt : option AttemptId;
  control_item : option ItemId;
  control_max_parallel : option Z
}.
#[export] Instance ControlInput_dec : EqDecision ControlInput.
Proof. solve_decision. Defined.
#[export] Instance ControlInput_eta : Eta ControlInput := fun r => Build_ControlInput
  (control_control_id r) (control_action r) (control_mode r) (control_artifact r)
  (control_target r) (control_input_mode r) (control_withdraws r) (control_owner r)
  (control_when r) (control_fallback r) (control_capacity_wait_stands r) (control_attempt r)
  (control_item r) (control_max_parallel r).

Definition OPERATOR_ACTIONS : list ControlAction :=
  [ControlAction.CANCEL_ATTEMPT; ControlAction.CANCEL_ITEM; ControlAction.SET_MAX_PARALLEL].

(** The field bound and [ControlInput.__post_init__]: one rule per [ValueError], in source
    order. *)
Definition validate_control (self : ControlInput) : result string unit :=
  let acts a := eqb (control_action self) a in
  let required {A} a (field : option A) := eqb (acts a) (not_none field) in
  require* match control_max_parallel self with Some n => 1 <=? n | None => true end
    else "max_parallel" in
  require* (negb (not_none (control_artifact self))
            || among (control_action self) (ControlAction.STEER :: OPERATOR_ACTIONS))
           && (negb (among (control_action self) OPERATOR_ACTIONS)
               || not_none (control_artifact self)) else "artifact" in
  require* required ControlAction.STOP (control_mode self) else "mode" in
  require* required ControlAction.WITHDRAW (control_withdraws self) else "withdraws" in
  require* required ControlAction.PAUSE (control_owner self) else "owner" in
  require* required ControlAction.RESUME (control_when self) else "when" in
  require* required ControlAction.CANCEL_ATTEMPT (control_attempt self) else "attempt" in
  require* required ControlAction.CANCEL_ITEM (control_item self) else "item" in
  require* required ControlAction.SET_MAX_PARALLEL (control_max_parallel self)
    else "max_parallel" in
  require* is_none (control_target self) || acts ControlAction.STEER else "target" in
  require* is_none (control_input_mode self) || acts ControlAction.STEER else "input_mode" in
  require* negb (among (control_input_mode self) [Some InputMode.INTERRUPT; Some InputMode.STANDING])
           || match control_target self with
              | Some target => negb (is_invocation_target target)
              | None => true
              end else "input_mode target" in
  require* negb (control_fallback self || control_capacity_wait_stands self)
           || eqb (control_when self) (Some ResumeWhen.NOW) else "when only immediate" in
  ensure (negb (control_fallback self && control_capacity_wait_stands self))
         "capacity_wait_stands".

(** [RunPark] *)
Record RunPark := {
  park_admitted_turns : list InvocationRef;
  park_immediate : bool;
  park_deadline_at : option float;
  park_control_id : ControlId;
  park_epoch : Z
}.
#[export] Instance RunPark_dec : EqDecision RunPark.
Proof. solve_decision. Defined.
#[export] Instance RunPark_eta : Eta RunPark := fun r => Build_RunPark (park_admitted_turns r)
  (park_immediate r) (park_deadline_at r) (park_control_id r) (park_epoch r).
