(* ===== verification/Requests.v ===== *)
(** * Requests and their ledger

    [libs/vs-core/src/vs_core/types/]: [until.py], the payloads of [sessions.py],
    [attempts.py], [evaluation.py] and [settlement.py] that requests carry, [records.py] with
    its policies per kind, and [steps.py].  A payload no modelled rule looks inside is kept as
    its canonical text ([Canonical]), so that equality of requests is equality of content. *)

From S2P Require Import Prelude PyFloat Identities Values.

(** ** Limits and failures ([until.py]) *)

Module FailureReason.
Inductive FailureReason : Set := TIMED_OUT | WORKSPACE_CLOSED | OWNER_GONE | REFUSED | LOST | INVALID_REPLY | RENDER_FAILED | TURN_FAILED | WAIT_REFUSED | QUEUE_BUDGET_SPENT | OUT_OF_BUDGET | MEASUREMENT_UNTRUSTED | ATTEMPTS_EXHAUSTED.
End FailureReason.
Abbreviation FailureReason := FailureReason.FailureReason.
#[export] Instance FailureReason_dec : EqDecision FailureReason.
Proof. solve_decision. Defined.

Module WaitRefusal.
Inductive WaitRefusal : Set := NOT_OFFERED | NOT_RECORDED | NOT_PUBLISHED | NOT_RESUMABLE.
End WaitRefusal.
Abbreviation WaitRefusal := WaitRefusal.WaitRefusal.
#[export] Instance WaitRefusal_dec : EqDecision WaitRefusal.
Proof. solve_decision. Defined.

Inductive Watch : Set :=
  | WhileOpen (workspace : AttemptRef)
  | WhileAlive (job : ResourceId).

#[export] Instance Watch_dec : EqDecision Watch.
Proof. solve_decision. Defined.

Record Within := {
  within_limit : float;
  within_watches : list Watch
}.
#[export] Instance Within_dec : EqDecision Within.
Proof. solve_decision. Defined.
#[export] Instance Within_eta : Eta Within := fun r => Build_Within (within_limit r)
  (within_watches r).

Record FromDispatch := {
  fromdispatch_limit : float;
  fromdispatch_watches : list Watch
}.
#[export] Instance FromDispatch_dec : EqDecision FromDispatch.
Proof. solve_decision. Defined.
#[export] Instance FromDispatch_eta : Eta FromDispatch := fun r => Build_FromDispatch
  (fromdispatch_limit r) (fromdispatch_watches r).

Record Until := {
  until_at : float;
  until_watches : list Watch
}.
#[export] Instance Until_dec : EqDecision Until.
Proof. solve_decision. Defined.
#[export] Instance Until_eta : Eta Until := fun r => Build_Until (until_at r) (until_watches r).

(** [Within.__or__] and [Within.__ror__] *)
Definition within_or (self : Within) (watch : Watch) : Within :=
  self <| within_watches := within_watches self ++ [watch] |>.
Definition within_ror (self : Within) (watch : Watch) : Within :=
  self <| within_watches := watch :: within_watches self |>.

(** [kind] and [errors] elements are [ReplyError] values, kept as canonical text. *)
Record Failed := {
  failed_reason : FailureReason;
  failed_decision : option DecisionId;
  failed_watch : option Watch;
  failed_limit_at : option float;
  failed_cause : option RejectionCode;
  failed_errors : list Canonical;
  failed_turn : option InvocationRef;
  failed_turn_failure : option TurnFailureKind;
  failed_digest : option string;
  failed_refusal : option WaitRefusal
}.
#[export] Instance Failed_dec : EqDecision Failed.
Proof. solve_decision. Defined.
#[export] Instance Failed_eta : Eta Failed := fun r => Build_Failed (failed_reason r)
  (failed_decision r) (failed_watch r) (failed_limit_at r) (failed_cause r) (failed_errors r)
  (failed_turn r) (failed_turn_failure r) (failed_digest r) (failed_refusal r).

Definition TURN_REASONS : list FailureReason :=
  [FailureReason.INVALID_REPLY; FailureReason.LOST; FailureReason.TURN_FAILED;
   FailureReason.TIMED_OUT; FailureReason.WAIT_REFUSED].

(** [Failed.fields_match_reason]: the rows of [expected] in order, each a field's name,
    whether its reason allows it and whether it is present. *)
Definition fields_match_reason (self : Failed) : result string unit :=
  let reason := failed_reason self in
  let field_rule name (allowed present : bool) :=
    require* negb (present && negb allowed) else name in
    ensure (negb (allowed && negb present)) name in
  require* is_none (failed_turn self) || among reason TURN_REASONS else "turn" in
  require* is_none (failed_digest self) || eqb reason FailureReason.TURN_FAILED else "digest" in
  let* _ := field_rule "watch"%string
    (among reason [FailureReason.WORKSPACE_CLOSED; FailureReason.OWNER_GONE])
    (not_none (failed_watch self)) in
  let* _ := field_rule "limit_at"%string
    (among reason [FailureReason.TIMED_OUT; FailureReason.QUEUE_BUDGET_SPENT])
    (not_none (failed_limit_at self)) in
  let* _ := field_rule "cause"%string (eqb reason FailureReason.REFUSED)
    (not_none (failed_cause self)) in
  let* _ := field_rule "errors"%string (eqb reason FailureReason.INVALID_REPLY)
    (negb (eqb (failed_errors self) [])) in
  let* _ := field_rule "turn_failure"%string (eqb reason FailureReason.TURN_FAILED)
    (not_none (failed_turn_failure self)) in
  field_rule "refusal"%string (eqb reason FailureReason.WAIT_REFUSED)
    (not_none (failed_refusal self)).

(** [Failed(reason=..., decision=...)]: every other field unset *)
Definition failed_of (reason : FailureReason) (decision : option DecisionId) : Failed :=
  {| failed_reason := reason; failed_decision := decision; failed_watch := None;
     failed_limit_at := None; failed_cause := None; failed_errors := []; failed_turn := None;
     failed_turn_failure := None; failed_digest := None; failed_refusal := None |}.

(** ** Payloads *)

Module Access.
Inductive Access : Set := READ_ONLY | WRITE_ARTIFACTS | WRITE_CANDIDATE.
End Access.
Abbreviation Access := Access.Access.
#[export] Instance Access_dec : EqDecision Access.
Proof. solve_decision. Defined.

Module SessionPolicy.
Inductive SessionPolicy : Set := FRESH | REUSE.
End SessionPolicy.
Abbreviation SessionPolicy := SessionPolicy.SessionPolicy.
#[export] Instance SessionPolicy_dec : EqDecision SessionPolicy.
Proof. solve_decision. Defined.

Module SessionLifetime.
Inductive SessionLifetime : Set := EPHEMERAL | OWNER.
End SessionLifetime.
Abbreviation SessionLifetime := SessionLifetime.SessionLifetime.
#[export] Instance SessionLifetime_dec : EqDecision SessionLifetime.
Proof. solve_decision. Defined.

Module ChargeClass.
Inductive ChargeClass : Set := PAID | CORRECTION | RESUME | FREE.
End ChargeClass.
Abbreviation ChargeClass := ChargeClass.ChargeClass.
#[export] Instance ChargeClass_dec : EqDecision ChargeClass.
Proof. solve_decision. Defined.

Record SessionSpec := {
  session_session_id : SessionId;
  session_role_id : RoleId;
  session_policy : SessionPolicy;
  session_lifetime : SessionLifetime;
  session_access : Access;
  session_model : option string
}.
#[export] Instance SessionSpec_dec : EqDecision SessionSpec.
Proof. solve_decision. Defined.
#[export] Instance SessionSpec_eta : Eta SessionSpec := fun r => Build_SessionSpec
  (session_session_id r) (session_role_id r) (session_policy r) (session_lifetime r)
  (session_access r) (session_model r).

Inductive TurnWorkspace : Set :=
  | InWorkspace (workspace : WorkspaceRef)
  | InScope (scope : Scope).

#[export] Instance TurnWorkspace_dec : EqDecision TurnWorkspace.
Proof. solve_decision. Defined.

Record TurnSpec := {
  turn_session : SessionSpec;
  turn_invocation_id : InvocationId;
  turn_continuation_id : option ContinuationId;
  turn_workspace : TurnWorkspace;
  turn_prompts : list ArtifactRef;
  turn_output_schema : SchemaRef;
  turn_tool_policy : option ArtifactRef;
  turn_artifact_dependencies : list ArtifactRef;
  turn_charge_class : ChargeClass;
  turn_max_turns : Z;
  turn_predecessor : option InvocationRef;
  turn_on_interrupt : InterruptPolicy
}.
#[export] Instance TurnSpec_dec : EqDecision TurnSpec.
Proof. solve_decision. Defined.
#[export] Instance TurnSpec_eta : Eta TurnSpec := fun r => Build_TurnSpec (turn_session r)
  (turn_invocation_id r) (turn_continuation_id r) (turn_workspace r) (turn_prompts r)
  (turn_output_schema r) (turn_tool_policy r) (turn_artifact_dependencies r) (turn_charge_class r)
  (turn_max_turns r) (turn_predecessor r) (turn_on_interrupt r).

Record SessionInput := {
  input_input_id : InputId;
  input_target : InputTarget;
  input_artifact : ArtifactRef;
  input_received_at : float;
  input_sequence : Z;
  input_mode : InputMode
}.
#[export] Instance SessionInput_dec : EqDecision SessionInput.
Proof. solve_decision. Defined.
#[export] Instance SessionInput_eta : Eta SessionInput := fun r => Build_SessionInput
  (input_input_id r) (input_target r) (input_artifact r) (input_received_at r) (input_sequence r)
  (input_mode r).

Record WorkspacePlan := {
  wplan_mode : WorkspaceMode;
  wplan_base : RevisionRef;
  wplan_parked_predecessor : option AttemptRef
}.
#[export] Instance WorkspacePlan_dec : EqDecision WorkspacePlan.
Proof. solve_decision. Defined.
#[export] Instance WorkspacePlan_eta : Eta WorkspacePlan := fun r => Build_WorkspacePlan
  (wplan_mode r) (wplan_base r) (wplan_parked_predecessor r).

Module Retention.
Inductive Retention : Set := WIP | CANDIDATE.
End Retention.
Abbreviation Retention := Retention.Retention.
#[export] Instance Retention_dec : EqDecision Retention.
Proof. solve_decision. Defined.

Module Purpose.
Inductive Purpose : Set := BASELINE | LOCAL_VALIDATION | OFFICIAL | PROFILE.
End Purpose.
Abbreviation Purpose := Purpose.Purpose.
#[export] Instance Purpose_dec : EqDecision Purpose.
Proof. solve_decision. Defined.

Module StagePolicy.
Inductive StagePolicy : Set := ORDERED | PARALLEL.
End StagePolicy.
Abbreviation StagePolicy := StagePolicy.StagePolicy.
#[export] Instance StagePolicy_dec : EqDecision StagePolicy.
Proof. solve_decision. Defined.

Inductive PlanCandidate : Set :=
  | CandidateRevision (revision : RevisionRef)
  | CandidateSnapshot (request_id : RequestId).

#[export] Instance PlanCandidate_dec : EqDecision PlanCandidate.
Proof. solve_decision. Defined.

Record MeasurementStage := {
  stage_required_outputs : list string;
  stage_stage_id : string;
  stage_depends_on : list string;
  stage_execution_budget : float
}.
#[export] Instance MeasurementStage_dec : EqDecision MeasurementStage.
Proof. solve_decision. Defined.
#[export] Instance MeasurementStage_eta : Eta MeasurementStage := fun r => Build_MeasurementStage
  (stage_required_outputs r) (stage_stage_id r) (stage_depends_on r) (stage_execution_budget r).

Record MeasurementPlan := {
  plan_purpose : Purpose;
  plan_candidate : PlanCandidate;
  plan_evaluator_digest : string;
  plan_workload_digest : string;
  plan_environment_digest : string;
  plan_stages : list MeasurementStage;
  plan_policy : StagePolicy;
  plan_recipe : ArtifactRef;
  plan_submitted_at : float;
  plan_queue_allowance : float;
  plan_reusable_evidence : list EvidenceId;
  plan_dedicated_measurement_resources : bool;
  plan_measured_input : option string;
  plan_accuracy_stage : option string;
  plan_accuracy_gated : list EvidenceKind
}.
#[export] Instance MeasurementPlan_dec : EqDecision MeasurementPlan.
Proof. solve_decision. Defined.
#[export] Instance MeasurementPlan_eta : Eta MeasurementPlan := fun r => Build_MeasurementPlan
  (plan_purpose r) (plan_candidate r) (plan_evaluator_digest r) (plan_workload_digest r)
  (plan_environment_digest r) (plan_stages r) (plan_policy r) (plan_recipe r)
  (plan_submitted_at r) (plan_queue_allowance r) (plan_reusable_evidence r)
  (plan_dedicated_measurement_resources r) (plan_measured_input r) (plan_accuracy_stage r)
  (plan_accuracy_gated r).

Record BaseRef := {
  bref_commit : RevisionRef;
  bref_measured_input : string
}.
#[export] Instance BaseRef_dec : EqDecision BaseRef.
Proof. solve_decision. Defined.
#[export] Instance BaseRef_eta : Eta BaseRef := fun r => Build_BaseRef (bref_commit r)
  (bref_measured_input r).

Inductive Selection : Set :=
  | RetainedCandidate (settlement_id : SettlementId) (revision : RevisionRef)
  | TrustedBaseline (revision : RevisionRef).

#[export] Instance Selection_dec : EqDecision Selection.
Proof. solve_decision. Defined.

(** ** Evidence *)

Module Provenance.
Inductive Provenance : Set := TRUSTED | SELF_REPORT.
End Provenance.
Abbreviation Provenance := Provenance.Provenance.
#[export] Instance Provenance_dec : EqDecision Provenance.
Proof. solve_decision. Defined.

(** [EvidenceAcceptanceReceipt] is the observation it holds; [EvidenceRef.reading] is kept as
    canonical text. *)
Record EvidenceRef := {
  evidence_evidence_id : EvidenceId;
  evidence_kind : EvidenceKind;
  evidence_purpose : Purpose;
  evidence_scope : Scope;
  evidence_source_request : RequestId;
  evidence_candidate : RevisionRef;
  evidence_observation_sequence : Z;
  evidence_evaluator_digest : string;
  evidence_workload_digest : string;
  evidence_environment_digest : string;
  evidence_provenance : Provenance;
  evidence_status : ObservationStatus;
  evidence_artifacts : list ArtifactRef;
  evidence_acceptance_receipt : option Observation;
  evidence_reused_from : option RequestId;
  evidence_reading : option Canonical;
  evidence_unmet_requirement : option string
}.
#[export] Instance EvidenceRef_dec : EqDecision EvidenceRef.
Proof. solve_decision. Defined.
#[export] Instance EvidenceRef_eta : Eta EvidenceRef := fun r => Build_EvidenceRef
  (evidence_evidence_id r) (evidence_kind r) (evidence_purpose r) (evidence_scope r)
  (evidence_source_request r) (evidence_candidate r) (evidence_observation_sequence r)
  (evidence_evaluator_digest r) (evidence_workload_digest r) (evidence_environment_digest r)
  (evidence_provenance r) (evidence_status r) (evidence_artifacts r)
  (evidence_acceptance_receipt r) (evidence_reused_from r) (evidence_reading r)
  (evidence_unmet_requirement r).

Record EvidenceKey := {
  ekey_source_request : RequestId;
  ekey_evidence_id : EvidenceId
}.
#[export] Instance EvidenceKey_dec : EqDecision EvidenceKey.
Proof. solve_decision. Defined.
#[export] Instance EvidenceKey_eta : Eta EvidenceKey := fun r => Build_EvidenceKey
  (ekey_source_request r) (ekey_evidence_id r).

(** [EvidenceRef.key] *)
Definition evidence_key (self : EvidenceRef) : EvidenceKey :=
  {| ekey_source_request := evidence_source_request self;
     ekey_evidence_id := evidence_evidence_id self |}.

(** [EvidenceAcceptanceReceipt.positive_acceptance] and [EvidenceRef.original_acceptance] *)
Definition positive_acceptance (observation : Observation) : result string unit :=
  ensure (obs_accepted observation && negb (eqb (obs_status observation) ObservationStatus.UNKNOWN))
         "observation".
Definition original_acceptance (self : EvidenceRef) : result string unit :=
  match evidence_acceptance_receipt self with
  | None => Ok tt
  | Some observation =>
      ensure (eqb (obs_request_id observation) (evidence_source_request self)
              && eqb (obs_scope observation) (evidence_scope self)
              && (obs_sequence observation =? evidence_observation_sequence self)
              && eqb (obs_status observation) (evidence_status self)) "acceptance_receipt"
  end.

(** ** Requests *)

(** The union [Request]: one constructor per class, its [RequestBase] first. *)
Inductive Request : Set :=
  | EnsureWorkspace (b : RequestBase) (attempt : AttemptRef) (plan : WorkspacePlan)
  | RestoreRevision (b : RequestBase) (attempt : AttemptRef) (revision : RevisionRef)
  | SnapshotAndRetain (b : RequestBase) (attempt : AttemptRef) (retention : Retention)
      (invocation : option InvocationRef)
  | RetainRevision (b : RequestBase) (attempt : AttemptRef) (revision : RevisionRef)
      (retention : Retention)
  | DiscardWorkspace (b : RequestBase) (attempt : AttemptRef)
  | CloseAttemptScope (b : RequestBase) (attempt : AttemptRef)
  | EnsureSession (b : RequestBase) (spec : SessionSpec) (required_resource : option ResourceId)
  | DispatchTurn (b : RequestBase) (turn : TurnSpec) (inputs guidance : list SessionInput)
  | InspectTurn (b : RequestBase) (invocation : InvocationRef) (dispatch : option RequestId)
  | CancelTurn (b : RequestBase) (invocation : InvocationRef)
  | CloseSession (b : RequestBase) (session_id : SessionId) (resource_id : option ResourceId)
      (episode : option DecisionId)
  | ResumeSessionTurn (b : RequestBase) (turn : TurnSpec) (inputs guidance : list SessionInput)
      (continuation_id : ContinuationId) (publication : option Canonical)
  | SnapshotAndRetainRun (b : RequestBase) (invocation : InvocationRef) (retention : Retention)
  | SubmitMeasurement (b : RequestBase) (plan : MeasurementPlan) (reuses : option RequestId)
      (base_ref : option BaseRef) (requested_by : option InvocationRef)
  | ObserveOwnedJob (b : RequestBase) (resource_id : ResourceId)
  | InspectOwnedJob (b : RequestBase) (resource_id : ResourceId)
  | CancelOwnedJob (b : RequestBase) (for_park immediate : bool) (resource_id : ResourceId)
  | CollectEvidence (b : RequestBase) (resource_id : ResourceId)
  | AdoptRevision (b : RequestBase) (selection : Selection) (evidence : list EvidenceRef)
  | VerifyAdoption (b : RequestBase) (selection : Selection)
  | ExecuteRegisteredOperation (b : RequestBase) (operation_id : OperationId)
      (operation : OperationWire) (retry_limit : Z) (inputs : list ReservedInputOccurrence)
  | InspectRequest (b : RequestBase) (target : RequestId) (resource_id : option ResourceId)
  | CancelOwnedResource (b : RequestBase) (resource_id : ResourceId) (target : RequestId)
  | BlockRequest (b : RequestBase) (target : RequestId) (reason : FailureReason).

#[export] Instance Request_dec : EqDecision Request.
Proof. solve_decision. Defined.

Definition req_base (request : Request) : RequestBase :=
  match request with
  | EnsureWorkspace b _ _ | RestoreRevision b _ _ | SnapshotAndRetain b _ _ _
  | RetainRevision b _ _ _ | DiscardWorkspace b _ | CloseAttemptScope b _
  | EnsureSession b _ _ | DispatchTurn b _ _ _ | InspectTurn b _ _ | CancelTurn b _
  | CloseSession b _ _ _ | ResumeSessionTurn b _ _ _ _ _ | SnapshotAndRetainRun b _ _
  | SubmitMeasurement b _ _ _ _ | ObserveOwnedJob b _ | InspectOwnedJob b _
  | CancelOwnedJob b _ _ _ | CollectEvidence b _ | AdoptRevision b _ _ | VerifyAdoption b _
  | ExecuteRegisteredOperation b _ _ _ _ | InspectRequest b _ _ | CancelOwnedResource b _ _
  | BlockRequest b _ _ => b
  end.

Definition req_request_id (r : Request) := base_request_id (req_base r).
Definition req_scope (r : Request) := base_scope (req_base r).
Definition req_depends_on (r : Request) := base_depends_on (req_base r).
Definition req_decision_id (r : Request) := base_decision_id (req_base r).
Definition req_admission_id (r : Request) := base_admission_id (req_base r).

(** [isinstance(request, DispatchTurn | ResumeSessionTurn)], with the turn it carries *)
Definition turn_request (request : Request) : option TurnSpec :=
  match request with
  | DispatchTurn _ turn _ _ | ResumeSessionTurn _ turn _ _ _ _ => Some turn
  | _ => None
  end.

(** [type(request) in COMMAND_KINDS] *)
Definition is_command (request : Request) : bool :=
  match request with
  | InspectRequest _ _ _ | CancelOwnedResource _ _ _ | BlockRequest _ _ _ => true
  | _ => false
  end.
