(* ===== verification/Records.v ===== *)
(** * The request ledger and the policy of every kind of request

    [libs/vs-core/src/vs_core/types/records.py] and [types/steps.py]. *)

From S2P Require Import Prelude PyFloat Identities Values Requests.

(** ** Capacity holds *)

Record CapacityHold := {
  hold_credit : float;
  hold_since : option float;
  hold_released_at : option float;
  hold_parked : bool;
  hold_budget : float;
  hold_resend_grace : float
}.
#[export] Instance CapacityHold_dec : EqDecision CapacityHold.
Proof. solve_decision. Defined.
#[export] Instance CapacityHold_eta : Eta CapacityHold := fun r => Build_CapacityHold
  (hold_credit r) (hold_since r) (hold_released_at r) (hold_parked r) (hold_budget r)
  (hold_resend_grace r).

(** [CapacityHold.consistent] *)
Definition hold_consistent (self : CapacityHold) : result string unit :=
  require* negb (is_none (hold_since self) && hold_parked self) else "since" in
  require* match hold_released_at self, hold_since self with
           | Some released, Some since => negb (flt released since)
           | _, _ => true
           end else "released_at" in
  ensure (negb (hold_parked self && not_none (hold_released_at self))) "parked".

(** [CapacityHold.holding] *)
Definition hold_holding (self : CapacityHold) : bool :=
  not_none (hold_since self) && is_none (hold_released_at self).

(** ** Records *)

Module RequestPhase.
Inductive RequestPhase : Set := PREPARED | DISPATCHED | RECONCILING | COMPLETED | BLOCKED.
End RequestPhase.
Abbreviation RequestPhase := RequestPhase.RequestPhase.
#[export] Instance RequestPhase_dec : EqDecision RequestPhase.
Proof. solve_decision. Defined.

(** [evaluation_result] and [suspension] hold the canonical text of the terminal facts and of
    the continuation; [outcome] is derived from [outcome_json] and not stored. *)
Record RequestRecord := {
  rec_request_id : RequestId;
  rec_request : Request;
  rec_payload_digest : string;
  rec_lifecycle : LifecycleClass;
  rec_phase : RequestPhase;
  rec_sequence : option Z;
  rec_observation : option Observation;
  rec_setup_failure : SetupFailureKind;
  rec_evaluation_result : option Canonical;
  rec_suspension : option Canonical;
  rec_outcome_schema : option SchemaRef;
  rec_outcome_json : option string;
  rec_retry_count : Z;
  rec_retry_at : option float;
  rec_until : Until;
  rec_failure : option Failed;
  rec_limit_from_dispatch : option float;
  rec_dispatched_at : option float;
  rec_capacity_hold : option CapacityHold;
  rec_dispatched_in : option Z;
  rec_addressed_by : list RequestId
}.
#[export] Instance RequestRecord_dec : EqDecision RequestRecord.
Proof. solve_decision. Defined.
#[export] Instance RequestRecord_eta : Eta RequestRecord := fun r => Build_RequestRecord
  (rec_request_id r) (rec_request r) (rec_payload_digest r) (rec_lifecycle r) (rec_phase r)
  (rec_sequence r) (rec_observation r) (rec_setup_failure r) (rec_evaluation_result r)
  (rec_suspension r) (rec_outcome_schema r) (rec_outcome_json r) (rec_retry_count r)
  (rec_retry_at r) (rec_until r) (rec_failure r) (rec_limit_from_dispatch r) (rec_dispatched_at r)
  (rec_capacity_hold r) (rec_dispatched_in r) (rec_addressed_by r).

(** [RequestRecord.retry_wait_until] *)
Definition retry_wait_until (self : RequestRecord) : option float :=
  match rec_observation self with
  | Some observation =>
      if eqb (rec_phase self) RequestPhase.DISPATCHED && obs_retryable observation
      then rec_retry_at self else None
  | None => None
  end.

(** [phase_open] *)
Definition phase_open (phase : RequestPhase) : bool :=
  match phase with
  | RequestPhase.PREPARED | RequestPhase.DISPATCHED | RequestPhase.RECONCILING => true
  | RequestPhase.COMPLETED | RequestPhase.BLOCKED => false
  end.

(** [_canonical], which [is_step] also is *)
Definition canonical (record : RequestRecord) : bool := negb (is_command (rec_request record)).
Definition is_step (record : RequestRecord) : bool := canonical record.
Definition is_open (record : RequestRecord) : bool :=
  canonical record && phase_open (rec_phase record).
Definition command_open (record : RequestRecord) : bool :=
  negb (canonical record) && phase_open (rec_phase record).

Record RecordsState := {
  ledger_records : list RequestRecord;
  ledger_epoch : Z
}.
#[export] Instance RecordsState_dec : EqDecision RecordsState.
Proof. solve_decision. Defined.
#[export] Instance RecordsState_eta : Eta RecordsState := fun r => Build_RecordsState
  (ledger_records r) (ledger_epoch r).

(** ** Ledger indexes

    Each index is built once, by scanning [records]; a lookup reads it. *)

#[export] Instance Identity_countable kind : Countable (Identity kind) :=
  inj_countable' root MkIdentity (fun '(MkIdentity r) => eq_refl).

Section Index.
Context {K : Type} `{Countable K}.
Variable key : RequestRecord -> option K.

(** [index[key] = ( *index.get(key, ()), position)], for one record *)
Definition index_add (index : gmap K (list nat)) (position : nat) (record : RequestRecord)
    : gmap K (list nat) :=
  match key record with
  | None => index
  | Some k => <[k := default [] (index !! k) ++ [position]]> index
  end.

Fixpoint index_from (index : gmap K (list nat)) (position : nat) (rows : list RequestRecord)
    : gmap K (list nat) :=
  match rows with
  | [] => index
  | row :: rows' => index_from (index_add index position row) (S position) rows'
  end.

Definition index_of (rows : list RequestRecord) : gmap K (list nat) := index_from ∅ 0 rows.

Definition indexed (rows : list RequestRecord) (k : K) : list nat :=
  default [] (index_of rows !! k).

(** [tuple(self.records[position] for position in ...)] *)
Definition rows_at (rows : list RequestRecord) (positions : list nat) : list RequestRecord :=
  omap (fun position => rows !! position) positions.

(** What a scan of every record would find. *)
Definition scan (rows : list RequestRecord) (k : K) : list RequestRecord :=
  filter (fun row => key row = Some k) rows.

Lemma rows_at_app rows ps qs : rows_at rows (ps ++ qs) = rows_at rows ps ++ rows_at rows qs.
Proof. apply omap_app. Qed.

Lemma index_add_lookup index position row k :
  default [] (index_add index position row !! k)
  = default [] (index !! k) ++ (if decide (key row = Some k) then [position] else []).
Proof.
  unfold index_add. destruct (key row) as [k'|] eqn:Hk; case_decide as E.
  - injection E as <-. by rewrite lookup_insert_eq.
  - rewrite lookup_insert_ne by congruence. by rewrite app_nil_r.
  - done.
  - by rewrite app_nil_r.
Qed.

Lemma index_from_scan rows : forall before index k,
  rows_at (before ++ rows) (default [] (index_from index (length before) rows !! k))
  = rows_at (before ++ rows) (default [] (index !! k)) ++ scan rows k.
Proof.
  induction rows as [|row rows IH]; intros before index k; simpl;
    [cbn; by rewrite !app_nil_r|].
  specialize (IH (before ++ [row]) (index_add index (length before) row) k).
  rewrite length_app, Nat.add_1_r, <- app_assoc in IH. simpl in IH.
  rewrite IH, index_add_lookup, rows_at_app, <- app_assoc. f_equal.
  unfold scan. rewrite filter_cons. case_decide; simpl; [|done].
  rewrite list_lookup_middle; done.
Qed.

(** The index answers a lookup with what a scan of the ledger finds, in ledger order. *)
Lemma indexed_scan rows k : rows_at rows (indexed rows k) = scan rows k.
Proof.
  unfold indexed, index_of. pose proof (index_from_scan rows [] ∅ k) as E.
  simpl in E. by rewrite E, lookup_empty.
Qed.

Lemma index_from_positions rows : forall (before : list RequestRecord) index k p,
  p ∈ default [] (index_from index (length before) rows !! k) <->
  p ∈ default [] (index !! k) \/
  (length before <= p)%nat /\ exists row, rows !! (p - length before)%nat = Some row /\ key row = Some k.
Proof.
  induction rows as [|row rows IH]; intros before index k p; simpl.
  - split; [by left|]. intros [?|(_ & row & ? & _)]; [done|]. by rewrite lookup_nil in *.
  - specialize (IH (before ++ [row]) (index_add index (length before) row) k p).
    rewrite length_app, Nat.add_1_r in IH. rewrite IH, index_add_lookup, elem_of_app.
    clear IH. split.
    + intros [[Hp|Hp]|(Hle & row' & Hrow & Hk)]; [by left| |].
      * case_decide; [|by apply elem_of_nil in Hp]. apply list_elem_of_singleton in Hp as ->.
        right. split; [done|]. exists row. by rewrite Nat.sub_diag.
      * right. split; [lia|]. exists row'. split; [|done].
        by replace (p - length before)%nat with (S (p - S (length before))) by lia.
    + intros [Hp|(Hle & row' & Hrow & Hk)]; [by left; left|].
      destruct (decide (p = length before)) as [->|Hne].
      * left; right. rewrite Nat.sub_diag in Hrow. simpl in Hrow. injection Hrow as ->.
        rewrite decide_True by done. by apply list_elem_of_singleton.
      * right. split; [lia|]. exists row'. split; [|done].
        by replace (p - length before)%nat with (S (p - S (length before))) in Hrow by lia.
Qed.

Lemma elem_of_indexed rows k p :
  p ∈ indexed rows k <-> exists row, rows !! p = Some row /\ key row = Some k.
Proof.
  unfold indexed, index_of. rewrite (index_from_positions rows [] ∅ k p), lookup_empty. simpl.
  rewrite Nat.sub_0_r. split; [|intros; right; split; [lia|done]].
  intros [Hp|[_ ?]]; [by apply elem_of_nil in Hp|done].
Qed.

Lemma elem_of_scan rows k row : row ∈ scan rows k <-> row ∈ rows /\ key row = Some k.
Proof. unfold scan. rewrite list_elem_of_filter. tauto. Qed.
End Index.

(** [RecordsState.positions] *)
Definition positions (self : RecordsState) (request_id : option RequestId) : list nat :=
  match request_id with
  | None => []
  | Some identity => indexed (fun row => Some (rec_request_id row)) (ledger_records self) identity
  end.

(** [RecordsState.find] *)
Definition find (self : RecordsState) (request_id : option RequestId) : list RequestRecord :=
  rows_at (ledger_records self) (positions self request_id).

(** [RecordsState.record] *)
Definition record_of (self : RecordsState) (request_id : option RequestId) : option RequestRecord :=
  match positions self request_id with
  | [] => None
  | position :: _ => ledger_records self !! position
  end.

(** [getattr(record.request, "resource_id", None)] *)
Definition named_resource (record : RequestRecord) : option ResourceId :=
  match rec_request record with
  | ObserveOwnedJob _ resource | InspectOwnedJob _ resource | CancelOwnedJob _ _ _ resource
  | CollectEvidence _ resource | CancelOwnedResource _ resource _ => Some resource
  | CloseSession _ _ resource _ | InspectRequest _ _ resource => resource
  | _ => None
  end.

(** [RecordsState.about_resource] *)
Definition about_resource (self : RecordsState) (resource_id : ResourceId) : list RequestRecord :=
  rows_at (ledger_records self) (indexed named_resource (ledger_records self) resource_id).

Definition inspected_target (record : RequestRecord) : option RequestId :=
  match rec_request record with InspectRequest _ target _ => Some target | _ => None end.

(** [RecordsState.inspections_of] *)
Definition inspections_of (self : RecordsState) (target : RequestId) : list RequestRecord :=
  rows_at (ledger_records self) (indexed inspected_target (ledger_records self) target).

(** ** Policies per kind *)

(** [request_interrupt_policy] *)
Definition request_interrupt_policy (request : Request) : InterruptPolicy :=
  match request with
  | DispatchTurn _ turn _ _ | ResumeSessionTurn _ turn _ _ _ _ => turn_on_interrupt turn
  | ExecuteRegisteredOperation _ _ operation _ _ => opschema_on_interrupt (wire_schema_ref operation)
  | _ => InterruptPolicy.RERUN
  end.

Module StepEffect.
Inductive StepEffect : Set := WRITES | SNAPSHOTS | CLOSES | NEITHER.
End StepEffect.
Abbreviation StepEffect := StepEffect.StepEffect.
#[export] Instance StepEffect_dec : EqDecision StepEffect.
Proof. solve_decision. Defined.

(** [next((row for row in registry if row.kind == kind), None)] *)
Definition registered (registry : list OperationDescriptor) (operation : OperationWire)
    : option OperationDescriptor :=
  next_such (fun row => eqb (descriptor_kind row) (opschema_kind (wire_schema_ref operation)))
            registry.

(** [_operation_effect] *)
Definition operation_effect (operation : OperationWire) (registry : list OperationDescriptor)
    : StepEffect :=
  match registered registry operation with
  | None => StepEffect.WRITES
  | Some descriptor =>
      if among (descriptor_revision_authority descriptor)
           [RevisionAuthority.SNAPSHOT; RevisionAuthority.RETAIN] then StepEffect.SNAPSHOTS
      else if eqb (descriptor_revision_authority descriptor) RevisionAuthority.DISCARD
      then StepEffect.NEITHER
      else if eqb (descriptor_lifecycle descriptor) LifecycleClass.QUERY then StepEffect.NEITHER
      else StepEffect.WRITES
  end.

(** [request_effect] *)
Definition request_effect (request : Request) (registry : list OperationDescriptor) : StepEffect :=
  match request with
  | ExecuteRegisteredOperation _ _ operation _ _ => operation_effect operation registry
  | DispatchTurn _ turn _ _ | ResumeSessionTurn _ turn _ _ _ _ =>
      if eqb (session_access (turn_session turn)) Access.READ_ONLY
      then StepEffect.NEITHER else StepEffect.WRITES
  | EnsureWorkspace _ _ _ | RestoreRevision _ _ _ => StepEffect.WRITES
  | SnapshotAndRetain _ _ _ _ | SnapshotAndRetainRun _ _ _ | RetainRevision _ _ _ _ =>
      StepEffect.SNAPSHOTS
  | CloseAttemptScope _ _ => StepEffect.CLOSES
  | SubmitMeasurement _ _ _ _ _ | InspectTurn _ _ _ | ObserveOwnedJob _ _ | InspectOwnedJob _ _
  | CollectEvidence _ _ | InspectRequest _ _ _ | VerifyAdoption _ _ | DiscardWorkspace _ _
  | EnsureSession _ _ _ | CancelTurn _ _ | CloseSession _ _ _ _ | CancelOwnedJob _ _ _ _
  | AdoptRevision _ _ _ | CancelOwnedResource _ _ _ | BlockRequest _ _ _ => StepEffect.NEITHER
  end.

(** [request_close_policy] *)
Definition request_close_policy (request : Request) (registry : list OperationDescriptor)
    : ClosePolicy :=
  match request with
  | ExecuteRegisteredOperation _ _ operation _ _ =>
      match registered registry operation with
      | None => ClosePolicy.WAIT
      | Some descriptor => descriptor_on_close descriptor
      end
  | SubmitMeasurement _ _ _ _ _ => ClosePolicy.WITHDRAW
  | DispatchTurn _ _ _ _ | ResumeSessionTurn _ _ _ _ _ _ | EnsureWorkspace _ _ _
  | RestoreRevision _ _ _ | SnapshotAndRetain _ _ _ _ | SnapshotAndRetainRun _ _ _
  | RetainRevision _ _ _ _ | CloseAttemptScope _ _ | InspectTurn _ _ _ | ObserveOwnedJob _ _
  | InspectOwnedJob _ _ | CollectEvidence _ _ | InspectRequest _ _ _ | VerifyAdoption _ _
  | DiscardWorkspace _ _ | EnsureSession _ _ _ | CancelTurn _ _ | CloseSession _ _ _ _
  | CancelOwnedJob _ _ _ _ | AdoptRevision _ _ _ | CancelOwnedResource _ _ _
  | BlockRequest _ _ _ => ClosePolicy.WAIT
  end.

(** [request_end_policy] *)
Definition request_end_policy (request : Request) (registry : list OperationDescriptor)
    : EndPolicy :=
  match request with
  | ExecuteRegisteredOperation _ _ operation _ _ =>
      match registered registry operation with
      | Some descriptor =>
          if eqb (descriptor_revision_authority descriptor) RevisionAuthority.DISCARD
          then EndPolicy.RELEASE else EndPolicy.CANCEL
      | None => EndPolicy.CANCEL
      end
  | CloseSession _ _ _ _ | CancelTurn _ _ | DiscardWorkspace _ _ | CloseAttemptScope _ _
  | CancelOwnedJob _ _ _ _ => EndPolicy.RELEASE
  | DispatchTurn _ _ _ _ | ResumeSessionTurn _ _ _ _ _ _ | SubmitMeasurement _ _ _ _ _
  | EnsureWorkspace _ _ _ | RestoreRevision _ _ _ | SnapshotAndRetain _ _ _ _
  | SnapshotAndRetainRun _ _ _ | RetainRevision _ _ _ _ | InspectTurn _ _ _ | ObserveOwnedJob _ _
  | InspectOwnedJob _ _ | CollectEvidence _ _ | InspectRequest _ _ _ | VerifyAdoption _ _
  | EnsureSession _ _ _ | AdoptRevision _ _ _ | CancelOwnedResource _ _ _
  | BlockRequest _ _ _ => EndPolicy.CANCEL
  end.

(** [request_lifecycle] *)
Definition request_lifecycle (request : Request) : LifecycleClass :=
  match request with
  | ExecuteRegisteredOperation _ _ operation _ _ => opschema_lifecycle (wire_schema_ref operation)
  | DispatchTurn _ _ _ _ | ResumeSessionTurn _ _ _ _ _ _ => LifecycleClass.SESSION_TURN
  | SubmitMeasurement _ _ _ _ _ => LifecycleClass.OWNED_JOB
  | InspectTurn _ _ _ | ObserveOwnedJob _ _ | InspectOwnedJob _ _ | CollectEvidence _ _
  | InspectRequest _ _ _ | VerifyAdoption _ _ => LifecycleClass.QUERY
  | EnsureWorkspace _ _ _ | RestoreRevision _ _ _ | SnapshotAndRetain _ _ _ _
  | SnapshotAndRetainRun _ _ _ | RetainRevision _ _ _ _ | DiscardWorkspace _ _
  | CloseAttemptScope _ _ | EnsureSession _ _ _ | CancelTurn _ _ | CloseSession _ _ _ _
  | CancelOwnedJob _ _ _ _ | AdoptRevision _ _ _ | CancelOwnedResource _ _ _
  | BlockRequest _ _ _ => LifecycleClass.IDEMPOTENT_WRITE
  end.

(** ** How a step ends ([steps.py]) *)

Module CancelReason.
Inductive CancelReason : Set := DEADLINE | PAUSE_NOW | DRAIN_EXPIRED | RUN_ENDING | WITHDRAWN | INTERRUPTED.
End CancelReason.
Abbreviation CancelReason := CancelReason.CancelReason.
#[export] Instance CancelReason_dec : EqDecision CancelReason.
Proof. solve_decision. Defined.

Module Interruption.
Inductive Interruption : Set := PAUSE | SHUTDOWN | RAISED | LOST.
End Interruption.
Abbreviation Interruption := Interruption.Interruption.
#[export] Instance Interruption_dec : EqDecision Interruption.
Proof. solve_decision. Defined.

(** [Interruption.charged] *)
Definition interruption_charged (self : Interruption) : bool :=
  among self [Interruption.RAISED; Interruption.LOST].

Record StepAttempts := {
  row_tag : RequestId;
  row_started : Z;
  row_ended : bool;
  row_uncharged : Z;
  row_unsettled : bool;
  row_deadline_at : option float;
  row_charged_at : option float
}.
#[export] Instance StepAttempts_dec : EqDecision StepAttempts.
Proof. solve_decision. Defined.
#[export] Instance StepAttempts_eta : Eta StepAttempts := fun r => Build_StepAttempts (row_tag r)
  (row_started r) (row_ended r) (row_uncharged r) (row_unsettled r) (row_deadline_at r)
  (row_charged_at r).

(** [StepAttempts.charged] *)
Definition row_charged (self : StepAttempts) : Z :=
  row_started self - row_uncharged self.

(** ** Run results ([settlement.py]) *)

Module RunOutcome.
Inductive RunOutcome : Set := SUCCESS | FAILURE | BLOCKED | CANCELLED.
End RunOutcome.
Abbreviation RunOutcome := RunOutcome.RunOutcome.
#[export] Instance RunOutcome_dec : EqDecision RunOutcome.
Proof. solve_decision. Defined.

Record RunResultProposal := {
  result_outcome : RunOutcome;
  result_reason : string;
  result_selection : option Selection;
  result_uncompared : bool
}.
#[export] Instance RunResultProposal_dec : EqDecision RunResultProposal.
Proof. solve_decision. Defined.
#[export] Instance RunResultProposal_eta : Eta RunResultProposal := fun r => Build_RunResultProposal
  (result_outcome r) (result_reason r) (result_selection r) (result_uncompared r).

(** [RunResultProposal._uncompared_only_of_a_candidate] *)
Definition uncompared_only_of_a_candidate (self : RunResultProposal) : result string unit :=
  ensure (negb (result_uncompared self
                && negb match result_selection self with
                        | Some (RetainedCandidate _ _) => true
                        | _ => false
                        end)) "uncompared".

Record StepsState := {
  steps_epoch : Z;
  steps_attempts : list StepAttempts;
  steps_ended : option RunResultProposal
}.
#[export] Instance StepsState_dec : EqDecision StepsState.
Proof. solve_decision. Defined.
#[export] Instance StepsState_eta : Eta StepsState := fun r => Build_StepsState (steps_epoch r)
  (steps_attempts r) (steps_ended r).

(** [StepsState.of] *)
Definition attempts_of (self : StepsState) (tag : RequestId) : option StepAttempts :=
  next_such (fun row => eqb (row_tag row) tag) (steps_attempts self).

(** ** Lemmas about the ledger *)

Lemma find_scan self identity :
  find self (Some identity)
  = filter (fun row => rec_request_id row = identity) (ledger_records self).
Proof.
  unfold find. simpl. rewrite indexed_scan. apply list_filter_iff. intros row. split; congruence.
Qed.

Lemma record_of_find self identity :
  record_of self (Some identity) = head (find self (Some identity)).
Proof.
  unfold record_of, find. destruct (positions self (Some identity)) as [|p ps] eqn:E; [done|].
  assert (p ∈ positions self (Some identity)) as Hp by (rewrite E; by left).
  apply elem_of_indexed in Hp as (row & Hrow & _). simpl. by rewrite Hrow.
Qed.
