(* ===== verification/State.v ===== *)
(** * The aggregate state of the kernel

    [libs/vs-core/src/vs_core/types/kernel.py] with the views of each area it holds
    ([scheduling.py], [attempts.py], [sessions.py], [evaluation.py], [settlement.py],
    [strategy.py], [job_observations.py], [waits.py]).  Every field of a class is a field of its record; one
    that no modelled rule reads is held as its canonical text. *)

From S2P Require Import Prelude PyFloat Identities Values Requests Records.

(** ** Assessments ([settlement.py]) *)

Module AssessmentKind.
Inductive AssessmentKind : Set := CORRECTNESS | BENCHMARK | PROFILING | LOCAL_VALIDATION.
End AssessmentKind.
Abbreviation AssessmentKind := AssessmentKind.AssessmentKind.
#[export] Instance AssessmentKind_dec : EqDecision AssessmentKind.
Proof. solve_decision. Defined.
Module AssessmentVerdict.
Inductive AssessmentVerdict : Set := SATISFIED | REJECTED | DEFERRED.
End AssessmentVerdict.
Abbreviation AssessmentVerdict := AssessmentVerdict.AssessmentVerdict.
#[export] Instance AssessmentVerdict_dec : EqDecision AssessmentVerdict.
Proof. solve_decision. Defined.
Module SettleRetention.
Inductive SettleRetention : Set := DISCARD | WIP | CANDIDATE.
End SettleRetention.
Abbreviation SettleRetention := SettleRetention.SettleRetention.
#[export] Instance SettleRetention_dec : EqDecision SettleRetention.
Proof. solve_decision. Defined.
Module SettleOutcome.
Inductive SettleOutcome : Set := SUCCEEDED | FAILED | CANCELLED | BLOCKED.
End SettleOutcome.
Abbreviation SettleOutcome := SettleOutcome.SettleOutcome.
#[export] Instance SettleOutcome_dec : EqDecision SettleOutcome.
Proof. solve_decision. Defined.

(** [InvocationRef | EvidenceKey | EvidenceId] *)
Inductive AssessmentSource : Set :=
  | FromInvocation (invocation : InvocationRef)
  | FromEvidenceKey (key : EvidenceKey)
  | FromEvidence (evidence_id : EvidenceId).

#[export] Instance AssessmentSource_dec : EqDecision AssessmentSource.
Proof. solve_decision. Defined.

Record AssessmentProposal := {
  assess_kind : AssessmentKind;
  assess_verdict : AssessmentVerdict;
  assess_sources : list AssessmentSource;
  assess_candidate : option RevisionRef;
  assess_schema_version : Z
}.
#[export] Instance AssessmentProposal_dec : EqDecision AssessmentProposal.
Proof. solve_decision. Defined.
#[export] Instance AssessmentProposal_eta : Eta AssessmentProposal := fun r => Build_AssessmentProposal
  (assess_kind r) (assess_verdict r) (assess_sources r) (assess_candidate r)
  (assess_schema_version r).

Record EvidenceRequirement := {
  ereq_kind : EvidenceKind;
  ereq_provenance : Provenance;
  ereq_purpose : option Purpose
}.
#[export] Instance EvidenceRequirement_dec : EqDecision EvidenceRequirement.
Proof. solve_decision. Defined.
#[export] Instance EvidenceRequirement_eta : Eta EvidenceRequirement := fun r => Build_EvidenceRequirement
  (ereq_kind r) (ereq_provenance r) (ereq_purpose r).

Record AssessmentAuthority := {
  authority_kind : AssessmentKind;
  authority_role_id : RoleId;
  authority_output_schema : SchemaRef
}.
#[export] Instance AssessmentAuthority_dec : EqDecision AssessmentAuthority.
Proof. solve_decision. Defined.
#[export] Instance AssessmentAuthority_eta : Eta AssessmentAuthority := fun r => Build_AssessmentAuthority
  (authority_kind r) (authority_role_id r) (authority_output_schema r).

Record EvidenceRequirements := {
  requirements_assessment_authorities : list AssessmentAuthority;
  requirements_required_evidence : list EvidenceRequirement;
  requirements_required_assessments : list AssessmentKind;
  requirements_allow_empty_queue_success : bool
}.
#[export] Instance EvidenceRequirements_dec : EqDecision EvidenceRequirements.
Proof. solve_decision. Defined.
#[export] Instance EvidenceRequirements_eta : Eta EvidenceRequirements := fun r => Build_EvidenceRequirements
  (requirements_assessment_authorities r) (requirements_required_evidence r)
  (requirements_required_assessments r) (requirements_allow_empty_queue_success r).

(** ** Decisions of the search ([strategy.py]) *)

(** The three normalizations an [Operation] carries *)
Record Normalizations := {
  normalized_turn : option TurnSpec;
  normalized_measurement : option Canonical;
  normalized_scope_reopen : option ScopeReopenNormalization
}.
#[export] Instance Normalizations_dec : EqDecision Normalizations.
Proof. solve_decision. Defined.
#[export] Instance Normalizations_eta : Eta Normalizations := fun r => Build_Normalizations
  (normalized_turn r) (normalized_measurement r) (normalized_scope_reopen r).

(** The codec proof an [Operation] carries in private attributes once a registry validated it *)
Record RegisteredProof := {
  registered_wire : option OperationWire;
  registered_normalizations : Normalizations
}.
#[export] Instance RegisteredProof_dec : EqDecision RegisteredProof.
Proof. solve_decision. Defined.
#[export] Instance RegisteredProof_eta : Eta RegisteredProof := fun r => Build_RegisteredProof
  (registered_wire r) (registered_normalizations r).

(** [Operation.registered_scope_reopen] *)
Definition registered_scope_reopen (self : RegisteredProof) : option ScopeReopenNormalization :=
  normalized_scope_reopen (registered_normalizations self).

(** An owning library's request: the canonical text of its wire and, when it is a
    [RenderRoleArtifactsBase], the invocation it continues. *)
Record OperationRequest := {
  oprequest_kind : string;
  oprequest_lifecycle : LifecycleClass;
  oprequest_content : Canonical;
  oprequest_renders : option (option InvocationRef)
}.
#[export] Instance OperationRequest_dec : EqDecision OperationRequest.
Proof. solve_decision. Defined.
#[export] Instance OperationRequest_eta : Eta OperationRequest := fun r => Build_OperationRequest
  (oprequest_kind r) (oprequest_lifecycle r) (oprequest_content r) (oprequest_renders r).

Record AttemptBudget := {
  budget_admission_charge : Z;
  budget_paid_invocation_limit : Z;
  budget_refund_limit : Z
}.
#[export] Instance AttemptBudget_dec : EqDecision AttemptBudget.
Proof. solve_decision. Defined.
#[export] Instance AttemptBudget_eta : Eta AttemptBudget := fun r => Build_AttemptBudget
  (budget_admission_charge r) (budget_paid_invocation_limit r) (budget_refund_limit r).

Inductive WithdrawTarget : Set :=
  | TargetAttempt (attempt : AttemptRef)
  | TargetInvocation (invocation : InvocationRef)
  | TargetOperation (operation_id : OperationId) (generation : Z).

#[export] Instance WithdrawTarget_dec : EqDecision WithdrawTarget.
Proof. solve_decision. Defined.

(** The five facts a [Settle] proposes, which a [Settlement] records *)
Record SettleFacts := {
  settle_candidate : option RevisionRef;
  settle_assessments : list AssessmentProposal;
  settle_eligible : bool;
  settle_retention : SettleRetention;
  settle_outcome : SettleOutcome
}.
#[export] Instance SettleFacts_dec : EqDecision SettleFacts.
Proof. solve_decision. Defined.
#[export] Instance SettleFacts_eta : Eta SettleFacts := fun r => Build_SettleFacts
  (settle_candidate r) (settle_assessments r) (settle_eligible r) (settle_retention r)
  (settle_outcome r).

Inductive Disposition : Set :=
  | DPark
  | DCancel
  | DSettle (settlement : SettleFacts)
  | DInterrupt (refund : Z).

#[export] Instance Disposition_dec : EqDecision Disposition.
Proof. solve_decision. Defined.

Record DecisionBase := {
  dbase_decision_id : DecisionId;
  dbase_scope : Scope
}.
#[export] Instance DecisionBase_dec : EqDecision DecisionBase.
Proof. solve_decision. Defined.
#[export] Instance DecisionBase_eta : Eta DecisionBase := fun r => Build_DecisionBase
  (dbase_decision_id r) (dbase_scope r).

Inductive Command : Set :=
  | RequestTurn (d : DecisionBase) (turn : TurnSpec)
  | StartAttempt (d : DecisionBase) (attempt_id : AttemptId) (item_id : ItemId)
      (workspace : WorkspacePlan) (budget : AttemptBudget) (initial_sessions : list SessionSpec)
  | Withdraw (d : DecisionBase) (target : WithdrawTarget) (disposition : Disposition)
  | Measure (d : DecisionBase) (plan : MeasurementPlan) (compared : bool)
  | ProposeWinner (d : DecisionBase) (selection : Selection)
  | Operation (d : DecisionBase) (request : OperationRequest) (normalizations : Normalizations)
      (registered : RegisteredProof)
  | Finish (d : DecisionBase) (mode : StopMode) (result : RunResultProposal).

#[export] Instance Command_dec : EqDecision Command.
Proof. solve_decision. Defined.

Definition command_base (command : Command) : DecisionBase :=
  match command with
  | RequestTurn d _ | StartAttempt d _ _ _ _ _ | Withdraw d _ _ | Measure d _ _
  | ProposeWinner d _ | Operation d _ _ _ | Finish d _ _ => d
  end.

Definition command_decision_id (command : Command) : DecisionId := dbase_decision_id (command_base command).
Definition command_scope (command : Command) : Scope := dbase_scope (command_base command).

(** A part of a [path]: a field's name or a position *)
Inductive PathPart : Set :=
  | Field (name : string)
  | Position (index : Z).

#[export] Instance PathPart_dec : EqDecision PathPart.
Proof. solve_decision. Defined.

(** [Accepted.dependencies] and [Rejected.retry_after] are kept as canonical text. *)
Inductive DecisionFeedback : Set :=
  | Accepted (decision_id : DecisionId) (allocated_ids : list string)
      (request_ids : list RequestId) (queue_position : option Z) (dependencies : Canonical)
  | Rejected (decision_id : DecisionId) (code : RejectionCode) (path : list PathPart)
      (detail : string) (retry_after : option Canonical).

#[export] Instance DecisionFeedback_dec : EqDecision DecisionFeedback.
Proof. solve_decision. Defined.

Definition is_accepted (feedback : DecisionFeedback) : bool :=
  match feedback with Accepted _ _ _ _ _ => true | Rejected _ _ _ _ _ => false end.

Record DecisionReceipt := {
  receipt_decision_id : DecisionId;
  receipt_decision : option Command;
  receipt_until : option Until;
  receipt_limit : option float;
  receipt_payload_digest : string;
  receipt_feedback : DecisionFeedback;
  receipt_request_ids : list RequestId;
  receipt_completion : option CompletionStatus
}.
#[export] Instance DecisionReceipt_dec : EqDecision DecisionReceipt.
Proof. solve_decision. Defined.
#[export] Instance DecisionReceipt_eta : Eta DecisionReceipt := fun r => Build_DecisionReceipt
  (receipt_decision_id r) (receipt_decision r) (receipt_until r) (receipt_limit r)
  (receipt_payload_digest r) (receipt_feedback r) (receipt_request_ids r) (receipt_completion r).

(** ** What the run is about *)

Record TaskStage := {
  tstage_stage_id : string;
  tstage_execution_seconds : float
}.
#[export] Instance TaskStage_dec : EqDecision TaskStage.
Proof. solve_decision. Defined.
#[export] Instance TaskStage_eta : Eta TaskStage := fun r => Build_TaskStage (tstage_stage_id r)
  (tstage_execution_seconds r).

(** [TaskTerms], its [objectives] kept as canonical text *)
Record TaskTerms := {
  task_recipe : ArtifactRef;
  task_stages : list TaskStage;
  task_measured : list string;
  task_queue_allowance : float;
  task_accuracy_stage : option string;
  task_benchmark_stage : option string;
  task_accuracy_gated : list EvidenceKind;
  task_operation_seconds : float;
  task_objectives : list Canonical;
  task_relative_noise : float;
  task_base_staleness : float;
  task_runaway_evaluations : Z;
  task_profile_fields : list string
}.
#[export] Instance TaskTerms_dec : EqDecision TaskTerms.
Proof. solve_decision. Defined.
#[export] Instance TaskTerms_eta : Eta TaskTerms := fun r => Build_TaskTerms (task_recipe r)
  (task_stages r) (task_measured r) (task_queue_allowance r) (task_accuracy_stage r)
  (task_benchmark_stage r) (task_accuracy_gated r) (task_operation_seconds r) (task_objectives r)
  (task_relative_noise r) (task_base_staleness r) (task_runaway_evaluations r)
  (task_profile_fields r).

(** [TaskTerms.requires_accuracy_proof] and [TaskTerms._stages_exist] *)
Definition requires_accuracy_proof (self : TaskTerms) : bool :=
  match task_accuracy_stage self with
  | Some stage => among stage (task_measured self)
  | None => false
  end.
Definition stages_exist (self : TaskTerms) : result string unit :=
  let known := map tstage_stage_id (task_stages self) in
  let named_stage (stage : option string) :=
    match stage with Some stage => if eqb stage ""%string then [] else [stage] | None => [] end in
  ensure (all (fun stage => among stage known)
              (task_measured self ++ named_stage (task_accuracy_stage self)
               ++ named_stage (task_benchmark_stage self))) "measured".

(** [RunFacts], its [options] and [constraints] kept as canonical text *)
Record RunFacts := {
  runfacts_objective : string;
  runfacts_options : list Canonical;
  runfacts_constraints : list Canonical;
  runfacts_baseline : RevisionRef;
  runfacts_evaluator_digest : string;
  runfacts_workload_digest : string;
  runfacts_environment_digest : string;
  runfacts_dedicated_measurement_resources : bool;
  runfacts_artifacts : list ArtifactRef;
  runfacts_task : option TaskTerms
}.
#[export] Instance RunFacts_dec : EqDecision RunFacts.
Proof. solve_decision. Defined.
#[export] Instance RunFacts_eta : Eta RunFacts := fun r => Build_RunFacts (runfacts_objective r)
  (runfacts_options r) (runfacts_constraints r) (runfacts_baseline r) (runfacts_evaluator_digest r)
  (runfacts_workload_digest r) (runfacts_environment_digest r)
  (runfacts_dedicated_measurement_resources r) (runfacts_artifacts r) (runfacts_task r).

(** ** Runs *)

Record RunState := {
  run_run_id : RunId;
  run_generation : Z;
  run_status : RunStatus;
  run_park : option RunPark;
  run_now_at : float;
  run_deadline_at : float;
  run_duration_seconds : option float;
  run_facts : RunFacts;
  run_capabilities : Capabilities;
  run_limits : Limits;
  run_requirements : EvidenceRequirements;
  run_declaration : Canonical;
  run_controls : list ControlInput;
  run_artifacts : list ArtifactRef;
  run_receipts : list DecisionReceipt;
  run_result : option RunResultProposal
}.
#[export] Instance RunState_dec : EqDecision RunState.
Proof. solve_decision. Defined.
#[export] Instance RunState_eta : Eta RunState := fun r => Build_RunState (run_run_id r)
  (run_generation r) (run_status r) (run_park r) (run_now_at r) (run_deadline_at r)
  (run_duration_seconds r) (run_facts r) (run_capabilities r) (run_limits r) (run_requirements r)
  (run_declaration r) (run_controls r) (run_artifacts r) (run_receipts r) (run_result r).

(** ** Scheduling *)

Record AttemptRequest := {
  areq_decision_id : DecisionId;
  areq_attempt_id : AttemptId;
  areq_item_id : ItemId;
  areq_generation : Z;
  areq_admission_charge : Z;
  areq_pools : list PoolId
}.
#[export] Instance AttemptRequest_dec : EqDecision AttemptRequest.
Proof. solve_decision. Defined.
#[export] Instance AttemptRequest_eta : Eta AttemptRequest := fun r => Build_AttemptRequest
  (areq_decision_id r) (areq_attempt_id r) (areq_item_id r) (areq_generation r)
  (areq_admission_charge r) (areq_pools r).

Record AttemptReopenRequest := {
  reopen_decision_id : DecisionId;
  reopen_request_id : RequestId;
  reopen_attempt : AttemptRef;
  reopen_pools : list PoolId
}.
#[export] Instance AttemptReopenRequest_dec : EqDecision AttemptReopenRequest.
Proof. solve_decision. Defined.
#[export] Instance AttemptReopenRequest_eta : Eta AttemptReopenRequest := fun r => Build_AttemptReopenRequest
  (reopen_decision_id r) (reopen_request_id r) (reopen_attempt r) (reopen_pools r).

Inductive AdmissionRequest : Set :=
  | AdmitStart (request : AttemptRequest)
  | AdmitReopen (request : AttemptReopenRequest).

#[export] Instance AdmissionRequest_dec : EqDecision AdmissionRequest.
Proof. solve_decision. Defined.

Record Slot := {
  slot_attempt : AttemptRef;
  slot_admission_id : DecisionId;
  slot_pools : list PoolId;
  slot_admitted_at : float;
  slot_charge_ended_at : option float
}.
#[export] Instance Slot_dec : EqDecision Slot.
Proof. solve_decision. Defined.
#[export] Instance Slot_eta : Eta Slot := fun r => Build_Slot (slot_attempt r)
  (slot_admission_id r) (slot_pools r) (slot_admitted_at r) (slot_charge_ended_at r).

(** [Slot.chronological_charge] *)
Definition chronological_charge (self : Slot) : result string unit :=
  ensure (match slot_charge_ended_at self with
          | Some ended => negb (flt ended (slot_admitted_at self))
          | None => true
          end) "charge_ended_at".

Record SchedulingState := {
  sched_queue : list AdmissionRequest;
  sched_slots : list Slot;
  sched_admission_closed : bool;
  sched_released_slot_seconds : float
}.
#[export] Instance SchedulingState_dec : EqDecision SchedulingState.
Proof. solve_decision. Defined.
#[export] Instance SchedulingState_eta : Eta SchedulingState := fun r => Build_SchedulingState
  (sched_queue r) (sched_slots r) (sched_admission_closed r) (sched_released_slot_seconds r).

(** ** Attempts *)

Module AttemptPhase.
Inductive AttemptPhase : Set := QUEUED | ACQUIRING | ACTIVE | CLOSING | TERMINAL | PARKED | BLOCKED.
End AttemptPhase.
Abbreviation AttemptPhase := AttemptPhase.AttemptPhase.
#[export] Instance AttemptPhase_dec : EqDecision AttemptPhase.
Proof. solve_decision. Defined.

Module ClosureDisposition.
Inductive ClosureDisposition : Set := PARK | CANCEL | SETTLE.
End ClosureDisposition.
Abbreviation ClosureDisposition := ClosureDisposition.ClosureDisposition.
#[export] Instance ClosureDisposition_dec : EqDecision ClosureDisposition.
Proof. solve_decision. Defined.

Record AttemptClosure := {
  closure_disposition : ClosureDisposition;
  closure_requested_at : float;
  closure_authority : RequestId;
  closure_admission_id : DecisionId;
  closure_retention_refused : bool;
  closure_discard_refused : bool
}.
#[export] Instance AttemptClosure_dec : EqDecision AttemptClosure.
Proof. solve_decision. Defined.
#[export] Instance AttemptClosure_eta : Eta AttemptClosure := fun r => Build_AttemptClosure
  (closure_disposition r) (closure_requested_at r) (closure_authority r) (closure_admission_id r)
  (closure_retention_refused r) (closure_discard_refused r).

Record AttemptCheckpoint := {
  checkpoint_invocation : option InvocationRef;
  checkpoint_request_id : RequestId;
  checkpoint_revision : RevisionRef;
  checkpoint_retention : Retention;
  checkpoint_measured_input : option string
}.
#[export] Instance AttemptCheckpoint_dec : EqDecision AttemptCheckpoint.
Proof. solve_decision. Defined.
#[export] Instance AttemptCheckpoint_eta : Eta AttemptCheckpoint := fun r => Build_AttemptCheckpoint
  (checkpoint_invocation r) (checkpoint_request_id r) (checkpoint_revision r)
  (checkpoint_retention r) (checkpoint_measured_input r).

Record AttemptView := {
  attempt_attempt_id : AttemptId;
  attempt_item_id : ItemId;
  attempt_generation : Z;
  attempt_phase : AttemptPhase;
  attempt_workspace : WorkspacePlan;
  attempt_base_input : option string;
  attempt_budget : AttemptBudget;
  attempt_admission_id : option DecisionId;
  attempt_closure : option AttemptClosure;
  attempt_checkpoints : list AttemptCheckpoint;
  attempt_charges : list ChargeReceipt;
  attempt_parent : option AttemptRef;
  attempt_pending_records : list RequestId;
  attempt_sessions : list SessionId;
  attempt_release_dependencies : list ReleaseDependency;
  attempt_evaluation_history : Canonical;
  attempt_terminal_reason : option Canonical;
  attempt_checkpoint_declines : list Canonical
}.
#[export] Instance AttemptView_dec : EqDecision AttemptView.
Proof. solve_decision. Defined.
#[export] Instance AttemptView_eta : Eta AttemptView := fun r => Build_AttemptView
  (attempt_attempt_id r) (attempt_item_id r) (attempt_generation r) (attempt_phase r)
  (attempt_workspace r) (attempt_base_input r) (attempt_budget r) (attempt_admission_id r)
  (attempt_closure r) (attempt_checkpoints r) (attempt_charges r) (attempt_parent r)
  (attempt_pending_records r) (attempt_sessions r) (attempt_release_dependencies r)
  (attempt_evaluation_history r) (attempt_terminal_reason r) (attempt_checkpoint_declines r).

(** ** Waits ([waits.py]) *)

Module WaitKind.
Inductive WaitKind : Set := SESSION | OWNED_JOB | RELEASE_DEPENDENCY | YIELD_PUBLICATION | INTERRUPT | REFUND | DISPATCH | RETRY | TURN_ACQUISITION | BLOCKED_RECORD.
End WaitKind.
Abbreviation WaitKind := WaitKind.WaitKind.
#[export] Instance WaitKind_dec : EqDecision WaitKind.
Proof. solve_decision. Defined.

Record WaitSubject := {
  subject_kind : WaitKind;
  subject_identity : string
}.
#[export] Instance WaitSubject_dec : EqDecision WaitSubject.
Proof. solve_decision. Defined.
#[export] Instance WaitSubject_eta : Eta WaitSubject := fun r => Build_WaitSubject (subject_kind r)
  (subject_identity r).

Record WaitOn := {
  wait_requests : list RequestId;
  wait_subjects : list WaitSubject;
  wait_timer : option float
}.
#[export] Instance WaitOn_dec : EqDecision WaitOn.
Proof. solve_decision. Defined.
#[export] Instance WaitOn_eta : Eta WaitOn := fun r => Build_WaitOn (wait_requests r)
  (wait_subjects r) (wait_timer r).

(** [WaitOn.names_something] *)
Definition names_something (self : WaitOn) : result string unit :=
  require* negb (eqb (wait_requests self) [] && eqb (wait_subjects self) []
                 && is_none (wait_timer self)) else "requests"%string in
  require* distinct (wait_requests self) else "requests"%string in
  ensure (distinct (wait_subjects self)) "subjects"%string.

(** ** Sessions *)

Module SessionPhase.
Inductive SessionPhase : Set := ACQUIRING | IDLE | EXECUTING | CHECKPOINTED | SUSPENDED | CLOSING | TERMINAL | UNKNOWN.
End SessionPhase.
Abbreviation SessionPhase := SessionPhase.SessionPhase.
#[export] Instance SessionPhase_dec : EqDecision SessionPhase.
Proof. solve_decision. Defined.

(** [session_waits] and [session_may_wait] *)
Definition session_waits (phase : SessionPhase) : bool :=
  match phase with
  | SessionPhase.ACQUIRING | SessionPhase.EXECUTING | SessionPhase.CLOSING => true
  | SessionPhase.IDLE | SessionPhase.CHECKPOINTED | SessionPhase.SUSPENDED
  | SessionPhase.TERMINAL | SessionPhase.UNKNOWN => false
  end.
Definition session_may_wait (phase : SessionPhase) : bool :=
  session_waits phase || eqb phase SessionPhase.UNKNOWN.

Record SessionView := {
  view_spec : SessionSpec;
  view_scope : Scope;
  view_generation : Z;
  view_phase : SessionPhase;
  view_invocation : option InvocationId;
  view_accepted : bool;
  view_resource_id : option ResourceId;
  view_pending_records : list RequestId;
  view_acceptance_sequence : option Z;
  view_continuation_id : option ContinuationId;
  view_wait : option WaitOn
}.
#[export] Instance SessionView_dec : EqDecision SessionView.
Proof. solve_decision. Defined.
#[export] Instance SessionView_eta : Eta SessionView := fun r => Build_SessionView (view_spec r)
  (view_scope r) (view_generation r) (view_phase r) (view_invocation r) (view_accepted r)
  (view_resource_id r) (view_pending_records r) (view_acceptance_sequence r)
  (view_continuation_id r) (view_wait r).

(** [SessionView.waits_only_while_waiting] *)
Definition waits_only_while_waiting (self : SessionView) : result string unit :=
  ensure (is_none (view_wait self) || session_may_wait (view_phase self)) "wait".

Record Invocation := {
  inv_invocation : InvocationRef;
  inv_scope : Scope;
  inv_turn : TurnSpec;
  inv_registered_operation : option OperationId;
  inv_phase : SessionPhase;
  inv_observation : option Observation;
  inv_output_schema : option SchemaRef;
  inv_output_json : option string;
  inv_reserved_inputs : list ArtifactRef;
  inv_input_ids : list InputId;
  inv_guidance_ids : list InputId;
  inv_evaluation_prefix : option Canonical;
  inv_pending_suspension : option Canonical;
  inv_until : Until;
  inv_limit : option float;
  inv_wait : option WaitOn
}.
#[export] Instance Invocation_dec : EqDecision Invocation.
Proof. solve_decision. Defined.
#[export] Instance Invocation_eta : Eta Invocation := fun r => Build_Invocation (inv_invocation r)
  (inv_scope r) (inv_turn r) (inv_registered_operation r) (inv_phase r) (inv_observation r)
  (inv_output_schema r) (inv_output_json r) (inv_reserved_inputs r) (inv_input_ids r)
  (inv_guidance_ids r) (inv_evaluation_prefix r) (inv_pending_suspension r) (inv_until r)
  (inv_limit r) (inv_wait r).

(** [turn_acquires] and [turn_may_wait] *)
Definition turn_acquires (invocation : Invocation) : bool :=
  eqb (inv_phase invocation) SessionPhase.ACQUIRING && is_none (inv_observation invocation).
Definition turn_may_wait (invocation : Invocation) : bool :=
  turn_acquires invocation || not_none (inv_pending_suspension invocation).

Module ClaimPhase.
Inductive ClaimPhase : Set := PENDING | DRAINING | CHECKPOINTED | COMPLETED | BLOCKED.
End ClaimPhase.
Abbreviation ClaimPhase := ClaimPhase.ClaimPhase.
#[export] Instance ClaimPhase_dec : EqDecision ClaimPhase.
Proof. solve_decision. Defined.

Record InterruptClaim := {
  claim_invocation : InvocationRef;
  claim_authority : RequestId;
  claim_refund : Z;
  claim_phase : ClaimPhase;
  claim_checkpoint_authority : option RequestId;
  claim_refunded_charge : option ChargeId;
  claim_wait : option WaitOn
}.
#[export] Instance InterruptClaim_dec : EqDecision InterruptClaim.
Proof. solve_decision. Defined.
#[export] Instance InterruptClaim_eta : Eta InterruptClaim := fun r => Build_InterruptClaim
  (claim_invocation r) (claim_authority r) (claim_refund r) (claim_phase r)
  (claim_checkpoint_authority r) (claim_refunded_charge r) (claim_wait r).

Module GroupPhase.
Inductive GroupPhase : Set := ACQUIRING | READY | FAILED.
End GroupPhase.
Abbreviation GroupPhase := GroupPhase.GroupPhase.
#[export] Instance GroupPhase_dec : EqDecision GroupPhase.
Proof. solve_decision. Defined.

Record SessionAcquisitionGroup := {
  group_attempt : AttemptRef;
  group_admission_id : DecisionId;
  group_scope : Scope;
  group_session_ids : list SessionId;
  group_phase : GroupPhase;
  group_failure_request : option RequestId
}.
#[export] Instance SessionAcquisitionGroup_dec : EqDecision SessionAcquisitionGroup.
Proof. solve_decision. Defined.
#[export] Instance SessionAcquisitionGroup_eta : Eta SessionAcquisitionGroup := fun r => Build_SessionAcquisitionGroup
  (group_attempt r) (group_admission_id r) (group_scope r) (group_session_ids r) (group_phase r)
  (group_failure_request r).

Record SessionsState := {
  sessions_sessions : list SessionView;
  sessions_invocations : list Invocation;
  sessions_inputs : list Canonical;
  sessions_run_charges : list ChargeReceipt;
  sessions_interrupts : list InterruptClaim;
  sessions_acquisition_groups : list SessionAcquisitionGroup;
  sessions_run_checkpoints : list Canonical
}.
#[export] Instance SessionsState_dec : EqDecision SessionsState.
Proof. solve_decision. Defined.
#[export] Instance SessionsState_eta : Eta SessionsState := fun r => Build_SessionsState
  (sessions_sessions r) (sessions_invocations r) (sessions_inputs r) (sessions_run_charges r)
  (sessions_interrupts r) (sessions_acquisition_groups r) (sessions_run_checkpoints r).

(** ** Evaluation *)

Module ProgressState.
Inductive ProgressState : Set := PENDING | RUNNING | UNKNOWN.
End ProgressState.
Abbreviation ProgressState := ProgressState.ProgressState.
#[export] Instance ProgressState_dec : EqDecision ProgressState.
Proof. solve_decision. Defined.

Record JobProgress := {
  progress_observation_sequence : Z;
  progress_observed_at : float;
  progress_state : ProgressState;
  progress_stage_id : option string;
  progress_queued_s : option float;
  progress_ran_s : option float;
  progress_pending_reason : option string;
  progress_estimated_start_at : option float
}.
#[export] Instance JobProgress_dec : EqDecision JobProgress.
Proof. solve_decision. Defined.
#[export] Instance JobProgress_eta : Eta JobProgress := fun r => Build_JobProgress
  (progress_observation_sequence r) (progress_observed_at r) (progress_state r)
  (progress_stage_id r) (progress_queued_s r) (progress_ran_s r) (progress_pending_reason r)
  (progress_estimated_start_at r).

Module WaitEnd.
Inductive WaitEnd : Set := LIMIT | QUEUE_BUDGET | RUN_END.
End WaitEnd.
Abbreviation WaitEnd := WaitEnd.WaitEnd.
#[export] Instance WaitEnd_dec : EqDecision WaitEnd.
Proof. solve_decision. Defined.

Record OwnedJob := {
  job_resource_id : ResourceId;
  job_submission_id : RequestId;
  job_scope : Scope;
  job_observation : option Observation;
  job_progress : option JobProgress;
  job_children : list ResourceId;
  job_plan : MeasurementPlan;
  job_status : ObservationStatus;
  job_terminal : bool;
  job_released : bool;
  job_evidence : list EvidenceRef;
  job_reuses : option RequestId;
  job_base : option BaseRef;
  job_pacing : Z;
  job_wait : option WaitOn;
  job_collecting : option RequestId;
  job_answer_until : option float;
  job_queue_credit : float
}.
#[export] Instance OwnedJob_dec : EqDecision OwnedJob.
Proof. solve_decision. Defined.
#[export] Instance OwnedJob_eta : Eta OwnedJob := fun r => Build_OwnedJob (job_resource_id r)
  (job_submission_id r) (job_scope r) (job_observation r) (job_progress r) (job_children r)
  (job_plan r) (job_status r) (job_terminal r) (job_released r) (job_evidence r) (job_reuses r)
  (job_base r) (job_pacing r) (job_wait r) (job_collecting r) (job_answer_until r)
  (job_queue_credit r).

Record RegisteredOwnedJob := {
  rjob_operation_id : OperationId;
  rjob_expected_measurement : option Canonical;
  rjob_observation : option Observation;
  rjob_progress : option JobProgress;
  rjob_request_id : RequestId;
  rjob_scope : Scope;
  rjob_resource_pool : PoolId;
  rjob_resource_id : option ResourceId;
  rjob_status : ObservationStatus;
  rjob_terminal : bool;
  rjob_released : bool;
  rjob_children : list ResourceId;
  rjob_evidence : list EvidenceRef;
  rjob_pacing : Z;
  rjob_wait : option WaitOn;
  rjob_queue_credit : float
}.
#[export] Instance RegisteredOwnedJob_dec : EqDecision RegisteredOwnedJob.
Proof. solve_decision. Defined.
#[export] Instance RegisteredOwnedJob_eta : Eta RegisteredOwnedJob := fun r => Build_RegisteredOwnedJob
  (rjob_operation_id r) (rjob_expected_measurement r) (rjob_observation r) (rjob_progress r)
  (rjob_request_id r) (rjob_scope r) (rjob_resource_pool r) (rjob_resource_id r) (rjob_status r)
  (rjob_terminal r) (rjob_released r) (rjob_children r) (rjob_evidence r) (rjob_pacing r)
  (rjob_wait r) (rjob_queue_credit r).

(** [_job_wait] and the two [waits_while_live] *)
Definition live_job_wait (terminal : bool) (wait : option WaitOn) : result string unit :=
  ensure (eqb terminal (is_none wait)) "wait".
Definition job_waits_while_live (self : OwnedJob) : result string unit :=
  let* _ := live_job_wait (job_terminal self) (job_wait self) in
  ensure (is_none (job_collecting self)
          || (job_terminal self && eqb (job_evidence self) [])) "collecting".
Definition rjob_waits_while_live (self : RegisteredOwnedJob) : result string unit :=
  live_job_wait (rjob_terminal self) (rjob_wait self).

(** [type Job = OwnedJob | RegisteredOwnedJob], with the fields both have *)
Inductive Job : Set :=
  | Owned (job : OwnedJob)
  | RegisteredOwned (job : RegisteredOwnedJob).

Definition both {A} (f : OwnedJob -> A) (g : RegisteredOwnedJob -> A) (job : Job) : A :=
  match job with Owned j => f j | RegisteredOwned j => g j end.
Definition job_is_terminal : Job -> bool := both job_terminal rjob_terminal.
Definition job_is_released : Job -> bool := both job_released rjob_released.
Definition job_progress_of : Job -> option JobProgress := both job_progress rjob_progress.
Definition job_observation_of : Job -> option Observation := both job_observation rjob_observation.
Definition job_queue_credit_of : Job -> float := both job_queue_credit rjob_queue_credit.
Definition job_status_of : Job -> ObservationStatus := both job_status rjob_status.
Definition job_scope_of : Job -> Scope := both job_scope rjob_scope.
Definition job_children_of : Job -> list ResourceId := both job_children rjob_children.
Definition job_resource : Job -> option ResourceId :=
  both (fun j => Some (job_resource_id j)) rjob_resource_id.
(** [_wait_clock.source] *)
Definition source_request : Job -> RequestId := both job_submission_id rjob_request_id.

Module ContinuationPhase.
Inductive ContinuationPhase : Set := WAITING | AUTHORIZED | RESUMED | PARKED | CANCELLED | REOPENING | BLOCKED.
End ContinuationPhase.
Abbreviation ContinuationPhase := ContinuationPhase.ContinuationPhase.
#[export] Instance ContinuationPhase_dec : EqDecision ContinuationPhase.
Proof. solve_decision. Defined.

Record Continuation := {
  cont_continuation_id : ContinuationId;
  cont_invocation : InvocationRef;
  cont_next_invocation : InvocationRef;
  cont_jobs : list ResourceId;
  cont_deadline_at : float;
  cont_phase : ContinuationPhase;
  cont_timeout : option Canonical;
  cont_spent : list Canonical;
  cont_park_authority : option RequestId;
  cont_reopen_authority : option RequestId;
  cont_cancelled_resolutions : list ResourceId;
  cont_evidence : list EvidenceRef;
  cont_preceding_submission : option Canonical;
  cont_authorization_receipt : option Canonical
}.
#[export] Instance Continuation_dec : EqDecision Continuation.
Proof. solve_decision. Defined.
#[export] Instance Continuation_eta : Eta Continuation := fun r => Build_Continuation
  (cont_continuation_id r) (cont_invocation r) (cont_next_invocation r) (cont_jobs r)
  (cont_deadline_at r) (cont_phase r) (cont_timeout r) (cont_spent r) (cont_park_authority r)
  (cont_reopen_authority r) (cont_cancelled_resolutions r) (cont_evidence r)
  (cont_preceding_submission r) (cont_authorization_receipt r).

Module AgentRejection.
Inductive AgentRejection : Set := RUN_STOPPING | NOT_ADMITTED | INVALID_PLAN | NOT_ALLOWED.
End AgentRejection.
Abbreviation AgentRejection := AgentRejection.AgentRejection.
#[export] Instance AgentRejection_dec : EqDecision AgentRejection.
Proof. solve_decision. Defined.

Record AgentCall := {
  call_call_id : string;
  call_scope : Scope;
  call_request_id : option RequestId;
  call_deadline_at : option float;
  call_repeat : bool;
  call_rejection : option AgentRejection
}.
#[export] Instance AgentCall_dec : EqDecision AgentCall.
Proof. solve_decision. Defined.
#[export] Instance AgentCall_eta : Eta AgentCall := fun r => Build_AgentCall (call_call_id r)
  (call_scope r) (call_request_id r) (call_deadline_at r) (call_repeat r) (call_rejection r).

(** [AgentCall.names_a_submission_or_a_rejection] *)
Definition names_a_submission_or_a_rejection (self : AgentCall) : result string unit :=
  let answered := not_none (call_request_id self) in
  require* negb (eqb answered (not_none (call_rejection self))) else "rejection" in
  ensure (eqb answered (not_none (call_deadline_at self)) && (negb (call_repeat self) || answered))
         "deadline_at".

Record EvaluationState := {
  eval_jobs : list OwnedJob;
  eval_registered_jobs : list RegisteredOwnedJob;
  eval_continuations : list Continuation;
  eval_evidence : list EvidenceRef;
  eval_submission_budgets : list Canonical;
  eval_agent_calls : list AgentCall;
  eval_core_runs : list Canonical;
  eval_base_claims : list Canonical;
  eval_samples : list Canonical;
  eval_comparisons : list Canonical;
  eval_runaways : list Canonical
}.
#[export] Instance EvaluationState_dec : EqDecision EvaluationState.
Proof. solve_decision. Defined.
#[export] Instance EvaluationState_eta : Eta EvaluationState := fun r => Build_EvaluationState
  (eval_jobs r) (eval_registered_jobs r) (eval_continuations r) (eval_evidence r)
  (eval_submission_budgets r) (eval_agent_calls r) (eval_core_runs r) (eval_base_claims r)
  (eval_samples r) (eval_comparisons r) (eval_runaways r).

(** [EvaluationState.accuracy_proof] and [EvaluationState.measurements_of] *)
Definition accuracy_proof (self : EvaluationState) (candidate : RevisionRef) : option EvidenceRef :=
  let runs := List.filter (fun item =>
    eqb (evidence_candidate item) candidate
    && eqb (evidence_kind item) EvidenceKind.CORRECTNESS
    && eqb (evidence_provenance item) Provenance.TRUSTED
    && not_none (evidence_acceptance_receipt item)) (eval_evidence self) in
  let passed := List.filter (fun item => eqb (evidence_status item) ObservationStatus.SUCCEEDED) runs in
  let failed := any (fun item => eqb (evidence_status item) ObservationStatus.FAILED) runs in
  if failed then None else head passed.
Definition measurements_of (self : EvaluationState) (candidate : RevisionRef) : list EvidenceRef :=
  List.filter (fun item =>
    eqb (evidence_candidate item) candidate
    && among (evidence_purpose item) [Purpose.OFFICIAL; Purpose.BASELINE; Purpose.LOCAL_VALIDATION]
    && eqb (evidence_status item) ObservationStatus.SUCCEEDED
    && eqb (evidence_provenance item) Provenance.TRUSTED) (eval_evidence self).

(** ** Settlements ([settlement.py]) *)

(** [Settlement]: who it settles and the facts of its choice *)
Record SettlementRow := {
  settlement_id_of : SettlementId;
  settlement_attempt : AttemptRef;
  settlement_facts : SettleFacts
}.
#[export] Instance SettlementRow_dec : EqDecision SettlementRow.
Proof. solve_decision. Defined.
#[export] Instance SettlementRow_eta : Eta SettlementRow := fun r => Build_SettlementRow
  (settlement_id_of r) (settlement_attempt r) (settlement_facts r).

Module AdoptionFailureReason.
Inductive AdoptionFailureReason : Set := ADOPT_FAILED | VERIFY_FAILED | CONTENT_MISMATCH | RETRIES_EXHAUSTED.
End AdoptionFailureReason.
Abbreviation AdoptionFailureReason := AdoptionFailureReason.AdoptionFailureReason.
#[export] Instance AdoptionFailureReason_dec : EqDecision AdoptionFailureReason.
Proof. solve_decision. Defined.

(** [Adoption], its [checkout] kept as canonical text *)
Record AdoptionPublication := {
  publication_revision : string;
  publication_commit : string;
  publication_branch : string
}.
#[export] Instance AdoptionPublication_dec : EqDecision AdoptionPublication.
Proof. solve_decision. Defined.
#[export] Instance AdoptionPublication_eta : Eta AdoptionPublication := fun r => Build_AdoptionPublication
  (publication_revision r) (publication_commit r) (publication_branch r).
Record Adoption := {
  adoption_selection : Selection;
  adoption_observation : option Observation;
  adoption_verified : bool;
  adoption_publication : option AdoptionPublication;
  adoption_checkout : option Canonical;
  adoption_failure : option AdoptionFailureReason
}.
#[export] Instance Adoption_dec : EqDecision Adoption.
Proof. solve_decision. Defined.
#[export] Instance Adoption_eta : Eta Adoption := fun r => Build_Adoption (adoption_selection r)
  (adoption_observation r) (adoption_verified r) (adoption_publication r) (adoption_checkout r)
  (adoption_failure r).

Record SettlementState := {
  settle_settlements : list SettlementRow;
  settle_pending : list SettlementRow;
  settle_adoption : option Adoption
}.
#[export] Instance SettlementState_dec : EqDecision SettlementState.
Proof. solve_decision. Defined.
#[export] Instance SettlementState_eta : Eta SettlementState := fun r => Build_SettlementState
  (settle_settlements r) (settle_pending r) (settle_adoption r).

(** [SettlementState.retains] *)
Definition retains (self : SettlementState) (selection : Selection) : bool :=
  match selection with
  | TrustedBaseline _ => false
  | RetainedCandidate settlement_id revision =>
      match List.filter (fun row => eqb (settlement_id_of row) settlement_id)
                        (settle_settlements self) with
      | [row] => settle_eligible (settlement_facts row)
                 && eqb (settle_retention (settlement_facts row)) SettleRetention.CANDIDATE
                 && eqb (settle_candidate (settlement_facts row)) (Some revision)
      | _ => false
      end
  end.

(** ** Core state *)

Record CoreState := {
  core_revision : Z;
  core_run : RunState;
  core_registry : list OperationDescriptor;
  core_scheduling : SchedulingState;
  core_attempts : list AttemptView;
  core_sessions : SessionsState;
  core_evaluation : EvaluationState;
  core_settlement : SettlementState;
  core_records : RecordsState;
  core_steps : StepsState
}.
#[export] Instance CoreState_dec : EqDecision CoreState.
Proof. solve_decision. Defined.
#[export] Instance CoreState_eta : Eta CoreState := fun r => Build_CoreState (core_revision r)
  (core_run r) (core_registry r) (core_scheduling r) (core_attempts r) (core_sessions r)
  (core_evaluation r) (core_settlement r) (core_records r) (core_steps r).

Definition rows_of (state : CoreState) : list RequestRecord := ledger_records (core_records state).

(** ["state.model_copy(update={'records': ...})"] and its like for the ledger, the attempts of
    the steps and the run *)
Definition with_rows (state : CoreState) (rows : list RequestRecord) : CoreState :=
  state <| core_records := (core_records state) <| ledger_records := rows |> |>.
Definition with_attempts (state : CoreState) (rows : list StepAttempts) : CoreState :=
  state <| core_steps := (core_steps state) <| steps_attempts := rows |> |>.
Definition with_status (state : CoreState) (status : RunStatus) : CoreState :=
  state <| core_run := (core_run state) <| run_status := status |> |>.
