(* ===== verification/Samples.v ===== *)
(** * Concrete values

    A small ledger on which the witnesses of the theorems are evaluated: a running run whose
    clock reads 10 and whose deadline is 1000, and steps that discard the workspace of one
    attempt. *)

From S2P Require Import Prelude PyFloat Identities Values Requests Records State.

Definition seconds (n : Z) : float := of_int n.

Definition sample_retries : RequestRetries :=
  {| retries_limit := 2; retries_backoff := seconds 1; retries_backoff_cap := seconds 30 |}.

Definition sample_limits : Limits :=
  {| limits_max_attempts := 8; limits_max_turns := 8; limits_max_parallel := 2;
     limits_pool_capacities := []; limits_max_refunds := 0; limits_max_adoption_rounds := 1;
     limits_request_retries := sample_retries; limits_cancellation_bound := seconds 5;
     limits_cleanup_bound := seconds 20; limits_reconciliation_bound := seconds 15;
     limits_observe_interval := seconds 1; limits_observe_backoff_cap := seconds 8;
     limits_queue_wait_budget := seconds 100; limits_queue_notice_interval := seconds 10 |}.

Definition sample_revision : RevisionRef :=
  {| revision_revision_id := MkIdentity "c0ffee"; revision_digest := "git-commit:c0ffee" |}.

Definition sample_facts : RunFacts :=
  {| runfacts_objective := "faster"; runfacts_options := []; runfacts_constraints := [];
     runfacts_baseline := sample_revision; runfacts_evaluator_digest := "evaluator";
     runfacts_workload_digest := "workload"; runfacts_environment_digest := "environment";
     runfacts_dedicated_measurement_resources := false; runfacts_artifacts := [];
     runfacts_task := None |}.

Definition sample_requirements : EvidenceRequirements :=
  {| requirements_assessment_authorities := []; requirements_required_evidence := [];
     requirements_required_assessments := []; requirements_allow_empty_queue_success := false |}.

Definition sample_run : RunState :=
  {| run_run_id := MkIdentity "run"; run_generation := 1; run_status := RunStatus.RUNNING;
     run_park := None; run_now_at := seconds 10; run_deadline_at := seconds 1000;
     run_duration_seconds := None; run_facts := sample_facts; run_capabilities := {| capabilities_lifecycle := []; capabilities_operations := [] |};
     run_limits := sample_limits; run_requirements := sample_requirements; run_declaration := "{}";
     run_controls := []; run_artifacts := []; run_receipts := []; run_result := None |}.

Definition sample_attempt : AttemptRef :=
  {| aref_attempt_id := MkIdentity "attempt-1"; aref_generation := 1 |}.

Definition sample_scope : Scope :=
  {| scope_owner := OwnerRun (MkIdentity "run"); scope_generation := 1 |}.

Definition sample_tag (name : string) : RequestId := MkIdentity name.

(** A step of the run that needs the steps it names. *)
Definition sample_request (name : string) (needs : list string) : Request :=
  DiscardWorkspace
    {| base_request_id := Some (sample_tag name); base_scope := sample_scope;
       base_depends_on := map sample_tag needs; base_decision_id := None;
       base_admission_id := None |} sample_attempt.

Definition sample_record (name : string) (needs : list string) (phase : RequestPhase)
    (limit : Z) : RequestRecord :=
  {| rec_request_id := sample_tag name; rec_request := sample_request name needs;
     rec_payload_digest := ""; rec_lifecycle := LifecycleClass.IDEMPOTENT_WRITE;
     rec_phase := phase; rec_sequence := None; rec_observation := None;
     rec_setup_failure := SetupFailureKind.UNKNOWN; rec_evaluation_result := None;
     rec_suspension := None; rec_outcome_schema := None; rec_outcome_json := None;
     rec_retry_count := 0; rec_retry_at := None;
     rec_until := {| until_at := seconds limit; until_watches := [] |};
     rec_failure := None; rec_limit_from_dispatch := None; rec_dispatched_at := None;
     rec_capacity_hold := None; rec_dispatched_in := None; rec_addressed_by := [] |}.

Definition sample_row (name : string) (started uncharged : Z) (ended : bool) : StepAttempts :=
  {| row_tag := sample_tag name; row_started := started; row_ended := ended;
     row_uncharged := uncharged; row_unsettled := false; row_deadline_at := None;
     row_charged_at := None |}.

Definition sample_state (run : RunState) (records : list RequestRecord)
    (rows : list StepAttempts) : CoreState :=
  {| core_revision := 1; core_run := run; core_registry := [];
     core_scheduling :=
       {| sched_queue := []; sched_slots := []; sched_admission_closed := false;
          sched_released_slot_seconds := fzero |};
     core_attempts := [];
     core_sessions :=
       {| sessions_sessions := []; sessions_invocations := []; sessions_inputs := [];
          sessions_run_charges := []; sessions_interrupts := [];
          sessions_acquisition_groups := []; sessions_run_checkpoints := [] |};
     core_evaluation :=
       {| eval_jobs := []; eval_registered_jobs := []; eval_continuations := [];
          eval_evidence := []; eval_submission_budgets := []; eval_agent_calls := [];
          eval_core_runs := []; eval_base_claims := []; eval_samples := [];
          eval_comparisons := []; eval_runaways := [] |};
     core_settlement := {| settle_settlements := []; settle_pending := []; settle_adoption := None |};
     core_records := {| ledger_records := records; ledger_epoch := 1 |};
     core_steps := {| steps_epoch := 1; steps_attempts := rows; steps_ended := None |} |}.

(** One step open and two attempts of it made: the first charged, the second running. *)
Definition sample_running : CoreState :=
  sample_state sample_run [sample_record "a" [] RequestPhase.DISPATCHED 500]
               [sample_row "a" 2 0 false].

Definition sample_schema (name : string) : SchemaRef :=
  {| schema_name := name; schema_version := 1 |}.

(** An operation of a library, with nothing of its own to say. *)
Definition sample_wire : OperationWire :=
  {| wire_schema_ref :=
       {| opschema_kind := "op"; opschema_request_schema := sample_schema "request";
          opschema_outcome_schema := sample_schema "outcome";
          opschema_lifecycle := LifecycleClass.IDEMPOTENT_WRITE;
          opschema_on_interrupt := InterruptPolicy.RERUN |};
     wire_payload_json := "{}" |}.

(** A control of the operator that says only what it does. *)
Definition sample_control (action : ControlAction) : ControlInput :=
  {| control_control_id := MkIdentity "control"; control_action := action; control_mode := None;
     control_artifact := None; control_target := None; control_input_mode := None;
     control_withdraws := None; control_owner := None; control_when := None;
     control_fallback := false; control_capacity_wait_stands := false; control_attempt := None;
     control_item := None; control_max_parallel := None |}.

(** A turn of the run, dispatched. *)
Definition sample_turn : TurnSpec :=
  {| turn_session :=
       {| session_session_id := MkIdentity "session"; session_role_id := MkIdentity "role";
          session_policy := SessionPolicy.FRESH; session_lifetime := SessionLifetime.EPHEMERAL;
          session_access := Access.READ_ONLY; session_model := None |};
     turn_invocation_id := MkIdentity "turn"; turn_continuation_id := None;
     turn_workspace := InScope sample_scope; turn_prompts := [];
     turn_output_schema := sample_schema "reply"; turn_tool_policy := None;
     turn_artifact_dependencies := []; turn_charge_class := ChargeClass.FREE; turn_max_turns := 1;
     turn_predecessor := None; turn_on_interrupt := InterruptPolicy.RERUN |}.
Definition sample_dispatched : RequestRecord :=
  (sample_record "turn" [] RequestPhase.DISPATCHED 500)
    <| rec_request := DispatchTurn (req_base (sample_request "turn" [])) sample_turn [] [] |>.

(** A run stopped by a quota, with that turn running. *)
Definition sample_quota : CoreState :=
  sample_state
    (sample_run <| run_status := RunStatus.PAUSED |>
                <| run_controls := [(sample_control ControlAction.PAUSE)
                                      <| control_owner := Some PauseOwner.QUOTA |>] |>)
    [sample_dispatched]
    [(sample_row "turn" 1 0 false) <| row_deadline_at := Some (seconds 500) |>].

(** A job of a registered operation that has said nothing yet. *)
Definition sample_job : Job :=
  RegisteredOwned
    {| rjob_operation_id := MkIdentity "op"; rjob_expected_measurement := None;
       rjob_observation := None; rjob_progress := None; rjob_request_id := sample_tag "job";
       rjob_scope := sample_scope; rjob_resource_pool := MkIdentity "pool";
       rjob_resource_id := None; rjob_status := ObservationStatus.PENDING; rjob_terminal := false;
       rjob_released := false; rjob_children := []; rjob_evidence := []; rjob_pacing := 0;
       rjob_wait := Some {| wait_requests := [sample_tag "poll"]; wait_subjects := [];
                               wait_timer := None |}; rjob_queue_credit := seconds 700 |}.
