(* ===== verification/Control.v ===== *)
(** * Operator controls: who holds a paused run, and which controls core takes

    [libs/vs-core/src/vs_core/_run_pause.py], [_operator_actions.py], and the stop-mode rules of
    [_proofs.py].  A run's pause, its standing stop and the operator's capacity wait are folds
    over the recorded controls. *)

From stdpp Require Import sorting.
From S2P Require Import Prelude PyFloat Identities Values Requests Records State Samples.

(** ** The pause fold *)

(** [pause_after]: one step of the fold *)
Definition pause_after (pause : option RunPause) (control : ControlInput) : option RunPause :=
  match control_action control with
  | ControlAction.PAUSE =>
      if eqb (control_owner control) (Some PauseOwner.OPERATOR)
      then Some {| pause_owner := PauseOwner.OPERATOR; pause_capacity_wait := false |}
      else Some (default {| pause_owner := PauseOwner.QUOTA; pause_capacity_wait := false |} pause)
  | ControlAction.RESUME =>
      if eqb (control_when control) (Some ResumeWhen.CAPACITY_RETURNS)
      then match pause with
           | None => None
           | Some pause => Some (pause <| pause_capacity_wait := true |>)
           end
      else None
  | ControlAction.STOP => None
  | _ => pause
  end.

(** [run_pause] *)
Definition run_pause (run : RunState) : option RunPause :=
  if negb (eqb (run_status run) RunStatus.PAUSED) then None
  else fold_left pause_after (run_controls run) None.

(** [stands_after] *)
Definition stands_after (stood : bool) (control : ControlInput) : bool :=
  match control_action control with
  | ControlAction.RESUME => control_capacity_wait_stands control
  | ControlAction.PAUSE =>
      if eqb (control_owner control) (Some PauseOwner.QUOTA) then stood else false
  | ControlAction.STOP => false
  | _ => stood
  end.

(** [capacity_wait_stands] *)
Definition capacity_wait_stands (run : RunState) : bool :=
  fold_left stands_after (run_controls run) false.

(** [stop_standing] *)
Definition stop_standing_after (standing : bool) (control : ControlInput) : bool :=
  match control_action control with
  | ControlAction.STOP => true
  | ControlAction.RESUME => false
  | _ => standing
  end.
Definition stop_standing (run : RunState) : bool :=
  fold_left stop_standing_after (run_controls run) false.

(** [requested_stop_mode]: one step, and the fold *)
Definition stop_mode_after (held : option StopMode) (control : ControlInput) : option StopMode :=
  match control_action control, control_mode control with
  | ControlAction.STOP, Some mode => Some (escalate_stop held mode)
  | ControlAction.RESUME, _ => None
  | _, _ => held
  end.
Definition requested_stop_mode (run : RunState) : option StopMode :=
  fold_left stop_mode_after (run_controls run) None.

(** [pause_outlived] *)
Definition pause_outlived (state : CoreState) : bool :=
  let run := core_run state in
  among (run_status run) [RunStatus.DRAINING; RunStatus.PARKED]
  && match run_park run with
     | Some park => park_epoch park <? ledger_epoch (core_records state)
     | None => false
     end.

(** ** Operator actions *)

(** [parallel_limit] *)
Definition parallel_after (limit : Z) (control : ControlInput) : Z :=
  match control_action control, control_max_parallel control with
  | ControlAction.SET_MAX_PARALLEL, Some n => n
  | _, _ => limit
  end.
Definition parallel_limit (run : RunState) : Z :=
  fold_left parallel_after (run_controls run) (limits_max_parallel (run_limits run)).

(** [cancelled_items] *)
Definition cancelled_items (run : RunState) : list ItemId :=
  omap (fun control =>
          if eqb (control_action control) ControlAction.CANCEL_ITEM
          then control_item control else None) (run_controls run).

Definition ENDED_PHASES : list AttemptPhase := [AttemptPhase.CLOSING; AttemptPhase.TERMINAL].
Definition PARKED_PHASES : list AttemptPhase := [AttemptPhase.PARKED; AttemptPhase.BLOCKED].

(** [row.generation > latest.generation], or no latest yet *)
Definition newer (row : AttemptView) (latest : option AttemptView) : bool :=
  match latest with
  | None => true
  | Some held => attempt_generation held <? attempt_generation row
  end.

(** [_latest] *)
Definition latest_attempt (state : CoreState) (attempt_id : option AttemptId) : option AttemptView :=
  fold_left (fun latest row =>
               if eqb (Some (attempt_attempt_id row)) attempt_id && newer row latest
               then Some row else latest) (core_attempts state) None.

(** [latest[row.attempt_id.root] = row]: a dict keeps the place a key was first put in. *)
Fixpoint dict_set {A : Type} (key : string) (value : A) (dict : list (string * A))
    : list (string * A) :=
  match dict with
  | [] => [(key, value)]
  | (k, v) :: dict' =>
      if eqb k key then (k, value) :: dict' else (k, v) :: dict_set key value dict'
  end.
Definition dict_get {A : Type} (key : string) (dict : list (string * A)) : option A :=
  option_map snd (next_such (fun item => eqb (fst item) key) dict).

Definition key_le {A : Type} (a b : string * A) : Prop := String.leb (fst a) (fst b) = true.
#[export] Instance key_le_dec {A} (a b : string * A) : Decision (key_le a b).
Proof. unfold key_le. apply _. Defined.

(** [_attempts_of] *)
Definition attempts_at (state : CoreState) (item : ItemId) : list AttemptView :=
  let latest :=
    fold_left (fun latest row =>
                 let key := root (attempt_attempt_id row) in
                 if eqb (attempt_item_id row) item && newer row (dict_get key latest)
                 then dict_set key row latest else latest) (core_attempts state) [] in
  map snd (merge_sort key_le latest).

(** [_queued_reopens]: the dict of reopenings by attempt, in the order of their first key *)
Definition queued_reopens (state : CoreState) (rows : list AttemptView)
    : list (string * AttemptReopenRequest) :=
  let parked := omap (fun row => if eqb (attempt_phase row) AttemptPhase.PARKED
                                 then Some (attempt_attempt_id row, attempt_generation row)
                                 else None) rows in
  fold_left (fun dict request =>
               match request with
               | AdmitReopen reopen =>
                   let named := reopen_attempt reopen in
                   if among (aref_attempt_id named, aref_generation named) parked
                   then dict_set (root (aref_attempt_id named)) reopen dict else dict
               | AdmitStart _ => dict
               end) (sched_queue (core_scheduling state)) [].

(** [ItemCancellation] *)
Record ItemCancellation := {
  cancelled_stopped : list AttemptId;
  cancelled_unqueued : list AttemptId;
  cancelled_parked : list AttemptId;
  cancelled_settling : list AttemptId
}.
#[export] Instance ItemCancellation_dec : EqDecision ItemCancellation.
Proof. solve_decision. Defined.
#[export] Instance ItemCancellation_eta : Eta ItemCancellation := fun r => Build_ItemCancellation
  (cancelled_stopped r) (cancelled_unqueued r) (cancelled_parked r) (cancelled_settling r).

(** [item_cancellation] *)
Definition item_cancellation (state : CoreState) (item : ItemId) : ItemCancellation :=
  let rows := attempts_at state item in
  let queued attempt := not_none (dict_get (root attempt) (queued_reopens state rows)) in
  let named (keep : AttemptView -> bool) := omap (fun row => if keep row then Some (attempt_attempt_id row) else None) rows in
  let parked := named (fun row => among (attempt_phase row) PARKED_PHASES) in
  {| cancelled_stopped :=
       named (fun row => negb (among (attempt_phase row) (ENDED_PHASES ++ PARKED_PHASES)));
     cancelled_unqueued := List.filter queued parked;
     cancelled_parked := List.filter (fun attempt => negb (queued attempt)) parked;
     cancelled_settling := named (fun row => eqb (attempt_phase row) AttemptPhase.CLOSING) |}.

(** [_attempt_refusal] *)
Definition attempt_refusal (latest : option AttemptView) : option ActionRefusal :=
  match latest with
  | None => Some ActionRefusal.NO_SUCH_SUBJECT
  | Some row =>
      if among (attempt_phase row) ENDED_PHASES then Some ActionRefusal.ENDED
      else if among (attempt_phase row) PARKED_PHASES then Some ActionRefusal.PARKED
      else None
  end.

(** [action_refusal_kind] *)
Definition action_refusal_kind (state : CoreState) (control : ControlInput) : option ActionRefusal :=
  match control_action control with
  | ControlAction.CANCEL_ATTEMPT =>
      let latest := latest_attempt state (control_attempt control) in
      match latest with
      | Some row =>
          if negb (eqb (length (queued_reopens state [row])) 0%nat) then None
          else attempt_refusal latest
      | None => attempt_refusal latest
      end
  | ControlAction.CANCEL_ITEM =>
      if among (control_item control) (map Some (cancelled_items (core_run state)))
      then Some ActionRefusal.ALREADY_CANCELLED
      else if negb (any (fun row => eqb (Some (attempt_item_id row)) (control_item control))
                        (core_attempts state))
      then Some ActionRefusal.NO_SUCH_SUBJECT
      else None
  | ControlAction.SET_MAX_PARALLEL =>
      match control_max_parallel control with
      | Some limit =>
          if limits_max_parallel (run_limits (core_run state)) <? limit
          then Some ActionRefusal.ABOVE_LAUNCH_LIMIT else None
      | None => None
      end
  | _ => None
  end.

(** [cancellations]: the attempts a cancel action withdraws; each becomes a [Withdraw] with a
    [Cancel] disposition under the run's own scope *)
Definition withdrawal (state : CoreState) (control : ControlInput) (row : AttemptView) : Command :=
  Withdraw
    {| dbase_decision_id :=
         MkIdentity ("control:" +:+ root (control_control_id control) +:+ ":"
                     +:+ root (attempt_attempt_id row));
       dbase_scope := {| scope_owner := OwnerRun (run_run_id (core_run state));
                         scope_generation := run_generation (core_run state) |} |}
    (TargetAttempt {| aref_attempt_id := attempt_attempt_id row;
                      aref_generation := attempt_generation row |})
    DCancel.
Definition cancellations (state : CoreState) (control : ControlInput) : list Command :=
  let targets :=
    match control_action control, control_item control with
    | ControlAction.CANCEL_ATTEMPT, _ =>
        match latest_attempt state (control_attempt control) with
        | Some row =>
            if among (attempt_phase row) (ENDED_PHASES ++ PARKED_PHASES) then [] else [row]
        | None => []
        end
    | ControlAction.CANCEL_ITEM, Some item =>
        List.filter (fun row => among (attempt_attempt_id row)
                                      (cancelled_stopped (item_cancellation state item)))
                    (attempts_at state item)
    | _, _ => []
    end in
  map (withdrawal state control) targets.

(** ** Refusals *)

(** The path and, for an operator action, the kind of a [ControlRefusedError] *)
Inductive ControlRefusal : Set :=
  | RefusedStatus          (* ("run", "status"): the pause or the epoch ended *)
  | RefusedStopped         (* ("run", "controls"): a stopped run takes no pause *)
  | RefusedCleanup         (* ("run", "cleanup") *)
  | RefusedWhen            (* ("control", "when") *)
  | RefusedAction (kind : ActionRefusal).

#[export] Instance ControlRefusal_dec : EqDecision ControlRefusal.
Proof. solve_decision. Defined.

(** [_inactive_refusal] *)
Definition inactive_refusal (state : CoreState) (control : ControlInput) : option ControlRefusal :=
  let status := run_status (core_run state) in
  let held := among status [RunStatus.DRAINING; RunStatus.PARKED] in
  if (among (control_action control) [ControlAction.STEER; ControlAction.WITHDRAW] && held)
     || (eqb status RunStatus.DRAINING && eqb (control_action control) ControlAction.PAUSE_NOW)
  then None
  else if held then
    if eqb (control_action control) ControlAction.RESUME
       && eqb (control_when control) (Some ResumeWhen.NOW) && pause_outlived state
    then None else Some RefusedStatus
  else if eqb status RunStatus.TERMINAL then
    if eqb (control_action control) ControlAction.RESUME
       && negb (eqb (control_when control) (Some ResumeWhen.CAPACITY_RETURNS))
    then None else Some RefusedStatus
  else None.

(** [_pause_refusal] *)
Definition pause_refusal (run : RunState) (control : ControlInput) : option ControlRefusal :=
  let waits := eqb (control_when control) (Some ResumeWhen.CAPACITY_RETURNS) in
  let lifts := eqb (control_action control) ControlAction.RESUME && negb waits in
  if stop_standing run && negb lifts then Some RefusedStopped
  else if among (run_status run) [RunStatus.CLOSING; RunStatus.BLOCKED]
          || not_none (run_result run) then Some RefusedCleanup
  else if waits && negb (eqb (run_status run) RunStatus.PAUSED) then Some RefusedWhen
  else None.

(** [control_refusal] *)
Definition control_refusal (state : CoreState) (control : ControlInput) : option ControlRefusal :=
  let run := core_run state in
  if among (run_status run) [RunStatus.DRAINING; RunStatus.PARKED; RunStatus.TERMINAL]
  then inactive_refusal state control
  else if among (control_action control) OPERATOR_ACTIONS
  then option_map RefusedAction (action_refusal_kind state control)
  else if among (control_action control)
            [ControlAction.STOP; ControlAction.STEER; ControlAction.WITHDRAW]
  then None
  else pause_refusal run control.

(** ** Epochs *)

Definition is_finish (decision : option Command) : bool :=
  match decision with Some (Finish _ _ _) => true | _ => false end.

(** [reopened] *)
Definition reopened (run : RunState) : RunState :=
  let ended := run_result run in
  let kept :=
    List.filter (fun receipt =>
                   negb match receipt_decision receipt with
                        | Some (Finish _ _ result) => eqb (Some result) ended
                        | _ => false
                        end) (run_receipts run) in
  run <| run_status := RunStatus.RUNNING |> <| run_result := None |>
      <| run_receipts := kept |> <| run_park := None |>.

(** [EpochFacts] *)
Record EpochFacts := {
  facts_run_id : RunId;
  facts_generation : Z;
  facts_now_at : float;
  facts_deadline_at : float;
  facts_duration_seconds : option float;
  facts_facts : RunFacts;
  facts_capabilities : Capabilities;
  facts_limits : Limits;
  facts_requirements : EvidenceRequirements;
  facts_declaration : Canonical;
  facts_artifacts : list ArtifactRef;
  facts_receipts : list DecisionReceipt
}.
#[export] Instance EpochFacts_dec : EqDecision EpochFacts.
Proof. solve_decision. Defined.
#[export] Instance EpochFacts_eta : Eta EpochFacts := fun r => Build_EpochFacts (facts_run_id r)
  (facts_generation r) (facts_now_at r) (facts_deadline_at r) (facts_duration_seconds r)
  (facts_facts r) (facts_capabilities r) (facts_limits r) (facts_requirements r)
  (facts_declaration r) (facts_artifacts r) (facts_receipts r).

(** [EpochFacts.of] *)
Definition epoch_facts_of (run : RunState) : EpochFacts :=
  {| facts_run_id := run_run_id run; facts_generation := run_generation run;
     facts_now_at := run_now_at run; facts_deadline_at := run_deadline_at run;
     facts_duration_seconds := run_duration_seconds run; facts_facts := run_facts run;
     facts_capabilities := run_capabilities run; facts_limits := run_limits run;
     facts_requirements := run_requirements run; facts_declaration := run_declaration run;
     facts_artifacts := run_artifacts run;
     facts_receipts :=
       List.filter (fun row => negb (is_finish (receipt_decision row))) (run_receipts run) |}.

(** [EpochFacts.new_run]: the fields of the facts, and [RunState]'s defaults for the rest *)
Definition new_run (self : EpochFacts) : RunState :=
  {| run_run_id := facts_run_id self; run_generation := facts_generation self;
     run_status := RunStatus.RUNNING; run_park := None; run_now_at := facts_now_at self;
     run_deadline_at := facts_deadline_at self;
     run_duration_seconds := facts_duration_seconds self; run_facts := facts_facts self;
     run_capabilities := facts_capabilities self; run_limits := facts_limits self;
     run_requirements := facts_requirements self; run_declaration := facts_declaration self;
     run_controls := []; run_artifacts := facts_artifacts self;
     run_receipts := facts_receipts self; run_result := None |}.

(** ** The pause fold and its declarative reading *)

(** A control that ends every pause: a stop, or a resume that does not wait for capacity. *)
Definition lifts (control : ControlInput) : bool :=
  match control_action control with
  | ControlAction.STOP => true
  | ControlAction.RESUME => negb (eqb (control_when control) (Some ResumeWhen.CAPACITY_RETURNS))
  | _ => false
  end.

Definition operator_pause (control : ControlInput) : bool :=
  eqb (control_action control) ControlAction.PAUSE
  && eqb (control_owner control) (Some PauseOwner.OPERATOR).

Definition any_pause (control : ControlInput) : bool :=
  eqb (control_action control) ControlAction.PAUSE.

Definition waits_for_capacity (control : ControlInput) : bool :=
  eqb (control_action control) ControlAction.RESUME
  && eqb (control_when control) (Some ResumeWhen.CAPACITY_RETURNS).

(** The controls after the last one that [ends] what the earlier ones said. *)
Fixpoint since_last (ends : ControlInput -> bool) (controls : list ControlInput)
    : list ControlInput :=
  match controls with
  | [] => []
  | c :: rest =>
      if any ends rest then since_last ends rest else if ends c then rest else c :: rest
  end.

(** What follows the first pause of [controls]. *)
Fixpoint from_first_pause (controls : list ControlInput) : list ControlInput :=
  match controls with
  | [] => []
  | c :: rest => if any_pause c then rest else from_first_pause rest
  end.

(** What the controls say, read at once: the pause is the operator's when the operator paused
    after the last lift, the quota's when only quota stops did; the wait for capacity is the
    one asked for under that pause. *)
Definition pause_reading (controls : list ControlInput) : option RunPause :=
  let standing := since_last lifts controls in
  if any operator_pause standing then
    Some {| pause_owner := PauseOwner.OPERATOR;
            pause_capacity_wait := any waits_for_capacity (since_last operator_pause standing) |}
  else if any any_pause standing then
    Some {| pause_owner := PauseOwner.QUOTA;
            pause_capacity_wait := any waits_for_capacity (from_first_pause standing) |}
  else None.

Lemma since_last_snoc ends controls c :
  since_last ends (controls ++ [c]) = if ends c then [] else since_last ends controls ++ [c].
Proof.
  induction controls as [|c0 rest IH]; simpl; [by destruct (ends c)|].
  rewrite any_app, IH. simpl. rewrite orb_false_r.
  destruct (ends c); simpl; [by rewrite orb_true_r|]. rewrite orb_false_r.
  by destruct (any ends rest), (ends c0).
Qed.

Lemma from_first_pause_snoc controls c :
  from_first_pause (controls ++ [c])
  = if any any_pause controls then from_first_pause controls ++ [c] else [].
Proof.
  induction controls as [|c0 rest IH]; simpl; [by destruct (any_pause c)|].
  rewrite IH. by destruct (any_pause c0).
Qed.

Lemma operator_pause_pauses controls :
  any operator_pause controls = true -> any any_pause controls = true.
Proof.
  rewrite !any_true. intros (c & Hc & Hp). exists c. split; [done|].
  unfold operator_pause in Hp. by apply andb_true_iff in Hp as [? _].
Qed.

Lemma pause_reading_snoc controls c :
  pause_reading (controls ++ [c]) = pause_after (pause_reading controls) c.
Proof.
  unfold pause_reading. rewrite since_last_snoc.
  set (standing := since_last lifts controls). clearbody standing.
  unfold pause_after, lifts. destruct (control_action c) eqn:Ha; simpl;
    try (rewrite !any_app, since_last_snoc, from_first_pause_snoc; simpl;
         assert (operator_pause c = false) as -> by (unfold operator_pause; by rewrite Ha);
         assert (any_pause c = false) as -> by (unfold any_pause; by rewrite Ha);
         rewrite !any_app, !orb_false_r; simpl;
         assert (waits_for_capacity c = false) as -> by (unfold waits_for_capacity; by rewrite Ha);
         rewrite !orb_false_r; destruct (any operator_pause standing); [done|];
         destruct (any any_pause standing); simpl; [|done];
         rewrite any_app; simpl;
         assert (waits_for_capacity c = false) as -> by (unfold waits_for_capacity; by rewrite Ha);
         by rewrite !orb_false_r).
  - rewrite !any_app, since_last_snoc, from_first_pause_snoc. simpl.
    assert (any_pause c = true) as -> by (unfold any_pause; by rewrite Ha).
    assert (waits_for_capacity c = false) as Hw by (unfold waits_for_capacity; by rewrite Ha).
    assert (operator_pause c = eqb (control_owner c) (Some PauseOwner.OPERATOR)) as ->
      by (unfold operator_pause; by rewrite Ha).
    destruct (eqb (control_owner c) _); simpl; [by rewrite orb_true_r|].
    rewrite !orb_false_r, any_app. simpl. rewrite Hw, !orb_false_r.
    destruct (any operator_pause standing) eqn:Ho; [done|].
    destruct (any any_pause standing); simpl; [|done].
    rewrite any_app. simpl. by rewrite Hw, !orb_false_r.
  - destruct (eqb (control_when c) _) eqn:Hwhen; simpl; [|done].
    rewrite !any_app, since_last_snoc, from_first_pause_snoc. simpl.
    assert (operator_pause c = false) as -> by (unfold operator_pause; by rewrite Ha).
    assert (any_pause c = false) as -> by (unfold any_pause; by rewrite Ha).
    assert (waits_for_capacity c = true) as Hw
      by (unfold waits_for_capacity; by rewrite Ha, Hwhen).
    rewrite !orb_false_r, any_app. simpl. rewrite Hw, orb_true_r.
    destruct (any operator_pause standing); [done|].
    destruct (any any_pause standing); simpl; [|done].
    rewrite any_app. simpl. by rewrite Hw, orb_true_r.
  - done.
Qed.

(** The pause that holds a run is what its controls say read at once: an operator pause
    outranks every quota stop since the last lift, a quota stop pauses only a run nothing
    paused, and a wait for capacity counts only when it was asked for under the pause in force
    (an operator pause drops an earlier one). *)
Theorem run_pause_reading run :
  run_pause run =
  if eqb (run_status run) RunStatus.PAUSED then pause_reading (run_controls run) else None.
Proof.
  unfold run_pause. destruct (eqb (run_status run) _); simpl; [|done].
  induction (run_controls run) as [|c controls IH] using rev_ind; [done|].
  by rewrite fold_left_app, pause_reading_snoc, <- IH.
Qed.

(** ** The latest generation of each attempt *)

Section Dict.
Context {A : Type}.
Implicit Types (dict : list (string * A)).

Lemma dict_get_set key value dict other :
  dict_get other (dict_set key value dict)
  = if decide (other = key) then Some value else dict_get other dict.
Proof.
  unfold dict_get. induction dict as [|[k v] dict IH]; cbn.
  - destruct (decide (other = key)) as [->|Hne]; [by rewrite eqb_refl|].
    by rewrite (proj2 (eqb_false key other)).
  - destruct (eqb k key) eqn:E; cbn.
    + apply eqb_eq in E as ->. destruct (decide (other = key)) as [->|Hne]; [by rewrite eqb_refl|].
      by rewrite (proj2 (eqb_false key other)).
    + apply eqb_neq in E. destruct (eqb k other) eqn:E'; cbn; [|exact IH].
      apply eqb_eq in E' as ->. by rewrite decide_False.
Qed.

Lemma dict_set_keys key value dict :
  NoDup (map fst dict) -> NoDup (map fst (dict_set key value dict)).
Proof.
  assert (Hin : forall d k, k ∈ map fst (dict_set key value d) -> k = key \/ k ∈ map fst d).
  { induction d as [|[k v] d IH]; intros k0; simpl.
    - intros ->%list_elem_of_singleton. by left.
    - destruct (eqb k key); simpl; [by right|]. rewrite !elem_of_cons. intros [->|?%IH]; naive_solver. }
  induction dict as [|[k v] dict IH]; simpl; [intros _; apply NoDup_singleton|].
  intros [Hnew Hnd]%NoDup_cons. destruct (eqb k key) eqn:E; simpl; [by apply NoDup_cons|].
  apply eqb_neq in E. apply NoDup_cons. split; [|by apply IH]. intros [->|?]%Hin; done.
Qed.

Lemma dict_get_In key dict value :
  NoDup (map fst dict) -> (dict_get key dict = Some value <-> (key, value) ∈ dict).
Proof.
  intros Hnd. unfold dict_get. split.
  - destruct (next_such _ dict) as [[k v]|] eqn:E; simpl; [|done]. intros [= ->].
    apply next_such_Some in E as [Hin Hk%eqb_eq]. simpl in Hk. by subst k.
  - intros Hin. destruct (next_such _ dict) as [[k v]|] eqn:E; simpl.
    + apply next_such_Some in E as [Hin' Hk%eqb_eq]. simpl in Hk. subst k.
      assert ((key, v) = (key, value)) as [= ->]; [|done]. by apply (key_inj fst dict).
    + rewrite next_such_None in E. specialize (E _ Hin). by apply eqb_neq in E.
Qed.
End Dict.

Section Attempts.
Variable item : ItemId.

Definition attempt_key (row : AttemptView) : string := root (attempt_attempt_id row).

(** One row of [_attempts_of]'s loop *)
Definition keep_latest (latest : list (string * AttemptView)) (row : AttemptView)
    : list (string * AttemptView) :=
  if eqb (attempt_item_id row) item && newer row (dict_get (attempt_key row) latest)
  then dict_set (attempt_key row) row latest else latest.

(** [row] is a latest generation of its attempt among [rows]. *)
Definition latest_in (rows : list AttemptView) (row : AttemptView) : Prop :=
  row ∈ rows /\ attempt_item_id row = item /\
  forall other, other ∈ rows -> attempt_item_id other = item -> attempt_key other = attempt_key row ->
    attempt_generation other <= attempt_generation row.

Record latest_dict (rows : list AttemptView) (latest : list (string * AttemptView)) : Prop := {
  latest_keys : NoDup (map fst latest);
  latest_rows : forall key row, dict_get key latest = Some row ->
    attempt_key row = key /\ latest_in rows row;
  latest_all : forall row, row ∈ rows -> attempt_item_id row = item ->
    exists held, dict_get (attempt_key row) latest = Some held
}.

Lemma keep_latest_dict rows latest row :
  latest_dict rows latest -> latest_dict (rows ++ [row]) (keep_latest latest row).
Proof.
  intros [Hkeys Hrows Hall]. unfold keep_latest.
  assert (Hkeep : forall key held, dict_get key latest = Some held ->
    (attempt_item_id row = item -> attempt_key row = key ->
     attempt_generation row <= attempt_generation held) -> latest_in (rows ++ [row]) held).
  { intros key held Hheld Hle. destruct (Hrows key held Hheld) as (Hk & Hin & Hitem & Hmax).
    split; [apply elem_of_app; by left|]. split; [done|].
    intros other [Ho| ->%list_elem_of_singleton]%elem_of_app Hoi Hok; [by apply Hmax|].
    apply Hle; [done|congruence]. }
  destruct (eqb (attempt_item_id row) item) eqn:Hitem; simpl.
  - apply eqb_eq in Hitem. destruct (newer row (dict_get (attempt_key row) latest)) eqn:Hnewer.
    + split; [by apply dict_set_keys| |].
      * intros key held. rewrite dict_get_set. case_decide as E.
        -- intros [= <-]. split; [done|]. split; [apply elem_of_app; right; by left|]. split; [done|].
           intros other [Ho| ->%list_elem_of_singleton]%elem_of_app Hoi Hok; [|done].
           destruct (Hall other Ho Hoi) as (prior & Hprior). rewrite Hok in Hprior.
           rewrite Hprior in Hnewer. simpl in Hnewer.
           destruct (Hrows _ _ Hprior) as (Hpk & _ & _ & Hmax).
           specialize (Hmax other Ho Hoi). rewrite Hpk in Hmax. specialize (Hmax Hok). lia.
        -- intros Hheld. destruct (Hrows key held Hheld) as (Hk & _). split; [done|].
           apply (Hkeep key); [done|]. intros _ Hk'. congruence.
      * intros other [Ho| ->%list_elem_of_singleton]%elem_of_app Hoi; rewrite dict_get_set.
        -- case_decide; [by eexists|by apply Hall].
        -- rewrite decide_True by done. by eexists.
    + destruct (dict_get (attempt_key row) latest) as [prior|] eqn:Hprior; [|done].
      simpl in Hnewer. split; [done| |].
      * intros key held Hheld. destruct (Hrows key held Hheld) as (Hk & _). split; [done|].
        apply (Hkeep key); [done|]. intros _ Hk'. rewrite Hk' in Hprior. simplify_eq. lia.
      * intros other [Ho| ->%list_elem_of_singleton]%elem_of_app Hoi; [by apply Hall|by eexists].
  - apply eqb_neq in Hitem. split; [done| |].
    + intros key held Hheld. destruct (Hrows key held Hheld) as (Hk & _). split; [done|].
      by apply (Hkeep key).
    + intros other [Ho| ->%list_elem_of_singleton]%elem_of_app Hoi; [by apply Hall|done].
Qed.
End Attempts.

Lemma attempts_at_dict state item :
  exists latest, latest_dict item (core_attempts state) latest
    /\ attempts_at state item = map snd (merge_sort key_le latest).
Proof.
  exists (fold_left (keep_latest item) (core_attempts state) []). split; [|done].
  induction (core_attempts state) as [|row rows IH] using rev_ind; simpl.
  - split; [constructor|done|]. by intros row ?%not_elem_of_nil.
  - rewrite fold_left_app. simpl. by apply keep_latest_dict.
Qed.

Lemma attempts_at_In state item latest row :
  latest_dict item (core_attempts state) latest ->
  attempts_at state item = map snd (merge_sort key_le latest) ->
  row ∈ attempts_at state item <-> dict_get (attempt_key row) latest = Some row.
Proof.
  intros Hd ->. rewrite list_elem_of_fmap. rewrite dict_get_In by apply Hd. split.
  - intros ([k r] & -> & Hin). rewrite merge_sort_Permutation in Hin. simpl.
    assert (dict_get k latest = Some r) as Hget by (apply dict_get_In; [apply Hd|done]).
    apply (latest_rows _ _ _ Hd) in Hget as [-> _]. done.
  - intros Hin. exists (attempt_key row, row). split; [done|]. by rewrite merge_sort_Permutation.
Qed.

Lemma attempts_at_keys state item latest :
  latest_dict item (core_attempts state) latest ->
  attempts_at state item = map snd (merge_sort key_le latest) ->
  map attempt_key (attempts_at state item) = map fst (merge_sort key_le latest).
Proof.
  intros Hd ->. rewrite map_map. apply map_ext_in. intros [k r] Hin%list_elem_of_In. simpl.
  rewrite merge_sort_Permutation in Hin.
  assert (dict_get k latest = Some r) as Hget by (apply dict_get_In; [apply Hd|done]).
  by apply (latest_rows _ _ _ Hd) in Hget as [-> _].
Qed.

Lemma attempts_at_unique state item : NoDup (map attempt_key (attempts_at state item)).
Proof.
  destruct (attempts_at_dict state item) as (latest & Hd & E).
  rewrite (attempts_at_keys _ _ _ Hd E).
  rewrite (fmap_Permutation fst _ _ (merge_sort_Permutation key_le latest)). apply Hd.
Qed.

#[export] Instance key_le_total {A} : Total (@key_le A).
Proof. intros a b. apply String.leb_total. Qed.

(** ** Properties of the operator's actions *)

(** Core looks at the latest generation of each attempt at an item.  [_attempts_of] gives one
    row per attempt at the item, in the order of the attempts' identities; each is of that item
    and of no earlier generation than any other row of its attempt there; and no attempt at the
    item is left out. *)
Theorem attempts_at_latest state item :
  Sorted (fun a b => String.leb (attempt_key a) (attempt_key b) = true) (attempts_at state item)
  /\ NoDup (map attempt_key (attempts_at state item))
  /\ (forall row, row ∈ attempts_at state item -> latest_in item (core_attempts state) row)
  /\ (forall row, row ∈ core_attempts state -> attempt_item_id row = item ->
      exists held, held ∈ attempts_at state item /\ attempt_key held = attempt_key row).
Proof.
  destruct (attempts_at_dict state item) as (latest & Hd & E). split_and!.
  - pose proof (Sorted_merge_sort key_le latest) as Hs. rewrite E.
    assert (Hkeys : forall k r, (k, r) ∈ merge_sort key_le latest -> attempt_key r = k).
    { intros k r Hin. rewrite merge_sort_Permutation in Hin.
      apply (dict_get_In _ _ _ (latest_keys _ _ _ Hd)) in Hin.
      by apply (latest_rows _ _ _ Hd) in Hin as [-> _]. }
    revert Hs Hkeys. generalize (merge_sort key_le latest) as l.
    induction 1 as [|[k r] l Hs IH Hhd]; intros Hkeys; simpl; constructor.
    + apply IH. intros k' r' Hin. apply Hkeys. by right.
    + destruct Hhd as [|[k' r'] l' Hle]; simpl; constructor.
      rewrite (Hkeys k r), (Hkeys k' r'); [exact Hle|right; by left|by left].
  - apply attempts_at_unique.
  - intros row Hin%(attempts_at_In _ _ _ _ Hd E). by apply (latest_rows _ _ _ Hd) in Hin as [_ ?].
  - intros row Hin Hitem. destruct (latest_all _ _ _ Hd row Hin Hitem) as (held & Hheld).
    apply (latest_rows _ _ _ Hd) in Hheld as Hk. destruct Hk as [Hk _]. exists held.
    split; [|done]. apply (attempts_at_In _ _ _ _ Hd E). by rewrite Hk.
Qed.

(** An attempt at the item is named by exactly its own row. *)
Lemma named_In state item (keep : AttemptView -> bool) row :
  row ∈ attempts_at state item ->
  attempt_attempt_id row ∈ omap (fun row => if keep row then Some (attempt_attempt_id row) else None)
                                (attempts_at state item) <-> keep row = true.
Proof.
  intros Hin. rewrite list_elem_of_omap. split.
  - intros (other & Ho & E). destruct (keep other) eqn:Hk; [|done]. injection E as E.
    assert (other = row) as <-; [|done].
    apply (key_inj attempt_key (attempts_at state item)); try done; [apply attempts_at_unique|].
    unfold attempt_key. by rewrite E.
  - intros Hk. exists row. by rewrite Hk.
Qed.

(** Cancelling an item accounts for each of its attempts once.  By the phase of its latest
    generation, an attempt at the item is stopped (it runs or waits to run), left to settle (it
    closes), or held (it is parked or blocked), and a held one is either taken off the queue or
    parked, never both; one that ended is in none of the lists.  The commands of the
    cancellation withdraw exactly the stopped ones. *)
Theorem cancel_item_partitions state item row :
  row ∈ attempts_at state item ->
  let lists := item_cancellation state item in
  let attempt := attempt_attempt_id row in
  (attempt ∈ cancelled_stopped lists
   <-> attempt_phase row ∈ [AttemptPhase.QUEUED; AttemptPhase.ACQUIRING; AttemptPhase.ACTIVE])
  /\ (attempt ∈ cancelled_settling lists <-> attempt_phase row = AttemptPhase.CLOSING)
  /\ (attempt ∈ cancelled_unqueued lists \/ attempt ∈ cancelled_parked lists
      <-> attempt_phase row ∈ [AttemptPhase.PARKED; AttemptPhase.BLOCKED])
  /\ ~ (attempt ∈ cancelled_unqueued lists /\ attempt ∈ cancelled_parked lists)
  /\ (forall control, control_action control = ControlAction.CANCEL_ITEM ->
      control_item control = Some item ->
      (withdrawal state control row ∈ cancellations state control
       <-> attempt ∈ cancelled_stopped lists)).
Proof.
  intros Hin lists attempt. unfold lists, attempt, item_cancellation. simpl.
  rewrite !elem_of_filterb, !named_In by done. split_and!.
  - rewrite negb_true_iff, among_false. destruct (attempt_phase row); set_solver.
  - split; [apply eqb_eq|intros ->; apply eqb_refl].
  - rewrite !among_true. unfold PARKED_PHASES. rewrite negb_true_iff.
    destruct (not_none _); intuition congruence.
  - rewrite negb_true_iff. intuition congruence.
  - intros control Haction Hitem. unfold cancellations. rewrite Haction, Hitem.
    rewrite list_elem_of_fmap. split.
    + intros (other & E & Ho). apply elem_of_filterb in Ho as [_ Ho]. apply among_true in Ho.
      unfold withdrawal in E. injection E as _ Hid _. rewrite Hid. exact Ho.
    + intros Hs. exists row. split; [done|]. apply elem_of_filterb. split; [done|].
      apply among_true. exact Hs.
Qed.

(** A stop stands until a resume, and is never eased.  After a stop with a mode, while no
    resume follows, the stop stands whatever other controls come, and its mode is a cancel if
    any of the stops asked for one. *)
Theorem stop_never_eases run before stop after mode :
  run_controls run = before ++ stop :: after ->
  control_action stop = ControlAction.STOP -> control_mode stop = Some mode ->
  (forall control, control ∈ after -> control_action control <> ControlAction.RESUME) ->
  stop_standing run = true /\
  requested_stop_mode run
  = Some (if eqb mode StopMode.CANCEL
             || eqb (fold_left stop_mode_after before None) (Some StopMode.CANCEL)
             || any (fun control => eqb (control_action control) ControlAction.STOP
                                    && eqb (control_mode control) (Some StopMode.CANCEL)) after
          then StopMode.CANCEL else StopMode.DRAIN).
Proof.
  intros E Hstop Hmode Hresume. unfold stop_standing, requested_stop_mode.
  rewrite E, !fold_left_app. simpl. unfold stop_standing_after at 2, stop_mode_after at 2.
  rewrite Hstop, Hmode. split.
  - clear E. induction after as [|c after IH] using rev_ind; [done|].
    rewrite fold_left_app. simpl. rewrite IH by (intros; apply Hresume; set_solver).
    unfold stop_standing_after. destruct (control_action c) eqn:Ha; try done.
    destruct (Hresume c); [set_solver|done].
  - set (held := fold_left stop_mode_after before None). clearbody held. clear E.
    induction after as [|c after IH] using rev_ind.
    + simpl. rewrite orb_false_r. destruct mode, held as [[]|]; reflexivity.
    + rewrite fold_left_app. simpl. rewrite IH by (intros; apply Hresume; set_solver). clear IH.
      rewrite any_app. simpl. rewrite orb_false_r, !orb_assoc.
      set (cancels := _ || any _ after). clearbody cancels. unfold stop_mode_after.
      destruct (control_action c) eqn:Ha; try (destruct (Hresume c); [set_solver|done]);
        destruct (control_mode c) as [[]|]; destruct cancels; reflexivity.
Qed.

(** A new epoch starts clean.  The run of the facts kept of an earlier one has the earlier
    run's identity, clock, deadline and limits, runs with no control, pause, stop, park or
    result, and keeps exactly the receipts that are no [Finish]; and its own facts are those
    facts, so that a second restart changes nothing. *)
Theorem epoch_starts_clean run :
  let fresh := new_run (epoch_facts_of run) in
  epoch_facts_of fresh = epoch_facts_of run
  /\ (run_run_id fresh = run_run_id run /\ run_now_at fresh = run_now_at run
      /\ run_deadline_at fresh = run_deadline_at run /\ run_limits fresh = run_limits run)
  /\ run_status fresh = RunStatus.RUNNING /\ run_result fresh = None /\ run_park fresh = None
  /\ run_pause fresh = None /\ requested_stop_mode fresh = None /\ stop_standing fresh = false
  /\ (forall receipt, receipt ∈ run_receipts fresh <->
        receipt ∈ run_receipts run /\ is_finish (receipt_decision receipt) = false).
Proof.
  intros fresh. split_and!; try done.
  - unfold epoch_facts_of at 1. unfold fresh, new_run, epoch_facts_of. simpl. f_equal.
    induction (run_receipts run) as [|receipt receipts IH]; simpl; [done|].
    destruct (is_finish (receipt_decision receipt)) eqn:Hf; simpl; [done|].
    rewrite Hf. simpl. by rewrite IH.
  - intros receipt. unfold fresh. simpl. rewrite elem_of_filterb, negb_true_iff. done.
Qed.

(** ** Witnesses *)

Definition sample_view (name : string) (generation : Z) (phase : AttemptPhase) : AttemptView :=
  {| attempt_attempt_id := MkIdentity name; attempt_item_id := MkIdentity "item";
     attempt_generation := generation; attempt_phase := phase;
     attempt_workspace := {| wplan_mode := WorkspaceMode.ISOLATED_CHILD; wplan_base := sample_revision;
                            wplan_parked_predecessor := None |};
     attempt_base_input := None;
     attempt_budget := {| budget_admission_charge := 1; budget_paid_invocation_limit := 1;
                          budget_refund_limit := 0 |};
     attempt_admission_id := None; attempt_closure := None; attempt_checkpoints := [];
     attempt_charges := []; attempt_parent := None; attempt_pending_records := [];
     attempt_sessions := []; attempt_release_dependencies := [];
     attempt_evaluation_history := "[]"; attempt_terminal_reason := None;
     attempt_checkpoint_declines := [] |}.

Definition sample_attempts : CoreState :=
  (sample_state sample_run [] [])
    <| core_attempts := [sample_view "b" 1 AttemptPhase.PARKED; sample_view "a" 1 AttemptPhase.TERMINAL;
                         sample_view "a" 2 AttemptPhase.ACTIVE] |>.

Lemma cancel_item_partitions_witness :
  attempts_at sample_attempts (MkIdentity "item")
  = [sample_view "a" 2 AttemptPhase.ACTIVE; sample_view "b" 1 AttemptPhase.PARKED]
  /\ MkIdentity "a" ∈ cancelled_stopped (item_cancellation sample_attempts (MkIdentity "item")).
Proof.
  split; [vm_compute; reflexivity|].
  apply (cancel_item_partitions sample_attempts (MkIdentity "item") (sample_view "a" 2 AttemptPhase.ACTIVE)).
  - vm_compute. left.
  - right. right. left.
Defined.

Lemma stop_never_eases_witness :
  let stop mode := (sample_control ControlAction.STOP) <| control_mode := Some mode |> in
  requested_stop_mode (sample_run <| run_controls := [stop StopMode.CANCEL; stop StopMode.DRAIN] |>)
  = Some StopMode.CANCEL.
Proof.
  apply (stop_never_eases
    (sample_run <| run_controls := [(sample_control ControlAction.STOP) <| control_mode := Some StopMode.CANCEL |>;
                                    (sample_control ControlAction.STOP) <| control_mode := Some StopMode.DRAIN |>] |>)
    [] ((sample_control ControlAction.STOP) <| control_mode := Some StopMode.CANCEL |>)
    [(sample_control ControlAction.STOP) <| control_mode := Some StopMode.DRAIN |>] StopMode.CANCEL).
  - reflexivity.
  - reflexivity.
  - reflexivity.
  - intros control Hin. apply list_elem_of_singleton in Hin. rewrite Hin. discriminate.
Defined.
