(* ===== verification/Clock.v ===== *)
(** * Limits on the run clock

    [libs/vs-core/src/vs_core/]: [_deadlines.py] (how a stated limit becomes an absolute time),
    [_retry_policy.py] (retry backoff), [_turn_holds.py] (time held at the capacity gate),
    [_wait_clock.py] (queue credit and the bounds of waits), [_quota_pause_clock.py] (limits
    moved past a quota pause) and [advance_run_time] of [_step.py]. *)

From S2P Require Import Prelude PyFloat Identities Values Requests Records State Samples Control.

(** ** Absolute limits *)

(** [resolve_until] *)
Definition resolve_until (run : RunState) (within : Within) : Until :=
  let at_ := fadd (run_now_at run) (fmax (within_limit within) fzero) in
  let at_ := if flt (run_now_at run) (run_deadline_at run)
             then fmin at_ (run_deadline_at run) else at_ in
  {| until_at := at_; until_watches := within_watches within |}.

(** [queued_until] *)
Definition queued_until (run : RunState) (unstarted : FromDispatch) : Until :=
  if flt (run_now_at run) (run_deadline_at run)
  then {| until_at := run_deadline_at run; until_watches := fromdispatch_watches unstarted |}
  else {| until_at := fadd (run_now_at run) (fmax (fromdispatch_limit unstarted) fzero);
          until_watches := fromdispatch_watches unstarted |}.

(** [from_dispatch] *)
Definition from_dispatch (run : RunState) (until : Until) : FromDispatch :=
  {| fromdispatch_limit := fmax (fsub (until_at until) (run_now_at run)) fzero;
     fromdispatch_watches := until_watches until |}.

(** [started_until] *)
Definition started_until (run : RunState) (limit : float) (watches : list Watch) : Until :=
  resolve_until run {| within_limit := limit; within_watches := watches |}.

(** [limit_to] *)
Definition limit_to (run : RunState) (at_ : float) : float :=
  fmax (fsub at_ (run_now_at run)) fzero.

(** [bound_to_run] and [time_remains] *)
Definition bound_to_run (run : RunState) (requested : float) : float :=
  fmin requested (run_deadline_at run).
Definition time_remains (run : RunState) (requested : float) : bool :=
  flt (run_now_at run) (bound_to_run run requested).

(** [cleanup]: the [Until] it stores with the request *)
Definition cleanup (run : RunState) : Until :=
  let at_ := fadd (run_now_at run) (limits_cleanup_bound (run_limits run)) in
  let at_ := if negb (eqb (run_status run) RunStatus.CLOSING) && is_none (run_result run)
             then fmax (run_deadline_at run) at_ else at_ in
  {| until_at := at_; until_watches := [] |}.

(** ** Retries *)

(** [2 ** n] as the float the multiplication converts it to; [OverflowError] from [2 ** 1024] *)
Inductive ArithmeticError : Set := OverflowError.

Definition power_of_two (n : Z) : result ArithmeticError float :=
  require* n <? 1024 else OverflowError in Ok (of_int (2 ^ n)).

(** [RequestRetryPolicy.delay] *)
Definition delay (self : RequestRetries) (retries : Z) : result ArithmeticError float :=
  let* factor := power_of_two (Z.max (retries - 1) 0) in
  Ok (fmin (fmul (retries_backoff self) factor) (retries_backoff_cap self)).

(** ** Capacity holds *)

(** [held_limit] *)
Definition held_limit (stated : float) (hold : CapacityHold) : float :=
  let at_ := fadd stated (hold_credit hold) in
  match hold_since hold with
  | Some since =>
      if flt at_ since then at_
      else if hold_parked hold then finf
      else
        let current := match hold_released_at hold with
                       | None => hold_budget hold
                       | Some released => fsub released since
                       end in
        let at_ := fadd at_ (fmin current (hold_budget hold)) in
        match hold_released_at hold with
        | Some released => fmax at_ (fadd released (hold_resend_grace hold))
        | None => at_
        end
  | None =>
      match hold_released_at hold with
      | Some released => fmax at_ (fadd released (hold_resend_grace hold))
      | None => at_
      end
  end.

Definition NOT_RETURNED : list ObservationStatus :=
  [ObservationStatus.PENDING; ObservationStatus.CANCELLED].

(** [record.observation is None or record.observation.status in _NOT_RETURNED] *)
Definition not_returned (record : RequestRecord) : bool :=
  match rec_observation record with
  | None => true
  | Some observation => among (obs_status observation) NOT_RETURNED
  end.

(** [_within_its_time] *)
Definition within_its_time (record : RequestRecord) (hold : CapacityHold) : bool :=
  match hold_since hold with
  | Some since => fle since (fadd (until_at (rec_until record)) (hold_credit hold))
  | None => false
  end.

(** [_dispatches] *)
Definition dispatches (record : RequestRecord) (invocation : Invocation) : bool :=
  match rec_request record with
  | DispatchTurn b turn _ _ | ResumeSessionTurn b turn _ _ _ _ =>
      eqb turn (inv_turn invocation) && eqb (base_scope b) (inv_scope invocation)
  | ExecuteRegisteredOperation b operation_id _ _ _ =>
      eqb (Some operation_id) (inv_registered_operation invocation)
      && eqb (base_scope b) (inv_scope invocation)
  | _ => false
  end.

(** [interrupted_by_epoch] *)
Definition interrupted_by_epoch (records : RecordsState) (invocation : Invocation) : bool :=
  any (fun record =>
         dispatches record invocation
         && match rec_dispatched_in record with
            | Some epoch => epoch <? ledger_epoch records
            | None => false
            end
         && not_returned record) (ledger_records records).

(** [held_when_lost] *)
Definition held_when_lost (records : RecordsState) (invocation : Invocation) : bool :=
  any (fun record =>
         negb (phase_open (rec_phase record))
         && match rec_capacity_hold record with
            | Some hold => hold_holding hold && within_its_time record hold
            | None => false
            end
         && not_returned record
         && dispatches record invocation) (ledger_records records).

(** [lost_without_debit] *)
Definition lost_without_debit (records : RecordsState) (invocation : Invocation) : bool :=
  match inv_observation invocation with
  | Some observation =>
      eqb (obs_status observation) ObservationStatus.CANCELLED
      && (held_when_lost records invocation || interrupted_by_epoch records invocation)
  | None => false
  end.

(** [lost_failure], for the run and ledger of its context *)
Definition lost_failure (run : RunState) (records : RecordsState) (invocation : Invocation)
    : TurnFailureKind :=
  if not_none (run_park run) || interrupted_by_epoch records invocation
  then TurnFailureKind.EPOCH_INTERRUPTED
  else if held_when_lost records invocation then TurnFailureKind.PROVIDER_UNAVAILABLE
  else TurnFailureKind.TRANSPORT_LOST.

(** ** Bounds of waits *)

(** [Bound] *)
Record Bound := {
  bound_at : float;
  bound_by : WaitEnd
}.
#[export] Instance Bound_dec : EqDecision Bound.
Proof. solve_decision. Defined.
#[export] Instance Bound_eta : Eta Bound := fun r => Build_Bound (bound_at r) (bound_by r).

(** [_earliest]: [min(bounds, key=at, default=default)], the first of equal ones *)
Fixpoint earliest_of (best : Bound) (bounds : list Bound) : Bound :=
  match bounds with
  | [] => best
  | b :: rest => earliest_of (if flt (bound_at b) (bound_at best) then b else best) rest
  end.
Definition earliest (bounds : list Bound) (default_ : Bound) : Bound :=
  match bounds with [] => default_ | b :: rest => earliest_of b rest end.

(** [pending] *)
Definition pending (job : Job) : bool :=
  match job_progress_of job, job_observation_of job with
  | Some progress, Some observation =>
      negb (job_is_terminal job) && eqb (progress_state progress) ProgressState.PENDING
      && (progress_observation_sequence progress =? obs_sequence observation)
  | _, _ => false
  end.

(** [credited] *)
Definition credited (job : Job) (observation : Observation) (limits : Limits) : float :=
  match job_observation_of job with
  | Some previous =>
      if negb (pending job) || fle (obs_observed_at observation) (obs_observed_at previous)
      then job_queue_credit_of job
      else
        let queued := fsub (obs_observed_at observation) (obs_observed_at previous) in
        fadd (job_queue_credit_of job) (fmin queued (limits_observe_backoff_cap limits))
  | None => job_queue_credit_of job
  end.

(** [queue_budget_left] *)
Definition queue_budget_left (job : Job) (limits : Limits) : float :=
  fmax (fsub (limits_queue_wait_budget limits) (job_queue_credit_of job)) fzero.

(** [job_bound] *)
Definition job_bound (job : Job) (stated : float) (run : RunState) : Bound :=
  let limits := run_limits run in
  let bound := {| bound_at := fadd stated (job_queue_credit_of job); bound_by := WaitEnd.LIMIT |} in
  let bound :=
    match job_observation_of job with
    | Some observation =>
        if pending job && flt (obs_observed_at observation) (bound_at bound) then
          earliest
            [{| bound_at := fadd (bound_at bound) (limits_observe_backoff_cap limits);
                bound_by := WaitEnd.LIMIT |};
             {| bound_at := fsub (fadd (obs_observed_at observation)
                                       (limits_queue_wait_budget limits)) (job_queue_credit_of job);
                bound_by := WaitEnd.QUEUE_BUDGET |}] bound
        else bound
    | None => bound
    end in
  let ceiling := fmax (run_deadline_at run) stated in
  if fle (bound_at bound) ceiling then bound
  else {| bound_at := ceiling; bound_by := WaitEnd.RUN_END |}.

(** [job_step_until] *)
Definition job_step_until (run : RunState) (until : Until) : Until :=
  if fle (run_deadline_at run) (run_now_at run) then until
  else
    let at_ := fmin (fadd (until_at until) (limits_queue_wait_budget (run_limits run)))
                    (run_deadline_at run) in
    until <| until_at := fmax at_ (until_at until) |>.

(** [held_turn_bound] *)
Definition held_turn_bound (stated : float) (hold : option CapacityHold)
    (run_deadline : option float) : Bound :=
  match hold with
  | None => {| bound_at := stated; bound_by := WaitEnd.LIMIT |}
  | Some hold =>
      let at_ := held_limit stated hold in
      match run_deadline with
      | None => {| bound_at := at_; bound_by := WaitEnd.LIMIT |}
      | Some run_deadline =>
          let ceiling := fmax run_deadline stated in
          if fle at_ ceiling then {| bound_at := at_; bound_by := WaitEnd.LIMIT |}
          else {| bound_at := ceiling; bound_by := WaitEnd.RUN_END |}
      end
  end.

(** [turn_bound] *)
Definition turn_bound (record : RequestRecord) (run : RunState) : Bound :=
  held_turn_bound (until_at (rec_until record)) (rec_capacity_hold record)
    (Some (run_deadline_at run)).

(** [_submission_limit]: [Err] is the [ContractError] of a submission with no record *)
Inductive WaitError : Set := NoSubmissionRecord.

Definition submission_limit (evaluation : EvaluationState) (records : RecordsState) (job : Job)
    : result WaitError (option float) :=
  match job with
  | RegisteredOwned _ => Ok None
  | Owned j =>
      if any (fun call => eqb (call_request_id call) (Some (job_submission_id j))
                          && negb (call_repeat call)) (eval_agent_calls evaluation)
      then match record_of records (Some (job_submission_id j)) with
           | None => Err NoSubmissionRecord
           | Some record => Ok (Some (until_at (rec_until record)))
           end
      else Ok None
  end.

(** [... or 0.0]: a limit of zero also counts as none, and is zero either way. *)
Definition or_zero (limit : option float) : float :=
  match limit with Some at_ => at_ | None => fzero end.

(** [wait_bounds] *)
Fixpoint wait_bounds (evaluation : EvaluationState) (records : RecordsState) (run : RunState)
    (wait : Continuation) (jobs : list Job) : result WaitError (list Bound) :=
  match jobs with
  | [] => Ok []
  | job :: jobs' =>
      let* limit := submission_limit evaluation records job in
      let stated := fmax (cont_deadline_at wait) (or_zero limit) in
      let* rest := wait_bounds evaluation records run wait jobs' in
      Ok (job_bound job stated run :: rest)
  end.

(** ** The run clock *)

(** [credit_quota_pause]'s [credited]: a dispatched turn's open record the gate does not hold *)
Definition quota_credited (record : RequestRecord) : bool :=
  is_open record && eqb (rec_phase record) RequestPhase.DISPATCHED
  && not_none (turn_request (rec_request record))
  && negb match rec_capacity_hold record with
          | Some hold => hold_holding hold
          | None => false
          end.

(** [later] *)
Definition later (run : RunState) (gap at_ : float) : float :=
  let moved := fadd at_ gap in
  if fle at_ (run_deadline_at run) then fmin moved (run_deadline_at run) else moved.

(** [moved] *)
Definition quota_moved (run : RunState) (gap : float) (record : RequestRecord) : RequestRecord :=
  let at_ := later run gap (until_at (rec_until record)) in
  if negb (quota_credited record) || feq at_ (until_at (rec_until record)) then record
  else record <| rec_until := (rec_until record) <| until_at := at_ |> |>.

(** [kept] *)
Definition quota_kept (run : RunState) (gap : float) (tags : list RequestId) (row : StepAttempts)
    : StepAttempts :=
  match row_deadline_at row with
  | Some deadline =>
      if among (row_tag row) tags then row <| row_deadline_at := Some (later run gap deadline) |>
      else row
  | None => row
  end.

(** [credit_quota_pause] *)
Definition credit_quota_pause (state : CoreState) (now_at : float) : CoreState :=
  let run := core_run state in
  let gap := fsub now_at (run_now_at run) in
  if fle gap fzero || negb (eqb (run_status run) RunStatus.PAUSED) then state
  else
    match run_pause run with
    | Some pause =>
        if negb (eqb (pause_owner pause) PauseOwner.QUOTA) then state
        else
          let tags := map rec_request_id (List.filter quota_credited (rows_of state)) in
          let records := map (quota_moved run gap) (rows_of state) in
          let attempts := map (quota_kept run gap tags) (steps_attempts (core_steps state)) in
          if eqb records (rows_of state) && eqb attempts (steps_attempts (core_steps state))
          then state
          else with_attempts (with_rows state records) attempts
    | None => state
    end.

(** [advance_run_time] *)
Definition advance_run_time (state : CoreState) (now_at : float) : CoreState :=
  let now_at := fmax now_at (run_now_at (core_run state)) in
  if feq now_at (run_now_at (core_run state)) then state
  else
    let state := credit_quota_pause state now_at in
    state <| core_run := (core_run state) <| run_now_at := now_at |> |>.

(** ** What a later clock changes *)

(** [state'] is [state] at another time: limits of records and the kept deadlines of attempts
    apart, all is as it was. *)
Definition same_but_limit (row row' : RequestRecord) : Prop :=
  exists at_, row' = row <| rec_until := (rec_until row) <| until_at := at_ |> |>.
Definition same_but_deadline (row row' : StepAttempts) : Prop :=
  exists deadline, row' = row <| row_deadline_at := deadline |>.

Record clock_moved (state state' : CoreState) : Prop := {
  moved_run : exists now, core_run state' = (core_run state) <| run_now_at := now |>;
  moved_rows : Forall2 same_but_limit (rows_of state) (rows_of state');
  moved_epoch : ledger_epoch (core_records state') = ledger_epoch (core_records state);
  moved_attempts : Forall2 same_but_deadline (steps_attempts (core_steps state))
                                             (steps_attempts (core_steps state'));
  moved_steps : steps_epoch (core_steps state') = steps_epoch (core_steps state)
    /\ steps_ended (core_steps state') = steps_ended (core_steps state);
  moved_rest : core_registry state' = core_registry state
    /\ core_scheduling state' = core_scheduling state /\ core_attempts state' = core_attempts state
    /\ core_sessions state' = core_sessions state /\ core_evaluation state' = core_evaluation state
    /\ core_settlement state' = core_settlement state
}.

Lemma same_but_limit_refl row : same_but_limit row row.
Proof. exists (until_at (rec_until row)). by destruct row, rec_until. Qed.

Lemma same_but_deadline_refl row : same_but_deadline row row.
Proof. exists (row_deadline_at row). by destruct row. Qed.

Lemma clock_moved_refl state : clock_moved state state.
Proof.
  split; try done.
  - exists (run_now_at (core_run state)). by destruct (core_run state).
  - apply Forall_Forall2_diag, Forall_true, same_but_limit_refl.
  - apply Forall_Forall2_diag, Forall_true, same_but_deadline_refl.
Qed.

Lemma quota_moved_limit run gap row : same_but_limit row (quota_moved run gap row).
Proof.
  unfold quota_moved. destruct (_ || _); [apply same_but_limit_refl|]. by eexists.
Qed.

Lemma quota_kept_deadline run gap tags row : same_but_deadline row (quota_kept run gap tags row).
Proof.
  unfold quota_kept. repeat destruct_match; try apply same_but_deadline_refl. by eexists.
Qed.

Lemma Forall2_map_r {A} (R : A -> A -> Prop) (f : A -> A) l :
  (forall x, R x (f x)) -> Forall2 R l (map f l).
Proof. intros H. induction l; simpl; by constructor. Qed.

Lemma credit_quota_pause_moved state now : clock_moved state (credit_quota_pause state now).
Proof.
  unfold credit_quota_pause. repeat (destruct_match; try apply clock_moved_refl).
  split; try done.
  - exists (run_now_at (core_run state)). simpl. by destruct (core_run state).
  - apply Forall2_map_r. intros row. apply quota_moved_limit.
  - apply Forall2_map_r. intros row. apply quota_kept_deadline.
Qed.

Lemma advance_run_time_moved state now : clock_moved state (advance_run_time state now).
Proof.
  unfold advance_run_time. destruct (feq _ _); [apply clock_moved_refl|].
  destruct (credit_quota_pause_moved state (fmax now (run_now_at (core_run state)))) as [[n Hrun] ? ? ? ? ?].
  split; try done. simpl. rewrite Hrun. by eexists.
Qed.

Section Moved.
Context {state state' : CoreState} (Hmoved : clock_moved state state').

Lemma moved_find tag :
  Forall2 same_but_limit (find (core_records state) (Some tag)) (find (core_records state') (Some tag)).
Proof.
  rewrite !find_scan. pose proof (moved_rows _ _ Hmoved) as Hrows. unfold rows_of in Hrows.
  induction Hrows as [|row row' l l' [at_ ->] _ IH]; [done|].
  rewrite !filter_cons. destruct (decide (rec_request_id row = tag)) as [E|E].
  - rewrite decide_True by done. constructor; [by exists at_|exact IH].
  - rewrite decide_False by done. exact IH.
Qed.

Lemma moved_attempts_of tag :
  option_Forall2 same_but_deadline (attempts_of (core_steps state) tag)
                                   (attempts_of (core_steps state') tag).
Proof.
  unfold attempts_of. pose proof (moved_attempts _ _ Hmoved) as Hrows.
  induction Hrows as [|row row' l l' [d ->] _ IH]; simpl; [constructor|].
  destruct (eqb (row_tag row) tag); [|done]. constructor. by exists d.
Qed.
End Moved.

(** ** Properties *)

(** The run clock after one event. *)
Lemma advance_run_time_clock state now_at :
  is_nan now_at = false -> is_nan (run_now_at (core_run state)) = false ->
  let later := run_now_at (core_run (advance_run_time state now_at)) in
  is_nan later = false /\ fle now_at later = true /\ fle (run_now_at (core_run state)) later = true.
Proof.
  intros Hnow Hrun. unfold advance_run_time.
  assert (Hmax : is_nan (fmax now_at (run_now_at (core_run state))) = false) by by apply fmax_nan.
  destruct (feq _ _) eqn:E; simpl.
  - split; [done|]. apply feq_fle in E as [E _]. split; [|by apply fle_refl].
    eapply fle_trans; [by apply fmax_ge_l|done].
  - split; [done|]. split; [by apply fmax_ge_l|by apply fmax_ge_r].
Qed.

(** The run clock never runs back, and no event is stamped ahead of it.  Whatever times the
    events of a log carry, in whatever order, after them the run's clock reads no earlier than
    before and no earlier than any of those times. *)
Theorem run_clock_forward events : forall state,
  is_nan (run_now_at (core_run state)) = false -> (forall at_, at_ ∈ events -> is_nan at_ = false) ->
  let final := run_now_at (core_run (fold_left advance_run_time events state)) in
  fle (run_now_at (core_run state)) final = true /\ forall at_, at_ ∈ events -> fle at_ final = true.
Proof.
  induction events as [|event events IH]; intros state Hrun Hnan; simpl.
  - split; [by apply fle_refl|]. by intros ? ?%not_elem_of_nil.
  - destruct (advance_run_time_clock state event) as (Hn & Hle & Hge); [apply Hnan; by left|done|].
    destruct (IH (advance_run_time state event)) as [Hstart Hall]; [done|intros; apply Hnan; by right|].
    split; [by eapply fle_trans|]. intros at_ [->|Hin]%elem_of_cons; [by eapply fle_trans|by apply Hall].
Qed.

Lemma later_within run gap at_ :
  is_nan (fadd at_ gap) = false -> is_nan (run_deadline_at run) = false ->
  fle at_ (run_deadline_at run) = true -> fle (later run gap at_) (run_deadline_at run) = true.
Proof. intros Hn Hd Hle. unfold later. rewrite Hle. by apply fmin_le_r. Qed.

(** A quota pause moves a turn's limits together.  When the run's clock advances under a
    quota pause, the limit of a dispatched turn's open record and the deadline kept for its
    attempts, equal before, are equal after; a limit the run's own deadline allowed is still
    within it; and records and attempts of any other step, or of a turn the capacity gate
    holds, keep their limits. *)
Theorem quota_pause_in_step state now i j row attempts :
  let run := core_run state in
  let after := credit_quota_pause state now in
  rows_of state !! i = Some row -> steps_attempts (core_steps state) !! j = Some attempts ->
  NoDup (map rec_request_id (rows_of state)) ->
  row_tag attempts = rec_request_id row ->
  exists row' attempts', rows_of after !! i = Some row'
    /\ steps_attempts (core_steps after) !! j = Some attempts'
    /\ (row_deadline_at attempts = Some (until_at (rec_until row)) ->
        exists at_, row_deadline_at attempts' = Some at_
          /\ (at_ = until_at (rec_until row') \/ feq at_ (until_at (rec_until row')) = true))
    /\ (quota_credited row = false -> row' = row /\ attempts' = attempts)
    /\ (is_nan (fadd (until_at (rec_until row)) (fsub now (run_now_at run))) = false ->
        is_nan (run_deadline_at run) = false ->
        fle (until_at (rec_until row)) (run_deadline_at run) = true ->
        fle (until_at (rec_until row')) (run_deadline_at run) = true).
Proof.
  intros run after Hrow Hatt Hnd Htag.
  set (gap := fsub now (run_now_at run)).
  set (tags := map rec_request_id (List.filter quota_credited (rows_of state))).
  assert (Hafter : after = state \/
    rows_of after = map (quota_moved run gap) (rows_of state)
    /\ steps_attempts (core_steps after) = map (quota_kept run gap tags) (steps_attempts (core_steps state))).
  { unfold after, credit_quota_pause. repeat (destruct_match; try (by left)). by right. }
  destruct Hafter as [->|[Hrows Hatts]].
  { exists row, attempts. split; [done|]. split; [done|]. split; [|done].
    intros E. exists (until_at (rec_until row)). split; [done|by left]. }
  assert (Htags : row_tag attempts ∈ tags <-> quota_credited row = true).
  { rewrite Htag. unfold tags. rewrite list_elem_of_fmap. setoid_rewrite elem_of_filterb. split.
    - intros (other & E & Hin & Hc). assert (row = other) as ->; [|done].
      apply (key_inj rec_request_id (rows_of state)); try done. by eapply list_elem_of_lookup_2.
    - intros Hc. exists row. split; [done|]. split; [by eapply list_elem_of_lookup_2|done]. }
  exists (quota_moved run gap row), (quota_kept run gap tags attempts).
  rewrite Hrows, Hatts, !list_lookup_fmap, Hrow, Hatt. do 2 (split; [done|]). split; [|split].
  - intros E. unfold quota_kept, quota_moved. rewrite E.
    destruct (among (row_tag attempts) tags) eqn:Hin.
    + apply among_true, Htags in Hin. rewrite Hin. simpl. eexists. split; [done|].
      destruct (feq _ _) eqn:Heq; [by right|by left].
    + apply among_false in Hin. destruct (quota_credited row); [by destruct Hin; apply Htags|].
      simpl. exists (until_at (rec_until row)). split; [done|by left].
  - intros Hc. unfold quota_moved, quota_kept. rewrite Hc. split; [done|].
    destruct (row_deadline_at attempts) as [d|]; [|done].
    destruct (among (row_tag attempts) tags) eqn:Hin; [|done].
    apply among_true, Htags in Hin. congruence.
  - intros Hn Hd Hle. unfold quota_moved. destruct (_ || _); simpl; [done|]. by apply later_within.
Qed.

(** No wait outlives both its stated limit and the run.  The bound of a job's wait, of a
    turn the capacity gate may hold and of a job's step is never after the later of the run's
    deadline and the limit stated for it, whatever queue credit, observation or hold it has;
    and a job's step is never cut short of its stated limit. *)
Theorem waits_end_with_run run job stated hold until :
  is_nan (run_deadline_at run) = false -> is_nan stated = false ->
  is_nan (until_at until) = false ->
  is_nan (fadd (until_at until) (limits_queue_wait_budget (run_limits run))) = false ->
  fle (bound_at (job_bound job stated run)) (fmax (run_deadline_at run) stated) = true
  /\ fle (bound_at (held_turn_bound stated hold (Some (run_deadline_at run))))
         (fmax (run_deadline_at run) stated) = true
  /\ fle (until_at (job_step_until run until)) (fmax (run_deadline_at run) (until_at until)) = true
  /\ fle (until_at until) (until_at (job_step_until run until)) = true.
Proof.
  intros Hd Hs Hu Hb. split_and!.
  - unfold job_bound. cbv zeta. match goal with |- context [if fle (bound_at ?b) _ then _ else _] =>
      destruct (fle (bound_at b) (fmax (run_deadline_at run) stated)) eqn:E end; [done|].
    apply fle_refl. by apply fmax_nan.
  - unfold held_turn_bound. destruct hold as [hold|]; simpl; [|by apply fmax_ge_r].
    destruct (fle (held_limit stated hold) _) eqn:E; simpl; [done|]. apply fle_refl. by apply fmax_nan.
  - unfold job_step_until. destruct (fle (run_deadline_at run) (run_now_at run)); simpl; [by apply fmax_ge_r|].
    apply fmax_lub; [|by apply fmax_ge_r].
    eapply fle_trans; [by apply fmin_le_r|by apply fmax_ge_l].
  - unfold job_step_until. destruct (fle (run_deadline_at run) (run_now_at run)); simpl; [by apply fle_refl|].
    apply fmax_ge_r; [by apply fmin_nan|done].
Qed.

(** ** Witnesses *)

Lemma run_clock_forward_witness :
  let final := run_now_at (core_run (fold_left advance_run_time [seconds 20; seconds 15] sample_running)) in
  final = seconds 20 /\ fle (seconds 15) final = true.
Proof.
  split; [vm_compute; reflexivity|].
  destruct (run_clock_forward [seconds 20; seconds 15] sample_running) as [_ Hall].
  - reflexivity.
  - intros at_ Hin. vm_compute in Hin.
    apply elem_of_cons in Hin as [Hin|Hin]; [by rewrite Hin|].
    apply list_elem_of_singleton in Hin. by rewrite Hin.
  - apply Hall. right. left.
Defined.

(** Sixty seconds of a quota pause move both limits from 500 to 560. *)
Lemma quota_pause_in_step_witness :
  exists row' attempts', rows_of (credit_quota_pause sample_quota (seconds 70)) !! 0%nat = Some row'
    /\ steps_attempts (core_steps (credit_quota_pause sample_quota (seconds 70))) !! 0%nat = Some attempts'
    /\ until_at (rec_until row') = seconds 560 /\ row_deadline_at attempts' = Some (seconds 560).
Proof.
  destruct (quota_pause_in_step sample_quota (seconds 70) 0 0 sample_dispatched
    ((sample_row "turn" 1 0 false) <| row_deadline_at := Some (seconds 500) |>))
    as (row' & attempts' & Hrow & Hatt & _).
  - reflexivity.
  - reflexivity.
  - apply NoDup_singleton.
  - reflexivity.
  - exists row', attempts'. split; [exact Hrow|]. split; [exact Hatt|].
    vm_compute in Hrow, Hatt. injection Hrow as <-. injection Hatt as <-. split; vm_compute; reflexivity.
Defined.

Lemma waits_end_with_run_witness :
  let until := {| until_at := seconds 500; until_watches := [] |} in
  fle (bound_at (job_bound sample_job (seconds 500) sample_run)) (seconds 1000) = true
  /\ bound_by (job_bound sample_job (seconds 500) sample_run) = WaitEnd.RUN_END
  /\ fle (until_at until) (until_at (job_step_until sample_run until)) = true.
Proof.
  destruct (waits_end_with_run sample_run sample_job (seconds 500) None
    {| until_at := seconds 500; until_watches := [] |}) as (Hjob & _ & _ & Hstep);
    [vm_compute; reflexivity..|].
  split; [exact Hjob|]. split; [vm_compute; reflexivity|exact Hstep].
Defined.
