(* ===== verification/Proofs.v ===== *)
(** * Proof predicates: what the ledger establishes

    [libs/vs-core/src/vs_core/_proofs.py] and [_ownership.py].  [canonical_json] and [digest] of
    [_values.py] rest on pydantic's serializer and SHA-256; they are parameters, a digest of a
    request and one of a command. *)

From S2P Require Import Prelude PyFloat Identities Values Requests Records State Control.

Module ProofReason.
Inductive ProofReason : Set := ABSENT_RECEIPT | NOT_ACCEPTED | ABSENT_DECLARATION | ABSENT_EPISODE | ABSENT_REQUEST | ABSENT_OBSERVATION | ABSENT_INVOCATION | ABSENT_SESSION | ABSENT_RESOURCE | ABSENT_CHARGE | ABSENT_CHECKPOINT | ABSENT_PUBLICATION | UNRESOLVED | INCOMPLETE_MANIFEST | INCOMPLETE_HISTORY | EMPTY_REQUIRED.
End ProofReason.
Abbreviation ProofReason := ProofReason.ProofReason.
#[export] Instance ProofReason_dec : EqDecision ProofReason.
Proof. solve_decision. Defined.

Module ProofField.
Inductive ProofField : Set := RECEIPT_ID | FEEDBACK_ID | DECISION_ID | REQUEST_ID | INVOCATION_ID | SESSION_ID | RESOURCE_ID | SCOPE | GENERATION | ADMISSION_ID | PAYLOAD | DIGEST | SCHEMA | LIFECYCLE | NORMALIZATION | REVISION | RETENTION | SEQUENCE | STATUS | MANIFEST | CURRENCY | AMOUNT | CURSOR | PUBLICATION | DISPOSITION.
End ProofField.
Abbreviation ProofField := ProofField.ProofField.
#[export] Instance ProofField_dec : EqDecision ProofField.
Proof. solve_decision. Defined.

Inductive Verdict (T : Type) : Type :=
  | Proven (value : T)
  | Missing (reason : ProofReason)
  | Mismatch (field : ProofField).
Arguments Proven {T} value.
Arguments Missing {T} reason.
Arguments Mismatch {T} field.

Definition is_proven {T} (v : Verdict T) : bool :=
  match v with Proven _ => true | _ => false end.

(** The verdict of another type, for a denial passed on. *)
Definition denied {T U} (v : Verdict T) (k : T -> Verdict U) : Verdict U :=
  match v with
  | Proven value => k value
  | Missing reason => Missing reason
  | Mismatch field => Mismatch field
  end.

(** [_identity_mismatch]: the checks in the declared order of [ProofField], each as whether the
    two sides differ.  Every caller lists its checks in that order. *)
Definition identity_mismatch {T} (checks : list (ProofField * bool)) (otherwise : Verdict T)
    : Verdict T :=
  match next_such snd checks with
  | Some (field, _) => Mismatch field
  | None => otherwise
  end.
Definition differs {A} `{EqDecision A} (actual expected : A) : bool := negb (eqb actual expected).

(** [tuple(ProofField).index(field)] and the string each member is *)
Definition FIELD_ORDER : list ProofField :=
  [ProofField.RECEIPT_ID; ProofField.FEEDBACK_ID; ProofField.DECISION_ID; ProofField.REQUEST_ID;
   ProofField.INVOCATION_ID; ProofField.SESSION_ID; ProofField.RESOURCE_ID; ProofField.SCOPE;
   ProofField.GENERATION; ProofField.ADMISSION_ID; ProofField.PAYLOAD; ProofField.DIGEST;
   ProofField.SCHEMA; ProofField.LIFECYCLE; ProofField.NORMALIZATION; ProofField.REVISION;
   ProofField.RETENTION; ProofField.SEQUENCE; ProofField.STATUS; ProofField.MANIFEST;
   ProofField.CURRENCY; ProofField.AMOUNT; ProofField.CURSOR; ProofField.PUBLICATION;
   ProofField.DISPOSITION].
Fixpoint position_in {A} `{EqDecision A} (l : list A) (a : A) : nat :=
  match l with
  | [] => 0
  | x :: l' => if eqb x a then 0 else S (position_in l' a)
  end.
Definition field_position : ProofField -> nat := position_in FIELD_ORDER.

Definition field_value (field : ProofField) : string :=
  match field with
  | ProofField.RECEIPT_ID => "receipt_id" | ProofField.FEEDBACK_ID => "feedback_id"
  | ProofField.DECISION_ID => "decision_id" | ProofField.REQUEST_ID => "request_id"
  | ProofField.INVOCATION_ID => "invocation_id" | ProofField.SESSION_ID => "session_id"
  | ProofField.RESOURCE_ID => "resource_id" | ProofField.SCOPE => "scope"
  | ProofField.GENERATION => "generation" | ProofField.ADMISSION_ID => "admission_id"
  | ProofField.PAYLOAD => "payload" | ProofField.DIGEST => "digest"
  | ProofField.SCHEMA => "schema" | ProofField.LIFECYCLE => "lifecycle"
  | ProofField.NORMALIZATION => "normalization" | ProofField.REVISION => "revision"
  | ProofField.RETENTION => "retention" | ProofField.SEQUENCE => "sequence"
  | ProofField.STATUS => "status" | ProofField.MANIFEST => "manifest"
  | ProofField.CURRENCY => "currency" | ProofField.AMOUNT => "amount"
  | ProofField.CURSOR => "cursor" | ProofField.PUBLICATION => "publication"
  | ProofField.DISPOSITION => "disposition"
  end.
Definition reason_value (reason : ProofReason) : string :=
  match reason with
  | ProofReason.ABSENT_RECEIPT => "absent_receipt" | ProofReason.NOT_ACCEPTED => "not_accepted"
  | ProofReason.ABSENT_DECLARATION => "absent_declaration"
  | ProofReason.ABSENT_EPISODE => "absent_episode"
  | ProofReason.ABSENT_REQUEST => "absent_request"
  | ProofReason.ABSENT_OBSERVATION => "absent_observation"
  | ProofReason.ABSENT_INVOCATION => "absent_invocation"
  | ProofReason.ABSENT_SESSION => "absent_session"
  | ProofReason.ABSENT_RESOURCE => "absent_resource"
  | ProofReason.ABSENT_CHARGE => "absent_charge"
  | ProofReason.ABSENT_CHECKPOINT => "absent_checkpoint"
  | ProofReason.ABSENT_PUBLICATION => "absent_publication"
  | ProofReason.UNRESOLVED => "unresolved"
  | ProofReason.INCOMPLETE_MANIFEST => "incomplete_manifest"
  | ProofReason.INCOMPLETE_HISTORY => "incomplete_history"
  | ProofReason.EMPTY_REQUIRED => "empty_required"
  end.

(** [current_admission] *)
Definition current_admission (attempt : option AttemptView) (scope : Scope)
    (episode : option DecisionId) : Verdict DecisionId :=
  match attempt with
  | None => Missing ProofReason.ABSENT_DECLARATION
  | Some attempt =>
      match episode, attempt_admission_id attempt with
      | Some episode, Some admission_id =>
          if negb (eqb (OwnerAttempt (attempt_attempt_id attempt)) (scope_owner scope))
          then Mismatch ProofField.SCOPE
          else if negb (attempt_generation attempt =? scope_generation scope)
          then Mismatch ProofField.GENERATION
          else if negb (eqb admission_id episode) then Mismatch ProofField.ADMISSION_ID
          else Proven episode
      | _, _ => Missing ProofReason.ABSENT_EPISODE
      end
  end.

(** ** Fresh observations *)

(** [min(failures, key=...)]: the first of the earliest field *)
Fixpoint earliest_field (best : ProofField) (fields : list ProofField) : ProofField :=
  match fields with
  | [] => best
  | field :: rest =>
      earliest_field (if (field_position field <? field_position best)%nat then field else best) rest
  end.

(** [max(rows, key=lambda row: row.sequence)]: the first of the highest sequence *)
Fixpoint latest_row (best : Observation) (rows : list Observation) : Observation :=
  match rows with
  | [] => best
  | row :: rest => latest_row (if obs_sequence best <? obs_sequence row then row else best) rest
  end.

(** Two rows of [rows], the one before the other, that state one sequence differently *)
Fixpoint conflicting (rows : list Observation) : bool :=
  match rows with
  | [] => false
  | row :: rest =>
      any (fun other => (obs_sequence row =? obs_sequence other) && negb (eqb row other)) rest
      || conflicting rest
  end.

Definition rebound (row incoming : Observation) : Verdict Observation :=
  identity_mismatch
    [(ProofField.SCOPE, differs (scope_owner (obs_scope incoming)) (scope_owner (obs_scope row)));
     (ProofField.GENERATION, differs (scope_generation (obs_scope incoming))
                                     (scope_generation (obs_scope row)));
     (ProofField.ADMISSION_ID, differs (obs_admission_id incoming) (obs_admission_id row))]
    (Proven incoming).
Definition mismatched {T} (v : Verdict T) : option ProofField :=
  match v with Mismatch field => Some field | _ => None end.

(** [_fresh_source], of the first row and the others *)
Definition fresh_source (first : Observation) (others : list Observation) (incoming : Observation)
    : Verdict Observation :=
  let rows := first :: others in
  if any (fun row => is_attempt (scope_owner (obs_scope row)) && is_none (obs_admission_id row))
         (rows ++ [incoming])
  then Missing ProofReason.ABSENT_EPISODE
  else
    match omap (fun row => mismatched (rebound row incoming)) rows with
    | field :: fields => Mismatch (earliest_field field fields)
    | [] =>
        if conflicting rows then Mismatch ProofField.SEQUENCE
        else
          let latest := latest_row first others in
          if (obs_sequence incoming <? obs_sequence latest)
             || ((obs_sequence incoming =? obs_sequence latest) && negb (eqb incoming latest))
          then Mismatch ProofField.SEQUENCE else Proven incoming
    end.

(** [fresh_observation] *)
Definition fresh_observation (history : list Observation) (incoming : option Observation)
    (complete : bool) : Verdict Observation :=
  match incoming with
  | None => Missing ProofReason.ABSENT_OBSERVATION
  | Some incoming =>
      if negb complete then Missing ProofReason.INCOMPLETE_HISTORY
      else
        match List.filter (fun row => eqb (obs_request_id row) (obs_request_id incoming)) history with
        | [] => Proven incoming
        | first :: others => fresh_source first others incoming
        end
  end.

(** [descriptor_matches]: the checks in the order of their fields *)
Definition descriptor_matches (registry : list OperationDescriptor) (offered : Capabilities)
    (wire : option OperationWire) (lifecycle : LifecycleClass)
    (normalization : OperationNormalizationKind) : Verdict OperationDescriptor :=
  match wire with
  | None => Missing ProofReason.ABSENT_DECLARATION
  | Some wire =>
      let schema := wire_schema_ref wire in
      let named row := eqb (descriptor_kind row) (opschema_kind schema) in
      match List.filter named registry, List.filter named (capabilities_operations offered) with
      | [], _ | _, [] => Missing ProofReason.ABSENT_DECLARATION
      | [row], [offer] =>
          let own := descriptor_schema row in
          let its := descriptor_schema offer in
          identity_mismatch
            [(ProofField.RESOURCE_ID, differs (descriptor_resource_pool row)
                                              (descriptor_resource_pool offer));
             (ProofField.SCHEMA, differs (opschema_request_schema own)
                                         (opschema_request_schema schema));
             (ProofField.SCHEMA, differs (opschema_outcome_schema own)
                                         (opschema_outcome_schema schema));
             (ProofField.SCHEMA, differs (opschema_request_schema own)
                                         (opschema_request_schema its));
             (ProofField.SCHEMA, differs (opschema_outcome_schema own)
                                         (opschema_outcome_schema its));
             (ProofField.SCHEMA,
                differs (descriptor_inspect row, descriptor_cancel row, descriptor_watch row)
                        (descriptor_inspect offer, descriptor_cancel offer, descriptor_watch offer));
             (ProofField.LIFECYCLE, differs (opschema_lifecycle own) lifecycle);
             (ProofField.LIFECYCLE, differs (opschema_lifecycle schema) lifecycle);
             (ProofField.LIFECYCLE, differs (opschema_lifecycle own) (opschema_lifecycle its));
             (ProofField.NORMALIZATION, differs (descriptor_normalization row) normalization);
             (ProofField.NORMALIZATION, differs (descriptor_normalization row)
                                                (descriptor_normalization offer));
             (ProofField.REVISION, differs (descriptor_revision_authority row)
                                           (descriptor_revision_authority offer))]
            (Proven row)
      | _, _ => Mismatch ProofField.SCHEMA
      end
  end.

(** The digests of [_values.py] *)
Class Digests := {
  digest_request : Request -> string;
  digest_command : Command -> string
}.

Section WithDigests.
Context `{Digests}.

(** [_receipt_payload] with no canonical command *)
Definition receipt_payload (receipt : DecisionReceipt) : Verdict DecisionReceipt :=
  match receipt_decision receipt with
  | None => Missing ProofReason.ABSENT_RECEIPT
  | Some decision =>
      if differs (receipt_payload_digest receipt) (digest_command decision)
      then Mismatch ProofField.DIGEST else Proven receipt
  end.

Definition feedback_decision_id (feedback : DecisionFeedback) : DecisionId :=
  match feedback with Accepted d _ _ _ _ | Rejected d _ _ _ _ => d end.

(** [accepted_receipt_for(receipts, ident, None)] *)
Definition accepted_receipt_for (receipts : list DecisionReceipt) (ident : option DecisionId)
    : Verdict DecisionReceipt :=
  match ident with
  | None => Missing ProofReason.ABSENT_RECEIPT
  | Some ident =>
      match List.filter (fun receipt => eqb (receipt_decision_id receipt) ident) receipts with
      | [] => Missing ProofReason.ABSENT_RECEIPT
      | [receipt] =>
          match receipt_decision receipt with
          | None => Missing ProofReason.ABSENT_RECEIPT
          | Some decision =>
              if negb (is_accepted (receipt_feedback receipt)) then Missing ProofReason.NOT_ACCEPTED
              else
                identity_mismatch
                  [(ProofField.FEEDBACK_ID,
                     differs (feedback_decision_id (receipt_feedback receipt)) ident);
                   (ProofField.DECISION_ID, differs (command_decision_id decision) ident)]
                  (receipt_payload receipt)
          end
      | _ => Mismatch ProofField.RECEIPT_ID
      end
  end.

(** [_request_payload] of a record against its own request *)
Definition request_payload (record : RequestRecord) : Verdict RequestRecord :=
  if differs (rec_payload_digest record) (digest_request (rec_request record))
  then Mismatch ProofField.DIGEST
  else if differs (rec_lifecycle record) (request_lifecycle (rec_request record))
  then Mismatch ProofField.LIFECYCLE
  else Proven record.

(** [request_matches(record, record.request)], the only way the modelled rules call it *)
Definition request_matches (record : RequestRecord) : Verdict RequestRecord :=
  let request := rec_request record in
  match req_request_id request with
  | None => Missing ProofReason.ABSENT_REQUEST
  | Some ident =>
      if is_attempt (scope_owner (req_scope request)) && is_none (req_admission_id request)
      then Missing ProofReason.ABSENT_EPISODE
      else
        identity_mismatch [(ProofField.REQUEST_ID, differs (rec_request_id record) ident)]
          (request_payload record)
  end.

(** [observation_for] *)
Definition observation_for (record : RequestRecord) (observation : option Observation)
    : Verdict Observation :=
  let request := rec_request record in
  match req_request_id request with
  | None => Missing ProofReason.ABSENT_REQUEST
  | Some ident =>
      match observation with
      | None => Missing ProofReason.ABSENT_OBSERVATION
      | Some observation =>
          if is_attempt (scope_owner (req_scope request))
             && (is_none (req_admission_id request) || is_none (obs_admission_id observation))
          then Missing ProofReason.ABSENT_EPISODE
          else
            identity_mismatch
              [(ProofField.REQUEST_ID, differs (obs_request_id observation) (rec_request_id record));
               (ProofField.REQUEST_ID, differs ident (rec_request_id record));
               (ProofField.SCOPE, differs (scope_owner (obs_scope observation))
                                          (scope_owner (req_scope request)));
               (ProofField.GENERATION, differs (scope_generation (obs_scope observation))
                                               (scope_generation (req_scope request)));
               (ProofField.ADMISSION_ID, differs (obs_admission_id observation)
                                                 (req_admission_id request))]
              (Proven observation)
      end
  end.

(** [_request_dependency] *)
Definition request_dependency (rows : list RequestRecord) : Verdict RequestRecord :=
  match rows with
  | [] => Missing ProofReason.ABSENT_REQUEST
  | [row] =>
      denied (request_matches row) (fun _ =>
        if negb (eqb (rec_phase row) RequestPhase.COMPLETED) then Missing ProofReason.UNRESOLVED
        else
          denied (observation_for row (rec_observation row)) (fun observation =>
            if obs_accepted observation && obs_terminal observation
               && eqb (obs_status observation) ObservationStatus.SUCCEEDED
            then Proven row else Mismatch ProofField.STATUS))
  | _ => Mismatch ProofField.REQUEST_ID
  end.

Definition is_unresolved {T} (v : Verdict T) : bool :=
  match v with Missing reason => eqb reason ProofReason.UNRESOLVED | _ => false end.

(** [dependencies_for] *)
Definition dependencies_for (request : Request) (records : RecordsState) : Verdict unit :=
  let proofs := map (fun ident => request_dependency (find records (Some ident)))
                    (req_depends_on request) in
  let failures := List.filter (fun proof => negb (is_proven proof)) proofs in
  match failures with
  | [] => Proven tt
  | _ =>
      match next_such (fun proof => negb (is_unresolved proof)) failures with
      | Some denial => denied denial (fun _ => Proven tt)
      | None => Missing ProofReason.UNRESOLVED
      end
  end.

(** [request_dependency_status] *)
Definition request_dependency_status (request : Request) (receipts : list DecisionReceipt)
    (records : RecordsState) : DependencyStatus :=
  if not_none (req_decision_id request)
     && negb (is_proven (accepted_receipt_for receipts (req_decision_id request)))
  then DependencyStatus.FAILED
  else
    match dependencies_for request records with
    | Proven _ => DependencyStatus.SUCCEEDED
    | Missing reason =>
        if among reason [ProofReason.UNRESOLVED; ProofReason.ABSENT_REQUEST]
        then DependencyStatus.PENDING else DependencyStatus.FAILED
    | Mismatch _ => DependencyStatus.FAILED
    end.

(** [admission_remaining]; [reserved] is 0 where the code leaves it out *)
Definition admission_consumed (attempts : list AttemptView) : Z :=
  foldr Z.add 0 (flat_map (fun owner =>
    map (fun charge => charge_charged charge - charge_refunded charge)
        (List.filter (fun charge => eqb (charge_kind charge) ChargeKind.ADMISSION)
                     (attempt_charges owner))) attempts).
Definition admission_remaining (attempts : list AttemptView) (max_attempts reserved : Z) : Z :=
  Z.max 0 (max_attempts - admission_consumed attempts - reserved).

Definition NOT_YET_KNOWN : list ProofReason :=
  [ProofReason.UNRESOLVED; ProofReason.ABSENT_REQUEST; ProofReason.ABSENT_RECEIPT].

(** [dependency_failed] *)
Definition dependency_failed (request : Request) (records : RecordsState) : bool :=
  any (fun ident =>
         match request_dependency (find records (Some ident)) with
         | Mismatch field => eqb field ProofField.STATUS
         | Missing reason => negb (among reason NOT_YET_KNOWN)
         | Proven _ => false
         end) (req_depends_on request).

(** ** The committed stop *)

(** [continues_admitted_work] and [admitted_work_proceeds] *)
Definition continues_admitted_work (run : RunState) : bool :=
  among (run_status run) [RunStatus.RUNNING; RunStatus.PAUSED].
Definition admitted_work_proceeds (run : RunState) : bool :=
  continues_admitted_work run || eqb (run_status run) RunStatus.DRAINING.

(** [committed_stop], with the identity, the mode and the result of the [Finish] it proves *)
Definition committed_stop (run : RunState) : Verdict (DecisionBase * StopMode * RunResultProposal) :=
  match next_such (fun row => is_finish (receipt_decision row)
                              && (is_accepted (receipt_feedback row)
                                  || not_none (receipt_completion row))) (run_receipts run) with
  | None => Missing ProofReason.ABSENT_RECEIPT
  | Some receipt =>
      if negb (is_accepted (receipt_feedback receipt)) then Mismatch ProofField.DISPOSITION
      else
        denied (accepted_receipt_for (run_receipts run) (Some (receipt_decision_id receipt)))
          (fun _ =>
             match receipt_decision receipt with
             | Some (Finish d mode result) =>
                 match run_result run with
                 | None => Missing ProofReason.UNRESOLVED
                 | Some held =>
                     identity_mismatch
                       [(ProofField.SCOPE, differs (scope_owner (dbase_scope d))
                                                   (OwnerRun (run_run_id run)));
                        (ProofField.GENERATION, differs (scope_generation (dbase_scope d))
                                                        (run_generation run));
                        (ProofField.STATUS, negb (among (run_status run)
                                                    [RunStatus.CLOSING; RunStatus.TERMINAL]));
                        (ProofField.DISPOSITION, differs result held)]
                       (Proven (d, mode, result))
                 end
             | _ => Mismatch ProofField.PAYLOAD
             end)
  end.

(** [stop_mode] *)
Definition stop_mode (run : RunState) : option StopMode :=
  let held := requested_stop_mode run in
  match committed_stop run with
  | Proven (_, mode, _) => Some (escalate_stop held mode)
  | _ => held
  end.

(** [stop_draining] *)
Definition stop_draining (run : RunState) : bool :=
  match committed_stop run with
  | Proven _ =>
      eqb (run_status run) RunStatus.CLOSING && eqb (stop_mode run) (Some StopMode.DRAIN)
  | _ => false
  end.

(** ** Releases *)

(** [resolved_observation] *)
Definition resolved_observation (observation : option Observation) : Verdict Observation :=
  match observation with
  | None => Missing ProofReason.ABSENT_OBSERVATION
  | Some observation =>
      if negb (obs_terminal observation) || negb (obs_released observation)
         || among (obs_status observation) [ObservationStatus.UNKNOWN; ObservationStatus.PENDING]
      then Missing ProofReason.UNRESOLVED
      else if negb (obs_children_complete observation)
      then Missing ProofReason.INCOMPLETE_MANIFEST
      else Proven observation
  end.

(** [_release_source] *)
Definition release_source (observation : Observation) (source : option RequestRecord)
    : Verdict Observation :=
  match source with
  | None => Missing ProofReason.ABSENT_REQUEST
  | Some source =>
      let request := rec_request source in
      match req_request_id request with
      | None => Missing ProofReason.ABSENT_REQUEST
      | Some ident =>
          if is_attempt (scope_owner (req_scope request))
             && (is_none (req_admission_id request) || is_none (obs_admission_id observation))
          then Missing ProofReason.ABSENT_EPISODE
          else
            identity_mismatch
              [(ProofField.REQUEST_ID, differs ident (rec_request_id source));
               (ProofField.REQUEST_ID, differs (obs_request_id observation) (rec_request_id source));
               (ProofField.SCOPE, differs (scope_owner (obs_scope observation))
                                          (scope_owner (req_scope request)));
               (ProofField.GENERATION, differs (scope_generation (obs_scope observation))
                                               (scope_generation (req_scope request)));
               (ProofField.ADMISSION_ID, differs (obs_admission_id observation)
                                                 (req_admission_id request))]
              (denied (request_matches source) (fun _ => Proven observation))
      end
  end.

(** [_release_nonownership] *)
Definition release_nonownership (observation : Observation) : bool :=
  negb (obs_accepted observation)
  && among (obs_status observation)
       [ObservationStatus.REJECTED; ObservationStatus.FAILED; ObservationStatus.CANCELLED].

(** [_released_record], which [released_owner] is of a record *)
Definition released_record (owner : RequestRecord) : Verdict Observation :=
  match rec_observation owner with
  | None => Missing ProofReason.ABSENT_OBSERVATION
  | Some observation =>
      if among (rec_lifecycle owner) [LifecycleClass.OWNED_JOB; LifecycleClass.SESSION_TURN]
         && is_none (obs_resource_id observation) && negb (release_nonownership observation)
      then Missing ProofReason.ABSENT_RESOURCE
      else denied (release_source observation (Some owner))
                  (fun _ => resolved_observation (Some observation))
  end.

(** [blocked_unnamed] *)
Definition blocked_unnamed (record : RequestRecord) : bool :=
  match rec_observation record with
  | Some observation =>
      eqb (rec_phase record) RequestPhase.BLOCKED && negb (obs_accepted observation)
      && is_none (obs_resource_id observation) && eqb (obs_children observation) []
  | None => false
  end.

(** [unreleased_records] of [_ownership.py] *)
Definition unreleased_records (state : CoreState) : list RequestRecord :=
  List.filter (fun record =>
    negb (blocked_unnamed record)
    && (negb (eqb (rec_phase record) RequestPhase.COMPLETED)
        || (among (rec_lifecycle record) [LifecycleClass.OWNED_JOB; LifecycleClass.SESSION_TURN]
            && negb (is_proven (released_record record))))) (rows_of state).

(** [_job_release_binding] *)
Definition job_release_binding (owner : Job) (observation : Observation)
    (source : option RequestRecord) : Verdict Observation :=
  let scope := job_scope_of owner in
  identity_mismatch
    [(ProofField.REQUEST_ID, differs (obs_request_id observation) (source_request owner));
     (ProofField.RESOURCE_ID, differs (obs_resource_id observation) (job_resource owner));
     (ProofField.SCOPE, differs (scope_owner (obs_scope observation)) (scope_owner scope));
     (ProofField.GENERATION, differs (scope_generation (obs_scope observation))
                                     (scope_generation scope))]
    (if match source with
        | None => false
        | Some source =>
            match owner, rec_request source with
            | Owned job, SubmitMeasurement _ plan _ _ _ => differs plan (job_plan job)
            | Owned _, _ => true
            | RegisteredOwned job, ExecuteRegisteredOperation _ operation_id _ _ _ =>
                differs operation_id (rjob_operation_id job)
            | RegisteredOwned _, _ => true
            end
        end then Mismatch ProofField.PAYLOAD
     else if differs (obs_status observation) (job_status_of owner)
     then Mismatch ProofField.STATUS
     else if negb (job_is_terminal owner) || negb (job_is_released owner)
     then Missing ProofReason.UNRESOLVED
     else Proven observation).

(** [_released_job], which [released_owner] is of a job *)
Definition released_job (owner : Job) (sources : list RequestRecord) : Verdict Observation :=
  match job_observation_of owner with
  | None => Missing ProofReason.ABSENT_OBSERVATION
  | Some observation =>
      if is_none (job_resource owner) && negb (release_nonownership observation)
      then Missing ProofReason.ABSENT_RESOURCE
      else
        match List.filter (fun source => eqb (rec_request_id source) (source_request owner)) sources with
        | _ :: _ :: _ => Mismatch ProofField.REQUEST_ID
        | matches =>
            denied (release_source observation (head matches)) (fun _ =>
              denied (job_release_binding owner observation (head matches)) (fun _ =>
                resolved_observation (Some observation)))
        end
  end.

(** [_session_release_binding] *)
Definition session_release_binding (owner : SessionView) (observation : Observation)
    : Verdict Observation :=
  if is_none (view_resource_id owner) then Missing ProofReason.ABSENT_RESOURCE
  else
    identity_mismatch
      [(ProofField.RESOURCE_ID, differs (obs_resource_id observation) (view_resource_id owner));
       (ProofField.GENERATION, differs (view_generation owner)
                                       (scope_generation (view_scope owner)))]
      (if differs (view_phase owner) SessionPhase.TERMINAL
       then Missing ProofReason.UNRESOLVED else Proven observation).

(** [_released_session], which [released_owner] is of a session *)
Definition released_session (owner : SessionView) (sources : list RequestRecord)
    : Verdict Observation :=
  match List.filter (fun source =>
          match rec_request source with
          | CloseSession b session_id _ _ =>
              eqb session_id (session_session_id (view_spec owner))
              && eqb (base_scope b) (view_scope owner)
          | _ => false
          end) sources with
  | [] => Missing ProofReason.ABSENT_REQUEST
  | [source] => denied (released_record source) (session_release_binding owner)
  | _ => Mismatch ProofField.REQUEST_ID
  end.

(** ** The cleanup fence ([_ownership.py]) *)

(** [_invocation_pending] *)
Definition invocation_pending (state : CoreState) (invocation : Invocation) : bool :=
  if among (inv_phase invocation)
       [SessionPhase.TERMINAL; SessionPhase.CHECKPOINTED; SessionPhase.IDLE] then false
  else
    negb (eqb (inv_phase invocation) SessionPhase.SUSPENDED
          && any (fun row => eqb (cont_invocation row) (inv_invocation invocation)
                             && among (cont_phase row)
                                  [ContinuationPhase.RESUMED; ContinuationPhase.CANCELLED])
                 (eval_continuations (core_evaluation state))).

(** [( *state.evaluation.jobs, *state.evaluation.registered_jobs)] *)
Definition all_jobs (state : CoreState) : list Job :=
  map Owned (eval_jobs (core_evaluation state))
  ++ map RegisteredOwned (eval_registered_jobs (core_evaluation state)).

Definition job_release_confirmed (state : CoreState) (job : Job) : bool :=
  is_proven (released_job job (rows_of state)).

(** [_unreleased_children] *)
Definition unreleased_children (state : CoreState) : bool :=
  let jobs := all_jobs state in
  let released :=
    omap (fun job => if job_release_confirmed state job
                     then Some (job_resource job, job_scope_of job) else None) jobs
    ++ omap (fun record =>
               match rec_observation record with
               | Some observation =>
                   if among (rec_lifecycle record)
                        [LifecycleClass.OWNED_JOB; LifecycleClass.SESSION_TURN]
                      && is_proven (released_record record)
                   then Some (obs_resource_id observation, obs_scope observation) else None
               | None => None
               end) (rows_of state) in
  let observations := omap rec_observation (rows_of state) ++ omap job_observation_of jobs in
  let children :=
    flat_map (fun job => map (fun child => (Some child, job_scope_of job)) (job_children_of job)) jobs
    ++ flat_map (fun observation =>
                   map (fun child => (Some child, obs_scope observation))
                       (obs_descendants observation)) observations in
  any (fun child => negb (among child released)) children.

(** [cleanup_pending] *)
Definition cleanup_pending (state : CoreState) : bool :=
  any (fun fence => fence)
    [negb (eqb (sched_queue (core_scheduling state)) [])
       || negb (eqb (sched_slots (core_scheduling state)) []);
     any (fun attempt =>
            among (attempt_phase attempt)
              [AttemptPhase.QUEUED; AttemptPhase.ACQUIRING; AttemptPhase.ACTIVE;
               AttemptPhase.CLOSING; AttemptPhase.BLOCKED]
            || negb (eqb (attempt_release_dependencies attempt) [])) (core_attempts state);
     any (fun session => differs (view_phase session) SessionPhase.TERMINAL)
         (sessions_sessions (core_sessions state));
     any (fun job => negb (job_release_confirmed state job)) (all_jobs state);
     negb (eqb (unreleased_records state) []);
     negb (eqb (settle_pending (core_settlement state)) []);
     any (fun claim => differs (claim_phase claim) ClaimPhase.COMPLETED)
         (sessions_interrupts (core_sessions state));
     unreleased_children state;
     any (fun group => eqb (group_phase group) GroupPhase.ACQUIRING)
         (sessions_acquisition_groups (core_sessions state));
     any (invocation_pending state) (sessions_invocations (core_sessions state))].
End WithDigests.
