(* ===== verification/Permit.v ===== *)
(** * The permit of a logical turn

    [libs/vs-core/src/vs_core/_turn_permit.py], and [dispatch_until], [retry_limit] and [resent]
    of [_request_ledger.py]. *)

From S2P Require Import Prelude PyFloat Identities Values Requests Records State Control Clock.
From S2P Require Import Samples.

(** [TurnPermit] *)
Record TurnPermit := {
  permit_turn : InvocationRef;
  permit_deadline_at : float
}.
#[export] Instance TurnPermit_dec : EqDecision TurnPermit.
Proof. solve_decision. Defined.
#[export] Instance TurnPermit_eta : Eta TurnPermit := fun r => Build_TurnPermit (permit_turn r)
  (permit_deadline_at r).

(** [_Facts] *)
Record Facts := {
  fact_run : RunState;
  fact_sessions : SessionsState;
  fact_records : RecordsState;
  fact_evaluation : EvaluationState
}.
#[export] Instance Facts_dec : EqDecision Facts.
Proof. solve_decision. Defined.

Definition facts_of (state : CoreState) : Facts :=
  {| fact_run := core_run state; fact_sessions := core_sessions state;
     fact_records := core_records state; fact_evaluation := core_evaluation state |}.

(** [drain_in_force] *)
Definition drain_in_force (run : RunState) (records : RecordsState) : bool :=
  match run_park run with
  | None => false
  | Some park => eqb (run_status run) RunStatus.DRAINING || (park_epoch park =? ledger_epoch records)
  end.

(** [_operator_drain] *)
Definition operator_drain (facts : Facts) : bool :=
  match run_park (fact_run facts) with
  | Some park => negb (park_immediate park) && drain_in_force (fact_run facts) (fact_records facts)
  | None => false
  end.

(** [_own_ref] *)
Definition own_ref (b : RequestBase) (turn : TurnSpec) : InvocationRef :=
  {| iref_session_id := session_session_id (turn_session turn);
     iref_invocation_id := turn_invocation_id turn;
     iref_generation := scope_generation (base_scope b) |}.

(** [_invocation] *)
Definition invocation_of (sessions : SessionsState) (ref : InvocationRef) : option Invocation :=
  next_such (fun row => eqb (inv_invocation row) ref) (sessions_invocations sessions).

(** The dispatch of the invocation's own turn, authorized: past [PREPARED]. *)
Definition dispatch_of (invocation : Invocation) (row : RequestRecord) : bool :=
  match turn_request (rec_request row) with
  | Some turn =>
      eqb turn (inv_turn invocation) && eqb (req_scope (rec_request row)) (inv_scope invocation)
      && negb (eqb (rec_phase row) RequestPhase.PREPARED)
  | None => false
  end.

(** [row.dispatched_in in (None, epoch)] *)
Definition in_epoch (row : RequestRecord) (epoch : Z) : bool :=
  among (rec_dispatched_in row) [None; Some epoch].

(** [_holds] *)
Definition holds (facts : Facts) (invocation : Invocation) : bool :=
  let records := fact_records facts in
  let by_dispatch :=
    any (fun row => dispatch_of invocation row && in_epoch row (ledger_epoch records))
        (ledger_records records) in
  match run_park (fact_run facts) with
  | Some park =>
      if drain_in_force (fact_run facts) records
      then negb (park_immediate park) && among (inv_invocation invocation) (park_admitted_turns park)
      else by_dispatch
  | None => by_dispatch
  end.

(** [_bound] *)
Definition permit_bound (facts : Facts) (invocation : Invocation) : float :=
  match next_such (dispatch_of invocation) (ledger_records (fact_records facts)) with
  | None => until_at (inv_until invocation)
  | Some record => bound_at (turn_bound record (fact_run facts))
  end.

(** [_admitted] *)
Definition admitted (facts : Facts) (live : bool) (invocation : Invocation) : option TurnPermit :=
  if negb (holds facts invocation) then None
  else
    let deadline := permit_bound facts invocation in
    if live && fle deadline (run_now_at (fact_run facts)) then None
    else Some {| permit_turn := inv_invocation invocation; permit_deadline_at := deadline |}.

(** [_lookup]: the loop stops at a reference already seen; every reference it takes up is one
    of an invocation, so [length invocations + 1] rounds suffice. *)
Fixpoint lookup_from (fuel : nat) (facts : Facts) (live : bool) (seen : list InvocationRef)
    (ref : option InvocationRef) : option TurnPermit :=
  match fuel, ref with
  | S fuel, Some ref =>
      if among ref seen then None
      else
        match invocation_of (fact_sessions facts) ref with
        | None => None
        | Some invocation =>
            match admitted facts live invocation with
            | Some permit => Some permit
            | None =>
                lookup_from fuel facts live (ref :: seen) (turn_predecessor (inv_turn invocation))
            end
        end
  | _, _ => None
  end.
Definition lookup_permit (facts : Facts) (live : bool) (ref : option InvocationRef)
    : option TurnPermit :=
  lookup_from (S (length (sessions_invocations (fact_sessions facts)))) facts live [] ref.

(** [_own_holding] *)
Definition own_holding (facts : Facts) (live : bool) (ref : InvocationRef) : option TurnPermit :=
  match invocation_of (fact_sessions facts) ref with
  | None => None
  | Some invocation => admitted facts live invocation
  end.

(** [_turn_anchor] *)
Definition turn_anchor (evaluation : EvaluationState) (turn : TurnSpec) : option InvocationRef :=
  match turn_continuation_id turn with
  | Some continuation_id =>
      option_map cont_invocation
        (next_such (fun row => eqb (cont_continuation_id row) continuation_id)
                   (eval_continuations evaluation))
  | None => turn_predecessor turn
  end.

(** [_for_turn] *)
Definition permit_for_own_turn (facts : Facts) (live : bool) (b : RequestBase) (turn : TurnSpec)
    : option TurnPermit :=
  let own := own_ref b turn in
  if negb (operator_drain facts) then own_holding facts live own
  else
    match lookup_permit facts live (Some own) with
    | Some permit => Some permit
    | None => lookup_permit facts live (turn_anchor (fact_evaluation facts) turn)
    end.

(** [_permit_for_turn] *)
Definition permit_for_asker (facts : Facts) (live : bool) (ref : option InvocationRef)
    : option TurnPermit :=
  match ref with
  | None => None
  | Some named =>
      if negb (operator_drain facts) then own_holding facts live named
      else lookup_permit facts live ref
  end.

(** [_for_session] *)
Fixpoint permit_for_session (facts : Facts) (live : bool) (session_id : SessionId)
    (invocations : list Invocation) : option TurnPermit :=
  match invocations with
  | [] => None
  | invocation :: rest =>
      if negb (eqb (session_session_id (turn_session (inv_turn invocation))) session_id)
      then permit_for_session facts live session_id rest
      else
        match lookup_permit facts live (turn_predecessor (inv_turn invocation)) with
        | Some permit => Some permit
        | None => permit_for_session facts live session_id rest
        end
  end.

(** [_for_command] *)
Definition permit_of_command (facts : Facts) (live : bool) (command : Command)
    : option TurnPermit :=
  match command with
  | RequestTurn _ turn => lookup_permit facts live (turn_anchor (fact_evaluation facts) turn)
  | Operation _ request _ _ =>
      match oprequest_renders request with
      | Some continuation_of => lookup_permit facts live continuation_of
      | None => None
      end
  | _ => None
  end.

(** [_for_operation] *)
Definition permit_for_operation (facts : Facts) (live : bool) (request_id : option RequestId)
    : option TurnPermit :=
  match request_id with
  | None => None
  | Some identity =>
      match next_such (fun row => among identity (receipt_request_ids row))
                      (run_receipts (fact_run facts)) with
      | None => None
      | Some receipt =>
          match receipt_decision receipt with
          | None => None
          | Some command => permit_of_command facts live command
          end
      end
  end.

(** [_for_request] *)
Definition for_request (facts : Facts) (live : bool) (request : Request) : option TurnPermit :=
  match request with
  | DispatchTurn b turn _ _ | ResumeSessionTurn b turn _ _ _ _ =>
      permit_for_own_turn facts live b turn
  | SubmitMeasurement b _ _ _ requested_by =>
      if is_none (base_decision_id b) then permit_for_asker facts live requested_by
      else None
  | EnsureSession _ spec _ =>
      if negb (operator_drain facts) then None
      else permit_for_session facts live (session_session_id spec)
             (sessions_invocations (fact_sessions facts))
  | ExecuteRegisteredOperation b _ _ _ _ =>
      if negb (operator_drain facts) then None
      else permit_for_operation facts live (base_request_id b)
  | _ => None
  end.

(** [permit_for_request], [permit_for_command] and [invocation_permit] *)
Definition permit_for_request (state : CoreState) (request : Request) : option TurnPermit :=
  for_request (facts_of state) true request.
Definition permit_for_command (state : CoreState) (command : Command) : option TurnPermit :=
  permit_of_command (facts_of state) true command.
Definition invocation_permit (state : CoreState) (ref : InvocationRef) : option TurnPermit :=
  lookup_permit (facts_of state) true (Some ref).

(** [turn_executing] *)
Definition turn_executing (turn : Invocation) (records : RecordsState) : bool :=
  among (inv_phase turn) [SessionPhase.EXECUTING; SessionPhase.UNKNOWN]
  && any (dispatch_of turn) (ledger_records records).

(** [scope_in_flight] *)
Definition scope_in_flight (sessions : SessionsState) (records : RecordsState) (scope : Scope)
    : bool :=
  any (fun turn => eqb (inv_scope turn) scope && turn_executing turn records)
      (sessions_invocations sessions).

(** [admitted_work_remains] *)
Definition admitted_work_remains (state : CoreState) (running : bool) : bool :=
  if running then true
  else if any (fun row => phase_open (rec_phase row)) (rows_of state) then true
  else any (fun job => negb (job_is_terminal job))
         (map Owned (eval_jobs (core_evaluation state))
          ++ map RegisteredOwned (eval_registered_jobs (core_evaluation state))).

(** ** Caps *)

(** The limit from dispatch of a record capped at [deadline] *)
Definition capped_limit (now_at deadline : float) (limit : option float) : option float :=
  option_map (fun limit => fmin limit (fmax (fsub deadline now_at) fzero)) limit.

(** One record of [cap_open_records]: the record capped, and the deadline it took *)
Definition cap_record (now_at : float) (deadline_of : RequestRecord -> option float)
    (row : RequestRecord) : RequestRecord * option float :=
  if negb (phase_open (rec_phase row)) then (row, None)
  else
    match deadline_of row with
    | None => (row, None)
    | Some deadline =>
        if fle (until_at (rec_until row)) deadline then (row, None)
        else
          (row <| rec_until := (rec_until row) <| until_at := deadline |> |>
               <| rec_limit_from_dispatch :=
                    capped_limit now_at deadline (rec_limit_from_dispatch row) |>,
           Some deadline)
    end.

(** [capped.get(request_id)]: the last record of the identity that was capped *)
Definition capped_at (capped : list (RequestId * float)) (request_id : option RequestId)
    : option float :=
  fold_left (fun held item => if eqb (Some (fst item)) request_id then Some (snd item) else held)
            capped None.

Definition cap_call (capped : list (RequestId * float)) (call : AgentCall) : AgentCall :=
  match capped_at capped (call_request_id call), call_deadline_at call with
  | Some deadline, Some held => if fle held deadline then call else call <| call_deadline_at := Some deadline |>
  | _, _ => call
  end.

(** [cap_open_records] *)
Definition cap_open_records (state : CoreState) (deadline_of : RequestRecord -> option float)
    : CoreState :=
  let rows := map (cap_record (run_now_at (core_run state)) deadline_of) (rows_of state) in
  let capped :=
    omap (fun '(row, deadline) => option_map (fun at_ => (rec_request_id row, at_)) deadline) rows in
  let calls := map (cap_call capped) (eval_agent_calls (core_evaluation state)) in
  (with_rows state (map fst rows))
    <| core_evaluation := (core_evaluation state) <| eval_agent_calls := calls |> |>.

(** [cap_to_permits] *)
Definition cap_to_permits (state : CoreState) : CoreState :=
  cap_open_records state (fun row =>
    option_map permit_deadline_at (for_request (facts_of state) false (rec_request row))).

(** [cap_dispatch_until] *)
Definition cap_dispatch_until (facts : Facts) (request : Request) (at_ : float) : float :=
  match for_request facts false request with
  | None => at_
  | Some permit => fmin at_ (permit_deadline_at permit)
  end.

(** ** Limits of a dispatch ([_request_ledger.py]) *)

(** [dispatch_until] *)
Definition dispatch_until (facts : Facts) (record : RequestRecord) : Until :=
  match rec_limit_from_dispatch record with
  | None => rec_until record
  | Some limit =>
      let until := started_until (fact_run facts) limit (until_watches (rec_until record)) in
      until <| until_at := cap_dispatch_until facts (rec_request record) (until_at until) |>
  end.

(** [retry_limit] *)
Definition retry_limit (run : RunState) (request : Request) : Z :=
  match request with
  | ExecuteRegisteredOperation _ _ _ retry_limit _ => retry_limit
  | _ => retries_limit (limits_request_retries (run_limits run))
  end.

(** [resent] *)
Definition resent (record : RequestRecord) (now_at reconciliation_bound : float) : RequestRecord :=
  let until := rec_until record in
  let until :=
    if command_open record
    then until <| until_at := fmax (until_at until) (fadd now_at reconciliation_bound) |>
    else until in
  record <| rec_phase := RequestPhase.PREPARED |> <| rec_observation := None |>
         <| rec_sequence := None |> <| rec_retry_at := None |> <| rec_until := until |>.

(** ** The lookup of a permit *)

Section Lookup.
Variable facts : Facts.
Variable live : bool.

(** The permit a reference draws on: that of the first invocation of its chain of predecessors
    that is admitted, after so many steps. *)
Inductive grants : nat -> InvocationRef -> TurnPermit -> Prop :=
  | grants_own ref invocation permit :
      invocation_of (fact_sessions facts) ref = Some invocation ->
      admitted facts live invocation = Some permit -> grants 0 ref permit
  | grants_next n ref invocation previous permit :
      invocation_of (fact_sessions facts) ref = Some invocation ->
      admitted facts live invocation = None ->
      turn_predecessor (inv_turn invocation) = Some previous ->
      grants n previous permit -> grants (S n) ref permit.

Lemma grants_unique n ref permit :
  grants n ref permit -> forall m permit', grants m ref permit' -> n = m /\ permit = permit'.
Proof.
  induction 1 as [ref invocation permit Hinv Had|n ref invocation previous permit Hinv Had Hpre _ IH];
    intros m permit' Hg; inversion Hg; simplify_eq; [done|].
  split; [f_equal|]; by eapply IH.
Qed.

(** The references a chain takes up are distinct references of invocations. *)
Lemma grants_length n ref permit :
  grants n ref permit -> (n < length (sessions_invocations (fact_sessions facts)))%nat.
Proof.
  intros Hg. set (refs := map inv_invocation (sessions_invocations (fact_sessions facts))).
  assert (exists l, length l = S n /\ NoDup l /\ l ⊆ refs
    /\ forall r, r ∈ l -> exists m, (m <= n)%nat /\ grants m r permit) as (l & Hlen & Hnd & Hsub & _).
  { assert (Hin : forall r invocation, invocation_of (fact_sessions facts) r = Some invocation -> r ∈ refs).
    { intros r invocation Hinv. apply next_such_Some in Hinv as [Hin <-%eqb_eq].
      by apply list_elem_of_fmap_2. }
    induction Hg as [ref invocation permit Hinv Had|n ref invocation previous permit Hinv Had Hpre Hg IH].
    - exists [ref]. split; [done|]. split; [apply NoDup_singleton|]. split.
      + intros r ->%list_elem_of_singleton. by eapply Hin.
      + intros r ->%list_elem_of_singleton. exists 0%nat. split; [done|]. by econstructor.
    - destruct IH as (l & Hlen & Hnd & Hsub & Hl). exists (ref :: l).
      split; [simpl; by rewrite Hlen|]. split; [|split].
      + apply NoDup_cons. split; [|done]. intros (m & Hm & Hg')%Hl.
        assert (grants (S n) ref permit) as Hg'' by by econstructor.
        destruct (grants_unique _ _ _ Hg'' _ _ Hg'). lia.
      + intros r [->|Hr]%elem_of_cons; [by eapply Hin|by apply Hsub].
      + intros r [->|Hr]%elem_of_cons; [exists (S n); split; [done|by econstructor]|].
        destruct (Hl r Hr) as (m & ? & ?). exists m. split; [lia|done]. }
  assert (length l <= length refs)%nat as Hle
    by (by apply submseteq_length, NoDup_submseteq).
  unfold refs in Hle. rewrite length_map in Hle. lia.
Qed.

Lemma lookup_from_grants fuel : forall n ref permit seen,
  grants n ref permit -> (n < fuel)%nat ->
  (forall r, r ∈ seen -> exists m, (n < m)%nat /\ grants m r permit) ->
  lookup_from fuel facts live seen (Some ref) = Some permit.
Proof.
  induction fuel as [|fuel IH]; intros n ref permit seen Hg Hlt Hseen; [lia|]. simpl.
  destruct (among ref seen) eqn:Hin.
  { apply among_true, Hseen in Hin as (m & Hm & Hg'). destruct (grants_unique _ _ _ Hg _ _ Hg'). lia. }
  inversion Hg as [? invocation ? Hinv Had|k ? invocation previous ? Hinv Had Hpre Hg']; subst;
    rewrite Hinv, Had; [done|]. rewrite Hpre. apply (IH k); [done|lia|].
  intros r [->|Hr]%elem_of_cons; [exists (S k); split; [lia|exact Hg]|].
  destruct (Hseen r Hr) as (m & ? & ?). exists m. split; [lia|done].
Qed.

Lemma lookup_from_sound fuel : forall seen ref permit,
  lookup_from fuel facts live seen (Some ref) = Some permit -> exists n, grants n ref permit.
Proof.
  induction fuel as [|fuel IH]; intros seen ref permit; simpl; [done|].
  destruct (among ref seen); [done|].
  destruct (invocation_of (fact_sessions facts) ref) as [invocation|] eqn:Hinv; [|done].
  destruct (admitted facts live invocation) as [own|] eqn:Had.
  - intros [= <-]. exists 0%nat. by econstructor.
  - destruct (turn_predecessor (inv_turn invocation)) as [previous|] eqn:Hpre; [|by destruct fuel].
    intros E. destruct (IH _ _ _ E) as [n Hn]. exists (S n). by econstructor.
Qed.
End Lookup.

(** A turn's permit is that of the nearest admitted turn it continues.  The walk over
    predecessors always ends (a cycle of predecessors grants nothing, and the rounds it is given
    are enough), and finds exactly the permit of the first invocation on the chain that is
    admitted: one the drain or its own dispatch admits and, when asked live, whose limit has
    not passed. *)
Theorem lookup_permit_nearest facts live ref permit :
  lookup_permit facts live (Some ref) = Some permit <-> exists n, grants facts live n ref permit.
Proof.
  unfold lookup_permit. split; [apply lookup_from_sound|]. intros [n Hg].
  apply (lookup_from_grants _ _ _ n); [done| |by intros r ?%not_elem_of_nil].
  apply grants_length in Hg. lia.
Qed.

(** ** Caps *)

(** [row'] is [row] with a limit no later, and with [row]'s own identity, request and phase. *)
Definition capped_of (row row' : RequestRecord) : Prop :=
  rec_request_id row' = rec_request_id row /\ rec_request row' = rec_request row
  /\ rec_phase row' = rec_phase row
  /\ (is_nan (until_at (rec_until row)) = false ->
      fle (until_at (rec_until row')) (until_at (rec_until row)) = true).

Lemma cap_record_capped now_at deadline_of row :
  (forall d, deadline_of row = Some d -> is_nan d = false) ->
  capped_of row (fst (cap_record now_at deadline_of row))
  /\ (phase_open (rec_phase row) = true -> is_nan (until_at (rec_until row)) = false ->
      forall d, deadline_of row = Some d ->
      fle (until_at (rec_until (fst (cap_record now_at deadline_of row)))) d = true)
  /\ (phase_open (rec_phase row) = false \/ deadline_of row = None ->
      fst (cap_record now_at deadline_of row) = row).
Proof.
  intros Hnan. unfold cap_record, capped_of.
  destruct (phase_open (rec_phase row)) eqn:Hopen; simpl.
  2: { split_and!; try done. apply fle_refl. }
  destruct (deadline_of row) as [d|]; simpl.
  2: { split_and!; try done. apply fle_refl. }
  specialize (Hnan d eq_refl). destruct (fle (until_at (rec_until row)) d) eqn:Hle; simpl.
  - split_and!; try done; [apply fle_refl|]. by intros _ _ ? [= <-].
  - split_and!; try done; [|intros _ _ ? [= <-]; by apply fle_refl|by intros [|]].
    intros Hrow. by apply flt_fle, not_fle_flt.
Qed.

(** A cap only shortens.  [cap_open_records] keeps the identity, the request and the phase
    of every record, moves no limit later, brings the limit of every open record the rule names
    a deadline for within it, and leaves the others as they are; no agent call's deadline moves
    later either. *)
Theorem cap_only_shortens state deadline_of :
  (forall row d, row ∈ rows_of state -> deadline_of row = Some d -> is_nan d = false) ->
  let after := cap_open_records state deadline_of in
  Forall2 (fun row row' =>
      capped_of row row'
      /\ (phase_open (rec_phase row) = true -> is_nan (until_at (rec_until row)) = false ->
          forall d, deadline_of row = Some d -> fle (until_at (rec_until row')) d = true)
      /\ (phase_open (rec_phase row) = false \/ deadline_of row = None -> row' = row))
    (rows_of state) (rows_of after)
  /\ Forall2 (fun call call' => call_call_id call' = call_call_id call
        /\ forall at_, call_deadline_at call = Some at_ -> is_nan at_ = false ->
           (forall at', call_deadline_at call' = Some at' -> is_nan at' = false) ->
           exists at', call_deadline_at call' = Some at' /\ fle at' at_ = true)
      (eval_agent_calls (core_evaluation state)) (eval_agent_calls (core_evaluation after)).
Proof.
  intros Hnan after. split.
  - change (rows_of after) with
      (map fst (map (cap_record (run_now_at (core_run state)) deadline_of) (rows_of state))).
    rewrite map_map. revert Hnan. generalize (rows_of state). intros l Hnan.
    induction l as [|row l IH]; simpl; constructor.
    + apply cap_record_capped. intros d. apply Hnan. by left.
    + apply IH. intros r d Hr. apply Hnan. by right.
  - unfold after, cap_open_records. simpl. set (capped := omap _ _). clearbody capped.
    induction (eval_agent_calls (core_evaluation state)) as [|call calls IH]; simpl; constructor; [|done].
    unfold cap_call. destruct (capped_at capped (call_request_id call)) as [deadline|].
    2: { split; [done|]. intros at_ Hat Hn _. exists at_. split; [done|by apply fle_refl]. }
    destruct (call_deadline_at call) as [held|] eqn:Hheld; [|by split].
    destruct (fle held deadline) eqn:Hle; simpl.
    + split; [done|]. intros at_ [= <-] Hn _. exists held. split; [done|by apply fle_refl].
    + split; [done|]. intros at_ [= <-] Hn Hn'. exists deadline. split; [done|].
      apply flt_fle, not_fle_flt; auto.
Qed.

Lemma cap_only_shortens_witness :
  let after := cap_open_records sample_running (fun _ => Some (seconds 100)) in
  Forall2 capped_of (rows_of sample_running) (rows_of after)
  /\ Forall (fun row => until_at (rec_until row) = seconds 100) (rows_of after).
Proof.
  split; [|vm_compute; by repeat constructor].
  destruct (cap_only_shortens sample_running (fun _ => Some (seconds 100))) as [Hrows _].
  - intros row d _ [= <-]. reflexivity.
  - eapply Forall2_impl; [exact Hrows|]. intros row row' [Hcap _]. exact Hcap.
Defined.
