(* ===== verification/Order.v ===== *)
(** * Which steps may run beside which, what ends a wait, and who hears a failure

    [libs/vs-core/src/vs_core/]: [_scope_order.py], [_watches.py], [_failure_routing.py] and
    [_recovery_unanswered.py]. *)

From S2P Require Import Prelude PyFloat Identities Values Requests Records State Control Samples.

(** ** Scope order *)

(** [_has_running_attempt], which [_decide._running] and [_run_park._attempt_running] also are *)
Definition running (state : CoreState) (record : RequestRecord) : bool :=
  match attempts_of (core_steps state) (rec_request_id record) with
  | Some attempts => negb (row_ended attempts)
  | None => false
  end.

(** The dependencies of the records of [current], in ledger order. *)
Definition dependencies (state : CoreState) (current : RequestId) : list RequestId :=
  flat_map (fun row => req_depends_on (rec_request row)) (find (core_records state) (Some current)).

(** [_follows]' worklist: [pending.pop()] takes the last element, [extend] appends.  Only an
    identity not yet seen adds dependencies, and only one of a ledger record has any, so the
    fuel below covers every pop. *)
Fixpoint follows_from (fuel : nat) (state : CoreState) (tag : RequestId) (seen : list RequestId)
    (pending : list RequestId) : option bool :=
  match fuel, rev pending with
  | _, [] => Some false
  | O, _ => None
  | S fuel, current :: rest =>
      let pending := rev rest in
      if eqb current tag then Some true
      else if among current seen then follows_from fuel state tag seen pending
      else follows_from fuel state tag (current :: seen) (pending ++ dependencies state current)
  end.

Definition follows_fuel (state : CoreState) (record : RequestRecord) : nat :=
  length (req_depends_on (rec_request record))
  + length (flat_map (fun row => req_depends_on (rec_request row)) (rows_of state)).

(** [_follows] *)
Definition follows (state : CoreState) (record : RequestRecord) (tag : RequestId) : bool :=
  default false (follows_from (follows_fuel state record) state tag []
                              (req_depends_on (rec_request record))).

(** The open records of [record]'s scope other than [record] *)
Definition sibling (record row : RequestRecord) : bool :=
  is_open row && negb (eqb (rec_request_id row) (rec_request_id record))
  && eqb (req_scope (rec_request row)) (req_scope (rec_request record)).

(** [holds_back] *)
Definition holds_back (state : CoreState) (record : RequestRecord) : bool :=
  let effect row := request_effect (rec_request row) (core_registry state) in
  let siblings := List.filter (sibling record) (rows_of state) in
  match effect record with
  | StepEffect.NEITHER => false
  | StepEffect.CLOSES => any (fun row => negb (follows state row (rec_request_id record))) siblings
  | StepEffect.SNAPSHOTS =>
      any (fun row => eqb (effect row) StepEffect.WRITES
                      && negb (follows state row (rec_request_id record))) siblings
  | StepEffect.WRITES =>
      any (fun row => eqb (effect row) StepEffect.SNAPSHOTS && running state row) siblings
  end.

(** [withdrawn_by_close] *)
Definition withdrawn_by_close (state : CoreState) (record : RequestRecord) : bool :=
  if negb (eqb (request_close_policy (rec_request record) (core_registry state)) ClosePolicy.WITHDRAW)
  then false
  else
    any (fun row =>
           sibling record row
           && eqb (request_effect (rec_request row) (core_registry state)) StepEffect.CLOSES
           && negb (follows state record (rec_request_id row))) (rows_of state).

(** ** Watches *)

(** [_workspace_open] *)
Definition workspace_open (state : CoreState) (workspace : AttemptRef) : bool :=
  any (fun attempt =>
         eqb (attempt_attempt_id attempt) (aref_attempt_id workspace)
         && (attempt_generation attempt =? aref_generation workspace)
         && is_none (attempt_closure attempt)
         && among (attempt_phase attempt) [AttemptPhase.ACQUIRING; AttemptPhase.ACTIVE])
      (core_attempts state).

(** [_job_gone] *)
Definition job_gone (state : CoreState) (watched : ResourceId) : bool :=
  any (fun job => eqb (job_resource job) (Some watched)
                  && (job_is_terminal job || job_is_released job))
      (map Owned (eval_jobs (core_evaluation state))
       ++ map RegisteredOwned (eval_registered_jobs (core_evaluation state))).

(** [fired] *)
Definition fired (state : CoreState) (watch : Watch) : option FailureReason :=
  match watch with
  | WhileOpen workspace =>
      if workspace_open state workspace then None else Some FailureReason.WORKSPACE_CLOSED
  | WhileAlive watched => if job_gone state watched then Some FailureReason.OWNER_GONE else None
  end.

(** [fired_watch] *)
Fixpoint first_fired (state : CoreState) (watches : list Watch) : option (Watch * FailureReason) :=
  match watches with
  | [] => None
  | watch :: rest =>
      match fired state watch with
      | Some reason => Some (watch, reason)
      | None => first_fired state rest
      end
  end.
Definition fired_watch (state : CoreState) (record : RequestRecord)
    : option (Watch * FailureReason) :=
  first_fired state (until_watches (rec_until record)).

(** ** Who hears a failure *)

Module FailureHearer.
Inductive FailureHearer : Set := DECISION | OWNING_AREA.
End FailureHearer.
Abbreviation FailureHearer := FailureHearer.FailureHearer.
#[export] Instance FailureHearer_dec : EqDecision FailureHearer.
Proof. solve_decision. Defined.

(** [failure_hearer] *)
Definition failure_hearer (request : Request) : FailureHearer :=
  match request with
  | EnsureWorkspace _ _ _ | RestoreRevision _ _ _ | SnapshotAndRetain _ _ _ _
  | RetainRevision _ _ _ _ | DiscardWorkspace _ _ | CloseAttemptScope _ _ | EnsureSession _ _ _
  | DispatchTurn _ _ _ _ | CloseSession _ _ _ _ | ResumeSessionTurn _ _ _ _ _ _
  | SnapshotAndRetainRun _ _ _ | SubmitMeasurement _ _ _ _ _ | AdoptRevision _ _ _
  | VerifyAdoption _ _ | ExecuteRegisteredOperation _ _ _ _ _ => FailureHearer.DECISION
  | ObserveOwnedJob _ _ | InspectOwnedJob _ _ | CancelOwnedJob _ _ _ _ | CollectEvidence _ _
  | InspectTurn _ _ _ | CancelTurn _ _ | InspectRequest _ _ _ | CancelOwnedResource _ _ _
  | BlockRequest _ _ _ => FailureHearer.OWNING_AREA
  end.

(** [decision_ended] *)
Definition decision_ended (records : RecordsState) (record : RequestRecord) : bool :=
  match req_decision_id (rec_request record) with
  | None => false
  | Some decision =>
      any (fun row =>
             not_none (rec_failure row)
             && eqb (failure_hearer (rec_request row)) FailureHearer.DECISION
             && eqb (req_decision_id (rec_request row)) (Some decision)
             && negb (eqb (rec_request_id row) (rec_request_id record))) (ledger_records records)
  end.

(** [rows[position] = record] for every position of its identity *)
Definition replace_rows (records : RecordsState) (record : RequestRecord) : RecordsState :=
  records <| ledger_records :=
    foldr (fun position rows => <[position := record]> rows) (ledger_records records)
      (positions records (Some (rec_request_id record))) |>.

(** [hear_failure] *)
Definition hear_failure (records : RecordsState) (record : RequestRecord) (failure : option Failed)
    : RecordsState * list Failed :=
  match failure with
  | None => (records, [])
  | Some failed =>
      let heard :=
        if eqb (failure_hearer (rec_request record)) FailureHearer.DECISION
           && negb (decision_ended records record) then [failed] else [] in
      (replace_rows records (record <| rec_failure := Some failed |>), heard)
  end.

(** [refusal_of] *)
Definition refusal_of (record : RequestRecord) (cause : RejectionCode) : Failed :=
  (failed_of FailureReason.REFUSED (req_decision_id (rec_request record)))
    <| failed_cause := Some cause |>.

(** ** Checks nothing is left to answer *)

Module Inspection.
Inductive Inspection : Set := NONE | ANSWERED | UNREACHABLE.
End Inspection.
Abbreviation Inspection := Inspection.Inspection.
#[export] Instance Inspection_dec : EqDecision Inspection.
Proof. solve_decision. Defined.

Module Settlement.
Inductive Settlement : Set := RESEND | UNKNOWN | TERMINAL | BLOCKED.
End Settlement.
Abbreviation Settlement := Settlement.Settlement.
#[export] Instance Settlement_dec : EqDecision Settlement.
Proof. solve_decision. Defined.

(** [_by_kind] *)
Definition by_kind (record : RequestRecord) (redo : bool) : Settlement :=
  match rec_request record with
  | CancelOwnedJob _ _ _ _ => Settlement.UNKNOWN
  | _ =>
      if eqb (rec_lifecycle record) LifecycleClass.QUERY then
        if redo then Settlement.RESEND else Settlement.UNKNOWN
      else if redo && eqb (rec_lifecycle record) LifecycleClass.IDEMPOTENT_WRITE
      then Settlement.RESEND else Settlement.BLOCKED
  end.

Definition is_adoption (request : Request) : bool :=
  match request with AdoptRevision _ _ _ | VerifyAdoption _ _ => true | _ => false end.

(** [settlement] *)
Definition settlement (record : RequestRecord) (inspection : Inspection)
    (owes_release resendable : bool) : Settlement :=
  if owes_release then Settlement.BLOCKED
  else if eqb (rec_phase record) RequestPhase.BLOCKED then Settlement.TERMINAL
  else
    let redo := resendable && phase_open (rec_phase record) in
    if redo && is_adoption (rec_request record) then Settlement.RESEND
    else if eqb inspection Inspection.UNREACHABLE then Settlement.BLOCKED
    else by_kind record redo.

(** ** The dependency walk decides reachability *)

Section Follows.
Variable state : CoreState.

(** [y] is a dependency of the step [x], as the ledger states it. *)
Definition depends (x y : RequestId) : Prop := y ∈ dependencies state x.

(** What the records not yet seen can still add to the worklist. *)
Definition weight (seen : list RequestId) : nat :=
  length (flat_map (fun row => req_depends_on (rec_request row))
            (filter (fun row => rec_request_id row ∉ seen) (rows_of state))).

Lemma dependencies_filter current :
  dependencies state current
  = flat_map (fun row => req_depends_on (rec_request row))
      (filter (fun row => rec_request_id row = current) (rows_of state)).
Proof. unfold dependencies. by rewrite find_scan. Qed.

Lemma weight_cons current seen :
  current ∉ seen ->
  (weight (current :: seen) + length (dependencies state current) = weight seen)%nat.
Proof.
  intros Hnew. rewrite dependencies_filter. unfold weight.
  induction (rows_of state) as [|row rows IH]; simpl; [done|].
  rewrite !filter_cons.
  destruct (decide (rec_request_id row = current)) as [->|Hne].
  - rewrite decide_False by set_solver. rewrite decide_True by done.
    simpl. rewrite !length_app. lia.
  - destruct (decide (rec_request_id row ∉ seen)) as [Hin|Hin].
    + rewrite decide_True by set_solver. simpl. rewrite !length_app. lia.
    + rewrite decide_False by set_solver. done.
Qed.

Lemma weight_nil :
  weight [] = length (flat_map (fun row => req_depends_on (rec_request row)) (rows_of state)).
Proof.
  unfold weight. f_equal. f_equal.
  induction (rows_of state) as [|row rows IH]; [done|].
  rewrite filter_cons_True by apply not_elem_of_nil. by rewrite IH.
Qed.

Lemma rev_last {A} (l : list A) x rest : rev l = x :: rest -> l = rev rest ++ [x].
Proof. intros E. by rewrite <- (rev_involutive l), E. Qed.

Lemma follows_from_total tag fuel : forall seen pending,
  (length pending + weight seen <= fuel)%nat ->
  exists answer, follows_from fuel state tag seen pending = Some answer.
Proof.
  induction fuel as [|fuel IH]; intros seen pending Hfuel; simpl.
  - destruct pending; [by exists false|simpl in Hfuel; lia].
  - destruct (rev pending) as [|current rest] eqn:Hrev; [by exists false|].
    apply rev_last in Hrev. subst pending. rewrite length_app in Hfuel. simpl in Hfuel.
    destruct (eqb current tag); [by exists true|].
    destruct (among current seen) eqn:Hseen; [apply IH; lia|].
    apply IH. unfold among in Hseen. apply bool_decide_eq_false in Hseen.
    rewrite length_app. pose proof (weight_cons current seen Hseen). lia.
Qed.

Lemma follows_from_sound tag (start : RequestId -> Prop) fuel : forall seen pending,
  (forall x, x ∈ pending -> exists d, start d /\ rtc depends d x) ->
  follows_from fuel state tag seen pending = Some true ->
  exists d, start d /\ rtc depends d tag.
Proof.
  induction fuel as [|fuel IH]; intros seen pending Hpending; simpl.
  - by destruct (rev pending).
  - destruct (rev pending) as [|current rest] eqn:Hrev; [done|].
    apply rev_last in Hrev. subst pending.
    destruct (eqb current tag) eqn:E.
    { apply eqb_eq in E as ->. intros _. apply Hpending. set_solver. }
    destruct (among current seen); apply IH; [set_solver|].
    intros x [Hx|Hx]%elem_of_app; [apply Hpending; set_solver|].
    destruct (Hpending current) as (d & Hd & Hreach); [set_solver|].
    exists d. split; [done|]. by eapply rtc_r.
Qed.

Lemma follows_from_complete tag (start : RequestId -> Prop) fuel : forall seen pending,
  (forall x, start x -> x ∈ seen ++ pending) ->
  (forall x y, x ∈ seen -> depends x y -> y ∈ seen ++ pending) ->
  tag ∉ seen ->
  follows_from fuel state tag seen pending = Some false ->
  ~ exists d, start d /\ rtc depends d tag.
Proof.
  induction fuel as [|fuel IH]; intros seen pending Hstart Hclosed Htag; simpl.
  - destruct pending as [|p pending]; [|by destruct (rev (p :: pending)) eqn:E;
      [apply (f_equal (@length _)) in E; rewrite length_rev in E|]].
    rewrite app_nil_r in Hstart, Hclosed. intros _ (d & Hd & Hreach).
    apply Htag. apply Hstart in Hd. clear Hstart.
    induction Hreach as [|x y z Hxy _ IHr]; [done|]. by apply IHr, (Hclosed x).
  - destruct (rev pending) as [|current rest] eqn:Hrev.
    { apply (f_equal (@rev _)) in Hrev. rewrite rev_involutive in Hrev. simpl in Hrev. subst.
      rewrite app_nil_r in Hstart, Hclosed. intros _ (d & Hd & Hreach).
      apply Htag. apply Hstart in Hd. clear Hstart.
      induction Hreach as [|x y z Hxy _ IHr]; [done|]. by apply IHr, (Hclosed x). }
    apply rev_last in Hrev. subst pending.
    destruct (eqb current tag) eqn:E; [done|]. apply eqb_neq in E.
    destruct (among current seen) eqn:Hseen; unfold among in Hseen.
    + apply bool_decide_eq_true in Hseen. apply IH; [|set_solver|done].
      intros x Hx. specialize (Hstart x Hx). set_solver.
    + apply IH; [intros x Hx; specialize (Hstart x Hx); set_solver| |set_solver].
      intros x y [->|Hx]%elem_of_cons Hxy; [unfold depends in Hxy; set_solver|].
      specialize (Hclosed x y Hx Hxy). set_solver.
Qed.
End Follows.

Lemma follows_rtc state record tag :
  follows state record tag = true <->
  exists d, d ∈ req_depends_on (rec_request record) /\ rtc (depends state) d tag.
Proof.
  unfold follows, follows_fuel.
  destruct (follows_from_total state tag
              (length (req_depends_on (rec_request record))
               + length (flat_map (fun row => req_depends_on (rec_request row)) (rows_of state)))
              [] (req_depends_on (rec_request record))) as [[] E];
    [by rewrite weight_nil| |]; rewrite E; simpl.
  - split; [intros _|done].
    eapply (follows_from_sound state tag (fun d => d ∈ req_depends_on (rec_request record)));
      [|exact E].
    intros x Hx. exists x. split; [done|apply rtc_refl].
  - split; [done|]. intros Hreach. exfalso. revert Hreach.
    eapply (follows_from_complete state tag (fun d => d ∈ req_depends_on (rec_request record)));
      [| | |exact E]; set_solver.
Qed.

(** The walk over a step's dependencies terminates on every ledger, cyclic ones included,
    and says that a step follows another exactly when the other is reachable from one of the
    dependencies it states; the walk's own fuel never runs out. *)
Theorem follows_reachable state record tag :
  (follows state record tag = true <->
   exists d, d ∈ req_depends_on (rec_request record) /\ rtc (depends state) d tag)
  /\ follows_from (follows_fuel state record) state tag [] (req_depends_on (rec_request record))
     = Some (follows state record tag).
Proof.
  split; [apply follows_rtc|]. unfold follows, follows_fuel.
  by destruct (follows_from_total state tag
              (length (req_depends_on (rec_request record))
               + length (flat_map (fun row => req_depends_on (rec_request row)) (rows_of state)))
              [] (req_depends_on (rec_request record))) as [answer ->]; [rewrite weight_nil|].
Qed.

(** ** Replacing a record in the ledger *)

Lemma foldr_insert_length (positions : list nat) record (rows : list RequestRecord) :
  length (foldr (fun p rows => <[p := record]> rows) rows positions) = length rows.
Proof. induction positions as [|p ps IH]; simpl; [done|]. by rewrite length_insert. Qed.

Lemma foldr_insert_lookup (positions : list nat) record (rows : list RequestRecord) i :
  foldr (fun p rows => <[p := record]> rows) rows positions !! i
  = if decide (i ∈ positions) then (fun _ => record) <$> rows !! i else rows !! i.
Proof.
  induction positions as [|p ps IH]; simpl.
  { done. }
  destruct (decide (i = p)) as [->|Hne].
  - rewrite decide_True by left. destruct (rows !! p) as [row|] eqn:E; simpl.
    + apply list_lookup_insert_eq. rewrite foldr_insert_length. by eapply lookup_lt_Some.
    + apply lookup_ge_None. rewrite length_insert, foldr_insert_length. by apply lookup_ge_None.
  - rewrite list_lookup_insert_ne by done. rewrite IH.
    destruct (decide (i ∈ ps)); [rewrite decide_True by (by right)|rewrite decide_False by set_solver];
      done.
Qed.

Definition swap (record row : RequestRecord) : RequestRecord :=
  if decide (rec_request_id row = rec_request_id record) then record else row.

(** Writing a record at every position of its identity replaces exactly the rows it names. *)
Lemma replace_rows_map records record :
  ledger_records (replace_rows records record) = map (swap record) (ledger_records records).
Proof.
  simpl. apply list_eq. intros i. rewrite foldr_insert_lookup, list_lookup_fmap.
  unfold swap. destruct (ledger_records records !! i) as [row|] eqn:E; simpl; [|by case_decide].
  destruct (decide (i ∈ _)) as [Hi|Hi]; rewrite elem_of_indexed in Hi.
  - destruct Hi as (row' & Hrow' & Hid). assert (row' = row) as -> by congruence.
    injection Hid as Hid. by rewrite decide_True.
  - rewrite decide_False; [done|]. intros Hid. apply Hi. exists row. by rewrite Hid.
Qed.

Lemma swap_id record row : rec_request_id (swap record row) = rec_request_id row.
Proof. unfold swap. by case_decide. Qed.

Lemma find_replace_other records record tag :
  rec_request_id record <> tag ->
  find (replace_rows records record) (Some tag) = find records (Some tag).
Proof.
  intros Hne. rewrite !find_scan, replace_rows_map.
  induction (ledger_records records) as [|row rows IH]; simpl; [done|].
  rewrite !filter_cons, IH, swap_id. case_decide; [|done].
  unfold swap. by rewrite decide_False by congruence.
Qed.

Lemma find_replace_same records record :
  find (replace_rows records record) (Some (rec_request_id record))
  = map (fun _ => record) (find records (Some (rec_request_id record))).
Proof.
  rewrite !find_scan, replace_rows_map.
  induction (ledger_records records) as [|row rows IH]; simpl; [done|].
  rewrite !filter_cons, IH, swap_id. case_decide; [|done].
  simpl. unfold swap. by rewrite decide_True.
Qed.

Lemma elem_of_replace records record row :
  row ∈ ledger_records (replace_rows records record) <->
  (row = record /\ exists old, old ∈ ledger_records records /\ rec_request_id old = rec_request_id record)
  \/ (row ∈ ledger_records records /\ rec_request_id row <> rec_request_id record).
Proof.
  rewrite replace_rows_map, list_elem_of_fmap. unfold swap. split.
  - intros (old & -> & Hold). case_decide; [left; eauto|by right].
  - intros [(-> & old & Hold & Hid)|[Hrow Hne]].
    + exists old. by rewrite decide_True.
    + exists row. by rewrite decide_False.
Qed.

(** ** Failures *)

(** A decision hears of its ending once.  After a request of a decision ended with a failure
    that the decision hears of, no other request of the same decision tells it of a failure,
    whatever both failures are, while the record itself still takes the failure. *)
Theorem decision_hears_once records first second decision failure failure' :
  first ∈ ledger_records records ->
  rec_request_id first <> rec_request_id second ->
  failure_hearer (rec_request first) = FailureHearer.DECISION ->
  req_decision_id (rec_request first) = Some decision ->
  req_decision_id (rec_request second) = Some decision ->
  let after := fst (hear_failure records first (Some failure)) in
  snd (hear_failure after second (Some failure')) = []
  /\ forall row, row ∈ find (fst (hear_failure after second (Some failure')))
                         (Some (rec_request_id second)) -> rec_failure row = Some failure'.
Proof.
  intros Hfirst Hne Hhearer Hd1 Hd2 after.
  assert (Hended : decision_ended after second = true).
  { unfold decision_ended. rewrite Hd2. apply any_true.
    exists (first <| rec_failure := Some failure |>). split.
    - apply elem_of_replace. left. split; [done|]. by exists first.
    - simpl. rewrite Hhearer, Hd1. unfold eqb, not_none. simpl.
      rewrite !bool_decide_true by done. simpl. by rewrite bool_decide_false. }
  unfold hear_failure. rewrite Hended, andb_false_r. cbn [fst snd]. split; [done|].
  intros row Hrow. set (told := second <| rec_failure := Some failure' |>) in *.
  change (rec_request_id second) with (rec_request_id told) in Hrow.
  rewrite find_replace_same in Hrow. apply list_elem_of_fmap in Hrow as (? & -> & _). done.
Qed.

(** Recovery sends a request again only when doing so is safe: it owes no release, it is
    still open and of the episode that may send it, and it is an adoption (which converges
    however far the dead host got) or its class is a query or an idempotent write.  An owned
    job and a session turn are never sent again, and nothing whose executor could not be
    reached is, except an adoption. *)
Theorem settlement_resends_safely record inspection owes_release resendable :
  settlement record inspection owes_release resendable = Settlement.RESEND ->
  owes_release = false /\ resendable = true /\ phase_open (rec_phase record) = true /\
  (is_adoption (rec_request record) = true \/
   inspection <> Inspection.UNREACHABLE /\
   (rec_lifecycle record = LifecycleClass.QUERY \/
    rec_lifecycle record = LifecycleClass.IDEMPOTENT_WRITE)).
Proof.
  unfold settlement. destruct owes_release; [done|]. destruct (eqb (rec_phase record) _); [done|].
  destruct resendable; simpl.
  - destruct (phase_open (rec_phase record)); simpl.
    + destruct (is_adoption (rec_request record)); [by intuition|].
      destruct (eqb inspection _) eqn:Hi; [done|]. apply eqb_false in Hi. unfold by_kind.
      destruct (rec_lifecycle record), (rec_request record); simpl; try done; intuition.
    + destruct (eqb inspection _); [done|]. unfold by_kind.
      by destruct (rec_lifecycle record), (rec_request record).
  - destruct (eqb inspection _); [done|]. unfold by_kind.
    by destruct (rec_lifecycle record), (rec_request record).
Qed.

(** ** Witnesses *)

(** A record of a decision's own request. *)
Definition sample_decided (name : string) : RequestRecord :=
  (sample_record name [] RequestPhase.DISPATCHED 500)
    <| rec_request :=
         DiscardWorkspace ((req_base (sample_request name []))
                             <| base_decision_id := Some (MkIdentity "decision") |>) sample_attempt |>.

Lemma decision_hears_once_witness :
  let records := {| ledger_records := [sample_decided "a"; sample_decided "b"]; ledger_epoch := 1 |} in
  let failure := failed_of FailureReason.LOST None in
  let after := fst (hear_failure records (sample_decided "a") (Some failure)) in
  snd (hear_failure after (sample_decided "b") (Some failure)) = [].
Proof.
  apply (decision_hears_once _ (sample_decided "a") (sample_decided "b") (MkIdentity "decision")).
  - left.
  - discriminate.
  - reflexivity.
  - reflexivity.
  - reflexivity.
Defined.

Lemma settlement_resends_safely_witness :
  let record := sample_record "a" [] RequestPhase.DISPATCHED 500 in
  settlement record Inspection.ANSWERED false true = Settlement.RESEND
  /\ phase_open (rec_phase record) = true.
Proof.
  split; [vm_compute; reflexivity|].
  destruct (settlement_resends_safely (sample_record "a" [] RequestPhase.DISPATCHED 500)
    Inspection.ANSWERED false true) as (_ & _ & Hopen & _); [vm_compute; reflexivity|].
  exact Hopen.
Defined.
