(* ===== verification/Answers.v ===== *)
(** * What the shell and the areas tell each other about a request

    [libs/vs-core/src/vs_core/types/]: the answers of executors and the events of the ledger
    ([records.py]), the requests core creates ([Outbound]), and the events the owning areas
    consume ([attempts.py], [sessions.py], [evaluation.py], [settlement.py], [kernel.py]). *)

From S2P Require Import Prelude PyFloat Identities Values Requests Records State.

Local Open Scope string_scope.

Module MeasurementFailure.
Inductive MeasurementFailure : Set := WORKLOAD | INFRASTRUCTURE | AMBIGUOUS | UNKNOWN | RUN_ENVIRONMENT_UNAVAILABLE.
End MeasurementFailure.
Abbreviation MeasurementFailure := MeasurementFailure.MeasurementFailure.
#[export] Instance MeasurementFailure_dec : EqDecision MeasurementFailure.
Proof. solve_decision. Defined.

(** [MeasurementFailure.retryable] *)
Definition failure_retryable (self : MeasurementFailure) : bool :=
  among self [MeasurementFailure.INFRASTRUCTURE; MeasurementFailure.AMBIGUOUS].

Module ReissueProof.
Inductive ReissueProof : Set := NEVER_BEGAN | BEGUN_UNSEALED.
End ReissueProof.
Abbreviation ReissueProof := ReissueProof.ReissueProof.
#[export] Instance ReissueProof_dec : EqDecision ReissueProof.
Proof. solve_decision. Defined.

(** [ScopedAdmissionReopenOutcome.admission] *)
Module Admission.
Inductive Admission : Set := REOPENED | CLOSED | UNKNOWN.
End Admission.
Abbreviation Admission := Admission.Admission.
#[export] Instance Admission_dec : EqDecision Admission.
Proof. solve_decision. Defined.

(** A decoded outcome: its canonical text and, for a [ScopedAdmissionReopenOutcome], what it says
    of the admission. *)
Record Outcome := {
  outcome_content : Canonical;
  outcome_admission : option Admission
}.
#[export] Instance Outcome_dec : EqDecision Outcome.
Proof. solve_decision. Defined.
#[export] Instance Outcome_eta : Eta Outcome := fun r => Build_Outcome (outcome_content r)
  (outcome_admission r).

(** ** Answers *)

(** The fields [RequestObserved] and [TargetObservation] both have: the facts of one answer.
    [facts_registered] is [outcome_is_registered], the codec's proof the value carries. *)
Record Facts := {
  facts_observation : Observation;
  facts_setup_failure : SetupFailureKind;
  facts_revision : option RevisionRef;
  facts_evidence : list EvidenceRef;
  facts_progress : option JobProgress;
  facts_measurement_failure : option MeasurementFailure;
  facts_evaluation_result : option Canonical;
  facts_suspension : option Canonical;
  facts_outcome_schema : option SchemaRef;
  facts_outcome_json : option string;
  facts_reply_errors : list Canonical;
  facts_outcome : option Outcome;
  facts_registered : bool;
  facts_operation_schema : option OperationSchemaRef;
  facts_publication : option AdoptionPublication;
  facts_checkout : option Canonical
}.
#[export] Instance Facts_dec : EqDecision Facts.
Proof. solve_decision. Defined.
#[export] Instance Facts_eta : Eta Facts := fun r => Build_Facts (facts_observation r)
  (facts_setup_failure r) (facts_revision r) (facts_evidence r) (facts_progress r)
  (facts_measurement_failure r) (facts_evaluation_result r) (facts_suspension r)
  (facts_outcome_schema r) (facts_outcome_json r) (facts_reply_errors r) (facts_outcome r)
  (facts_registered r) (facts_operation_schema r) (facts_publication r) (facts_checkout r).

(** [TargetObservation(observation=observation)]: every other field its default *)
Definition facts_of_observation (observation : Observation) : Facts :=
  {| facts_observation := observation; facts_setup_failure := SetupFailureKind.UNKNOWN;
     facts_revision := None; facts_evidence := []; facts_progress := None;
     facts_measurement_failure := None; facts_evaluation_result := None; facts_suspension := None;
     facts_outcome_schema := None; facts_outcome_json := None; facts_reply_errors := [];
     facts_outcome := None; facts_registered := false; facts_operation_schema := None;
     facts_publication := None; facts_checkout := None |}.

Record TargetObservation := {
  target_facts : Facts;
  target_resource : option ResourceId;
  target_reissue : option ReissueProof
}.
#[export] Instance TargetObservation_dec : EqDecision TargetObservation.
Proof. solve_decision. Defined.
#[export] Instance TargetObservation_eta : Eta TargetObservation := fun r => Build_TargetObservation
  (target_facts r) (target_resource r) (target_reissue r).

Record RequestObserved := {
  observed_facts : Facts;
  observed_target : option TargetObservation
}.
#[export] Instance RequestObserved_dec : EqDecision RequestObserved.
Proof. solve_decision. Defined.
#[export] Instance RequestObserved_eta : Eta RequestObserved := fun r => Build_RequestObserved
  (observed_facts r) (observed_target r).

(** [EvaluationTerminalFacts.validate_observation] *)
Definition validate_observation (observation : Observation) : result string unit :=
  ensure (negb (negb (obs_accepted observation) || negb (obs_terminal observation)
                || among (obs_status observation)
                     [ObservationStatus.PENDING; ObservationStatus.UNKNOWN]))
         "evaluation_result".
Definition validate_evaluation (facts : Facts) : result string unit :=
  match facts_evaluation_result facts with
  | None => Ok tt
  | Some _ => validate_observation (facts_observation facts)
  end.

(** A report of progress that is of another answer *)
Definition foreign_progress (progress : option JobProgress) (observation : Observation) : bool :=
  match progress with
  | None => false
  | Some progress =>
      negb (progress_observation_sequence progress =? obs_sequence observation)%Z
      || negb (feq (progress_observed_at progress) (obs_observed_at observation))
  end.

(** [TargetObservation._validate_reissue] *)
Definition validate_reissue (self : TargetObservation) : result string unit :=
  let observation := facts_observation (target_facts self) in
  let owns_nothing := is_none (obs_resource_id observation) && eqb (obs_children observation) []
                      && is_none (target_resource self) in
  match target_reissue self with
  | None => Ok tt
  | Some ReissueProof.NEVER_BEGAN =>
      ensure (eqb (obs_status observation) ObservationStatus.REJECTED && obs_terminal observation
              && negb (obs_accepted observation) && owns_nothing) "reissue"
  | Some ReissueProof.BEGUN_UNSEALED =>
      ensure (eqb (obs_status observation) ObservationStatus.UNKNOWN
              && negb (obs_terminal observation)) "reissue"
  end.

(** [TargetObservation.registered_outcome], before the codec of the registry *)
Definition validate_target (self : TargetObservation) : result string unit :=
  let facts := target_facts self in
  let observation := facts_observation facts in
  let* _ := validate_setup_failure observation (facts_setup_failure facts) in
  let* _ := validate_reissue self in
  let* _ := validate_evaluation facts in
  require* is_none (target_resource self)
           || eqb (obs_resource_id observation) (target_resource self) else "target_resource" in
  require* is_none (target_resource self)
           || (is_none (facts_operation_schema facts) && is_none (facts_outcome_schema facts)
               && is_none (facts_outcome_json facts) && is_none (facts_outcome facts))
    else "target_resource" in
  ensure (negb (foreign_progress (facts_progress facts) observation)) "progress".

(** [RequestObserved.registered_outcome], before the codec of the registry *)
Definition validate_observed (self : RequestObserved) : result string unit :=
  let facts := observed_facts self in
  let* _ := validate_setup_failure (facts_observation facts) (facts_setup_failure facts) in
  validate_evaluation facts.

(** [success_without_reply] *)
Definition success_without_reply (observation : Observation) : bool :=
  obs_terminal observation && obs_accepted observation
  && eqb (obs_status observation) ObservationStatus.SUCCEEDED.

(** [reply_owed], of an answer *)
Definition reply_owed (observation : Observation) (facts : Facts) : bool :=
  success_without_reply observation && is_none (facts_suspension facts)
  && is_none (facts_outcome_json facts).

(** ** Requests core creates *)

Module Attribution.
Inductive Attribution : Set := CAUSE | OWN.
End Attribution.
Abbreviation Attribution := Attribution.Attribution.
#[export] Instance Attribution_dec : EqDecision Attribution.
Proof. solve_decision. Defined.

Inductive OutboundUntil : Set :=
  | UntilWithin (within : Within)
  | UntilInherited
  | UntilAt (until : Until)
  | UntilFromDispatch (until : FromDispatch).

#[export] Instance OutboundUntil_dec : EqDecision OutboundUntil.
Proof. solve_decision. Defined.

Record Outbound := {
  outbound_request : Request;
  outbound_until : OutboundUntil;
  outbound_attribution : Attribution
}.
#[export] Instance Outbound_dec : EqDecision Outbound.
Proof. solve_decision. Defined.
#[export] Instance Outbound_eta : Eta Outbound := fun r => Build_Outbound (outbound_request r)
  (outbound_until r) (outbound_attribution r).

(** [Outbound(request=request, until=until)] *)
Definition outbound (request : Request) (until : OutboundUntil) : Outbound :=
  {| outbound_request := request; outbound_until := until;
     outbound_attribution := Attribution.CAUSE |}.

(** [within] and [inherit] *)
Definition within (request : Request) (limit : float) (watches : list Watch) : Outbound :=
  outbound request (UntilWithin {| within_limit := limit; within_watches := watches |}).
Definition inherit (request : Request) : Outbound := outbound request UntilInherited.

(** ** The events of the ledger *)

Record RequestPrepared := {
  prepared_request : Request;
  prepared_until : Until;
  prepared_lifecycle : LifecycleClass;
  prepared_turn : option TurnSpec;
  prepared_measurement : option Canonical;
  prepared_scope_reopen : option ScopeReopenNormalization
}.
#[export] Instance RequestPrepared_dec : EqDecision RequestPrepared.
Proof. solve_decision. Defined.

Inductive RecordsEvent : Set :=
  | Prepared (event : RequestPrepared)
  | DispatchAuthorized (request_id : RequestId) (now_at : option float)
  | Observed (event : RequestObserved)
  | RetryDue (request_id : RequestId) (now_at : float)
  | RequestUndispatchable (request_id : RequestId)
  | BlockedRecordStalled (request_id : RequestId)
  | OperationRetireRequested (operation_id : OperationId) (generation : Z) (scope : Scope)
  | TurnHeld (invocation_id : InvocationId) (hold : CapacityHold).

#[export] Instance RecordsEvent_dec : EqDecision RecordsEvent.
Proof. solve_decision. Defined.

(** ** What the areas hear *)

(** The signals the modelled reducers send, each class with its fields; a records event is one of
    them.  [operator_diagnostic] and [JobObserved.failure] keep their defaults and are left out. *)
Inductive Signal : Set :=
  | RevisionOperationRequested (request : Request) (authority : RevisionAuthority) (until : Until)
  | RegisteredTurnRequested (request : Request) (turn : TurnSpec) (until : Until)
  | RegisteredJobRequested (request : Request) (resource_pool : PoolId)
      (expected_measurement : option Canonical)
  | TurnObserved (suspension : option Canonical) (invocation : InvocationRef)
      (observation : Observation) (output_schema : option SchemaRef)
      (output_json : option string) (reply_errors : list Canonical)
  | RevisionOperationObserved (operation_id : OperationId) (observation : Observation)
      (revision : option RevisionRef)
  | RegisteredJobObserved (progress : option JobProgress) (operation_id : OperationId)
      (observation : Observation) (evidence : list EvidenceRef) (evaluation_result : option Canonical)
  | ScopeAdmissionReopened (attempt : AttemptRef) (continuation_id : ContinuationId)
      (park_authority : RequestId) (operation_id : OperationId) (observation : Observation)
      (admission : Admission)
  | ReleaseDependencyObserved (attempt : AttemptRef) (dependency : ReleaseDependency)
      (observation : Observation)
  | WorkspaceObserved (attempt : AttemptRef) (observation : Observation)
      (revision : option RevisionRef)
  | SessionObserved (session_id : SessionId) (observation : Observation)
      (failure : SetupFailureKind)
  | RunInvocationCheckpointObserved (invocation : InvocationRef) (checkpoint_request : RequestId)
      (observation : Observation) (revision : option RevisionRef)
  | MeasurementSubmissionObserved (observation : Observation)
      (failure : option MeasurementFailure)
  | JobObserved (progress : option JobProgress) (resource_id : ResourceId)
      (observation : Observation) (evidence : list EvidenceRef) (evaluation_result : option Canonical)
  | AdoptionObserved (observation : Observation) (revision : option RevisionRef)
      (publication : option AdoptionPublication) (checkout : option Canonical)
  | DecisionCompleted (decision_id : DecisionId) (status : CompletionStatus)
  | RegisterAttempt (request : AttemptRequest)
  | AdmitAttempt (request : AdmissionRequest)
  | RunDrained
  | RetireRequested (attempt : AttemptRef) (disposition : ClosureDisposition)
      (authority : RequestId) (admission_id : DecisionId) (requested_at : float)
  | RunJobsCancelRequested (scope : Scope) (authority : DecisionId)
  | RunSessionsDrainRequested (scope : Scope) (authority : DecisionId)
  | ObservationsDue (now_at : float)
  | AdoptionFenceLifted
  | RetentionRequired (attempt : AttemptRef) (retention : SettleRetention)
      (revision : option RevisionRef)
  | ToRecords (event : RecordsEvent).

#[export] Instance Signal_dec : EqDecision Signal.
Proof. solve_decision. Defined.

(** [correlated_progress] of [JobObserved] and of [RegisteredJobObserved] *)
Definition correlated_progress (progress : option JobProgress) (observation : Observation)
    (evaluation_result : option Canonical) : result string unit :=
  require* negb (foreign_progress progress observation) else "progress" in
  match evaluation_result with
  | None => Ok tt
  | Some _ => validate_observation observation
  end.

(** [RunSessionsDrainRequested.run_scope] *)
Definition run_scope_ok (scope : Scope) : result string unit :=
  ensure (negb (is_attempt (scope_owner scope))) "scope.owner".

(** [_validate_run_invocation] and [RunInvocationCheckpointObserved.exact_observation] *)
Definition validate_run_invocation (scope : Scope) (invocation : InvocationRef)
    : result string unit :=
  require* negb (is_attempt (scope_owner scope)) else "scope.owner" in
  ensure (scope_generation scope =? iref_generation invocation)%Z "invocation.generation".
Definition exact_observation (invocation : InvocationRef) (checkpoint_request : RequestId)
    (observation : Observation) : result string unit :=
  let* _ := validate_run_invocation (obs_scope observation) invocation in
  require* eqb (obs_request_id observation) checkpoint_request else "checkpoint_request" in
  ensure (is_none (obs_admission_id observation)) "observation.admission_id".

Record OperationResult := {
  opresult_operation_id : OperationId;
  opresult_observation : Observation;
  opresult_outcome_schema : SchemaRef;
  opresult_operation_schema : OperationSchemaRef;
  opresult_outcome_json : option string;
  opresult_outcome : Outcome
}.
#[export] Instance OperationResult_dec : EqDecision OperationResult.
Proof. solve_decision. Defined.

(** The strategy events the modelled reducers publish *)
Inductive StrategyEvent : Set :=
  | ResultEvent (event : OperationResult)
  | FailedEvent (event : Failed)
  | FeedbackEvent (feedback : DecisionFeedback)
  | AttemptReadyEvent (attempt : AttemptRef) (admission_id : DecisionId)
  | AttemptSettledEvent (settlement : SettlementRow)
  | AdoptionResultEvent (selection : Selection) (observation : Observation)
      (publication : option AdoptionPublication) (checkout : option Canonical)
  | AdoptionFailedEvent (selection : Selection) (reason : AdoptionFailureReason)
      (observation : Observation) (rounds : Z).

#[export] Instance StrategyEvent_dec : EqDecision StrategyEvent.
Proof. solve_decision. Defined.

(** ** What a reducer answers *)

Record AreaChange (S : Type) := {
  change_state : S;
  change_signals : list Signal;
  change_requests : list Outbound;
  change_events : list StrategyEvent
}.
Arguments change_state {S} _.
Arguments change_signals {S} _.
Arguments change_requests {S} _.
Arguments change_events {S} _.
Arguments Build_AreaChange {S} _ _ _ _.
#[export] Instance AreaChange_dec {S} `{EqDecision S} : EqDecision (AreaChange S).
Proof. solve_decision. Defined.
#[export] Instance AreaChange_eta {S} : Eta (AreaChange S) := fun r => Build_AreaChange
  (change_state r) (change_signals r) (change_requests r) (change_events r).

(** [AreaChange(state=state)] *)
Definition only {S} (state : S) : AreaChange S :=
  {| change_state := state; change_signals := []; change_requests := []; change_events := [] |}.

(** ** Errors *)

(** [ContractError] with its path and detail, the contradiction of a closed record, a value's own
    [ContractValidationError], the [OverflowError] of a backoff, the [KeyError] of a table.
    [TooDeep] is not raised by the code: it says the bound on the depth of cancellations was too
    small, which it never is. *)
Inductive LedgerError : Set :=
  | ContractError (path : list string) (detail : string)
  | ClosedRecordContradictionError (request_id : RequestId) (closed : option Observation)
      (answer : Observation)
  | ContractValidationError (field : string)
  | BackoffOverflow
  | StatusKeyError (status : ObservationStatus)
  | TooDeep.

#[export] Instance LedgerError_dec : EqDecision LedgerError.
Proof. solve_decision. Defined.

(** A value whose constructor checks it *)
Definition checked {A} (check : result string unit) (value : A) : result LedgerError A :=
  match check with
  | Ok _ => Ok value
  | Err field => Err (ContractValidationError field)
  end.
