(* ===== verification/Episode.v ===== *)
(** * Whether a prepared request still belongs to its episode

    [libs/vs-core/src/vs_core/_dispatch_episode.py], with the identities an invocation derives for
    requests about itself ([_session_scope.py]).  The identities are injective: the requests of
    two invocations, or two actions on one, never share a name. *)

From Stdlib Require Import Ascii.
From stdpp Require Import pretty.
From S2P Require Import Prelude PyFloat Identities Values Requests Records State Proofs Samples.

Local Open Scope string_scope.

(** ** Identities of an invocation *)

(** [":".join(parts)] *)
Fixpoint join_colons (parts : list string) : string :=
  match parts with
  | [] => ""
  | [part] => part
  | part :: rest => part +:+ ":" +:+ join_colons rest
  end.

(** [encode_identity] *)
Definition encode_identity (namespace : string) (components : list string) : string :=
  namespace +:+ ":"
  +:+ join_colons (map (fun component => pretty (String.length component) +:+ ":" +:+ component)
                       components).

(** [turn_request_id] *)
Definition turn_request_id (ref : InvocationRef) (action : string) : RequestId :=
  MkIdentity (encode_identity "invocation"
    [root (iref_session_id ref); pretty (iref_generation ref); root (iref_invocation_id ref);
     action]).

(** [lost_turn_authority], [lost_turn_cancellation], [write_turn_authority] and
    [yield_authority] *)
Definition lost_turn_authority (ref : InvocationRef) : RequestId := turn_request_id ref "lost".
Definition lost_turn_cancellation (ref : InvocationRef) : RequestId :=
  turn_request_id ref ("cancel:" +:+ root (lost_turn_authority ref)).
Definition write_turn_authority (ref : InvocationRef) : RequestId :=
  turn_request_id ref "retain-write".
Definition yield_authority (ref : InvocationRef) : RequestId := turn_request_id ref "retain-yield".

(** [dispatching_request]: the set of owners, as the distinct ones *)
Definition dispatching_request (records : RecordsState) (invocation : Invocation)
    : option RequestId :=
  match inv_observation invocation with
  | Some observation => Some (obs_request_id observation)
  | None =>
      let owns row :=
        eqb (rec_lifecycle row) LifecycleClass.SESSION_TURN
        && eqb (req_scope (rec_request row)) (inv_scope invocation)
        && (match turn_request (rec_request row) with
            | Some turn => is_none (inv_registered_operation invocation)
                           && eqb turn (inv_turn invocation)
            | None => false
            end
            || match rec_request row with
               | ExecuteRegisteredOperation _ operation_id _ _ _ =>
                   eqb (Some operation_id) (inv_registered_operation invocation)
               | _ => false
               end) in
      match fromkeys [] (map rec_request_id (List.filter owns (ledger_records records))) with
      | [owner] => Some owner
      | _ => None
      end
  end.

(** ** Episodes *)

(** [EpisodeFacts] *)
Record EpisodeFacts := {
  episode_run : RunState;
  episode_attempts : list AttemptView;
  episode_sessions : SessionsState;
  episode_records : RecordsState
}.
#[export] Instance EpisodeFacts_dec : EqDecision EpisodeFacts.
Proof. solve_decision. Defined.

Section Episode.
Context `{Digests}.
Variable state : EpisodeFacts.

(** The attempt a scope names, by identity and generation *)
Definition scope_attempt (scope : Scope) : option AttemptView :=
  next_such (fun attempt => eqb (OwnerAttempt (attempt_attempt_id attempt)) (scope_owner scope)
                            && (attempt_generation attempt =? scope_generation scope)%Z)
            (episode_attempts state).

(** [scope_admission] *)
Definition scope_admission (scope : option Scope) : option DecisionId :=
  match scope with
  | None => None
  | Some scope =>
      if negb (is_attempt (scope_owner scope)) then None
      else match scope_attempt scope with
           | Some owner => attempt_admission_id owner
           | None => None
           end
  end.

(** [retirement_dispatch] *)
Definition retirement_dispatch (request : Request) : bool :=
  match request with
  | InspectRequest _ _ _ | InspectTurn _ _ _ | InspectOwnedJob _ _ | ObserveOwnedJob _ _
  | CancelOwnedResource _ _ _ | CancelTurn _ _ | CancelOwnedJob _ _ _ _ | BlockRequest _ _ _ => true
  | _ => false
  end.

(** [AttemptRef(attempt_id=scope.owner, generation=scope.generation)] *)
Definition scope_target (scope : Scope) : option AttemptRef :=
  match scope_owner scope with
  | OwnerAttempt attempt =>
      Some {| aref_attempt_id := attempt; aref_generation := scope_generation scope |}
  | OwnerRun _ => None
  end.

(** [_episode_recorded] *)
Definition episode_recorded (request : Request) : bool :=
  match scope_target (req_scope request) with
  | None => true
  | Some target =>
      match accepted_receipt_for (run_receipts (episode_run state)) (req_admission_id request) with
      | Proven receipt =>
          let of_run d := eqb (scope_owner (dbase_scope d))
                              (OwnerRun (run_run_id (episode_run state))) in
          match receipt_decision receipt with
          | Some (StartAttempt d attempt_id _ _ _ _) =>
              of_run d && eqb attempt_id (aref_attempt_id target)
              && (scope_generation (dbase_scope d) =? aref_generation target)%Z
          | Some (Operation d _ normalizations _) =>
              of_run d
              && match normalized_scope_reopen normalizations with
                 | Some reopen => eqb (norm_attempt reopen) target
                 | None => false
                 end
          | _ => false
          end
      | _ => false
      end
  end.

(** The attempt of a [CloseAttemptScope], [DiscardWorkspace], [RetainRevision] or
    [SnapshotAndRetain] *)
Definition retired_attempt (request : Request) : option AttemptRef :=
  match request with
  | CloseAttemptScope _ attempt | DiscardWorkspace _ attempt | RetainRevision _ attempt _ _
  | SnapshotAndRetain _ attempt _ _ => Some attempt
  | _ => None
  end.
Definition retires (request : Request) (target : AttemptRef) : bool :=
  match retired_attempt request with
  | Some attempt => eqb attempt target
  | None => true
  end.

(** [_retirement_target_matches], of a [Withdraw] or a [Finish] *)
Definition retirement_target_matches (request : Request) (decision : Command) : bool :=
  if negb (episode_recorded request) then false
  else
    match decision with
    | Finish d mode result =>
        match committed_stop (episode_run state) with
        | Proven held => eqb held (d, mode, result)
        | _ => false
        end
    | Withdraw _ (TargetAttempt target) _ =>
        eqb (req_scope request)
            {| scope_owner := OwnerAttempt (aref_attempt_id target);
               scope_generation := aref_generation target |}
        && retires request target
    | Withdraw _ (TargetInvocation target) _ =>
        any (fun invocation => eqb (inv_invocation invocation) target
                               && eqb (inv_scope invocation) (req_scope request))
            (sessions_invocations (episode_sessions state))
    | Withdraw _ (TargetOperation operation_id _) _ =>
        any (fun record =>
               match rec_request record with
               | ExecuteRegisteredOperation _ own _ _ _ =>
                   eqb own operation_id
                   && eqb (req_scope (rec_request record)) (req_scope request)
               | _ => false
               end) (ledger_records (episode_records state))
    | _ => false
    end.

(** [_session_retirement_matches], of the [CloseSession] of [session_id] *)
Definition session_retirement_matches (request : Request) (session_id : SessionId) : bool :=
  if is_attempt (scope_owner (req_scope request))
     && negb (eqb (scope_admission (Some (req_scope request))) (req_admission_id request))
  then false
  else
    any (fun session => eqb (session_session_id (view_spec session)) session_id
                        && eqb (view_scope session) (req_scope request))
        (sessions_sessions (episode_sessions state)).

(** [edge.identity in identities] *)
Definition edge_named (request : Request) (edge : ReleaseDependency) : bool :=
  match edge with
  | DependsOnSession identity =>
      match request with
      | CloseSession _ session_id _ _ => eqb identity session_id
      | _ => false
      end
  | DependsOnOperation identity =>
      match request with
      | ExecuteRegisteredOperation _ operation_id _ _ _ => eqb identity operation_id
      | _ => false
      end
  | DependsOnWorkspace identity | DependsOnRequest identity =>
      eqb (Some identity) (req_request_id request)
  | DependsOnJob _ => false
  end.

(** [_closure_retirement] *)
Definition closure_retirement (request : Request) : bool :=
  match scope_target (req_scope request), scope_attempt (req_scope request) with
  | Some target, Some owner =>
      match attempt_closure owner with
      | None => false
      | Some closure =>
          if negb (eqb (Some (closure_admission_id closure)) (req_admission_id request)) then false
          else if negb (retires request target) then false
          else
            eqb (req_request_id request) (Some (closure_authority closure))
            || any (edge_named request) (attempt_release_dependencies owner)
      end
  | _, _ => false
  end.

(** [registered_retirement] *)
Definition registered_retirement (request : Request) : bool :=
  let closes :=
    match request with
    | ExecuteRegisteredOperation _ _ _ _ _ | CloseAttemptScope _ _ | CloseSession _ _ _ _
    | DiscardWorkspace _ _ | RetainRevision _ _ _ _ | SnapshotAndRetain _ _ _ _ => true
    | _ => false
    end in
  let write :=
    match request with
    | ExecuteRegisteredOperation _ _ operation _ _ =>
        eqb (opschema_lifecycle (wire_schema_ref operation)) LifecycleClass.IDEMPOTENT_WRITE
    | _ => true
    end in
  let decision_authority :=
    match accepted_receipt_for (run_receipts (episode_run state)) (req_decision_id request) with
    | Proven receipt =>
        match receipt_decision receipt with
        | Some (Withdraw _ _ _ as decision) | Some (Finish _ _ _ as decision) =>
            retirement_target_matches request decision
        | _ => false
        end
    | _ => false
    end in
  let unbound :=
    match request with
    | ExecuteRegisteredOperation _ _ _ _ _ | SnapshotAndRetain _ _ _ _ | DiscardWorkspace _ _
    | CloseSession _ _ _ _ => false
    | _ => true
    end in
  closes && write && (decision_authority || closure_retirement request)
  && (unbound || negb (is_attempt (scope_owner (req_scope request)))
      || eqb (scope_admission (Some (req_scope request))) (req_admission_id request))
  && match request with
     | CloseSession _ session_id _ _ => session_retirement_matches request session_id
     | _ => true
     end.

(** [dispatch_episode_current] *)
Definition dispatch_episode_current (request : Request) : bool :=
  if negb (is_attempt (scope_owner (req_scope request))) then true
  else if eqb (request_lifecycle request) LifecycleClass.QUERY || retirement_dispatch request
          || registered_retirement request then true
  else
    match scope_attempt (req_scope request) with
    | None => false
    | Some owner =>
        is_proven (current_admission (Some owner) (req_scope request) (req_admission_id request))
        && among (attempt_phase owner) [AttemptPhase.ACQUIRING; AttemptPhase.ACTIVE]
    end.

(** [_inspection_moot], of the inspection of [target] *)
Definition inspection_moot (target : RequestId) : bool :=
  match record_of (episode_records state) (Some target) with
  | None => false
  | Some record =>
      match rec_observation record with
      | None => false
      | Some observation =>
          eqb (rec_phase record) RequestPhase.COMPLETED
          && eqb (obs_status observation) ObservationStatus.CANCELLED
          && negb (obs_accepted observation) && obs_terminal observation
          && obs_released observation
      end
  end.

(** [_CLEANUP_KINDS] *)
Definition is_cleanup (request : Request) : bool :=
  match request with
  | CloseAttemptScope _ _ | CloseSession _ _ _ _ | DiscardWorkspace _ _ | RetainRevision _ _ _ _
  | SnapshotAndRetain _ _ _ _ => true
  | _ => false
  end.

(** [episode_ended] *)
Definition episode_ended (request : Request) : bool :=
  match request with
  | InspectRequest _ target _ => inspection_moot target
  | _ => negb (is_cleanup request) && negb (dispatch_episode_current request)
  end.
End Episode.

(** ** The identities are injective *)

(** No character of [s] is a colon. *)
Fixpoint colonless (s : string) : bool :=
  match s with
  | "" => true
  | String c s' => negb (eqb c ":"%char) && colonless s'
  end.

Lemma pretty_go_colonless x : forall s, colonless s = true -> colonless (pretty_N_go x s) = true.
Proof.
  induction (N.lt_wf_0 x) as [x _ IH]. intros s Hs.
  assert (x = 0 \/ 0 < x)%N as [->|Hpos] by lia; [by rewrite pretty_N_go_0|].
  rewrite pretty_N_go_step by done. apply IH; [by apply N.div_lt|].
  simpl. rewrite Hs, andb_true_r. unfold pretty_N_char. by repeat case_match.
Qed.

Lemma pretty_colonless (n : nat) : colonless (pretty n) = true.
Proof.
  unfold pretty, pretty_nat, pretty, pretty_N. case_decide; [done|].
  by apply pretty_go_colonless.
Qed.

(** A text is cut at its first colon in one way. *)
Lemma cut_colon a : forall b r s, colonless a = true -> colonless b = true ->
  a +:+ ":" +:+ r = b +:+ ":" +:+ s -> a = b /\ r = s.
Proof.
  induction a as [|c a IH]; intros [|d b] r s Ha Hb E; simpl in *.
  - split; [done|]. by injection E.
  - to_prop. cbn in E. injection E as E _. congruence.
  - to_prop. cbn in E. injection E as E _. congruence.
  - to_prop. cbn in E. injection E as -> E. destruct (IH b r s) as [-> ->]; done.
Qed.

Lemma cut_length a : forall b r s, String.length a = String.length b ->
  a +:+ r = b +:+ s -> a = b /\ r = s.
Proof.
  induction a as [|c a IH]; intros [|d b] r s Hlen E; simpl in *; try done.
  injection Hlen as Hlen. cbn in E. injection E as -> E. destruct (IH b r s) as [-> ->]; done.
Qed.

Lemma append_assoc (a b c : string) : (a +:+ b) +:+ c = a +:+ b +:+ c.
Proof. induction a as [|x a IH]; [done|]. change (String x ((a +:+ b) +:+ c) = String x (a +:+ b +:+ c)). by rewrite IH. Qed.
Lemma append_nil (a : string) : a +:+ "" = a.
Proof. induction a as [|x a IH]; [done|]. change (String x (a +:+ "") = String x a). by rewrite IH. Qed.

Definition component_text (component : string) : string :=
  pretty (String.length component) +:+ ":" +:+ component.

Lemma component_text_app a b r s :
  component_text a +:+ r = component_text b +:+ s -> a = b /\ r = s.
Proof.
  unfold component_text. rewrite !append_assoc. intros E.
  apply cut_colon in E as [Hlen E]; [|apply pretty_colonless..].
  apply (inj pretty) in Hlen. by apply cut_length.
Qed.

Lemma component_text_nonempty a r : component_text a +:+ r <> "".
Proof.
  unfold component_text. intros E. apply (f_equal String.length) in E.
  rewrite !append_assoc in E. revert E. generalize (pretty (String.length a)).
  intros [|]; done.
Qed.

Lemma join_colons_injective xs : forall ys,
  join_colons (map component_text xs) = join_colons (map component_text ys) -> xs = ys.
Proof.
  assert (forall a xs, join_colons (map component_text (a :: xs))
    = component_text a +:+ match xs with [] => "" | _ => ":" +:+ join_colons (map component_text xs) end)
    as Hcons.
  { intros a [|b l]; [|done]. simpl. by rewrite append_nil. }
  induction xs as [|a xs IH]; intros [|b ys]; rewrite ?Hcons; intros E.
  - done.
  - symmetry in E. by apply component_text_nonempty in E.
  - by apply component_text_nonempty in E.
  - apply component_text_app in E as [-> E]. f_equal.
    destruct xs, ys; try done. apply IH. by injection E.
Qed.

(** The identity core derives for a request about an invocation is injective, whatever
    punctuation the parts hold: two components lists encode to one text only when they are equal,
    so two requests share a derived name only when they are the same action on the same
    invocation. *)
Theorem derived_names_differ :
  (forall namespace xs ys, encode_identity namespace xs = encode_identity namespace ys -> xs = ys)
  /\ (forall ref ref' action action',
        turn_request_id ref action = turn_request_id ref' action' -> ref = ref' /\ action = action').
Proof.
  assert (forall namespace xs ys, encode_identity namespace xs = encode_identity namespace ys ->
    xs = ys) as Hinj.
  { intros namespace xs ys E. apply (inj (String.append namespace)) in E. injection E as E.
    by apply join_colons_injective. }
  split; [exact Hinj|]. intros ref ref' action action' E. apply (f_equal root), Hinj in E. injection E as Hs Hg Hi Ha. apply (inj pretty) in Hg. split; [|done].
  destruct ref as [[s] [i] g], ref' as [[s'] [i'] g']. simpl in *. by subst.
Qed.
