(* ===== verification/Forward.v ===== *)
(** * The owner event of a ledgered observation

    [libs/vs-core/src/vs_core/_request_forward.py]: the one typed event that carries the facts of
    an observation to the area that owns its request, chosen by the class of the request; and the
    report of a capacity hold ([_turn_holds.held]). *)

From S2P Require Import Prelude PyFloat Identities Values Requests Records State Answers Proofs.

Local Open Scope string_scope.

(** [RecordsContext] *)
Record RecordsContext := {
  context_run : RunState;
  context_registry : list OperationDescriptor;
  context_attempts : list AttemptView;
  context_sessions : SessionsState;
  context_evaluation : EvaluationState
}.
#[export] Instance RecordsContext_dec : EqDecision RecordsContext.
Proof. solve_decision. Defined.
#[export] Instance RecordsContext_eta : Eta RecordsContext := fun r => Build_RecordsContext
  (context_run r) (context_registry r) (context_attempts r) (context_sessions r)
  (context_evaluation r).

Section Forward.
Variable context : RecordsContext.

(** [declaration], of the operation of an [ExecuteRegisteredOperation] *)
Definition declaration (operation : OperationWire) : result LedgerError OperationDescriptor :=
  let schema := wire_schema_ref operation in
  match List.filter (fun row => eqb (descriptor_kind row) (opschema_kind schema))
                    (context_registry context) with
  | [row] =>
      match descriptor_matches (context_registry context)
              (run_capabilities (context_run context)) (Some operation)
              (opschema_lifecycle schema) (descriptor_normalization row) with
      | Proven descriptor => Ok descriptor
      | _ => Err (ContractError ["operation"] "requires an exact offered declaration")
      end
  | _ => Err (ContractError ["operation"; "kind"] "unregistered or ambiguous operation")
  end.

(** [records_own] *)
Definition records_own (descriptor : OperationDescriptor) : bool :=
  among (descriptor_lifecycle descriptor) [LifecycleClass.QUERY; LifecycleClass.IDEMPOTENT_WRITE]
  && eqb (descriptor_revision_authority descriptor) RevisionAuthority.NONE
  && negb (eqb (descriptor_normalization descriptor) OperationNormalizationKind.SCOPE_REOPEN).

(** The invocations [_invocation] matches *)
Definition carries (request : Request) (row : Invocation) : bool :=
  match request with
  | ExecuteRegisteredOperation _ operation_id _ _ _ =>
      eqb (inv_registered_operation row) (Some operation_id)
      && eqb (inv_scope row) (req_scope request)
  | DispatchTurn _ turn _ _ | ResumeSessionTurn _ turn _ _ _ _ =>
      eqb (inv_turn row) turn && eqb (inv_scope row) (req_scope request)
  | _ => false
  end.

(** [_invocation] *)
Definition invocation_carried (record : RequestRecord) : result LedgerError InvocationRef :=
  match List.filter (carries (rec_request record)) (sessions_invocations (context_sessions context)) with
  | [row] => Ok (inv_invocation row)
  | _ => Err (ContractError ["request_id"] "turn observation needs one canonical invocation")
  end.

(** [turn_of] *)
Definition turn_of (record : RequestRecord) : result LedgerError (option InvocationRef) :=
  let dispatches :=
    match rec_request record with
    | DispatchTurn _ _ _ _ | ResumeSessionTurn _ _ _ _ _ _ => true
    | ExecuteRegisteredOperation _ _ _ _ _ =>
        eqb (rec_lifecycle record) LifecycleClass.SESSION_TURN
    | _ => false
    end in
  if dispatches then let* ref := invocation_carried record in Ok (Some ref) else Ok None.

(** [_output_schema] *)
Definition output_schema (facts : Facts) : option SchemaRef :=
  match facts_outcome_schema facts with
  | Some schema => Some schema
  | None => option_map opschema_outcome_schema (facts_operation_schema facts)
  end.

(** [getattr(decision, "normalized_scope_reopen", None)] of the receipt of a decision *)
Definition reopen_of (decision_id : option DecisionId) : option ScopeReopenNormalization :=
  match next_such (fun row => eqb (Some (receipt_decision_id row)) decision_id)
                  (run_receipts (context_run context)) with
  | None => None
  | Some receipt =>
      match receipt_decision receipt with
      | Some (Operation _ _ normalizations _) => normalized_scope_reopen normalizations
      | _ => None
      end
  end.

(** [_reopened] *)
Definition reopened (request : Request) (operation_id : OperationId) (observation : Observation)
    (facts : Facts) : result LedgerError (list Signal) :=
  match reopen_of (req_decision_id request) with
  | None => Err (ContractError ["operation"] "scope reopen requires its canonical normalization")
  | Some normalization =>
      let stated :=
        match facts_outcome facts with
        | Some outcome => default Admission.UNKNOWN (outcome_admission outcome)
        | None => Admission.UNKNOWN
        end in
      let admission :=
        if negb (eqb (obs_status observation) ObservationStatus.SUCCEEDED)
           || negb (obs_terminal observation)
        then if negb (obs_terminal observation) then Admission.UNKNOWN else Admission.CLOSED
        else stated in
      Ok [ScopeAdmissionReopened (norm_attempt normalization)
            (norm_continuation_id normalization) (norm_park_authority normalization)
            operation_id observation admission]
  end.

(** [_registered] *)
Definition registered_signal (record : RequestRecord) (request : Request)
    (operation_id : OperationId) (operation : OperationWire) (facts : Facts)
    : result LedgerError (list Signal) :=
  let observation := facts_observation facts in
  let* descriptor := declaration operation in
  if eqb (descriptor_normalization descriptor) OperationNormalizationKind.SCOPE_REOPEN
  then reopened request operation_id observation facts
  else if negb (eqb (descriptor_revision_authority descriptor) RevisionAuthority.NONE)
  then Ok [RevisionOperationObserved operation_id observation (facts_revision facts)]
  else
    match descriptor_lifecycle descriptor with
    | LifecycleClass.SESSION_TURN =>
        let* ref := invocation_carried record in
        Ok [TurnObserved (facts_suspension facts) ref observation (output_schema facts)
              (facts_outcome_json facts) (facts_reply_errors facts)]
    | LifecycleClass.OWNED_JOB =>
        let* signal :=
          checked (correlated_progress (facts_progress facts) observation
                     (facts_evaluation_result facts))
            (RegisteredJobObserved (facts_progress facts) operation_id observation
               (facts_evidence facts) (facts_evaluation_result facts)) in
        Ok [signal]
    | _ => Ok []
    end.

(** [_releases] *)
Definition releases (record : RequestRecord) (observation : Observation) : list Signal :=
  if negb (obs_terminal observation) then []
  else
    flat_map (fun owner =>
      if is_none (attempt_closure owner) then []
      else
        omap (fun edge =>
          match edge with
          | DependsOnRequest identity | DependsOnWorkspace identity =>
              if eqb identity (rec_request_id record)
              then Some (ReleaseDependencyObserved
                     {| aref_attempt_id := attempt_attempt_id owner;
                        aref_generation := attempt_generation owner |} edge observation)
              else None
          | _ => None
          end) (attempt_release_dependencies owner)) (context_attempts context).

(** [JobObserved] of the job [observation.resource_id or request.resource_id] *)
Definition job_observed (resource : ResourceId) (facts : Facts) : result LedgerError (list Signal) :=
  let observation := facts_observation facts in
  let* signal :=
    checked (correlated_progress (facts_progress facts) observation (facts_evaluation_result facts))
      (JobObserved (facts_progress facts) (default resource (obs_resource_id observation))
         observation (facts_evidence facts) (facts_evaluation_result facts)) in
  Ok [signal].

(** [SessionObserved] *)
Definition session_observed (session : SessionId) (facts : Facts)
    : result LedgerError (list Signal) :=
  let* signal :=
    checked (validate_setup_failure (facts_observation facts) (facts_setup_failure facts))
      (SessionObserved session (facts_observation facts) (facts_setup_failure facts)) in
  Ok [signal].

(** [_owner_signal] *)
Definition owner_signal (record : RequestRecord) (facts : Facts)
    : result LedgerError (list Signal) :=
  let request := rec_request record in
  let observation := facts_observation facts in
  match request with
  | ExecuteRegisteredOperation _ operation_id operation _ _ =>
      registered_signal record request operation_id operation facts
  | EnsureWorkspace _ attempt _ | RestoreRevision _ attempt _ | SnapshotAndRetain _ attempt _ _
  | RetainRevision _ attempt _ _ | DiscardWorkspace _ attempt | CloseAttemptScope _ attempt =>
      Ok [WorkspaceObserved attempt observation (facts_revision facts)]
  | EnsureSession _ spec _ => session_observed (session_session_id spec) facts
  | CloseSession _ session_id _ _ => session_observed session_id facts
  | DispatchTurn _ _ _ _ | ResumeSessionTurn _ _ _ _ _ _ =>
      if reply_owed observation facts then Ok []
      else
        let* ref := invocation_carried record in
        Ok [TurnObserved (facts_suspension facts) ref observation (facts_outcome_schema facts)
              (facts_outcome_json facts) (facts_reply_errors facts)]
  | SnapshotAndRetainRun _ invocation _ =>
      let* signal :=
        checked (exact_observation invocation (obs_request_id observation) observation)
          (RunInvocationCheckpointObserved invocation (obs_request_id observation) observation
             (facts_revision facts)) in
      Ok [signal]
  | SubmitMeasurement _ _ _ _ _ =>
      Ok [MeasurementSubmissionObserved observation (facts_measurement_failure facts)]
  | ObserveOwnedJob _ resource | InspectOwnedJob _ resource | CollectEvidence _ resource
  | CancelOwnedJob _ _ _ resource => job_observed resource facts
  | AdoptRevision _ _ _ | VerifyAdoption _ _ =>
      Ok [AdoptionObserved observation (facts_revision facts) (facts_publication facts)
            (facts_checkout facts)]
  | InspectTurn _ _ _ | CancelTurn _ _ | InspectRequest _ _ _ | CancelOwnedResource _ _ _
  | BlockRequest _ _ _ => Ok []
  end.

(** [owner_signals] *)
Definition owner_signals (record : RequestRecord) (facts : Facts)
    : result LedgerError (list Signal) :=
  let* signals := owner_signal record facts in
  Ok (signals ++ releases record (facts_observation facts))%list.

(** ** The report of a hold *)

(** [_HELD] *)
Definition HELD : list RequestPhase := [RequestPhase.DISPATCHED; RequestPhase.RECONCILING].

(** [reported], inside [held] *)
Definition reported (invocation_id : InvocationId) (hold : CapacityHold) (record : RequestRecord)
    : result LedgerError RequestRecord :=
  if negb (among (rec_phase record) HELD) || eqb (rec_capacity_hold record) (Some hold)
  then Ok record
  else
    let* turn := turn_of record in
    match turn with
    | Some turn =>
        if eqb (iref_invocation_id turn) invocation_id
        then Ok (record <| rec_capacity_hold := Some hold |>) else Ok record
    | None => Ok record
    end.

(** [held] *)
Definition held (state : RecordsState) (invocation_id : InvocationId) (hold : CapacityHold)
    : result LedgerError (AreaChange RecordsState) :=
  let* rows :=
    rfold (fun rows record =>
             let* row := reported invocation_id hold record in Ok (rows ++ [row])%list)
          [] (ledger_records state) in
  if eqb rows (ledger_records state) then Ok (only state)
  else Ok (only (state <| ledger_records := rows |>)).
End Forward.
