(* ===== verification/Ledger.v ===== *)
(** * The request ledger

    [libs/vs-core/src/vs_core/_request_ledger.py] and its dispatch in [records.py]: a request is
    registered, dispatched, observed and at last closed; retries, inspections, cancellations of
    what depended on a failure and the end of a blocked record at the run's close.  An answer
    about a poll compaction removed is recognised by [spent_answer] ([_ledger_compaction.py]).

    Closing a record cancels the prepared records that need it, whose own closing cancels those
    that need them.  The functions of that cycle take the way an unsent record is closed as an
    argument; [apply_at] ties the knot to a given depth, and the depth [apply_record] gives, the
    length of the ledger, is enough: each level closes a prepared record. *)

From stdpp Require Import pretty.
From S2P Require Import Prelude PyFloat Identities Values Requests Records State Clock Proofs.
From S2P Require Import Permit Order Answers Forward Episode.

Local Open Scope string_scope.

(** [_CONCLUSIVE], [_REPLAYABLE], [_DID_NOT_SUCCEED] and [_COMPLETION] *)
Definition CONCLUSIVE : list ObservationStatus :=
  [ObservationStatus.SUCCEEDED; ObservationStatus.FAILED; ObservationStatus.REJECTED;
   ObservationStatus.CANCELLED].
Definition REPLAYABLE : list LifecycleClass :=
  [LifecycleClass.QUERY; LifecycleClass.IDEMPOTENT_WRITE].
Definition DID_NOT_SUCCEED : list ObservationStatus :=
  [ObservationStatus.FAILED; ObservationStatus.REJECTED; ObservationStatus.CANCELLED].
Definition completion_of (status : ObservationStatus) : result LedgerError CompletionStatus :=
  match status with
  | ObservationStatus.SUCCEEDED => Ok CompletionStatus.SUCCEEDED
  | ObservationStatus.CANCELLED => Ok CompletionStatus.CANCELLED
  | ObservationStatus.FAILED | ObservationStatus.REJECTED => Ok CompletionStatus.FAILED
  | ObservationStatus.PENDING | ObservationStatus.UNKNOWN => Err (StatusKeyError status)
  end.

(** The value of a phase *)
Definition phase_value (phase : RequestPhase) : string :=
  match phase with
  | RequestPhase.PREPARED => "prepared" | RequestPhase.DISPATCHED => "dispatched"
  | RequestPhase.RECONCILING => "reconciling" | RequestPhase.COMPLETED => "completed"
  | RequestPhase.BLOCKED => "blocked"
  end.

(** [text.startswith(prefix)] *)
Definition starts_with (prefix text : string) : bool := not_none (strip_prefix prefix text).

(** [_EXHAUSTED], [_CLOSE_END] and [_BLOCKED_AT_CLOSE] *)
Definition EXHAUSTED : string := "retries-exhausted:".
Definition CLOSE_END : string := "blocked-at-close:".
Definition BLOCKED_AT_CLOSE : string :=
  "the run closed while this request was blocked at its reconciliation bound".

(** [_unique] *)
Definition unique (state : RecordsState) (identity : RequestId)
    : result LedgerError (option RequestRecord) :=
  match find state (Some identity) with
  | [] => Ok None
  | [row] => Ok (Some row)
  | _ => Err (ContractError ["request_id"; root identity] "ambiguous canonical request identity")
  end.

(** [_replace] *)
Definition replace (state : RecordsState) (record : RequestRecord) : RecordsState :=
  replace_rows state record.

(** [_conclusive], of an observation *)
Definition conclusive (observation : Observation) : bool :=
  obs_terminal observation && among (obs_status observation) CONCLUSIVE.

(** [_finish], of two changes *)
Definition finish (merged item : AreaChange RecordsState) : AreaChange RecordsState :=
  {| change_state := change_state item;
     change_signals := fromkeys [] (change_signals merged ++ change_signals item);
     change_requests := fromkeys [] (change_requests merged ++ change_requests item);
     change_events := (change_events merged ++ change_events item)%list |}.

(** [_ended_at_close] *)
Definition ended_at_close (observation : Observation) : bool :=
  starts_with CLOSE_END (root (obs_event_id observation)).

(** [_claims_nothing] *)
Definition claims_nothing (closed later : Observation) : bool :=
  eqb (obs_status later) ObservationStatus.UNKNOWN
  && negb (eqb (obs_accepted later) (obs_accepted closed)).

(** [_agrees] *)
Definition agrees (closed later : Observation) : bool :=
  eqb (obs_accepted later) (obs_accepted closed)
  && eqb (obs_resource_id later) (obs_resource_id closed)
  && (among (obs_status later) [ObservationStatus.UNKNOWN; obs_status closed]
      || (among (obs_status later) DID_NOT_SUCCEED && among (obs_status closed) DID_NOT_SUCCEED)).

(** [_next_phase] *)
Definition next_phase (record : RequestRecord) (observation : Observation) : RequestPhase * Z :=
  if conclusive observation
     && negb (eqb (obs_status observation) ObservationStatus.SUCCEEDED
              && negb (obs_accepted observation))
  then (RequestPhase.COMPLETED, rec_retry_count record)
  else if eqb (obs_status observation) ObservationStatus.UNKNOWN || obs_terminal observation
  then (RequestPhase.RECONCILING, rec_retry_count record)
  else if obs_retryable observation
  then (RequestPhase.DISPATCHED, (rec_retry_count record + 1)%Z)
  else (RequestPhase.DISPATCHED, rec_retry_count record).

(** What [_refine] keeps of the observation that closed a record, and what it adds *)
Definition refined (previous observation : Observation) : Observation :=
  let added := List.filter (fun child => negb (among child (obs_children previous)))
                           (obs_children observation) in
  let released := obs_released observation && negb (obs_released previous) in
  let complete := obs_children_complete observation && negb (obs_children_complete previous) in
  previous <| obs_event_id := obs_event_id observation |>
           <| obs_sequence := obs_sequence observation |>
           <| obs_observed_at := obs_observed_at observation |>
           <| obs_released := obs_released previous || released |>
           <| obs_children := (obs_children previous ++ added)%list |>
           <| obs_children_complete := obs_children_complete previous || complete |>.

(** Whether the answer adds anything: a child, a release or a complete set of children *)
Definition adds (previous observation : Observation) : bool :=
  any (fun child => negb (among child (obs_children previous))) (obs_children observation)
  || (obs_released observation && negb (obs_released previous))
  || (obs_children_complete observation && negb (obs_children_complete previous)).

(** [_refine] *)
Definition refine (state : RecordsState) (record : RequestRecord) (observation : Observation)
    : result LedgerError (AreaChange RecordsState) :=
  match rec_observation record with
  | None => Err (ClosedRecordContradictionError (rec_request_id record) None observation)
  | Some previous =>
      if claims_nothing previous observation then Ok (only state)
      else if negb (agrees previous observation)
      then Err (ClosedRecordContradictionError (rec_request_id record) (Some previous) observation)
      else if negb (adds previous observation) then Ok (only state)
      else
        let proven := refined previous observation in
        Ok (only (replace state (record <| rec_observation := Some proven |>
                                        <| rec_sequence := Some (obs_sequence proven) |>)))
  end.

(** [_recorded] and [canonical] *)
Definition recorded (state : RecordsState) (observation : Observation)
    : result LedgerError (option Observation) :=
  let* record := unique state (obs_request_id observation) in
  match record with
  | None => Ok None
  | Some record =>
      match rec_observation record with
      | None => Ok None
      | Some stored =>
          if negb (eqb (rec_phase record) RequestPhase.COMPLETED) || eqb stored observation
          then Ok None else Ok (Some stored)
      end
  end.
Definition canonical_answer (state : RecordsState) (event : RequestObserved)
    : result LedgerError RequestObserved :=
  match observed_target event with
  | None =>
      let* held := recorded state (facts_observation (observed_facts event)) in
      match held with
      | None => Ok event
      | Some observation =>
          Ok (event <| observed_facts := (observed_facts event) <| facts_observation := observation |> |>)
      end
  | Some target =>
      let* held :=
        if not_none (target_resource target) then Ok None
        else recorded state (facts_observation (target_facts target)) in
      match held with
      | None => Ok event
      | Some observation =>
          Ok (event <| observed_target := Some (target <| target_facts :=
                (target_facts target) <| facts_observation := observation |> |>) |>)
      end
  end.

(** [_record] *)
Definition record_answer (record : RequestRecord) (facts : Facts) (phase : RequestPhase)
    (retries : Z) (retry_at : option float) : RequestRecord :=
  let observation := facts_observation facts in
  let updated :=
    record <| rec_phase := phase |> <| rec_retry_count := retries |> <| rec_retry_at := retry_at |>
           <| rec_sequence := Some (obs_sequence observation) |>
           <| rec_observation := Some observation |>
           <| rec_setup_failure := facts_setup_failure facts |>
           <| rec_evaluation_result := facts_evaluation_result facts |>
           <| rec_suspension := facts_suspension facts |> in
  match facts_outcome facts, facts_operation_schema facts with
  | Some _, Some schema =>
      updated <| rec_outcome_schema := Some (opschema_outcome_schema schema) |>
              <| rec_outcome_json := facts_outcome_json facts |>
  | _, _ => updated
  end.

(** [_block_target] *)
Definition block_target (state : RecordsState) (record : RequestRecord)
    : result LedgerError RecordsState :=
  match rec_request record, rec_observation record with
  | BlockRequest _ target _, Some observation =>
      if negb (eqb (obs_status observation) ObservationStatus.SUCCEEDED) then Ok state
      else
        let* found := unique state target in
        match found with
        | None => Ok state
        | Some row =>
            if eqb (rec_phase row) RequestPhase.COMPLETED then Ok state
            else Ok (replace state (row <| rec_phase := RequestPhase.BLOCKED |>))
        end
  | _, _ => Ok state
  end.

(** [_reissuable] *)
Definition reissuable (record : RequestRecord) (proof : ReissueProof) : bool :=
  among (rec_phase record) [RequestPhase.DISPATCHED; RequestPhase.RECONCILING]
  && negb (eqb proof ReissueProof.BEGUN_UNSEALED
           && eqb (rec_lifecycle record) LifecycleClass.SESSION_TURN).

(** [is_late] *)
Definition is_late (state : RecordsState) (event : RequestObserved) : result LedgerError bool :=
  let* root_record := unique state (obs_request_id (facts_observation (observed_facts event))) in
  match root_record with
  | None => Ok false
  | Some record =>
      match rec_observation record with
      | None => Ok false
      | Some observation => Ok (starts_with EXHAUSTED (root (obs_event_id observation)))
      end
  end.

(** [due_retries] and [next_retry_at] *)
Definition due_retries (state : RecordsState) (now_at : float) : list RecordsEvent :=
  omap (fun record =>
          match retry_wait_until record with
          | Some due => if fle due now_at then Some (RetryDue (rec_request_id record) now_at) else None
          | None => None
          end) (ledger_records state).
Definition next_retry_at (state : RecordsState) : option float :=
  match omap retry_wait_until (ledger_records state) with
  | [] => None
  | due :: rest => Some (fold_left fmin rest due)
  end.

Section Ledger.
Context `{Digests}.
Variable context : RecordsContext.

Definition now_at : float := run_now_at (context_run context).

(** ** Registration *)

(** [from_dispatch(context.run, until)] of an [Outbound] *)
Definition counted_from_dispatch (request : Request) (until : Until) : Outbound :=
  outbound request (UntilFromDispatch (from_dispatch (context_run context) until)).

(** [_route_operation] *)
Definition route_operation (state : RecordsState) (event : RequestPrepared)
    (operation : OperationWire) : result LedgerError (AreaChange RecordsState) :=
  let request := prepared_request event in
  let* descriptor := declaration context operation in
  if eqb (descriptor_normalization descriptor) OperationNormalizationKind.SCOPE_REOPEN
  then Err (ContractError ["operation"] "scope reopen enters through its own guarded event")
  else if negb (eqb (descriptor_revision_authority descriptor) RevisionAuthority.NONE)
  then Ok {| change_state := state;
             change_signals := [RevisionOperationRequested request
                                  (descriptor_revision_authority descriptor) (prepared_until event)];
             change_requests := []; change_events := [] |}
  else if eqb (descriptor_lifecycle descriptor) LifecycleClass.SESSION_TURN
  then
    match prepared_turn event with
    | None => Err (ContractError ["normalized_turn"] "registered turn requires its normalization")
    | Some turn =>
        Ok {| change_state := state;
              change_signals := [RegisteredTurnRequested request turn (prepared_until event)];
              change_requests := []; change_events := [] |}
    end
  else
    match descriptor_resource_pool descriptor with
    | Some pool =>
        Ok {| change_state := state;
              change_signals := [RegisteredJobRequested request pool (prepared_measurement event)];
              change_requests := []; change_events := [] |}
    | None =>
        Ok {| change_state := state; change_signals := [];
              change_requests := [counted_from_dispatch request (prepared_until event)];
              change_events := [] |}
    end.

(** [_prepared] *)
Definition prepare_request (state : RecordsState) (event : RequestPrepared)
    : result LedgerError (AreaChange RecordsState) :=
  let request := prepared_request event in
  let route :=
    match request with
    | ExecuteRegisteredOperation _ _ operation _ _ => route_operation state event operation
    | _ => Ok {| change_state := state; change_signals := [];
                 change_requests := [counted_from_dispatch request (prepared_until event)];
                 change_events := [] |}
    end in
  if negb (eqb (request_lifecycle request) (prepared_lifecycle event))
  then Err (ContractError ["lifecycle"] "differs from the canonical request class")
  else
    match req_request_id request with
    | None => route
    | Some identity =>
        let* previous := unique state identity in
        match previous with
        | None => route
        | Some previous =>
            if negb (eqb (rec_payload_digest previous) (digest_request request))
            then Err (ContractError ["request_id"] "request identity conflict")
            else Ok (only state)
        end
    end.

(** ** Dispatch *)

(** What [dispatch_until] reads *)
Definition permit_facts (state : RecordsState) : Permit.Facts :=
  {| fact_run := context_run context; fact_sessions := context_sessions context;
     fact_records := state; fact_evaluation := context_evaluation context |}.

(** The record [_dispatched] writes *)
Definition dispatched_record (state : RecordsState) (record : RequestRecord) : RequestRecord :=
  let updated := record <| rec_phase := RequestPhase.DISPATCHED |>
                        <| rec_dispatched_in := Some (ledger_epoch state) |> in
  if not_none (rec_limit_from_dispatch record) && is_none (rec_dispatched_at record)
  then updated <| rec_until := dispatch_until (permit_facts state) record |>
               <| rec_dispatched_at := Some now_at |>
  else updated.

(** [_dispatched] *)
Definition dispatched (state : RecordsState) (request_id : RequestId)
    : result LedgerError (AreaChange RecordsState) :=
  let* found := unique state request_id in
  match found with
  | None => Err (ContractError ["request_id"] "dispatch names no canonical request")
  | Some record =>
      let go := Ok (only (replace state (dispatched_record state record))) in
      let refuse :=
        Err (ContractError ["phase"]
               (phase_value (rec_phase record) +:+ " request cannot be dispatched")) in
      match rec_phase record with
      | RequestPhase.PREPARED => go
      | RequestPhase.DISPATCHED => Ok (only state)
      | RequestPhase.RECONCILING => if among (rec_lifecycle record) REPLAYABLE then go else refuse
      | RequestPhase.COMPLETED | RequestPhase.BLOCKED => refuse
      end
  end.

(** ** Completion *)

(** [retry_delay] *)
Definition retry_delay (retries : Z) : result LedgerError float :=
  match delay (limits_request_retries (run_limits (context_run context))) retries with
  | Ok seconds => Ok seconds
  | Err _ => Err BackoffOverflow
  end.

(** [_exhausted] *)
Definition exhausted (record : RequestRecord) (facts : Facts) : Facts :=
  let observation := facts_observation facts in
  if negb (obs_retryable observation)
     || (rec_retry_count record + 1 <=? retry_limit (context_run context) (rec_request record))%Z
  then facts
  else
    facts_of_observation
      (observation
         <| obs_event_id := MkIdentity (EXHAUSTED +:+ root (rec_request_id record)) |>
         <| obs_sequence := (obs_sequence observation + 1)%Z |>
         <| obs_accepted := false |> <| obs_terminal := true |>
         <| obs_released := true |> <| obs_children_complete := true |>).

(** [_completable] *)
Definition completable (record : RequestRecord) : result LedgerError bool :=
  match rec_request record with
  | CancelOwnedResource _ _ _ => Ok true
  | ExecuteRegisteredOperation _ _ operation _ _ =>
      let* descriptor := declaration context operation in Ok (records_own descriptor)
  | _ => Ok false
  end.

(** [_completion_signal] *)
Definition completion_signal (decision_id : DecisionId) (status : CompletionStatus) : list Signal :=
  match accepted_receipt_for (run_receipts (context_run context)) (Some decision_id) with
  | Proven receipt =>
      if not_none (receipt_completion receipt) then []
      else [DecisionCompleted (receipt_decision_id receipt) status]
  | _ => []
  end.

(** [_operation_result] *)
Definition operation_result (record : RequestRecord) (facts : Facts)
    : result LedgerError (list StrategyEvent) :=
  match rec_request record with
  | ExecuteRegisteredOperation _ operation_id operation _ _ =>
      let* descriptor := declaration context operation in
      if negb (records_own descriptor) then Ok []
      else
        match facts_operation_schema facts, facts_outcome facts with
        | Some schema, Some outcome =>
            if negb (facts_registered facts) then Ok []
            else
              Ok [ResultEvent
                    {| opresult_operation_id := operation_id;
                       opresult_observation := facts_observation facts;
                       opresult_outcome_schema := opschema_outcome_schema schema;
                       opresult_operation_schema := schema;
                       opresult_outcome_json := facts_outcome_json facts;
                       opresult_outcome := outcome |}]
        | _, _ => Ok []
        end
  | _ => Ok []
  end.

(** [_complete] *)
Definition complete (record : RequestRecord) (facts : Facts)
    : result LedgerError (list Signal * list StrategyEvent) :=
  let* completable := completable record in
  match req_decision_id (rec_request record) with
  | Some decision_id =>
      if negb completable then Ok ([], [])
      else
        let* status := completion_of (obs_status (facts_observation facts)) in
        let* events := operation_result record facts in
        Ok (completion_signal decision_id status, events)
  | None => Ok ([], [])
  end.

(** ** Unsent requests *)

(** [_unsent_cancellation] *)
Definition unsent_cancellation (record : RequestRecord) : Facts :=
  facts_of_observation
    {| obs_event_id := MkIdentity ("cancelled-unsent:" +:+ root (rec_request_id record));
       obs_request_id := rec_request_id record;
       obs_scope := req_scope (rec_request record);
       obs_sequence := match rec_observation record with
                       | None => 0
                       | Some observation => obs_sequence observation + 1
                       end%Z;
       obs_observed_at := now_at; obs_status := ObservationStatus.CANCELLED;
       obs_resource_id := None; obs_revision := None; obs_measured_input := None;
       obs_accepted := false; obs_terminal := true; obs_released := true; obs_children := [];
       obs_children_complete := true; obs_child_manifest := None;
       obs_admission_id := req_admission_id (rec_request record); obs_diagnostic := "" |}.

(** [_asker_unheard] *)
Definition asker_unheard (record : RequestRecord) : result LedgerError bool :=
  match rec_request record with
  | ExecuteRegisteredOperation _ _ operation _ _ =>
      let* descriptor := declaration context operation in
      Ok (negb (eqb (descriptor_lifecycle descriptor) LifecycleClass.SESSION_TURN)
          && negb (eqb (descriptor_normalization descriptor)
                       OperationNormalizationKind.SCOPE_REOPEN))
  | _ => Ok false
  end.

(** [_reject_proof] *)
Definition reject_proof {T A} (proof : Verdict T) (path : string) : result LedgerError A :=
  let detail :=
    match proof with
    | Mismatch field => field_value field
    | Missing reason => reason_value reason
    | Proven _ => ""
    end in
  Err (ContractError ["observation"; path] ("differs from canonical request: " +:+ detail)).

Section Cycle.
(** [_apply] of an unsent record *)
Variable close_unsent : RecordsState -> RequestRecord -> Facts -> result LedgerError (AreaChange RecordsState).

(** One record of [_cancel_prepared] *)
Definition cancel_one (cause : option RejectionCode) (change : AreaChange RecordsState) (record : RequestRecord)
    : result LedgerError (AreaChange RecordsState) :=
  let* found := unique (change_state change) (rec_request_id record) in
  match found with
  | None => Ok change
  | Some current =>
      if negb (eqb (rec_phase current) RequestPhase.PREPARED) then Ok change
      else
        let* closed := close_unsent (change_state change) current (unsent_cancellation current) in
        let change := finish change closed in
        match cause with
        | None => Ok change
        | Some cause =>
            let* unheard := asker_unheard current in
            if negb unheard then Ok change
            else
              let* found := unique (change_state change) (rec_request_id current) in
              match found with
              | None => Ok change
              | Some ended =>
                  let '(records, heard) :=
                    hear_failure (change_state change) ended (Some (refusal_of ended cause)) in
                  Ok (finish change {| change_state := records; change_signals := [];
                                       change_requests := [];
                                       change_events := map FailedEvent heard |})
              end
        end
  end.

(** [_cancel_prepared] *)
Definition cancel_prepared (state : RecordsState) (doomed : list RequestRecord)
    (cause : option RejectionCode) : result LedgerError (AreaChange RecordsState) :=
  rfold (cancel_one cause) (only state) doomed.

(** The prepared records that need [failed] *)
Definition dependents (state : RecordsState) (failed : RequestId) : list RequestRecord :=
  List.filter (fun row => eqb (rec_phase row) RequestPhase.PREPARED
                          && among failed (req_depends_on (rec_request row)))
              (ledger_records state).

(** [_cancel_dependents] *)
Definition cancel_dependents (state : RecordsState) (failed : RequestRecord)
    : result LedgerError (AreaChange RecordsState) :=
  cancel_prepared state (dependents state (rec_request_id failed)) (Some RejectionCode.DEPENDENCY).

(** [retry_at] of [_advance_phase] *)
Definition retry_at_of (phase : RequestPhase) (retries : Z) (observation : Observation)
    : result LedgerError (option float) :=
  if eqb phase RequestPhase.DISPATCHED && obs_retryable observation
  then let* seconds := retry_delay retries in Ok (Some (fadd now_at seconds))
  else Ok None.

(** [_advance_phase] *)
Definition advance_phase (state : RecordsState) (record : RequestRecord) (facts : Facts)
    : result LedgerError (AreaChange RecordsState) :=
  let facts := exhausted record facts in
  let phase := fst (next_phase record (facts_observation facts)) in
  let retries := snd (next_phase record (facts_observation facts)) in
  let* retry_at := retry_at_of phase retries (facts_observation facts) in
  let updated := record_answer record facts phase retries retry_at in
  let state := replace state updated in
  let* signals := owner_signals context updated facts in
  if eqb phase RequestPhase.COMPLETED then
    let* state := block_target state updated in
    let* completed := complete updated facts in
    let change :=
      {| change_state := state; change_signals := fromkeys [] (signals ++ fst completed)%list;
         change_requests := []; change_events := snd completed |} in
    if eqb (obs_status (facts_observation facts)) ObservationStatus.SUCCEEDED then Ok change
    else
      let* cancelled := cancel_dependents (change_state change) updated in
      Ok (finish change cancelled)
  else
    Ok {| change_state := state; change_signals := signals; change_requests := [];
          change_events := [] |}.

(** [_answered_after_close] *)
Definition answered_after_close (state : RecordsState) (record : RequestRecord) (facts : Facts)
    : result LedgerError (AreaChange RecordsState) :=
  let answer := facts_observation facts in
  match rec_observation record with
  | None => Ok (only state)
  | Some ended =>
      if (obs_sequence answer <? obs_sequence ended)%Z then Ok (only state)
      else if negb (eqb (run_status (context_run context)) RunStatus.CLOSING)
              || claims_nothing ended answer || agrees ended answer
      then refine state record answer
      else advance_phase state (record <| rec_phase := RequestPhase.BLOCKED |>) facts
  end.

(** [_apply] *)
Definition apply_with (unsent : bool) (state : RecordsState) (record : RequestRecord)
    (facts : Facts) : result LedgerError (AreaChange RecordsState) :=
  let observation := facts_observation facts in
  match observation_for record (Some observation) with
  | Proven _ =>
      if eqb (rec_phase record) RequestPhase.PREPARED && negb unsent
      then Err (ContractError ["observation"; "request_id"]
                  "observation requires committed dispatch authorization")
      else
        let fresh previous := fresh_observation previous (Some observation) true in
        let judged previous :=
          match fresh (match previous with None => [] | Some held => [held] end) with
          | Mismatch ProofField.SEQUENCE =>
              if match previous with
                 | Some held => (obs_sequence observation <? obs_sequence held)%Z
                 | None => false
                 end
              then Ok (only state)
              else Err (ContractError ["observation"; "sequence"]
                          "conflicts with the accepted observation")
          | Proven _ =>
              if eqb (Some observation) previous then Ok (only state)
              else if eqb (rec_phase record) RequestPhase.COMPLETED
              then refine state record observation
              else advance_phase state record facts
          | denial => reject_proof denial "sequence"
          end in
        match rec_observation record with
        | Some previous =>
            if ended_at_close previous && negb (eqb observation previous)
            then answered_after_close state record facts
            else judged (Some previous)
        | None => judged None
        end
  | denial => reject_proof denial "scope"
  end.
End Cycle.

(** [_apply], to a depth of cancellations *)
Fixpoint apply_at (depth : nat) (unsent : bool) (state : RecordsState) (record : RequestRecord)
    (facts : Facts) : result LedgerError (AreaChange RecordsState) :=
  match depth with
  | O => apply_with (fun _ _ _ => Err TooDeep) unsent state record facts
  | S depth => apply_with (apply_at depth true) unsent state record facts
  end.

Definition depth_of (state : RecordsState) : nat := length (ledger_records state).

Definition apply_record (state : RecordsState) (record : RequestRecord) (facts : Facts)
    : result LedgerError (AreaChange RecordsState) :=
  apply_at (depth_of state) false state record facts.

(** [_cancel_prepared], from outside the cycle *)
Definition cancel_unsent (state : RecordsState) (doomed : list RequestRecord)
    (cause : option RejectionCode) : result LedgerError (AreaChange RecordsState) :=
  cancel_prepared (apply_at (depth_of state) true) state doomed cause.

(** ** Turns that ended elsewhere *)

(** The [ended] observation of [_end_released_dispatch] *)
Definition released_dispatch (observation : Observation) (dispatch : RequestRecord) (refused : bool)
    : Observation :=
  observation <| obs_request_id := rec_request_id dispatch |>
              <| obs_sequence := match rec_observation dispatch with
                                 | None => 0
                                 | Some answered => obs_sequence answered + 1
                                 end%Z |>
              <| obs_status := ObservationStatus.CANCELLED |>
              <| obs_accepted := false |>
              <| obs_released := obs_released observation || refused |>
              <| obs_children_complete := obs_children_complete observation || refused |>.

(** The open dispatch of the turn of [invocation] that awaits reconciliation *)
Definition waiting_dispatch (state : RecordsState) (invocation : InvocationRef)
    : option RequestRecord :=
  let rows := List.filter (fun row => eqb (inv_invocation row) invocation)
                          (sessions_invocations (context_sessions context)) in
  next_such (fun record =>
      match turn_request (rec_request record) with
      | Some turn =>
          among (rec_phase record) [RequestPhase.RECONCILING; RequestPhase.BLOCKED]
          && any (fun row => eqb turn (inv_turn row)
                             && eqb (req_scope (rec_request record)) (inv_scope row)) rows
      | None => false
      end) (ledger_records state).

(** [_end_released_dispatch], of the [CancelTurn] [request] of [invocation] *)
Definition end_released_dispatch (state : RecordsState) (request : Request)
    (invocation : InvocationRef) (observation : Observation) : result LedgerError (AreaChange RecordsState) :=
  let lost := eqb (req_request_id request) (Some (lost_turn_cancellation invocation)) in
  let refused := lost && eqb (obs_status observation) ObservationStatus.REJECTED in
  if negb (obs_terminal observation)
     || negb (eqb (obs_status observation) ObservationStatus.CANCELLED
              || (lost && eqb (obs_status observation) ObservationStatus.SUCCEEDED)
              || refused)
  then Ok (only state)
  else
    match waiting_dispatch state invocation with
    | None => Ok (only state)
    | Some dispatch =>
        apply_record state dispatch
          (facts_of_observation (released_dispatch observation dispatch refused))
    end.

(** The [ended] observation of [_end_cancels_of_released_turn] *)
Definition released_with_dispatch (observation : Observation) (cancel : RequestRecord)
    (waiting_on : Observation) : Observation :=
  observation <| obs_request_id := rec_request_id cancel |>
              <| obs_event_id :=
                   MkIdentity (root (rec_request_id cancel) +:+ ":released-with-dispatch") |>
              <| obs_sequence := (obs_sequence waiting_on + 1)%Z |>
              <| obs_status := ObservationStatus.CANCELLED |>
              <| obs_accepted := false |>
              <| obs_resource_id := obs_resource_id waiting_on |>.

(** [waiting]: the cancellations of the turn that wait on its dispatch *)
Definition waiting_cancels (state : RecordsState) (turn : TurnSpec) (scope : Scope)
    : list (RequestRecord * Observation) :=
  let invocations :=
    map inv_invocation
      (List.filter (fun row => eqb (inv_turn row) turn && eqb (inv_scope row) scope)
                   (sessions_invocations (context_sessions context))) in
  omap (fun record =>
          match rec_request record, rec_observation record with
          | CancelTurn _ invocation, Some observation =>
              if among invocation invocations
                 && among (rec_phase record)
                      [RequestPhase.DISPATCHED; RequestPhase.RECONCILING; RequestPhase.BLOCKED]
                 && negb (obs_terminal observation)
              then Some (record, observation) else None
          | _, _ => None
          end) (ledger_records state).

(** [_end_cancels_of_released_turn], of the dispatch of [turn] in [scope] *)
Definition end_cancels_of_released_turn (state : RecordsState) (turn : TurnSpec) (scope : Scope)
    (observation : Observation) : result LedgerError (AreaChange RecordsState) :=
  if negb (obs_terminal observation && obs_released observation
           && obs_children_complete observation)
  then Ok (only state)
  else
    rfold (fun change item =>
             let* closed :=
               apply_record (change_state change) (fst item)
                 (facts_of_observation (released_with_dispatch observation (fst item) (snd item))) in
             Ok (finish change closed))
          (only state) (waiting_cancels state turn scope).

(** [_end_released_turn_pair], of a [CancelTurn] or a [DispatchTurn] *)
Definition end_released_turn_pair (state : RecordsState) (request : Request)
    (observation : Observation) : result LedgerError (option (AreaChange RecordsState)) :=
  match request with
  | CancelTurn _ invocation =>
      let* change := end_released_dispatch state request invocation observation in Ok (Some change)
  | DispatchTurn _ turn _ _ =>
      let* change := end_cancels_of_released_turn state turn (req_scope request) observation in
      Ok (Some change)
  | _ => Ok None
  end.

(** ** Observation *)

(** [_reissue] *)
Definition reissue (state : RecordsState) (record : RequestRecord) : AreaChange RecordsState :=
  only (replace state
          (resent record now_at (limits_reconciliation_bound (run_limits (context_run context))))).

(** What [_observed] does with the facts about an inspected target *)
Definition observed_target_of (change : AreaChange RecordsState) (request : Request) (target : TargetObservation)
    : result LedgerError (AreaChange RecordsState) :=
  let facts := target_facts target in
  let observation := facts_observation facts in
  let* found := unique (change_state change) (obs_request_id observation) in
  match found with
  | None => Err (ContractError ["target"; "request_id"] "target names no canonical request")
  | Some original =>
      let reissues :=
        match target_reissue target with
        | Some proof => reissuable original proof
        | None => false
        end in
      if not_none (target_reissue target) && eqb (rec_phase original) RequestPhase.PREPARED
      then Ok change
      else if reissues then Ok (finish change (reissue (change_state change) original))
      else
        let* applied := apply_record (change_state change) original facts in
        let change := finish change applied in
        match request with
        | InspectTurn _ invocation _ =>
            if success_without_reply observation then Ok change
            else Ok (finish change
                       {| change_state := change_state change;
                          change_signals :=
                            [TurnObserved None invocation observation None None []];
                          change_requests := []; change_events := [] |})
        | _ => Ok change
        end
  end.

(** [_observed] *)
Definition observed (state : RecordsState) (event : RequestObserved)
    : result LedgerError (AreaChange RecordsState) :=
  let observation := facts_observation (observed_facts event) in
  let* found := unique state (obs_request_id observation) in
  match found with
  | None => Err (ContractError ["observation"; "request_id"]
                   "observation names no canonical request")
  | Some root_record =>
      let request := rec_request root_record in
      let* change := apply_record state root_record (observed_facts event) in
      let* pair := end_released_turn_pair (change_state change) request observation in
      match pair with
      | Some ended => Ok (finish change ended)
      | None =>
          match observed_target event with
          | None => Ok change
          | Some target =>
              if not_none (target_resource target) then Ok change
              else observed_target_of change request target
          end
      end
  end.

(** ** Retries and ends *)

(** [_retry] *)
Definition retry (state : RecordsState) (request_id : RequestId) (at_ : float)
    : result LedgerError (AreaChange RecordsState) :=
  let* found := unique state request_id in
  match found with
  | None => Ok (only state)
  | Some record =>
      match retry_wait_until record with
      | None => Ok (only state)
      | Some due => if flt (fmax now_at at_) due then Ok (only state)
                    else Ok (reissue state record)
      end
  end.

(** [_EpisodeFacts] of the context and the records *)
Definition episode_facts (state : RecordsState) : EpisodeFacts :=
  {| episode_run := context_run context; episode_attempts := context_attempts context;
     episode_sessions := context_sessions context; episode_records := state |}.

(** [_undispatchable] *)
Definition undispatchable (state : RecordsState) (request_id : RequestId)
    : result LedgerError (AreaChange RecordsState) :=
  let* found := unique state request_id in
  match found with
  | None => Ok (only state)
  | Some record =>
      if negb (eqb (rec_phase record) RequestPhase.PREPARED) then Ok (only state)
      else if dependency_failed (rec_request record) state
      then cancel_unsent state [record] (Some RejectionCode.DEPENDENCY)
      else if episode_ended (episode_facts state) (rec_request record)
      then cancel_unsent state [record] (Some RejectionCode.CLOSED_SCOPE)
      else Ok (only state)
  end.

(** The [ended] observation of [_end_stalled_block] *)
Definition stalled_end (record : RequestRecord) : Observation :=
  let event_id := MkIdentity (CLOSE_END +:+ root (rec_request_id record)) in
  match rec_observation record with
  | None =>
      {| obs_event_id := event_id; obs_request_id := rec_request_id record;
         obs_scope := req_scope (rec_request record); obs_sequence := 0%Z;
         obs_observed_at := now_at; obs_status := ObservationStatus.FAILED;
         obs_resource_id := None; obs_revision := None; obs_measured_input := None;
         obs_accepted := false; obs_terminal := true; obs_released := false; obs_children := [];
         obs_children_complete := false; obs_child_manifest := None;
         obs_admission_id := req_admission_id (rec_request record);
         obs_diagnostic := BLOCKED_AT_CLOSE |}
  | Some previous =>
      previous <| obs_event_id := event_id |>
               <| obs_sequence := (obs_sequence previous + 1)%Z |>
               <| obs_observed_at := now_at |>
               <| obs_status := ObservationStatus.FAILED |>
               <| obs_terminal := true |>
               <| obs_diagnostic := BLOCKED_AT_CLOSE |>
  end.

(** [_end_stalled_block] *)
Definition end_stalled_block (state : RecordsState) (request_id : RequestId)
    : result LedgerError (AreaChange RecordsState) :=
  let* found := unique state request_id in
  match found with
  | None => Ok (only state)
  | Some record =>
      if negb (eqb (rec_phase record) RequestPhase.BLOCKED)
         || negb (eqb (run_status (context_run context)) RunStatus.CLOSING)
      then Ok (only state)
      else apply_record state record (facts_of_observation (stalled_end record))
  end.

(** ** Retirement *)

(** [_retirement_decision] *)
Definition retirement_decision (operation_id : OperationId) (generation : Z) (scope : Scope)
    : option DecisionId :=
  let receipts := run_receipts (context_run context) in
  let withdraws row :=
    match receipt_decision row with
    | Some (Withdraw d (TargetOperation own own_generation) DCancel) =>
        eqb own operation_id && (own_generation =? generation)%Z && eqb (dbase_scope d) scope
        && is_proven (accepted_receipt_for receipts (Some (receipt_decision_id row)))
    | _ => false
    end in
  match List.filter withdraws receipts with
  | [row] => Some (receipt_decision_id row)
  | _ => None
  end.

(** The cancellation or the inspection [_retire] asks for, with its bound *)
Definition retirement_request (record : RequestRecord) : Outbound :=
  let limits := run_limits (context_run context) in
  let base name :=
    {| base_request_id := Some (MkIdentity (name +:+ root (rec_request_id record)));
       base_scope := req_scope (rec_request record); base_depends_on := [];
       base_decision_id := None;
       base_admission_id := req_admission_id (rec_request record) |} in
  match match rec_observation record with
        | None => None
        | Some observation => obs_resource_id observation
        end with
  | Some resource =>
      within (CancelOwnedResource (base "retire:") resource (rec_request_id record))
             (limits_cancellation_bound limits) []
  | None =>
      within (InspectRequest (base "retire-inspect:") (rec_request_id record) None)
             (limits_reconciliation_bound limits) []
  end.

(** [_retire] *)
Definition retire (state : RecordsState) (operation_id : OperationId) (generation : Z)
    (scope : Scope) : result LedgerError (AreaChange RecordsState) :=
  let matches :=
    List.filter (fun row =>
      match rec_request row with
      | ExecuteRegisteredOperation _ own _ _ _ =>
          eqb own operation_id && eqb (req_scope (rec_request row)) scope
      | _ => false
      end) (ledger_records state) in
  match matches with
  | [record] =>
      let done :=
        match retirement_decision operation_id generation scope with
        | None => []
        | Some withdraw => completion_signal withdraw CompletionStatus.SUCCEEDED
        end in
      let told state := {| change_state := state; change_signals := done; change_requests := [];
                           change_events := [] |} in
      if eqb (rec_phase record) RequestPhase.PREPARED then
        let* change := cancel_unsent state [record] None in
        Ok (finish change (told (change_state change)))
      else if eqb (rec_phase record) RequestPhase.COMPLETED && is_proven (released_record record)
      then Ok (told state)
      else Ok {| change_state := state; change_signals := [];
                 change_requests := [retirement_request record]; change_events := [] |}
  | _ => Err (ContractError ["operation"] "retirement needs one canonical operation")
  end.

(** [advance] *)
Definition advance_ledger (state : RecordsState) (event : RecordsEvent)
    : result LedgerError (AreaChange RecordsState) :=
  match event with
  | Prepared event => prepare_request state event
  | DispatchAuthorized request_id _ => dispatched state request_id
  | Observed event => observed state event
  | OperationRetireRequested operation_id generation scope =>
      retire state operation_id generation scope
  | RetryDue request_id at_ => retry state request_id at_
  | RequestUndispatchable request_id => undispatchable state request_id
  | BlockedRecordStalled request_id => end_stalled_block state request_id
  | TurnHeld _ _ => Err (ContractValidationError "event.kind")
  end.
End Ledger.

(** ** Answers about polls that left the ledger *)

(** [text.rpartition(separator)]: what is before and after the last occurrence *)
Fixpoint rpartition (separator text : string) : option (string * string) :=
  match text with
  | "" => None
  | String c rest =>
      match rpartition separator rest with
      | Some (before, after) => Some (String c before, after)
      | None => option_map (fun after => ("", after)) (strip_prefix separator text)
      end
  end.

(** [text.isdecimal() and text.isascii()], and [int(text)] of such a text *)
Definition digit_of (c : Ascii.ascii) : option Z :=
  let n := Z.of_nat (Ascii.nat_of_ascii c) in
  if (48 <=? n)%Z && (n <=? 57)%Z then Some (n - 48)%Z else None.
Fixpoint decimal_from (value : Z) (text : string) : option Z :=
  match text with
  | "" => Some value
  | String c rest =>
      match digit_of c with
      | Some digit => decimal_from (10 * value + digit)%Z rest
      | None => None
      end
  end.
Definition decimal (text : string) : option Z :=
  match text with "" => None | _ => decimal_from 0 text end.

(** [text.endswith(suffix)] *)
Definition ends_with (suffix text : string) : bool :=
  match rpartition suffix text with Some (_, "") => true | _ => false end.

(** [_LAPSED] and [poll_family] of [_measurements.py] *)
Definition LAPSED : string := ":b".
Definition poll_family (request_id : RequestId) : option (string * Z) :=
  let base :=
    match rpartition LAPSED (root request_id) with
    | Some (before, count) => if not_none (decimal count) then before else root request_id
    | None => root request_id
    end in
  match rpartition ":" base with
  | None => None
  | Some (prefix, sequence) =>
      if starts_with "measurement:" prefix && ends_with ":observe" prefix
      then option_map (fun sequence => (prefix, sequence)) (decimal sequence)
      else None
  end.

(** [spent_answer] *)
Definition spent_answer (state : RecordsState) (event : RequestObserved) : bool :=
  let identity := obs_request_id (facts_observation (observed_facts event)) in
  match poll_family identity with
  | None => false
  | Some (prefix, sequence) =>
      if negb (eqb (positions state (Some identity)) []) then false
      else
        any (fun record =>
               match rec_request record with
               | ObserveOwnedJob _ _ =>
                   match poll_family (rec_request_id record) with
                   | Some (newer_prefix, newer) => eqb newer_prefix prefix && (sequence <? newer)%Z
                   | None => false
                   end
               | _ => false
               end) (ledger_records state)
  end.

(** ** The events of the ledger, to their owners ([records.py]) *)

Section Advance.
Context `{Digests}.
Variable context : RecordsContext.

(** [_observation] *)
Definition observation_event (state : RecordsState) (event : RequestObserved)
    : result LedgerError (AreaChange RecordsState) :=
  let* late := is_late state event in
  if late || spent_answer state event then Ok (only state)
  else advance_ledger context state (Observed event).

(** [advance_record] *)
Definition advance_record (state : RecordsState) (event : RecordsEvent)
    : result LedgerError (AreaChange RecordsState) :=
  match event with
  | Observed observed => observation_event state observed
  | TurnHeld invocation_id hold => held context state invocation_id hold
  | _ => advance_ledger context state event
  end.
End Advance.

Example poll_names :
  poll_family (MkIdentity "measurement:job:observe:12") = Some ("measurement:job:observe", 12%Z)
  /\ poll_family (MkIdentity "measurement:job:observe:12:b3") = Some ("measurement:job:observe", 12%Z)
  /\ poll_family (MkIdentity "measurement:job:observe:b3") = None
  /\ poll_family (MkIdentity "continuation:7") = None.
Proof. by vm_compute. Qed.
