(* ===== verification/LedgerSafe.v ===== *)
(** * What the request ledger guarantees

    The lemmas on one answer ([apply_at]): what it changes, by one relation between the rows
    before and after, kept by every level of the cancellations it causes. *)

From S2P Require Import Prelude PyFloat Identities Values Requests Records State Clock Proofs.
From S2P Require Import Permit Order Answers Forward Episode Ledger Samples.

(** ** Looking rows up *)

Lemma unique_find state identity row :
  unique state identity = Ok (Some row) <-> find state (Some identity) = [row].
Proof.
  unfold unique. destruct (find state (Some identity)) as [|a [|]]; split; intros E; simplify_eq; done.
Qed.

Lemma find_elem state identity row :
  row ∈ find state (Some identity) <-> row ∈ ledger_records state /\ rec_request_id row = identity.
Proof. rewrite find_scan, list_elem_of_filter. tauto. Qed.

Lemma unique_elem state identity row :
  unique state identity = Ok (Some row) ->
  row ∈ ledger_records state /\ rec_request_id row = identity.
Proof. intros E%unique_find. apply find_elem. rewrite E. by left. Qed.

(** The identities of a ledger are distinct: one record of each, as registration makes it. *)
Definition identified_rows (rows : list RequestRecord) : Prop := NoDup (map rec_request_id rows).

Lemma find_unique state row :
  identified_rows (ledger_records state) -> row ∈ ledger_records state ->
  find state (Some (rec_request_id row)) = [row].
Proof. intros Hnd Hin. rewrite find_scan. by apply filter_key_unique. Qed.

Lemma unique_row state row :
  identified_rows (ledger_records state) -> row ∈ ledger_records state ->
  unique state (rec_request_id row) = Ok (Some row).
Proof. intros. apply unique_find. by apply find_unique. Qed.

Lemma same_row state row row' :
  identified_rows (ledger_records state) -> row ∈ ledger_records state ->
  row' ∈ ledger_records state -> rec_request_id row = rec_request_id row' -> row = row'.
Proof. intros. by eapply (key_inj rec_request_id). Qed.

(** ** The invariant of a row *)

(** An answer that closes: conclusive, and accepted if it is a success. *)
Definition closing (observation : Observation) : bool :=
  conclusive observation
  && negb (eqb (obs_status observation) ObservationStatus.SUCCEEDED
           && negb (obs_accepted observation)).

(** A row keeps the sequence of its observation, which is about it; a prepared row has none, and
    a completed one was closed by it. *)
Record row_sound (row : RequestRecord) : Prop := {
  sound_sequence : rec_sequence row = option_map obs_sequence (rec_observation row);
  sound_identity : forall o, rec_observation row = Some o -> obs_request_id o = rec_request_id row;
  sound_prepared : rec_phase row = RequestPhase.PREPARED -> rec_observation row = None;
  sound_completed : rec_phase row = RequestPhase.COMPLETED ->
    exists o, rec_observation row = Some o /\ closing o = true
}.

Definition ledger_sound (state : RecordsState) : Prop :=
  identified_rows (ledger_records state) /\ Forall row_sound (ledger_records state).

Lemma sound_row state row : ledger_sound state -> row ∈ ledger_records state -> row_sound row.
Proof. intros [_ Hall] Hin. by eapply Forall_forall in Hall. Qed.

(** ** What an answer may do to a row *)

(** The later observation keeps what closed the record and only adds release facts. *)
Record disposition_kept (o o' : Observation) : Prop := {
  kept_status : obs_status o' = obs_status o;
  kept_accepted : obs_accepted o' = obs_accepted o;
  kept_resource : obs_resource_id o' = obs_resource_id o;
  kept_terminal : obs_terminal o' = obs_terminal o;
  kept_released : obs_released o = true -> obs_released o' = true;
  kept_children : obs_children o `prefix_of` obs_children o';
  kept_complete : obs_children_complete o = true -> obs_children_complete o' = true;
  kept_sequence : obs_sequence o <= obs_sequence o'
}.

Record same_request (row row' : RequestRecord) : Prop := {
  same_id : rec_request_id row' = rec_request_id row;
  same_body : rec_request row' = rec_request row;
  same_digest : rec_payload_digest row' = rec_payload_digest row;
  same_lifecycle : rec_lifecycle row' = rec_lifecycle row;
  same_addressed : rec_addressed_by row' = rec_addressed_by row
}.

(** A record that stays closed: completed, and not by core's own end at a close that is still
    going on. *)
Definition closed_for_good (run : RunState) (row : RequestRecord) (o : Observation) : Prop :=
  rec_phase row = RequestPhase.COMPLETED /\ rec_observation row = Some o
  /\ (ended_at_close o = false \/ run_status run <> RunStatus.CLOSING).

(** Any event of the ledger moves a row so. *)
Record row_moves (run : RunState) (row row' : RequestRecord) : Prop := {
  moves_same : same_request row row';
  moves_closed : forall o, closed_for_good run row o ->
    exists o', closed_for_good run row' o' /\ disposition_kept o o'
      /\ (ended_at_close o = false -> ended_at_close o' = false);
  moves_retries : rec_retry_count row <= rec_retry_count row'
    /\ rec_retry_count row' <= Z.max (rec_retry_count row) (retry_limit run (rec_request row))
}.

(** An answer moves it so, and leaves it prepared only untouched. *)
Definition row_answered (run : RunState) (row row' : RequestRecord) : Prop :=
  row_moves run row row' /\ (rec_phase row' = RequestPhase.PREPARED -> row' = row).

#[export] Instance disposition_kept_preorder : PreOrder disposition_kept.
Proof.
  split; [by intros o; split|]. intros o o' o'' [] []. split; try congruence; try lia; auto.
  by etrans.
Qed.
#[export] Instance same_request_preorder : PreOrder same_request.
Proof. split; [by intros r; split|]. intros r r' r'' [] []. split; congruence. Qed.
#[export] Instance row_moves_preorder run : PreOrder (row_moves run).
Proof.
  split.
  - intros row. split; [reflexivity| |lia]. intros o Ho. exists o. split; [done|by split; [reflexivity|]].
  - intros row row' row'' [Hs Hc Hr] [Hs' Hc' Hr']. split; [by etrans| |].
    + intros o Ho. destruct (Hc o Ho) as (o' & Ho' & Hk & Hn).
      destruct (Hc' o' Ho') as (o'' & Ho'' & Hk' & Hn').
      exists o''. split; [done|split; [by etrans|auto]].
    + rewrite (same_body _ _ Hs) in Hr'. lia.
Qed.
#[export] Instance row_answered_preorder run : PreOrder (row_answered run).
Proof.
  split; [intros row; split; [exact (reflexivity row)|done]|]. intros row row' row'' [Hm Hp] [Hm' Hp']. split; [by etrans|].
  intros E. pose proof (Hp' E) as ->. auto.
Qed.

(** ** Requests that can never be sent *)

(** A record of [identity] closed without success. *)
Definition failed_identity (state : RecordsState) (identity : RequestId) : Prop :=
  exists row o, row ∈ ledger_records state /\ rec_request_id row = identity
    /\ rec_phase row = RequestPhase.COMPLETED /\ rec_observation row = Some o
    /\ obs_status o <> ObservationStatus.SUCCEEDED.

(** A prepared record needs [identity], which failed: it can never be dispatched. *)
Definition stranded (state : RecordsState) (row : RequestRecord) (identity : RequestId) : Prop :=
  row ∈ ledger_records state /\ rec_phase row = RequestPhase.PREPARED
  /\ identity ∈ req_depends_on (rec_request row) /\ failed_identity state identity.

(** What an answer does to the ledger *)
Record answered (run : RunState) (state state' : RecordsState) : Prop := {
  answered_epoch : ledger_epoch state' = ledger_epoch state;
  answered_rows : Forall2 (row_answered run) (ledger_records state) (ledger_records state');
  answered_stranded : forall row identity, stranded state' row identity -> stranded state row identity
}.

#[export] Instance answered_preorder run : PreOrder (answered run).
Proof.
  split; [intros state; split; [done|reflexivity|auto]|]. intros s s' s'' [] []. split; [congruence|by etrans|auto].
Qed.

Lemma Forall2_in {A B} (R : A -> B -> Prop) l l' y :
  Forall2 R l l' -> y ∈ l' -> exists x, x ∈ l /\ R x y.
Proof.
  intros Hall [i Hi]%list_elem_of_lookup. destruct (Forall2_lookup_r _ _ _ _ _ Hall Hi) as (x & Hx & HR).
  exists x. split; [by eapply list_elem_of_lookup_2|done].
Qed.
Lemma Forall2_in_l {A B} (R : A -> B -> Prop) l l' x :
  Forall2 R l l' -> x ∈ l -> exists y, y ∈ l' /\ R x y.
Proof.
  intros Hall [i Hi]%list_elem_of_lookup. destruct (Forall2_lookup_l _ _ _ _ _ Hall Hi) as (y & Hy & HR).
  exists y. split; [by eapply list_elem_of_lookup_2|done].
Qed.

Lemma moved_ids (R : RequestRecord -> RequestRecord -> Prop) rows rows' :
  (forall row row', R row row' -> same_request row row') ->
  Forall2 R rows rows' -> map rec_request_id rows' = map rec_request_id rows.
Proof.
  intros HR. induction 1 as [|row row' rows rows' H _ IH]; [done|]. simpl. rewrite IH.
  by rewrite (same_id _ _ (HR _ _ H)).
Qed.

Lemma answered_identified run state state' :
  answered run state state' -> identified_rows (ledger_records state) ->
  identified_rows (ledger_records state').
Proof.
  intros [_ Hrows _] Hnd. unfold identified_rows.
  rewrite (moved_ids (row_answered run) _ _ (fun _ _ H => moves_same _ _ _ (proj1 H)) Hrows). done.
Qed.

Lemma answered_prepared run state state' row :
  answered run state state' -> row ∈ ledger_records state' ->
  rec_phase row = RequestPhase.PREPARED -> row ∈ ledger_records state.
Proof.
  intros [_ Hrows _] Hin Hp. destruct (Forall2_in _ _ _ _ Hrows Hin) as (x & Hx & _ & Heq).
  by rewrite (Heq Hp).
Qed.

(** ** Writing one row *)

Section Replace.
Variables (run : RunState) (state : RecordsState) (row updated : RequestRecord).
Hypothesis Hsound : ledger_sound state.
Hypothesis Hrow : row ∈ ledger_records state.
Hypothesis Hsame : rec_request_id updated = rec_request_id row.

Lemma replace_elem r :
  r ∈ ledger_records (replace state updated) <->
  r = updated \/ r ∈ ledger_records state /\ rec_request_id r <> rec_request_id row.
Proof.
  unfold replace. rewrite elem_of_replace, Hsame. split; [intros [[-> _]|?]; auto|].
  intros [->|?]; [left|by right]. split; [done|by exists row].
Qed.

Lemma replace_all (R : RequestRecord -> RequestRecord -> Prop) :
  Reflexive R -> R row updated ->
  Forall2 R (ledger_records state) (ledger_records (replace state updated)).
Proof.
  intros Hrefl HR. unfold replace. rewrite replace_rows_map.
  apply Forall2_fmap_r, Forall_Forall2_diag, Forall_forall. intros r Hr.
  change (R r (swap updated r)). unfold swap. case_decide as E; [|by apply Hrefl].
  rewrite Hsame in E. by rewrite (same_row state r row (proj1 Hsound) Hr Hrow E).
Qed.

Lemma replace_sound : row_sound updated -> ledger_sound (replace state updated).
Proof.
  intros Hup. destruct Hsound as [Hnd Hall]. split.
  - unfold identified_rows, replace. rewrite replace_rows_map, map_map.
    by rewrite (map_ext _ _ (swap_id updated)).
  - apply Forall_forall. intros r [->|[Hr _]]%replace_elem; [done|]. by eapply sound_row.
Qed.

Lemma replace_failed identity :
  failed_identity (replace state updated) identity ->
  failed_identity state identity \/ (identity = rec_request_id row
    /\ rec_phase updated = RequestPhase.COMPLETED
    /\ exists o, rec_observation updated = Some o /\ obs_status o <> ObservationStatus.SUCCEEDED).
Proof.
  intros (r & o & [->|[Hr Hne]]%replace_elem & <- & Hc & Ho & Hst).
  - right. rewrite Hsame. split; [done|]. split; [done|by exists o].
  - left. by exists r, o.
Qed.

(** A row that is written with no new failure: the ledger is only answered. *)
Lemma replace_answered :
  row_answered run row updated ->
  (rec_phase updated = RequestPhase.COMPLETED -> forall o, rec_observation updated = Some o ->
     obs_status o <> ObservationStatus.SUCCEEDED -> failed_identity state (rec_request_id row)) ->
  answered run state (replace state updated).
Proof.
  intros Hans Hfail. split; [done|apply replace_all; [intros ?; reflexivity|done]|].
  intros r identity (Hr & Hp & Hd & Hf). split; [|split; [done|split; [done|]]].
  - apply replace_elem in Hr as [->|[Hr _]]; [|done]. by rewrite (proj2 Hans Hp).
  - apply replace_failed in Hf as [?|(-> & Hc & o & Ho & Hst)]; eauto.
Qed.
End Replace.

(** ** Refining a closed record *)

Lemma refined_kept previous o :
  obs_sequence previous <= obs_sequence o -> disposition_kept previous (refined previous o).
Proof.
  intros Hseq. split; simpl; try done.
  - by intros ->.
  - by eexists.
  - by intros ->.
Qed.

Lemma refine_answered run state record o change :
  ledger_sound state -> record ∈ ledger_records state ->
  obs_request_id o = rec_request_id record ->
  (forall previous, rec_observation record = Some previous -> obs_sequence previous <= obs_sequence o) ->
  (rec_phase record = RequestPhase.COMPLETED -> ended_at_close o = false) ->
  refine state record o = Ok change ->
  answered run state (change_state change) /\ ledger_sound (change_state change)
  /\ (forall r, r ∈ ledger_records state -> rec_request_id r <> rec_request_id record ->
      r ∈ ledger_records (change_state change)).
Proof.
  intros Hsound Hin Hid Hseq Hend. pose proof (sound_row _ _ Hsound Hin) as Hrow. unfold refine.
  destruct (rec_observation record) as [previous|] eqn:Hprev; [|done]. specialize (Hseq _ eq_refl).
  destruct (claims_nothing previous o); [intros [= <-]; split; [reflexivity|done]|].
  destruct (agrees previous o); [|done]. simpl.
  destruct (adds previous o); simpl; [|intros [= <-]; split; [reflexivity|done]].
  intros [= <-]. cbn [change_state only].
  match goal with |- context [replace state ?u] => set (updated := u) end.
  pose proof (refined_kept previous o Hseq) as Hkept.
  assert (row_sound updated) as Hup.
  { split; simpl; [done| | |].
    - intros ? [= <-]. by eapply sound_identity in Hprev.
    - intros E. by rewrite (sound_prepared _ Hrow E) in Hprev.
    - intros E. exists (refined previous o). split; [done|].
      destruct (sound_completed _ Hrow E) as (p & Hp & Hc). rewrite Hprev in Hp. by injection Hp as <-. }
  split; [|split].
  - apply (replace_answered run state record); try done.
    + split; [split|].
      * by split.
      * intros p (Hc & Hp & _). simpl in *. rewrite Hprev in Hp. simplify_eq.
        specialize (Hend Hc). exists (refined p o). split; [|done]. split; [done|]. split; [done|].
        by left.
      * simpl. lia.
      * simpl. intros E. by rewrite (sound_prepared _ Hrow E) in Hprev.
    + simpl. intros E ? [= <-] Hst. exists record, previous. done.
  - by apply (replace_sound state record).
  - intros r Hr Hne. apply (replace_elem state record); [done..|]. by right.
Qed.

(** ** The block of a target *)

(** The record a successful block command fences *)
Definition fences (row : RequestRecord) : option RequestId :=
  match rec_request row, rec_observation row with
  | BlockRequest _ target _, Some observation =>
      if eqb (obs_status observation) ObservationStatus.SUCCEEDED then Some target else None
  | _, _ => None
  end.

Lemma block_answered run state updated state' :
  ledger_sound state -> block_target state updated = Ok state' ->
  answered run state state' /\ ledger_sound state'
  /\ (forall r, r ∈ ledger_records state -> Some (rec_request_id r) <> fences updated ->
      r ∈ ledger_records state').
Proof.
  intros Hsound. unfold block_target, fences.
  assert (Ok (E := LedgerError) state = Ok state' -> answered run state state' /\ ledger_sound state'
    /\ (forall r, r ∈ ledger_records state -> r ∈ ledger_records state')) as Hskip
    by (intros [= <-]; split; [reflexivity|done]).
  destruct (rec_request updated); try (intros (?&?&?)%Hskip; eauto).
  destruct (rec_observation updated) as [o|]; [|intros (?&?&?)%Hskip; eauto].
  destruct (eqb (obs_status o) _); cbn [negb]; [|intros (?&?&?)%Hskip; eauto].
  destruct (unique state target) as [[row|]|] eqn:Hu; cbn [rbind]; [|intros (?&?&?)%Hskip; eauto|done].
  destruct (eqb (rec_phase row) RequestPhase.COMPLETED) eqn:Hc; [intros (?&?&?)%Hskip; eauto|].
  intros [= <-]. apply unique_elem in Hu as [Hin <-]. apply eqb_neq in Hc.
  pose proof (sound_row _ _ Hsound Hin) as Hrow.
  split; [|split].
  - apply (replace_answered run state row); try done.
    split; [split; [by split| |simpl; lia]|done]. intros p (E & _). done.
  - apply (replace_sound state row); try done.
    split; try done; [apply Hrow|apply Hrow].
  - intros r Hr Hne. apply (replace_elem state row); try done. right. split; [done|]. congruence.
Qed.

(** ** The cancellation of unsent records *)

(** A row that is not prepared stays as it is. *)
Definition quiet (state state' : RecordsState) : Prop :=
  forall row, row ∈ ledger_records state -> rec_phase row <> RequestPhase.PREPARED ->
  row ∈ ledger_records state'.

(** No record of [identity] is prepared. *)
Definition not_prepared (state : RecordsState) (identity : RequestId) : Prop :=
  forall row, row ∈ ledger_records state -> rec_request_id row = identity ->
  rec_phase row <> RequestPhase.PREPARED.

Lemma not_prepared_stays run state state' identity :
  answered run state state' -> not_prepared state identity -> not_prepared state' identity.
Proof.
  intros Hans Hnot row Hin Hid Hp. apply (Hnot row); try done. by eapply answered_prepared.
Qed.

(** What the cancellation of the records of [gone] does *)
Record cancelled (run : RunState) (state state' : RecordsState) (gone : list RequestId) : Prop := {
  cancelled_answered : answered run state state';
  cancelled_sound : ledger_sound state';
  cancelled_quiet : quiet state state';
  cancelled_gone : forall identity, identity ∈ gone -> not_prepared state' identity
}.

Lemma cancelled_nothing run state : ledger_sound state -> cancelled run state state [].
Proof. intros Hsound. split; [reflexivity|done|by intros ?|]. by intros ? ?%not_elem_of_nil. Qed.

Lemma cancelled_app run s s' s'' gone gone' :
  cancelled run s s' gone -> cancelled run s' s'' gone' -> cancelled run s s'' (gone ++ gone').
Proof.
  intros [Ha Hs Hq Hg] [Ha' Hs' Hq' Hg']. split; [by etrans|done| |].
  - intros row Hin Hp. apply Hq'; auto.
  - intros identity [Hi|Hi]%elem_of_app; [|auto]. by eapply not_prepared_stays, Hg.
Qed.

(** A record whose request ended takes the failure its asker hears. *)
Lemma hear_answered run state row failure :
  ledger_sound state -> row ∈ ledger_records state -> rec_phase row <> RequestPhase.PREPARED ->
  let state' := fst (hear_failure state row (Some failure)) in
  answered run state state' /\ ledger_sound state'
  /\ (forall r, r ∈ ledger_records state -> rec_request_id r <> rec_request_id row ->
      r ∈ ledger_records state').
Proof.
  intros Hsound Hin Hp state'. pose proof (sound_row _ _ Hsound Hin) as Hrow.
  change state' with (replace state (row <| rec_failure := Some failure |>)). split; [|split].
  - apply (replace_answered run state row); try done.
    + split; [|done]. split; [by split| |simpl; lia]. intros o Ho. exists o. split; [done|by split; [reflexivity|]].
    + intros Hc o Ho Hst. by exists row, o.
  - apply (replace_sound state row); try done. by destruct Hrow.
  - intros r Hr Hne. apply (replace_elem state row); try done. by right.
Qed.

Section Cancel.
Context `{Digests}.
Variable context : RecordsContext.
Variable close_unsent : RecordsState -> RequestRecord -> Facts -> result LedgerError (AreaChange RecordsState).
Notation run := (context_run context).

Hypothesis close_cancels : forall state record change,
  ledger_sound state -> record ∈ ledger_records state -> rec_phase record = RequestPhase.PREPARED ->
  close_unsent state record (unsent_cancellation context record) = Ok change ->
  cancelled run state (change_state change) [rec_request_id record].

Lemma cancel_one_cancelled cause change record change' :
  ledger_sound (change_state change) ->
  cancel_one context close_unsent cause change record = Ok change' ->
  cancelled run (change_state change) (change_state change') [rec_request_id record].
Proof.
  intros Hsound. unfold cancel_one.
  assert (not_prepared (change_state change) (rec_request_id record) ->
    cancelled run (change_state change) (change_state change) [rec_request_id record]) as Hnothing.
  { intros Hnot. split; [reflexivity|done|by intros ?|]. by intros ? ->%list_elem_of_singleton. }
  destruct (unique _ _) as [[current|]|] eqn:Hu; cbn [rbind]; [| |done].
  2: { intros [= <-]. apply Hnothing. intros row Hin Hid.
       pose proof (unique_row _ row (proj1 Hsound) Hin) as E. rewrite Hid in E. congruence. }
  pose proof (unique_elem _ _ _ Hu) as [Hin Hid].
  destruct (eqb (rec_phase current) RequestPhase.PREPARED) eqn:Hp; cbn [negb].
  2: { intros [= <-]. apply Hnothing. intros row Hrow Hrid.
       rewrite (same_row _ row current (proj1 Hsound) Hrow Hin); [by apply eqb_neq|congruence]. }
  apply eqb_eq in Hp. rewrite <- Hid in *. clear Hnothing.
  destruct (close_unsent _ _ _) as [closed|] eqn:Hclose; cbn [rbind]; [|done].
  apply close_cancels in Hclose as Hcan; [|done..]. destruct cause as [cause|]; [|by intros [= <-]].
  destruct (asker_unheard context current) as [[]|]; cbn [rbind negb]; [|by intros [= <-]|done].
  cbn [change_state finish].
  destruct (unique (change_state closed) _) as [[ended|]|] eqn:Hu'; cbn [rbind];
    [|by intros [= <-]|done].
  pose proof (unique_elem _ _ _ Hu') as [Hin' Hid'].
  destruct (hear_answered run _ ended (refusal_of ended cause) (cancelled_sound _ _ _ _ Hcan) Hin')
    as (Ha & Hs & Hq).
  { apply (cancelled_gone _ _ _ _ Hcan (rec_request_id current)); [by left|done|done]. }
  destruct (hear_failure _ _ _) as [records heard]. cbn [fst] in *.
  intros [= <-]. cbn [change_state finish].
  destruct Hcan as [Ha' Hs' Hq' Hg']. split; [by etrans|done| |].
  - intros row Hrow Hnp. apply Hq; [by apply Hq'|]. intros E. apply Hnp.
    by rewrite (same_row _ row current (proj1 Hsound) Hrow Hin) by congruence.
  - intros identity Hi. eapply not_prepared_stays; [done|by apply Hg'].
Qed.

Lemma cancel_prepared_cancelled doomed : forall change cause change',
  ledger_sound (change_state change) ->
  rfold (cancel_one context close_unsent cause) change doomed = Ok change' ->
  cancelled run (change_state change) (change_state change') (map rec_request_id doomed).
Proof.
  induction doomed as [|record doomed IH]; intros change cause change' Hsound; simpl.
  - intros [= <-]. by apply cancelled_nothing.
  - destruct (cancel_one _ _ _ _ _) as [next|] eqn:Hone; cbn [rbind]; [|done]. intros Hrest.
    apply cancel_one_cancelled in Hone; [|done].
    apply (cancelled_app _ _ _ _ [_] _ Hone). eapply IH; [apply Hone|done].
Qed.

Lemma cancel_dependents_cancelled state failed change :
  ledger_sound state ->
  cancel_dependents context close_unsent state failed = Ok change ->
  cancelled run state (change_state change) []
  /\ forall row, row ∈ ledger_records (change_state change) ->
     rec_phase row = RequestPhase.PREPARED ->
     rec_request_id failed ∉ req_depends_on (rec_request row).
Proof.
  intros Hsound Hcan. apply cancel_prepared_cancelled in Hcan as [Ha Hs Hq Hg]; [|done].
  cbn [change_state only] in *. split; [split; try done; by intros ? ?%not_elem_of_nil|].
  intros row Hrow Hp Hd. refine (Hg (rec_request_id row) _ row Hrow eq_refl Hp).
  apply list_elem_of_fmap_2. apply elem_of_filterb. split; [by eapply answered_prepared|].
  by rewrite Hp, eqb_refl, (proj2 (among_true _ _)).
Qed.
End Cancel.

(** ** One answer *)

Lemma next_phase_spec record o :
  fst (next_phase record o) <> RequestPhase.PREPARED
  /\ (fst (next_phase record o) = RequestPhase.COMPLETED <-> closing o = true)
  /\ rec_retry_count record <= snd (next_phase record o)
  /\ (snd (next_phase record o) <= rec_retry_count record
      \/ obs_retryable o = true /\ snd (next_phase record o) = rec_retry_count record + 1).
Proof.
  unfold next_phase, closing. destruct (conclusive o && _); simpl; [split_and!; try done; lia|].
  destruct (_ || _); simpl; [split_and!; try done; lia|].
  destruct (obs_retryable o); simpl; split_and!; try done; lia || (right; split; [done|lia]).
Qed.

Lemma prepared_never_closed run row o :
  rec_phase row <> RequestPhase.COMPLETED -> ~ closed_for_good run row o.
Proof. intros Hp [E _]. done. Qed.

Section Answer.
Context `{Digests}.
Variable context : RecordsContext.
Notation run := (context_run context).

Lemma exhausted_spec record facts :
  let o := facts_observation facts in
  let o' := facts_observation (exhausted context record facts) in
  obs_status o' = obs_status o /\ obs_request_id o' = obs_request_id o
  /\ obs_sequence o <= obs_sequence o'
  /\ (obs_retryable o' = true ->
      rec_retry_count record + 1 <= retry_limit run (rec_request record)).
Proof.
  unfold exhausted. destruct (obs_retryable (facts_observation facts)) eqn:Hr; simpl.
  - destruct (rec_retry_count record + 1 <=? _) eqn:Hle; simpl; split_and!; try done; lia.
  - split_and!; [done|done|lia|congruence].
Qed.

(** The row an answer writes *)
Definition answered_row (record : RequestRecord) (facts : Facts) (retry_at : option float)
    : RequestRecord :=
  let facts := exhausted context record facts in
  let next := next_phase record (facts_observation facts) in
  record_answer record facts (fst next) (snd next) retry_at.

Lemma record_answer_fields record facts phase retries retry_at :
  let row := record_answer record facts phase retries retry_at in
  same_request record row /\ rec_phase row = phase /\ rec_retry_count row = retries
  /\ rec_observation row = Some (facts_observation facts)
  /\ rec_sequence row = Some (obs_sequence (facts_observation facts)).
Proof.
  unfold record_answer. destruct (facts_outcome facts), (facts_operation_schema facts); by split_and!.
Qed.

Lemma answered_row_spec record facts retry_at :
  let row := answered_row record facts retry_at in
  let o := facts_observation (exhausted context record facts) in
  same_request record row /\ rec_observation row = Some o
  /\ rec_sequence row = Some (obs_sequence o)
  /\ rec_phase row <> RequestPhase.PREPARED
  /\ (rec_phase row = RequestPhase.COMPLETED <-> closing o = true)
  /\ rec_retry_count record <= rec_retry_count row
     <= Z.max (rec_retry_count record) (retry_limit run (rec_request record)).
Proof.
  intros row o. unfold row, answered_row.
  destruct (record_answer_fields record (exhausted context record facts)
    (fst (next_phase record o)) (snd (next_phase record o)) retry_at) as (Hs & Hp & Hr & Ho & Hq).
  fold o. destruct (next_phase_spec record o) as (Hnp & Hc & Hle & Hge).
  destruct (exhausted_spec record facts) as (_ & _ & _ & Hlimit). fold o in Hlimit.
  rewrite Hp, Hr. split_and!; try done; try tauto.
  destruct Hge as [?|[Hretry ->]]; [lia|]. specialize (Hlimit Hretry). lia.
Qed.

Section Row.
Variables (state : RecordsState) (row record : RequestRecord) (facts : Facts).
Hypothesis Hsound : ledger_sound state.
Hypothesis Hrow : row ∈ ledger_records state.
Hypothesis Hsame : same_request row record.
Hypothesis Hcount : rec_retry_count record = rec_retry_count row.
Hypothesis Hopen : forall o, ~ closed_for_good run row o.
Hypothesis Habout : obs_request_id (facts_observation facts) = rec_request_id row.

Lemma answered_row_moves retry_at :
  let updated := answered_row record facts retry_at in
  row_answered run row updated /\ row_sound updated /\ rec_request_id updated = rec_request_id row
  /\ rec_phase updated <> RequestPhase.PREPARED.
Proof.
  intros updated. destruct (answered_row_spec record facts retry_at) as (Hs & Ho & Hq & Hnp & Hc & Hr).
  fold updated in Hs, Ho, Hq, Hnp, Hc, Hr.
  assert (same_request row updated) as Hsu by by etrans.
  split_and!; [|split|by apply Hsu|done].
  - split; [|done]. split; [done| |].
    + intros o Hclosed. by apply Hopen in Hclosed.
    + rewrite <- Hcount. rewrite <- (same_body _ _ Hsame). lia.
  - by rewrite Ho, Hq.
  - intros o E. rewrite Ho in E. injection E as <-. rewrite (same_id _ _ Hsu), <- Habout.
    by destruct (exhausted_spec record facts) as (_ & -> & _).
  - done.
  - intros E. apply Hc in E. by eexists.
Qed.

(** A record the answer closes as a failure *)
Definition fails (updated : RequestRecord) : Prop :=
  rec_phase updated = RequestPhase.COMPLETED
  /\ exists o, rec_observation updated = Some o /\ obs_status o <> ObservationStatus.SUCCEEDED.

Lemma answered_row_written retry_at :
  let updated := answered_row record facts retry_at in
  let state' := replace state updated in
  Forall2 (row_answered run) (ledger_records state) (ledger_records state')
  /\ ledger_sound state' /\ not_prepared state' (rec_request_id row)
  /\ (forall r identity, stranded state' r identity ->
      stranded state r identity \/ identity = rec_request_id row /\ fails updated)
  /\ (forall r, r ∈ ledger_records state -> rec_request_id r <> rec_request_id row ->
      r ∈ ledger_records state').
Proof.
  intros updated state'. destruct (answered_row_moves retry_at) as (Hans & Hup & Hid & Hnp).
  fold updated in Hans, Hup, Hid, Hnp. split_and!.
  - by apply (replace_all state row).
  - by apply (replace_sound state row).
  - intros r [->|[_ ?]]%(replace_elem state row); done.
  - intros r identity (Hr & Hp & Hd & Hf).
    apply (replace_elem state row) in Hr as [->|[Hr _]]; try done.
    apply (replace_failed state row) in Hf as [Hf|(-> & Hc & Ho)]; try done; [by left|].
    right. by split.
  - intros r Hr Hne. apply (replace_elem state row); try done. by right.
Qed.
End Row.

(** What an answer about [row] does: it is answered, nothing it failed stays stranded, and
    nothing else that is not prepared changes, except a record it fences. *)
Record row_answers (state state' : RecordsState) (row : RequestRecord) (facts : Facts) : Prop := {
  answers_answered : answered run state state';
  answers_sound : ledger_sound state';
  answers_quiet : forall r, r ∈ ledger_records state -> rec_phase r <> RequestPhase.PREPARED ->
    rec_request_id r <> rec_request_id row ->
    (obs_status (facts_observation facts) = ObservationStatus.SUCCEEDED ->
     forall b target reason, rec_request row = BlockRequest b target reason ->
     rec_request_id r <> target) -> r ∈ ledger_records state'
}.

Lemma row_answers_nothing state row facts : ledger_sound state -> row_answers state state row facts.
Proof. intros Hsound. by split; [reflexivity| |]. Qed.

Section Close.
Variable close_unsent : RecordsState -> RequestRecord -> Facts -> result LedgerError (AreaChange RecordsState).
Hypothesis close_cancels : forall state record change,
  ledger_sound state -> record ∈ ledger_records state -> rec_phase record = RequestPhase.PREPARED ->
  close_unsent state record (unsent_cancellation context record) = Ok change ->
  cancelled run state (change_state change) [rec_request_id record].

Lemma advance_answers state row record facts change :
  ledger_sound state -> row ∈ ledger_records state -> same_request row record ->
  rec_retry_count record = rec_retry_count row -> (forall o, ~ closed_for_good run row o) ->
  obs_request_id (facts_observation facts) = rec_request_id row ->
  advance_phase context close_unsent state record facts = Ok change ->
  row_answers state (change_state change) row facts
  /\ not_prepared (change_state change) (rec_request_id row).
Proof.
  intros Hsound Hrow Hsame Hcount Hopen Habout. unfold advance_phase.
  destruct (retry_at_of _ _ _ _) as [retry_at|]; cbn [rbind]; [|done].
  fold (answered_row record facts retry_at).
  destruct (answered_row_written state row record facts Hsound Hrow Hsame Hcount Hopen Habout retry_at)
    as (Hrows & Hs1 & Hnp & Hstr & Hkeep).
  destruct (answered_row_spec record facts retry_at) as (Hsu & Ho & _ & _ & Hc & _).
  destruct (exhausted_spec record facts) as (Hst & _ & _ & _).
  set (updated := answered_row record facts retry_at) in *. set (s1 := replace state updated) in *.
  assert (fst (next_phase record (facts_observation (exhausted context record facts))) = rec_phase updated)
    as Hphase by (unfold updated, answered_row; symmetry; apply record_answer_fields).
  rewrite Hphase. destruct (owner_signals _ _ _) as [signals|]; cbn [rbind]; [|done].
  destruct (eqb (rec_phase updated) RequestPhase.COMPLETED) eqn:Hdone.
  2: { apply eqb_neq in Hdone. intros [= <-]. cbn [change_state]. split; [split; try done|done].
       - split; try done. intros r i [|[_ [? _]]]%Hstr; done.
       - auto. }
  destruct (block_target s1 updated) as [s2|] eqn:Hb; cbn [rbind]; [|done].
  apply (block_answered run) in Hb as (Ha2 & Hs2 & Hk2); [|done].
  destruct (complete _ _ _) as [completed|]; cbn [rbind change_state]; [|done].
  assert (forall r, r ∈ ledger_records state -> rec_request_id r <> rec_request_id row ->
    (obs_status (facts_observation facts) = ObservationStatus.SUCCEEDED ->
     forall b target reason, rec_request row = BlockRequest b target reason ->
     rec_request_id r <> target) -> r ∈ ledger_records s2) as Hk.
  { intros r Hr Hne Hfence. apply Hk2; [by apply Hkeep|]. unfold fences. rewrite Ho, Hst.
    rewrite (same_body _ _ Hsu), (same_body _ _ Hsame).
    destruct (rec_request row) eqn:Hreq; try done.
    destruct (eqb (obs_status _) _) eqn:E; [|done]. apply eqb_eq in E. intros [= Hid].
    by eapply Hfence. }
  assert (forall r i, stranded s2 r i -> stranded state r i \/ i = rec_request_id row /\ fails updated)
    as Hstr2 by (intros r i ?%(answered_stranded _ _ _ Ha2)%Hstr; done).
  assert (Forall2 (row_answered run) (ledger_records state) (ledger_records s2)) as Hrows2
    by (etrans; [exact Hrows|apply Ha2]).
  destruct (eqb (obs_status _) ObservationStatus.SUCCEEDED) eqn:Hok.
  { apply eqb_eq in Hok. intros [= <-]. cbn [change_state]. split; [split; try done|].
    - split; [by rewrite (answered_epoch _ _ _ Ha2)|done|].
      intros r i [|[_ (_ & p & Hp & Hne)]]%Hstr2; [done|]. rewrite Ho in Hp. by injection Hp as <-.
    - auto.
    - by eapply not_prepared_stays. }
  destruct (cancel_dependents _ _ _ _) as [cancels|] eqn:Hcan; cbn [rbind]; [|done].
  intros [= <-]. cbn [change_state finish].
  apply cancel_dependents_cancelled in Hcan as [[Ha3 Hs3 Hq3 _] Hfree]; try done.
  split; [split; try done|].
  - split; [by rewrite (answered_epoch _ _ _ Ha3), (answered_epoch _ _ _ Ha2)|by etrans; [|apply Ha3]|].
    intros r i Hfinal. pose proof (answered_stranded _ _ _ Ha3 _ _ Hfinal) as [|[-> _]]%Hstr2; [done|].
    destruct Hfinal as (Hr & Hp & Hd & _). exfalso. apply (Hfree r Hr Hp).
    by rewrite (same_id _ _ Hsu), (same_id _ _ Hsame).
  - auto.
  - eapply not_prepared_stays; [exact Ha3|]. by eapply not_prepared_stays.
Qed.

Lemma observation_for_identity record o o' :
  observation_for record (Some o) = Proven o' -> obs_request_id o = rec_request_id record.
Proof.
  unfold observation_for. destruct (req_request_id _); [|done]. destruct (_ && _); [done|].
  unfold identity_mismatch. simpl. unfold differs.
  destruct (eqb (obs_request_id o) (rec_request_id record)) eqn:E; [|done]. intros _. by apply eqb_eq.
Qed.

Lemma fresh_after held o o' :
  obs_request_id held = obs_request_id o ->
  fresh_observation [held] (Some o) true = Proven o' ->
  obs_sequence held < obs_sequence o \/ o = held.
Proof.
  intros Hid. unfold fresh_observation. simpl. rewrite Hid, eqb_refl. unfold fresh_source.
  destruct (any _ _); [done|]. destruct (omap _ _); [|done]. simpl.
  destruct (obs_sequence o <? obs_sequence held) eqn:Hlt; [done|]. simpl.
  destruct (obs_sequence o =? obs_sequence held) eqn:Heq; simpl; [|lia].
  destruct (eqb o held) eqn:E; [|done]. right. by apply eqb_eq.
Qed.

(** An executor's answer about a closed record is not named as core's own end of one. *)
Definition answer_named (record : RequestRecord) (facts : Facts) : Prop :=
  rec_phase record = RequestPhase.COMPLETED -> ended_at_close (facts_observation facts) = false.

Lemma apply_with_answers unsent state record facts change :
  ledger_sound state -> record ∈ ledger_records state -> answer_named record facts ->
  apply_with context close_unsent unsent state record facts = Ok change ->
  row_answers state (change_state change) record facts
  /\ (rec_phase record = RequestPhase.PREPARED ->
      not_prepared (change_state change) (rec_request_id record)).
Proof.
  intros Hsound Hin Hnamed. pose proof (sound_row _ _ Hsound Hin) as Hrow. unfold apply_with.
  set (o := facts_observation facts) in *.
  destruct (observation_for record (Some o)) as [? | |] eqn:Hfor; [|done..].
  apply observation_for_identity in Hfor.
  destruct (eqb (rec_phase record) RequestPhase.PREPARED && negb unsent); [done|].
  assert (forall change, refine state record o = Ok change ->
    (forall p, rec_observation record = Some p -> obs_sequence p <= obs_sequence o) ->
    row_answers state (change_state change) record facts) as Hrefine.
  { intros c Hr Hseq. destruct (refine_answered run _ _ _ _ Hsound Hin Hfor Hseq Hnamed Hr) as (Ha&Hs&Hk).
    split; auto. }
  assert (forall c, rec_phase record <> RequestPhase.COMPLETED ->
    advance_phase context close_unsent state record facts = Ok c ->
    row_answers state (change_state c) record facts
    /\ not_prepared (change_state c) (rec_request_id record)) as Hadvance.
  { intros c Hc Had. eapply advance_answers; try done. intros p. by apply prepared_never_closed. }
  destruct (rec_observation record) as [previous|] eqn:Hprev.
  - assert (rec_phase record = RequestPhase.PREPARED -> False) as Hnp
      by (intros E; by rewrite (sound_prepared _ Hrow E) in Hprev).
    intros Hok. split; [|intros E; by destruct (Hnp E)]. revert Hok.
    destruct (ended_at_close previous && negb (eqb o previous)) eqn:Hend.
    + apply andb_true_iff in Hend as [Hend _]. unfold answered_after_close. rewrite Hprev. fold o.
      destruct (obs_sequence o <? obs_sequence previous) eqn:Hlt;
        [intros [= <-]; by apply row_answers_nothing|].
      destruct (_ || agrees previous o) eqn:Hkeep.
      * intros Hr. apply Hrefine; [done|]. intros p [= <-]. lia.
      * to_prop. intros Had. eapply (advance_answers state record) in Had as [? _]; try done.
        intros p (_ & Hp & Hgood). rewrite Hprev in Hp. injection Hp as <-.
        destruct Hgood; congruence.
    + pose proof (sound_identity _ Hrow _ Hprev) as Hpid. rewrite <- Hfor in Hpid.
      destruct (fresh_observation [previous] (Some o) true) as [x|reason|field] eqn:Hfresh.
      * apply fresh_after in Hfresh; [|done].
        destruct (eqb (Some o) (Some previous)) eqn:Heq;
          [intros [= <-]; by apply row_answers_nothing|].
        apply eqb_neq in Heq. assert (obs_sequence previous < obs_sequence o) by (destruct Hfresh; congruence).
        destruct (eqb (rec_phase record) RequestPhase.COMPLETED) eqn:Hc.
        -- intros Hr. apply Hrefine; [done|]. intros p [= <-]. lia.
        -- intros Had. apply eqb_neq in Hc. by apply Hadvance in Had as [? _].
      * done.
      * destruct field; try done. destruct (_ <? _); [|done].
        intros [= <-]. by apply row_answers_nothing.
  - simpl. destruct (eqb (rec_phase record) RequestPhase.COMPLETED) eqn:Hc.
    + apply eqb_eq in Hc. destruct (sound_completed _ Hrow Hc) as (? & ? & _). congruence.
    + apply eqb_neq in Hc. intros Hok. apply Hadvance in Hok as [? ?]; done.
Qed.
End Close.

Lemma cancels_of_answers state record change :
  ledger_sound state -> record ∈ ledger_records state -> rec_phase record = RequestPhase.PREPARED ->
  row_answers state (change_state change) record (unsent_cancellation context record) ->
  not_prepared (change_state change) (rec_request_id record) ->
  cancelled run state (change_state change) [rec_request_id record].
Proof.
  intros Hsound Hin Hp [Ha Hs Hk] Hnot. split; [done|done| |by intros ? ->%list_elem_of_singleton].
  intros r Hr Hnp. apply Hk; [done|done| |done]. intros E. apply Hnp.
  by rewrite (same_row state r record (proj1 Hsound) Hr Hin E).
Qed.

Lemma apply_at_answers depth : forall unsent state record facts change,
  ledger_sound state -> record ∈ ledger_records state -> answer_named record facts ->
  apply_at context depth unsent state record facts = Ok change ->
  row_answers state (change_state change) record facts
  /\ (rec_phase record = RequestPhase.PREPARED ->
      not_prepared (change_state change) (rec_request_id record)).
Proof.
  induction depth as [|depth IH]; intros unsent state record facts change Hsound Hin Hnamed;
    apply apply_with_answers; try done.
  intros s r c Hs Hr Hp Hclose. apply IH in Hclose as [Hans Hnot]; try done.
  by apply cancels_of_answers; auto.
Qed.

Lemma apply_record_answers state record facts change :
  ledger_sound state -> record ∈ ledger_records state -> answer_named record facts ->
  apply_record context state record facts = Ok change ->
  row_answers state (change_state change) record facts.
Proof. intros Hsound Hin Hnamed Hok. by eapply apply_at_answers. Qed.

Lemma cancel_unsent_cancels state doomed cause change :
  ledger_sound state -> cancel_unsent context state doomed cause = Ok change ->
  cancelled run state (change_state change) (map rec_request_id doomed).
Proof.
  intros Hsound Hok. unfold cancel_unsent, cancel_prepared in Hok.
  eapply (cancel_prepared_cancelled _ (apply_at context (depth_of state) true)) in Hok; try done.
  intros s r c Hs Hr Hp Hclose. apply apply_at_answers in Hclose as [? ?]; try done.
  by apply cancels_of_answers; auto.
Qed.
End Answer.

(** ** Depth

    The cancellations an answer causes go no deeper than the prepared records there are. *)

Definition is_prepared (row : RequestRecord) : bool := eqb (rec_phase row) RequestPhase.PREPARED.

(** The prepared records other than [identity]'s *)
Definition prepared_besides (state : RecordsState) (identity : RequestId) : nat :=
  length (List.filter (fun row => is_prepared row && negb (eqb (rec_request_id row) identity))
                      (ledger_records state)).

Definition deep {A} (r : result LedgerError A) : bool :=
  match r with Err TooDeep => true | _ => false end.

Lemma deep_bind {A B} (c : result LedgerError A) (k : A -> result LedgerError B) :
  deep c = false -> (forall a, c = Ok a -> deep (k a) = false) -> deep (rbind c k) = false.
Proof. destruct c as [a|[]]; simpl; auto. Qed.

Lemma deep_unique state identity : deep (unique state identity) = false.
Proof. unfold unique. by destruct (find _ _) as [|? [|]]. Qed.
Lemma deep_checked {A} check (value : A) : deep (checked check value) = false.
Proof. by destruct check. Qed.
Lemma deep_reject {T A} (proof : Verdict T) path : deep (A := A) (reject_proof proof path) = false.
Proof. done. Qed.

(** Case on every test and every computation of a goal [deep _ = false]. *)
Ltac shallow :=
  repeat first
    [ done
    | apply deep_unique | apply deep_checked | apply deep_reject
    | apply deep_bind; [|intros ? ?]
    | match goal with
      | |- deep (if ?b then _ else _) = false => destruct b
      | |- deep (match ?x with _ => _ end) = false => destruct x
      end ].

Section Depth.
Context `{Digests}.
Variable context : RecordsContext.
Notation run := (context_run context).

Lemma deep_declaration operation : deep (declaration context operation) = false.
Proof. unfold declaration. shallow. Qed.
Lemma deep_owner_signals record facts : deep (owner_signals context record facts) = false.
Proof.
  unfold owner_signals, owner_signal, registered_signal, session_observed, job_observed, reopened,
    invocation_carried.
  shallow; apply deep_declaration.
Qed.
Lemma deep_block state row : deep (block_target state row) = false.
Proof. unfold block_target. shallow. Qed.
Lemma deep_complete record facts : deep (complete context record facts) = false.
Proof.
  unfold complete, completable, operation_result, completion_of. shallow; apply deep_declaration.
Qed.
Lemma deep_retry_at phase retries o : deep (retry_at_of context phase retries o) = false.
Proof. unfold retry_at_of, retry_delay. shallow. Qed.
Lemma deep_asker record : deep (asker_unheard context record) = false.
Proof. unfold asker_unheard. shallow; apply deep_declaration. Qed.
Lemma deep_refine state record o : deep (refine state record o) = false.
Proof. unfold refine. shallow. Qed.

Lemma besides_rows state state' identity :
  Forall2 (row_answered run) (ledger_records state) (ledger_records state') ->
  (prepared_besides state' identity <= prepared_besides state identity)%nat.
Proof.
  unfold prepared_besides. induction 1 as [|row row' rows rows' [_ Hp] _ IH]; [done|]. simpl.
  destruct (is_prepared row') eqn:E.
  - apply eqb_eq in E as Hrow'. specialize (Hp Hrow'). subst row'. rewrite E. simpl.
    destruct (eqb _ _); simpl; lia.
  - simpl. destruct (is_prepared row && _); simpl; lia.
Qed.

Lemma filter_length_le {A} (f g : A -> bool) l :
  (forall x, x ∈ l -> f x = true -> g x = true) ->
  (length (List.filter f l) <= length (List.filter g l))%nat.
Proof.
  induction l as [|x l IH]; intros Hfg; [done|]. simpl.
  assert (length (List.filter f l) <= length (List.filter g l))%nat
    by (apply IH; intros y Hy; apply Hfg; by right).
  destruct (f x) eqn:E; [rewrite (Hfg x ltac:(by left) E)|destruct (g x)]; simpl; lia.
Qed.

Lemma filter_length_lt {A} (f g : A -> bool) l a :
  (forall x, x ∈ l -> f x = true -> g x = true) -> a ∈ l -> f a = false -> g a = true ->
  (length (List.filter f l) < length (List.filter g l))%nat.
Proof.
  induction l as [|x l IH]; intros Hfg Hin Hf Hg; [by apply not_elem_of_nil in Hin|]. simpl.
  assert (forall y, y ∈ l -> f y = true -> g y = true) as Hfg' by (intros y Hy; apply Hfg; by right).
  pose proof (filter_length_le f g l Hfg').
  apply elem_of_cons in Hin as [<-|Hin]; [rewrite Hf, Hg; simpl; lia|].
  specialize (IH Hfg' Hin Hf Hg).
  destruct (f x) eqn:E; [rewrite (Hfg x ltac:(by left) E)|destruct (g x)]; simpl; lia.
Qed.

(** Closing a prepared record next leaves fewer besides it. *)
Lemma besides_next state current identity :
  current ∈ ledger_records state -> rec_phase current = RequestPhase.PREPARED ->
  not_prepared state identity ->
  (prepared_besides state (rec_request_id current) < prepared_besides state identity)%nat.
Proof.
  intros Hin Hp Hnot. unfold prepared_besides. apply filter_length_lt with current.
  - intros row Hrow. intros [Hprep _]%andb_true_iff. rewrite Hprep. simpl.
    apply negb_true_iff, eqb_false. intros E. apply (Hnot row); [done..|]. by apply eqb_eq.
  - done.
  - by rewrite eqb_refl, andb_false_r.
  - unfold is_prepared. rewrite Hp, eqb_refl. simpl. apply negb_true_iff, eqb_false. intros E.
    by apply (Hnot current).
Qed.

Section Close.
Variable close_unsent : RecordsState -> RequestRecord -> Facts -> result LedgerError (AreaChange RecordsState).
Variable depth : nat.
Hypothesis close_cancels : forall state record change,
  ledger_sound state -> record ∈ ledger_records state -> rec_phase record = RequestPhase.PREPARED ->
  close_unsent state record (unsent_cancellation context record) = Ok change ->
  cancelled run state (change_state change) [rec_request_id record].
Hypothesis close_shallow : forall state record,
  ledger_sound state -> record ∈ ledger_records state -> rec_phase record = RequestPhase.PREPARED ->
  (prepared_besides state (rec_request_id record) < depth)%nat ->
  deep (close_unsent state record (unsent_cancellation context record)) = false.

Lemma shallow_cancels cause identity doomed : forall change,
  ledger_sound (change_state change) -> not_prepared (change_state change) identity ->
  (prepared_besides (change_state change) identity <= depth)%nat ->
  deep (rfold (cancel_one context close_unsent cause) change doomed) = false.
Proof.
  induction doomed as [|record doomed IH]; intros change Hsound Hnot Hle; [done|]. simpl.
  apply deep_bind.
  - unfold cancel_one. apply deep_bind; [apply deep_unique|]. intros [current|] Hu; [|done].
    apply unique_elem in Hu as [Hin _].
    destruct (eqb (rec_phase current) RequestPhase.PREPARED) eqn:Hp; cbn [negb]; [|done].
    apply eqb_eq in Hp. apply deep_bind.
    + apply close_shallow; try done. pose proof (besides_next _ _ _ Hin Hp Hnot). lia.
    + intros closed _. destruct cause; [|done]. apply deep_bind; [apply deep_asker|].
      intros unheard _. destruct (negb unheard); [done|].
      apply deep_bind; [apply deep_unique|]. by intros [ended|] _.
  - intros next Hone. apply (cancel_one_cancelled _ close_unsent close_cancels) in Hone; [|done].
    destruct Hone as [Ha Hs _ _]. apply IH; [done|by eapply not_prepared_stays|].
    pose proof (besides_rows _ _ identity (answered_rows _ _ _ Ha)). lia.
Qed.

Lemma shallow_advance state row record facts :
  ledger_sound state -> row ∈ ledger_records state -> same_request row record ->
  rec_retry_count record = rec_retry_count row -> (forall o, ~ closed_for_good run row o) ->
  obs_request_id (facts_observation facts) = rec_request_id row ->
  (prepared_besides state (rec_request_id row) <= depth)%nat ->
  deep (advance_phase context close_unsent state record facts) = false.
Proof.
  intros Hsound Hrow Hsame Hcount Hopen Habout Hle. unfold advance_phase.
  apply deep_bind; [apply deep_retry_at|]. intros retry_at _. fold (answered_row context record facts retry_at).
  destruct (answered_row_written context state row record facts Hsound Hrow Hsame Hcount Hopen Habout retry_at)
    as (Hrows & Hs1 & Hnp & _ & _).
  apply deep_bind; [apply deep_owner_signals|]. intros signals _.
  destruct (eqb (fst _) _); [|done]. apply deep_bind; [apply deep_block|]. intros s2 Hb.
  apply (block_answered run) in Hb as (Ha2 & Hs2 & _); [|done].
  apply deep_bind; [apply deep_complete|]. intros completed _. destruct (eqb _ _); [done|].
  apply deep_bind; [|done]. cbn [change_state]. apply shallow_cancels with (rec_request_id row); [done| |].
  - by eapply not_prepared_stays.
  - pose proof (besides_rows _ _ (rec_request_id row) Hrows).
    pose proof (besides_rows _ _ (rec_request_id row) (answered_rows _ _ _ Ha2)).
    cbn [change_state only]. lia.
Qed.

Lemma shallow_apply unsent state record facts :
  ledger_sound state -> record ∈ ledger_records state ->
  (prepared_besides state (rec_request_id record) <= depth)%nat ->
  deep (apply_with context close_unsent unsent state record facts) = false.
Proof.
  intros Hsound Hin Hle. unfold apply_with. set (o := facts_observation facts).
  destruct (observation_for record (Some o)) as [? | |] eqn:Hfor; [|apply deep_reject..].
  apply observation_for_identity in Hfor.
  destruct (eqb (rec_phase record) RequestPhase.PREPARED && negb unsent); [done|].
  assert (rec_phase record <> RequestPhase.COMPLETED ->
    deep (advance_phase context close_unsent state record facts) = false) as Hadvance
    by (intros Hc; eapply shallow_advance; try done; intros p; by apply prepared_never_closed).
  assert (forall previous, deep
    match fresh_observation (match previous with None => [] | Some held => [held] end) (Some o) true with
    | Mismatch ProofField.SEQUENCE =>
        if match previous with
           | Some held => (obs_sequence o <? obs_sequence held)%Z
           | None => false
           end
        then Ok (only state)
        else Err (ContractError ["observation"; "sequence"]%string
                    "conflicts with the accepted observation"%string)
    | Proven _ =>
        if eqb (Some o) previous then Ok (only state)
        else if eqb (rec_phase record) RequestPhase.COMPLETED
        then refine state record o
        else advance_phase context close_unsent state record facts
    | denial => reject_proof denial "sequence"%string
    end = false) as Hjudged.
  { intros previous. destruct (fresh_observation _ _ _) as [x|reason|field]; [|done|].
    - destruct (eqb (Some o) previous); [done|].
      destruct (eqb (rec_phase record) RequestPhase.COMPLETED) eqn:Hc; [apply deep_refine|].
      by apply Hadvance, eqb_neq.
    - destruct field; try done. by destruct (match previous with Some _ => _ | None => _ end). }
  destruct (rec_observation record) as [previous|] eqn:Hprev; [|apply (Hjudged None)].
  destruct (ended_at_close previous && negb (eqb o previous)) eqn:Hend; [|apply (Hjudged (Some previous))].
  apply andb_true_iff in Hend as [Hend _]. unfold answered_after_close. rewrite Hprev. fold o.
  destruct (obs_sequence o <? obs_sequence previous); [done|].
  destruct (_ || agrees previous o) eqn:Hkeep; [apply deep_refine|]. to_prop.
  eapply (shallow_advance state record); try done. intros p (_ & Hp & Hgood).
  rewrite Hprev in Hp. injection Hp as <-. destruct Hgood; congruence.
Qed.
End Close.

Lemma shallow_apply_at depth : forall unsent state record facts,
  ledger_sound state -> record ∈ ledger_records state ->
  (prepared_besides state (rec_request_id record) <= depth)%nat ->
  deep (apply_at context depth unsent state record facts) = false.
Proof.
  induction depth as [|depth IH]; intros unsent state record facts Hsound Hin Hle; simpl;
    eapply shallow_apply; try done.
  - lia.
  - intros s r c Hs Hr Hp Hclose. apply apply_at_answers in Hclose as [? ?]; try done.
    by apply cancels_of_answers; auto.
  - intros s r Hs Hr Hp Hlt. apply IH; [done|done|lia].
Qed.

Lemma prepared_besides_length state identity : (prepared_besides state identity <= depth_of state)%nat.
Proof. apply List.filter_length_le. Qed.
End Depth.
