(* ===== verification/LedgerEvents.v ===== *)
(** * The events of the request ledger

    What one event of the ledger ([advance_record]) does to its rows: each keeps its request, a
    closed one its disposition, a re-sent one its bound ([ledger_moves]). *)

From S2P Require Import Prelude PyFloat Identities Values Requests Records State Clock Proofs.
From S2P Require Import Permit Order Answers Forward Episode Ledger LedgerSafe Samples.

(** What an event does to the ledger *)
Record ledger_moves (run : RunState) (state state' : RecordsState) : Prop := {
  moves_epoch : ledger_epoch state' = ledger_epoch state;
  moves_rows : Forall2 (row_moves run) (ledger_records state) (ledger_records state');
  moves_sound : ledger_sound state'
}.

(** The executors' answers in an event are not named as core's own end of a record at a close. *)
Definition event_named (event : RecordsEvent) : Prop :=
  match event with
  | Observed event =>
      ended_at_close (facts_observation (observed_facts event)) = false
      /\ forall target, observed_target event = Some target ->
         ended_at_close (facts_observation (target_facts target)) = false
  | _ => True
  end.

Section Events.
Context `{Digests}.
Variable context : RecordsContext.
Notation run := (context_run context).

Lemma moves_nothing state : ledger_sound state -> ledger_moves run state state.
Proof. intros. by split; [|reflexivity|]. Qed.

Lemma moves_trans s s' s'' : ledger_moves run s s' -> ledger_moves run s' s'' -> ledger_moves run s s''.
Proof. intros [] []. split; [congruence|by etrans|done]. Qed.

Lemma answered_moves state state' :
  answered run state state' -> ledger_sound state' -> ledger_moves run state state'.
Proof.
  intros [He Hr _] Hs. split; [done| |done]. eapply Forall2_impl; [exact Hr|]. by intros ? ? [].
Qed.

Lemma answers_moves state state' row facts :
  row_answers context state state' row facts -> ledger_moves run state state'.
Proof. intros [Ha Hs _]. by apply answered_moves. Qed.

(** A row written by an event that is no answer *)
Lemma replace_moves state row updated :
  ledger_sound state -> row ∈ ledger_records state -> row_moves run row updated ->
  row_sound updated -> ledger_moves run state (replace state updated).
Proof.
  intros Hsound Hin Hm Hup. pose proof (same_id _ _ (moves_same _ _ _ Hm)) as Hid. split.
  - done.
  - apply (replace_all state row); try done. intros ?; reflexivity.
  - by apply (replace_sound state row).
Qed.

Lemma open_moves row updated :
  rec_phase row <> RequestPhase.COMPLETED -> same_request row updated ->
  rec_retry_count updated = rec_retry_count row -> row_moves run row updated.
Proof.
  intros Hp Hs Hr. split; [done| |lia]. intros o Ho. by apply prepared_never_closed in Ho.
Qed.

(** ** Each event *)

Lemma dispatched_moves state request_id change :
  ledger_sound state -> dispatched context state request_id = Ok change ->
  ledger_moves run state (change_state change).
Proof.
  intros Hsound. unfold dispatched.
  destruct (unique state request_id) as [[record|]|] eqn:Hu; cbn [rbind]; [|done..].
  apply unique_elem in Hu as [Hin _]. pose proof (sound_row _ _ Hsound Hin) as Hrow.
  assert (rec_phase record <> RequestPhase.COMPLETED ->
    ledger_moves run state (replace state (dispatched_record context state record))) as Hgo.
  { intros Hp. apply (replace_moves state record); [done..| |].
    - apply open_moves; [done| |]; unfold dispatched_record; destruct (_ && _); done.
    - destruct Hrow. unfold dispatched_record. destruct (_ && _); by split. }
  destruct (rec_phase record) eqn:Hp; try done.
  - intros [= <-]. by apply Hgo.
  - intros [= <-]. by apply moves_nothing.
  - destruct (among _ _); [|done]. intros [= <-]. by apply Hgo.
Qed.

Lemma reissue_moves state record :
  ledger_sound state -> record ∈ ledger_records state -> rec_phase record <> RequestPhase.COMPLETED ->
  ledger_moves run state (change_state (reissue context state record)).
Proof.
  intros Hsound Hin Hp. unfold reissue. cbn [change_state only].
  apply (replace_moves state record); [done|done| |].
  - apply open_moves; [done|by split|done].
  - by split.
Qed.

Lemma omap_fst_sublist {A B} (f : A -> option (A * B)) l :
  (forall x item, f x = Some item -> fst item = x) -> map fst (omap f l) `sublist_of` l.
Proof.
  intros Hf. induction l as [|x l IH]; [done|]. simpl. destruct (f x) as [item|] eqn:E; simpl.
  - rewrite (Hf x item E). by apply sublist_skip.
  - by apply sublist_cons.
Qed.

Lemma waiting_sublist state turn scope :
  map fst (waiting_cancels context state turn scope) `sublist_of` ledger_records state.
Proof.
  apply omap_fst_sublist. intros row item. destruct (rec_request row); try done.
  destruct (rec_observation row); [|done]. destruct (_ && _); [|done]. by intros [= <-].
Qed.

Lemma waiting_item state turn scope item :
  item ∈ waiting_cancels context state turn scope ->
  (exists b invocation, rec_request (fst item) = CancelTurn b invocation)
  /\ rec_phase (fst item) <> RequestPhase.PREPARED /\ rec_phase (fst item) <> RequestPhase.COMPLETED.
Proof.
  unfold waiting_cancels. rewrite list_elem_of_omap. intros (row & _ & E).
  destruct (rec_request row) eqn:Hreq; try done. destruct (rec_observation row); [|done].
  destruct (among (rec_phase row) _) eqn:Hp; [|by rewrite andb_false_r in E].
  destruct (_ && _); [|done]. injection E as <-. apply among_true in Hp. simpl.
  split; [by rewrite Hreq; eauto|]. split; intros E; rewrite E in Hp; set_solver.
Qed.

Lemma end_cancels_moves items observation : forall change change',
  ledger_sound (change_state change) ->
  NoDup (map rec_request_id (map fst items)) ->
  (forall item, item ∈ items -> fst item ∈ ledger_records (change_state change)
     /\ (exists b invocation, rec_request (fst item) = CancelTurn b invocation)
     /\ rec_phase (fst item) <> RequestPhase.PREPARED /\ rec_phase (fst item) <> RequestPhase.COMPLETED) ->
  rfold (fun change item =>
           let* closed :=
             apply_record context (change_state change) (fst item)
               (facts_of_observation (released_with_dispatch observation (fst item) (snd item))) in
           Ok (finish change closed)) change items = Ok change' ->
  ledger_moves run (change_state change) (change_state change').
Proof.
  induction items as [|item items IH]; intros change change' Hsound Hnd Hitems; simpl.
  - intros [= <-]. by apply moves_nothing.
  - destruct (Hitems item) as (Hin & (b & invocation & Hreq) & Hnp & Hnc); [by left|].
    destruct (apply_record _ _ _ _) as [closed|] eqn:Happly; cbn [rbind]; [|done]. intros Hrest.
    assert (answer_named (fst item) (facts_of_observation
      (released_with_dispatch observation (fst item) (snd item)))) as Hnamed by (intros E; by destruct Hnc).
    apply apply_record_answers in Happly as Hans; try done.
    eapply moves_trans; [by eapply answers_moves|].
    apply NoDup_cons in Hnd as [Hnew Hnd].
    apply (IH (finish change closed)); try done; [apply Hans|].
    intros other Hother. destruct (Hitems other) as (Hoin & Hrest'); [by right|]. split; [|done].
    destruct Hans as [_ _ Hquiet]. apply Hquiet; try done; [apply Hrest'|].
    intros E. apply Hnew. rewrite <- E. apply list_elem_of_fmap_2. by apply list_elem_of_fmap_2.
Qed.

Lemma pair_moves state request observation ended :
  ledger_sound state ->
  end_released_turn_pair context state request observation = Ok (Some ended) ->
  ledger_moves run state (change_state ended).
Proof.
  intros Hsound. unfold end_released_turn_pair. destruct request; try done.
  - destruct (end_cancels_of_released_turn _ _ _ _ _) as [change|] eqn:E; cbn [rbind]; [|done].
    intros [= <-]. unfold end_cancels_of_released_turn in E.
    destruct (negb _); [injection E as <-; by apply moves_nothing|].
    apply end_cancels_moves in E; try done.
    + eapply sublist_NoDup; [apply waiting_sublist|apply Hsound].
    + intros item Hitem. split; [|by eapply waiting_item].
      eapply sublist_subseteq; [apply waiting_sublist|]. by apply list_elem_of_fmap_2.
  - destruct (end_released_dispatch _ _ _ _ _) as [change|] eqn:E; cbn [rbind]; [|done].
    intros [= <-]. unfold end_released_dispatch in E.
    destruct (_ || _); [injection E as <-; by apply moves_nothing|].
    destruct (waiting_dispatch _ _ _) as [dispatch|] eqn:Hw;
      [|injection E as <-; by apply moves_nothing].
    apply next_such_Some in Hw as [Hin Hp].
    eapply answers_moves, apply_record_answers; [..|exact E]; [done|done|].
    intros Hc. destruct (turn_request _); [|done]. by rewrite Hc in Hp.
Qed.

Lemma target_moves change request target change' :
  ledger_sound (change_state change) ->
  ended_at_close (facts_observation (target_facts target)) = false ->
  observed_target_of context change request target = Ok change' ->
  ledger_moves run (change_state change) (change_state change').
Proof.
  intros Hsound Hnamed. unfold observed_target_of.
  destruct (unique _ _) as [[original|]|] eqn:Hu; cbn [rbind]; [|done..].
  apply unique_elem in Hu as [Hin _].
  destruct (_ && eqb (rec_phase original) RequestPhase.PREPARED);
    [intros [= <-]; by apply moves_nothing|].
  destruct (match target_reissue target with Some _ => _ | None => _ end) eqn:Hre.
  - intros [= <-]. cbn [change_state finish]. apply reissue_moves; try done.
    destruct (target_reissue target); [|done]. unfold reissuable in Hre.
    apply andb_true_iff in Hre as [Hp%among_true _]. intros E. rewrite E in Hp. set_solver.
  - destruct (apply_record _ _ _ _) as [applied|] eqn:Happly; cbn [rbind]; [|done].
    apply apply_record_answers in Happly; [|done|done|by intros _]. apply answers_moves in Happly.
    destruct request; try (intros [= <-]; exact Happly).
    destruct (success_without_reply _); intros [= <-]; exact Happly.
Qed.

Lemma observed_moves state event change :
  ledger_sound state -> event_named (Observed event) ->
  observed context state event = Ok change -> ledger_moves run state (change_state change).
Proof.
  intros Hsound [Hroot Htarget]. unfold observed.
  destruct (unique _ _) as [[record|]|] eqn:Hu; cbn [rbind]; [|done..].
  apply unique_elem in Hu as [Hin _].
  destruct (apply_record _ _ _ _) as [applied|] eqn:Happly; cbn [rbind]; [|done].
  apply apply_record_answers in Happly; [|done|done|by intros _]. apply answers_moves in Happly.
  pose proof (moves_sound _ _ _ Happly) as Hs.
  destruct (end_released_turn_pair _ _ _ _) as [[ended|]|] eqn:Hpair; cbn [rbind]; [| |done].
  - intros [= <-]. cbn [change_state finish]. eapply moves_trans; [exact Happly|].
    by eapply pair_moves.
  - destruct (observed_target event) as [target|] eqn:Ht; [|by intros [= <-]].
    destruct (not_none _); [by intros [= <-]|]. intros Hobs.
    eapply moves_trans; [exact Happly|]. eapply target_moves; [done| |done]. by apply Htarget.
Qed.

Lemma cancels_moves state state' gone :
  cancelled run state state' gone -> ledger_moves run state state'.
Proof. intros [Ha Hs _ _]. by apply answered_moves. Qed.

Lemma held_moves state invocation_id hold change :
  ledger_sound state -> held context state invocation_id hold = Ok change ->
  ledger_moves run state (change_state change).
Proof.
  intros Hsound. unfold held.
  destruct (rfold _ _ _) as [rows|] eqn:Hfold; cbn [rbind]; [|done].
  assert (Forall2 (fun row row' => row' = row \/ row' = row <| rec_capacity_hold := Some hold |>)
    (ledger_records state) rows) as Hrows.
  { cut (forall l acc rows, rfold (fun rows record =>
        let* row := reported context invocation_id hold record in Ok (rows ++ [row])) acc l = Ok rows ->
      exists rest, rows = acc ++ rest /\
        Forall2 (fun row row' => row' = row \/ row' = row <| rec_capacity_hold := Some hold |>) l rest).
    { intros Hcut. destruct (Hcut _ _ _ Hfold) as (rest & -> & Hall). done. }
    clear. induction l as [|row l IH]; intros acc rows; simpl.
    - intros [= <-]. exists []. by rewrite app_nil_r.
    - destruct (reported context invocation_id hold row) as [row'|] eqn:Hrep; cbn [rbind]; [|done].
      intros (rest & -> & Hall)%IH. exists (row' :: rest). rewrite <- app_assoc. split; [done|].
      constructor; [|done]. unfold reported in Hrep. destruct (_ || _); [left; congruence|].
      destruct (turn_of context row) as [[turn|]|]; cbn [rbind] in Hrep; [|left; congruence|done].
      destruct (eqb _ _); injection Hrep as <-; [by right|by left]. }
  assert (forall row row', row' = row \/ row' = row <| rec_capacity_hold := Some hold |> ->
    row_moves run row row' /\ (row_sound row -> row_sound row')) as Hone.
  { intros row row' [->| ->]; [by split; [reflexivity|]|]. split; [|by intros []].
    split; [by split| |simpl; lia]. intros o Ho. exists o. split; [done|by split; [reflexivity|]]. }
  destruct (eqb rows _); intros [= <-]; [by apply moves_nothing|]. cbn [change_state only]. split.
  - done.
  - eapply Forall2_impl; [exact Hrows|]. intros ? ? Hr. by apply Hone.
  - destruct Hsound as [Hnd Hall]. split; simpl.
    + unfold identified_rows.
      rewrite (moved_ids _ _ _ (fun r r' Hr => moves_same _ _ _ (proj1 (Hone r r' Hr))) Hrows). done.
    + apply Forall_forall. intros row' Hin. destruct (Forall2_in _ _ _ _ Hrows Hin) as (row & Hr & HR).
      apply Hone in HR as [_ HR]. apply HR. by eapply Forall_forall in Hall.
Qed.

Lemma advance_moves state event change :
  ledger_sound state -> event_named event ->
  advance_record context state event = Ok change -> ledger_moves run state (change_state change).
Proof.
  intros Hsound Hnamed. destruct event; cbn [advance_record advance_ledger].
  - unfold prepare_request. destruct (eqb _ _); cbn [negb]; [|done].
    assert (forall change, match prepared_request event with
      | ExecuteRegisteredOperation _ _ operation _ _ => route_operation context state event operation
      | _ => Ok {| change_state := state; change_signals := [];
                   change_requests := [counted_from_dispatch context (prepared_request event) (prepared_until event)];
                   change_events := [] |} end = Ok change -> change_state change = state) as Hroute.
    { intros c. destruct (prepared_request event); try (by intros [= <-]). unfold route_operation.
      destruct (declaration context operation) as [descriptor|]; cbn [rbind]; [|done].
      destruct (eqb _ _); [done|]. destruct (negb _); [by intros [= <-]|].
      destruct (eqb _ _); [destruct (prepared_turn event); [by intros [= <-]|done]|].
      destruct (descriptor_resource_pool descriptor); by intros [= <-]. }
    destruct (req_request_id _) as [identity|];
      [|intros ->%Hroute; by apply moves_nothing].
    destruct (unique state identity) as [[previous|]|]; cbn [rbind];
      [|intros ->%Hroute; by apply moves_nothing|done].
    destruct (negb _); [done|]. intros [= <-]. by apply moves_nothing.
  - by apply dispatched_moves.
  - unfold observation_event. destruct (is_late state event) as [late|]; cbn [rbind]; [|done].
    destruct (late || spent_answer state event); [intros [= <-]; by apply moves_nothing|].
    by apply observed_moves.
  - unfold retry. destruct (unique state request_id) as [[record|]|] eqn:Hu; cbn [rbind];
      [|intros [= <-]; by apply moves_nothing|done].
    apply unique_elem in Hu as [Hin _].
    destruct (retry_wait_until record) as [due|] eqn:Hdue; [|intros [= <-]; by apply moves_nothing].
    destruct (flt _ _); intros [= <-]; [by apply moves_nothing|]. apply reissue_moves; try done.
    unfold retry_wait_until in Hdue. destruct (rec_observation record); [|done].
    intros E. by rewrite E in Hdue.
  - unfold undispatchable. destruct (unique state request_id) as [[record|]|]; cbn [rbind];
      [|intros [= <-]; by apply moves_nothing|done].
    destruct (negb _); [intros [= <-]; by apply moves_nothing|].
    destruct (dependency_failed _ _); [by intros ?%cancel_unsent_cancels%cancels_moves|].
    destruct (episode_ended _ _); [by intros ?%cancel_unsent_cancels%cancels_moves|].
    intros [= <-]. by apply moves_nothing.
  - unfold end_stalled_block. destruct (unique state request_id) as [[record|]|] eqn:Hu; cbn [rbind];
      [|intros [= <-]; by apply moves_nothing|done].
    apply unique_elem in Hu as [Hin _].
    destruct (_ || _) eqn:Hb; [intros [= <-]; by apply moves_nothing|].
    intros Happly. eapply answers_moves, apply_record_answers; [done|done| |exact Happly].
    intros E. rewrite E in Hb. done.
  - unfold retire. destruct (List.filter _ _) as [|record [|]]; [done| |done].
    destruct (eqb (rec_phase record) RequestPhase.PREPARED).
    + destruct (cancel_unsent _ _ _ _) as [cancels|] eqn:Hcan; cbn [rbind]; [|done].
      intros [= <-]. cbn [change_state finish]. eapply cancels_moves. by eapply cancel_unsent_cancels.
    + destruct (_ && _); intros [= <-]; by apply moves_nothing.
  - by apply held_moves.
Qed.
End Events.
