(* ===== verification/LedgerKept.v ===== *)
(** * The guarantees of the request ledger

    Over any sequence of events: every record keeps its request, a closed one its disposition, a
    re-sent one its bound.  Of one answer: what it may touch, that its cancellations end and leave
    no one waiting for a failure, that it comes in sequence, and that retries run out.  At the end,
    a small ledger on which they are evaluated, and what [_refine] does to a record's manifest. *)

From S2P Require Import Prelude PyFloat Identities Values Requests Records State Clock Proofs.
From S2P Require Import Permit Order Answers Forward Episode Ledger LedgerSafe LedgerEvents Samples.

(** ** Sequences of events *)

Section Log.
Context `{Digests}.

(** The ledger after the events of [log], each in the context of its step *)
Definition ledger_after (state : RecordsState) (log : list (RecordsContext * RecordsEvent))
    : result LedgerError RecordsState :=
  rfold (fun state step =>
           let* change := advance_record (fst step) state (snd step) in
           Ok (change_state change)) state log.

Lemma log_induction (R : RequestRecord -> RequestRecord -> Prop) log state state' :
  PreOrder R ->
  (forall context event row row', (context, event) ∈ log ->
     row_moves (context_run context) row row' -> R row row') ->
  ledger_sound state -> Forall (fun step => event_named (snd step)) log ->
  ledger_after state log = Ok state' ->
  ledger_sound state' /\ Forall2 R (ledger_records state) (ledger_records state').
Proof.
  intros HR Hstep Hsound Hnamed Hlog. revert state Hsound Hlog.
  induction log as [|[context event] log IH]; intros state Hsound; cbn.
  - intros [= <-]. split; [done|reflexivity].
  - destruct (advance_record _ _ _) as [change|] eqn:Hadv; cbn [rbind]; [|done]. intros Hrest.
    apply Forall_cons in Hnamed as [Hn Hnamed].
    apply advance_moves in Hadv as [_ Hrows Hs]; [|done..].
    apply IH in Hrest as [Hs' Hrows']; try done.
    + split; [done|]. etrans; [|exact Hrows']. eapply Forall2_impl; [exact Hrows|].
      intros r r' Hm. apply (Hstep context event r r'); [by left|done].
    + intros c e r r' Hin. apply (Hstep c e r r'). by right.
Qed.

(** A row that a conclusive answer closed keeps its disposition in the other. *)
Definition stands (row row' : RequestRecord) : Prop :=
  same_request row row' /\ forall o, rec_phase row = RequestPhase.COMPLETED ->
    rec_observation row = Some o -> ended_at_close o = false ->
    exists o', rec_phase row' = RequestPhase.COMPLETED /\ rec_observation row' = Some o'
      /\ disposition_kept o o' /\ ended_at_close o' = false.

Lemma closed_rows_stand log state state' :
  ledger_sound state -> Forall (fun step => event_named (snd step)) log ->
  ledger_after state log = Ok state' -> Forall2 stands (ledger_records state) (ledger_records state').
Proof.
  intros Hsound Hnamed Hlog. destruct (log_induction stands log state state') as [_ Hrows]; try done.
  - split.
    + intros r. split; [reflexivity|]. intros p ???. exists p. by split_and!; [..|reflexivity|].
    + intros r r' r'' [Hs Hr] [Hs' Hr']. split; [by etrans|]. intros p Hp Hq Hn.
      destruct (Hr p Hp Hq Hn) as (p' & Hp' & Hq' & Hk & Hn').
      destruct (Hr' p' Hp' Hq' Hn') as (p'' & ? & ? & ? & ?). exists p''. split_and!; try done. by etrans.
  - intros context event r r' _ Hm. split; [apply Hm|]. intros p Hp Hq Hn.
    destruct (moves_closed _ _ _ Hm p) as (p' & (? & ? & _) & ? & Hn'); [by split; [|split; [|left]]|].
    exists p'. split_and!; auto.
Qed.

(** C10: a closed record stands.  Across any events the ledger takes without an error, in whatever
    contexts, a record that a conclusive answer closed stays closed, with the status, the
    acceptance and the resource it was closed with; its release, its children and the
    completeness of them are never taken back, and its sequence never goes back.  (The one record
    that reopens is the one core itself ended at the run's close, which is excluded here.) *)
Theorem closed_records_stand log state state' row o :
  ledger_sound state -> Forall (fun step => event_named (snd step)) log ->
  ledger_after state log = Ok state' ->
  row ∈ ledger_records state -> rec_phase row = RequestPhase.COMPLETED ->
  rec_observation row = Some o -> ended_at_close o = false ->
  exists row' o', row' ∈ ledger_records state' /\ same_request row row'
    /\ rec_phase row' = RequestPhase.COMPLETED /\ rec_observation row' = Some o'
    /\ disposition_kept o o'.
Proof.
  intros Hsound Hnamed Hlog Hin Hc Ho He.
  pose proof (closed_rows_stand log state state' Hsound Hnamed Hlog) as Hrows.
  destruct (Forall2_in_l _ _ _ _ Hrows Hin) as (row' & Hin' & Hs & Hr).
  destruct (Hr o Hc Ho He) as (o' & ? & ? & ? & _). by exists row', o'.
Qed.

(** C15: the ledger stays sound.  Any event it takes keeps its rows, one of each identity and in
    order, each with the request it was registered with; a row's sequence stays that of its
    observation, which is about it; a prepared record has no observation, and a completed one has
    a conclusive one, accepted if it is a success. *)
Theorem ledger_stays_sound log state state' :
  ledger_sound state -> Forall (fun step => event_named (snd step)) log ->
  ledger_after state log = Ok state' ->
  ledger_sound state' /\ Forall2 same_request (ledger_records state) (ledger_records state').
Proof.
  intros Hsound Hnamed Hlog. eapply log_induction; try done; [apply _|]. by intros ? ? ? ? _ [].
Qed.

(** Re-sends stay within their limit.  Across any events, if no context allows a record's
    request more than [limit] re-sends and the record has had no more, it never has more. *)
Theorem resends_stay_bounded log state state' row limit :
  ledger_sound state -> Forall (fun step => event_named (snd step)) log ->
  ledger_after state log = Ok state' -> row ∈ ledger_records state ->
  (forall context event, (context, event) ∈ log ->
     retry_limit (context_run context) (rec_request row) <= limit) ->
  rec_retry_count row <= limit ->
  exists row', row' ∈ ledger_records state' /\ same_request row row'
    /\ rec_retry_count row <= rec_retry_count row' <= limit.
Proof.
  intros Hsound Hnamed Hlog Hin Hlimit Hcount.
  pose (R r r' := same_request r r' /\ rec_retry_count r <= rec_retry_count r'
    /\ (rec_request r = rec_request row -> rec_retry_count r <= limit -> rec_retry_count r' <= limit)).
  destruct (log_induction R log state state') as [_ Hrows]; try done.
  - split.
    + intros r. split_and!; [reflexivity|lia|done].
    + intros r r' r'' (Hs & Hle & Hr) (Hs' & Hle' & Hr'). split_and!; [by etrans|lia|].
      intros Hq Hb. apply Hr'; [|auto]. by rewrite (same_body _ _ Hs).
  - intros context event r r' Hstep [Hs _ [Hle Hge]]. split_and!; try done.
    intros Hq Hb. rewrite Hq in Hge. specialize (Hlimit _ _ Hstep). lia.
  - destruct (Forall2_in_l _ _ _ _ Hrows Hin) as (row' & Hin' & Hs & Hle & Hr).
    exists row'. split_and!; auto.
Qed.
End Log.

(** ** One answer *)

Section Answer.
Context `{Digests}.
Variable context : RecordsContext.
Notation run := (context_run context).

(** C11: no request is left waiting for one that failed.  Whatever an answer closes, and whatever
    its cancellations close in turn, it strands no prepared record: a prepared record that needs a
    failed one afterwards needed a failed one before.  In particular, once the answered record
    itself has failed, no prepared record needs it. *)
Theorem failure_strands_no_one state record facts change :
  ledger_sound state -> record ∈ ledger_records state -> answer_named record facts ->
  apply_record context state record facts = Ok change ->
  (forall row identity, stranded (change_state change) row identity -> stranded state row identity)
  /\ (rec_phase record <> RequestPhase.COMPLETED ->
      forall row, ~ stranded (change_state change) row (rec_request_id record)).
Proof.
  intros Hsound Hin Hnamed Hok. apply apply_record_answers in Hok as [Ha _ _]; try done.
  split; [apply Ha|]. intros Hp row Hstr%(answered_stranded _ _ _ Ha).
  destruct Hstr as (_ & _ & _ & r & o & Hr & Hid & Hc & _).
  by rewrite (same_row state r record (proj1 Hsound) Hr Hin Hid) in Hc.
Qed.

(** An answer touches little.  Apart from the record it is about, the record a successful
    block command fences, and prepared records, an answer leaves every record exactly as it is. *)
Theorem answer_touches_little state record facts change row :
  ledger_sound state -> record ∈ ledger_records state -> answer_named record facts ->
  apply_record context state record facts = Ok change ->
  row ∈ ledger_records state -> rec_request_id row <> rec_request_id record ->
  rec_phase row <> RequestPhase.PREPARED ->
  (forall b target reason, rec_request record = BlockRequest b target reason ->
     obs_status (facts_observation facts) = ObservationStatus.SUCCEEDED ->
     rec_request_id row <> target) ->
  row ∈ ledger_records (change_state change).
Proof.
  intros Hsound Hin Hnamed Hok Hrow Hne Hp Hfence.
  apply apply_record_answers in Hok as [_ _ Hquiet]; eauto.
Qed.

(** C13: cancellations end.  However the prepared records depend on each other, cycles included,
    the cancellations an answer causes go no deeper than the records of the ledger: the answer
    ends, in a change or in an error of the code's own. *)
Theorem cancellations_end state record facts :
  ledger_sound state -> record ∈ ledger_records state ->
  apply_record context state record facts <> Err TooDeep.
Proof.
  intros Hsound Hin E.
  pose proof (shallow_apply_at context (depth_of state) false state record facts Hsound Hin
    (prepared_besides_length _ _)) as Hdeep.
  change (apply_at context (depth_of state) false state record facts)
    with (apply_record context state record facts) in Hdeep.
  by rewrite E in Hdeep.
Qed.

(** The observation is about the request the record was registered with: of its identity, its
    scope and its admission, which a request of an attempt has. *)
Record about (record : RequestRecord) (o : Observation) : Prop := {
  about_record : obs_request_id o = rec_request_id record;
  about_request : req_request_id (rec_request record) = Some (rec_request_id record);
  about_scope : obs_scope o = req_scope (rec_request record);
  about_admission : obs_admission_id o = req_admission_id (rec_request record);
  about_episode : is_attempt (scope_owner (obs_scope o)) = true -> obs_admission_id o <> None }.

Lemma observation_about record o :
  about record o -> observation_for record (Some o) = Proven o.
Proof.
  intros [Hid Hreq Hscope Hadm Hep]. unfold observation_for. rewrite Hreq, <- Hscope, <- Hadm.
  assert (is_attempt (scope_owner (obs_scope o))
          && (is_none (obs_admission_id o) || is_none (obs_admission_id o)) = false) as ->.
  { destruct (is_attempt _); [|done]. specialize (Hep eq_refl). by destruct (obs_admission_id o). }
  unfold identity_mismatch. simpl. unfold differs. by rewrite Hid, !eqb_refl.
Qed.

Lemma observation_for_about record o proof :
  observation_for record (Some o) = Proven proof -> about record o.
Proof.
  unfold observation_for. destruct (req_request_id _) as [ident|] eqn:Hreq; [|done].
  destruct (_ && _) eqn:Hep; [done|]. unfold identity_mismatch. simpl. unfold differs.
  destruct (eqb (obs_request_id o) _) eqn:H1; [|done]. destruct (eqb ident _) eqn:H2; [|done].
  destruct (eqb (scope_owner _) _) eqn:H3; [|done].
  destruct (eqb (scope_generation _) _) eqn:H4; [|done].
  destruct (eqb (obs_admission_id o) _) eqn:H5; [|done]. intros _. to_prop.
  assert (obs_scope o = req_scope (rec_request record)) as Hscope
    by (destruct (obs_scope o), (req_scope (rec_request record)); simpl in *; by subst).
  split; [done| |done|done|]. { congruence. }
  rewrite Hscope. intros Ha E. rewrite Ha, <- H5, E in Hep. done.
Qed.

(** What is made of an answer after the one a record holds: [fresh_observation] of the two. *)
Lemma fresh_of_two record held o :
  about record o -> obs_request_id held = rec_request_id record ->
  match fresh_observation [held] (Some o) true with
  | Proven proof => proof = o /\ about record held /\ (obs_sequence held < obs_sequence o \/ o = held)
  | Mismatch ProofField.SEQUENCE =>
      about record held
      /\ (obs_sequence o < obs_sequence held \/ obs_sequence o = obs_sequence held /\ o <> held)
  | _ => ~ about record held
  end.
Proof.
  intros [Hid Hreq Hscope Hadm Hep] Hheld. unfold fresh_observation. simpl.
  rewrite Hheld, Hid, eqb_refl. unfold fresh_source. simpl. rewrite orb_false_r.
  assert (is_attempt (scope_owner (obs_scope o)) && is_none (obs_admission_id o) = false) as ->.
  { destruct (is_attempt _); [|done]. specialize (Hep eq_refl). by destruct (obs_admission_id o). }
  rewrite orb_false_r. destruct (_ && _) eqn:Habsent.
  { intros [_ _ _ _ Hep']. apply andb_true_iff in Habsent as [Ha Hn]. specialize (Hep' Ha).
    by destruct (obs_admission_id held). }
  unfold rebound, identity_mismatch. simpl. unfold differs.
  destruct (eqb (scope_owner _) _) eqn:H1; simpl; [|intros [_ _ Hs _ _]; apply eqb_neq in H1; congruence].
  destruct (eqb (scope_generation _) _) eqn:H2; simpl; [|intros [_ _ Hs _ _]; apply eqb_neq in H2; congruence].
  destruct (eqb (obs_admission_id o) _) eqn:H3; simpl; [|intros [_ _ _ Hs _]; apply eqb_neq in H3; congruence].
  assert (about record held) as Habout.
  { to_prop. assert (obs_scope held = obs_scope o) as Es
      by (destruct (obs_scope o), (obs_scope held); simpl in *; by subst).
    split; [done|done|congruence|congruence|]. rewrite Es, <- H3. done. }
  destruct (obs_sequence o <? obs_sequence held) eqn:Hlt; simpl; [split; [done|left; lia]|].
  destruct (obs_sequence o =? obs_sequence held) eqn:Heq; simpl; [|split_and!; [done..|left; lia]].
  destruct (eqb o held) eqn:E; simpl.
  - split_and!; [done..|right; by apply eqb_eq].
  - split; [done|]. right. split; [lia|by apply eqb_neq].
Qed.

(** C14: answers are taken in sequence, after the dispatch.  An answer that is not about the
    record's request is refused, and so is any about a prepared record.  Of an answer about a
    dispatched record that holds an observation: the same observation again changes nothing, and
    neither does an older one; another one of the same number is refused, as is one after an
    observation that is not about the request.  So an answer that is taken has a higher number.
    (The observation core itself wrote at the run's close only bounds the number from below.) *)
Theorem answers_in_sequence state record facts :
  ledger_sound state -> record ∈ ledger_records state ->
  let o := facts_observation facts in
  let taken := apply_record context state record facts in
  let refused field := exists detail, taken = Err (ContractError ["observation"; field] detail) in
  (~ about record o -> refused "scope"%string)
  /\ (about record o -> rec_phase record = RequestPhase.PREPARED ->
      taken = Err (ContractError ["observation"; "request_id"]
                     "observation requires committed dispatch authorization"))
  /\ (about record o -> rec_phase record <> RequestPhase.PREPARED ->
      forall previous, rec_observation record = Some previous ->
      (o = previous -> taken = Ok (only state))
      /\ (obs_sequence o < obs_sequence previous ->
          about record previous \/ ended_at_close previous = true -> taken = Ok (only state))
      /\ (o <> previous -> ended_at_close previous = false ->
          obs_sequence o = obs_sequence previous \/ ~ about record previous ->
          refused "sequence"%string))
  /\ (forall change, taken = Ok change -> rec_phase record <> RequestPhase.PREPARED
      /\ forall previous, rec_observation record = Some previous ->
         obs_request_id o = rec_request_id record
         /\ (change = only state
             \/ obs_sequence previous < obs_sequence o
             \/ ended_at_close previous = true /\ obs_sequence previous = obs_sequence o
                /\ o <> previous)).
Proof.
  intros Hsound Hin o taken refused. pose proof (sound_row _ _ Hsound Hin) as Hrow.
  assert (exists close, taken = apply_with context close false state record facts) as [close Htaken].
  { subst taken. unfold apply_record. destruct (depth_of state); simpl; eauto. }
  clearbody taken. unfold apply_with in Htaken. fold o in Htaken.
  destruct (observation_for record (Some o)) as [proof|reason|field] eqn:Hfor; swap 1 3; [swap 1 2|..].
  1, 2: assert (~ about record o) as Hnot by (intros E%observation_about; congruence);
    split_and!; [intros _; eexists; exact Htaken|done|done|intros ? E; rewrite E in Htaken; discriminate Htaken].
  apply observation_for_about in Hfor. split; [done|].
  destruct (eqb (rec_phase record) RequestPhase.PREPARED) eqn:Hp; cbn [andb negb] in Htaken.
  { apply eqb_eq in Hp. split_and!; try done. intros ? E. rewrite E in Htaken. discriminate Htaken. }
  apply eqb_neq in Hp. split; [done|].
  assert (forall previous, rec_observation record = Some previous ->
    if ended_at_close previous && negb (eqb o previous)
    then taken = answered_after_close context close state record facts
    else match fresh_observation [previous] (Some o) true with
         | Proven _ => o = previous -> taken = Ok (only state)
         | Mismatch ProofField.SEQUENCE =>
             (obs_sequence o < obs_sequence previous -> taken = Ok (only state))
             /\ (obs_sequence o = obs_sequence previous -> refused "sequence"%string)
         | _ => refused "sequence"%string
         end) as Hjudged.
  { intros previous Hprev. rewrite Hprev in Htaken. destruct (_ && _); [done|].
    destruct (fresh_observation [previous] (Some o) true) as [x|reason|field].
    - intros E. by rewrite (proj2 (eqb_true (Some o) (Some previous)) (f_equal Some E)) in Htaken.
    - by eexists.
    - destruct field; try by eexists.
      destruct (obs_sequence o <? obs_sequence previous) eqn:Hlt; split; intros; try done; try lia.
      by eexists. }
  split.
  - intros _ _ previous Hprev. specialize (Hjudged previous Hprev).
    pose proof (fresh_of_two record previous o Hfor (sound_identity _ Hrow _ Hprev)) as Hfresh.
    set (fresh := fresh_observation [previous] (Some o) true) in Hfresh, Hjudged. clearbody fresh.
    destruct (eqb o previous) eqn:E; [apply eqb_eq in E; subst previous|apply eqb_neq in E].
    + rewrite andb_false_r in Hjudged. split_and!; [|lia|done]. intros _.
      destruct fresh as [x| |field]; [by apply Hjudged|by destruct Hfresh|].
      destruct field; try by destruct Hfresh. destruct Hfresh as [_ [?|[_ ?]]]; [lia|done].
    + split; [done|]. rewrite andb_true_r in Hjudged.
      destruct (ended_at_close previous) eqn:He; [split; [|done]|split].
      * intros Hlt _. rewrite Hjudged. unfold answered_after_close. rewrite Hprev. fold o.
        by rewrite (proj2 (Z.ltb_lt _ _) Hlt).
      * intros Hlt [Habout|?]; [|done].
        destruct fresh as [x| |field]; [destruct Hfresh as (_ & _ & [?|?]); [lia|done]|done|].
        destruct field; try done. by apply Hjudged.
      * intros _ _ Hcase.
        destruct fresh as [x| |field].
        -- destruct Hfresh as (_ & Ha & [?|?]); [|done]. by destruct Hcase; [lia|].
        -- done.
        -- destruct field; try done. destruct Hfresh as [Ha Hs]. apply Hjudged.
           destruct Hcase as [?|?]; done.
  - intros change Hok. split; [done|]. intros previous Hprev. split; [apply Hfor|].
    specialize (Hjudged previous Hprev). rewrite Hok in Hjudged.
    pose proof (fresh_of_two record previous o Hfor (sound_identity _ Hrow _ Hprev)) as Hfresh.
    set (fresh := fresh_observation [previous] (Some o) true) in Hfresh, Hjudged. clearbody fresh.
    destruct (ended_at_close previous && negb (eqb o previous)) eqn:Hend.
    + apply andb_true_iff in Hend as [Hend Hne]. to_prop. revert Hjudged. unfold answered_after_close. rewrite Hprev.
      fold o. destruct (obs_sequence o <? obs_sequence previous) eqn:Hlt; [intros [= ->]; by left|].
      intros _. right. destruct (decide (obs_sequence previous = obs_sequence o)); [right|left; lia].
      split_and!; done.
    + destruct fresh as [x| |field].
      * destruct Hfresh as (_ & _ & [?|E]); [by right; left|]. specialize (Hjudged E).
        injection Hjudged as ->. by left.
      * destruct Hjudged as [detail E]. congruence.
      * destruct field; try by (destruct Hjudged as [detail E]; congruence).
        destruct Hfresh as [_ [Hlt|[Heq _]]].
        -- apply proj1 in Hjudged. specialize (Hjudged Hlt). injection Hjudged as ->. by left.
        -- destruct (proj2 Hjudged Heq) as [detail E]. congruence.
Qed.

(** A request is dispatched once.  A dispatch the ledger takes leaves the record dispatched,
    in the epoch the log is in; its limit, when it counts from the dispatch, is set then and never
    again; and dispatching it a second time changes nothing. *)
Theorem dispatch_is_once state request_id change :
  ledger_sound state -> dispatched context state request_id = Ok change ->
  exists row row', row ∈ ledger_records state /\ row' ∈ ledger_records (change_state change)
    /\ rec_request_id row' = request_id /\ same_request row row'
    /\ rec_phase row' = RequestPhase.DISPATCHED
    /\ (rec_phase row = RequestPhase.DISPATCHED \/ rec_dispatched_in row' = Some (ledger_epoch state))
    /\ (not_none (rec_dispatched_at row) = true ->
        rec_dispatched_at row' = rec_dispatched_at row /\ rec_until row' = rec_until row)
    /\ dispatched context (change_state change) request_id = Ok (only (change_state change)).
Proof.
  intros Hsound Hok. pose proof (dispatched_moves context state request_id change Hsound Hok) as Hmoves.
  unfold dispatched in Hok.
  destruct (unique state request_id) as [[record|]|] eqn:Hu; cbn [rbind] in Hok; [|done..].
  apply unique_elem in Hu as [Hin <-].
  assert (exists row', row' ∈ ledger_records (change_state change)
    /\ same_request record row' /\ rec_phase row' = RequestPhase.DISPATCHED
    /\ (rec_phase record = RequestPhase.DISPATCHED \/ rec_dispatched_in row' = Some (ledger_epoch state))
    /\ (not_none (rec_dispatched_at record) = true ->
        rec_dispatched_at row' = rec_dispatched_at record /\ rec_until row' = rec_until record))
    as (row' & Hin' & Hs & Hp & He & Hd).
  { assert (Ok (E := LedgerError) (only (replace state (dispatched_record context state record))) = Ok change ->
      exists row', row' ∈ ledger_records (change_state change)
      /\ same_request record row' /\ rec_phase row' = RequestPhase.DISPATCHED
      /\ (rec_phase record = RequestPhase.DISPATCHED \/ rec_dispatched_in row' = Some (ledger_epoch state))
      /\ (not_none (rec_dispatched_at record) = true ->
          rec_dispatched_at row' = rec_dispatched_at record /\ rec_until row' = rec_until record)) as Hgo.
    { intros [= <-]. exists (dispatched_record context state record). split_and!.
      - apply (replace_elem state record); try done; [|by left].
        unfold dispatched_record. by destruct (_ && _).
      - unfold dispatched_record. by destruct (_ && _).
      - unfold dispatched_record. by destruct (_ && _).
      - right. unfold dispatched_record. by destruct (_ && _).
      - unfold dispatched_record, not_none. intros Hn. apply negb_true_iff in Hn. rewrite Hn.
        by rewrite andb_false_r. }
    destruct (rec_phase record) eqn:Hp; try done; [by apply Hgo| |].
    - injection Hok as <-. exists record. by split_and!; auto.
    - destruct (among _ _); [by apply Hgo|done]. }
  exists record, row'. pose proof (same_id _ _ Hs) as Hid. split_and!; try done.
  unfold dispatched. rewrite <- Hid, (unique_row _ row'); [|apply Hmoves|done]. simpl. by rewrite Hp.
Qed.

(** ** Retries *)

Lemma closes_at depth state record change :
  ledger_sound state -> record ∈ ledger_records state -> rec_phase record = RequestPhase.PREPARED ->
  apply_at context depth true state record (unsent_cancellation context record) = Ok change ->
  cancelled run state (change_state change) [rec_request_id record].
Proof.
  intros Hs Hr Hp Hclose. apply apply_at_answers in Hclose as [Hans Hnot]; try done.
  by apply cancels_of_answers; auto.
Qed.

(** An answer that is no success writes its row, and the cancellations it causes leave it. *)
Lemma advance_writes close state record facts change :
  (forall s r c, ledger_sound s -> r ∈ ledger_records s -> rec_phase r = RequestPhase.PREPARED ->
     close s r (unsent_cancellation context r) = Ok c ->
     cancelled run s (change_state c) [rec_request_id r]) ->
  ledger_sound state -> record ∈ ledger_records state ->
  rec_phase record <> RequestPhase.COMPLETED ->
  obs_request_id (facts_observation facts) = rec_request_id record ->
  obs_status (facts_observation facts) <> ObservationStatus.SUCCEEDED ->
  advance_phase context close state record facts = Ok change ->
  exists retry_at,
    retry_at_of context (rec_phase (answered_row context record facts retry_at))
      (rec_retry_count (answered_row context record facts retry_at))
      (facts_observation (exhausted context record facts)) = Ok retry_at
    /\ answered_row context record facts retry_at ∈ ledger_records (change_state change).
Proof.
  intros Hclose Hsound Hin Hc Habout Hst. unfold advance_phase.
  set (next := next_phase record (facts_observation (exhausted context record facts))).
  destruct (retry_at_of _ _ _ _) as [retry_at|] eqn:Hretry; cbn [rbind]; [|done].
  intros Hok. exists retry_at.
  change (record_answer record (exhausted context record facts) (fst next) (snd next) retry_at)
    with (answered_row context record facts retry_at) in Hok.
  destruct (record_answer_fields record (exhausted context record facts) (fst next) (snd next) retry_at)
    as (_ & Hp & Hn & Ho & _). fold next in Hp, Hn.
  change (record_answer record (exhausted context record facts) (fst next) (snd next) retry_at)
    with (answered_row context record facts retry_at) in Hp, Hn, Ho.
  rewrite Hp, Hn. split; [exact Hretry|].
  destruct (answered_row_written context state record record facts Hsound Hin (reflexivity record)
    eq_refl (fun o => prepared_never_closed run record o Hc) Habout retry_at) as (_ & Hs1 & _).
  destruct (answered_row_moves context record record facts (reflexivity record)
    eq_refl (fun o => prepared_never_closed run record o Hc) Habout retry_at) as (Hans & _ & Hid & Hnp).
  destruct (exhausted_spec context record facts) as (Hst' & _).
  set (updated := answered_row context record facts retry_at) in *.
  assert (updated ∈ ledger_records (replace state updated)) as Hup
    by (apply (replace_elem state record); try done; by left).
  revert Hok. destruct (owner_signals _ _ _) as [signals|]; cbn [rbind]; [|done].
  rewrite <- Hp. destruct (eqb (rec_phase updated) _); [|by intros [= <-]].
  assert (block_target (replace state updated) updated = Ok (replace state updated)) as ->.
  { unfold block_target. rewrite Ho. destruct (rec_request updated); try done.
    by rewrite Hst', (proj2 (eqb_false _ _) Hst). }
  cbn [rbind]. destruct (complete _ _ _) as [completed|]; cbn [rbind change_state]; [|done].
  rewrite Hst', (proj2 (eqb_false _ _) Hst).
  destruct (cancel_dependents _ _ _ _) as [cancels|] eqn:Hcan; cbn [rbind]; [|done].
  intros [= <-]. cbn [change_state finish].
  eapply cancel_dependents_cancelled in Hcan as [[_ _ Hq _] _]; [|exact Hclose|done]. by apply Hq.
Qed.

(** A later answer about an open record is not turned away. *)
Lemma apply_advances close state record facts change :
  row_sound record -> rec_phase record <> RequestPhase.COMPLETED ->
  (forall previous, rec_observation record = Some previous ->
     ended_at_close previous = false
     /\ obs_sequence previous < obs_sequence (facts_observation facts)) ->
  apply_with context close false state record facts = Ok change ->
  obs_request_id (facts_observation facts) = rec_request_id record
  /\ advance_phase context close state record facts = Ok change.
Proof.
  intros Hrow Hc Hlater. unfold apply_with. set (o := facts_observation facts) in *.
  destruct (observation_for record (Some o)) as [? | |] eqn:Hfor; [|done..].
  apply observation_for_identity in Hfor.
  destruct (eqb (rec_phase record) RequestPhase.PREPARED && _); [done|].
  rewrite (proj2 (eqb_false (rec_phase record) _) Hc).
  destruct (rec_observation record) as [previous|] eqn:Hprev; [|done].
  destruct (Hlater previous eq_refl) as [He Hlt]. rewrite He. cbn [andb].
  destruct (fresh_observation [previous] (Some o) true) as [x|reason|field] eqn:Hfresh; [|done|].
  - destruct (eqb (Some o) (Some previous)) eqn:Heq; [|done].
    apply eqb_eq in Heq. injection Heq as ->. lia.
  - destruct field; try done. destruct (_ <? _) eqn:Hlt'; [lia|done].
Qed.

Lemma answered_row_retry record facts retry_at :
  rec_retry_at (answered_row context record facts retry_at) = retry_at.
Proof.
  unfold answered_row, record_answer. set (f := exhausted context record facts).
  by destruct (facts_outcome f), (facts_operation_schema f).
Qed.

(** The row a retryable failure writes *)
Lemma retryable_row record facts retry_at :
  let o := facts_observation facts in
  let row := answered_row context record facts retry_at in
  obs_retryable o = true ->
  obs_status o <> ObservationStatus.SUCCEEDED /\
  if rec_retry_count record + 1 <=? retry_limit run (rec_request record)
  then rec_phase row = RequestPhase.DISPATCHED /\ rec_retry_count row = rec_retry_count record + 1
       /\ exhausted context record facts = facts
  else rec_phase row = RequestPhase.COMPLETED /\ rec_retry_count row = rec_retry_count record
       /\ let o' := facts_observation (exhausted context record facts) in
          obs_terminal o' = true /\ obs_released o' = true
          /\ starts_with EXHAUSTED (root (obs_event_id o')) = true /\ ended_at_close o' = false.
Proof.
  intros o row Hretry. subst row.
  assert (obs_status o <> ObservationStatus.SUCCEEDED /\ obs_terminal o = false
    /\ among (obs_status o) CONCLUSIVE = true
    /\ obs_status o <> ObservationStatus.UNKNOWN) as (Hst & Hterm & Hconc & Hunk).
  { unfold obs_retryable in Hretry. apply andb_true_iff in Hretry as [Ht Hr].
    apply negb_true_iff in Ht. destruct (obs_status o); try (by vm_compute in Hr); by split_and!. }
  split; [done|].
  destruct (record_answer_fields record (exhausted context record facts)
    (fst (next_phase record (facts_observation (exhausted context record facts))))
    (snd (next_phase record (facts_observation (exhausted context record facts)))) retry_at)
    as (_ & Hp & Hn & _).
  fold (answered_row context record facts retry_at) in Hp, Hn. rewrite Hp, Hn. clear Hp Hn.
  unfold exhausted. fold o. rewrite Hretry. cbn [negb orb]. destruct (_ <=? _).
  - fold o. unfold next_phase, conclusive.
    by rewrite Hterm, Hretry, (proj2 (eqb_false _ _) Hunk).
  - unfold next_phase, conclusive. simpl. by rewrite Hconc, (proj2 (eqb_false _ _) Hst).
Qed.

(** Its re-send: the record is prepared again, without the answer, and dispatched again when asked. *)
Lemma due_retry_resends context' state row due at_ :
  ledger_sound state -> row ∈ ledger_records state -> retry_wait_until row = Some due ->
  if flt (fmax (now_at context') at_) due
  then advance_record context' state (RetryDue (rec_request_id row) at_) = Ok (only state)
  else exists again row', advance_record context' state (RetryDue (rec_request_id row) at_) = Ok again
       /\ row' ∈ ledger_records (change_state again) /\ same_request row row'
       /\ rec_phase row' = RequestPhase.PREPARED /\ rec_observation row' = None
       /\ rec_retry_count row' = rec_retry_count row.
Proof.
  intros Hsound Hin Hdue. simpl. unfold retry. rewrite (unique_row _ row); [|apply Hsound|done].
  cbn [rbind]. rewrite Hdue. destruct (flt _ _); [done|].
  set (row' := resent row (now_at context')
                 (limits_reconciliation_bound (run_limits (context_run context')))).
  exists (reissue context' state row), row'. split_and!; try done.
  unfold reissue. fold row'. simpl. apply (replace_elem state row); try done. by left.
Qed.

Lemma prepared_dispatches context' state row epoch :
  ledger_sound state -> row ∈ ledger_records state -> rec_phase row = RequestPhase.PREPARED ->
  exists sent row', advance_record context' state (DispatchAuthorized (rec_request_id row) epoch) = Ok sent
    /\ row' ∈ ledger_records (change_state sent) /\ same_request row row'
    /\ rec_phase row' = RequestPhase.DISPATCHED /\ rec_retry_count row' = rec_retry_count row.
Proof.
  intros Hsound Hin Hp. simpl. unfold dispatched. rewrite (unique_row _ row); [|apply Hsound|done].
  cbn [rbind]. rewrite Hp. eexists _, (dispatched_record context' state row). split; [done|].
  assert (same_request row (dispatched_record context' state row)
    /\ rec_phase (dispatched_record context' state row) = RequestPhase.DISPATCHED
    /\ rec_retry_count (dispatched_record context' state row) = rec_retry_count row) as (Hs & ? & ?)
    by (unfold dispatched_record; by destruct (_ && _)).
  split_and!; try done. simpl. apply (replace_elem state row); [done..| |by left].
  exact (same_id _ _ Hs).
Qed.

Lemma waiting_retry_is_due state row due now :
  ledger_sound state -> row ∈ ledger_records state -> retry_wait_until row = Some due ->
  RetryDue (rec_request_id row) now ∈ due_retries state now <-> fle due now = true.
Proof.
  intros Hsound Hin Hdue. unfold due_retries. rewrite list_elem_of_omap. split.
  - intros (other & Hother & E). destruct (retry_wait_until other) as [its|] eqn:Hits; [|done].
    destruct (fle its now) eqn:Hle; [|done]. injection E as Hid.
    rewrite (same_row state other row (proj1 Hsound) Hother Hin Hid) in Hits. congruence.
  - intros Hle. exists row. split; [done|]. by rewrite Hdue, Hle.
Qed.

(** C12: retries run out.  A retryable failure of an open record waits for the back-off of that
    retry after the time it was heard, while the record's limit lasts: the retry falls due then and
    not before, changes nothing before, and from then on, in whatever context, prepares the record
    to be sent again, without the answer and one retry up; and the prepared record is dispatched
    again.  The answer that uses up the limit closes the record with the failure it reported,
    released: there is no re-send to wait for, and across any later events the record stays closed
    with that failure and no re-send.  An answer about it that comes next leaves the ledger as it
    is. *)
Theorem retries_run_out state record facts change :
  ledger_sound state -> record ∈ ledger_records state ->
  rec_phase record <> RequestPhase.COMPLETED ->
  (forall previous, rec_observation record = Some previous ->
     ended_at_close previous = false
     /\ obs_sequence previous < obs_sequence (facts_observation facts)) ->
  obs_retryable (facts_observation facts) = true ->
  apply_record context state record facts = Ok change ->
  let after := change_state change in
  let this := rec_request_id record in
  exists row o, row ∈ ledger_records after /\ same_request record row
    /\ rec_observation row = Some o /\ obs_status o = obs_status (facts_observation facts)
    /\ if rec_retry_count record + 1 <=? retry_limit run (rec_request record)
       then rec_phase row = RequestPhase.DISPATCHED
            /\ rec_retry_count row = rec_retry_count record + 1
            /\ exists seconds due, retry_delay context (rec_retry_count record + 1) = Ok seconds
               /\ due = fadd (now_at context) seconds /\ retry_wait_until row = Some due
               /\ (forall now, RetryDue this now ∈ due_retries after now <-> fle due now = true)
               /\ forall context' at_,
                  if flt (fmax (now_at context') at_) due
                  then advance_record context' after (RetryDue this at_) = Ok (only after)
                  else exists again prepared,
                       advance_record context' after (RetryDue this at_) = Ok again
                       /\ prepared ∈ ledger_records (change_state again)
                       /\ same_request record prepared
                       /\ rec_phase prepared = RequestPhase.PREPARED
                       /\ rec_observation prepared = None
                       /\ rec_retry_count prepared = rec_retry_count record + 1
                       /\ forall context'' epoch, exists sent out,
                          advance_record context'' (change_state again) (DispatchAuthorized this epoch)
                          = Ok sent
                          /\ out ∈ ledger_records (change_state sent) /\ same_request record out
                          /\ rec_phase out = RequestPhase.DISPATCHED
                          /\ rec_retry_count out = rec_retry_count record + 1
       else rec_phase row = RequestPhase.COMPLETED /\ rec_retry_count row = rec_retry_count record
            /\ obs_terminal o = true /\ obs_released o = true /\ retry_wait_until row = None
            /\ (forall log state', Forall (fun step => event_named (snd step)) log ->
                ledger_after after log = Ok state' ->
                exists closed o', closed ∈ ledger_records state' /\ same_request record closed
                  /\ rec_phase closed = RequestPhase.COMPLETED /\ retry_wait_until closed = None
                  /\ rec_observation closed = Some o' /\ disposition_kept o o')
            /\ forall context' event,
               obs_request_id (facts_observation (observed_facts event)) = this ->
               observation_event context' after event = Ok (only after).
Proof.
  intros Hsound Hin Hc Hlater Hretry Hok after this. subst after this.
  pose proof (apply_record_answers context state record facts change Hsound Hin) as Hans.
  assert (answer_named record facts) as Hnamed by (by intros E).
  specialize (Hans Hnamed Hok). destruct Hans as [_ Hs' _].
  assert (exists close, (forall s r c, ledger_sound s -> r ∈ ledger_records s ->
      rec_phase r = RequestPhase.PREPARED -> close s r (unsent_cancellation context r) = Ok c ->
      cancelled run s (change_state c) [rec_request_id r])
    /\ apply_with context close false state record facts = Ok change) as (close & Hclose & Happly).
  { unfold apply_record in Hok. destruct (depth_of state) as [|depth]; simpl in Hok.
    - by exists (fun _ _ _ => Err TooDeep).
    - exists (apply_at context depth true). split; [|done]. intros. by eapply closes_at. }
  apply apply_advances in Happly as [Habout Hadvance]; [|exact (sound_row _ _ Hsound Hin)|done|done].
  destruct (retryable_row record facts None Hretry) as [Hst _].
  apply advance_writes in Hadvance as (retry_at & Hat & Hwritten); try done.
  destruct (retryable_row record facts retry_at Hretry) as [_ Hrow].
  destruct (answered_row_spec context record facts retry_at) as (Hs & Ho & _).
  pose proof (answered_row_retry record facts retry_at) as Hwhen.
  set (row := answered_row context record facts retry_at) in *.
  exists row, (facts_observation (exhausted context record facts)).
  split_and!; [done..|apply exhausted_spec|].
  assert (ledger_sound (change_state change)) as Hsound' by exact Hs'.
  rewrite <- (same_id _ _ Hs). destruct (_ <=? _).
  - destruct Hrow as (Hp & Hn & He). split_and!; [done|done|].
    unfold retry_at_of in Hat. rewrite Hp, Hn, He, Hretry in Hat. simpl in Hat.
    destruct (retry_delay _ _) as [seconds|]; cbn [rbind] in Hat; [|done].
    assert (retry_wait_until row = Some (fadd (now_at context) seconds)) as Hdue.
    { unfold retry_wait_until. rewrite Ho, Hwhen, He, Hp, Hretry. simpl. congruence. }
    exists seconds, (fadd (now_at context) seconds). split_and!; try done.
    + intros now. by apply waiting_retry_is_due.
    + intros context' at_.
      pose proof (due_retry_resends context' _ row _ at_ Hsound' Hwritten Hdue) as Hdone.
      destruct (flt _ _); [exact Hdone|]. destruct Hdone as (again & prepared & Hadv & Hprep & Hsame & Hph & Hno & Hcount).
      exists again, prepared. split_and!; [done|done|by etrans|done|done|congruence|].
      intros context'' epoch.
      assert (ledger_sound (change_state again)) as Hsound''
        by (apply advance_moves in Hadv as [_ _ ?]; done).
      destruct (prepared_dispatches context'' _ prepared epoch Hsound'' Hprep Hph)
        as (sent & out & Hsent & Hout & Hsame' & Hph' & Hcount').
      rewrite (same_id _ _ Hsame) in Hsent. exists sent, out. split_and!; [done|done| |done|congruence].
      etrans; [exact Hs|]. by etrans.
  - destruct Hrow as (Hp & Hn & Ht & Hr & He & Hend). split_and!; try done.
    + unfold retry_wait_until. by rewrite Ho, Hp.
    + intros log state' Hlog Hafter.
      pose proof (closed_rows_stand log _ _ Hsound' Hlog Hafter) as Hrows.
      destruct (Forall2_in_l _ _ _ _ Hrows Hwritten) as (closed & Hclosed & Hsame & Hstand).
      destruct (Hstand _ Hp Ho Hend) as (o' & Hp' & Ho' & Hkept & _).
      exists closed, o'. split_and!; try done; [by etrans|]. unfold retry_wait_until. by rewrite Ho', Hp'.
    + intros context' event Hid. unfold observation_event, is_late.
      rewrite Hid, (unique_row _ row); [|apply Hs'|done].
      cbn [rbind]. rewrite Ho. cbn [rbind]. by rewrite He.
Qed.
End Answer.

(** ** A small ledger *)

#[local] Instance plain_digests : Digests :=
  {| digest_request := fun _ => ""%string; digest_command := fun _ => ""%string |}.

Definition sample_records : RecordsContext :=
  {| context_run := sample_run; context_registry := []; context_attempts := [];
     context_sessions := core_sessions sample_running;
     context_evaluation := core_evaluation sample_running |}.

(** An answer about the step "a" *)
Definition sample_answer (number : Z) (status : ObservationStatus) (final : bool) : Observation :=
  {| obs_event_id := MkIdentity "answer"; obs_request_id := sample_tag "a";
     obs_scope := sample_scope; obs_sequence := number; obs_observed_at := seconds 10;
     obs_status := status; obs_resource_id := None; obs_revision := None;
     obs_measured_input := None; obs_accepted := true; obs_terminal := final;
     obs_released := final; obs_children := []; obs_children_complete := false;
     obs_child_manifest := None; obs_admission_id := None; obs_diagnostic := "" |}.
Definition sample_failure : Facts :=
  facts_of_observation (sample_answer 1 ObservationStatus.FAILED true).
Definition sample_child : ResourceId := MkIdentity "child".

(** "a" is out; "b" needs it, and "c" needs "b". *)
Definition sample_sent : RequestRecord := sample_record "a" [] RequestPhase.DISPATCHED 500.
Definition sample_waiting : list RequestRecord :=
  [sample_record "b" ["a"%string] RequestPhase.PREPARED 500;
   sample_record "c" ["b"%string] RequestPhase.PREPARED 500].
Definition sample_chain : RecordsState :=
  {| ledger_records := sample_sent :: sample_waiting; ledger_epoch := 1 |}.

(** "a" has failed; a later answer about it adds a child. *)
Definition sample_closed : RequestRecord :=
  record_answer sample_sent sample_failure RequestPhase.COMPLETED 0 None.
Definition sample_ended : RecordsState :=
  {| ledger_records := [sample_closed]; ledger_epoch := 1 |}.
Definition sample_more : RecordsEvent :=
  Observed {| observed_facts := facts_of_observation
                ((sample_answer 2 ObservationStatus.FAILED true) <| obs_children := [sample_child] |>);
              observed_target := None |}.

(** "a" has failed [sent] times already, and may be sent again. *)
Definition sample_resent (sent : Z) : RequestRecord := sample_sent <| rec_retry_count := sent |>.
Definition sample_retry (sent : Z) : RecordsState :=
  {| ledger_records := [sample_resent sent]; ledger_epoch := 1 |}.
Definition sample_again : Facts :=
  facts_of_observation (sample_answer 1 ObservationStatus.FAILED false).

Lemma sample_open_sound name needs phase limit :
  phase <> RequestPhase.COMPLETED -> row_sound (sample_record name needs phase limit).
Proof. intros Hp. by split. Qed.

Lemma chain_sound : ledger_sound sample_chain.
Proof.
  split; [apply (bool_decide_unpack _); vm_compute; exact I|].
  repeat constructor; by apply sample_open_sound.
Qed.

Lemma ended_sound : ledger_sound sample_ended.
Proof.
  split; [apply (bool_decide_unpack _); vm_compute; exact I|]. constructor; [|constructor].
  split; try done.
  - intros o [= <-]. done.
  - intros _. by eexists.
Qed.

Lemma retry_sound sent : ledger_sound (sample_retry sent).
Proof. split; [by repeat constructor; intros ?%not_elem_of_nil|]. constructor; [by split|constructor]. Qed.

(** The failure of "a" cancels "b", whose cancellation cancels "c". *)
Example failure_cancels_the_chain :
  match apply_record sample_records sample_chain sample_sent sample_failure with
  | Ok change => map rec_phase (ledger_records (change_state change))
  | Err _ => []
  end = [RequestPhase.COMPLETED; RequestPhase.COMPLETED; RequestPhase.COMPLETED].
Proof. vm_compute. reflexivity. Qed.

(** ** Witnesses *)

Definition sample_log : list (RecordsContext * RecordsEvent) := [(sample_records, sample_more)].

Lemma sample_log_named : Forall (fun step => event_named (snd step)) sample_log.
Proof. repeat constructor. by intros. Qed.

Lemma closed_records_stand_witness :
  exists state', ledger_after sample_ended sample_log = Ok state'
  /\ exists row' o', row' ∈ ledger_records state' /\ same_request sample_closed row'
    /\ rec_phase row' = RequestPhase.COMPLETED /\ rec_observation row' = Some o'
    /\ disposition_kept (facts_observation sample_failure) o'.
Proof.
  eexists. split; [vm_compute; reflexivity|].
  eapply (closed_records_stand sample_log sample_ended);
    [exact ended_sound|exact sample_log_named|vm_compute; reflexivity|left|reflexivity|reflexivity|reflexivity].
Defined.

Lemma ledger_stays_sound_witness :
  exists state', ledger_after sample_ended sample_log = Ok state'
  /\ ledger_sound state'.
Proof.
  eexists. split; [vm_compute; reflexivity|].
  eapply (ledger_stays_sound sample_log sample_ended);
    [exact ended_sound|exact sample_log_named|vm_compute; reflexivity].
Defined.

Definition sample_resend : list (RecordsContext * RecordsEvent) :=
  [(sample_records, Observed {| observed_facts := sample_again; observed_target := None |})].

Lemma resends_stay_bounded_witness :
  exists state', ledger_after (sample_retry 1) sample_resend = Ok state'
  /\ exists row', row' ∈ ledger_records state' /\ same_request (sample_resent 1) row'
    /\ 1 <= rec_retry_count row' <= 2.
Proof.
  eexists. split; [vm_compute; reflexivity|].
  eapply (resends_stay_bounded sample_resend (sample_retry 1) _ (sample_resent 1) 2);
    [apply retry_sound|repeat constructor; by intros|vm_compute; reflexivity|left| |simpl; lia].
  intros context event [= -> _]%list_elem_of_singleton. vm_compute. discriminate.
Defined.

Lemma failure_strands_no_one_witness :
  exists change, apply_record sample_records sample_chain sample_sent sample_failure = Ok change
  /\ forall row, ~ stranded (change_state change) row (sample_tag "a").
Proof.
  eexists. split; [vm_compute; reflexivity|].
  eapply (failure_strands_no_one sample_records sample_chain sample_sent sample_failure);
    [exact chain_sound|left|intros E; discriminate E|vm_compute; reflexivity|discriminate].
Defined.

(** Beside the chain, a step that is out and one that does not need "a". *)
Definition sample_other : RequestRecord := sample_record "d" [] RequestPhase.DISPATCHED 500.
Definition sample_beside : RecordsState :=
  {| ledger_records := sample_sent :: sample_other :: sample_waiting; ledger_epoch := 1 |}.

Lemma answer_touches_little_witness :
  exists change, apply_record sample_records sample_beside sample_sent sample_failure = Ok change
  /\ sample_other ∈ ledger_records (change_state change).
Proof.
  eexists. split; [vm_compute; reflexivity|].
  eapply (answer_touches_little sample_records sample_beside sample_sent sample_failure _ sample_other);
    [|left|intros E; discriminate E|vm_compute; reflexivity|right; left|discriminate|discriminate|
     intros b target reason E; discriminate E].
  split; [apply (bool_decide_unpack _); vm_compute; exact I|].
  repeat constructor; by apply sample_open_sound.
Defined.

Lemma cancellations_end_witness :
  apply_record sample_records sample_chain sample_sent sample_failure <> Err TooDeep.
Proof. apply (cancellations_end sample_records); [exact chain_sound|left]. Defined.

Definition sample_later : Facts :=
  facts_of_observation ((sample_answer 2 ObservationStatus.FAILED true)
                          <| obs_children := [sample_child] |>).

(** After the failure, a later answer is taken, the same one again changes nothing, and another one
    of its number is refused. *)
Lemma answers_in_sequence_witness :
  apply_record sample_records sample_ended sample_closed sample_failure = Ok (only sample_ended)
  /\ (exists detail, apply_record sample_records sample_ended sample_closed
       (facts_of_observation (sample_answer 1 ObservationStatus.CANCELLED true))
     = Err (ContractError ["observation"; "sequence"] detail))
  /\ exists change, apply_record sample_records sample_ended sample_closed sample_later = Ok change
     /\ rec_phase sample_closed <> RequestPhase.PREPARED.
Proof.
  assert (sample_closed ∈ ledger_records sample_ended) as Hin by left.
  assert (forall number status final, about sample_closed (sample_answer number status final)) as Habout.
  { intros. split; try reflexivity. intros E. discriminate E. }
  destruct (answers_in_sequence sample_records sample_ended sample_closed sample_failure ended_sound Hin)
    as (_ & _ & Hsame & _).
  destruct (answers_in_sequence sample_records sample_ended sample_closed
    (facts_of_observation (sample_answer 1 ObservationStatus.CANCELLED true)) ended_sound Hin)
    as (_ & _ & Hother & _).
  destruct (answers_in_sequence sample_records sample_ended sample_closed sample_later ended_sound Hin)
    as (_ & _ & _ & Hlater).
  split_and!.
  - apply (proj1 (Hsame (Habout _ _ _) ltac:(discriminate) _ eq_refl)). reflexivity.
  - apply (proj2 (proj2 (Hother (Habout _ _ _) ltac:(discriminate) _ eq_refl)));
      [discriminate|reflexivity|left; reflexivity].
  - eexists. split; [vm_compute; reflexivity|]. apply (Hlater _ ltac:(vm_compute; reflexivity)).
Defined.

(** "e" is ready to go out. *)
Definition sample_ready : RecordsState :=
  {| ledger_records := [sample_record "e" [] RequestPhase.PREPARED 500]; ledger_epoch := 1 |}.

Lemma dispatch_is_once_witness :
  exists change, dispatched sample_records sample_ready (sample_tag "e") = Ok change
  /\ dispatched sample_records (change_state change) (sample_tag "e")
     = Ok (only (change_state change)).
Proof.
  eexists. split; [vm_compute; reflexivity|].
  edestruct (dispatch_is_once sample_records sample_ready (sample_tag "e"))
    as (row & row' & Hrest); [|vm_compute; reflexivity|apply Hrest].
  split; [apply (bool_decide_unpack _); vm_compute; exact I|].
  repeat constructor; by apply sample_open_sound.
Defined.

(** The second failure of "a" is the last it may be sent again for; the third closes it. *)
Lemma retries_run_out_witness :
  (exists change again, apply_record sample_records (sample_retry 1) (sample_resent 1) sample_again = Ok change
   /\ advance_record sample_records (change_state change) (RetryDue (sample_tag "a") (seconds 10000)) = Ok again
   /\ exists row, row ∈ ledger_records (change_state again) /\ rec_phase row = RequestPhase.PREPARED)
  /\ exists change, apply_record sample_records (sample_retry 2) (sample_resent 2) sample_again = Ok change
  /\ exists row, row ∈ ledger_records (change_state change)
     /\ rec_phase row = RequestPhase.COMPLETED.
Proof.
  split.
  - edestruct (retries_run_out sample_records (sample_retry 1) (sample_resent 1) sample_again)
      as (row & o & _ & _ & _ & _ & _ & _ & wait & due & Hdelay & Hdue & _ & _ & Hsend);
      [apply retry_sound|left|discriminate|intros p E; discriminate E|reflexivity|vm_compute; reflexivity|].
    specialize (Hsend sample_records (seconds 10000)). vm_compute in Hdelay. injection Hdelay as <-.
    rewrite Hdue in Hsend. destruct Hsend as (again & prepared & E & Hprepared & _ & Hphase & _).
    eexists. exists again. split; [vm_compute; reflexivity|].
    split; [exact E|]. exists prepared. split; [exact Hprepared|exact Hphase].
  - eexists. split; [vm_compute; reflexivity|].
    edestruct (retries_run_out sample_records (sample_retry 2) (sample_resent 2) sample_again)
      as (row & o & Hin & _ & _ & _ & Hrest);
      [apply retry_sound|left|discriminate|intros p E; discriminate E|reflexivity|vm_compute; reflexivity|].
    exists row. split; [exact Hin|]. exact (proj1 Hrest).
Defined.

(** ** A manifest an answer adds is dropped *)

(** A failure that names no child and does not claim to name all *)
Definition sample_proof : Observation :=
  (sample_answer 2 ObservationStatus.FAILED true)
    <| obs_children_complete := true |>
    <| obs_child_manifest := Some {| manifest_members := [sample_child];
                                       manifest_basis := ManifestBasis.ENUMERATED |} |>.

(** A later answer that proves the descendants of a closed request by a complete manifest
    makes the ledger record that the set is complete, without the manifest: the record then claims
    that all descendants are known and names none, while the answer named one. *)
Theorem refine_drops_the_manifest :
  exists change recorded,
    refine sample_ended sample_closed sample_proof = Ok change
    /\ rec_observation recorded = Some (refined (facts_observation sample_failure) sample_proof)
    /\ ledger_records (change_state change) = [recorded]
    /\ manifest_covers_children sample_proof = Ok tt
    /\ obs_descendants sample_proof = [sample_child]
    /\ obs_children_complete (refined (facts_observation sample_failure) sample_proof) = true
    /\ obs_descendants (refined (facts_observation sample_failure) sample_proof) = [].
Proof.
  eexists. exists (sample_closed
    <| rec_observation := Some (refined (facts_observation sample_failure) sample_proof) |>
    <| rec_sequence := Some 2 |>).
  split; [vm_compute; reflexivity|]. split_and!; vm_compute; reflexivity.
Qed.

(** A later answer that names a child the closing manifest lacks makes the ledger record an
    observation its own validator refuses. *)
Theorem refine_breaks_the_manifest :
  let held := sample_proof <| obs_sequence := 1 |> in
  let later := (sample_answer 2 ObservationStatus.FAILED true)
                 <| obs_children := [MkIdentity "other"] |> in
  manifest_covers_children held = Ok tt /\ manifest_covers_children later = Ok tt
  /\ agrees held later = true /\ adds held later = true
  /\ manifest_covers_children (refined held later) <> Ok tt.
Proof. split_and!; try (vm_compute; reflexivity). vm_compute. discriminate. Qed.
