(* ===== verification/Waits.v ===== *)
(** * What ends every wait

    [libs/vs-core/src/vs_core/_waits.py]: the wait each entity recorded, what can still end it (an
    open request, an answer on its way, a timer), the waits nothing can end, and the resolvers the
    step runs on those.

    The walk over the commands about a request takes fuel, one more than the ledger has records
    ([open_reaches] says it is enough).  The walk over the entities a wait names takes fuel too and
    raises when it runs out, as Python does on a chain that never ends; a chain that keeps to
    [MAY_WAIT_ON] is answered ([live_total]). *)

From S2P Require Import Prelude PyFloat Identities Values Requests Records State Clock Proofs.
From S2P Require Import Permit Order Answers Episode.

Local Open Scope string_scope.

(** ** Producers and resolutions *)

Module Producer.
Inductive Producer : Set := PENDING_REQUEST | OUTBOX_EVENT | TIMER.
End Producer.
Abbreviation Producer := Producer.Producer.
#[export] Instance Producer_dec : EqDecision Producer.
Proof. solve_decision. Defined.

(** [Outcome] *)
Module WaitOutcome.
Inductive WaitOutcome : Set := FAILS_WITH_REASON | RETRIES_THEN_FAILS | WAITS_AGAIN | HALTS_THE_RUN.
End WaitOutcome.
Abbreviation WaitOutcome := WaitOutcome.WaitOutcome.
#[export] Instance WaitOutcome_dec : EqDecision WaitOutcome.
Proof. solve_decision. Defined.

Record Resolution := {
  resolution_outcome : WaitOutcome;
  resolution_reason : string
}.

Definition RESOLUTIONS (kind : WaitKind) : Resolution :=
  match kind with
  | WaitKind.YIELD_PUBLICATION =>
      {| resolution_outcome := WaitOutcome.FAILS_WITH_REASON;
         resolution_reason :=
           "YieldPublicationFailed(checkpoint_declined | no_checkpoint | unpublishable)" |}
  | WaitKind.INTERRUPT =>
      {| resolution_outcome := WaitOutcome.FAILS_WITH_REASON;
         resolution_reason :=
           "InterruptFailed(checkpoint_declined | no_checkpoint | unpublishable)" |}
  | WaitKind.REFUND =>
      {| resolution_outcome := WaitOutcome.FAILS_WITH_REASON;
         resolution_reason :=
           "InterruptFailed(refund_unapplied)" |}
  | WaitKind.DISPATCH =>
      {| resolution_outcome := WaitOutcome.FAILS_WITH_REASON;
         resolution_reason :=
           "the request is cancelled unsent; its owner hears a conclusive failure" |}
  | WaitKind.RETRY =>
      {| resolution_outcome := WaitOutcome.RETRIES_THEN_FAILS;
         resolution_reason :=
           "after Limits.request_retries retries the request ends failed, not accepted" |}
  | WaitKind.TURN_ACQUISITION =>
      {| resolution_outcome := WaitOutcome.FAILS_WITH_REASON;
         resolution_reason :=
           "the turn ends cancelled with TurnResult.detail naming that nothing carried " +:+
           "its acquisition forward; its decision completes cancelled" |}
  | WaitKind.BLOCKED_RECORD =>
      {| resolution_outcome := WaitOutcome.FAILS_WITH_REASON;
         resolution_reason :=
           "the record ends failed (diagnostic names the close), keeping the ownership " +:+
           "facts it reported; the strategy already heard RequestBlocked" |}
  | WaitKind.SESSION =>
      {| resolution_outcome := WaitOutcome.HALTS_THE_RUN;
         resolution_reason :=
           "a request that ends without moving its session wakes it, and it waits on its " +:+
           "other requests still open. Once none is left, an unknown session cancels its " +:+
           "turn as lost or closes its known lease, and a closing session inspects its " +:+
           "unanswered turn once and sends its close once more. The run halts when the " +:+
           "turn is still not ended after that inspection (a turn that may be running is " +:+
           "never released), when the second close ends unanswered too, or for an " +:+
           "ambiguous ensure whose lease core does not know" |}
  | WaitKind.OWNED_JOB =>
      {| resolution_outcome := WaitOutcome.WAITS_AGAIN;
         resolution_reason :=
           "a poll that ends without moving its job (blocked at its bound, or its answer " +:+
           "refused) wakes the job, which polls again after its backoff; a registered job " +:+
           "whose operation ended without naming a job ends with what that request " +:+
           "reported" |}
  | WaitKind.RELEASE_DEPENDENCY =>
      {| resolution_outcome := WaitOutcome.HALTS_THE_RUN;
         resolution_reason :=
           "a release recorded after the attempt stopped listening is not re-announced" |}
  end.

Record OpenWait := {
  open_waiter : WaitKind;
  open_subject : string;
  open_producer : option Producer
}.
#[export] Instance OpenWait_dec : EqDecision OpenWait.
Proof. solve_decision. Defined.

Definition continuation_waits (phase : ContinuationPhase) : bool :=
  match phase with
  | ContinuationPhase.WAITING | ContinuationPhase.AUTHORIZED | ContinuationPhase.RESUMED
  | ContinuationPhase.PARKED | ContinuationPhase.CANCELLED | ContinuationPhase.REOPENING
  | ContinuationPhase.BLOCKED => false
  end.

Inductive WaitingPhase : Set :=
  | OfRequest (phase : RequestPhase)
  | OfSession (phase : SessionPhase)
  | OfContinuation (phase : ContinuationPhase).

Definition phase_waits (phase : WaitingPhase) : bool :=
  match phase with
  | OfRequest phase => phase_open phase
  | OfSession phase => session_waits phase
  | OfContinuation phase => continuation_waits phase
  end.

(** [_SETTLES_LAST] and [_reported] *)
Definition SETTLES_LAST : list Producer :=
  [Producer.TIMER; Producer.PENDING_REQUEST; Producer.OUTBOX_EVENT].
Definition reported_producer (found : list Producer) : option Producer :=
  next_such (fun producer => among producer found) SETTLES_LAST.

(** [MAY_WAIT_ON] and [_MOVED_ONLY_BY_OPEN_REQUESTS] *)
Definition MAY_WAIT_ON (kind : WaitKind) : list WaitKind :=
  match kind with
  | WaitKind.TURN_ACQUISITION => [WaitKind.SESSION]
  | _ => []
  end.
Definition MOVED_ONLY_BY_OPEN_REQUESTS : list WaitKind := [WaitKind.OWNED_JOB].

(** The value of a kind *)
Definition kind_value (kind : WaitKind) : string :=
  match kind with
  | WaitKind.SESSION => "session" | WaitKind.OWNED_JOB => "owned-job"
  | WaitKind.RELEASE_DEPENDENCY => "release-dependency"
  | WaitKind.YIELD_PUBLICATION => "yield-publication" | WaitKind.INTERRUPT => "interrupt"
  | WaitKind.REFUND => "refund" | WaitKind.DISPATCH => "dispatch" | WaitKind.RETRY => "retry"
  | WaitKind.TURN_ACQUISITION => "turn-acquisition"
  | WaitKind.BLOCKED_RECORD => "blocked-record"
  end.

(** [dict(pairs).get(key)]: the last pair of a key is the one a dict keeps. *)
Definition dict_lookup {K A} `{EqDecision K} (pairs : list (K * A)) (key : K) : option A :=
  option_map snd (next_such (fun pair => eqb (fst pair) key) (rev pairs)).

Definition subject_of (kind : WaitKind) (identity : string) : WaitSubject :=
  {| subject_kind := kind; subject_identity := identity |}.

(** ** What can still end a request *)

(** [_dispatched_by_dead_host] *)
Definition dispatched_by_dead_host (records : RecordsState) (record : RequestRecord) : bool :=
  negb (eqb (rec_phase record) RequestPhase.PREPARED)
  && match rec_dispatched_in record with
     | Some epoch => (epoch <? ledger_epoch records)%Z
     | None => false
     end.

(** [_reconciliation_command] *)
Definition reconciliation_command (record : RequestRecord) : bool :=
  match rec_request record with
  | InspectRequest _ _ _ | CancelOwnedResource _ _ _ | BlockRequest _ _ _ => true
  | _ => false
  end.

(** [_answered_in_this_epoch] *)
Definition answered_in_this_epoch (records : RecordsState) (request_id : RequestId) : bool :=
  match record_of records (Some request_id) with
  | Some command => negb (phase_open (rec_phase command))
                    && eqb (rec_dispatched_in command) (Some (ledger_epoch records))
  | None => false
  end.

(** [_open] *)
Fixpoint open_from (fuel : nat) (records : RecordsState) (seen : list RequestId)
    (request_id : RequestId) : bool :=
  match fuel with
  | O => false
  | S fuel =>
      match record_of records (Some request_id) with
      | None => false
      | Some record =>
          if among request_id seen then false
          else
            let waiting := phase_open (rec_phase record) in
            if waiting && negb (dispatched_by_dead_host records record) then true
            else if negb waiting && negb (reconciliation_command record) then false
            else any (fun command =>
                        (waiting && answered_in_this_epoch records command)
                        || open_from fuel records (request_id :: seen) command)
                     (rec_addressed_by record)
      end
  end.
Definition still_open (records : RecordsState) (request_id : RequestId) : bool :=
  open_from (S (length (ledger_records records))) records [] request_id.

(** [_taken_on] *)
Definition taken_on (in_flight : list Request) : list RequestId :=
  (omap req_request_id in_flight
   ++ omap (fun request =>
              match request with
              | InspectRequest _ target _ | CancelOwnedResource _ _ target
              | BlockRequest _ target _ => Some target
              | _ => None
              end) in_flight)%list.

(** ** What can still end a wait *)

(** Python's [RecursionError], of a chain of waits that never ends *)
Inductive WaitsError : Set := RecursionError.

(** [_live] *)
Fixpoint live (fuel : nat) (records : RecordsState) (named : WaitSubject -> option WaitOn)
    (wait : WaitOn) (queued sent : list RequestId) : result WaitsError (list Producer) :=
  match fuel with
  | O => Err RecursionError
  | S fuel =>
      let pending :=
        any (fun request => still_open records request || among request sent) (wait_requests wait) in
      let outbox := any (fun request => among request queued) (wait_requests wait) in
      let* carried :=
        rfold (fun found subject =>
                 match named subject with
                 | None => Ok found
                 | Some entity =>
                     let heard := if among (subject_kind subject) MOVED_ONLY_BY_OPEN_REQUESTS
                                  then [] else queued in
                     let* more := live fuel records named entity heard sent in
                     Ok (found ++ more)%list
                 end) [] (wait_subjects wait) in
      Ok ((if pending then [Producer.PENDING_REQUEST] else [])
          ++ (if outbox then [Producer.OUTBOX_EVENT] else []) ++ carried
          ++ (if is_none (wait_timer wait) then [] else [Producer.TIMER]))%list
  end.

(** A chain of named entities that ends names each one at most once. *)
Definition live_in (records : RecordsState) (named : list (WaitSubject * WaitOn)) (wait : WaitOn)
    (queued sent : list RequestId) : result WaitsError (list Producer) :=
  live (S (length named)) records (dict_lookup named) wait queued sent.

(** ** Recorded waits *)

(** [_acquiring] *)
Definition acquiring (sessions : SessionsState) : list Invocation :=
  List.filter turn_acquires (sessions_invocations sessions).

(** A pair for an entity that recorded a wait *)
Definition named_by (subject : WaitSubject) (wait : option WaitOn) : option (WaitSubject * WaitOn) :=
  option_map (fun wait => (subject, wait)) wait.

Definition session_subject (session : SessionView) : WaitSubject :=
  subject_of WaitKind.SESSION (root (session_session_id (view_spec session))).
Definition turn_subject (kind : WaitKind) (invocation : InvocationRef) : WaitSubject :=
  subject_of kind (root (iref_invocation_id invocation)).

(** [_session_waits_of], as the pairs of its dict, and [_session_waits] *)
Definition session_waits_of (sessions : SessionsState) : list (WaitSubject * WaitOn) :=
  omap (fun session => named_by (session_subject session) (view_wait session))
       (sessions_sessions sessions).

(** [owned_job_subject] *)
Definition owned_job_subject (job : Job) : WaitSubject :=
  match job with
  | Owned job => subject_of WaitKind.OWNED_JOB (root (job_resource_id job))
  | RegisteredOwned job => subject_of WaitKind.OWNED_JOB (root (rjob_request_id job))
  end.

Definition job_wait_of : Job -> option WaitOn := both job_wait rjob_wait.

(** The jobs of [core.evaluation.jobs], then those of [registered_jobs] *)
Definition jobs_of (core : CoreState) : list Job :=
  (map Owned (eval_jobs (core_evaluation core))
   ++ map RegisteredOwned (eval_registered_jobs (core_evaluation core)))%list.

(** [_job_waits] *)
Definition job_waits (core : CoreState) : list (WaitSubject * RequestId * WaitOn) :=
  omap (fun job => option_map (fun wait => (owned_job_subject job, source_request job, wait))
                              (job_wait_of job)) (jobs_of core).

(** [_turn_waits] *)
Definition turn_waits (core : CoreState) : list (WaitSubject * WaitOn) :=
  omap (fun row => named_by (turn_subject WaitKind.TURN_ACQUISITION (inv_invocation row))
                            (inv_wait row)) (acquiring (core_sessions core)).

(** [_checkpoint_waits] *)
Definition checkpoint_waits (core : CoreState) : list (WaitSubject * WaitOn) :=
  (omap (fun row => if not_none (inv_pending_suspension row)
                    then named_by (turn_subject WaitKind.YIELD_PUBLICATION (inv_invocation row))
                                  (inv_wait row)
                    else None) (sessions_invocations (core_sessions core))
   ++ omap (fun row => named_by (turn_subject WaitKind.INTERRUPT (claim_invocation row))
                                (claim_wait row)) (sessions_interrupts (core_sessions core)))%list.

(** [recorded_waits] *)
Definition recorded_waits (core : CoreState) : list (WaitSubject * WaitOn) :=
  (map (fun '(subject, _, wait) => (subject, wait)) (job_waits core)
   ++ session_waits_of (core_sessions core) ++ turn_waits core ++ checkpoint_waits core)%list.

(** [wait_producers] *)
Definition wait_producers (core : CoreState) (wait : WaitOn) (queued : list RequestId)
    : result WaitsError (list Producer) :=
  live_in (core_records core) (recorded_waits core) wait queued [].

(** [_request_open] and [_request_ended] *)
Definition request_open (core : CoreState) (request_id : RequestId) : bool :=
  match record_of (core_records core) (Some request_id) with
  | Some record => phase_open (rec_phase record)
  | None => false
  end.
Definition request_ended (core : CoreState) (request_id : RequestId) : bool :=
  match record_of (core_records core) (Some request_id) with
  | Some record => negb (phase_open (rec_phase record))
  | None => false
  end.

(** ** Waits on a request that is over *)

(** [JobWaitLapsed] and [SessionWaitLapsed] *)
Record JobWaitLapsed := {
  lapsed_job : RequestId;
  lapsed_job_request : RequestId
}.
#[export] Instance JobWaitLapsed_dec : EqDecision JobWaitLapsed.
Proof. solve_decision. Defined.
Record SessionWaitLapsed := {
  lapsed_session : SessionId;
  lapsed_session_request : RequestId
}.
#[export] Instance SessionWaitLapsed_dec : EqDecision SessionWaitLapsed.
Proof. solve_decision. Defined.

(** [lapsed_job_waits] *)
Definition lapsed_job_waits (core : CoreState) : list JobWaitLapsed :=
  if eqb (run_status (core_run core)) RunStatus.TERMINAL then []
  else
    (flat_map (fun '(_, owner, wait) =>
                 omap (fun request_id =>
                         if request_ended core request_id
                         then Some {| lapsed_job := owner; lapsed_job_request := request_id |}
                         else None) (wait_requests wait)) (job_waits core)
     ++ omap (fun job =>
                match job_collecting job with
                | Some collecting =>
                    if request_ended core collecting
                    then Some {| lapsed_job := job_submission_id job;
                                 lapsed_job_request := collecting |}
                    else None
                | None => None
                end) (eval_jobs (core_evaluation core)))%list.

(** [_reply_in_transit] *)
Definition reply_in_transit (core : CoreState) (request_id : RequestId) : bool :=
  match record_of (core_records core) (Some request_id) with
  | Some record =>
      not_none (turn_request (rec_request record))
      && match rec_observation record with
         | Some observation =>
             success_without_reply observation && is_none (rec_suspension record)
             && is_none (rec_outcome_json record)
         | None => false
         end
  | None => false
  end.

(** [lapsed_session_waits] *)
Definition lapsed_session_waits (core : CoreState) : list SessionWaitLapsed :=
  if eqb (run_status (core_run core)) RunStatus.TERMINAL then []
  else
    flat_map (fun '(subject, wait) =>
                omap (fun request_id =>
                        if request_ended core request_id && negb (reply_in_transit core request_id)
                        then Some {| lapsed_session := MkIdentity (subject_identity subject);
                                     lapsed_session_request := request_id |}
                        else None) (wait_requests wait)) (session_waits_of (core_sessions core)).

(** ** Stalls *)

(** The first row of [invocation] among the claims and among the turns *)
Definition claim_of (sessions : SessionsState) (invocation : InvocationRef) : option InterruptClaim :=
  next_such (fun row => eqb (claim_invocation row) invocation) (sessions_interrupts sessions).
Definition turn_row (sessions : SessionsState) (invocation : InvocationRef) : option Invocation :=
  next_such (fun row => eqb (inv_invocation row) invocation) (sessions_invocations sessions).

(** [draining_without_cancel] *)
Definition draining_without_cancel (sessions : SessionsState) (invocation : InvocationRef) : bool :=
  match claim_of sessions invocation, turn_row sessions invocation with
  | Some claim, Some turn =>
      eqb (claim_phase claim) ClaimPhase.DRAINING
      && match inv_observation turn with
         | Some observation =>
             obs_terminal observation
             && negb (among (obs_status observation)
                            [ObservationStatus.UNKNOWN; ObservationStatus.PENDING])
         | None => false
         end
  | _, _ => false
  end.

(** [awaiting_refund] *)
Definition awaiting_refund (sessions : SessionsState) (invocation : InvocationRef) : bool :=
  any (fun row => eqb (claim_invocation row) invocation
                  && eqb (claim_phase row) ClaimPhase.CHECKPOINTED)
      (sessions_interrupts sessions).

(** [_checkpoint_waiters] *)
Definition checkpoint_waiters (sessions : SessionsState) : list InvocationRef :=
  fromkeys []
    (omap (fun turn =>
             if not_none (inv_pending_suspension turn)
                || draining_without_cancel sessions (inv_invocation turn)
                || awaiting_refund sessions (inv_invocation turn)
             then Some (inv_invocation turn) else None) (sessions_invocations sessions)).

(** [wait is None or not _live(records, _session_waits_of(sessions), wait, frozenset(), sent)] *)
Definition stalled_wait (records : RecordsState) (sessions : SessionsState)
    (wait : option WaitOn) (sent : list RequestId) : result WaitsError bool :=
  match wait with
  | None => Ok true
  | Some wait =>
      let* found := live_in records (session_waits_of sessions) wait [] sent in
      Ok (eqb found [])
  end.

(** [stalled_acquisitions] *)
Definition stalled_acquisitions (sessions : SessionsState) (records : RecordsState)
    (in_flight : list Request) : result WaitsError (list InvocationRef) :=
  let sent := taken_on in_flight in
  let* stalled := filter_result (fun row => stalled_wait records sessions (inv_wait row) sent)
                                (acquiring sessions) in
  Ok (map inv_invocation stalled).

(** [_yield_stalled] and [_interrupt_stalled] *)
Definition yield_stalled (records : RecordsState) (sessions : SessionsState) (turn : Invocation)
    (sent : list RequestId) : result WaitsError bool :=
  if not_none (inv_pending_suspension turn)
  then stalled_wait records sessions (inv_wait turn) sent else Ok false.
Definition interrupt_stalled (records : RecordsState) (sessions : SessionsState) (turn : Invocation)
    (sent : list RequestId) : result WaitsError bool :=
  match claim_of sessions (inv_invocation turn) with
  | Some claim =>
      if draining_without_cancel sessions (inv_invocation turn)
      then stalled_wait records sessions (claim_wait claim) sent else Ok false
  | None => Ok false
  end.

(** [checkpoint_stalls] *)
Definition checkpoint_stalls (sessions : SessionsState) (records : RecordsState)
    (invocation : InvocationRef) (sent : list RequestId) : result WaitsError (bool * bool) :=
  match turn_row sessions invocation with
  | None => Ok (false, false)
  | Some turn =>
      let* yields := yield_stalled records sessions turn sent in
      if awaiting_refund sessions invocation then Ok (yields, true)
      else
        let* interrupted := interrupt_stalled records sessions turn sent in
        Ok (yields, interrupted)
  end.

(** [stalled_checkpoint_waits] *)
Definition stalled_checkpoint_waits (sessions : SessionsState) (records : RecordsState)
    (in_flight : list Request) : result WaitsError (list InvocationRef) :=
  let sent := taken_on in_flight in
  filter_result (fun invocation =>
                   let* stalls := checkpoint_stalls sessions records invocation sent in
                   Ok (fst stalls || snd stalls)) (checkpoint_waiters sessions).

(** ** Blocked records and released jobs *)

(** [_blocked_records] *)
Definition blocked_records (core : CoreState) : list RequestRecord :=
  if negb (eqb (run_status (core_run core)) RunStatus.CLOSING) then []
  else List.filter (fun row => eqb (rec_phase row) RequestPhase.BLOCKED
                               && negb (blocked_unnamed row)) (rows_of core).

Definition blocked_subject (row : RequestRecord) : WaitSubject :=
  subject_of WaitKind.BLOCKED_RECORD (root (rec_request_id row)).

(** [_blocked_waits] *)
Definition blocked_waits (core : CoreState) : list (WaitSubject * WaitOn) :=
  omap (fun row =>
          if eqb (rec_addressed_by row) [] then None
          else Some (blocked_subject row,
                     {| wait_requests := rec_addressed_by row; wait_subjects := [];
                        wait_timer := None |})) (blocked_records core).

(** [_live_wait] *)
Definition live_wait (core : CoreState) (wait : option WaitOn) (queued : list RequestId)
    : result WaitsError (list Producer) :=
  match wait with
  | None => Ok []
  | Some wait => wait_producers core wait queued
  end.

(** [stalled_blocked_records] *)
Definition stalled_blocked_records (core : CoreState) : result WaitsError (list RequestId) :=
  let named := dict_lookup (blocked_waits core) in
  let* stalled :=
    filter_result (fun record =>
                     let* found := live_wait core (named (blocked_subject record)) [] in
                     Ok (eqb found [])) (blocked_records core) in
  Ok (map rec_request_id stalled).

(** [_released_job_edges] *)
Definition released_job_edges (core : CoreState) : list string :=
  let released :=
    omap (fun job => if job_is_terminal job && job_is_released job then job_resource job else None)
         (jobs_of core) in
  flat_map (fun attempt =>
              if among (attempt_phase attempt) [AttemptPhase.CLOSING; AttemptPhase.BLOCKED]
              then omap (fun edge =>
                           match edge with
                           | DependsOnJob identity =>
                               if among identity released then Some (root identity) else None
                           | _ => None
                           end) (attempt_release_dependencies attempt)
              else []) (core_attempts core).

(** ** Every wait *)

Section WithDigests.
Context `{Digests}.

(** [episode_ended(core, request)] *)
Definition facts_of_core (core : CoreState) : EpisodeFacts :=
  {| episode_run := core_run core; episode_attempts := core_attempts core;
     episode_sessions := core_sessions core; episode_records := core_records core |}.

(** [undispatchable_requests] *)
Definition undispatchable_requests (core : CoreState) : list RequestId :=
  map rec_request_id
    (List.filter (fun row => eqb (rec_phase row) RequestPhase.PREPARED
                             && (dependency_failed (rec_request row) (core_records core)
                                 || episode_ended (facts_of_core core) (rec_request row)))
                 (rows_of core)).

(** What [subjects] finds of one turn *)
Definition turn_subjects (core : CoreState) (turn : Invocation) : list WaitSubject :=
  let invocation := inv_invocation turn in
  ((if not_none (inv_pending_suspension turn)
    then [turn_subject WaitKind.YIELD_PUBLICATION invocation] else [])
   ++ (if draining_without_cancel (core_sessions core) invocation
       then [turn_subject WaitKind.INTERRUPT invocation] else [])
   ++ (if awaiting_refund (core_sessions core) invocation
       then [turn_subject WaitKind.REFUND invocation] else []))%list.

Definition record_subject (kind : WaitKind) (row : RequestRecord) : WaitSubject :=
  subject_of kind (root (rec_request_id row)).

(** [subjects] *)
Definition subjects (core : CoreState) : list WaitSubject :=
  (map session_subject
     (List.filter (fun session => session_waits (view_phase session)
                                  || not_none (view_wait session))
                  (sessions_sessions (core_sessions core)))
   ++ map (fun row => turn_subject WaitKind.TURN_ACQUISITION (inv_invocation row))
          (acquiring (core_sessions core))
   ++ map (fun '(subject, _, _) => subject) (job_waits core)
   ++ map (subject_of WaitKind.RELEASE_DEPENDENCY) (released_job_edges core)
   ++ flat_map (turn_subjects core) (sessions_invocations (core_sessions core))
   ++ map (record_subject WaitKind.DISPATCH)
          (List.filter (fun row => eqb (rec_phase row) RequestPhase.PREPARED) (rows_of core))
   ++ map (record_subject WaitKind.RETRY)
          (List.filter (fun row => not_none (retry_wait_until row)) (rows_of core))
   ++ map blocked_subject (blocked_records core))%list.

(** [_ledger_waits] *)
Definition ledger_waits (core : CoreState) : list (WaitSubject * WaitOn) :=
  let blocked := undispatchable_requests core in
  (omap (fun row =>
           if eqb (rec_phase row) RequestPhase.PREPARED && negb (among (rec_request_id row) blocked)
           then Some (record_subject WaitKind.DISPATCH row,
                      {| wait_requests := [rec_request_id row]; wait_subjects := [];
                         wait_timer := None |})
           else None) (rows_of core)
   ++ omap (fun row =>
              option_map (fun at_ => (record_subject WaitKind.RETRY row,
                                      {| wait_requests := []; wait_subjects := [];
                                         wait_timer := Some at_ |})) (retry_wait_until row))
           (rows_of core))%list.

(** [_outbox_requests], of the observations the events of the outbox carry *)
Definition outbox_requests (outbox : list (option Observation)) : list RequestId :=
  omap (option_map obs_request_id) outbox.

(** The table of [waits] *)
Definition wait_table (core : CoreState) : list (WaitSubject * WaitOn) :=
  (recorded_waits core ++ blocked_waits core ++ ledger_waits core)%list.

(** The wait of one subject *)
Definition wait_of_subject (core : CoreState) (answers : list RequestId) (subject : WaitSubject)
    : result WaitsError OpenWait :=
  let* found :=
    live_wait core (dict_lookup (wait_table core) subject)
      (if among (subject_kind subject) MOVED_ONLY_BY_OPEN_REQUESTS then [] else answers) in
  Ok {| open_waiter := subject_kind subject; open_subject := subject_identity subject;
        open_producer := reported_producer found |}.

(** [waits] and [orphan_waits] *)
Definition waits (core : CoreState) (outbox : list (option Observation))
    : result WaitsError (list OpenWait) :=
  rmap (wait_of_subject core (outbox_requests outbox)) (subjects core).
Definition orphan_waits (core : CoreState) (outbox : list (option Observation))
    : result WaitsError (list OpenWait) :=
  if eqb (run_status (core_run core)) RunStatus.TERMINAL then Ok []
  else
    let* found := waits core outbox in
    Ok (List.filter (fun wait => is_none (open_producer wait)) found).
End WithDigests.

(** ** What a step may leave *)

(** The value of a session's phase *)
Definition session_phase_value (phase : SessionPhase) : string :=
  match phase with
  | SessionPhase.ACQUIRING => "acquiring" | SessionPhase.IDLE => "idle"
  | SessionPhase.EXECUTING => "executing" | SessionPhase.CHECKPOINTED => "checkpointed"
  | SessionPhase.SUSPENDED => "suspended" | SessionPhase.CLOSING => "closing"
  | SessionPhase.TERMINAL => "terminal" | SessionPhase.UNKNOWN => "unknown"
  end.

(** [f"{kind.value} {identity}"] *)
Definition subject_text (subject : WaitSubject) : string :=
  kind_value (subject_kind subject) +:+ " " +:+ subject_identity subject.

(** [_unnamed_checkpoint_waits] *)
Definition unnamed_checkpoint_waits (before after : CoreState) : list string :=
  let turns := sessions_invocations (core_sessions before) in
  let claims := sessions_interrupts (core_sessions before) in
  let sessions := core_sessions after in
  (omap (fun turn =>
           if not_none (inv_pending_suspension turn) && is_none (inv_wait turn)
              && negb (among turn turns)
           then Some ("turn " +:+ root (iref_invocation_id (inv_invocation turn))
                      +:+ " yields without a wait")
           else None) (sessions_invocations sessions)
   ++ omap (fun claim =>
              let turn := turn_row sessions (claim_invocation claim) in
              if is_none (claim_wait claim)
                 && draining_without_cancel sessions (claim_invocation claim)
                 && (negb (among claim claims) || negb (among turn (map Some turns)))
              then Some ("interruption of " +:+ root (iref_invocation_id (claim_invocation claim))
                         +:+ " drains without a wait")
              else None) (sessions_interrupts sessions))%list.

(** A job live without a wait, or ended with one *)
Definition unwaited_job (job : Job) : option string :=
  if eqb (job_is_terminal job) (is_none (job_wait_of job)) then None
  else
    Some ("owned-job "
          +:+ match job with
              | Owned job => root (job_resource_id job)
              | RegisteredOwned job => root (rjob_request_id job)
              end +:+ " is live without a wait, or ended with one").

Section Unmet.
Context `{Digests}.

(** [unmet_waits] *)
Definition unmet_waits (before after : CoreState) : list string :=
  let earlier := dict_lookup (recorded_waits before) in
  let changed := List.filter (fun pair => negb (eqb (earlier (fst pair)) (Some (snd pair))))
                             (recorded_waits after) in
  let waiting := subjects after in
  (flat_map (fun '(subject, wait) =>
               omap (fun request =>
                       if request_open after request then None
                       else Some (subject_text subject +:+ " waits on " +:+ root request))
                    (wait_requests wait)) changed
   ++ flat_map (fun '(subject, wait) =>
                  omap (fun entity =>
                          if negb (among (subject_kind entity) (MAY_WAIT_ON (subject_kind subject)))
                             || negb (among entity waiting)
                          then Some (subject_text subject +:+ " waits on " +:+ subject_text entity
                                     +:+ ", which it may not name or which is not waiting")
                          else None) (wait_subjects wait)) changed
   ++ omap unwaited_job (jobs_of after)
   ++ omap (fun session =>
              if session_waits (view_phase session) && is_none (view_wait session)
                 && negb (among session (sessions_sessions (core_sessions before)))
              then Some ("session " +:+ root (session_session_id (view_spec session)) +:+ " is "
                         +:+ session_phase_value (view_phase session) +:+ " without a wait")
              else None) (sessions_sessions (core_sessions after))
   ++ omap (fun turn =>
              if turn_acquires turn && is_none (inv_wait turn)
                 && negb (among turn (sessions_invocations (core_sessions before)))
              then Some ("turn " +:+ root (iref_invocation_id (inv_invocation turn))
                         +:+ " is acquiring without a wait")
              else None) (sessions_invocations (core_sessions after))
   ++ unnamed_checkpoint_waits before after)%list.
End Unmet.
