(* ===== verification/WaitsEnd.v ===== *)
(** * Waits end

    What [Waits] promises: the walk over the commands about a request decides whether one that
    can still end it is reached; a chain of waits that keeps to [MAY_WAIT_ON] is answered, and
    the check of a step ([unmet_waits]) keeps it so; every wait nothing can end, of a kind core
    resolves, is one its resolver lists. *)

From S2P Require Import Prelude PyFloat Identities Values Requests Records State Clock Proofs.
From S2P Require Import Permit Order Answers Episode LedgerSafe Waits Samples.

(** ** What can still end a request *)

Section Open.
Variable records : RecordsState.

(** The commands about a request carry it on while it waits on a dead host, or once it ended and
    is itself a command. *)
Definition carried_by (request_id command : RequestId) : Prop :=
  exists record, record_of records (Some request_id) = Some record
  /\ command ∈ rec_addressed_by record
  /\ (phase_open (rec_phase record) = true /\ dispatched_by_dead_host records record = true
      \/ phase_open (rec_phase record) = false /\ reconciliation_command record = true).

(** Something of this epoch is behind the request itself: its executor, or a command about it that
    this epoch's executor answered. *)
Definition moved_now (request_id : RequestId) : Prop :=
  exists record, record_of records (Some request_id) = Some record
  /\ phase_open (rec_phase record) = true
  /\ (dispatched_by_dead_host records record = false
      \/ exists command, command ∈ rec_addressed_by record
         /\ answered_in_this_epoch records command = true).

(** A step that stays out of [seen] *)
Definition carried_outside (seen : list RequestId) (a b : RequestId) : Prop :=
  carried_by a b /\ b ∉ seen.

(** A walk that leaves its start for good *)
Lemma leave_for_good seen a b :
  rtc (carried_outside seen) a b ->
  a = b \/ exists c, carried_by a c /\ c ∉ a :: seen /\ rtc (carried_outside (a :: seen)) c b.
Proof.
  revert b. apply rtc_ind_r; [by left|]. intros b c _ [Hs Hc] IH.
  destruct (decide (a = c)) as [->|Hne]; [by left|]. right.
  destruct IH as [->|(d & Hd & Hnd & Hdb)].
  - exists c. split; [done|]. split; [set_solver|apply rtc_refl].
  - exists d. split; [done|]. split; [done|]. eapply rtc_r; [exact Hdb|]. split; [done|set_solver].
Qed.

Definition known : list RequestId := map rec_request_id (ledger_records records).

Lemma record_of_known request_id record :
  record_of records (Some request_id) = Some record -> request_id ∈ known.
Proof.
  rewrite record_of_find. intros Hrec%head_Some_elem_of.
  apply find_elem in Hrec as [Hin <-]. by apply list_elem_of_fmap_2.
Qed.

(** What is left of the ledger outside [seen] *)
Definition left_over (seen : list RequestId) : nat :=
  length (List.filter (fun r => negb (among r seen)) known).

Lemma left_over_less seen a :
  a ∈ known -> a ∉ seen -> (left_over (a :: seen) < left_over seen)%nat.
Proof.
  intros Hk Hn. unfold left_over. apply (filter_length_lt _ _ _ a).
  - intros x _. rewrite !negb_true_iff, !among_false. set_solver.
  - done.
  - rewrite negb_false_iff, among_true. by left.
  - by rewrite negb_true_iff, among_false.
Qed.

Lemma open_from_sound fuel : forall seen a,
  open_from fuel records seen a = true -> exists b, rtc carried_by a b /\ moved_now b.
Proof.
  induction fuel as [|fuel IH]; intros seen a; simpl; [done|].
  destruct (record_of records (Some a)) as [record|] eqn:Hrec; [|done].
  destruct (among a seen); [done|].
  destruct (phase_open (rec_phase record)) eqn:Hwait; simpl.
  - destruct (dispatched_by_dead_host records record) eqn:Hdead; simpl.
    + intros (command & Hin & [Hnow|Hopen]%orb_true_iff)%any_true.
      * exists a. split; [apply rtc_refl|]. exists record. split_and!; eauto.
      * apply IH in Hopen as (b & Hb & Hm). exists b. split; [|done].
        eapply rtc_l; [|exact Hb]. exists record. split_and!; auto.
    + intros _. exists a. split; [apply rtc_refl|]. exists record. split_and!; auto.
  - destruct (reconciliation_command record) eqn:Hcmd; simpl; [|done].
    intros (command & Hin & Hopen)%any_true. apply IH in Hopen as (b & Hb & Hm). exists b.
    split; [|done]. eapply rtc_l; [|exact Hb]. exists record. split_and!; auto.
Qed.

Lemma open_from_complete fuel : forall seen a b,
  (left_over seen < fuel)%nat -> a ∉ seen -> rtc (carried_outside seen) a b -> moved_now b ->
  open_from fuel records seen a = true.
Proof.
  induction fuel as [|fuel IH]; intros seen a b Hfuel Hseen Hwalk Hb; [lia|]. simpl.
  assert (exists record, record_of records (Some a) = Some record) as [record Hrec].
  { destruct (leave_for_good _ _ _ Hwalk) as [<-|(c & (record & Hr & _) & _)]; [|by exists record].
    destruct Hb as (record & Hr & _). by exists record. }
  rewrite Hrec, (proj2 (among_false _ _) Hseen).
  pose proof (record_of_known _ _ Hrec) as Hk. pose proof (left_over_less seen a Hk Hseen) as Hless.
  destruct (leave_for_good _ _ _ Hwalk) as [<-|(c & (record' & Hr & Hin & Hc) & Hnew & Hrest)].
  - destruct Hb as (record' & Hr & Hwait & Hlive). rewrite Hr in Hrec. injection Hrec as <-.
    rewrite Hwait. simpl. destruct (dispatched_by_dead_host records record'); simpl; [|done].
    destruct Hlive as [|(command & Hin & Hans)]; [done|].
    apply any_true. exists command. by rewrite Hans.
  - rewrite Hr in Hrec. injection Hrec as <-.
    assert (open_from fuel records (a :: seen) c = true) as Hopen
      by (apply (IH (a :: seen) c b); [lia|done|done|done]).
    destruct Hc as [[-> ->]|[-> ->]]; simpl; apply any_true; exists c; rewrite Hopen;
      by rewrite ?orb_true_r.
Qed.

Lemma left_over_ledger seen : (left_over seen <= length (ledger_records records))%nat.
Proof.
  unfold left_over, known. etrans; [apply List.filter_length_le|]. by rewrite length_map.
Qed.

(** What [_open] answers.  The walk over the commands about a request terminates on every
    ledger, cyclic ones included, and says the request can still be ended exactly when commands
    that carry it lead to a request of this epoch's host, or to one a command of this epoch
    already answered. *)
Theorem open_reaches request_id :
  still_open records request_id = true <-> exists b, rtc carried_by request_id b /\ moved_now b.
Proof.
  split; [apply open_from_sound|]. intros (b & Hwalk & Hb). unfold still_open.
  eapply (open_from_complete _ [] request_id b); [|set_solver| |done].
  - pose proof (left_over_ledger []). lia.
  - eapply rtc_subrel; [|exact Hwalk]. intros x y Hxy. split; [done|set_solver].
Qed.
End Open.

(** ** Dicts built from pairs *)

Lemma elem_of_fromkeys {A} `{EqDecision A} (l : list A) x :
  forall seen, x ∈ fromkeys seen l <-> x ∈ l /\ x ∉ seen.
Proof.
  induction l as [|y l IH]; intros seen; simpl; [set_solver|].
  destruct (decide (y ∈ seen)); rewrite ?elem_of_cons, IH; [|rewrite elem_of_cons];
    destruct (decide (x = y)) as [->|]; naive_solver.
Qed.

Section Dict.
Context {K A : Type} `{EqDecision K}.
Implicit Types (pairs : list (K * A)).

Lemma dict_lookup_elem pairs k v : dict_lookup pairs k = Some v -> (k, v) ∈ pairs.
Proof.
  unfold dict_lookup. destruct (next_such _ _) as [[k' v']|] eqn:E; [|done]. intros [= <-].
  apply next_such_Some in E as [Hin Hk]. simpl in Hk. apply eqb_eq in Hk as <-.
  by apply list_elem_of_In, in_rev, list_elem_of_In.
Qed.

Lemma dict_lookup_None pairs k v : dict_lookup pairs k = None -> (k, v) ∉ pairs.
Proof.
  unfold dict_lookup. destruct (next_such _ _) eqn:E; [done|]. intros _ Hin.
  rewrite next_such_None in E. specialize (E (k, v)). simpl in E. rewrite eqb_refl in E.
  discriminate E. by apply list_elem_of_In, in_rev; rewrite rev_involutive; apply list_elem_of_In.
Qed.

Lemma dict_lookup_unique pairs k v :
  NoDup (map fst pairs) -> (k, v) ∈ pairs -> dict_lookup pairs k = Some v.
Proof.
  intros Hnd Hin. destruct (dict_lookup pairs k) as [w|] eqn:E;
    [|by apply (dict_lookup_None _ _ v) in E].
  apply dict_lookup_elem in E. f_equal.
  by injection (key_inj fst pairs (k, w) (k, v) Hnd E Hin eq_refl).
Qed.

Lemma dict_lookup_app pairs pairs' k :
  dict_lookup (pairs ++ pairs') k
  = match dict_lookup pairs' k with Some v => Some v | None => dict_lookup pairs k end.
Proof.
  unfold dict_lookup. rewrite rev_app_distr. induction (rev pairs') as [|[k' v'] l IH]; [done|].
  simpl. by destruct (eqb k' k).
Qed.

(** A key no pair has *)
Lemma dict_lookup_absent pairs k : (forall v, (k, v) ∉ pairs) -> dict_lookup pairs k = None.
Proof.
  intros Hno. destruct (dict_lookup pairs k) as [v|] eqn:E; [|done].
  by apply dict_lookup_elem, Hno in E.
Qed.
End Dict.

(** ** Chains of waits *)

(** Every recorded wait names only entities of a kind its waiter may wait on. *)
Definition in_order (pairs : list (WaitSubject * WaitOn)) : Prop :=
  forall subject wait, (subject, wait) ∈ pairs ->
  forall entity, entity ∈ wait_subjects wait ->
  subject_kind entity ∈ MAY_WAIT_ON (subject_kind subject).

Lemma order_ends a b : b ∈ MAY_WAIT_ON a -> MAY_WAIT_ON b = [] /\ a <> b.
Proof. destruct a; simpl; try (by intros ?%not_elem_of_nil). by intros ->%list_elem_of_singleton. Qed.

Section Live.
Variables (records : RecordsState) (named : WaitSubject -> option WaitOn) (sent : list RequestId).

(** What an entity named by a waiter that hears [queued] hears *)
Definition heard_by (queued : list RequestId) (subject : WaitSubject) : list RequestId :=
  if among (subject_kind subject) MOVED_ONLY_BY_OPEN_REQUESTS then [] else queued.

Definition carry (fuel : nat) (queued : list RequestId) (found : list Producer)
    (subject : WaitSubject) : result WaitsError (list Producer) :=
  match named subject with
  | None => Ok found
  | Some entity =>
      let* more := live fuel records named entity (heard_by queued subject) sent in
      Ok (found ++ more)
  end.

Lemma carried_Ok fuel queued subjects : forall acc,
  (forall e w, e ∈ subjects -> named e = Some w ->
     exists found, live fuel records named w (heard_by queued e) sent = Ok found) ->
  exists found, rfold (carry fuel queued) acc subjects = Ok found.
Proof.
  induction subjects as [|e subjects IH]; intros acc Hok; simpl; [by eexists|].
  unfold carry at 1. destruct (named e) as [w|] eqn:He.
  - destruct (Hok e w ltac:(by left) He) as [more ->]. simpl. apply IH. intros. apply (Hok e0); [by right|done].
  - simpl. apply IH. intros. apply (Hok e0); [by right|done].
Qed.

Lemma carried_empty fuel queued subjects : forall acc,
  rfold (carry fuel queued) acc subjects = Ok [] <->
  acc = [] /\ forall e w, e ∈ subjects -> named e = Some w ->
    live fuel records named w (heard_by queued e) sent = Ok [].
Proof.
  induction subjects as [|e subjects IH]; intros acc; simpl.
  - split; [intros [= ->]; split; [done|by intros ? ? ?%not_elem_of_nil]|by intros [-> _]].
  - unfold carry at 1. destruct (named e) as [w|] eqn:He.
    + destruct (live fuel records named w (heard_by queued e) sent) as [more|] eqn:Hl; simpl.
      * rewrite IH. split.
        -- intros [[-> ->]%app_eq_nil Hrest]. split; [done|]. intros e' w' [->|Hin]%elem_of_cons Hw.
           ++ rewrite He in Hw. by injection Hw as <-.
           ++ by apply Hrest.
        -- intros [-> Hall]. pose proof (Hall e w ltac:(by left) He) as Hm. rewrite Hl in Hm.
           injection Hm as ->. split; [done|]. intros e' w' Hin. apply Hall. by right.
      * split; [done|]. intros [_ Hall]. specialize (Hall e w ltac:(by left) He). congruence.
    + simpl. rewrite IH. split.
      * intros [-> Hrest]. split; [done|]. intros e' w' [->|Hin]%elem_of_cons Hw; [congruence|].
        by apply Hrest.
      * intros [-> Hall]. split; [done|]. intros e' w' Hin. apply Hall. by right.
Qed.

(** A wait nothing can end: its requests are over, it has no timer, and so for what it names. *)
Lemma live_empty fuel wait queued :
  live (S fuel) records named wait queued sent = Ok [] <->
  (forall r, r ∈ wait_requests wait ->
     still_open records r = false /\ r ∉ sent /\ r ∉ queued)
  /\ wait_timer wait = None
  /\ forall e w, e ∈ wait_subjects wait -> named e = Some w ->
     live fuel records named w (heard_by queued e) sent = Ok [].
Proof.
  cbn [live]. change (fun found subject => _) with (carry fuel queued).
  assert ((forall r, r ∈ wait_requests wait ->
      still_open records r = false /\ r ∉ sent /\ r ∉ queued) <->
    any (fun request => still_open records request || among request sent) (wait_requests wait) = false
    /\ any (fun request => among request queued) (wait_requests wait) = false) as ->.
  { rewrite !any_false. split.
    - intros Hall. split; intros r Hr; destruct (Hall r Hr) as (Ho & Hs & Hq).
      + by rewrite Ho, (proj2 (among_false _ _) Hs).
      + by apply among_false.
    - intros [Ha Hb] r Hr. specialize (Ha r Hr). specialize (Hb r Hr). simpl in Ha.
      apply orb_false_iff in Ha as [Ho Hs]. rewrite among_false in Hs, Hb. done. }
  destruct (any (fun request => still_open records request || among request sent) (wait_requests wait)).
  { split; [|by intros [[E _] _]].
    destruct (rfold (carry fuel queued) [] (wait_subjects wait)); simpl; [|done].
    destruct (any _ (wait_requests wait)); discriminate. }
  destruct (any (fun request => among request queued) (wait_requests wait)).
  { split; [|by intros [[_ E] _]].
    by destruct (rfold (carry fuel queued) [] (wait_subjects wait)); simpl. }
  pose proof (carried_empty fuel queued (wait_subjects wait) []) as Hempty.
  destruct (rfold (carry fuel queued) [] (wait_subjects wait)) as [carried|]; simpl.
  - split.
    + intros [= [Hc Ht]%app_eq_nil]. destruct (wait_timer wait); [done|]. split; [done|]. split; [done|].
      apply Hempty. by rewrite Hc.
    + intros (_ & Ht & Hall). rewrite Ht. simpl. rewrite app_nil_r. by apply Hempty.
  - split; [done|]. intros (_ & _ & Hall). by apply Hempty.
Qed.

Lemma live_Ok fuel wait queued :
  (forall e w, e ∈ wait_subjects wait -> named e = Some w ->
     exists found, live fuel records named w (heard_by queued e) sent = Ok found) ->
  exists found, live (S fuel) records named wait queued sent = Ok found.
Proof.
  intros Hall. cbn [live]. change (fun found subject => _) with (carry fuel queued).
  destruct (carried_Ok fuel queued (wait_subjects wait) [] Hall) as [carried ->]. by eexists.
Qed.
End Live.

(** A chain of named entities is over after two, and each is a pair of its own. *)
Lemma live_total records pairs wait queued sent :
  in_order pairs -> exists found, live_in records pairs wait queued sent = Ok found.
Proof.
  intros Horder. unfold live_in. apply live_Ok. intros e w _ He.
  apply dict_lookup_elem in He as Hin. destruct (length pairs) as [|n] eqn:Hn.
  { apply length_zero_iff_nil in Hn. rewrite Hn in Hin. by apply not_elem_of_nil in Hin. }
  apply live_Ok. intros e' w' He' Hw'.
  destruct (order_ends _ _ (Horder e w Hin e' He')) as [Hend Hne].
  apply dict_lookup_elem in Hw' as Hin'. destruct n as [|n].
  { destruct pairs as [|pair [|]]; try done.
    apply list_elem_of_singleton in Hin, Hin'. congruence. }
  apply live_Ok. intros e'' w'' He'' _.
  pose proof (Horder e' w' Hin' e'' He'') as Hbad. rewrite Hend in Hbad. by apply not_elem_of_nil in Hbad.
Qed.

(** ** Orphans and their resolvers *)

(** What the transitions of core keep of the waits: the order of [MAY_WAIT_ON] (the check of a
    step refuses any other), one name for each waiting entity, one row for each turn and each
    request. *)
Record waits_named (core : CoreState) : Prop := {
  named_order : in_order (recorded_waits core);
  named_once : NoDup (map fst (recorded_waits core));
  named_turns : NoDup (map inv_invocation (sessions_invocations (core_sessions core)));
  named_requests : identified_rows (rows_of core)
}.

Lemma in_recorded core subject wait :
  (subject, wait) ∈ recorded_waits core <->
  (exists owner, (subject, owner, wait) ∈ job_waits core)
  \/ (subject, wait) ∈ session_waits_of (core_sessions core)
  \/ (subject, wait) ∈ turn_waits core \/ (subject, wait) ∈ checkpoint_waits core.
Proof.
  unfold recorded_waits. rewrite !elem_of_app. split.
  - intros [Hjob|?]; [|tauto]. apply list_elem_of_fmap in Hjob as ([[s o] w] & [= -> ->] & Hin).
    left. by exists o.
  - intros [[owner Hin]|?]; [|tauto]. left.
    apply list_elem_of_fmap. by exists (subject, owner, wait).
Qed.

Lemma in_omap_named {A} (subject : A -> WaitSubject) (wait : A -> option WaitOn) (l : list A) s w :
  (s, w) ∈ omap (fun row => named_by (subject row) (wait row)) l <->
  exists row, row ∈ l /\ subject row = s /\ wait row = Some w.
Proof.
  rewrite list_elem_of_omap. unfold named_by. split.
  - intros (row & Hin & E). exists row. destruct (wait row); simplify_eq/=. done.
  - intros (row & Hin & <- & E). exists row. by rewrite E.
Qed.

Section Core.
Context `{Digests}.
Variables (core : CoreState).
Hypothesis Hnamed : waits_named core.
Notation sessions := (core_sessions core).
Notation records := (core_records core).

(** Only recorded waits of sessions name a session. *)
Lemma session_pair subject wait :
  subject_kind subject = WaitKind.SESSION ->
  (subject, wait) ∈ recorded_waits core <-> (subject, wait) ∈ session_waits_of sessions.
Proof.
  intros Hk. rewrite in_recorded. split; [|tauto]. intros [[owner Hin]|[?|[Hin|Hin]]]; [|done|..].
  - apply list_elem_of_omap in Hin as (job & _ & E). destruct (job_wait_of job); [|done].
    injection E as <- _ _. by destruct job.
  - apply in_omap_named in Hin as (row & _ & <- & _). done.
  - unfold checkpoint_waits in Hin. apply elem_of_app in Hin as [Hin|Hin].
    + apply list_elem_of_omap in Hin as (row & _ & E). destruct (not_none _); [|done].
      destruct (inv_wait row); [|done]. injection E as <- _. done.
    + apply in_omap_named in Hin as (row & _ & <- & _). done.
Qed.

Lemma lookup_recorded subject wait :
  (subject, wait) ∈ recorded_waits core -> dict_lookup (recorded_waits core) subject = Some wait.
Proof. apply dict_lookup_unique, Hnamed. Qed.

(** A wait nothing recorded can end has nothing in what the resolvers look at. *)
Lemma dead_stalls wait queued :
  live_in records (recorded_waits core) wait queued [] = Ok [] ->
  stalled_wait records sessions (Some wait) [] = Ok true.
Proof.
  unfold live_in. intros (Hreq & Htimer & Hentities)%live_empty.
  assert (live (S (length (session_waits_of sessions))) records
    (dict_lookup (session_waits_of sessions)) wait [] [] = Ok []) as Hdead.
  { apply live_empty. split_and!; [|done|].
    - intros r Hr. destruct (Hreq r Hr) as (? & ? & _). split_and!; [done|done|by apply not_elem_of_nil].
    - intros e w He Hw. apply dict_lookup_elem in Hw.
      assert (subject_kind e = WaitKind.SESSION) as Hk
        by (by apply in_omap_named in Hw as (row & _ & <- & _)).
      apply session_pair in Hw as Hrec; [|done]. apply lookup_recorded in Hrec as Hlook.
      specialize (Hentities e w He Hlook).
      destruct (length (recorded_waits core)) as [|n] eqn:Hn; [done|].
      apply live_empty in Hentities as (Hreq' & Htimer' & _).
      destruct (length (session_waits_of sessions)) as [|m] eqn:Hm.
      { apply length_zero_iff_nil in Hm. rewrite Hm in Hw. by apply not_elem_of_nil in Hw. }
      apply live_empty. split_and!; [|done|].
      + intros r Hr. destruct (Hreq' r Hr) as (? & ? & _).
        split_and!; [done|done|]. unfold heard_by. destruct (among _ _); apply not_elem_of_nil.
      + intros e' w' He' _. pose proof (named_order _ Hnamed e w Hrec e' He') as Hbad.
        rewrite Hk in Hbad. by apply not_elem_of_nil in Hbad. }
  unfold stalled_wait, live_in. by rewrite Hdead.
Qed.

Lemma session_order : in_order (session_waits_of sessions).
Proof.
  intros s w Hin. assert (subject_kind s = WaitKind.SESSION) as Hk
    by (by apply in_omap_named in Hin as (row & _ & <- & _)).
  apply session_pair in Hin; [|done]. by apply (named_order _ Hnamed).
Qed.

Lemma stalled_total wait sent : exists b, stalled_wait records sessions wait sent = Ok b.
Proof.
  unfold stalled_wait. destruct wait as [wait|]; [|by eexists].
  destruct (live_total records (session_waits_of sessions) wait [] sent session_order) as [found ->].
  simpl. by eexists.
Qed.

(** The wait the table has for a subject of a recorded kind *)
Lemma table_recorded subject :
  subject_kind subject ∉ [WaitKind.BLOCKED_RECORD; WaitKind.DISPATCH; WaitKind.RETRY] ->
  dict_lookup (wait_table core) subject = dict_lookup (recorded_waits core) subject.
Proof.
  intros Hk. unfold wait_table. rewrite !dict_lookup_app.
  rewrite (dict_lookup_absent (ledger_waits core)), (dict_lookup_absent (blocked_waits core)); [done|..].
  - intros w Hin. apply list_elem_of_omap in Hin as (row & _ & E). destruct (eqb _ _); [done|].
    injection E as <- _. set_solver.
  - intros w Hin. unfold ledger_waits in Hin.
    apply elem_of_app in Hin as [Hin|Hin]; apply list_elem_of_omap in Hin as (row & _ & E).
    + destruct (_ && _); [|done]. injection E as <- _. set_solver.
    + destruct (retry_wait_until row); [|done]. injection E as <- _. set_solver.
Qed.

(** An orphan: its table entry has no producer. *)
Lemma orphan_spec outbox orphans w :
  orphan_waits core outbox = Ok orphans -> w ∈ orphans ->
  run_status (core_run core) <> RunStatus.TERMINAL /\
  exists subject queued, subject ∈ subjects core
    /\ open_waiter w = subject_kind subject /\ open_subject w = subject_identity subject
    /\ live_wait core (dict_lookup (wait_table core) subject) queued = Ok [].
Proof.
  unfold orphan_waits. destruct (eqb _ RunStatus.TERMINAL) eqn:Hst;
    [intros [= <-] Hin; by apply not_elem_of_nil in Hin|].
  apply eqb_neq in Hst. intros Hok Hin. split; [done|].
  apply rbind_Ok in Hok as (found & Hwaits & Hok). injection Hok as <-.
  apply elem_of_filterb in Hin as [Hin Hnone].
  apply (rmap_In _ _ _ _ Hwaits) in Hin as (subject & Hs & Hof).
  apply rbind_Ok in Hof as (producers & Hlive & Hof). injection Hof as <-. simpl in *.
  exists subject. eexists. split_and!; [done|done|done|]. rewrite Hlive. f_equal.
  destruct producers as [|p ps]; [done|]. exfalso. unfold reported_producer, is_none in Hnone.
  destruct (next_such _ _) eqn:E; [done|]. rewrite next_such_None in E.
  assert (among p (p :: ps) = true) as Hp by (apply among_true; by left).
  specialize (E p). rewrite Hp in E. assert (p ∈ SETTLES_LAST) by (destruct p; set_solver).
  by discriminate E.
Qed.

(** What core does about an orphan of each kind it resolves *)
Definition resolved (w : OpenWait) : Prop :=
  match open_waiter w with
  | WaitKind.TURN_ACQUISITION =>
      exists stalled turn, stalled_acquisitions sessions records [] = Ok stalled
      /\ turn ∈ stalled /\ root (iref_invocation_id turn) = open_subject w
  | WaitKind.YIELD_PUBLICATION | WaitKind.INTERRUPT | WaitKind.REFUND =>
      exists stalled turn, stalled_checkpoint_waits sessions records [] = Ok stalled
      /\ turn ∈ stalled /\ root (iref_invocation_id turn) = open_subject w
  | WaitKind.DISPATCH =>
      exists r, r ∈ undispatchable_requests core /\ root r = open_subject w
  | WaitKind.BLOCKED_RECORD =>
      exists stalled r, stalled_blocked_records core = Ok stalled
      /\ r ∈ stalled /\ root r = open_subject w
  | WaitKind.OWNED_JOB =>
      exists job wait, job ∈ jobs_of core /\ subject_identity (owned_job_subject job) = open_subject w
      /\ job_wait_of job = Some wait /\ wait_timer wait = None
      /\ forall r, r ∈ wait_requests wait -> still_open records r = false
         /\ (request_ended core r = true ->
             {| lapsed_job := source_request job; lapsed_job_request := r |} ∈ lapsed_job_waits core)
  | WaitKind.RETRY => False
  | WaitKind.SESSION | WaitKind.RELEASE_DEPENDENCY => True
  end.

Lemma recorded_dead subject wait queued :
  subject_kind subject ∉ [WaitKind.BLOCKED_RECORD; WaitKind.DISPATCH; WaitKind.RETRY] ->
  (subject, wait) ∈ recorded_waits core ->
  live_wait core (dict_lookup (wait_table core) subject) queued = Ok [] ->
  live_in records (recorded_waits core) wait queued [] = Ok [].
Proof. intros Hk Hin. by rewrite table_recorded, (lookup_recorded subject wait). Qed.

Lemma acquisition_resolved row queued :
  row ∈ acquiring sessions ->
  live_wait core (dict_lookup (wait_table core)
    (turn_subject WaitKind.TURN_ACQUISITION (inv_invocation row))) queued = Ok [] ->
  exists stalled, stalled_acquisitions sessions records [] = Ok stalled
  /\ inv_invocation row ∈ stalled.
Proof.
  intros Hrow Hdead. unfold stalled_acquisitions.
  destruct (filter_result_total
    (fun row => stalled_wait records sessions (inv_wait row) (taken_on [])) (acquiring sessions))
    as [stalled Hst]; [intros; apply stalled_total|].
  rewrite Hst. simpl. eexists. split; [done|]. apply list_elem_of_fmap_2.
  apply (filter_result_Ok _ _ _ Hst). split; [done|].
  destruct (inv_wait row) as [wait|] eqn:Hw; [|done]. eapply dead_stalls.
  eapply recorded_dead; [|apply in_recorded; right; right; left|exact Hdead]; [set_solver|].
  apply in_omap_named. by exists row.
Qed.

Lemma turn_row_found turn :
  turn ∈ sessions_invocations sessions -> turn_row sessions (inv_invocation turn) = Some turn.
Proof.
  intros Hin. unfold turn_row. destruct (next_such _ _) as [row|] eqn:E.
  - apply next_such_Some in E as [Hr Hid%eqb_eq]. f_equal.
    by apply (key_inj inv_invocation _ _ _ (named_turns _ Hnamed)).
  - rewrite next_such_None in E. specialize (E turn Hin). simpl in E. by rewrite eqb_refl in E.
Qed.

(** A waiter of [_checkpoint_waiters] one of whose waits has nothing left *)
Lemma checkpoint_resolved turn :
  turn ∈ sessions_invocations sessions ->
  let invocation := inv_invocation turn in
  (not_none (inv_pending_suspension turn) = true
   /\ stalled_wait records sessions (inv_wait turn) [] = Ok true)
  \/ awaiting_refund sessions invocation = true
  \/ draining_without_cancel sessions invocation = true
     /\ (forall claim, claim_of sessions invocation = Some claim ->
         stalled_wait records sessions (claim_wait claim) [] = Ok true) ->
  exists stalled, stalled_checkpoint_waits sessions records [] = Ok stalled
  /\ invocation ∈ stalled.
Proof.
  intros Hin invocation Hdead. unfold stalled_checkpoint_waits.
  assert (forall i, exists stalls, checkpoint_stalls sessions records i (taken_on []) = Ok stalls) as Hall.
  { intros i. unfold checkpoint_stalls. destruct (turn_row sessions i) as [row|]; [|by eexists].
    unfold yield_stalled, interrupt_stalled.
    destruct (stalled_total (inv_wait row) (taken_on [])) as [a ->].
    replace (if not_none (inv_pending_suspension row) then Ok a else Ok false)
      with (Ok (E := WaitsError) (not_none (inv_pending_suspension row) && a))
      by (by destruct (not_none (inv_pending_suspension row))). simpl.
    destruct (awaiting_refund sessions i); [by eexists|].
    destruct (claim_of sessions (inv_invocation row)) as [claim|]; simpl; [|eauto].
    destruct (stalled_total (claim_wait claim) (taken_on [])) as [b ->].
    destruct (draining_without_cancel sessions (inv_invocation row)); simpl; eauto. }
  destruct (filter_result_total (fun invocation =>
      let* stalls := checkpoint_stalls sessions records invocation (taken_on []) in
      Ok (fst stalls || snd stalls)) (checkpoint_waiters sessions)) as [stalled Hst].
  { intros i _. destruct (Hall i) as [stalls ->]. by eexists. }
  rewrite Hst. eexists. split; [done|]. apply (filter_result_Ok _ _ _ Hst). split.
  - unfold checkpoint_waiters. apply elem_of_fromkeys. split; [|set_solver].
    apply list_elem_of_omap. exists turn. split; [done|]. fold invocation.
    by destruct Hdead as [[-> _]|[->|[-> _]]]; rewrite ?orb_true_r.
  - destruct (Hall invocation) as [stalls Hs]. rewrite Hs. simpl. f_equal. revert Hs.
    unfold checkpoint_stalls. rewrite (turn_row_found turn Hin : turn_row sessions invocation = _).
    unfold yield_stalled, interrupt_stalled. fold invocation. change (taken_on []) with (@nil RequestId).
    destruct (stalled_total (inv_wait turn) []) as [a Ha]. rewrite Ha in *.
    destruct Hdead as [[-> [= ->]]|[->|[Hdrain Hclaim]]].
    + simpl. destruct (awaiting_refund sessions invocation); [by intros [= <-]|].
      destruct (match claim_of sessions invocation with Some _ => _ | None => _ end);
        simpl; [by intros [= <-]|done].
    + by destruct (not_none _); intros [= <-]; rewrite orb_true_r.
    + rewrite Hdrain. assert (exists claim, claim_of sessions invocation = Some claim) as [claim Hc]
        by (unfold draining_without_cancel in Hdrain; destruct (claim_of _ _); [by eexists|done]).
      rewrite Hc, (Hclaim claim Hc).
      by destruct (not_none _), (awaiting_refund _ _); intros [= <-]; rewrite orb_true_r.
Qed.

Lemma root_inj {d} (a b : Identity d) : root a = root b -> a = b.
Proof. destruct a, b. simpl. congruence. Qed.

(** Of a subject the ledger itself states, the table has what the ledger says. *)
Lemma table_ledger row kind wait :
  kind ∈ [WaitKind.DISPATCH; WaitKind.RETRY] ->
  (record_subject kind row, wait) ∈ ledger_waits core ->
  exists wait', dict_lookup (wait_table core) (record_subject kind row) = Some wait'
  /\ (record_subject kind row, wait') ∈ ledger_waits core.
Proof.
  intros Hk Hin. unfold wait_table. rewrite !dict_lookup_app.
  destruct (dict_lookup (ledger_waits core) (record_subject kind row)) as [wait'|] eqn:E.
  - exists wait'. split; [done|]. by apply dict_lookup_elem.
  - by apply (dict_lookup_None _ _ wait) in E.
Qed.

Lemma dispatch_resolved row queued :
  row ∈ rows_of core -> rec_phase row = RequestPhase.PREPARED ->
  live_wait core (dict_lookup (wait_table core) (record_subject WaitKind.DISPATCH row)) queued = Ok [] ->
  rec_request_id row ∈ undispatchable_requests core.
Proof.
  intros Hrow Hp Hdead. destruct (among (rec_request_id row) (undispatchable_requests core)) eqn:Hblocked;
    [by apply among_true|]. exfalso.
  destruct (table_ledger row WaitKind.DISPATCH
    {| wait_requests := [rec_request_id row]; wait_subjects := []; wait_timer := None |})
    as (wait & Htable & Hin); [by left| |].
  { unfold ledger_waits. apply elem_of_app. left. apply list_elem_of_omap. exists row.
    split; [done|]. by rewrite Hp, Hblocked. }
  rewrite Htable in Hdead. cbn [live_wait] in Hdead. unfold wait_producers, live_in in Hdead.
  apply live_empty in Hdead as (Hreq & _).
  assert (rec_request_id row ∈ wait_requests wait) as Hr.
  { unfold ledger_waits in Hin. apply elem_of_app in Hin as [Hin|Hin];
      apply list_elem_of_omap in Hin as (row' & _ & E).
    - destruct (_ && _); [|done]. injection E as Hid <-. apply root_inj in Hid as ->. by left.
    - destruct (retry_wait_until row'); [|done]. by injection E. }
  destruct (Hreq _ Hr) as [Hopen _]. unfold still_open in Hopen. cbn [open_from] in Hopen.
  rewrite record_of_find, (find_unique _ row) in Hopen; [|apply Hnamed|done]. simpl in Hopen.
  unfold dispatched_by_dead_host in Hopen. rewrite Hp in Hopen. done.
Qed.

Lemma retry_resolved row queued :
  row ∈ rows_of core -> not_none (retry_wait_until row) = true ->
  live_wait core (dict_lookup (wait_table core) (record_subject WaitKind.RETRY row)) queued <> Ok [].
Proof.
  intros Hrow Hretry Hdead. destruct (retry_wait_until row) as [at_|] eqn:Hat; [|done].
  destruct (table_ledger row WaitKind.RETRY
    {| wait_requests := []; wait_subjects := []; wait_timer := Some at_ |})
    as (wait & Htable & Hin); [by right; left| |].
  { unfold ledger_waits. apply elem_of_app. right. apply list_elem_of_omap. exists row. by rewrite Hat. }
  rewrite Htable in Hdead. cbn [live_wait] in Hdead. unfold wait_producers, live_in in Hdead.
  apply live_empty in Hdead as (_ & Htimer & _). unfold ledger_waits in Hin.
  apply elem_of_app in Hin as [Hin|Hin]; apply list_elem_of_omap in Hin as (row' & _ & E).
  - destruct (_ && _); [|done]. by injection E.
  - destruct (retry_wait_until row'); [|done]. injection E as _ <-. done.
Qed.

Lemma blocked_resolved row queued :
  row ∈ blocked_records core ->
  live_wait core (dict_lookup (wait_table core) (blocked_subject row)) queued = Ok [] ->
  exists stalled, stalled_blocked_records core = Ok stalled /\ rec_request_id row ∈ stalled.
Proof.
  intros Hrow Hdead. unfold stalled_blocked_records.
  assert (forall wait q, exists found, live_wait core wait q = Ok found) as Htotal.
  { intros [wait|] q; [|by eexists]. apply live_total, Hnamed. }
  destruct (filter_result_total (fun record =>
      let* found := live_wait core (dict_lookup (blocked_waits core) (blocked_subject record)) [] in
      Ok (E := WaitsError) (eqb found [])) (blocked_records core)) as [stalled Hst].
  { intros r _. destruct (Htotal (dict_lookup (blocked_waits core) (blocked_subject r)) []) as [f ->].
    by eexists. }
  rewrite Hst. eexists. split; [done|]. apply list_elem_of_fmap_2.
  apply (filter_result_Ok _ _ _ Hst). split; [done|].
  unfold wait_table in Hdead. rewrite !dict_lookup_app in Hdead.
  rewrite (dict_lookup_absent (ledger_waits core)) in Hdead.
  2: { intros w Hin. unfold ledger_waits in Hin.
       apply elem_of_app in Hin as [Hin|Hin]; apply list_elem_of_omap in Hin as (row' & _ & E).
       - by destruct (_ && _).
       - by destruct (retry_wait_until row'). }
  destruct (dict_lookup (blocked_waits core) (blocked_subject row)) as [wait|] eqn:Hwait; [|done].
  cbn [live_wait] in *. unfold wait_producers, live_in in *.
  apply live_empty in Hdead as (Hreq & Htimer & _).
  assert (wait_subjects wait = []) as Hnone.
  { apply dict_lookup_elem in Hwait. apply list_elem_of_omap in Hwait as (row' & _ & E).
    destruct (eqb _ _); [done|]. by injection E as _ <-. }
  assert (live (S (length (recorded_waits core))) records (dict_lookup (recorded_waits core)) wait [] []
    = Ok []) as ->; [|done].
  apply live_empty. split_and!; [|done|rewrite Hnone; by intros ? ? ?%not_elem_of_nil].
  intros r Hr. destruct (Hreq r Hr) as (? & ? & _). split_and!; [done|done|apply not_elem_of_nil].
Qed.

Lemma job_resolved subject owner wait queued :
  run_status (core_run core) <> RunStatus.TERMINAL ->
  (subject, owner, wait) ∈ job_waits core ->
  live_wait core (dict_lookup (wait_table core) subject) queued = Ok [] ->
  exists job, job ∈ jobs_of core /\ owned_job_subject job = subject
  /\ job_wait_of job = Some wait /\ wait_timer wait = None
  /\ forall r, r ∈ wait_requests wait -> still_open records r = false
     /\ (request_ended core r = true ->
         {| lapsed_job := source_request job; lapsed_job_request := r |} ∈ lapsed_job_waits core).
Proof.
  intros Hstatus Hin Hdead. pose proof Hin as Hjob.
  apply list_elem_of_omap in Hjob as (job & Hjob & E).
  destruct (job_wait_of job) as [w|] eqn:Hw; [|done]. injection E as <- <- <-.
  assert ((owned_job_subject job, w) ∈ recorded_waits core) as Hrec
    by (apply in_recorded; left; by eexists).
  apply (recorded_dead _ w) in Hdead; [|by destruct job; set_solver|done].
  unfold live_in in Hdead. apply live_empty in Hdead as (Hreq & Htimer & _).
  exists job. split_and!; try done. intros r Hr. split; [by apply Hreq|]. intros Hended.
  unfold lapsed_job_waits. rewrite (proj2 (eqb_false _ _) Hstatus). apply elem_of_app. left.
  apply list_elem_of_In, in_flat_map. eexists. split; [apply list_elem_of_In; exact Hin|].
  apply list_elem_of_In, list_elem_of_omap. exists r. by rewrite Hended.
Qed.
End Core.

(** C24: every orphan has its resolver.  Under the invariant on the names of waits, whatever the
    shell has committed and not applied, a wait that nothing can end is one the resolver of its
    kind lists: an acquiring turn among the stalled acquisitions, a yield, an interruption or a
    refund among the stalled checkpoint waits, a prepared request among the undispatchable ones, a
    blocked record among the stalled ones, and a job's wait has no timer and only requests that
    are over, each of which wakes the job if it ended; a retry is never an orphan. *)
Theorem orphans_are_resolved `{Digests} core outbox orphans w :
  waits_named core -> orphan_waits core outbox = Ok orphans -> w ∈ orphans -> resolved core w.
Proof.
  intros Hnamed Hok Hin.
  destruct (orphan_spec core Hnamed outbox orphans w Hok Hin) as (Hst & subject & queued & Hs & Hk & Hi & Hdead).
  unfold resolved. rewrite Hk, Hi. unfold subjects in Hs. rewrite !elem_of_app in Hs.
  destruct Hs as [Hs|[Hs|[Hs|[Hs|[Hs|[Hs|[Hs|Hs]]]]]]].
  - apply list_elem_of_fmap in Hs as (session & -> & _). done.
  - apply list_elem_of_fmap in Hs as (row & -> & Hrow). simpl.
    destruct (acquisition_resolved core Hnamed row queued Hrow Hdead) as (stalled & ? & ?). eauto.
  - apply list_elem_of_fmap in Hs as ([[s owner] wait] & -> & Hjob). simpl in *.
    destruct (job_resolved core Hnamed s owner wait queued Hst Hjob Hdead) as (job & ? & Hs & ? & ? & ?).
    rewrite <- Hs. replace (subject_kind (owned_job_subject job)) with WaitKind.OWNED_JOB by by destruct job.
    eauto 10.
  - apply list_elem_of_fmap in Hs as (edge & -> & _). done.
  - apply list_elem_of_In, in_flat_map in Hs as (turn & Hturn%list_elem_of_In & Hs).
    apply list_elem_of_In in Hs. unfold turn_subjects in Hs. rewrite !elem_of_app in Hs.
    assert (forall wait, (subject, wait) ∈ checkpoint_waits core ->
      subject_kind subject ∉ [WaitKind.BLOCKED_RECORD; WaitKind.DISPATCH; WaitKind.RETRY] ->
      stalled_wait (core_records core) (core_sessions core) (Some wait) [] = Ok true) as Hstalls.
    { intros wait Hwait Hkind. apply (dead_stalls core Hnamed wait queued).
      eapply (recorded_dead core Hnamed subject); [done| |done]. apply in_recorded. tauto. }
    destruct Hs as [Hs|[Hs|Hs]].
    + destruct (not_none (inv_pending_suspension turn)) eqn:Hpending; [|by apply not_elem_of_nil in Hs].
      apply list_elem_of_singleton in Hs as ->. simpl.
      destruct (checkpoint_resolved core Hnamed turn Hturn) as (stalled & ? & ?); [|eauto].
      left. split; [done|]. destruct (inv_wait turn) as [wait|] eqn:Hw; [|done].
      apply Hstalls; [|set_solver]. apply elem_of_app. left. apply list_elem_of_omap.
      exists turn. by rewrite Hpending, Hw.
    + destruct (draining_without_cancel _ _) eqn:Hdrain; [|by apply not_elem_of_nil in Hs].
      apply list_elem_of_singleton in Hs as ->. simpl.
      destruct (checkpoint_resolved core Hnamed turn Hturn) as (stalled & ? & ?); [|eauto].
      right; right. split; [done|]. intros claim Hclaim.
      destruct (claim_wait claim) as [wait|] eqn:Hw; [|done].
      apply next_such_Some in Hclaim as [Hc Hid%eqb_eq].
      apply Hstalls; [|set_solver]. apply elem_of_app. right. apply in_omap_named.
      exists claim. by rewrite Hid.
    + destruct (awaiting_refund _ _) eqn:Hrefund; [|by apply not_elem_of_nil in Hs].
      apply list_elem_of_singleton in Hs as ->. simpl.
      destruct (checkpoint_resolved core Hnamed turn Hturn) as (stalled & ? & ?); [|eauto]. tauto.
  - apply list_elem_of_fmap in Hs as (row & -> & Hrow). simpl.
    apply elem_of_filterb in Hrow as [Hrow Hp%eqb_eq]. exists (rec_request_id row).
    split; [by eapply dispatch_resolved|done].
  - apply list_elem_of_fmap in Hs as (row & -> & Hrow). simpl.
    apply elem_of_filterb in Hrow as [Hrow Hp]. by apply (retry_resolved core row queued) in Hdead.
  - apply list_elem_of_fmap in Hs as (row & -> & Hrow). simpl.
    destruct (blocked_resolved core Hnamed row queued Hrow Hdead) as (stalled & ? & ?). eauto.
Qed.

(** ** The check of a step *)

Lemma unmet_parts `{Digests} before after :
  unmet_waits before after = [] ->
  (forall subject wait, (subject, wait) ∈ recorded_waits after ->
     dict_lookup (recorded_waits before) subject = Some wait
     \/ (forall r, r ∈ wait_requests wait -> request_open after r = true)
        /\ (forall e, e ∈ wait_subjects wait ->
            subject_kind e ∈ MAY_WAIT_ON (subject_kind subject) /\ e ∈ subjects after))
  /\ (forall job, job ∈ jobs_of after -> job_is_terminal job = is_none (job_wait_of job))
  /\ (forall session, session ∈ sessions_sessions (core_sessions after) ->
      session_waits (view_phase session) = true -> view_wait session = None ->
      session ∈ sessions_sessions (core_sessions before)).
Proof.
  unfold unmet_waits. intros [Hreq [Hent [Hjobs [Hsess _]%app_eq_nil]%app_eq_nil]%app_eq_nil]%app_eq_nil.
  assert (forall A B (f : A -> option B) l, omap f l = [] -> forall x, x ∈ l -> f x = None) as Homap.
  { intros A B f l E x Hx. destruct (f x) as [y|] eqn:Hf; [|done].
    assert (y ∈ omap f l) as Hy by (apply list_elem_of_omap; by exists x). rewrite E in Hy. by apply not_elem_of_nil in Hy. }
  assert (forall A B (f : A -> list B) l, flat_map f l = [] -> forall x, x ∈ l -> f x = []) as Hflat.
  { intros A B f l E x Hx. destruct (f x) as [|y ys] eqn:Hf; [done|].
    assert (In y (flat_map f l)) as Hy.
    { apply in_flat_map. exists x. rewrite Hf. split; [by apply list_elem_of_In|by left]. }
    by rewrite E in Hy. }
  split_and!.
  - intros subject wait Hin.
    destruct (decide (dict_lookup (recorded_waits before) subject = Some wait)) as [|Hne]; [by left|right].
    assert ((subject, wait) ∈ List.filter (fun pair =>
      negb (eqb (dict_lookup (recorded_waits before) (fst pair)) (Some (snd pair)))) (recorded_waits after))
      as Hch.
    { apply elem_of_filterb. split; [done|]. simpl. by rewrite (proj2 (eqb_false _ _) Hne). }
    split.
    + intros r Hr. pose proof (Homap _ _ _ _ (Hflat _ _ _ _ Hreq _ Hch) r Hr) as Hopen.
      simpl in Hopen. by destruct (request_open after r).
    + intros e He. pose proof (Homap _ _ _ _ (Hflat _ _ _ _ Hent _ Hch) e He) as Hok. simpl in Hok.
      destruct (among (subject_kind e) _) eqn:Hk; [|done]. destruct (among e _) eqn:Hw; [|done].
      apply among_true in Hk, Hw. done.
  - intros job Hjob. pose proof (Homap _ _ _ _ Hjobs job Hjob) as Hok. unfold unwaited_job in Hok.
    destruct (eqb _ _) eqn:E; [by apply eqb_eq|done].
  - intros session Hin Hw Hn. pose proof (Homap _ _ _ _ Hsess session Hin) as Hok. simpl in Hok.
    rewrite Hw, Hn in Hok. destruct (among session _) eqn:E; [by apply among_true|done].
Qed.

(** A host of an earlier epoch made the latest dispatch of a request the wait names. *)
Definition on_dead_host (core : CoreState) (wait : WaitOn) : Prop :=
  exists r record, r ∈ wait_requests wait /\ record_of (core_records core) (Some r) = Some record
    /\ dispatched_by_dead_host (core_records core) record = true.

(** The session of the name waits in its phase, and recorded no wait, before the step already. *)
Definition waited_before (before after : CoreState) (e : WaitSubject) : Prop :=
  exists session, session_subject session = e /\ session ∈ sessions_sessions (core_sessions after)
    /\ session ∈ sessions_sessions (core_sessions before)
    /\ session_waits (view_phase session) = true /\ view_wait session = None.

(** A wait whose requests are open is ended by one, unless a dead host has them all. *)
Lemma open_requests_end core wait queued :
  (forall r, r ∈ wait_requests wait -> request_open core r = true) ->
  wait_producers core wait queued = Ok [] -> on_dead_host core wait \/ wait_requests wait = [].
Proof.
  intros Hopen Hdead. unfold wait_producers, live_in in Hdead. apply live_empty in Hdead as (Hall & _).
  destruct (wait_requests wait) as [|r rs] eqn:Hr; [by right|left].
  specialize (Hopen r ltac:(by left)). unfold request_open in Hopen.
  destruct (record_of (core_records core) (Some r)) as [record|] eqn:Hrec; [|done].
  exists r, record. rewrite Hr. split_and!; [by left|done|].
  destruct (Hall r ltac:(by left)) as [Hclosed _]. unfold still_open in Hclosed. cbn [open_from] in Hclosed.
  rewrite Hrec, Hopen, (proj2 (among_false r []) (not_elem_of_nil r)) in Hclosed.
  by destruct (dispatched_by_dead_host _ _).
Qed.

(** A wait that names no entity is answered alike in any depth. *)
Lemma plain_live records named wait queued sent n m :
  wait_subjects wait = [] ->
  live (S n) records named wait queued sent = live (S m) records named wait queued sent.
Proof. intros E. cbn [live]. by rewrite E. Qed.

Lemma named_subjects wait :
  names_something wait = Ok tt -> wait_requests wait = [] -> wait_timer wait = None ->
  wait_subjects wait <> [].
Proof. unfold names_something. intros H Hr Ht E. by rewrite Hr, Ht, E in H. Qed.

(** C25: what the check of a step establishes.  A step that leaves no unmet wait keeps the order of
    [MAY_WAIT_ON], so every chain of waits of the state it leaves is answered, whatever the shell
    has committed.  And a wait it recorded or changed is an orphan only if a host of an earlier
    epoch made the latest dispatch of a request it names, or if it is an acquiring turn's, names
    sessions only, and none of them moves: each of them waits, and either it recorded no wait
    before the step already, or the wait it recorded is itself an orphan, which the step did not
    record or which names a request of a dead host.  (A wait that names nothing is refused where it
    is made, by [names_something].) *)
Theorem checked_step_waits `{Digests} before after :
  in_order (recorded_waits before) ->
  (forall subject wait, (subject, wait) ∈ recorded_waits after -> names_something wait = Ok tt) ->
  unmet_waits before after = [] ->
  in_order (recorded_waits after)
  /\ (forall outbox, exists found, waits after outbox = Ok found)
  /\ forall subject wait queued, (subject, wait) ∈ recorded_waits after ->
     dict_lookup (recorded_waits before) subject <> Some wait ->
     wait_producers after wait queued = Ok [] ->
     on_dead_host after wait
     \/ subject_kind subject = WaitKind.TURN_ACQUISITION
        /\ wait_requests wait = [] /\ wait_timer wait = None /\ wait_subjects wait <> []
        /\ forall e, e ∈ wait_subjects wait ->
           subject_kind e = WaitKind.SESSION
           /\ match dict_lookup (recorded_waits after) e with
              | None => waited_before before after e
              | Some its => wait_producers after its queued = Ok []
                  /\ (dict_lookup (recorded_waits before) e = Some its \/ on_dead_host after its)
              end.
Proof.
  intros Horder Hsome Hunmet. apply unmet_parts in Hunmet as (Hwaits & _ & Hsessions).
  assert (in_order (recorded_waits after)) as Hafter.
  { intros subject wait Hin e He. destruct (Hwaits subject wait Hin) as [Hold|[_ Hent]].
    - by apply (Horder subject wait); [apply dict_lookup_elem|].
    - by apply Hent. }
  split; [done|]. split.
  - intros outbox. apply rmap_total. intros subject _. unfold wait_of_subject, live_wait.
    destruct (dict_lookup (wait_table after) subject) as [wait|]; [|simpl; eauto].
    unfold wait_producers. match goal with |- context [live_in ?r ?p ?w ?q ?s] =>
      destruct (live_total r p w q s Hafter) as [found ->] end. simpl. eauto.
  - intros subject wait queued Hin Hnew Hdead.
    destruct (Hwaits subject wait Hin) as [|[Hopen Hent]]; [done|].
    destruct (open_requests_end after wait queued Hopen Hdead) as [?|Hreq]; [by left|right].
    unfold wait_producers, live_in in Hdead. apply live_empty in Hdead as (_ & Htimer & Hnamed).
    assert (wait_subjects wait <> []) as Hsubjects by (by apply (named_subjects wait); eauto).
    assert (forall e, e ∈ wait_subjects wait ->
      subject_kind subject = WaitKind.TURN_ACQUISITION /\ subject_kind e = WaitKind.SESSION) as Hkinds.
    { intros e He. destruct (Hent e He) as [Hkind _].
      destruct (subject_kind subject); try by apply not_elem_of_nil in Hkind.
      by apply list_elem_of_singleton in Hkind. }
    split_and!; try done.
    { destruct (wait_subjects wait) as [|e es]; [done|]. apply (Hkinds e). by left. }
    intros e He. destruct (Hent e He) as [_ Hwaiting]. destruct (Hkinds e He) as [_ Hsession].
    split; [done|].
    destruct (dict_lookup (recorded_waits after) e) as [its|] eqn:Hits.
    + specialize (Hnamed e its He Hits). unfold heard_by in Hnamed. rewrite Hsession in Hnamed. simpl in Hnamed.
      pose proof Hits as Hrec%dict_lookup_elem.
      assert (wait_subjects its = []) as Hnone.
      { destruct (wait_subjects its) as [|x xs] eqn:Hx; [done|].
        pose proof (Hafter e its Hrec x ltac:(rewrite Hx; by left)) as Hbad. rewrite Hsession in Hbad.
        by apply not_elem_of_nil in Hbad. }
      assert (wait_producers after its queued = Ok []) as Hdead.
      { unfold wait_producers, live_in. rewrite <- Hnamed.
        destruct (length (recorded_waits after)) as [|n] eqn:Hn; [|by apply plain_live].
        apply length_zero_iff_nil in Hn. rewrite Hn in Hrec. by apply not_elem_of_nil in Hrec. }
      split; [done|]. destruct (Hwaits e its Hrec) as [?|[Hopen' _]]; [by left|right].
      destruct (open_requests_end after its queued Hopen' Hdead) as [?|?]; [done|]. exfalso.
      unfold wait_producers, live_in in Hdead. apply live_empty in Hdead as (_ & ? & _).
      by apply (named_subjects its); eauto.
    + assert (forall session, session ∈ sessions_sessions (core_sessions after) -> session_subject session = e ->
        view_wait session = None) as Hnowait.
      { intros session Hs Hname. destruct (view_wait session) as [w|] eqn:Hw; [|done].
        exfalso. apply (dict_lookup_None _ _ w Hits). apply in_recorded. right; left.
        apply in_omap_named. exists session. by rewrite Hname, Hw. }
      unfold subjects in Hwaiting. rewrite !elem_of_app in Hwaiting.
      destruct Hwaiting as [Hs|Hother].
      * apply list_elem_of_fmap in Hs as (session & -> & Hs). apply elem_of_filterb in Hs as [Hs Hphase].
        specialize (Hnowait session Hs eq_refl). rewrite Hnowait, orb_false_r in Hphase.
        exists session. split_and!; try done. by apply Hsessions.
      * exfalso. revert Hsession. clear -Hother.
        destruct Hother as [Hs|[Hs|[Hs|[Hs|[Hs|[Hs|Hs]]]]]].
        -- by apply list_elem_of_fmap in Hs as (row & -> & _).
        -- apply list_elem_of_fmap in Hs as ([[x y] z] & -> & Hs).
           apply list_elem_of_omap in Hs as (job & _ & E). destruct (job_wait_of job); [|done].
           injection E as <- _ _. by destruct job.
        -- by apply list_elem_of_fmap in Hs as (edge & -> & _).
        -- apply list_elem_of_In, in_flat_map in Hs as (turn & _ & Hs%list_elem_of_In).
           unfold turn_subjects in Hs. rewrite !elem_of_app in Hs.
           destruct Hs as [Hs|[Hs|Hs]]; (destruct (_ : bool) in Hs; [|by apply not_elem_of_nil in Hs]);
             by apply list_elem_of_singleton in Hs as ->.
        -- by apply list_elem_of_fmap in Hs as (row & -> & _).
        -- by apply list_elem_of_fmap in Hs as (row & -> & _).
        -- by apply list_elem_of_fmap in Hs as (row & -> & _).
Qed.

(** ** Witnesses *)

#[local] Instance plain_digests : Digests :=
  {| digest_request := fun _ => ""%string; digest_command := fun _ => ""%string |}.

(** A closing run that holds on a blocked record no command is about, and on a turn that acquires
    and names a session that waits on nothing. *)
Definition sample_acquiring : Invocation :=
  {| inv_invocation := {| iref_session_id := MkIdentity "session"; iref_generation := 1;
                          iref_invocation_id := MkIdentity "turn" |};
     inv_scope := sample_scope; inv_turn := sample_turn; inv_registered_operation := None;
     inv_phase := SessionPhase.ACQUIRING; inv_observation := None; inv_output_schema := None;
     inv_output_json := None; inv_reserved_inputs := []; inv_input_ids := [];
     inv_guidance_ids := []; inv_evaluation_prefix := None; inv_pending_suspension := None;
     inv_until := {| until_at := seconds 500; until_watches := [] |}; inv_limit := None;
     inv_wait := Some {| wait_requests := [];
                         wait_subjects := [subject_of WaitKind.SESSION "session"];
                         wait_timer := None |} |}.
Definition sample_holding : CoreState :=
  let core := sample_state (sample_run <| run_status := RunStatus.CLOSING |>)
                [sample_record "a" [] RequestPhase.BLOCKED 500] [] in
  core <| core_sessions := (core_sessions core) <| sessions_invocations := [sample_acquiring] |> |>.

Lemma holding_named : waits_named sample_holding.
Proof.
  split.
  - intros subject wait Hin e He. vm_compute in Hin. apply list_elem_of_singleton in Hin as [= -> ->].
    vm_compute in He. apply list_elem_of_singleton in He as ->. left.
  - vm_compute. repeat constructor. by intros ?%not_elem_of_nil.
  - vm_compute. repeat constructor. by intros ?%not_elem_of_nil.
  - vm_compute. repeat constructor. by intros ?%not_elem_of_nil.
Qed.

Lemma orphans_are_resolved_witness :
  exists orphans, orphan_waits sample_holding [] = Ok orphans
  /\ orphans = [{| open_waiter := WaitKind.TURN_ACQUISITION; open_subject := "turn"; open_producer := None |};
                {| open_waiter := WaitKind.BLOCKED_RECORD; open_subject := "a"; open_producer := None |}]
  /\ forall w, w ∈ orphans -> resolved sample_holding w.
Proof.
  eexists. split; [vm_compute; reflexivity|]. split; [reflexivity|]. intros w Hw.
  eapply (orphans_are_resolved sample_holding []); [exact holding_named|vm_compute; reflexivity|exact Hw].
Defined.

(** A job that ran its poll, then named it. *)
Definition sample_polling (wait : option WaitOn) : CoreState :=
  let core := sample_state sample_run [sample_record "poll" [] RequestPhase.PREPARED 500] [] in
  match sample_job with
  | RegisteredOwned job =>
      core <| core_evaluation := (core_evaluation core)
                <| eval_registered_jobs := [job <| rjob_wait := wait |>] |> |>
  | Owned _ => core
  end.
Definition sample_poll : WaitOn :=
  {| wait_requests := [sample_tag "poll"]; wait_subjects := []; wait_timer := None |}.

Lemma checked_step_waits_witness :
  (exists found, waits (sample_polling (Some sample_poll)) [] = Ok found)
  /\ wait_producers (sample_polling (Some sample_poll)) sample_poll [] <> Ok [].
Proof.
  destruct (checked_step_waits (sample_polling None) (sample_polling (Some sample_poll)))
    as (_ & Htotal & Hproducer).
  - intros subject wait Hin. vm_compute in Hin. by apply not_elem_of_nil in Hin.
  - intros subject wait Hin. vm_compute in Hin. apply list_elem_of_singleton in Hin as [= _ ->].
    vm_compute. reflexivity.
  - vm_compute. reflexivity.
  - split; [apply Htotal|]. intros Hdead.
    destruct (Hproducer (subject_of WaitKind.OWNED_JOB "job") sample_poll []) as [Hhost|[E _]].
    + vm_compute. left.
    + vm_compute. discriminate.
    + exact Hdead.
    + destruct Hhost as (r & record & Hr & Hrecord & Hold). apply list_elem_of_singleton in Hr as ->.
      vm_compute in Hrecord. injection Hrecord as <-. vm_compute in Hold. discriminate Hold.
    + discriminate E.
Defined.

(** A turn that acquires, and the session it waits on, which its dispatch opens *)
Definition sample_opening (wait : option WaitOn) : CoreState :=
  let core := sample_state sample_run [sample_record "open" [] RequestPhase.DISPATCHED 500] [] in
  core <| core_sessions := (core_sessions core)
            <| sessions_sessions :=
                 [{| view_spec := turn_session sample_turn; view_scope := sample_scope; view_generation := 1;
                     view_phase := SessionPhase.ACQUIRING; view_invocation := None;
                     view_accepted := false; view_resource_id := None; view_pending_records := [];
                     view_acceptance_sequence := None; view_continuation_id := None;
                     view_wait := Some {| wait_requests := [sample_tag "open"]; wait_subjects := [];
                                          wait_timer := None |} |}] |>
            <| sessions_invocations := match wait with
                                       | Some _ => [sample_acquiring <| inv_wait := wait |>]
                                       | None => []
                                       end |> |>.

(** The wait of the turn names its session only, and is no orphan. *)
Example acquiring_turn_waits wait :
  inv_wait sample_acquiring = Some wait ->
  (forall e, e ∈ wait_subjects wait -> subject_kind e = WaitKind.SESSION)
  /\ wait_requests wait = [] /\ wait_timer wait = None
  /\ unmet_waits (sample_opening None) (sample_opening (Some wait)) = []
  /\ wait_producers (sample_opening (Some wait)) wait [] = Ok [Producer.PENDING_REQUEST].
Proof.
  intros [= <-]. split_and!; try (vm_compute; reflexivity).
  intros e ->%list_elem_of_singleton. reflexivity.
Qed.
