(* ===== verification/Compact.v ===== *)
(** * Spent polls leave the ledger

    [libs/vs-core/src/vs_core/_ledger_compaction.py]: the polls of owned jobs that nothing will
    read again, and the state without them.  A removed poll is one nothing else in the state names;
    an answer to it is recognised by the newer poll that was kept, and no wait changes. *)

From S2P Require Import Prelude PyFloat Identities Values Requests Records State Clock Proofs.
From S2P Require Import Permit Order Answers Episode Forward Ledger LedgerSafe LedgerKept Waits WaitsEnd Samples.

(** The job and the sequence core named a poll after, of a record that is one *)
Definition poll_of (record : RequestRecord) : option (string * Z) :=
  match rec_request record with
  | ObserveOwnedJob _ _ => poll_family (rec_request_id record)
  | _ => None
  end.

(** [newest[prefix] = max(newest.get(prefix, sequence), sequence)] over the polls *)
Definition newest_of (families : list (string * Z)) (prefix : string) : option Z :=
  fold_left (fun best family =>
               if eqb (fst family) prefix
               then Some (match best with
                          | Some best => Z.max best (snd family)
                          | None => snd family
                          end)
               else best) families None.

(** [_answered] *)
Definition poll_answered (record : RequestRecord) : bool :=
  eqb (rec_phase record) RequestPhase.COMPLETED && is_none (rec_failure record)
  && is_none (rec_retry_at record) && is_none (rec_suspension record)
  && is_none (rec_evaluation_result record) && is_none (rec_outcome_json record)
  && eqb (rec_addressed_by record) []
  && match rec_observation record with
     | Some observation =>
         obs_terminal observation && obs_released observation
         && obs_children_complete observation && eqb (obs_descendants observation) []
     | None => false
     end.

(** [_pinned] *)
Definition pinned (core : CoreState) : list RequestId :=
  flat_map (fun record =>
              req_depends_on (rec_request record)
              ++ match rec_request record with
                 | InspectRequest _ target _ | CancelOwnedResource _ _ target
                 | BlockRequest _ target _ => [target]
                 | _ => []
                 end) (rows_of core)
  ++ flat_map (fun '(_, wait) => wait_requests wait) (recorded_waits core).

(** The [superseded] polls of [_spent] *)
Definition superseded (core : CoreState) : list RequestId :=
  let newest := newest_of (omap poll_of (rows_of core)) in
  omap (fun record =>
          match poll_of record with
          | Some (prefix, sequence) =>
              if poll_answered record
                 && match newest prefix with Some newest => (sequence <? newest) | None => false end
              then Some (rec_request_id record) else None
          | None => None
          end) (rows_of core).

(** [_spent] *)
Definition spent (core : CoreState) : list RequestId :=
  match superseded core with
  | [] => []
  | found => List.filter (fun identity => negb (among identity (pinned core))) found
  end.

(** [compact_ledger] *)
Definition compact_ledger (core : CoreState) : CoreState :=
  let gone := spent core in
  if eqb gone [] then core
  else
    let kept := List.filter (fun record => negb (among (rec_request_id record) gone)) (rows_of core) in
    let receipts :=
      map (fun receipt =>
             if any (fun identity => among identity gone) (receipt_request_ids receipt)
             then receipt <| receipt_request_ids :=
                    List.filter (fun i => negb (among i gone)) (receipt_request_ids receipt) |>
             else receipt) (run_receipts (core_run core)) in
    core <| core_records := (core_records core) <| ledger_records := kept |> |>
         <| core_run := if eqb receipts (run_receipts (core_run core)) then core_run core
                        else (core_run core) <| run_receipts := receipts |> |>.

(** ** What is removed *)

Lemma newest_max (families : list (string * Z)) (prefix : string) : forall best,
  let newest := fold_left (fun best family =>
    if eqb (fst family) prefix
    then Some (match best with Some best => Z.max best (snd family) | None => snd family end)
    else best) families best in
  (forall b, best = Some b -> exists n, newest = Some n /\ b <= n)
  /\ (forall s, (prefix, s) ∈ families -> exists n, newest = Some n /\ s <= n)
  /\ (forall n, newest = Some n -> best = Some n \/ (prefix, n) ∈ families).
Proof.
  induction families as [|[p s] families IH]; intros best; simpl.
  - split_and!; [intros b ->; eexists; split; [done|lia]|by intros s ?%not_elem_of_nil|by left].
  - match goal with |- context [fold_left _ families ?b] => destruct (IH b) as (Hb & Hs & Hn) end.
    destruct (eqb p prefix) eqn:E.
    + apply eqb_eq in E as ->. split_and!.
      * intros b ->. destruct (Hb _ eq_refl) as (n & -> & ?). exists n. split; [done|lia].
      * intros s' [[= ->]|Hin]%elem_of_cons; [|by apply Hs].
        destruct (Hb _ eq_refl) as (n & -> & ?). exists n. split; [done|]. destruct best; lia.
      * intros n Hnew. destruct (Hn n Hnew) as [[= <-]|Hin]; [|right; by right].
        destruct best as [b|]; [|right; by left].
        destruct (Z.max_spec b s) as [[_ ->]|[_ ->]]; [right; by left|by left].
    + apply eqb_neq in E. split_and!; [done| |].
      * intros s' [[= -> ->]|Hin]%elem_of_cons; [done|by apply Hs].
      * intros n Hnew. destruct (Hn n Hnew) as [|Hin]; [by left|right; by right].
Qed.

Section Compact.
Variable core : CoreState.

Lemma spent_spec identity :
  identity ∈ spent core <-> identity ∈ superseded core /\ identity ∉ pinned core.
Proof.
  unfold spent. destruct (superseded core) as [|i found]; [set_solver|].
  by rewrite elem_of_filterb, negb_true_iff, among_false.
Qed.

Lemma compact_rows :
  rows_of (compact_ledger core)
  = List.filter (fun row => negb (among (rec_request_id row) (spent core))) (rows_of core).
Proof.
  unfold compact_ledger. destruct (eqb (spent core) []) eqn:E; [|reflexivity].
  apply eqb_eq in E. rewrite E. symmetry. apply forallb_filter_id, forallb_forall. intros row _.
  apply negb_true_iff, among_false, not_elem_of_nil.
Qed.

Lemma kept_rows row :
  row ∈ rows_of (compact_ledger core) <-> row ∈ rows_of core /\ rec_request_id row ∉ spent core.
Proof. by rewrite compact_rows, elem_of_filterb, negb_true_iff, among_false. Qed.

Lemma poll_of_spec row family :
  poll_of row = Some family ->
  (exists b resource, rec_request row = ObserveOwnedJob b resource)
  /\ poll_family (rec_request_id row) = Some family.
Proof. unfold poll_of. destruct (rec_request row); try done. eauto. Qed.

Lemma poll_answered_spec row :
  poll_answered row = true ->
  rec_phase row = RequestPhase.COMPLETED /\ exists o, rec_observation row = Some o
  /\ obs_terminal o = true /\ obs_released o = true /\ obs_descendants o = [].
Proof.
  unfold poll_answered. rewrite !andb_true_iff.
  intros [[[[[[[Hp%eqb_eq _] _] _] _] _] _] Hobs]. split; [done|].
  destruct (rec_observation row) as [o|]; [|done]. exists o.
  rewrite !andb_true_iff, eqb_true in Hobs. tauto.
Qed.

(** A superseded poll: answered, and older than the newest poll of its job, which stays. *)
Lemma superseded_spec identity :
  identity ∈ superseded core ->
  exists row prefix sequence newest, row ∈ rows_of core /\ rec_request_id row = identity
  /\ poll_answered row = true /\ poll_of row = Some (prefix, sequence)
  /\ newest_of (omap poll_of (rows_of core)) prefix = Some newest /\ sequence < newest.
Proof.
  unfold superseded. rewrite list_elem_of_omap. intros (row & Hin & E).
  destruct (poll_of row) as [[prefix sequence]|] eqn:Hpoll; [|done].
  destruct (poll_answered row) eqn:Hans; [|done]. simpl in E.
  destruct (newest_of _ prefix) as [newest|] eqn:Hnew; [|done].
  destruct (sequence <? newest) eqn:Hlt; [|done]. injection E as <-.
  exists row, prefix, sequence, newest. split_and!; try done. lia.
Qed.

Lemma newest_stays prefix newest :
  newest_of (omap poll_of (rows_of core)) prefix = Some newest ->
  exists row, row ∈ rows_of (compact_ledger core) /\ poll_of row = Some (prefix, newest).
Proof.
  intros Hnew. destruct (newest_max (omap poll_of (rows_of core)) prefix None) as (_ & _ & Hin).
  destruct (Hin newest Hnew) as [|Hfam]; [done|].
  apply list_elem_of_omap in Hfam as (row & Hrow & Hpoll). exists row. split; [|done].
  apply kept_rows. split; [done|]. intros [Hsup _]%spent_spec.
  apply superseded_spec in Hsup as (row' & p & s & n & _ & Hid & _ & Hfam & Hn & Hlt).
  apply poll_of_spec in Hpoll as [_ Hpoll]. apply poll_of_spec in Hfam as [_ Hfam].
  rewrite Hid, Hpoll in Hfam. injection Hfam as <- <-. rewrite Hn in Hnew. injection Hnew as ->. lia.
Qed.

Lemma compact_find identity :
  identity ∉ spent core ->
  find (core_records (compact_ledger core)) (Some identity) = find (core_records core) (Some identity).
Proof.
  intros Hkept. rewrite !find_scan. fold (rows_of (compact_ledger core)) (rows_of core).
  rewrite compact_rows.
  induction (rows_of core) as [|row rows IH]; [done|]. simpl.
  destruct (among (rec_request_id row) (spent core)) eqn:E; simpl.
  - rewrite IH. rewrite (filter_cons_False _ row); [done|]. intros Hid. apply among_true in E. by subst.
  - rewrite !filter_cons, IH. done.
Qed.

Lemma spent_find identity :
  identity ∈ spent core -> find (core_records (compact_ledger core)) (Some identity) = [].
Proof.
  intros Hin. destruct (find _ _) as [|row rows] eqn:E; [done|].
  assert (row ∈ find (core_records (compact_ledger core)) (Some identity)) as Hrow by (rewrite E; by left).
  apply find_elem in Hrow as [Hrow <-]. by apply kept_rows in Hrow as [_ ?].
Qed.

Lemma compact_waits : recorded_waits (compact_ledger core) = recorded_waits core.
Proof. unfold compact_ledger. by destruct (eqb _ _). Qed.

Hypothesis Hidentified : identified_rows (rows_of core).

(** A removed poll was over and is no command. *)
Lemma spent_record identity :
  identity ∈ spent core ->
  exists row, record_of (core_records core) (Some identity) = Some row
  /\ rec_phase row = RequestPhase.COMPLETED /\ reconciliation_command row = false.
Proof.
  intros [Hsup _]%spent_spec.
  apply superseded_spec in Hsup as (row & p & q & n & Hrow & <- & Hans & Hpoll & _).
  apply poll_answered_spec in Hans as [Hp _]. apply poll_of_spec in Hpoll as [(b & r & Hreq) _].
  exists row. split_and!; [by rewrite record_of_find, (find_unique _ row)|done|].
  unfold reconciliation_command. by rewrite Hreq.
Qed.

Lemma compact_record identity :
  identity ∉ spent core ->
  record_of (core_records (compact_ledger core)) (Some identity)
  = record_of (core_records core) (Some identity).
Proof. intros Hkept. by rewrite !record_of_find, compact_find. Qed.

Lemma gone_record identity :
  identity ∈ spent core -> record_of (core_records (compact_ledger core)) (Some identity) = None.
Proof. intros Hin. by rewrite record_of_find, spent_find. Qed.

Lemma compact_epoch : ledger_epoch (core_records (compact_ledger core)) = ledger_epoch (core_records core).
Proof. unfold compact_ledger. by destruct (eqb _ _). Qed.

(** A record is addressed by the commands about it. *)
Hypothesis Hcommands : forall row command, row ∈ rows_of core -> command ∈ rec_addressed_by row ->
  forall found, record_of (core_records core) (Some command) = Some found ->
  reconciliation_command found = true.

Lemma compact_carried a b :
  carried_by (core_records (compact_ledger core)) a b <-> carried_by (core_records core) a b.
Proof.
  unfold carried_by, dispatched_by_dead_host. rewrite compact_epoch.
  destruct (decide (a ∈ spent core)) as [Ha|Ha].
  - rewrite (gone_record a Ha). destruct (spent_record a Ha) as (row & -> & Hp & Hc).
    split; [by intros (? & ? & _)|]. intros (row' & [= <-] & _ & [[Hopen _]|[_ Hcmd]]);
      [by rewrite Hp in Hopen|congruence].
  - by rewrite (compact_record a Ha).
Qed.

Lemma compact_moved a :
  moved_now (core_records (compact_ledger core)) a <-> moved_now (core_records core) a.
Proof.
  unfold moved_now, dispatched_by_dead_host. rewrite compact_epoch.
  destruct (decide (a ∈ spent core)) as [Ha|Ha].
  - rewrite (gone_record a Ha). destruct (spent_record a Ha) as (row & -> & Hp & Hc).
    split; [by intros (? & ? & _)|]. intros (row' & [= <-] & Hopen & _). by rewrite Hp in Hopen.
  - rewrite (compact_record a Ha).
    assert (forall row command, record_of (core_records core) (Some a) = Some row ->
      command ∈ rec_addressed_by row ->
      answered_in_this_epoch (core_records (compact_ledger core)) command
      = answered_in_this_epoch (core_records core) command) as Hans.
    { intros row command Hrec Hin. unfold answered_in_this_epoch. rewrite compact_epoch.
      destruct (decide (command ∈ spent core)) as [Hc|Hc]; [|by rewrite compact_record].
      destruct (spent_record command Hc) as (found & Hfound & _ & Hno).
      rewrite record_of_find in Hrec. apply head_Some_elem_of, find_elem in Hrec as [Hrow _].
      by rewrite (Hcommands row command Hrow Hin found Hfound) in Hno. }
    split; intros (row & Hrec & Hopen & Hlive); exists row; (split; [done|]); (split; [done|]);
      (destruct Hlive as [|(command & Hin & Hnow)]; [by left|right]); exists command; (split; [done|]);
      specialize (Hans row command Hrec Hin); congruence.
Qed.

Lemma compact_open r :
  still_open (core_records (compact_ledger core)) r = still_open (core_records core) r.
Proof.
  apply eq_true_iff_eq. rewrite !open_reaches. split; intros (b & Hwalk & Hb); exists b.
  - split; [|by apply compact_moved]. eapply rtc_subrel; [|exact Hwalk]. intros. by apply compact_carried.
  - split; [|by apply compact_moved]. eapply rtc_subrel; [|exact Hwalk]. intros. by apply compact_carried.
Qed.
End Compact.

Lemma rfold_ext {E A B} (f g : B -> A -> result E B) l : forall acc,
  (forall acc x, f acc x = g acc x) -> rfold f acc l = rfold g acc l.
Proof.
  induction l as [|x l IH]; intros acc Hfg; simpl; [done|]. rewrite Hfg.
  destruct (g acc x); simpl; auto.
Qed.

Lemma live_ext records records' named fuel : forall wait queued sent,
  (forall r, still_open records r = still_open records' r) ->
  live fuel records named wait queued sent = live fuel records' named wait queued sent.
Proof.
  induction fuel as [|fuel IH]; intros wait queued sent Hopen; [done|]. cbn [live].
  replace (any (fun request => still_open records request || among request sent) (wait_requests wait))
    with (any (fun request => still_open records' request || among request sent) (wait_requests wait)).
  2: { unfold any. induction (wait_requests wait) as [|r rs IHr]; [done|]. simpl. by rewrite Hopen, IHr. }
  f_equal. apply rfold_ext. intros found subject. destruct (named subject); [|done]. by rewrite IH.
Qed.

(** ** What compaction keeps *)

(** What the state names reads the same.  A request that another request depends on or
    addresses, or that a recorded wait names, is looked up in the compacted ledger with the same
    answer; and a record that is gone was a poll of an owned job that completed with an answer of
    its own which released it and left no descendant. *)
Theorem compaction_keeps_named core :
  (forall identity, identity ∈ pinned core ->
     find (core_records (compact_ledger core)) (Some identity)
     = find (core_records core) (Some identity))
  /\ forall row, row ∈ rows_of core -> row ∉ rows_of (compact_ledger core) ->
     identified_rows (rows_of core) ->
     exists b resource o, rec_request row = ObserveOwnedJob b resource
     /\ rec_phase row = RequestPhase.COMPLETED /\ rec_observation row = Some o
     /\ obs_terminal o = true /\ obs_released o = true /\ obs_descendants o = [].
Proof.
  split.
  - intros identity Hin. apply compact_find. by intros [_ ?]%spent_spec.
  - intros row Hin Hgone Hid.
    assert (rec_request_id row ∈ spent core) as [Hsup _]%spent_spec.
    { destruct (decide (rec_request_id row ∈ spent core)) as [|Hno]; [done|].
      destruct Hgone. by apply kept_rows. }
    apply superseded_spec in Hsup as (row' & p & q & n & Hrow' & E & Hans & Hpoll & _).
    assert (row' = row) as -> by (by apply (key_inj rec_request_id _ _ _ Hid)).
    apply poll_answered_spec in Hans as (? & o & ? & ? & ? & ?).
    apply poll_of_spec in Hpoll as [(b & r & ?) _]. exists b, r, o. done.
Qed.

(** An answer to a poll that is gone is recognised.  Whoever repeats it and whatever it says,
    the compacted ledger takes it without an error and changes nothing. *)
Theorem spent_answers_recognised `{Digests} core context row event :
  row ∈ rows_of core -> row ∉ rows_of (compact_ledger core) ->
  obs_request_id (facts_observation (observed_facts event)) = rec_request_id row ->
  observation_event context (core_records (compact_ledger core)) event
  = Ok (only (core_records (compact_ledger core))).
Proof.
  intros Hin Hgone Hid.
  assert (rec_request_id row ∈ spent core) as Hspent.
  { destruct (decide (rec_request_id row ∈ spent core)) as [|Hno]; [done|].
    destruct Hgone. by apply kept_rows. }
  unfold observation_event, is_late. rewrite Hid.
  assert (unique (core_records (compact_ledger core)) (rec_request_id row) = Ok None) as ->
    by (unfold unique; by rewrite spent_find).
  cbn [rbind orb].
  assert (spent_answer (core_records (compact_ledger core)) event = true) as ->; [|done].
  apply spent_spec in Hspent as Hsup. destruct Hsup as [Hsup _].
  apply superseded_spec in Hsup as (row' & prefix & sequence & n & _ & Hid' & _ & Hpoll & Hnew & Hlt).
  apply poll_of_spec in Hpoll as [_ Hfam]. rewrite Hid' in Hfam.
  destruct (newest_stays core prefix n Hnew) as (newer & Hnewer & Hpoll).
  unfold spent_answer. rewrite Hid, Hfam.
  assert (positions (core_records (compact_ledger core)) (Some (rec_request_id row)) = []) as ->.
  { pose proof (gone_record core _ Hspent) as Hnone. unfold record_of in Hnone.
    destruct (positions _ _) as [|p ps] eqn:E; [done|].
    assert (p ∈ positions (core_records (compact_ledger core)) (Some (rec_request_id row))) as Hp
      by (rewrite E; by left).
    apply elem_of_indexed in Hp as (? & Hat & _). congruence. }
  simpl. apply any_true. exists newer. split; [done|].
  apply poll_of_spec in Hpoll as [(b & r & ->) ->]. rewrite eqb_refl. simpl. lia.
Qed.

(** Compaction changes no wait.  The recorded waits are those of the state, and what can still
    end any wait is what could before. *)
Theorem compaction_changes_no_wait core :
  identified_rows (rows_of core) ->
  (forall row command, row ∈ rows_of core -> command ∈ rec_addressed_by row ->
   forall found, record_of (core_records core) (Some command) = Some found ->
   reconciliation_command found = true) ->
  recorded_waits (compact_ledger core) = recorded_waits core
  /\ forall wait queued,
     wait_producers (compact_ledger core) wait queued = wait_producers core wait queued.
Proof.
  intros Hid Hcommands. split; [apply compact_waits|]. intros wait queued.
  unfold wait_producers, live_in. rewrite compact_waits. apply live_ext. by apply compact_open.
Qed.

(** The ledger stays sound without its spent polls. *)
Theorem compaction_keeps_sound core :
  ledger_sound (core_records core) -> ledger_sound (core_records (compact_ledger core)).
Proof.
  intros [Hid Hall]. unfold ledger_sound, identified_rows in *.
  fold (rows_of (compact_ledger core)) (rows_of core) in *. rewrite compact_rows. split.
  - eapply sublist_NoDup; [|exact Hid]. change map with (@fmap list _ RequestRecord RequestId).
    assert (List.filter (fun row => negb (among (rec_request_id row) (spent core))) (rows_of core)
      `sublist_of` rows_of core) as Hsub; [|by rewrite Hsub].
    clear. induction (rows_of core) as [|row rows IH]; [done|]. simpl.
    destruct (negb _); [by apply sublist_skip|by apply sublist_cons].
  - apply Forall_forall. intros row [Hin _]%elem_of_filterb. by eapply Forall_forall in Hall.
Qed.

(** ** Witnesses *)

#[local] Instance plain_digests : Digests :=
  {| digest_request := fun _ => ""%string; digest_command := fun _ => ""%string |}.

Definition sample_poll_name (number : string) : string := ("measurement:j:observe:" ++ number)%string.

(** The first poll of a job was answered; the second is out. *)
Definition sample_answered_poll : RequestRecord :=
  (sample_record (sample_poll_name "1") [] RequestPhase.COMPLETED 500)
    <| rec_request := ObserveOwnedJob (req_base (sample_request (sample_poll_name "1") []))
                        (MkIdentity "job") |>
    <| rec_sequence := Some 1 |>
    <| rec_observation := Some ((sample_answer 1 ObservationStatus.SUCCEEDED true)
         <| obs_request_id := sample_tag (sample_poll_name "1") |>
         <| obs_children_complete := true |>) |>.
Definition sample_next_poll : RequestRecord :=
  (sample_record (sample_poll_name "2") [] RequestPhase.DISPATCHED 500)
    <| rec_request := ObserveOwnedJob (req_base (sample_request (sample_poll_name "2") []))
                        (MkIdentity "job") |>.
Definition sample_polls : CoreState :=
  sample_state sample_run [sample_answered_poll; sample_next_poll] [].
Definition sample_repeat : RequestObserved :=
  {| observed_facts := facts_of_observation ((sample_answer 1 ObservationStatus.FAILED true)
       <| obs_request_id := sample_tag (sample_poll_name "1") |>);
     observed_target := None |}.

Example first_poll_goes : rows_of (compact_ledger sample_polls) = [sample_next_poll].
Proof. vm_compute. reflexivity. Qed.

Lemma polls_identified : identified_rows (rows_of sample_polls).
Proof. apply (bool_decide_unpack _). vm_compute. exact I. Qed.

Lemma compaction_keeps_named_witness :
  exists b resource o, rec_request sample_answered_poll = ObserveOwnedJob b resource
  /\ rec_phase sample_answered_poll = RequestPhase.COMPLETED
  /\ rec_observation sample_answered_poll = Some o
  /\ obs_terminal o = true /\ obs_released o = true /\ obs_descendants o = [].
Proof.
  apply (proj2 (compaction_keeps_named sample_polls)); [left| |exact polls_identified].
  rewrite first_poll_goes. intros E%list_elem_of_singleton. discriminate E.
Defined.

Lemma spent_answers_recognised_witness :
  observation_event sample_records (core_records (compact_ledger sample_polls)) sample_repeat
  = Ok (only (core_records (compact_ledger sample_polls))).
Proof.
  apply (spent_answers_recognised sample_polls sample_records sample_answered_poll); [left| |reflexivity].
  rewrite first_poll_goes. intros E%list_elem_of_singleton. discriminate E.
Defined.

Lemma compaction_changes_no_wait_witness :
  recorded_waits (compact_ledger sample_polls) = recorded_waits sample_polls.
Proof.
  refine (proj1 (compaction_changes_no_wait sample_polls polls_identified _)).
  intros row command [->|[->|?%not_elem_of_nil]%elem_of_cons]%elem_of_cons Hin; try done;
    by apply not_elem_of_nil in Hin.
Defined.

Lemma compaction_keeps_sound_witness :
  ledger_sound (core_records (compact_ledger sample_polls)).
Proof.
  apply compaction_keeps_sound. split; [exact polls_identified|].
  repeat constructor; try done; try (by intros o [= <-]). intros _. by eexists.
Defined.
