(* ===== verification/Adoption.v ===== *)
(** * The publication of the winner

    [libs/vs-core/src/vs_core/_adoption.py] with the events and the context of
    [types/settlement.py] and [types/kernel.py]: a proposed winner is published by a request, whose
    answer completes the adoption or starts another round of it.  The digest of a selection, of
    [_values.py], is a parameter.  An error is the field the code's [ContractValidationError]
    names. *)

From stdpp Require Import pretty.
From S2P Require Import Prelude PyFloat Identities Values Requests Records State Answers.

(** [_Phase] *)
Module AdoptPhase.
Inductive AdoptPhase : Set := IDLE | ADOPTING | VERIFYING | DONE | FAILED.
End AdoptPhase.
Abbreviation AdoptPhase := AdoptPhase.AdoptPhase.
#[export] Instance AdoptPhase_dec : EqDecision AdoptPhase.
Proof. solve_decision. Defined.

Record SettlementContext := {
  sctx_registry : list OperationDescriptor;
  sctx_run : RunState;
  sctx_attempts : list AttemptView;
  sctx_sessions : SessionsState;
  sctx_evaluation : EvaluationState;
  sctx_records : RecordsState
}.

(** The fields of an [AdoptionObserved] event *)
Record AdoptionAnswer := {
  answer_observation : Observation;
  answer_revision : option RevisionRef;
  answer_publication : option AdoptionPublication;
  answer_checkout : option Canonical
}.

Inductive SettlementEvent : Set :=
  | AssessmentSubmitted (settlement : SettlementRow)
  | OwnershipSettled (attempt : AttemptRef) (released blocked : bool)
  | WinnerProposed (selection : Selection)
  | WinnerObserved (answer : AdoptionAnswer)
  | SettledAttempt (settlement : SettlementRow).

(** [AdoptionView] *)
Record AdoptionView := {
  aview_selection : Selection;
  aview_phase : AdoptPhase;
  aview_rounds : Z;
  aview_failure : option AdoptionFailureReason
}.

Definition selected_revision (selection : Selection) : RevisionRef :=
  match selection with RetainedCandidate _ revision | TrustedBaseline revision => revision end.

(** [digest], of a selection *)
Class SelectionDigest := digest_selection : Selection -> string.

Section Adoption.
Context `{SelectionDigest}.
Local Open Scope string_scope.

(** [_key], [_adopt_id] and [_verify_id] *)
Definition selection_key (selection : Selection) : string :=
  String.substring 0 16 (digest_selection selection).
Definition adopt_id (selection : Selection) (round : Z) : RequestId :=
  MkIdentity ("adopt:" +:+ selection_key selection +:+ ":" +:+ pretty round).
Definition verify_id (selection : Selection) (round : Z) : RequestId :=
  MkIdentity ("verify-adoption:" +:+ selection_key selection +:+ ":" +:+ pretty round).

(** [isinstance(row.request, AdoptRevision) and row.request.selection == selection] *)
Definition adopts (selection : Selection) (row : RequestRecord) : bool :=
  match rec_request row with
  | AdoptRevision _ own _ => eqb own selection
  | _ => false
  end.

(** [_rounds] *)
Definition rounds (records : RecordsState) (selection : Selection) : Z :=
  Z.of_nat (length (List.filter (adopts selection) (ledger_records records))).

(** The decision of a receipt is a [ProposeWinner] of this selection. *)
Definition proposes (selection : Selection) (receipt : DecisionReceipt) : bool :=
  match receipt_decision receipt with
  | Some (ProposeWinner _ own) => eqb own selection
  | _ => false
  end.

(** [_completed_adoptions] *)
Definition completed_adoptions (run : RunState) (selection : Selection) : Z :=
  Z.of_nat (length (List.filter (fun item =>
    proposes selection item
    && eqb (receipt_completion item) (Some CompletionStatus.SUCCEEDED)) (run_receipts run))).

(** [_may_start_round] *)
Definition may_start_round (context : SettlementContext) (selection : Selection) : bool :=
  let spent := (rounds (sctx_records context) selection
                - completed_adoptions (sctx_run context) selection)%Z in
  (spent <? limits_max_adoption_rounds (run_limits (sctx_run context)))%Z.

(** [_ledger_has] *)
Definition ledger_has (records : RecordsState) (request_id : RequestId) (selection : Selection)
    : bool :=
  any (fun row => eqb (rec_request_id row) request_id
                  && match rec_request row with
                     | AdoptRevision _ own _ | VerifyAdoption _ own => eqb own selection
                     | _ => false
                     end) (ledger_records records).

(** [_awaits_inspection] *)
Definition awaits_inspection (observation : Observation) : bool :=
  among (obs_status observation) [ObservationStatus.SUCCEEDED; ObservationStatus.UNKNOWN].

(** [max(_rounds(records, selection) - 1, 0)] *)
Definition latest_round (records : RecordsState) (selection : Selection) : Z :=
  Z.max (rounds records selection - 1) 0.

(** [observation.status == ObservationStatus.PENDING or observation.retryable] *)
Definition answer_pending (observation : Observation) : bool :=
  eqb (obs_status observation) ObservationStatus.PENDING || obs_retryable observation.

(** [_observed_phase] *)
Definition observed_phase (selection : Selection) (observation : Observation)
    (records : RecordsState) : AdoptPhase :=
  let latest := latest_round records selection in
  if eqb (obs_request_id observation) (verify_id selection latest)
  then if answer_pending observation then AdoptPhase.VERIFYING else AdoptPhase.FAILED
  else if eqb (obs_request_id observation) (adopt_id selection latest)
  then if answer_pending observation then AdoptPhase.ADOPTING
       else if awaits_inspection observation then AdoptPhase.VERIFYING else AdoptPhase.FAILED
  else AdoptPhase.FAILED.

(** [_phase] *)
Definition adopt_phase (adoption : option Adoption) (records : RecordsState) : AdoptPhase :=
  match adoption with
  | None => AdoptPhase.IDLE
  | Some adoption =>
      if adoption_verified adoption then AdoptPhase.DONE
      else if not_none (adoption_failure adoption) then AdoptPhase.FAILED
      else
        match adoption_observation adoption with
        | None => AdoptPhase.ADOPTING
        | Some observation => observed_phase (adoption_selection adoption) observation records
        end
  end.

(** [fences_root_mutation] *)
Definition fences_root_mutation (state : SettlementState) (records : RecordsState) : bool :=
  among (adopt_phase (settle_adoption state) records) [AdoptPhase.ADOPTING; AdoptPhase.VERIFYING].

(** [_VIEW_PHASE] and [view] *)
Definition view_phase_of (phase : AdoptPhase) : AdoptPhase :=
  match phase with AdoptPhase.IDLE => AdoptPhase.ADOPTING | _ => phase end.
Definition adoption_view (state : SettlementState) (records : RecordsState) : option AdoptionView :=
  match settle_adoption state with
  | None => None
  | Some adoption =>
      Some {| aview_selection := adoption_selection adoption;
              aview_phase := view_phase_of (adopt_phase (Some adoption) records);
              aview_rounds := rounds records (adoption_selection adoption);
              aview_failure := adoption_failure adoption |}
  end.

(** [_run_scope] and [_limit] *)
Definition run_scope (run : RunState) : Scope :=
  {| scope_owner := OwnerRun (run_run_id run); scope_generation := run_generation run |}.
Definition adopt_limit (run : RunState) : float :=
  fmax (fsub (run_deadline_at run) (run_now_at run)) (limits_reconciliation_bound (run_limits run)).

Definition adopt_base (context : SettlementContext) (request_id : RequestId) : RequestBase :=
  {| base_request_id := Some request_id; base_scope := run_scope (sctx_run context);
     base_depends_on := []; base_decision_id := None; base_admission_id := None |}.

(** [_adopt] and [_verify] *)
Definition adopt (context : SettlementContext) (selection : Selection) (round : Z) : Outbound :=
  within (AdoptRevision (adopt_base context (adopt_id selection round)) selection
            (measurements_of (sctx_evaluation context) (selected_revision selection)))
         (adopt_limit (sctx_run context)) [].
Definition verify (context : SettlementContext) (selection : Selection) (round : Z) : Outbound :=
  within (VerifyAdoption (adopt_base context (verify_id selection round)) selection)
         (adopt_limit (sctx_run context)) [].

(** The receipts [_canonical_receipt] chooses from, and its choice *)
Definition live_proposal (selection : Selection) (item : DecisionReceipt) : bool :=
  proposes selection item && is_accepted (receipt_feedback item)
  && is_none (receipt_completion item).
Definition canonical_receipt (context : SettlementContext) (selection : Selection)
    : option DecisionId :=
  option_map receipt_decision_id
    (last (List.filter (live_proposal selection) (run_receipts (sctx_run context)))).

(** [_refuse] *)
Definition refuse (state : SettlementState) (context : SettlementContext) (selection : Selection)
    (code : RejectionCode) (detail : string) : result string (AreaChange SettlementState) :=
  match canonical_receipt context selection with
  | None => Err "selection"
  | Some decision =>
      Ok {| change_state := state; change_signals := []; change_requests := [];
            change_events :=
              [FeedbackEvent (Rejected decision code [Field "selection"] detail None)] |}
  end.

(** [_ineligible] *)
Definition ineligible (state : SettlementState) (context : SettlementContext)
    (selection : Selection) : option string :=
  let facts := run_facts (sctx_run context) in
  match selection with
  | TrustedBaseline revision =>
      if eqb revision (runfacts_baseline facts) then None
      else Some "trusted baseline differs from the run's baseline"
  | RetainedCandidate _ revision =>
      if negb (retains state selection)
      then Some "selection is not an eligible retained candidate of this run"
      else if match runfacts_task facts with
              | None => true
              | Some task => requires_accuracy_proof task
              end && is_none (accuracy_proof (sctx_evaluation context) revision)
      then Some "selected revision has no accepted accuracy proof"
      else None
  end.

(** [_root_holder] *)
Definition holds_root (attempt : AttemptView) : bool :=
  eqb (wplan_mode (attempt_workspace attempt)) WorkspaceMode.EXCLUSIVE_ROOT
  && (negb (among (attempt_phase attempt)
                  [AttemptPhase.QUEUED; AttemptPhase.TERMINAL; AttemptPhase.PARKED])
      || negb (eqb (attempt_release_dependencies attempt) [])
      || negb (eqb (attempt_pending_records attempt) [])).
Definition root_holder (context : SettlementContext) : bool := any holds_root (sctx_attempts context).

(** [_with_adoption] *)
Definition with_adoption (state : SettlementState) (adoption : Adoption) (requests : list Outbound)
    : AreaChange SettlementState :=
  {| change_state := state <| settle_adoption := Some adoption |>; change_signals := [];
     change_requests := requests; change_events := [] |}.

(** [Adoption(selection=selection)] *)
Definition new_adoption (selection : Selection) : Adoption :=
  {| adoption_selection := selection; adoption_observation := None; adoption_verified := false;
     adoption_publication := None; adoption_checkout := None; adoption_failure := None |}.

(** [_replay] *)
Definition replay (state : SettlementState) (context : SettlementContext) (current : Adoption)
    (phase : AdoptPhase) : AreaChange SettlementState :=
  let selection := adoption_selection current in
  let latest := latest_round (sctx_records context) selection in
  let requests :=
    if eqb phase AdoptPhase.ADOPTING
    then if ledger_has (sctx_records context) (adopt_id selection latest) selection
         then [] else [adopt context selection latest]
    else if ledger_has (sctx_records context) (verify_id selection latest) selection
         then [] else [verify context selection latest] in
  {| change_state := state; change_signals := []; change_requests := requests;
     change_events := [] |}.

(** [_existing] *)
Definition existing (state : SettlementState) (context : SettlementContext) (selection : Selection)
    : result string (option (AreaChange SettlementState)) :=
  let current := settle_adoption state in
  let phase := adopt_phase current (sctx_records context) in
  let same := match current with
              | Some current => if eqb (adoption_selection current) selection then Some current else None
              | None => None
              end in
  match phase, same with
  | AdoptPhase.DONE, Some _ => Ok (Some (only state))
  | AdoptPhase.DONE, None =>
      let* change := refuse state context selection RejectionCode.ALREADY_SETTLED
                            "a different winner is already adopted" in Ok (Some change)
  | AdoptPhase.ADOPTING, Some current | AdoptPhase.VERIFYING, Some current =>
      Ok (Some (replay state context current phase))
  | AdoptPhase.ADOPTING, None | AdoptPhase.VERIFYING, None =>
      let* change := refuse state context selection RejectionCode.IDENTITY_CONFLICT
                            "another adoption is in progress" in Ok (Some change)
  | AdoptPhase.IDLE, _ | AdoptPhase.FAILED, _ => Ok None
  end.

(** [_propose] *)
Definition propose (state : SettlementState) (context : SettlementContext) (selection : Selection)
    : result string (AreaChange SettlementState) :=
  let* known := existing state context selection in
  match known with
  | Some change => Ok change
  | None =>
      match ineligible state context selection with
      | Some reason => refuse state context selection RejectionCode.EVIDENCE reason
      | None =>
          if root_holder context
          then refuse state context selection RejectionCode.DEPENDENCY
                      "an attempt still holds the root workspace"
          else if negb (may_start_round context selection)
          then refuse state context selection RejectionCode.BUDGET
                      "adoption retries are exhausted for this selection"
          else Ok (with_adoption state (new_adoption selection)
                     [adopt context selection (rounds (sctx_records context) selection)])
      end
  end.

(** [reopen] *)
Definition reopen (state : SettlementState) : SettlementState :=
  match settle_adoption state with
  | Some adoption => if adoption_verified adoption then state <| settle_adoption := None |> else state
  | None => state
  end.

(** [_stale] *)
Definition stale (adoption : Adoption) (observation : Observation) : bool :=
  match adoption_observation adoption with
  | None => false
  | Some previous =>
      eqb (obs_request_id previous) (obs_request_id observation)
      && (obs_sequence observation <=? obs_sequence previous)%Z
  end.

(** [_completion] *)
Definition completion (context : SettlementContext) (selection : Selection)
    (status : CompletionStatus) : list Signal :=
  match canonical_receipt context selection with
  | None => []
  | Some decision => [DecisionCompleted decision status]
  end.

(** [_fail] *)
Definition fail (state : SettlementState) (context : SettlementContext) (adoption : Adoption)
    (reason : AdoptionFailureReason) : result string (AreaChange SettlementState) :=
  match adoption_observation adoption with
  | None => Err "observation"
  | Some observation =>
      Ok {| change_state :=
              state <| settle_adoption := Some (adoption <| adoption_failure := Some reason |>) |>;
            change_signals :=
              completion context (adoption_selection adoption) CompletionStatus.FAILED;
            change_requests := [];
            change_events :=
              [AdoptionFailedEvent (adoption_selection adoption) reason observation
                 (rounds (sctx_records context) (adoption_selection adoption))] |}
  end.

(** The publication names the selected revision, or there is none to name it. *)
Definition publishes (selection : Selection) (answer : AdoptionAnswer) : bool :=
  eqb (answer_revision answer) (Some (selected_revision selection))
  && match answer_publication answer with
     | None => true
     | Some publication =>
         eqb (publication_revision publication)
             (root (revision_revision_id (selected_revision selection)))
     end.

(** [_published] *)
Definition published (state : SettlementState) (context : SettlementContext) (adoption : Adoption)
    (answer : AdoptionAnswer) : result string (AreaChange SettlementState) :=
  let selection := adoption_selection adoption in
  let observation := answer_observation answer in
  if negb (publishes selection answer)
  then fail state context (adoption <| adoption_observation := Some observation |>)
            AdoptionFailureReason.CONTENT_MISMATCH
  else
    Ok {| change_state :=
            state <| settle_adoption := Some
              {| adoption_selection := selection; adoption_observation := Some observation;
                 adoption_verified := true; adoption_publication := answer_publication answer;
                 adoption_checkout := answer_checkout answer; adoption_failure := None |} |>;
          change_signals := completion context selection CompletionStatus.SUCCEEDED;
          change_requests := [];
          change_events := [AdoptionResultEvent selection observation (answer_publication answer)
                              (answer_checkout answer)] |}.

(** [_adopt_observed] *)
Definition adopt_observed (state : SettlementState) (context : SettlementContext)
    (adoption : Adoption) (answer : AdoptionAnswer) (round : Z)
    : result string (AreaChange SettlementState) :=
  let observation := answer_observation answer in
  let selection := adoption_selection adoption in
  let recorded := adoption <| adoption_observation := Some observation |> in
  if eqb (obs_status observation) ObservationStatus.SUCCEEDED && not_none (answer_publication answer)
  then published state context adoption answer
  else if answer_pending observation then Ok (with_adoption state recorded [])
  else if negb (awaits_inspection observation)
  then fail state context recorded AdoptionFailureReason.ADOPT_FAILED
  else if ledger_has (sctx_records context) (verify_id selection round) selection
  then Ok (with_adoption state recorded [])
  else Ok (with_adoption state recorded [verify context selection round]).

(** [_verify_observed] *)
Definition verify_observed (state : SettlementState) (context : SettlementContext)
    (adoption : Adoption) (answer : AdoptionAnswer) (round : Z)
    : result string (AreaChange SettlementState) :=
  let observation := answer_observation answer in
  let selection := adoption_selection adoption in
  let recorded := adoption <| adoption_observation := Some observation |> in
  if answer_pending observation then Ok (with_adoption state recorded [])
  else if eqb (obs_status observation) ObservationStatus.SUCCEEDED
  then published state context adoption answer
  else if negb (awaits_inspection observation)
  then fail state context recorded AdoptionFailureReason.VERIFY_FAILED
  else if may_start_round context selection
  then Ok (with_adoption state (new_adoption selection) [adopt context selection (round + 1)])
  else fail state context recorded AdoptionFailureReason.RETRIES_EXHAUSTED.

(** [_observe] *)
Definition observe_adoption (state : SettlementState) (context : SettlementContext)
    (answer : AdoptionAnswer) : result string (AreaChange SettlementState) :=
  let observation := answer_observation answer in
  match settle_adoption state with
  | None => Ok (only state)
  | Some adoption =>
      if adoption_verified adoption
         || negb (eqb (obs_scope observation) (run_scope (sctx_run context)))
      then Ok (only state)
      else
        let selection := adoption_selection adoption in
        let latest := latest_round (sctx_records context) selection in
        let phase := adopt_phase (Some adoption) (sctx_records context) in
        let held := ledger_has (sctx_records context) (obs_request_id observation) selection in
        let adopting := eqb (obs_request_id observation) (adopt_id selection latest) && held in
        let verifying := eqb (obs_request_id observation) (verify_id selection latest) && held in
        let fresh := negb (stale adoption observation) in
        if eqb phase AdoptPhase.ADOPTING && adopting && fresh
        then adopt_observed state context adoption answer latest
        else if eqb phase AdoptPhase.VERIFYING && verifying && fresh
        then verify_observed state context adoption answer latest
        else if eqb phase AdoptPhase.VERIFYING && adopting && fresh
                && match adoption_observation adoption with
                   | None => false
                   | Some previous => eqb (obs_request_id previous) (obs_request_id observation)
                   end
                && negb (eqb (obs_status observation) ObservationStatus.PENDING)
        then adopt_observed state context adoption answer latest
        else Ok (only state)
  end.

(** [_announce_fence_lift] *)
Definition announce_fence_lift (before : SettlementState) (context : SettlementContext)
    (change : AreaChange SettlementState) : AreaChange SettlementState :=
  if fences_root_mutation before (sctx_records context)
     && negb (fences_root_mutation (change_state change) (sctx_records context))
  then change <| change_signals := (change_signals change ++ [AdoptionFenceLifted])%list |>
  else change.

(** [advance] *)
Definition advance_adoption (state : SettlementState) (context : SettlementContext)
    (event : SettlementEvent) : result string (AreaChange SettlementState) :=
  let* change := match event with
                 | WinnerProposed selection => propose state context selection
                 | WinnerObserved answer => observe_adoption state context answer
                 | _ => Err "event.kind"
                 end in
  Ok (announce_fence_lift state context change).
End Adoption.
