(* ===== verification/AdoptionSafe.v ===== *)
(** * What an adoption guarantees

    The properties of [Adoption]: one adoption at a time and never a verified one replaced, a
    publication that names the selected revision, the rounds numbered and within their bound, the
    command completed when its adoption ended, and the fence lifted exactly once. *)

From stdpp Require Import pretty.
From S2P Require Import Prelude PyFloat Identities Values Requests Records State Answers Adoption Samples.

Section Safe.
Context `{SelectionDigest}.
Local Open Scope Z_scope.

(** ** The outcomes of an answer *)

(** What an answer taken by an adoption underway may do: be recorded, start the inspection of its
    round, start the next round, fail the adoption or complete it. *)
Inductive Outcome (state : SettlementState) (context : SettlementContext) (a : Adoption)
    (answer : AdoptionAnswer) : AreaChange SettlementState -> Prop :=
  | Recorded requests :
      requests = [] \/
      (requests = [verify context (adoption_selection a)
                     (latest_round (sctx_records context) (adoption_selection a))]
       /\ ledger_has (sctx_records context)
            (verify_id (adoption_selection a)
               (latest_round (sctx_records context) (adoption_selection a)))
            (adoption_selection a) = false) ->
      Outcome state context a answer
        (with_adoption state (a <| adoption_observation := Some (answer_observation answer) |>)
           requests)
  | NextRound :
      may_start_round context (adoption_selection a) = true ->
      Outcome state context a answer
        (with_adoption state (new_adoption (adoption_selection a))
           [adopt context (adoption_selection a)
              (latest_round (sctx_records context) (adoption_selection a) + 1)])
  | Ended change :
      (exists reason, fail state context
         (a <| adoption_observation := Some (answer_observation answer) |>) reason = Ok change) ->
      Outcome state context a answer change
  | Completed change :
      eqb (obs_status (answer_observation answer)) ObservationStatus.SUCCEEDED = true ->
      publishes (adoption_selection a) answer = true ->
      published state context a answer = Ok change ->
      Outcome state context a answer change.

Lemma published_cases state context a answer change :
  eqb (obs_status (answer_observation answer)) ObservationStatus.SUCCEEDED = true ->
  published state context a answer = Ok change -> Outcome state context a answer change.
Proof.
  intros Hs E. destruct (publishes (adoption_selection a) answer) eqn:Hp.
  - by apply Completed.
  - unfold published in E. rewrite Hp in E. simpl in E. apply Ended. by eexists.
Qed.

Lemma adopt_observed_cases state context a answer change :
  adopt_observed state context a answer
    (latest_round (sctx_records context) (adoption_selection a)) = Ok change ->
  Outcome state context a answer change.
Proof.
  unfold adopt_observed. destruct (_ && not_none _) eqn:Hs.
  { apply andb_true_iff in Hs as [Hs _]. by apply published_cases. }
  destruct (answer_pending _); [intros [= <-]; apply Recorded; by left|].
  destruct (negb (awaits_inspection _)); [intros E; apply Ended; by eexists|].
  destruct (ledger_has _ _ _) eqn:Hh; intros [= <-]; apply Recorded; [by left|by right].
Qed.

Lemma verify_observed_cases state context a answer change :
  verify_observed state context a answer
    (latest_round (sctx_records context) (adoption_selection a)) = Ok change ->
  Outcome state context a answer change.
Proof.
  unfold verify_observed.
  destruct (answer_pending _); [intros [= <-]; apply Recorded; by left|].
  destruct (eqb _ ObservationStatus.SUCCEEDED) eqn:Hs; [by apply published_cases|].
  destruct (negb (awaits_inspection _)); [intros E; apply Ended; by eexists|].
  destruct (may_start_round _ _) eqn:Hm; [intros [= <-]; by apply NextRound|].
  intros E. apply Ended. by eexists.
Qed.

(** An answer changes something only for an adoption underway, whose ledger holds its request. *)
Lemma observe_cases state context answer change :
  observe_adoption state context answer = Ok change ->
  change = only state \/
  exists a, settle_adoption state = Some a /\ adoption_verified a = false
    /\ fences_root_mutation state (sctx_records context) = true
    /\ ledger_has (sctx_records context) (obs_request_id (answer_observation answer))
         (adoption_selection a) = true
    /\ obs_scope (answer_observation answer) = run_scope (sctx_run context)
    /\ Outcome state context a answer change.
Proof.
  unfold observe_adoption. destruct (settle_adoption state) as [a|] eqn:Ha; [|intros [= <-]; by left].
  destruct (adoption_verified a || _) eqn:Hv; [intros [= <-]; by left|].
  apply orb_false_iff in Hv as [Hv Hscope]. apply negb_false_iff, eqb_eq in Hscope. cbv zeta.
  set (phase := adopt_phase (Some a) (sctx_records context)).
  set (held := ledger_has _ _ _). fold phase.
  assert (forall P, phase = P -> P = AdoptPhase.ADOPTING \/ P = AdoptPhase.VERIFYING ->
            fences_root_mutation state (sctx_records context) = true) as Hf.
  { intros P HP Hor. unfold fences_root_mutation. rewrite Ha. fold phase. rewrite HP.
    apply among_true. destruct Hor as [->| ->]; set_solver. }
  destruct (eqb phase AdoptPhase.ADOPTING && _ && _) eqn:E1.
  { intros E. right. exists a. to_prop. repeat split; eauto. by apply adopt_observed_cases. }
  destruct (eqb phase AdoptPhase.VERIFYING && _ && _) eqn:E2.
  { intros E. right. exists a. to_prop. repeat split; eauto. by apply verify_observed_cases. }
  destruct (eqb phase AdoptPhase.VERIFYING && _ && _ && _ && _) eqn:E3; [|intros [= <-]; by left].
  intros E. right. exists a. to_prop. repeat split; eauto. by apply adopt_observed_cases.
Qed.

(** ** The outcomes of a proposal *)

Definition quiet (state : SettlementState) (change : AreaChange SettlementState) : Prop :=
  change_state change = state /\ change_signals change = [].

(** What a proposal does: nothing but a refusal, the request the ledger lost, or a first round. *)
Inductive Proposal (state : SettlementState) (context : SettlementContext) (selection : Selection)
    : AreaChange SettlementState -> Prop :=
  | Left change : quiet state change -> change_requests change = [] ->
      Proposal state context selection change
  | Refilled change a : quiet state change -> settle_adoption state = Some a ->
      adoption_selection a = selection ->
      fences_root_mutation state (sctx_records context) = true ->
      (let latest := latest_round (sctx_records context) selection in
       (change_requests change = [adopt context selection latest]
        /\ ledger_has (sctx_records context) (adopt_id selection latest) selection = false)
       \/ (change_requests change = [verify context selection latest]
           /\ adoption_observation a <> None /\ ledger_has (sctx_records context) (verify_id selection latest) selection = false)) ->
      Proposal state context selection change
  | Started :
      fences_root_mutation state (sctx_records context) = false ->
      adopt_phase (settle_adoption state) (sctx_records context) <> AdoptPhase.DONE ->
      ineligible state context selection = None -> root_holder context = false ->
      may_start_round context selection = true ->
      Proposal state context selection
        (with_adoption state (new_adoption selection)
           [adopt context selection (rounds (sctx_records context) selection)]).

Lemma refuse_left state context selection s code detail change :
  refuse state context s code detail = Ok change -> Proposal state context selection change.
Proof. unfold refuse. destruct (canonical_receipt _ _); [intros [= <-]; by apply Left|done]. Qed.

Lemma replay_refills state context a phase :
  settle_adoption state = Some a -> fences_root_mutation state (sctx_records context) = true ->
  (phase <> AdoptPhase.ADOPTING -> adoption_observation a <> None) ->
  Proposal state context (adoption_selection a) (replay state context a phase).
Proof.
  intros Ha Hf Hobs. unfold replay. destruct (eqb phase _) eqn:Hp; destruct (ledger_has _ _ _) eqn:Hh;
    try (by apply Left); apply (Refilled _ _ _ _ a); try done; [by left|right].
  split; [done|]. split; [by apply Hobs, eqb_neq|done].
Qed.

Lemma existing_cases state context selection known :
  existing state context selection = Ok known ->
  match known with
  | Some change => Proposal state context selection change
  | None => adopt_phase (settle_adoption state) (sctx_records context) ∈ [AdoptPhase.IDLE; AdoptPhase.FAILED]
  end.
Proof.
  unfold existing. set (same := match settle_adoption state with Some _ => _ | None => None end).
  assert (forall a, same = Some a -> settle_adoption state = Some a /\ adoption_selection a = selection)
    as Hsame.
  { unfold same. intros a. destruct (settle_adoption state) as [b|]; [|done].
    destruct (eqb _ _) eqn:E; [|done]. intros [= ->]. split; [done|by apply eqb_eq]. }
  destruct (adopt_phase _ _) eqn:Hp, same as [a|]; simpl;
    try (intros [= <-]; first [by apply Left|set_solver]);
    try (intros (change & Hr & [= <-])%rbind_Ok; by eapply refuse_left);
    destruct (Hsame a eq_refl) as [Ha <-]; intros [= <-]; 
    (apply replay_refills; [done| |]);
    try (unfold fences_root_mutation; rewrite Hp; apply among_true; set_solver);
    intros Hne Hnone; try done; rewrite Ha in Hp; simpl in Hp; rewrite Hnone in Hp;
    by destruct (adoption_verified a), (not_none (adoption_failure a)).
Qed.

Lemma propose_cases state context selection change :
  propose state context selection = Ok change -> Proposal state context selection change.
Proof.
  unfold propose. intros (known & Hk & E)%rbind_Ok. apply existing_cases in Hk.
  destruct known as [known|]; [by injection E as <-|].
  destruct (ineligible _ _ _) eqn:Hi; [by eapply refuse_left|].
  destruct (root_holder _) eqn:Hr; [by eapply refuse_left|].
  destruct (may_start_round _ _) eqn:Hm; simpl in E; [|by eapply refuse_left].
  injection E as <-.
  apply Started; try done; [|intros Hd; rewrite Hd in Hk; set_solver].
  unfold fences_root_mutation. apply among_false. 
  destruct (adopt_phase _ _); rewrite !elem_of_cons, elem_of_nil in *; intuition discriminate.
Qed.

(** ** The outcomes of an event *)

Definition announced (state : SettlementState) (context : SettlementContext)
    (inner change : AreaChange SettlementState) : Prop :=
  change_state change = change_state inner /\ change_requests change = change_requests inner
  /\ change_events change = change_events inner
  /\ change_signals change
     = (change_signals inner
        ++ if fences_root_mutation state (sctx_records context)
              && negb (fences_root_mutation (change_state inner) (sctx_records context))
           then [AdoptionFenceLifted] else [])%list.

Lemma announce_announced state context inner :
  announced state context inner (announce_fence_lift state context inner).
Proof.
  unfold announced, announce_fence_lift. destruct (_ && _); simpl; [done|].
  by rewrite app_nil_r.
Qed.

Definition Taken (state : SettlementState) (context : SettlementContext) (event : SettlementEvent)
    (inner : AreaChange SettlementState) : Prop :=
  (exists selection, event = WinnerProposed selection /\ Proposal state context selection inner)
  \/ (exists answer, event = WinnerObserved answer
      /\ (inner = only state
          \/ exists a, settle_adoption state = Some a /\ adoption_verified a = false
               /\ fences_root_mutation state (sctx_records context) = true
               /\ ledger_has (sctx_records context) (obs_request_id (answer_observation answer))
                    (adoption_selection a) = true
               /\ obs_scope (answer_observation answer) = run_scope (sctx_run context)
               /\ Outcome state context a answer inner)).

Lemma advance_cases state context event change :
  advance_adoption state context event = Ok change ->
  exists inner, announced state context inner change /\ Taken state context event inner.
Proof.
  unfold advance_adoption. intros (inner & E & [= <-])%rbind_Ok. exists inner.
  split; [apply announce_announced|]. destruct event; try done.
  - left. eexists. split; [done|by apply propose_cases].
  - right. eexists. split; [done|by apply observe_cases].
Qed.

Lemma verified_is_done state context a :
  settle_adoption state = Some a -> adoption_verified a = true ->
  adopt_phase (settle_adoption state) (sctx_records context) = AdoptPhase.DONE.
Proof. intros -> Hv. simpl. by rewrite Hv. Qed.

Lemma done_unfenced state context :
  adopt_phase (settle_adoption state) (sctx_records context) = AdoptPhase.DONE ->
  fences_root_mutation state (sctx_records context) = false.
Proof. intros E. unfold fences_root_mutation. rewrite E. by apply among_false; set_solver. Qed.

(** ** Properties *)

(** A verified adoption stands: whatever winner is proposed and whatever answer arrives, the
    state keeps it, no request goes out and no signal is sent. *)
Theorem verified_adoption_stands state context event a change :
  settle_adoption state = Some a -> adoption_verified a = true ->
  advance_adoption state context event = Ok change ->
  change_state change = state /\ change_requests change = [] /\ change_signals change = [].
Proof.
  intros Ha Hv (inner & (Hs & Hr & _ & Hsig) & Htaken)%advance_cases.
  pose proof (verified_is_done state context a Ha Hv) as Hdone.
  pose proof (done_unfenced _ _ Hdone) as Hf. rewrite Hf, app_nil_r in Hsig.
  rewrite Hs, Hr, Hsig.
  destruct Htaken as [(s & _ & HP)|(answer & _ & [->|(b & Hb & Hnv & _)])]; [|done|congruence].
  destruct HP as [inner [Hst Hg] Hq|inner b [Hst Hg] _ _ Hfence _|_ Hnot]; [done|congruence|done].
Qed.

(** The fence over the run's root is announced lifted exactly when an event lifts it. *)
Theorem fence_lift_announced state context event change :
  advance_adoption state context event = Ok change ->
  AdoptionFenceLifted ∈ change_signals change <->
  fences_root_mutation state (sctx_records context) = true
  /\ fences_root_mutation (change_state change) (sctx_records context) = false.
Proof.
  intros (inner & (Hs & _ & _ & Hsig) & Htaken)%advance_cases. rewrite Hs, Hsig, elem_of_app.
  assert (AdoptionFenceLifted ∉ change_signals inner) as Hnone.
  { assert (forall s status, AdoptionFenceLifted ∉ completion context s status) as Hcomp.
    { intros s status. unfold completion. destruct (canonical_receipt _ _); set_solver. }
    destruct Htaken as [(s & _ & HP)|(answer & _ & [->|(a & _ & _ & _ & _ & _ & HO)])]; [|set_solver|].
    - destruct HP as [inner [_ ->]|inner b [_ ->]|]; set_solver.
    - destruct HO as [| |inner (reason & E)|inner _ Hp E]; simpl; try set_solver.
      + unfold fail in E. simpl in E. injection E as <-. apply Hcomp.
      + unfold published in E. rewrite Hp in E. injection E as <-. apply Hcomp. }
  destruct (fences_root_mutation state _), (fences_root_mutation (change_state inner) _); set_solver.
Qed.

(** Core starts an adoption of another selection only when none is underway and none is
    verified, for a selection that is eligible, with no attempt holding the root and a round left
    to spend; and the one request it sends publishes that selection. *)
Theorem winner_is_eligible state context event change a :
  advance_adoption state context event = Ok change ->
  settle_adoption (change_state change) = Some a ->
  (forall b, settle_adoption state = Some b -> adoption_selection b <> adoption_selection a) ->
  ineligible state context (adoption_selection a) = None /\ root_holder context = false
  /\ may_start_round context (adoption_selection a) = true
  /\ fences_root_mutation state (sctx_records context) = false
  /\ adopt_phase (settle_adoption state) (sctx_records context) <> AdoptPhase.DONE
  /\ change_requests change
     = [adopt context (adoption_selection a) (rounds (sctx_records context) (adoption_selection a))].
Proof.
  intros (inner & (Hs & Hr & _ & _) & Htaken)%advance_cases Ha Hother. rewrite Hs in Ha.
  assert (forall b, settle_adoption state = Some b -> adoption_selection b = adoption_selection a -> False)
    as Hno by (intros b Hb E; by apply (Hother b Hb)).
  destruct Htaken as [(s & _ & HP)|(answer & _ & [->|(b & Hb & _ & _ & _ & _ & HO)])].
  - destruct HP as [inner [Hst _]|inner c [Hst _]|Hf Hd Hi Hh Hm];
      [rewrite Hst in Ha; by destruct (Hno a Ha)..|].
    simpl in Ha. injection Ha as <-. rewrite Hr. by repeat split.
  - by destruct (Hno a Ha).
  - exfalso. apply (Hno b Hb). destruct HO as [| |inner (reason & E)|inner _ Hp E].
    + simpl in Ha. by injection Ha as <-.
    + simpl in Ha. by injection Ha as <-.
    + unfold fail in E. simpl in E. injection E as <-. simpl in Ha. by injection Ha as <-.
    + unfold published in E. rewrite Hp in E. injection E as <-. simpl in Ha. by injection Ha as <-.
Qed.

(** C23: an adoption becomes verified only by an answer of this run to a request of the adoption
    that says it succeeded, names the selected revision and, where it tells of a publication,
    publishes that revision. *)
Theorem verified_names_the_revision state context event change a :
  advance_adoption state context event = Ok change ->
  settle_adoption (change_state change) = Some a -> adoption_verified a = true ->
  change_state change <> state ->
  exists answer, event = WinnerObserved answer
    /\ obs_status (answer_observation answer) = ObservationStatus.SUCCEEDED
    /\ obs_scope (answer_observation answer) = run_scope (sctx_run context)
    /\ ledger_has (sctx_records context) (obs_request_id (answer_observation answer))
         (adoption_selection a) = true
    /\ answer_revision answer = Some (selected_revision (adoption_selection a))
    /\ forall publication, adoption_publication a = Some publication ->
       publication_revision publication
       = root (revision_revision_id (selected_revision (adoption_selection a))).
Proof.
  intros (inner & (Hs & _ & _ & _) & Htaken)%advance_cases Ha Hv Hchanged. rewrite Hs in Ha, Hchanged.
  destruct Htaken as [(s & _ & HP)|(answer & -> & [->|(b & Hb & Hnv & _ & Hheld & Hscope & HO)])].
  - destruct HP as [inner [Hst _]|inner c [Hst _]|]; [done..|].
    simpl in Ha. by injection Ha as <-.
  - done.
  - exists answer. split; [done|]. destruct HO as [| |inner (reason & E)|inner Hok Hp E].
    + simpl in Ha. injection Ha as <-. simpl in Hv. congruence.
    + simpl in Ha. by injection Ha as <-.
    + unfold fail in E. simpl in E. injection E as <-. simpl in Ha. injection Ha as <-.
      simpl in Hv. congruence.
    + unfold published in E. rewrite Hp in E. injection E as <-. simpl in Ha. injection Ha as <-.
      simpl. unfold publishes in Hp. apply andb_true_iff in Hp as [Hrev%eqb_eq Hpub].
      apply eqb_eq in Hok. repeat split; try done.
      intros publication Hsome. rewrite Hsome in Hpub. by apply eqb_eq in Hpub.
Qed.

Lemma completion_In context selection status d status' :
  DecisionCompleted d status' ∈ completion context selection status ->
  status' = status /\ exists receipt, receipt ∈ run_receipts (sctx_run context)
    /\ live_proposal selection receipt = true /\ receipt_decision_id receipt = d.
Proof.
  unfold completion, canonical_receipt.
  destruct (last _) as [receipt|] eqn:E; simpl; [|by intros ?%not_elem_of_nil].
  intros Hin%list_elem_of_singleton. injection Hin as -> ->. split; [done|]. exists receipt.
  apply last_Some_elem_of, elem_of_filterb in E as [? ?]. done.
Qed.

(** Core completes a command by an adoption only when the adoption ended, as succeeded when it
    was verified and as failed when it failed, and only a live accepted command that proposed this
    very selection. *)
Theorem adoption_completes_its_command state context event change d status :
  advance_adoption state context event = Ok change ->
  DecisionCompleted d status ∈ change_signals change ->
  exists a receipt, settle_adoption (change_state change) = Some a
    /\ adopt_phase (Some a) (sctx_records context)
       = match status with
         | CompletionStatus.SUCCEEDED => AdoptPhase.DONE
         | _ => AdoptPhase.FAILED
         end
    /\ receipt ∈ run_receipts (sctx_run context) /\ receipt_decision_id receipt = d
    /\ live_proposal (adoption_selection a) receipt = true.
Proof.
  intros (inner & (Hs & _ & _ & Hsig) & Htaken)%advance_cases Hin. rewrite Hs.
  assert (DecisionCompleted d status ∈ change_signals inner) as Hin'.
  { rewrite Hsig, elem_of_app in Hin. destruct Hin as [|Hin]; [done|]. destruct (_ && _); set_solver. }
  clear Hin.
  destruct Htaken as [(s & _ & HP)|(answer & _ & [->|(b & Hb & Hnv & _ & _ & _ & HO)])].
  - destruct HP as [inner [_ E]|inner c [_ E]|]; rewrite ?E in Hin'; by apply not_elem_of_nil in Hin'.
  - by apply not_elem_of_nil in Hin'.
  - destruct HO as [| |inner (reason & E)|inner Hok Hp E]; try by apply not_elem_of_nil in Hin'.
    + unfold fail in E. simpl in E. injection E as <-. simpl in Hin' |- *.
      apply completion_In in Hin' as (-> & receipt & ? & ? & ?).
      eexists _, receipt. split; [done|]. simpl. rewrite Hnv. done.
    + unfold published in E. rewrite Hp in E. injection E as <-. simpl in Hin' |- *.
      apply completion_In in Hin' as (-> & receipt & ? & ? & ?).
      eexists _, receipt. done.
Qed.

(** An answer to an adoption is always taken, and a proposal raises only when it is refused and
    no live command proposed its selection. *)
Theorem adoption_never_raises state context event :
  match event with
  | WinnerObserved _ => True
  | WinnerProposed selection => canonical_receipt context selection <> None
  | _ => False
  end -> exists change, advance_adoption state context event = Ok change.
Proof.
  assert (forall a reason, not_none (adoption_observation a) = true ->
            exists change, fail state context a reason = Ok change) as Hfail.
  { intros a reason. unfold fail. destruct (adoption_observation a); eauto. done. }
  assert (forall a answer, exists change, published state context a answer = Ok change) as Hpub.
  { intros a answer. unfold published. destruct (negb _); [by apply Hfail|by eexists]. }
  unfold advance_adoption. destruct event as [|?|selection|answer|]; try done; intros Hev.
  - enough (exists inner, propose state context selection = Ok inner) as [inner ->] by (simpl; eauto).
    assert (forall code detail, exists change, refuse state context selection code detail = Ok change)
      as Href.
    { intros. unfold refuse. destruct (canonical_receipt _ _); [eauto|done]. }
    assert (exists known, existing state context selection = Ok known) as [known Hk].
    { unfold existing. destruct (Href RejectionCode.ALREADY_SETTLED
        "a different winner is already adopted"%string) as [c1 ->].
      destruct (Href RejectionCode.IDENTITY_CONFLICT "another adoption is in progress"%string) as [c2 ->].
      simpl. repeat case_match; eauto. }
    unfold propose. rewrite Hk. simpl. destruct known; [eauto|].
    destruct (ineligible _ _ _); [apply Href|]. destruct (root_holder _); [apply Href|].
    destruct (negb _); [apply Href|eauto].
  - enough (exists inner, observe_adoption state context answer = Ok inner) as [inner ->] by (simpl; eauto).
    unfold observe_adoption. destruct (settle_adoption state) as [a|]; [|eauto].
    destruct (_ || _); [eauto|]. cbv zeta.
    set (round := latest_round _ _).
    assert (exists inner, adopt_observed state context a answer round = Ok inner) as [? HA].
    { unfold adopt_observed. destruct (_ && _); [apply Hpub|]. destruct (answer_pending _); [eauto|].
      destruct (negb _); [by apply Hfail|]. destruct (ledger_has _ _ _); eauto. }
    assert (exists inner, verify_observed state context a answer round = Ok inner) as [? HV].
    { unfold verify_observed. destruct (answer_pending _); [eauto|]. destruct (eqb _ _); [apply Hpub|].
      destruct (negb _); [by apply Hfail|]. destruct (may_start_round _ _); [eauto|by apply Hfail]. }
    rewrite HA, HV. repeat case_match; eauto.
Qed.

(** ** Rounds *)

(** The rounds of each selection carry the numbers 0, 1, 2, ... in the order the ledger took them,
    and an inspection follows a round. *)
Definition well_numbered (records : RecordsState) : Prop := forall selection,
  map rec_request_id (List.filter (adopts selection) (ledger_records records))
  = map (adopt_id selection) (seqZ 0 (rounds records selection))
  /\ forall row b, row ∈ ledger_records records -> rec_request row = VerifyAdoption b selection ->
     0 < rounds records selection.

Definition consistent (state : SettlementState) (records : RecordsState) : Prop :=
  well_numbered records
  /\ forall a, settle_adoption state = Some a -> adoption_observation a <> None ->
     0 < rounds records (adoption_selection a).

(** [rows] register [requests]. *)
Definition registered_as (requests : list Outbound) (rows : list RequestRecord) : Prop :=
  Forall2 (fun sent row => rec_request row = outbound_request sent
                           /\ Some (rec_request_id row) = req_request_id (outbound_request sent))
          requests rows.
Definition with_new (records : RecordsState) (rows : list RequestRecord) : RecordsState :=
  records <| ledger_records := ledger_records records ++ rows |>.

Lemma rounds_app records row selection :
  rounds (with_new records [row]) selection
  = rounds records selection + (if adopts selection row then 1 else 0).
Proof.
  unfold rounds. simpl. rewrite List.filter_app, length_app. simpl.
  destruct (adopts selection row); simpl; lia.
Qed.

Lemma numbered_adopt records row b selection evidence :
  well_numbered records -> rec_request row = AdoptRevision b selection evidence ->
  rec_request_id row = adopt_id selection (rounds records selection) ->
  well_numbered (with_new records [row]).
Proof.
  intros Hn Hreq Hid s. destruct (Hn s) as [Hmap Hver]. rewrite rounds_app.
  assert (adopts s row = eqb selection s) as Hs by (unfold adopts; by rewrite Hreq).
  assert (0 <= rounds records s) by (unfold rounds; lia). split.
  - simpl. rewrite List.filter_app, map_app, Hmap. simpl. rewrite Hs.
    destruct (eqb selection s) eqn:E; simpl; [|by rewrite app_nil_r, Z.add_0_r].
    apply eqb_eq in E as ->. rewrite Hid, seqZ_app by lia. by rewrite map_app, Z.add_0_l.
  - intros r b' Hin Hr. simpl in Hin. apply elem_of_app in Hin as [Hin|Hin%list_elem_of_singleton].
    + specialize (Hver r b' Hin Hr). destruct (adopts s row); lia.
    + subst r. congruence.
Qed.

Lemma numbered_verify records row b selection :
  well_numbered records -> rec_request row = VerifyAdoption b selection ->
  0 < rounds records selection -> well_numbered (with_new records [row]).
Proof.
  intros Hn Hreq Hpos s. destruct (Hn s) as [Hmap Hver]. rewrite rounds_app.
  assert (adopts s row = false) as Hs by (unfold adopts; by rewrite Hreq).
  rewrite Hs, Z.add_0_r. split.
  - simpl. rewrite List.filter_app. simpl. by rewrite Hs, app_nil_r.
  - intros r b' Hin Hr. simpl in Hin. apply elem_of_app in Hin as [Hin|Hin%list_elem_of_singleton].
    + by apply (Hver r b').
    + subst r. congruence.
Qed.

Lemma held_has_round records request_id selection :
  well_numbered records -> ledger_has records request_id selection = true ->
  0 < rounds records selection.
Proof.
  intros Hn (row & Hin & Hrow)%any_true. apply andb_true_iff in Hrow as [_ Hrow].
  destruct (rec_request row) as [| | | | | | | | | | | | | | | | | |b own ev|b own| | | |] eqn:Hreq;
    try done; apply eqb_eq in Hrow as ->.
  - assert (row ∈ List.filter (adopts selection) (ledger_records records)) as Hf.
    { apply elem_of_filterb. split; [done|]. unfold adopts. rewrite Hreq. by apply eqb_true. }
    unfold rounds. destruct (List.filter _ _); [by apply not_elem_of_nil in Hf|simpl; lia].
  - by apply (proj2 (Hn selection) row b).
Qed.

(** The ledger holds the last round under its number. *)
Lemma last_round_held records selection :
  well_numbered records -> 0 < rounds records selection ->
  ledger_has records (adopt_id selection (latest_round records selection)) selection = true.
Proof.
  intros Hn Hpos. destruct (Hn selection) as [Hmap _]. unfold latest_round.
  rewrite Z.max_l by lia.
  assert (adopt_id selection (rounds records selection - 1)
          ∈ map rec_request_id (List.filter (adopts selection) (ledger_records records))) as Hin.
  { rewrite Hmap. apply list_elem_of_fmap_2, elem_of_seqZ. lia. }
  apply list_elem_of_fmap in Hin as (row & Hid & [Hin Hrow]%elem_of_filterb).
  apply any_true. exists row. split; [done|]. rewrite Hid. apply andb_true_iff. split; [by apply eqb_true|].
  unfold adopts in Hrow. by destruct (rec_request row).
Qed.

(** What an event sends: nothing, the inspection of a round the ledger holds, or the round numbered
    next. *)
Inductive Sent (context : SettlementContext) : list Outbound -> Prop :=
  | Nothing : Sent context []
  | Inspects selection : 0 < rounds (sctx_records context) selection ->
      Sent context [verify context selection (latest_round (sctx_records context) selection)]
  | Adopts selection :
      may_start_round context selection = true \/ rounds (sctx_records context) selection = 0 ->
      Sent context [adopt context selection (rounds (sctx_records context) selection)].

Lemma advance_sends state context event change :
  consistent state (sctx_records context) -> advance_adoption state context event = Ok change ->
  Sent context (change_requests change)
  /\ forall a, settle_adoption (change_state change) = Some a -> adoption_observation a <> None ->
     0 < rounds (sctx_records context) (adoption_selection a).
Proof.
  intros [Hn Hobs] (inner & (Hs & Hr & _ & _) & Htaken)%advance_cases. rewrite Hs, Hr. clear Hs Hr.
  destruct Htaken as [(s & _ & HP)|(answer & _ & [->|(b & Hb & Hnv & Hf & Hheld & _ & HO)])].
  - destruct HP as [inner [Hst _] Hq|inner c [Hst _] Hc Hsel Hf Hreq|]; rewrite ?Hst.
    + rewrite Hq. split; [apply Nothing|done].
    + split; [|done]. cbv zeta in Hreq. destruct Hreq as [[-> Hmiss]|(-> & Hne & _)].
      * assert (rounds (sctx_records context) s = 0) as Hz.
        { destruct (decide (rounds (sctx_records context) s = 0)); [done|].
          rewrite last_round_held in Hmiss; [done|done|unfold rounds in *; lia]. }
        replace (latest_round (sctx_records context) s) with (rounds (sctx_records context) s)
          by (unfold latest_round; lia). apply Adopts. by right.
      * apply Inspects. rewrite <- Hsel. by apply Hobs.
    + simpl. split; [apply Adopts; by left|]. by intros a [= <-].
  - split; [apply Nothing|done].
  - pose proof (held_has_round _ _ _ Hn Hheld) as Hpos.
    destruct HO as [reqs Hreqs|Hm|inner (reason & E)|inner _ Hp E].
    + simpl. split; [|by intros a [= <-]].
      destruct Hreqs as [->|[-> _]]; [apply Nothing|by apply Inspects].
    + simpl. split; [|by intros a [= <-]].
      replace (latest_round _ _ + 1) with (rounds (sctx_records context) (adoption_selection b))
        by (unfold latest_round; lia). apply Adopts. by left.
    + unfold fail in E. simpl in E. injection E as <-. simpl. split; [apply Nothing|by intros a [= <-]].
    + unfold published in E. rewrite Hp in E. injection E as <-. simpl.
      split; [apply Nothing|by intros a [= <-]].
Qed.

(** The rounds of a winner keep their numbering: once the ledger registers what an adoption
    event sent, the rounds of every selection are still numbered 0, 1, 2, ... with no number twice,
    and an adoption that has heard an answer has a round. *)
Theorem adoption_rounds_numbered state context event change rows :
  consistent state (sctx_records context) -> advance_adoption state context event = Ok change ->
  registered_as (change_requests change) rows ->
  consistent (change_state change) (with_new (sctx_records context) rows).
Proof.
  intros Hc E Hrows. destruct (advance_sends _ _ _ _ Hc E) as [Hsent Hobs]. destruct Hc as [Hn _].
  assert (well_numbered (with_new (sctx_records context) rows)) as Hn'.
  { destruct Hsent as [|s Hpos|s _]; inversion Hrows as [|? row ? rest [Hreq Hid] Hrest]; subst;
      [unfold with_new; simpl; by rewrite app_nil_r|inversion Hrest; subst..].
    - eapply numbered_verify; [done|exact Hreq|done].
    - eapply numbered_adopt; [done|exact Hreq|]. simpl in Hid. by injection Hid. }
  split; [done|]. intros a Ha Hne. specialize (Hobs a Ha Hne). unfold rounds in *. simpl.
  rewrite List.filter_app, length_app. lia.
Qed.

(** Core sends a round only while one is left: the rounds of a selection that did not verify
    never exceed the run's bound. *)
Theorem adoption_rounds_bounded state context event change rows selection :
  consistent state (sctx_records context) -> advance_adoption state context event = Ok change ->
  registered_as (change_requests change) rows ->
  1 <= limits_max_adoption_rounds (run_limits (sctx_run context)) ->
  rounds (sctx_records context) selection - completed_adoptions (sctx_run context) selection
  <= limits_max_adoption_rounds (run_limits (sctx_run context)) ->
  rounds (with_new (sctx_records context) rows) selection
  - completed_adoptions (sctx_run context) selection
  <= limits_max_adoption_rounds (run_limits (sctx_run context)).
Proof.
  intros Hc E Hrows Hmax Hbound. destruct (advance_sends _ _ _ _ Hc E) as [Hsent _].
  assert (0 <= completed_adoptions (sctx_run context) selection) by (unfold completed_adoptions; lia).
  destruct Hsent as [|s Hpos|s Hleft]; inversion Hrows as [|? row ? rest [Hreq Hid] Hrest]; subst;
    [by unfold with_new; simpl; rewrite app_nil_r|inversion Hrest; subst..];
    rewrite rounds_app; unfold adopts; rewrite Hreq; simpl; [lia|].
  destruct (eqb s selection) eqn:Es; [|lia]. apply eqb_eq in Es as ->.
  destruct Hleft as [Hm|Hz]; [|lia]. unfold may_start_round in Hm. lia.
Qed.
End Safe.

(** ** Concrete adoptions *)

#[local] Instance sample_selection_digest : SelectionDigest :=
  fun selection => root (revision_revision_id (selected_revision selection)).
Definition sample_winner : Selection := TrustedBaseline sample_revision.

(** The run accepted the command that proposes its own baseline. *)
Definition sample_proposal : DecisionReceipt :=
  {| receipt_decision_id := MkIdentity "win";
     receipt_decision := Some (ProposeWinner {| dbase_decision_id := MkIdentity "win";
                                                dbase_scope := sample_scope |} sample_winner);
     receipt_until := None; receipt_limit := None; receipt_payload_digest := "";
     receipt_feedback := Accepted (MkIdentity "win") [] [] None "[]";
     receipt_request_ids := []; receipt_completion := None |}.

Definition sample_settlement_context (rows : list RequestRecord) : SettlementContext :=
  {| sctx_registry := []; sctx_run := sample_run <| run_receipts := [sample_proposal] |>;
     sctx_attempts := []; sctx_sessions := core_sessions sample_running;
     sctx_evaluation := core_evaluation sample_running;
     sctx_records := {| ledger_records := rows; ledger_epoch := 1 |} |}.

Definition sample_unsettled : SettlementState :=
  {| settle_settlements := []; settle_pending := []; settle_adoption := None |}.
Definition sample_round : RequestRecord :=
  (sample_record "adopt:c0ffee:0" [] RequestPhase.DISPATCHED 500)
    <| rec_request := outbound_request (adopt (sample_settlement_context []) sample_winner 0) |>.
Definition sample_adopting : SettlementState :=
  sample_unsettled <| settle_adoption := Some (new_adoption sample_winner) |>.

(** The answer that the revision was published *)
Definition sample_published : AdoptionAnswer :=
  {| answer_observation :=
       {| obs_event_id := MkIdentity "published"; obs_request_id := sample_tag "adopt:c0ffee:0";
          obs_scope := sample_scope; obs_sequence := 1; obs_observed_at := seconds 11;
          obs_status := ObservationStatus.SUCCEEDED; obs_resource_id := None; obs_revision := None;
          obs_measured_input := None; obs_accepted := true; obs_terminal := true;
          obs_released := true; obs_children := []; obs_children_complete := true;
          obs_child_manifest := None; obs_admission_id := None; obs_diagnostic := "" |};
     answer_revision := Some sample_revision;
     answer_publication := Some {| publication_revision := "c0ffee"; publication_commit := "c0ffee";
                                   publication_branch := "winner" |};
     answer_checkout := None |}.

Definition sample_verified : SettlementState :=
  sample_unsettled <| settle_adoption :=
    Some ((new_adoption sample_winner)
            <| adoption_observation := Some (answer_observation sample_published) |>
            <| adoption_verified := true |>
            <| adoption_publication := answer_publication sample_published |>) |>.

Lemma verified_adoption_stands_witness :
  adoption_verified (default (new_adoption sample_winner) (settle_adoption sample_verified)) = true
  /\ exists change,
       advance_adoption sample_verified (sample_settlement_context [sample_round])
         (WinnerObserved sample_published) = Ok change
       /\ change_state change = sample_verified /\ change_requests change = []
       /\ change_signals change = [].
Proof.
  split; [reflexivity|]. eexists. split; [reflexivity|].
  by eapply (verified_adoption_stands sample_verified (sample_settlement_context [sample_round])
               (WinnerObserved sample_published)).
Defined.

Lemma fence_lift_announced_witness :
  exists change,
    advance_adoption sample_adopting (sample_settlement_context [sample_round])
      (WinnerObserved sample_published) = Ok change
    /\ AdoptionFenceLifted ∈ change_signals change.
Proof.
  eexists. split; [vm_compute; reflexivity|].
  apply (fence_lift_announced sample_adopting (sample_settlement_context [sample_round])
           (WinnerObserved sample_published)); [vm_compute; reflexivity|split; vm_compute; reflexivity].
Defined.

Lemma winner_is_eligible_witness :
  exists change,
    advance_adoption sample_unsettled (sample_settlement_context []) (WinnerProposed sample_winner)
    = Ok change
    /\ change_requests change = [adopt (sample_settlement_context []) sample_winner 0].
Proof.
  eexists. split; [reflexivity|].
  eapply (winner_is_eligible sample_unsettled (sample_settlement_context [])
            (WinnerProposed sample_winner) _ (new_adoption sample_winner)); [reflexivity..|done].
Defined.

Definition sample_change : AreaChange SettlementState :=
  match advance_adoption sample_adopting (sample_settlement_context [sample_round])
          (WinnerObserved sample_published) with
  | Ok change => change
  | Err _ => only sample_adopting
  end.

Lemma verified_names_the_revision_witness :
  advance_adoption sample_adopting (sample_settlement_context [sample_round])
    (WinnerObserved sample_published) = Ok sample_change
  /\ change_state sample_change = sample_verified
  /\ answer_revision sample_published = Some (selected_revision sample_winner).
Proof.
  split; [reflexivity|]. split; [reflexivity|].
  destruct (verified_names_the_revision sample_adopting (sample_settlement_context [sample_round])
              (WinnerObserved sample_published) sample_change
              (default (new_adoption sample_winner) (settle_adoption sample_verified)))
    as (answer & Heq & _ & _ & _ & Hrev & _); [reflexivity|reflexivity|reflexivity|discriminate|].
  injection Heq as ->. exact Hrev.
Defined.

Lemma adoption_completes_its_command_witness :
  advance_adoption sample_adopting (sample_settlement_context [sample_round])
    (WinnerObserved sample_published) = Ok sample_change
  /\ exists receipt, receipt_decision_id receipt = MkIdentity "win" /\ receipt ∈ [sample_proposal].
Proof.
  split; [reflexivity|].
  destruct (adoption_completes_its_command sample_adopting (sample_settlement_context [sample_round])
              (WinnerObserved sample_published) sample_change (MkIdentity "win")
              CompletionStatus.SUCCEEDED)
    as (a & receipt & _ & _ & Hin & Hid & _); [reflexivity|vm_compute; left|].
  exists receipt. done.
Defined.

Lemma adoption_never_raises_witness :
  canonical_receipt (sample_settlement_context []) sample_winner <> None
  /\ exists change, advance_adoption sample_verified (sample_settlement_context [])
                      (WinnerProposed sample_winner) = Ok change.
Proof.
  split; [discriminate|].
  apply (adoption_never_raises sample_verified (sample_settlement_context [])
           (WinnerProposed sample_winner)). discriminate.
Defined.

Lemma sample_consistent : consistent sample_unsettled (sctx_records (sample_settlement_context [])).
Proof. split; [|done]. intros s. split; [done|]. by intros ? ? ?%not_elem_of_nil. Qed.

Lemma adoption_rounds_numbered_witness :
  exists change,
    advance_adoption sample_unsettled (sample_settlement_context []) (WinnerProposed sample_winner)
    = Ok change
    /\ consistent (change_state change)
         (with_new (sctx_records (sample_settlement_context [])) [sample_round]).
Proof.
  eexists. split; [reflexivity|].
  apply (adoption_rounds_numbered sample_unsettled (sample_settlement_context [])
           (WinnerProposed sample_winner)); [apply sample_consistent|reflexivity|].
  by repeat constructor.
Defined.

Lemma adoption_rounds_bounded_witness :
  rounds (with_new (sctx_records (sample_settlement_context [])) [sample_round]) sample_winner = 1%Z
  /\ (rounds (with_new (sctx_records (sample_settlement_context [])) [sample_round]) sample_winner
      - completed_adoptions (sctx_run (sample_settlement_context [])) sample_winner
      <= limits_max_adoption_rounds (run_limits (sctx_run (sample_settlement_context []))))%Z.
Proof.
  split; [reflexivity|].
  eapply (adoption_rounds_bounded sample_unsettled (sample_settlement_context [])
            (WinnerProposed sample_winner)); [apply sample_consistent|reflexivity| |by vm_compute|by vm_compute].
  by repeat constructor.
Defined.
