(* ===== verification/Settlement.v ===== *)
(** * The settlement of attempts

    [libs/vs-core/src/vs_core/_settlement.py] and the dispatch of [settlement.py]: what an attempt
    proposes to keep becomes its one settlement once its owner proved the release of everything it
    held, eligible only as far as the run's evidence proves it.  The JSON parser that reads an
    invocation's output (pydantic's) is a parameter.  An error is the field the code's
    [ContractValidationError] names. *)

From S2P Require Import Prelude PyFloat Identities Values Requests Records State Proofs Answers Adoption.

(** [_ANY_JSON.validate_json(text)] returns *)
Class JsonParser := valid_json : string -> bool.

Section Settlement.
Context `{JsonParser} `{SelectionDigest}.
Local Open Scope string_scope.

(** [_owner] *)
Definition settling_owner (context : SettlementContext) (attempt : AttemptRef)
    : option AttemptView :=
  next_such (fun owner => eqb (attempt_attempt_id owner) (aref_attempt_id attempt)
                          && (attempt_generation owner =? aref_generation attempt)%Z)
            (sctx_attempts context).

(** [Scope(owner=owner.attempt_id, generation=owner.generation)] *)
Definition owner_scope (owner : AttemptView) : Scope :=
  {| scope_owner := OwnerAttempt (attempt_attempt_id owner);
     scope_generation := attempt_generation owner |}.

(** The job [_evidence_valid] looks for: the finished measurement that [evidence] came from *)
Definition job_proves (evidence : EvidenceRef) (candidate : RevisionRef) (scope : Scope)
    (job : OwnedJob) : bool :=
  let plan := job_plan job in
  eqb (job_scope job) scope
  && eqb (job_submission_id job) (evidence_source_request evidence)
  && job_terminal job
  && eqb (job_status job) ObservationStatus.SUCCEEDED
  && match job_observation job with
     | None => false
     | Some observation =>
         obs_terminal observation && obs_accepted observation
         && eqb (obs_status observation) ObservationStatus.SUCCEEDED
         && eqb (obs_scope observation) scope
         && eqb (obs_request_id observation) (evidence_source_request evidence)
         && eqb (obs_resource_id observation) (Some (job_resource_id job))
         && (evidence_observation_sequence evidence <=? obs_sequence observation)%Z
     end
  && among evidence (job_evidence job)
  && eqb (plan_candidate plan) (CandidateRevision candidate)
  && eqb (plan_purpose plan) (evidence_purpose evidence)
  && eqb (plan_evaluator_digest plan) (evidence_evaluator_digest evidence)
  && eqb (plan_workload_digest plan) (evidence_workload_digest evidence)
  && eqb (plan_environment_digest plan) (evidence_environment_digest evidence).

(** [_evidence_valid] *)
Definition evidence_valid (evidence : EvidenceRef) (candidate : RevisionRef) (scope : Scope)
    (context : SettlementContext) : bool :=
  let facts := run_facts (sctx_run context) in
  if negb (eqb (evidence_scope evidence) scope)
     || negb (eqb (evidence_candidate evidence) candidate)
     || negb (eqb (evidence_status evidence) ObservationStatus.SUCCEEDED)
     || negb (eqb (evidence_evaluator_digest evidence) (runfacts_evaluator_digest facts)
              && eqb (evidence_workload_digest evidence) (runfacts_workload_digest facts)
              && eqb (evidence_environment_digest evidence) (runfacts_environment_digest facts))
  then false
  else any (job_proves evidence candidate scope) (eval_jobs (sctx_evaluation context)).

(** [_turn_request_valid] *)
Definition turn_request_valid (record : RequestRecord) (invocation : Invocation) : bool :=
  match rec_request record with
  | DispatchTurn _ turn _ _ | ResumeSessionTurn _ turn _ _ _ _ =>
      is_none (inv_registered_operation invocation) && eqb turn (inv_turn invocation)
  | _ => false
  end.

(** Some record of the ledger asked for this turn and was answered by the observation. *)
Definition turn_recorded (context : SettlementContext) (invocation : Invocation) (scope : Scope)
    (observation : Observation) : bool :=
  any (fun record =>
         eqb (rec_request_id record) (obs_request_id observation)
         && eqb (req_request_id (rec_request record)) (Some (obs_request_id observation))
         && eqb (req_scope (rec_request record)) scope
         && turn_request_valid record invocation) (ledger_records (sctx_records context)).

(** The [authorized] and the [attributed] of [_invocation_valid] *)
Definition authorized (context : SettlementContext) (assessment : AssessmentProposal)
    (invocation : Invocation) : bool :=
  any (fun authority =>
         eqb (authority_kind authority) (assess_kind assessment)
         && eqb (authority_role_id authority)
                (session_role_id (turn_session (inv_turn invocation)))
         && eqb (Some (authority_output_schema authority)) (inv_output_schema invocation)
         && (schema_version (authority_output_schema authority)
             =? assess_schema_version assessment)%Z)
      (requirements_assessment_authorities (run_requirements (sctx_run context))).
Definition attributed (owner : AttemptView) (source : InvocationRef)
    (assessment : AssessmentProposal) (invocation : Invocation) : bool :=
  any (fun checkpoint =>
         eqb (checkpoint_invocation checkpoint) (Some source)
         && eqb (Some (checkpoint_revision checkpoint)) (assess_candidate assessment))
      (attempt_checkpoints owner)
  || match turn_workspace (inv_turn invocation) with
     | InWorkspace workspace =>
         eqb (workspace_scope workspace) (owner_scope owner)
         && eqb (workspace_mode workspace) WorkspaceMode.READ_ONLY_REVISION
         && eqb (Some (workspace_revision workspace)) (assess_candidate assessment)
     | InScope _ => false
     end.

(** What [_invocation_valid] asks of the invocation it found *)
Definition invocation_proves (source : InvocationRef) (assessment : AssessmentProposal)
    (owner : AttemptView) (context : SettlementContext) (invocation : Invocation) : bool :=
  let scope := owner_scope owner in
  let turn := inv_turn invocation in
  if negb (eqb (inv_scope invocation) scope)
     || negb (iref_generation source =? scope_generation scope)%Z
     || negb (eqb (iref_session_id source) (session_session_id (turn_session turn)))
     || negb (eqb (iref_invocation_id source) (turn_invocation_id turn))
  then false
  else
    match inv_observation invocation, inv_output_json invocation with
    | Some observation, Some output =>
        eqb (inv_phase invocation) SessionPhase.TERMINAL
        && eqb (obs_scope observation) scope
        && obs_accepted observation && obs_terminal observation
        && eqb (obs_status observation) ObservationStatus.SUCCEEDED
        && eqb (inv_output_schema invocation) (Some (turn_output_schema turn))
        && turn_recorded context invocation scope observation
        && valid_json output
        && authorized context assessment invocation
        && attributed owner source assessment invocation
    | _, _ => false
    end.

(** [_invocation_valid] *)
Definition invocation_valid (source : InvocationRef) (assessment : AssessmentProposal)
    (owner : AttemptView) (context : SettlementContext) : bool :=
  match next_such (fun item => eqb (inv_invocation item) source)
                  (sessions_invocations (sctx_sessions context)) with
  | None => false
  | Some invocation => invocation_proves source assessment owner context invocation
  end.

(** [AssessmentKind(kind.value)] *)
Definition assessed_by (kind : EvidenceKind) : AssessmentKind :=
  match kind with
  | EvidenceKind.CORRECTNESS => AssessmentKind.CORRECTNESS
  | EvidenceKind.BENCHMARK => AssessmentKind.BENCHMARK
  | EvidenceKind.PROFILING => AssessmentKind.PROFILING
  end.

(** The evidence a source names, one of the loop of [_assessment_valid] *)
Definition source_names (source : AssessmentSource) (item : EvidenceRef) : bool :=
  match source with
  | FromEvidenceKey key => eqb (evidence_key item) key
  | FromEvidence evidence_id => eqb (evidence_evidence_id item) evidence_id
  | FromInvocation _ => false
  end.
Definition source_valid (assessment : AssessmentProposal) (settlement : SettlementRow)
    (owner : AttemptView) (context : SettlementContext) (source : AssessmentSource) : bool :=
  match source with
  | FromInvocation invocation => invocation_valid invocation assessment owner context
  | FromEvidenceKey _ | FromEvidence _ =>
      match List.filter (source_names source) (eval_evidence (sctx_evaluation context)),
            settle_candidate (settlement_facts settlement) with
      | [evidence], Some candidate =>
          eqb (assessed_by (evidence_kind evidence)) (assess_kind assessment)
          && evidence_valid evidence candidate (owner_scope owner) context
      | _, _ => false
      end
  end.

(** [_assessment_valid] *)
Definition assessment_valid (assessment : AssessmentProposal) (settlement : SettlementRow)
    (owner : AttemptView) (context : SettlementContext) : bool :=
  if negb (eqb (assess_candidate assessment) (settle_candidate (settlement_facts settlement)))
     || eqb (assess_sources assessment) []
     || negb (distinct (assess_sources assessment))
  then false
  else all (source_valid assessment settlement owner context) (assess_sources assessment).

Definition is_satisfied (item : AssessmentProposal) : bool :=
  eqb (assess_verdict item) AssessmentVerdict.SATISFIED.

(** What [_eligible] asks of each required kind of assessment and of each required evidence *)
Definition assessed (settlement : SettlementRow) (kind : AssessmentKind) : bool :=
  let of_kind := List.filter (fun item => eqb (assess_kind item) kind)
                             (settle_assessments (settlement_facts settlement)) in
  negb (eqb of_kind []) && all is_satisfied of_kind.
Definition evidenced (candidate : RevisionRef) (owner : AttemptView) (context : SettlementContext)
    (required : EvidenceRequirement) : bool :=
  any (fun evidence =>
         eqb (evidence_kind evidence) (ereq_kind required)
         && eqb (evidence_provenance evidence) (ereq_provenance required)
         && match ereq_purpose required with
            | None => true
            | Some purpose => eqb (evidence_purpose evidence) purpose
            end
         && evidence_valid evidence candidate (owner_scope owner) context)
      (eval_evidence (sctx_evaluation context)).

(** [_eligible] *)
Definition eligible (settlement : SettlementRow) (owner : AttemptView) (context : SettlementContext)
    : bool :=
  let facts := settlement_facts settlement in
  let requirements := run_requirements (sctx_run context) in
  match settle_candidate facts with
  | None => false
  | Some candidate =>
      if negb (settle_eligible facts)
         || negb (eqb (settle_outcome facts) SettleOutcome.SUCCEEDED)
         || negb (eqb (settle_retention facts) SettleRetention.CANDIDATE)
      then false
      else
        all (fun item => assessment_valid item settlement owner context) (settle_assessments facts)
        && all (assessed settlement) (requirements_required_assessments requirements)
        && (any is_satisfied (settle_assessments facts)
            || any (fun evidence => evidence_valid evidence candidate (owner_scope owner) context)
                   (eval_evidence (sctx_evaluation context)))
        && all (evidenced candidate owner context) (requirements_required_evidence requirements)
  end.

(** [settlement.model_copy(update={"outcome": ..., "eligible": False, "retention": "discard"})] *)
Definition discarded (settlement : SettlementRow) (outcome : SettleOutcome) : SettlementRow :=
  settlement <| settlement_facts :=
    (settlement_facts settlement) <| settle_outcome := outcome |> <| settle_eligible := false |>
                                  <| settle_retention := SettleRetention.DISCARD |> |>.

(** [_normalize_choice] *)
Definition normalize_choice (settlement : SettlementRow) (owner : option AttemptView)
    : SettlementRow :=
  let closure := match owner with Some owner => attempt_closure owner | None => None end in
  if match closure with Some closure => closure_retention_refused closure | None => false end
  then discarded settlement SettleOutcome.FAILED
  else if eqb (settle_outcome (settlement_facts settlement)) SettleOutcome.CANCELLED
          || match closure with
             | Some closure => eqb (closure_disposition closure) ClosureDisposition.CANCEL
             | None => false
             end
  then discarded settlement SettleOutcome.CANCELLED
  else settlement.

(** [checkpoint.retention == settlement.retention] *)
Definition retained_as (retention : Retention) : SettleRetention :=
  match retention with
  | Retention.WIP => SettleRetention.WIP
  | Retention.CANDIDATE => SettleRetention.CANDIDATE
  end.

(** [_released], the part about the owner and the whole *)
Definition owner_released (owner : AttemptView) : bool :=
  eqb (attempt_phase owner) AttemptPhase.TERMINAL
  && match attempt_closure owner with
     | None => false
     | Some closure =>
         among (closure_disposition closure) [ClosureDisposition.SETTLE; ClosureDisposition.CANCEL]
         && eqb (Some (closure_admission_id closure)) (attempt_admission_id owner)
     end
  && eqb (attempt_release_dependencies owner) []
  && eqb (attempt_pending_records owner) [].
Definition released_owner (owner : AttemptView) (settlement : SettlementRow) : bool :=
  let facts := settlement_facts settlement in
  if negb (owner_released owner) then false
  else
    eqb (settle_retention facts) SettleRetention.DISCARD
    || any (fun checkpoint =>
              eqb (Some (checkpoint_revision checkpoint)) (settle_candidate facts)
              && eqb (retained_as (checkpoint_retention checkpoint)) (settle_retention facts))
           (attempt_checkpoints owner).

(** [_accepted_settlement] *)
Definition accepted_settlement (settlement : SettlementRow) (receipt : option DecisionReceipt)
    : SettlementRow :=
  match receipt with
  | Some receipt =>
      match receipt_decision receipt with
      | Some (Withdraw _ _ (DSettle facts)) => settlement <| settlement_facts := facts |>
      | _ => settlement
      end
  | None => settlement
  end.

(** The fields [_canonical_settlement_receipt] compares, in its order: the first that differs *)
Definition differing_field (expected settlement : SettleFacts) : option string :=
  if negb (eqb (settle_candidate expected) (settle_candidate settlement)) then Some "candidate"
  else if negb (eqb (settle_assessments expected) (settle_assessments settlement))
  then Some "assessments"
  else if negb (eqb (settle_outcome expected) (settle_outcome settlement)) then Some "outcome"
  else if negb (eqb (settle_retention expected) (settle_retention settlement))
  then Some "retention"
  else if negb (eqb (settle_eligible expected) (settle_eligible settlement)) then Some "eligible"
  else None.

(** [SettlementId(root=f"settlement:{decision_id.root}")] *)
Definition settlement_named (ident : string) : SettlementId := MkIdentity ("settlement:" +:+ ident).

(** [_canonical_settlement_receipt] *)
Definition canonical_settlement_receipt (context : SettlementContext) (settlement : SettlementRow)
    : result string (option DecisionReceipt) :=
  match next_such (fun item => eqb (settlement_id_of settlement)
                                   (settlement_named (root (receipt_decision_id item))))
                  (run_receipts (sctx_run context)) with
  | None => Ok None
  | Some receipt =>
      match receipt_decision receipt with
      | None => Ok (Some receipt)
      | Some (Withdraw d target (DSettle facts)) =>
          require* eqb (dbase_decision_id d) (receipt_decision_id receipt)
                   && eqb target (TargetAttempt (settlement_attempt settlement)) else "attempt" in
          let canonical := accepted_settlement settlement (Some receipt) in
          let owner := settling_owner context (settlement_attempt settlement) in
          let normalized := normalize_choice canonical owner in
          if eqb settlement canonical || eqb settlement normalized then Ok (Some receipt)
          else
            let cancelled := eqb (settle_outcome (settlement_facts settlement))
                                 SettleOutcome.CANCELLED in
            let expected := if cancelled then normalized else canonical in
            match differing_field (settlement_facts expected) (settlement_facts settlement) with
            | Some field => Err field
            | None => Ok (Some receipt)
            end
      | Some _ => Err "settlement_id"
      end
  end.

(** [_receipt_active] *)
Definition receipt_active (receipt : DecisionReceipt) : bool :=
  is_accepted (receipt_feedback receipt)
  && eqb (feedback_decision_id (receipt_feedback receipt)) (receipt_decision_id receipt)
  && is_none (receipt_completion receipt)
  && match receipt_decision receipt with
     | Some (Withdraw _ _ (DSettle _)) => true
     | _ => false
     end.

(** [_settlement_receipt] *)
Definition settlement_receipt (context : SettlementContext) (settlement : SettlementRow)
    : result string (option DecisionReceipt) :=
  let* receipt := canonical_settlement_receipt context settlement in
  Ok (match receipt with
      | Some receipt => if receipt_active receipt then Some receipt else None
      | None => None
      end).

(** [receipt is not None and not _receipt_active(receipt)] *)
Definition inactive (receipt : option DecisionReceipt) : bool :=
  match receipt with Some receipt => negb (receipt_active receipt) | None => false end.

(** [_refuse_proposal] *)
Definition refuse_proposal (state : SettlementState) (context : SettlementContext)
    (proposal : SettlementRow) (code : RejectionCode) (detail : string)
    : result string (AreaChange SettlementState) :=
  let* receipt := settlement_receipt context proposal in
  Ok {| change_state := state; change_signals := []; change_requests := [];
        change_events :=
          match receipt with
          | None => []
          | Some receipt =>
              [FeedbackEvent (Rejected (receipt_decision_id receipt) code [Field "target"] detail
                                None)]
          end |}.

(** The settlement [_finalize] commits, and the state that holds it *)
Definition final_choice (context : SettlementContext) (pending : SettlementRow)
    (receipt : option DecisionReceipt) (owner : AttemptView) : SettlementRow :=
  let final := normalize_choice (accepted_settlement pending receipt) (Some owner) in
  final <| settlement_facts :=
    (settlement_facts final) <| settle_eligible := eligible final owner context |> |>.
Definition committed (state : SettlementState) (final : SettlementRow) : SettlementState :=
  state <| settle_pending :=
             List.filter (fun item => negb (eqb (settlement_attempt item) (settlement_attempt final)))
                         (settle_pending state) |>
        <| settle_settlements := (settle_settlements state ++ [final])%list |>.

(** [_finalize] *)
Definition finalize (state : SettlementState) (context : SettlementContext)
    (pending : SettlementRow) : result string (AreaChange SettlementState) :=
  match settling_owner context (settlement_attempt pending) with
  | None => Ok (only state)
  | Some owner =>
      let* receipt := canonical_settlement_receipt context pending in
      if inactive receipt then Ok (only state)
      else
        let final := final_choice context pending receipt owner in
        if negb (released_owner owner final) then Ok (only state)
        else
          Ok {| change_state := committed state final;
                change_signals :=
                  match receipt with
                  | None => []
                  | Some receipt =>
                      [DecisionCompleted (receipt_decision_id receipt) CompletionStatus.SUCCEEDED]
                  end;
                change_requests := [];
                change_events := [AttemptSettledEvent final] |}
  end.

(** [_accept_proposal] *)
Definition accept_proposal (state : SettlementState) (context : SettlementContext)
    (proposal : SettlementRow) (owner : AttemptView)
    : result string (AreaChange SettlementState) :=
  let* receipt := canonical_settlement_receipt context proposal in
  if inactive receipt then Ok (only state)
  else
    let settlement := normalize_choice (accepted_settlement proposal receipt) (Some owner) in
    let facts := settlement_facts settlement in
    require* eqb (settle_retention facts) SettleRetention.DISCARD
             || not_none (settle_candidate facts) else "candidate" in
    if released_owner owner settlement then finalize state context settlement
    else
      Ok {| change_state := state <| settle_pending := (settle_pending state ++ [settlement])%list |>;
            change_signals :=
              [RetentionRequired (settlement_attempt settlement) (settle_retention facts)
                                 (settle_candidate facts)];
            change_requests := []; change_events := [] |}.

(** [existing] of [_submit]: the settlements and what is pending *)
Definition choices (state : SettlementState) : list SettlementRow :=
  settle_settlements state ++ settle_pending state.

(** [_submit] *)
Definition submit (state : SettlementState) (context : SettlementContext) (proposal : SettlementRow)
    : result string (AreaChange SettlementState) :=
  match next_such (fun item => eqb (settlement_attempt item) (settlement_attempt proposal))
                  (choices state) with
  | Some previous =>
      if eqb (settlement_id_of previous) (settlement_id_of proposal) then Ok (only state)
      else refuse_proposal state context proposal RejectionCode.ALREADY_SETTLED
             "attempt already has a committed settlement choice"
  | None =>
      require* negb (any (fun item => eqb (settlement_id_of item) (settlement_id_of proposal))
                         (choices state)) else "settlement_id" in
      match settling_owner context (settlement_attempt proposal) with
      | None =>
          refuse_proposal state context proposal RejectionCode.OWNERSHIP
            "attempt does not have current ownership"
      | Some owner =>
          if match attempt_closure owner with
             | Some closure => eqb (closure_disposition closure) ClosureDisposition.PARK
             | None => false
             end
          then refuse_proposal state context proposal RejectionCode.CLOSED_SCOPE
                 "parked attempt does not accept settlement completion"
          else accept_proposal state context proposal owner
      end
  end.

(** [_cancelled_choice] *)
Definition cancelled_choice (state : SettlementState) (context : SettlementContext)
    (attempt : AttemptRef) : option SettlementRow :=
  match settling_owner context attempt with
  | None => None
  | Some owner =>
      match attempt_closure owner with
      | None => None
      | Some closure =>
          if negb (eqb (closure_disposition closure) ClosureDisposition.CANCEL)
             || any (fun item => eqb (settlement_attempt item) attempt) (choices state)
          then None
          else
            Some {| settlement_id_of := settlement_named (root (closure_authority closure));
                    settlement_attempt := attempt;
                    settlement_facts :=
                      {| settle_candidate := None; settle_assessments := [];
                         settle_eligible := false; settle_retention := SettleRetention.DISCARD;
                         settle_outcome := SettleOutcome.CANCELLED |} |}
      end
  end.

(** The choice an [OwnershipSettled] event finalizes *)
Definition choice_of (state : SettlementState) (context : SettlementContext) (attempt : AttemptRef)
    : option SettlementRow :=
  match next_such (fun item => eqb (settlement_attempt item) attempt) (settle_pending state) with
  | Some pending => Some pending
  | None => cancelled_choice state context attempt
  end.

(** [_finalize], of a choice there may be *)
Definition finalize_choice (state : SettlementState) (context : SettlementContext)
    (choice : option SettlementRow) : result string (AreaChange SettlementState) :=
  match choice with
  | None => Ok (only state)
  | Some pending => finalize state context pending
  end.

(** [_settlement.advance] *)
Definition advance_settlement (state : SettlementState) (context : SettlementContext)
    (event : SettlementEvent) : result string (AreaChange SettlementState) :=
  match event with
  | AssessmentSubmitted proposal => submit state context proposal
  | OwnershipSettled attempt true false =>
      finalize_choice state context (choice_of state context attempt)
  | OwnershipSettled _ _ _ => Ok (only state)
  | SettledAttempt proposal =>
      finalize_choice state context (next_such (fun item => eqb item proposal) (settle_pending state))
  | WinnerProposed _ | WinnerObserved _ => Err "event.kind"
  end.

(** [EVENT_TO_SUBAREA] and [settle] *)
Definition settle (state : SettlementState) (context : SettlementContext) (event : SettlementEvent)
    : result string (AreaChange SettlementState) :=
  match event with
  | AssessmentSubmitted _ | OwnershipSettled _ _ _ | SettledAttempt _ =>
      advance_settlement state context event
  | WinnerProposed _ | WinnerObserved _ => advance_adoption state context event
  end.
End Settlement.
