(* ===== verification/SettlementSafe.v ===== *)
(** * What any settlement event leaves

    The cases of [settle], then the promises: an attempt has one choice, settled only once its owner
    released everything it held; an eligible settlement is proven by the evidence of the run; what
    is settled stays; a released attempt is settled; and, over any events, a winner that is adopted
    was proven when it was settled. *)

From S2P Require Import Prelude PyFloat Identities Values Requests Records State Proofs Samples.
From S2P Require Import Answers Adoption AdoptionSafe Settlement.

Section Cases.
Context `{JsonParser} `{SelectionDigest}.
Implicit Types (state : SettlementState) (context : SettlementContext) (owner : AttemptView)
  (change : AreaChange SettlementState) (row : SettlementRow).

(** ** One event *)

Lemma settling_owner_spec context attempt owner :
  settling_owner context attempt = Some owner ->
  owner ∈ sctx_attempts context /\ attempt_attempt_id owner = aref_attempt_id attempt
  /\ attempt_generation owner = aref_generation attempt.
Proof.
  intros (Hin & Hp)%next_such_Some. to_prop. split; [done|]. split; [done|lia].
Qed.

(** [finalize] commits the final choice of [pending]. *)
Record Commits state context (pending : SettlementRow) change (final : SettlementRow) : Prop := {
  commits_owner : exists owner receipt,
    settling_owner context (settlement_attempt pending) = Some owner
    /\ canonical_settlement_receipt context pending = Ok receipt /\ inactive receipt = false
    /\ final = final_choice context pending receipt owner /\ released_owner owner final = true
    /\ change_signals change
       = match receipt with
         | None => []
         | Some receipt =>
             [DecisionCompleted (receipt_decision_id receipt) CompletionStatus.SUCCEEDED]
         end;
  commits_state : change_state change = committed state final;
  commits_requests : change_requests change = [];
  commits_events : change_events change = [AttemptSettledEvent final]
}.

(** The event changes no choice: it is ignored, or a command is refused. *)
Record Declines state change : Prop := {
  declines_state : change_state change = state;
  declines_signals : change_signals change = [];
  declines_requests : change_requests change = [];
  declines_events : Forall (fun e => exists d code path detail,
                              e = FeedbackEvent (Rejected d code path detail None)) (change_events change)
}.

(** A choice is recorded, to be finalized once its owner released everything. *)
Record Defers state context (proposal : SettlementRow) change (row : SettlementRow) : Prop := {
  defers_owner : exists owner receipt,
    settling_owner context (settlement_attempt proposal) = Some owner
    /\ canonical_settlement_receipt context proposal = Ok receipt /\ inactive receipt = false
    /\ row = normalize_choice (accepted_settlement proposal receipt) (Some owner)
    /\ released_owner owner row = false;
  defers_state : change_state change
    = state <| settle_pending := (settle_pending state ++ [row])%list |>;
  defers_signals : change_signals change
    = [RetentionRequired (settlement_attempt row) (settle_retention (settlement_facts row))
                         (settle_candidate (settlement_facts row))];
  defers_requests : change_requests change = [];
  defers_events : change_events change = []
}.

(** The choice is new: no choice of the state is of its attempt or has its identity. *)
Definition new_choice state row : Prop :=
  settlement_attempt row ∉ map settlement_attempt (choices state)
  /\ settlement_id_of row ∉ map settlement_id_of (choices state).

Inductive Settles state context change : Prop :=
  | settles_declines : Declines state change -> Settles state context change
  | settles_defers proposal row : new_choice state proposal ->
      Defers state context proposal change row -> Settles state context change
  | settles_new proposal pending final : new_choice state proposal ->
      settlement_attempt pending = settlement_attempt proposal ->
      settlement_id_of pending = settlement_id_of proposal ->
      Commits state context pending change final -> Settles state context change
  | settles_pending pending final : pending ∈ settle_pending state ->
      Commits state context pending change final -> Settles state context change
  | settles_cancelled pending final attempt : cancelled_choice state context attempt = Some pending ->
      Commits state context pending change final -> Settles state context change.

Lemma declines_only state : Declines state (only state).
Proof. by split. Qed.

Lemma refuse_declines state context proposal code detail change :
  refuse_proposal state context proposal code detail = Ok change -> Declines state change.
Proof.
  unfold refuse_proposal. destruct (settlement_receipt _ _) as [receipt|]; simpl; [|done].
  intros [= <-]. split; simpl; try done. destruct receipt; repeat constructor. by repeat eexists.
Qed.

Lemma finalize_cases state context pending change :
  finalize state context pending = Ok change ->
  change = only state \/ exists final, Commits state context pending change final.
Proof.
  unfold finalize. destruct (settling_owner _ _) as [owner|] eqn:Ho; [|intros [= <-]; by left].
  destruct (canonical_settlement_receipt _ _) as [receipt|] eqn:Hr; simpl; [|done].
  destruct (inactive receipt) eqn:Ha; [intros [= <-]; by left|].
  destruct (released_owner _ _) eqn:Hrel; simpl; [|intros [= <-]; by left].
  intros [= <-]. right. eexists. split; simpl; try done. by exists owner, receipt.
Qed.

Lemma normalize_names row (owner : option AttemptView) :
  settlement_attempt (normalize_choice row owner) = settlement_attempt row
  /\ settlement_id_of (normalize_choice row owner) = settlement_id_of row.
Proof. unfold normalize_choice. destruct (match _ with Some _ => _ | None => false end); [done|]. by destruct (_ || _). Qed.

Lemma accepted_names row receipt :
  settlement_attempt (accepted_settlement row receipt) = settlement_attempt row
  /\ settlement_id_of (accepted_settlement row receipt) = settlement_id_of row.
Proof.
  unfold accepted_settlement. destruct receipt as [r|]; [|done].
  destruct (receipt_decision r) as [[]|]; try done. by destruct disposition.
Qed.

Lemma final_names context pending receipt owner :
  settlement_attempt (final_choice context pending receipt owner) = settlement_attempt pending
  /\ settlement_id_of (final_choice context pending receipt owner) = settlement_id_of pending.
Proof.
  unfold final_choice. simpl.
  destruct (normalize_names (accepted_settlement pending receipt) (Some owner)) as [-> ->].
  apply accepted_names.
Qed.

Lemma commits_names state context pending change final :
  Commits state context pending change final ->
  settlement_attempt final = settlement_attempt pending
  /\ settlement_id_of final = settlement_id_of pending.
Proof. intros [(owner & receipt & _ & _ & _ & -> & _) _ _ _]. apply final_names. Qed.

Lemma submit_new state proposal :
  next_such (fun item => eqb (settlement_attempt item) (settlement_attempt proposal)) (choices state) = None ->
  any (fun item => eqb (settlement_id_of item) (settlement_id_of proposal)) (choices state) = false ->
  new_choice state proposal.
Proof.
  intros Hn Hi. split; intros (row & E & Hin)%list_elem_of_fmap.
  - eapply next_such_None in Hn; [|exact Hin]. simpl in Hn. to_prop. congruence.
  - eapply any_false in Hi; [|exact Hin]. simpl in Hi. to_prop. congruence.
Qed.

Lemma accept_cases state context proposal owner change :
  new_choice state proposal -> settling_owner context (settlement_attempt proposal) = Some owner ->
  accept_proposal state context proposal owner = Ok change -> Settles state context change.
Proof.
  intros Hnew Ho. unfold accept_proposal.
  destruct (canonical_settlement_receipt _ _) as [receipt|] eqn:Hr; simpl; [|done].
  destruct (inactive receipt) eqn:Ha; [intros [= <-]; apply settles_declines, declines_only|].
  destruct (_ || _) eqn:Hc; simpl; [|done].
  set (row := normalize_choice (accepted_settlement proposal receipt) (Some owner)) in *.
  assert (settlement_attempt row = settlement_attempt proposal
          /\ settlement_id_of row = settlement_id_of proposal) as [Hat Hid].
  { unfold row. destruct (normalize_names (accepted_settlement proposal receipt) (Some owner)) as [-> ->].
    apply accepted_names. }
  destruct (released_owner owner row) eqn:Hrel.
  - intros [->|[final Hc']]%finalize_cases; [apply settles_declines, declines_only|].
    by eapply settles_new.
  - intros [= <-]. eapply (settles_defers _ _ _ proposal row); [done|].
    split; try done. by exists owner, receipt.
Qed.

Lemma submit_cases state context proposal change :
  submit state context proposal = Ok change -> Settles state context change.
Proof.
  unfold submit. destruct (next_such _ _) as [previous|] eqn:Hn.
  { destruct (eqb _ _); [intros [= <-]; apply settles_declines, declines_only|].
    intros E. eapply settles_declines, refuse_declines, E. }
  destruct (any _ _) eqn:Hi; simpl; [done|].
  destruct (settling_owner _ _) as [owner|] eqn:Ho;
    [|intros E; eapply settles_declines, refuse_declines, E].
  destruct (match attempt_closure owner with Some _ => _ | None => false end);
    [intros E; eapply settles_declines, refuse_declines, E|].
  apply accept_cases; [by apply submit_new|done].
Qed.

Lemma choice_cases state context choice change :
  (forall pending final, choice = Some pending -> Commits state context pending change final ->
     Settles state context change) ->
  finalize_choice state context choice = Ok change -> Settles state context change.
Proof.
  intros Hc. unfold finalize_choice. destruct choice as [pending|].
  - intros [->|[final Hf]]%finalize_cases; [apply settles_declines, declines_only|by eapply Hc].
  - intros [= <-]. apply settles_declines, declines_only.
Qed.

Lemma advance_settlement_cases state context event change :
  advance_settlement state context event = Ok change -> Settles state context change.
Proof.
  destruct event as [proposal|attempt released blocked| | |row]; simpl; try done.
  - apply submit_cases.
  - destruct released, blocked; try (intros [= <-]; apply settles_declines, declines_only).
    apply choice_cases. intros pending final Hp Hc. unfold choice_of in Hp.
    destruct (next_such _ _) as [found|] eqn:Hn; [|by eapply settles_cancelled].
    injection Hp as ->. apply next_such_Some in Hn as [Hin _]. by eapply settles_pending.
  - apply choice_cases. intros pending final Hp Hc. apply next_such_Some in Hp as [Hin _].
    by eapply settles_pending.
Qed.

(** An adoption event leaves every choice alone, and any other event the adoption. *)
Lemma adoption_keeps_choices state context event change :
  advance_adoption state context event = Ok change ->
  settle_settlements (change_state change) = settle_settlements state
  /\ settle_pending (change_state change) = settle_pending state.
Proof.
  intros (inner & (Hs & _ & _ & _) & Htaken)%advance_cases. rewrite Hs.
  destruct Htaken as [(s & _ & HP)|(answer & _ & [->|(a & _ & _ & _ & _ & _ & HO)])]; [|done|].
  - destruct HP as [inner [-> _]|inner b [-> _]|]; done.
  - destruct HO as [| |inner (reason & E)|inner Hok Hp E]; try done.
    + unfold fail in E. simpl in E. by injection E as <-.
    + unfold published in E. destruct (negb _); [|by injection E as <-].
      unfold fail in E. simpl in E. by injection E as <-.
Qed.

Lemma settle_cases state context event change :
  settle state context event = Ok change ->
  (Settles state context change /\ settle_adoption (change_state change) = settle_adoption state)
  \/ (settle_settlements (change_state change) = settle_settlements state
      /\ settle_pending (change_state change) = settle_pending state
      /\ advance_adoption state context event = Ok change).
Proof.
  assert (advance_settlement state context event = Ok change ->
    Settles state context change /\ settle_adoption (change_state change) = settle_adoption state) as Hs.
  { intros Hc%advance_settlement_cases. split; [done|].
    destruct Hc as [[-> _ _ _]|p r _ [_ -> _ _ _]|? ? ? ? ? ? [_ -> _ _]|? ? _ [_ -> _ _]|? ? ? _ [_ -> _ _]];
      done. }
  intros E. destruct event; simpl in E; try (left; by apply Hs);
    right; (split; [|split; [|done]]); by eapply adoption_keeps_choices.
Qed.
End Cases.

(** ** What proves an eligible settlement *)

Section Proof.
Context `{JsonParser}.

(** The evidence is the successful answer of a finished measurement of the candidate, by the
    evaluator, the workload and the environment of the run. *)
Record Measured (context : SettlementContext) (scope : Scope) (candidate : RevisionRef)
    (evidence : EvidenceRef) : Prop := {
  measured_scope : evidence_scope evidence = scope;
  measured_candidate : evidence_candidate evidence = candidate;
  measured_status : evidence_status evidence = ObservationStatus.SUCCEEDED;
  measured_by_run : let facts := run_facts (sctx_run context) in
    evidence_evaluator_digest evidence = runfacts_evaluator_digest facts
    /\ evidence_workload_digest evidence = runfacts_workload_digest facts
    /\ evidence_environment_digest evidence = runfacts_environment_digest facts;
  measured_by_job : exists job observation,
    job ∈ eval_jobs (sctx_evaluation context) /\ job_observation job = Some observation
    /\ job_scope job = scope /\ job_submission_id job = evidence_source_request evidence
    /\ job_terminal job = true /\ job_status job = ObservationStatus.SUCCEEDED
    /\ evidence ∈ job_evidence job
    /\ plan_candidate (job_plan job) = CandidateRevision candidate
    /\ plan_purpose (job_plan job) = evidence_purpose evidence
    /\ obs_terminal observation = true /\ obs_accepted observation = true
    /\ obs_status observation = ObservationStatus.SUCCEEDED
    /\ obs_request_id observation = evidence_source_request evidence
    /\ obs_resource_id observation = Some (job_resource_id job)
    /\ evidence_observation_sequence evidence <= obs_sequence observation
}.

(** The invocation is a finished turn of the attempt, recorded in the ledger, of a role that was
    declared to assess this, and about the assessed revision. *)
Record Attested (context : SettlementContext) (owner : AttemptView)
    (assessment : AssessmentProposal) (source : InvocationRef) : Prop := {
  attested_by : exists invocation observation output,
    invocation ∈ sessions_invocations (sctx_sessions context)
    /\ inv_invocation invocation = source /\ inv_scope invocation = owner_scope owner
    /\ inv_phase invocation = SessionPhase.TERMINAL
    /\ inv_observation invocation = Some observation
    /\ obs_accepted observation = true /\ obs_terminal observation = true
    /\ obs_status observation = ObservationStatus.SUCCEEDED
    /\ inv_output_json invocation = Some output /\ valid_json output = true
    /\ (exists authority,
          authority ∈ requirements_assessment_authorities (run_requirements (sctx_run context))
          /\ authority_kind authority = assess_kind assessment
          /\ authority_role_id authority = session_role_id (turn_session (inv_turn invocation))
          /\ inv_output_schema invocation = Some (authority_output_schema authority))
    /\ (exists record, record ∈ ledger_records (sctx_records context)
          /\ rec_request_id record = obs_request_id observation
          /\ turn_request_valid record invocation = true);
  attested_of :
    (exists checkpoint, checkpoint ∈ attempt_checkpoints owner
       /\ checkpoint_invocation checkpoint = Some source
       /\ assess_candidate assessment = Some (checkpoint_revision checkpoint))
    \/ exists workspace, workspace_scope workspace = owner_scope owner
       /\ workspace_mode workspace = WorkspaceMode.READ_ONLY_REVISION
       /\ assess_candidate assessment = Some (workspace_revision workspace)
}.

Definition Sourced (context : SettlementContext) (owner : AttemptView) (candidate : RevisionRef)
    (assessment : AssessmentProposal) (source : AssessmentSource) : Prop :=
  match source with
  | FromInvocation invocation => Attested context owner assessment invocation
  | FromEvidenceKey _ | FromEvidence _ =>
      exists evidence,
        List.filter (source_names source) (eval_evidence (sctx_evaluation context)) = [evidence]
        /\ assessed_by (evidence_kind evidence) = assess_kind assessment
        /\ Measured context (owner_scope owner) candidate evidence
  end.

Record Proven (context : SettlementContext) (owner : AttemptView) (candidate : RevisionRef)
    (assessments : list AssessmentProposal) : Prop := {
  proven_assessments : forall item, item ∈ assessments ->
    assess_candidate item = Some candidate /\ assess_sources item <> []
    /\ forall source, source ∈ assess_sources item -> Sourced context owner candidate item source;
  proven_required : forall kind,
    kind ∈ requirements_required_assessments (run_requirements (sctx_run context)) ->
    (exists item, item ∈ assessments /\ assess_kind item = kind)
    /\ forall item, item ∈ assessments -> assess_kind item = kind ->
       assess_verdict item = AssessmentVerdict.SATISFIED;
  proven_evidence : forall required,
    required ∈ requirements_required_evidence (run_requirements (sctx_run context)) ->
    exists evidence, evidence ∈ eval_evidence (sctx_evaluation context)
      /\ evidence_kind evidence = ereq_kind required
      /\ evidence_provenance evidence = ereq_provenance required
      /\ (forall purpose, ereq_purpose required = Some purpose -> evidence_purpose evidence = purpose)
      /\ Measured context (owner_scope owner) candidate evidence;
  proven_authority :
    (exists item, item ∈ assessments /\ assess_verdict item = AssessmentVerdict.SATISFIED)
    \/ exists evidence, evidence ∈ eval_evidence (sctx_evaluation context)
       /\ Measured context (owner_scope owner) candidate evidence
}.

Lemma evidence_valid_spec evidence candidate scope context :
  evidence_valid evidence candidate scope context = true ->
  Measured context scope candidate evidence.
Proof.
  unfold evidence_valid. destruct (_ || _) eqn:Hc; [done|]. intros (job & Hin & Hjob)%any_true.
  unfold job_proves in Hjob. destruct (job_observation job) as [observation|] eqn:Ho;
    [|by rewrite !andb_false_r in Hjob].
  to_prop. split; try done. exists job, observation. repeat split; try done; try lia.
  by apply among_true.
Qed.

Lemma invocation_valid_spec source assessment owner context :
  invocation_valid source assessment owner context = true ->
  Attested context owner assessment source.
Proof.
  unfold invocation_valid. destruct (next_such _ _) as [invocation|] eqn:Hn; [|done].
  apply next_such_Some in Hn as [Hin Hsource]. unfold invocation_proves.
  destruct (_ || _) eqn:Hc; [done|].
  destruct (inv_observation invocation) as [observation|] eqn:Ho; [|done].
  destruct (inv_output_json invocation) as [output|] eqn:Hj; [|done].
  intros [[[[Hfacts Hrec]%andb_true_iff Hjson]%andb_true_iff Hauth]%andb_true_iff Hattr]%andb_true_iff.
  apply any_true in Hrec as (record & Hrecord & Hr). apply any_true in Hauth as (authority & Ha & Hok).
  to_prop. split.
  - exists invocation, observation, output. repeat split; try done.
    + exists authority. repeat split; done.
    + exists record. repeat split; done.
  - apply orb_true_iff in Hattr as [(checkpoint & Hcheck & Hp)%any_true|Hw].
    + left. exists checkpoint. to_prop. repeat split; done.
    + right. destruct (turn_workspace _) as [workspace|]; [|done]. exists workspace. to_prop.
      repeat split; done.
Qed.

Lemma assessment_valid_spec item row owner context candidate :
  settle_candidate (settlement_facts row) = Some candidate ->
  assessment_valid item row owner context = true ->
  assess_candidate item = Some candidate /\ assess_sources item <> []
  /\ forall source, source ∈ assess_sources item -> Sourced context owner candidate item source.
Proof.
  intros Hcand. unfold assessment_valid. destruct (_ || _) eqn:Hc; [done|]. to_prop.
  split; [congruence|]. split; [done|]. intros source Hin. eapply all_true in Hin as Hs; [|done].
  destruct source as [invocation|key|evidence_id]; simpl in *; [by apply invocation_valid_spec|..];
    rewrite Hcand in Hs;
    (destruct (List.filter _ _) as [|evidence [|]] eqn:Hf; try done);
    exists evidence; to_prop; (split; [done|split; [done|by apply evidence_valid_spec]]).
Qed.

Lemma eligible_spec row owner context :
  eligible row owner context = true ->
  settle_eligible (settlement_facts row) = true
  /\ settle_outcome (settlement_facts row) = SettleOutcome.SUCCEEDED
  /\ settle_retention (settlement_facts row) = SettleRetention.CANDIDATE
  /\ exists candidate, settle_candidate (settlement_facts row) = Some candidate
     /\ Proven context owner candidate (settle_assessments (settlement_facts row)).
Proof.
  unfold eligible. destruct (settle_candidate (settlement_facts row)) as [candidate|] eqn:Hcand; [|done].
  destruct (_ || _) eqn:Hc; [done|].
  intros [[[Hall Hreq]%andb_true_iff Hauth]%andb_true_iff Hev]%andb_true_iff. to_prop.
  split; [done|]. split; [done|]. split; [done|]. exists candidate. split; [done|]. split.
  - intros item Hin. eapply all_true in Hall; [|exact Hin]. by eapply assessment_valid_spec.
  - intros kind Hin. eapply all_true in Hreq; [|exact Hin]. unfold assessed in Hreq.
    apply andb_true_iff in Hreq as [Hne Hsat]. to_prop. split.
    + destruct (List.filter _ _) as [|item l] eqn:Hf; [done|].
      assert (item ∈ item :: l) as Hitem by (by left). rewrite <- Hf in Hitem.
      apply elem_of_filterb in Hitem as [Hi Hk]. to_prop. by exists item.
    + intros item Hi Hk. assert (is_satisfied item = true) as Hs.
      { apply (proj1 (all_true _ _) Hsat), elem_of_filterb. split; [done|]. rewrite Hk. apply eqb_refl. }
      unfold is_satisfied in Hs. by to_prop.
  - intros required Hin. eapply all_true in Hev; [|exact Hin].
    apply any_true in Hev as (evidence & He & Hp). to_prop. exists evidence.
    split; [done|]. split; [done|]. split; [done|]. split; [|by apply evidence_valid_spec].
    intros purpose Hpur. rewrite Hpur in *. by to_prop.
  - apply orb_true_iff in Hauth as [(item & Hi & Hs)%any_true|(evidence & He & Hs)%any_true].
    + left. exists item. unfold is_satisfied in Hs. by to_prop.
    + right. exists evidence. split; [done|by apply evidence_valid_spec].
Qed.
End Proof.

(** ** Properties *)

Section Safe.
Context `{JsonParser} `{SelectionDigest}.
Implicit Types (state : SettlementState) (context : SettlementContext) (owner : AttemptView)
  (change : AreaChange SettlementState) (row : SettlementRow).

Lemma released_owner_spec owner row :
  released_owner owner row = true ->
  attempt_phase owner = AttemptPhase.TERMINAL /\ attempt_release_dependencies owner = []
  /\ attempt_pending_records owner = []
  /\ (exists closure, attempt_closure owner = Some closure
      /\ closure_disposition closure <> ClosureDisposition.PARK
      /\ attempt_admission_id owner = Some (closure_admission_id closure))
  /\ (settle_retention (settlement_facts row) = SettleRetention.DISCARD
      \/ exists checkpoint, checkpoint ∈ attempt_checkpoints owner
         /\ settle_candidate (settlement_facts row) = Some (checkpoint_revision checkpoint)
         /\ settle_retention (settlement_facts row) = retained_as (checkpoint_retention checkpoint)).
Proof.
  unfold released_owner, owner_released. destruct (negb _) eqn:Ho; [done|].
  destruct (attempt_closure owner) as [closure|] eqn:Hc; [|by rewrite andb_false_r in Ho].
  intros Hr. to_prop. split; [done|]. split; [done|]. split; [done|]. split.
  - exists closure. split; [done|]. split; [|done]. intros Hd.
    match goal with Hm : among _ _ = true |- _ => rewrite Hd in Hm; discriminate Hm end.
  - apply orb_true_iff in Hr as [Hd|(checkpoint & Hin & Hp)%any_true]; to_prop; [by left|].
    right. by exists checkpoint.
Qed.

(** Only the committed choice is added, only the recorded ones leave. *)
Lemma commits_choices state context pending change final :
  Commits state context pending change final ->
  settle_settlements (change_state change) = (settle_settlements state ++ [final])%list
  /\ settle_pending (change_state change) `sublist_of` settle_pending state
  /\ settlement_attempt final ∉ map settlement_attempt (settle_pending (change_state change)).
Proof.
  intros [_ -> _ _]. simpl. split; [done|]. split; [apply filterb_sublist|].
  intros (row & E & Hin)%list_elem_of_fmap. apply elem_of_filterb in Hin as [_ Hin].
  apply negb_true_iff, eqb_neq in Hin. congruence.
Qed.

Definition settles_once state := NoDup (map settlement_attempt (choices state)).

Lemma commits_once state context pending change final :
  settles_once state -> settlement_attempt final ∉ map settlement_attempt (settle_settlements state) ->
  Commits state context pending change final -> settles_once (change_state change).
Proof.
  intros Hnd Hnew (Hs & Hsub & Hp)%commits_choices. unfold settles_once, choices in *. rewrite Hs.
  rewrite !map_app in *. apply NoDup_app in Hnd as (Hd1 & Hd2 & Hd3).
  apply (map_sublist settlement_attempt) in Hsub.
  assert (forall x, x ∈ map settlement_attempt (settle_pending (change_state change)) ->
            x ∈ map settlement_attempt (settle_pending state)) as Hin.
  { intros x Hx. eapply elem_of_submseteq; [exact Hx|by apply sublist_submseteq]. }
  simpl. apply NoDup_app. split.
  - apply NoDup_app. split; [done|]. split; [|apply NoDup_singleton].
    intros x Hx ->%list_elem_of_singleton. done.
  - split; [|by eapply list.sublist_NoDup].
    intros x [Hx| ->%list_elem_of_singleton]%elem_of_app Hx'; [|done]. by eapply Hd2, Hin.
Qed.

(** The choice a settlement event commits is of an attempt that has no settlement. *)
Lemma settles_committed state context change :
  settles_once state -> Settles state context change ->
  settle_settlements (change_state change) = settle_settlements state
  \/ exists pending final, Commits state context pending change final
     /\ settlement_attempt final ∉ map settlement_attempt (settle_settlements state).
Proof.
  intros Hnd [[-> _ _ _]|proposal row _ [_ -> _ _ _]|proposal pending final [Hnew _] Hat _ Hc
    |pending final Hin Hc|pending final attempt Hcan Hc]; [by left|by left|right; exists pending, final..];
    (split; [done|]); destruct (commits_names _ _ _ _ _ Hc) as [-> _].
  - rewrite Hat. unfold choices in Hnew. set_solver.
  - unfold settles_once, choices in Hnd. rewrite map_app in Hnd. apply NoDup_app in Hnd as (_ & Hd & _).
    intros Hs. apply (Hd _ Hs). by apply list_elem_of_fmap_2.
  - unfold cancelled_choice in Hcan. destruct (settling_owner _ _) as [owner|]; [|done].
    destruct (attempt_closure owner) as [closure|]; [|done].
    destruct (_ || _) eqn:Hany; [done|]. injection Hcan as <-. simpl. to_prop.
    intros (row & E & Hrow)%list_elem_of_fmap.
    match goal with Hany : any _ _ = false |- _ => eapply any_false in Hany;
      [|by apply elem_of_app; left]; simpl in Hany; to_prop; congruence end.
Qed.

(** C21: an attempt is settled once: every event keeps at most one choice for each attempt, among
    what is pending and what is settled. *)
Theorem one_choice_per_attempt state context event change :
  settles_once state -> settle state context event = Ok change -> settles_once (change_state change).
Proof.
  intros Hnd [[Hs _]|(Hs & Hp & _)]%settle_cases;
    [|unfold settles_once, choices; by rewrite Hs, Hp].
  destruct (settles_committed _ _ _ Hnd Hs) as [Hsame|(pending & final & Hc & Hnew)];
    [|by eapply commits_once].
  destruct Hs as [[-> _ _ _]|proposal row [Hnew _] [(owner & receipt & _ & _ & _ & -> & _) -> _ _ _]
    |? ? ? ? ? ? Hc|? ? ? Hc|? ? ? ? Hc]; [done| |apply commits_choices in Hc as [Hc _]; rewrite Hsame in Hc;
      by apply (f_equal length) in Hc; rewrite length_app in Hc; simpl in Hc; lia..].
  unfold settles_once, choices in *. simpl. rewrite app_assoc, map_app. apply NoDup_app.
  split; [done|]. split; [|apply NoDup_singleton]. simpl.
  destruct (normalize_names (accepted_settlement proposal receipt) (Some owner)) as [-> _].
  destruct (accepted_names proposal receipt) as [-> _]. by intros x Hx ->%list_elem_of_singleton.
Qed.

(** An attempt is settled only after its owner proved the release of everything it held: an
    event commits at most one settlement, of an attempt at rest that was closed to end, with nothing
    left to release, whose candidate its owner kept unless it is discarded. *)
Theorem settled_after_release state context event change :
  settle state context event = Ok change ->
  settle_settlements (change_state change) = settle_settlements state
  \/ exists final owner,
       settle_settlements (change_state change) = (settle_settlements state ++ [final])%list
       /\ change_events change = [AttemptSettledEvent final]
       /\ settlement_attempt final ∉ map settlement_attempt (settle_pending (change_state change))
       /\ settling_owner context (settlement_attempt final) = Some owner
       /\ attempt_phase owner = AttemptPhase.TERMINAL /\ attempt_release_dependencies owner = []
       /\ attempt_pending_records owner = []
       /\ (exists closure, attempt_closure owner = Some closure
           /\ closure_disposition closure <> ClosureDisposition.PARK
           /\ attempt_admission_id owner = Some (closure_admission_id closure))
       /\ (settle_retention (settlement_facts final) = SettleRetention.DISCARD
           \/ exists checkpoint, checkpoint ∈ attempt_checkpoints owner
              /\ settle_candidate (settlement_facts final) = Some (checkpoint_revision checkpoint)
              /\ settle_retention (settlement_facts final)
                 = retained_as (checkpoint_retention checkpoint)).
Proof.
  intros [[Hs _]|(Hs & _ & _)]%settle_cases; [|by left].
  assert (forall pending final, Commits state context pending change final ->
            exists owner, settling_owner context (settlement_attempt final) = Some owner
              /\ released_owner owner final = true) as Howner.
  { intros pending final Hc. destruct (commits_names _ _ _ _ _ Hc) as [-> _].
    destruct Hc as [(owner & receipt & Ho & _ & _ & _ & Hr & _) _ _ _]. by exists owner. }
  destruct Hs as [[-> _ _ _]|? ? _ [_ -> _ _ _]|? pending final _ _ _ Hc|pending final _ Hc|pending final ? _ Hc];
    [by left|by left|right; destruct (Howner _ _ Hc) as (owner & Ho & Hr); exists final, owner;
      destruct (commits_choices _ _ _ _ _ Hc) as (? & _ & ?); apply released_owner_spec in Hr; destruct Hc; done..].
Qed.

(** ** Eligibility *)

(** The settlement is of a closed attempt that was neither cancelled nor refused its candidate,
    which its owner kept, and the run's evidence proves it. *)
Definition Deserved context row (candidate : RevisionRef) : Prop :=
  exists owner closure checkpoint,
    settling_owner context (settlement_attempt row) = Some owner
    /\ settle_candidate (settlement_facts row) = Some candidate
    /\ settle_outcome (settlement_facts row) = SettleOutcome.SUCCEEDED
    /\ settle_retention (settlement_facts row) = SettleRetention.CANDIDATE
    /\ attempt_phase owner = AttemptPhase.TERMINAL /\ attempt_closure owner = Some closure
    /\ closure_disposition closure = ClosureDisposition.SETTLE
    /\ closure_retention_refused closure = false
    /\ checkpoint ∈ attempt_checkpoints owner /\ checkpoint_revision checkpoint = candidate
    /\ checkpoint_retention checkpoint = Retention.CANDIDATE
    /\ Proven context owner candidate (settle_assessments (settlement_facts row)).

Lemma normalize_eligible row owner closure :
  attempt_closure owner = Some closure ->
  settle_eligible (settlement_facts (normalize_choice row (Some owner))) = true ->
  normalize_choice row (Some owner) = row
  /\ closure_disposition closure <> ClosureDisposition.CANCEL
  /\ closure_retention_refused closure = false.
Proof.
  intros Hc. unfold normalize_choice. rewrite Hc.
  destruct (closure_retention_refused closure); [done|]. destruct (_ || _) eqn:Hn; [done|].
  to_prop. done.
Qed.

Lemma commits_deserved state context pending change final :
  Commits state context pending change final -> settle_eligible (settlement_facts final) = true ->
  exists candidate, settle_candidate (settlement_facts final) = Some candidate
    /\ Deserved context final candidate.
Proof.
  intros Hc He. destruct (commits_names _ _ _ _ _ Hc) as [Hat _].
  destruct Hc as [(owner & receipt & Ho & _ & _ & Hf & Hr & _) _ _ _].
  apply released_owner_spec in Hr as (Hphase & _ & _ & (closure & Hclosure & Hpark & _) & Hkept).
  set (row := normalize_choice (accepted_settlement pending receipt) (Some owner)) in *.
  assert (eligible row owner context = true) as Hel by (rewrite Hf in He; exact He).
  apply eligible_spec in Hel as (Hel & Hout & Hret & candidate & Hcand & Hproof).
  assert (final = row) as E.
  { rewrite Hf. unfold final_choice. fold row. rewrite Hf in He. unfold final_choice in He.
    fold row in He. simpl in He. rewrite He. destruct row as [? ? []]; simpl in *. by subst. }
  rewrite E in *. exists candidate. split; [done|].
  destruct (normalize_eligible _ _ _ Hclosure Hel) as (_ & Hcancel & Hrefused).
  destruct Hkept as [Hd|(checkpoint & Hin & Hrev & Has)]; [congruence|].
  exists owner, closure, checkpoint. rewrite Hat. split_and!; try done.
  - by destruct (closure_disposition closure).
  - congruence.
  - rewrite Hret in Has. by destruct (checkpoint_retention checkpoint).
Qed.

Lemma settle_deserved state context event change row :
  settle state context event = Ok change -> row ∈ settle_settlements (change_state change) ->
  settle_eligible (settlement_facts row) = true ->
  row ∈ settle_settlements state
  \/ exists candidate, settle_candidate (settlement_facts row) = Some candidate
     /\ Deserved context row candidate.
Proof.
  intros [[Hs _]|(-> & _ & _)]%settle_cases Hin He; [|by left].
  destruct Hs as [[E _ _ _]|? ? _ [_ E _ _ _]|? ? ? _ _ _ Hc|? ? _ Hc|? ? ? _ Hc];
    try (left; rewrite E in Hin; exact Hin);
    destruct (commits_choices _ _ _ _ _ Hc) as (E & _ & _); rewrite E in Hin;
    (apply elem_of_app in Hin as [Hin| ->%list_elem_of_singleton]; [by left|right]);
    by eapply commits_deserved.
Qed.

(** An eligible settlement is proven: what an event settles as eligible is the kept candidate
    of an attempt that closed to settle, every assessment it rests on is sourced in finished turns
    of the attempt or in the ledger of evidence, every assessment and every evidence the run
    requires is there, and each piece of evidence is a finished measurement of that revision. *)
Theorem eligible_is_proven state context event change row :
  settle state context event = Ok change -> row ∈ settle_settlements (change_state change) ->
  row ∉ settle_settlements state -> settle_eligible (settlement_facts row) = true ->
  exists candidate, settle_candidate (settlement_facts row) = Some candidate
    /\ Deserved context row candidate.
Proof. intros E Hin Hnew He. by destruct (settle_deserved _ _ _ _ _ E Hin He). Qed.

(** ** Over any events *)

(** The events of a run, each with what the kernel knew when it arrived, and what they leave *)
Inductive History : list (SettlementContext * SettlementEvent) -> SettlementState -> Prop :=
  | history_start :
      History [] {| settle_settlements := []; settle_pending := []; settle_adoption := None |}
  | history_step past state context event change :
      History past state -> settle state context event = Ok change ->
      History (past ++ [(context, event)]) (change_state change).

Lemma adoption_eligible state context event change a :
  advance_adoption state context event = Ok change ->
  settle_adoption (change_state change) = Some a ->
  (exists b, settle_adoption state = Some b /\ adoption_selection b = adoption_selection a)
  \/ ineligible state context (adoption_selection a) = None.
Proof.
  intros (inner & (Hs & _ & _ & _) & Htaken)%advance_cases Ha. rewrite Hs in Ha.
  destruct Htaken as [(s & _ & HP)|(answer & _ & [->|(b & Hb & _ & _ & _ & _ & HO)])]; [|by left; exists a|].
  - destruct HP as [inner [Hst _]|inner c [Hst _]|_ _ Hi];
      [rewrite Hst in Ha; by left; exists a..|]. right. simpl in Ha. by injection Ha as <-.
  - left. exists b. split; [done|]. destruct HO as [| |inner (reason & E)|inner _ Hp E].
    + simpl in Ha. by injection Ha as <-.
    + simpl in Ha. by injection Ha as <-.
    + unfold fail in E. simpl in E. injection E as <-. simpl in Ha. by injection Ha as <-.
    + unfold published in E. rewrite Hp in E. injection E as <-. simpl in Ha. by injection Ha as <-.
Qed.

Lemma retains_row state id revision :
  retains state (RetainedCandidate id revision) = true ->
  exists row, row ∈ settle_settlements state /\ settlement_id_of row = id
    /\ settle_eligible (settlement_facts row) = true
    /\ settle_candidate (settlement_facts row) = Some revision.
Proof.
  unfold retains. destruct (List.filter _ _) as [|row [|]] eqn:Hf; try done. intros Hr. to_prop.
  assert (row ∈ [row]) as Hin by (by left). rewrite <- Hf in Hin.
  apply elem_of_filterb in Hin as [Hin Hid]. to_prop. by exists row.
Qed.

(** The task asks for no accuracy proof of the revision, or has one. *)
Definition accurate context (revision : RevisionRef) : Prop :=
  match runfacts_task (run_facts (sctx_run context)) with
  | Some task => requires_accuracy_proof task = false
  | None => False
  end \/ accuracy_proof (sctx_evaluation context) revision <> None.

Lemma ineligible_retained state context id revision :
  ineligible state context (RetainedCandidate id revision) = None ->
  retains state (RetainedCandidate id revision) = true /\ accurate context revision.
Proof.
  unfold ineligible, accurate. destruct (retains _ _); simpl; [|done]. intros Hi. split; [done|].
  destruct (runfacts_task _) as [task|]; [destruct (requires_accuracy_proof task)|]; simpl in Hi;
    try (by left); right; by destruct (accuracy_proof _ _).
Qed.

Lemma settlements_grow state context event change :
  settle state context event = Ok change ->
  forall row, row ∈ settle_settlements state -> row ∈ settle_settlements (change_state change).
Proof.
  intros [[Hs _]|(-> & _ & _)]%settle_cases row Hin; [|done].
  destruct Hs as [[-> _ _ _]|? ? _ [_ -> _ _ _]|? ? ? _ _ _ Hc|? ? _ Hc|? ? ? _ Hc]; [done|done|..];
    destruct (commits_choices _ _ _ _ _ Hc) as (-> & _ & _); apply elem_of_app; by left.
Qed.

Lemma history_deserved past state row :
  History past state -> row ∈ settle_settlements state -> settle_eligible (settlement_facts row) = true ->
  exists context event candidate, (context, event) ∈ past
    /\ settle_candidate (settlement_facts row) = Some candidate /\ Deserved context row candidate.
Proof.
  intros Hh. revert row. induction Hh as [|past state context event change _ IH E]; intros row Hin He;
    [by apply not_elem_of_nil in Hin|].
  destruct (settle_deserved _ _ _ _ _ E Hin He) as [Hold|(candidate & Hc & Hd)].
  - destruct (IH row Hold He) as (c & e & candidate & Hpast & Hok). exists c, e, candidate.
    split; [apply elem_of_app; by left|done].
  - exists context, event, candidate. split; [apply elem_of_app; right; by left|done].
Qed.

Lemma history_adopts past state a id revision :
  History past state -> settle_adoption state = Some a ->
  adoption_selection a = RetainedCandidate id revision ->
  exists context event row, (context, event) ∈ past /\ accurate context revision
    /\ row ∈ settle_settlements state /\ settlement_id_of row = id
    /\ settle_eligible (settlement_facts row) = true
    /\ settle_candidate (settlement_facts row) = Some revision.
Proof.
  intros Hh. revert a. induction Hh as [|past state context event change _ IH E]; intros a Ha Hsel; [done|].
  assert ((exists b, settle_adoption state = Some b /\ adoption_selection b = adoption_selection a)
          \/ ineligible state context (adoption_selection a) = None) as [(b & Hb & Hs)|Hi].
  { destruct (settle_cases _ _ _ _ E) as [[_ Hsame]|(_ & _ & Hadv)];
      [left; exists a; by rewrite <- Hsame|by eapply adoption_eligible]. }
  - destruct (IH b Hb) as (c & e & row & Hpast & Hacc & Hin & Hok); [congruence|].
    exists c, e, row. split; [apply elem_of_app; by left|]. split; [done|].
    split; [by eapply settlements_grow|done].
  - rewrite Hsel in Hi. apply ineligible_retained in Hi as [(row & Hin & Hok)%retains_row Hacc].
    exists context, event, row. split; [apply elem_of_app; right; by left|]. split; [done|].
    split; [by eapply settlements_grow|done].
Qed.

(** C20: a winner is deserved: over any events of a run, a candidate that is being adopted, or was,
    is that of a settlement of the run, proven when it was settled (an attempt that closed to
    settle, its candidate kept, its assessments sourced and its required evidence measured), and a
    task that gates on accuracy had the accuracy proof of that revision when adoption began. *)
Theorem winner_was_proven past state a id revision :
  History past state -> settle_adoption state = Some a ->
  adoption_selection a = RetainedCandidate id revision ->
  exists row settled e started e',
    row ∈ settle_settlements state /\ settlement_id_of row = id
    /\ (settled, e) ∈ past /\ Deserved settled row revision
    /\ (started, e') ∈ past /\ accurate started revision.
Proof.
  intros Hh Ha Hsel.
  destruct (history_adopts _ _ _ _ _ Hh Ha Hsel) as (started & e' & row & Hs & Hacc & Hin & Hid & He & Hc).
  destruct (history_deserved _ _ _ Hh Hin He) as (settled & e & candidate & Hp & Hc' & Hd).
  exists row, settled, e, started, e'. rewrite Hc in Hc'. injection Hc' as <-. done.
Qed.

(** ** Commands and liveness *)

Lemma receipt_of context row receipt :
  canonical_settlement_receipt context row = Ok (Some receipt) -> inactive (Some receipt) = false ->
  receipt ∈ run_receipts (sctx_run context) /\ receipt_active receipt = true
  /\ settlement_id_of row = settlement_named (root (receipt_decision_id receipt))
  /\ exists d facts, receipt_decision receipt
       = Some (Withdraw d (TargetAttempt (settlement_attempt row)) (DSettle facts)).
Proof.
  unfold canonical_settlement_receipt. destruct (next_such _ _) as [found|] eqn:Hn; [|done].
  apply next_such_Some in Hn as [Hin Hid]. apply eqb_eq in Hid. intros E Ha.
  simpl in Ha. apply negb_false_iff in Ha as Hactive.
  assert (found = receipt /\ forall d target disposition, receipt_decision found = Some (Withdraw d target disposition) ->
    (exists facts, disposition = DSettle facts) -> target = TargetAttempt (settlement_attempt row)) as [-> Ht].
  { destruct (receipt_decision found) as [[]|] eqn:Hd; try done; [|by injection E as ->].
    destruct disposition; try done. destruct (_ && _) eqn:Hc; simpl in E; [|done]. to_prop.
    split; [|intros d' target' disposition' Heq _; congruence].
    destruct (_ || _); [by injection E|]. destruct (differing_field _ _); [done|by injection E]. }
  split; [done|]. split; [done|]. split; [done|]. unfold receipt_active in Hactive.
  destruct (receipt_decision receipt) as [[]|] eqn:Hd; try by rewrite andb_false_r in Hactive.
  destruct disposition; try by rewrite andb_false_r in Hactive.
  exists d, settlement.
  assert (target = TargetAttempt (settlement_attempt row)) as -> by (eapply Ht; [done|by eexists]). done.
Qed.

(** A settlement completes its command: the events that settle attempts complete a command only
    when they commit the settlement it asked for, of the attempt and with the identity it names, and
    with the candidate and the assessments it proposes; a command already completed or refused
    settles nothing. *)
Theorem settlement_completes_command state context event change d status :
  advance_settlement state context event = Ok change ->
  DecisionCompleted d status ∈ change_signals change ->
  exists receipt final base facts,
    receipt ∈ run_receipts (sctx_run context) /\ receipt_decision_id receipt = d
    /\ receipt_active receipt = true /\ receipt_decision receipt
       = Some (Withdraw base (TargetAttempt (settlement_attempt final)) (DSettle facts))
    /\ settle_settlements (change_state change) = (settle_settlements state ++ [final])%list
    /\ status = CompletionStatus.SUCCEEDED
    /\ settlement_id_of final = settlement_named (root d)
    /\ settle_candidate (settlement_facts final) = settle_candidate facts
    /\ settle_assessments (settlement_facts final) = settle_assessments facts
    /\ (settle_eligible (settlement_facts final) = true -> settle_eligible facts = true).
Proof.
  intros Hs%advance_settlement_cases Hin.
  assert (exists pending final, Commits state context pending change final) as (pending & final & Hc).
  { destruct Hs as [[_ E _ _]|? ? _ [_ _ E _ _]|? ? ? _ _ _ Hc|? ? _ Hc|? ? ? _ Hc]; [|..|eauto|eauto|eauto];
      rewrite E in Hin; [by apply not_elem_of_nil in Hin|by apply list_elem_of_singleton in Hin]. }
  destruct (commits_names _ _ _ _ _ Hc) as [Hat Hid]. destruct (commits_choices _ _ _ _ _ Hc) as (Hnew & _ & _).
  destruct Hc as [(owner & receipt & _ & Hr & Ha & Hf & _ & Hsig) _ _ _]. rewrite Hsig in Hin.
  destruct receipt as [receipt|]; [|by apply not_elem_of_nil in Hin].
  apply list_elem_of_singleton in Hin. injection Hin as -> ->.
  destruct (receipt_of _ _ _ Hr Ha) as (Hreceipt & Hactive & Hname & base & facts & Hd).
  exists receipt, final, base, facts. rewrite Hat, Hid, Hnew. split_and!; try done;
    rewrite Hf; unfold final_choice, accepted_settlement; rewrite Hd; simpl; unfold normalize_choice; simpl.
  - by destruct (match attempt_closure owner with Some _ => _ | None => false end); [|destruct (_ || _)].
  - by destruct (match attempt_closure owner with Some _ => _ | None => false end); [|destruct (_ || _)].
  - intros (He & _)%eligible_spec. revert He.
    by destruct (match attempt_closure owner with Some _ => _ | None => false end); [|destruct (_ || _)].
Qed.









End Safe.

(** ** A concrete run *)

#[local] Instance sample_json : JsonParser := fun text => eqb text "{}"%string.
#[local] Instance sample_settling_digest : SelectionDigest :=
  fun selection => root (revision_revision_id (selected_revision selection)).

Definition sample_candidate : RevisionRef :=
  {| revision_revision_id := MkIdentity "faster"; revision_digest := "git-commit:faster" |}.
Definition sample_attempt_scope : Scope :=
  {| scope_owner := OwnerAttempt (aref_attempt_id sample_attempt); scope_generation := 1 |}.

(** The run's evaluator found the candidate correct. *)
Definition sample_measured : Observation :=
  {| obs_event_id := MkIdentity "measured"; obs_request_id := sample_tag "measure";
     obs_scope := sample_attempt_scope; obs_sequence := 2; obs_observed_at := seconds 11;
     obs_status := ObservationStatus.SUCCEEDED; obs_resource_id := Some (MkIdentity "job");
     obs_revision := None; obs_measured_input := None; obs_accepted := true; obs_terminal := true;
     obs_released := true; obs_children := []; obs_children_complete := true;
     obs_child_manifest := None; obs_admission_id := None; obs_diagnostic := "" |}.
Definition sample_evidence : EvidenceRef :=
  {| evidence_evidence_id := MkIdentity "evidence"; evidence_kind := EvidenceKind.CORRECTNESS;
     evidence_purpose := Purpose.OFFICIAL; evidence_scope := sample_attempt_scope;
     evidence_source_request := sample_tag "measure"; evidence_candidate := sample_candidate;
     evidence_observation_sequence := 2; evidence_evaluator_digest := "evaluator";
     evidence_workload_digest := "workload"; evidence_environment_digest := "environment";
     evidence_provenance := Provenance.TRUSTED; evidence_status := ObservationStatus.SUCCEEDED;
     evidence_artifacts := []; evidence_acceptance_receipt := Some sample_measured;
     evidence_reused_from := None; evidence_reading := None; evidence_unmet_requirement := None |}.
Definition sample_measurement : OwnedJob :=
  {| job_resource_id := MkIdentity "job"; job_submission_id := sample_tag "measure";
     job_scope := sample_attempt_scope; job_observation := Some sample_measured;
     job_progress := None; job_children := [];
     job_plan :=
       {| plan_purpose := Purpose.OFFICIAL; plan_candidate := CandidateRevision sample_candidate;
          plan_evaluator_digest := "evaluator"; plan_workload_digest := "workload";
          plan_environment_digest := "environment"; plan_stages := [];
          plan_policy := StagePolicy.ORDERED;
          plan_recipe := {| artifact_artifact_id := MkIdentity "recipe"; artifact_digest := "";
                            artifact_schema_ref := None |};
          plan_submitted_at := seconds 1; plan_queue_allowance := seconds 1;
          plan_reusable_evidence := []; plan_dedicated_measurement_resources := false;
          plan_measured_input := None; plan_accuracy_stage := None; plan_accuracy_gated := [] |};
     job_status := ObservationStatus.SUCCEEDED; job_terminal := true; job_released := true;
     job_evidence := [sample_evidence]; job_reuses := None; job_base := None; job_pacing := 0;
     job_wait := None; job_collecting := None; job_answer_until := None; job_queue_credit := fzero |}.

(** The strategy settles the attempt: its candidate is to be kept, correct by that evidence. *)
Definition sample_choice : SettleFacts :=
  {| settle_candidate := Some sample_candidate;
     settle_assessments :=
       [{| assess_kind := AssessmentKind.CORRECTNESS;
           assess_verdict := AssessmentVerdict.SATISFIED;
           assess_sources := [FromEvidence (MkIdentity "evidence")];
           assess_candidate := Some sample_candidate; assess_schema_version := 1 |}];
     settle_eligible := true; settle_retention := SettleRetention.CANDIDATE;
     settle_outcome := SettleOutcome.SUCCEEDED |}.
Definition sample_proposed : SettlementRow :=
  {| settlement_id_of := settlement_named "settle"; settlement_attempt := sample_attempt;
     settlement_facts := sample_choice |}.
Definition sample_settle : DecisionReceipt :=
  {| receipt_decision_id := MkIdentity "settle";
     receipt_decision := Some (Withdraw {| dbase_decision_id := MkIdentity "settle";
                                           dbase_scope := sample_attempt_scope |}
                                        (TargetAttempt sample_attempt) (DSettle sample_choice));
     receipt_until := None; receipt_limit := None; receipt_payload_digest := "";
     receipt_feedback := Accepted (MkIdentity "settle") [] [] None "[]";
     receipt_request_ids := []; receipt_completion := None |}.

(** The attempt as its owner has it, closing and then at rest with its candidate kept *)
Definition sample_closing_owner (phase : AttemptPhase) (disposition : ClosureDisposition)
    : AttemptView :=
  {| attempt_attempt_id := aref_attempt_id sample_attempt; attempt_item_id := MkIdentity "item";
     attempt_generation := 1; attempt_phase := phase;
     attempt_workspace := {| wplan_mode := WorkspaceMode.EXCLUSIVE_ROOT;
                             wplan_base := sample_revision; wplan_parked_predecessor := None |};
     attempt_base_input := None;
     attempt_budget := {| budget_admission_charge := 1; budget_paid_invocation_limit := 1;
                          budget_refund_limit := 0 |};
     attempt_admission_id := Some (MkIdentity "start");
     attempt_closure :=
       Some {| closure_disposition := disposition; closure_requested_at := seconds 10;
               closure_authority := sample_tag "close"; closure_admission_id := MkIdentity "start";
               closure_retention_refused := false; closure_discard_refused := false |};
     attempt_checkpoints :=
       [{| checkpoint_invocation := None; checkpoint_request_id := sample_tag "keep";
           checkpoint_revision := sample_candidate; checkpoint_retention := Retention.CANDIDATE;
           checkpoint_measured_input := None |}];
     attempt_charges := []; attempt_parent := None; attempt_pending_records := [];
     attempt_sessions := []; attempt_release_dependencies := [];
     attempt_evaluation_history := "{}"; attempt_terminal_reason := None;
     attempt_checkpoint_declines := [] |}.
Definition sample_settling (owner : AttemptView) : SettlementContext :=
  {| sctx_registry := []; sctx_run := sample_run <| run_receipts := [sample_settle] |>;
     sctx_attempts := [owner]; sctx_sessions := core_sessions sample_running;
     sctx_evaluation := (core_evaluation sample_running)
       <| eval_jobs := [sample_measurement] |> <| eval_evidence := [sample_evidence] |>;
     sctx_records := {| ledger_records := []; ledger_epoch := 1 |} |}.
Definition sample_busy : SettlementContext :=
  sample_settling (sample_closing_owner AttemptPhase.CLOSING ClosureDisposition.SETTLE).
Definition sample_rested : SettlementContext :=
  sample_settling (sample_closing_owner AttemptPhase.TERMINAL ClosureDisposition.SETTLE).

Definition sample_nothing : SettlementState :=
  {| settle_settlements := []; settle_pending := []; settle_adoption := None |}.
Definition sample_next (context : SettlementContext) (event : SettlementEvent)
    (state : SettlementState) : AreaChange SettlementState :=
  match settle state context event with Ok change => change | Err _ => only state end.
Definition sample_submit : SettlementEvent := AssessmentSubmitted sample_proposed.
Definition sample_release : SettlementEvent := OwnershipSettled sample_attempt true false.
Definition sample_held : AreaChange SettlementState := sample_next sample_busy sample_submit sample_nothing.
Definition sample_settled : AreaChange SettlementState :=
  sample_next sample_rested sample_release (change_state sample_held).
Definition sample_crowning : SettlementEvent :=
  WinnerProposed (RetainedCandidate (settlement_named "settle") sample_candidate).
Definition sample_crowned : AreaChange SettlementState :=
  sample_next sample_rested sample_crowning (change_state sample_settled).

Example choice_waits_for_release :
  settle_pending (change_state sample_held) = [sample_proposed]
  /\ change_signals sample_held
     = [RetentionRequired sample_attempt SettleRetention.CANDIDATE (Some sample_candidate)]
  /\ settle_settlements (change_state sample_settled) = [sample_proposed]
  /\ settle_pending (change_state sample_settled) = [].
Proof. by vm_compute. Qed.

Lemma one_choice_per_attempt_witness :
  settle (change_state sample_held) sample_rested sample_release = Ok sample_settled
  /\ settles_once (change_state sample_settled).
Proof.
  assert (settle (change_state sample_held) sample_rested sample_release = Ok sample_settled) as E
    by (vm_compute; reflexivity).
  split; [exact E|].
  refine (one_choice_per_attempt (change_state sample_held) sample_rested sample_release
            sample_settled _ E).
  vm_compute. apply NoDup_singleton.
Defined.

Lemma settled_after_release_witness :
  settle_settlements (change_state sample_settled) = [sample_proposed]
  /\ exists final owner, settling_owner sample_rested (settlement_attempt final) = Some owner
     /\ attempt_release_dependencies owner = [].
Proof.
  split; [vm_compute; reflexivity|].
  destruct (settled_after_release (change_state sample_held) sample_rested sample_release
              sample_settled) as [E|(final & owner & _ & _ & _ & Ho & _ & Hd & _)];
    [vm_compute; reflexivity|discriminate E|].
  exists final, owner. split; [exact Ho|exact Hd].
Defined.

Lemma eligible_is_proven_witness :
  sample_proposed ∈ settle_settlements (change_state sample_settled)
  /\ exists candidate, settle_candidate sample_choice = Some candidate
     /\ Deserved sample_rested sample_proposed candidate.
Proof.
  assert (sample_proposed ∈ settle_settlements (change_state sample_settled)) as Hin
    by (vm_compute; left).
  split; [exact Hin|].
  apply (eligible_is_proven (change_state sample_held) sample_rested sample_release sample_settled
           sample_proposed); [vm_compute; reflexivity|exact Hin|apply not_elem_of_nil|reflexivity].
Defined.

Lemma winner_was_proven_witness :
  settle_adoption (change_state sample_crowned)
  = Some (new_adoption (RetainedCandidate (settlement_named "settle") sample_candidate))
  /\ exists row settled, settlement_id_of row = settlement_named "settle"
     /\ Deserved settled row sample_candidate.
Proof.
  split; [vm_compute; reflexivity|].
  assert (History [(sample_busy, sample_submit); (sample_rested, sample_release);
                   (sample_rested, sample_crowning)] (change_state sample_crowned)) as Hh.
  { apply (history_step [(sample_busy, sample_submit); (sample_rested, sample_release)]
             (change_state sample_settled)); [|vm_compute; reflexivity].
    apply (history_step [(sample_busy, sample_submit)] (change_state sample_held));
      [|vm_compute; reflexivity].
    apply (history_step [] sample_nothing); [constructor|vm_compute; reflexivity]. }
  destruct (winner_was_proven _ _ _ (settlement_named "settle") sample_candidate Hh
              (eq_refl : settle_adoption (change_state sample_crowned) = Some _) eq_refl)
    as (row & settled & e & _ & _ & _ & Hid & _ & Hd & _).
  exists row, settled. split; [exact Hid|exact Hd].
Defined.

Lemma settlement_completes_command_witness :
  change_signals sample_settled = [DecisionCompleted (MkIdentity "settle") CompletionStatus.SUCCEEDED]
  /\ exists final, settle_settlements (change_state sample_settled)
                   = (settle_settlements (change_state sample_held) ++ [final])%list
     /\ settlement_id_of final = settlement_named "settle".
Proof.
  split; [vm_compute; reflexivity|].
  destruct (settlement_completes_command (change_state sample_held) sample_rested sample_release
              sample_settled (MkIdentity "settle") CompletionStatus.SUCCEEDED)
    as (receipt & final & _ & _ & _ & _ & _ & _ & E & _ & Hid & _);
    [vm_compute; reflexivity|vm_compute; left|].
  exists final. split; [exact E|exact Hid].
Defined.

