(* ===== verification/Scheduling.v ===== *)
(** * Admission: the queue of attempts and the capacity they occupy

    [libs/vs-core/src/vs_core/scheduling.py] with the events and the context of
    [types/scheduling.py] and [types/kernel.py].  A queued start or reopening is admitted first in,
    first out, while its proof, the parallel limit, the pools and the exclusive root allow it; a
    slot holds capacity until its release is proven.  An error is the field the code's
    [ContractValidationError] names. *)

From S2P Require Import Prelude PyFloat Identities Values Requests Records State Control Proofs.
From S2P Require Import Answers Adoption Forward Ledger.

Record SchedulingContext := {
  schctx_run : RunState;
  schctx_attempts : list AttemptView;
  schctx_records : RecordsState;
  schctx_sessions : SessionsState;
  schctx_settlement : SettlementState;
  schctx_evaluation : EvaluationState
}.

Module AdmissionAction.
Inductive AdmissionAction : Set := PAUSE | RESUME | DRAIN | CANCEL.
End AdmissionAction.
Abbreviation AdmissionAction := AdmissionAction.AdmissionAction.
#[export] Instance AdmissionAction_dec : EqDecision AdmissionAction.
Proof. solve_decision. Defined.

Inductive SchedulingEvent : Set :=
  | AttemptRequested (request : AttemptRequest)
  | AttemptReopenRequested (request : AttemptReopenRequest)
  | AttemptReady (attempt : AttemptRef) (admission_id : DecisionId)
  | SlotReleased (attempt : AttemptRef) (admission_id : DecisionId)
  | SlotChargeEnded (attempt : AttemptRef) (admission_id : DecisionId) (ended_at : float)
  | QueueEntryRetired (attempt : AttemptRef) (admission_id : DecisionId)
  | ClockAdvanced (now_at : float)
  | AdmissionControl (action : AdmissionAction)
  | FenceLifted
  | ParallelLimitChanged.

(** [AdmissionRequest.decision_id] and [AdmissionRequest.pools] *)
Definition admission_decision_id (request : AdmissionRequest) : DecisionId :=
  match request with
  | AdmitStart request => areq_decision_id request
  | AdmitReopen request => reopen_decision_id request
  end.
Definition admission_pools (request : AdmissionRequest) : list PoolId :=
  match request with
  | AdmitStart request => areq_pools request
  | AdmitReopen request => reopen_pools request
  end.

(** [_target] *)
Definition start_target (request : AttemptRequest) : AttemptRef :=
  {| aref_attempt_id := areq_attempt_id request; aref_generation := areq_generation request |}.
Definition target_of (request : AdmissionRequest) : AttemptRef :=
  match request with
  | AdmitReopen request => reopen_attempt request
  | AdmitStart request => start_target request
  end.

Definition slot_is (attempt : AttemptRef) (admission_id : DecisionId) (slot : Slot) : bool :=
  eqb (slot_attempt slot) attempt && eqb (slot_admission_id slot) admission_id.

Section Scheduling.
Context `{Digests} `{SelectionDigest}.
Local Open Scope string_scope.

(** [_owner] *)
Definition owner_of (context : SchedulingContext) (target : AttemptRef) : option AttemptView :=
  next_such (fun attempt => eqb (attempt_attempt_id attempt) (aref_attempt_id target)
                            && (attempt_generation attempt =? aref_generation target)%Z)
            (schctx_attempts context).

(** [_mode] *)
Definition admission_mode (context : SchedulingContext) (target : AttemptRef)
    (admission_id : DecisionId) : result string WorkspaceMode :=
  match owner_of context target with
  | Some owner => Ok (wplan_mode (attempt_workspace owner))
  | None =>
      match next_such (fun receipt => eqb (receipt_decision_id receipt) admission_id)
                      (run_receipts (schctx_run context)) with
      | Some receipt =>
          match receipt_decision receipt with
          | Some (StartAttempt _ _ _ workspace _ _) => Ok (wplan_mode workspace)
          | _ => Err "decision_id"
          end
      | None => Err "decision_id"
      end
  end.

(** The charge a queue row that is a start without an owner reserves *)
Definition reserved_charge (context : SchedulingContext) (request : AdmissionRequest) : Z :=
  match request with
  | AdmitStart start =>
      if is_none (owner_of context (start_target start)) then areq_admission_charge start else 0%Z
  | AdmitReopen _ => 0%Z
  end.

(** [_remaining] *)
Definition remaining (state : SchedulingState) (context : SchedulingContext) : Z :=
  admission_remaining (schctx_attempts context)
    (limits_max_attempts (run_limits (schctx_run context)))
    (foldr Z.add 0%Z (map (reserved_charge context) (sched_queue state))).

(** [_reject] *)
Definition reject (state : SchedulingState) (request : AdmissionRequest) (code : RejectionCode)
    (detail : string) : AreaChange SchedulingState :=
  {| change_state := state; change_signals := []; change_requests := [];
     change_events :=
       [FeedbackEvent (Rejected (admission_decision_id request) code [Field "scheduling"] detail None)] |}.

(** [_committed_stops], of each the identity and the scope *)
Definition committed_stops (context : SchedulingContext) : list DecisionBase :=
  let run := schctx_run context in
  omap (fun receipt =>
          match receipt_decision receipt with
          | Some (Finish d _ _) =>
              if is_accepted (receipt_feedback receipt)
                 && eqb (receipt_decision_id receipt) (dbase_decision_id d)
                 && eqb (dbase_decision_id d) (feedback_decision_id (receipt_feedback receipt))
                 && eqb (scope_owner (dbase_scope d)) (OwnerRun (run_run_id run))
                 && (scope_generation (dbase_scope d) =? run_generation run)%Z
              then Some d else None
          | _ => None
          end) (run_receipts run).

(** [_first_stop], its identity and scope *)
Definition first_stop (context : SchedulingContext) : option DecisionBase :=
  match committed_stop (schctx_run context) with
  | Proven (d, _, _) => Some d
  | _ => None
  end.

(** [_accepting] *)
Definition accepting (context : SchedulingContext) : bool :=
  let run := schctx_run context in
  let open_run := eqb (run_status run) RunStatus.RUNNING && is_none (run_result run) in
  (open_run || stop_draining run) && flt (run_now_at run) (run_deadline_at run).

(** [accepted_receipt_for(context.run.receipts, ident, None)], and its decision *)
Definition accepted_decision (context : SchedulingContext) (ident : DecisionId) : option Command :=
  match accepted_receipt_for (run_receipts (schctx_run context)) (Some ident) with
  | Proven receipt => receipt_decision receipt
  | _ => None
  end.

(** [_registration], the whole [StartAttempt] *)
Definition registers (context : SchedulingContext) (target : AttemptRef) (decision : Command) : bool :=
  match decision with
  | StartAttempt d attempt_id _ _ _ _ =>
      eqb (scope_owner (dbase_scope d)) (OwnerRun (run_run_id (schctx_run context)))
      && eqb attempt_id (aref_attempt_id target)
      && (scope_generation (dbase_scope d) =? aref_generation target)%Z
  | _ => false
  end.
Definition registration (context : SchedulingContext) (target : AttemptRef) : option Command :=
  head (List.filter (registers context target)
          (omap (fun receipt => accepted_decision context (receipt_decision_id receipt))
                (run_receipts (schctx_run context)))).

(** A live ADMISSION receipt of this charge *)
Definition admission_receipt (charge : Z) (receipt : ChargeReceipt) : bool :=
  eqb (charge_kind receipt) ChargeKind.ADMISSION && (charge_charged receipt =? charge)%Z
  && is_none (charge_historical_proof receipt).

(** [_validate_start] *)
Definition validate_start (state : SchedulingState) (context : SchedulingContext)
    (request : AttemptRequest) : option (AreaChange SchedulingState) :=
  let refuse code detail := Some (reject state (AdmitStart request) code detail) in
  match accepted_decision context (areq_decision_id request) with
  | Some (StartAttempt d attempt_id item_id workspace budget sessions as decision) =>
      if negb (eqb (scope_owner (dbase_scope d)) (OwnerRun (run_run_id (schctx_run context))))
      then refuse RejectionCode.OWNERSHIP "start requires canonical accepted decision"
      else if negb (eqb (areq_attempt_id request) attempt_id && eqb (areq_item_id request) item_id
                    && (areq_generation request =? scope_generation (dbase_scope d))%Z
                    && (areq_admission_charge request =? budget_admission_charge budget)%Z)
      then refuse RejectionCode.IDENTITY_CONFLICT "start differs from canonical decision"
      else
        match owner_of context (start_target request) with
        | None => None
        | Some owner =>
            if negb (eqb (registration context (start_target request)) (Some decision))
            then refuse RejectionCode.OWNERSHIP "attempt has a different registration authority"
            else if negb (eqb (attempt_item_id owner) (areq_item_id request))
                    || negb (any (admission_receipt (areq_admission_charge request))
                                 (attempt_charges owner))
            then refuse RejectionCode.OWNERSHIP "queued owner requires its live admission receipt"
            else None
        end
  | _ => refuse RejectionCode.OWNERSHIP "start requires canonical accepted decision"
  end.

(** [_reopen_replayed] *)
Definition reopen_replayed (context : SchedulingContext) (request : AttemptReopenRequest) : bool :=
  match owner_of context (reopen_attempt request) with
  | Some owner =>
      eqb (attempt_admission_id owner) (Some (reopen_decision_id request))
      || match attempt_closure owner with
         | Some closure => eqb (closure_admission_id closure) (reopen_decision_id request)
         | None => false
         end
  | None => false
  end
  || any (fun receipt => eqb (receipt_decision_id receipt) (reopen_decision_id request)
                         && not_none (receipt_completion receipt))
         (run_receipts (schctx_run context)).

(** [_reopen_declared] *)
Definition reopen_declared (context : SchedulingContext) (registered : RegisteredProof) : bool :=
  match registered_wire registered with
  | None => false
  | Some wire =>
      any (fun descriptor =>
             eqb (descriptor_normalization descriptor) OperationNormalizationKind.SCOPE_REOPEN
             && eqb ((descriptor_schema descriptor) <| opschema_on_interrupt := InterruptPolicy.RERUN |>)
                    (wire_schema_ref wire))
          (capabilities_operations (run_capabilities (schctx_run context)))
  end.

(** What [_reopen_proved] asks of the operation that asks for the reopening *)
Definition reopen_authority (context : SchedulingContext) (request : AttemptReopenRequest)
    (closure : AttemptClosure) (d : DecisionBase) (normalizations : Normalizations)
    (registered : RegisteredProof) : bool :=
  let run := schctx_run context in
  reopen_declared context registered
  && eqb (scope_owner (dbase_scope d)) (OwnerRun (run_run_id run))
  && (scope_generation (dbase_scope d) =? run_generation run)%Z
  && eqb (reopen_request_id request) (MkIdentity ("operation:" +:+ root (dbase_decision_id d)))
  && match normalized_scope_reopen normalizations with
     | None => false
     | Some normalization =>
         eqb (Some normalization) (registered_scope_reopen registered)
         && eqb (norm_attempt normalization) (reopen_attempt request)
         && eqb (norm_park_authority normalization) (closure_authority closure)
         && eqb (closure_disposition closure) ClosureDisposition.PARK
     end.

(** [_reopen_proved] *)
Definition reopen_proved (context : SchedulingContext) (request : AttemptReopenRequest) : bool :=
  match owner_of context (reopen_attempt request) with
  | None => false
  | Some owner =>
      match attempt_closure owner with
      | None => false
      | Some closure =>
          if negb (eqb (attempt_phase owner) AttemptPhase.PARKED)
             || negb (eqb (attempt_release_dependencies owner) [])
             || reopen_replayed context request
          then false
          else
            match accepted_decision context (reopen_decision_id request) with
            | Some (Operation d _ normalizations registered) =>
                reopen_authority context request closure d normalizations registered
            | _ => false
            end
      end
  end.

(** [_admission_proved] *)
Definition admission_proved (state : SchedulingState) (context : SchedulingContext)
    (request : AdmissionRequest) (registering : option AttemptRequest) : bool :=
  match request with
  | AdmitReopen request => reopen_proved context request
  | AdmitStart request =>
      match owner_of context (start_target request) with
      | None => eqb (Some request) registering
      | Some owner =>
          eqb (attempt_phase owner) AttemptPhase.QUEUED && is_none (attempt_closure owner)
          && is_none (validate_start state context request)
      end
  end.

(** [_deadline_retirements] *)
Definition deadline_retirements (state : SchedulingState) (context : SchedulingContext)
    : list Signal :=
  let run := schctx_run context in
  let live_run := among (run_status run) [RunStatus.RUNNING; RunStatus.PAUSED] in
  if flt (run_now_at run) (run_deadline_at run)
     || negb ((live_run && is_none (run_result run)) || stop_draining run)
  then []
  else
    map (fun request =>
           RetireRequested (target_of request) ClosureDisposition.CANCEL
             (MkIdentity ("deadline:" +:+ root (admission_decision_id request)))
             (admission_decision_id request) (run_now_at run))
        (List.filter (fun request => admission_proved state context request None)
                     (sched_queue state)).

(** [any(...)] whose test may raise *)
Fixpoint any_result {A : Type} (p : A -> result string bool) (l : list A) : result string bool :=
  match l with
  | [] => Ok false
  | x :: l' => let* hit := p x in if hit : bool then Ok true else any_result p l'
  end.

(** [_fits] *)
Definition fits (state : SchedulingState) (context : SchedulingContext) (request : AdmissionRequest)
    : result string bool :=
  let exclusive target admission_id :=
    let* mode := admission_mode context target admission_id in
    Ok (eqb mode WorkspaceMode.EXCLUSIVE_ROOT) in
  if any (fun slot => eqb (aref_attempt_id (slot_attempt slot)) (aref_attempt_id (target_of request)))
         (sched_slots state)
  then Ok false
  else if (parallel_limit (schctx_run context) <=? Z.of_nat (length (sched_slots state)))%Z
  then Ok false
  else if any (fun slot => any (fun pool => among pool (slot_pools slot)) (admission_pools request))
              (sched_slots state)
  then Ok false
  else
    let* own := exclusive (target_of request) (admission_decision_id request) in
    if negb own then Ok true
    else if fences_root_mutation (schctx_settlement context) (schctx_records context)
    then Ok false
    else
      let* held := any_result (fun slot => exclusive (slot_attempt slot) (slot_admission_id slot))
                              (sched_slots state) in
      Ok (negb held).

(** The slot an admitted request takes *)
Definition slot_for (context : SchedulingContext) (request : AdmissionRequest) : Slot :=
  {| slot_attempt := target_of request; slot_admission_id := admission_decision_id request;
     slot_pools := admission_pools request; slot_admitted_at := run_now_at (schctx_run context);
     slot_charge_ended_at := None |}.

(** One turn of the loop of [_fill]: the head leaves the queue for a slot. *)
Definition take_slot (context : SchedulingContext) (state : SchedulingState) (request : AdmissionRequest)
    (rest : list AdmissionRequest) : SchedulingState :=
  state <| sched_queue := rest |> <| sched_slots := (sched_slots state ++ [slot_for context request])%list |>.

(** The loop of [_fill], over the queue it empties *)
Fixpoint fill_loop (context : SchedulingContext) (registering : option AttemptRequest)
    (queue : list AdmissionRequest) (state : SchedulingState)
    : result string (SchedulingState * list Signal) :=
  match queue with
  | [] => Ok (state, [])
  | head :: rest =>
      if negb (accepting context) || negb (admission_proved state context head registering)
      then Ok (state, [])
      else
        let* fitting := fits state context head in
        if negb fitting then Ok (state, [])
        else
          let* filled := fill_loop context registering rest (take_slot context state head rest) in
          Ok (filled.1, AdmitAttempt head :: filled.2)
  end.

(** Whether [_fill] ends with [RunDrained] *)
Definition drained (state : SchedulingState) (context : SchedulingContext) : bool :=
  sched_admission_closed state && eqb (sched_queue state) [] && eqb (sched_slots state) []
  && eqb (run_status (schctx_run context)) RunStatus.CLOSING
  && not_none (first_stop context).

(** [_fill] *)
Definition fill (state : SchedulingState) (context : SchedulingContext)
    (registering : option AttemptRequest) (retire_expired : bool)
    : result string (AreaChange SchedulingState) :=
  let retirements := if retire_expired then deadline_retirements state context else [] in
  let* filled := fill_loop context registering (sched_queue state) state in
  let signals := (retirements ++ filled.2 ++ if drained filled.1 context then [RunDrained] else [])%list in
  Ok {| change_state := filled.1; change_signals := signals; change_requests := [];
        change_events := [] |}.

(** [_existing_duplicate] *)
Definition existing_duplicate (state : SchedulingState) (context : SchedulingContext)
    (request : AdmissionRequest) : option (AreaChange SchedulingState) :=
  match request with
  | AdmitReopen reopening => if reopen_replayed context reopening then Some (only state) else None
  | AdmitStart start =>
      match owner_of context (start_target start) with
      | Some owner =>
          if negb (eqb (attempt_phase owner) AttemptPhase.QUEUED)
          then Some (reject state request RejectionCode.OWNERSHIP "attempt already registered")
          else None
      | None => None
      end
  end.

(** The loops of [_duplicate] over the queue and over the slots *)
Fixpoint queue_duplicate (state : SchedulingState) (request : AdmissionRequest)
    (queue : list AdmissionRequest) : option (AreaChange SchedulingState) :=
  match queue with
  | [] => None
  | queued :: rest =>
      if eqb (admission_decision_id queued) (admission_decision_id request)
      then Some (if eqb queued request then only state
                 else reject state request RejectionCode.IDENTITY_CONFLICT "queued payload changed")
      else if eqb (target_of queued) (target_of request)
      then Some (reject state request RejectionCode.OWNERSHIP "attempt already queued")
      else queue_duplicate state request rest
  end.
Definition slot_duplicate (state : SchedulingState) (request : AdmissionRequest)
    : option (AreaChange SchedulingState) :=
  match next_such (fun slot => eqb (slot_attempt slot) (target_of request)) (sched_slots state) with
  | None => None
  | Some slot =>
      Some (if eqb (slot_admission_id slot) (admission_decision_id request)
               && eqb (slot_pools slot) (admission_pools request)
            then only state
            else reject state request RejectionCode.OWNERSHIP "attempt already occupies capacity")
  end.

(** [_duplicate] *)
Definition duplicate (state : SchedulingState) (context : SchedulingContext)
    (request : AdmissionRequest) : option (AreaChange SchedulingState) :=
  match queue_duplicate state request (sched_queue state) with
  | Some change => Some change
  | None =>
      match slot_duplicate state request with
      | Some change => Some change
      | None => existing_duplicate state context request
      end
  end.

(** Whether [_enqueue] refuses intake *)
Definition intake_closed (state : SchedulingState) (context : SchedulingContext) : bool :=
  let run := schctx_run context in
  sched_admission_closed state
  || among (run_status run) [RunStatus.CLOSING; RunStatus.BLOCKED; RunStatus.TERMINAL]
  || not_none (run_result run)
  || fle (run_deadline_at run) (run_now_at run).

(** A start whose attempt has no owner: it is registered as it is queued. *)
Definition unregistered (context : SchedulingContext) (request : AdmissionRequest)
    : option AttemptRequest :=
  match request with
  | AdmitStart start => if is_none (owner_of context (start_target start)) then Some start else None
  | AdmitReopen _ => None
  end.

(** [_enqueue] *)
Definition enqueue (state : SchedulingState) (context : SchedulingContext)
    (request : AdmissionRequest) : result string (AreaChange SchedulingState) :=
  let invalid := match request with
                 | AdmitStart start => validate_start state context start
                 | AdmitReopen _ => None
                 end in
  match invalid with
  | Some change => Ok change
  | None =>
      match duplicate state context request with
      | Some change => Ok change
      | None =>
          let registering := unregistered context request in
          if intake_closed state context
          then Ok (reject state request RejectionCode.CLOSED_SCOPE "admission is closed")
          else if match registering with
                  | Some start => (remaining state context <? areq_admission_charge start)%Z
                  | None => false
                  end
          then Ok (reject state request RejectionCode.BUDGET "admission budget exhausted")
          else if match request with
                  | AdmitReopen reopening => negb (reopen_proved context reopening)
                  | AdmitStart _ => false
                  end
          then Ok (reject state request RejectionCode.OWNERSHIP
                     "reentry requires declared canonical operation and exact park authority")
          else
            require* distinct (admission_pools request) else "pools" in
            let queued := state <| sched_queue := (sched_queue state ++ [request])%list |> in
            let* filled := fill queued context registering true in
            let registrations := match registering with
                                 | Some start => [RegisterAttempt start]
                                 | None => []
                                 end in
            Ok (filled <| change_signals := (registrations ++ change_signals filled)%list |>)
      end
  end.

(** [_end_charge] *)
Definition end_charge (state : SchedulingState) (attempt : AttemptRef) (admission_id : DecisionId)
    (ended_at : float) : result string (AreaChange SchedulingState) :=
  let* slots := rmap (fun slot =>
    if negb (slot_is attempt admission_id slot) || not_none (slot_charge_ended_at slot)
    then Ok slot
    else
      require* negb (flt ended_at (slot_admitted_at slot)) else "ended_at" in
      Ok (slot <| slot_charge_ended_at := Some ended_at |>)) (sched_slots state) in
  Ok (only (state <| sched_slots := slots |>)).

(** The state [_release] leaves, the slot released *)
Definition released (state : SchedulingState) (context : SchedulingContext) (slot : Slot)
    : SchedulingState :=
  let ended := default (run_now_at (schctx_run context)) (slot_charge_ended_at slot) in
  state <| sched_slots := List.filter (fun held => negb (eqb held slot)) (sched_slots state) |>
        <| sched_released_slot_seconds :=
             fadd (sched_released_slot_seconds state)
                  (fmax fzero (fsub ended (slot_admitted_at slot))) |>.

(** [_release] *)
Definition release (state : SchedulingState) (context : SchedulingContext) (attempt : AttemptRef)
    (admission_id : DecisionId) : result string (AreaChange SchedulingState) :=
  match next_such (slot_is attempt admission_id) (sched_slots state) with
  | None => Ok (only state)
  | Some slot => fill (released state context slot) context None true
  end.

(** The episodes [_cancel] retires *)
Definition episodes (state : SchedulingState) : list (AttemptRef * DecisionId) :=
  map (fun slot => (slot_attempt slot, slot_admission_id slot)) (sched_slots state)
  ++ map (fun request => (target_of request, admission_decision_id request)) (sched_queue state).
Definition unclosed (context : SchedulingContext) (episode : AttemptRef * DecisionId) : bool :=
  match owner_of context episode.1 with
  | None => false
  | Some owner =>
      match attempt_closure owner with
      | None => true
      | Some closure => negb (eqb (closure_admission_id closure) episode.2)
      end
  end.

(** [_cancel] *)
Definition cancel_stop (state : SchedulingState) (context : SchedulingContext)
    : option (list Signal) :=
  let run := schctx_run context in
  if negb (eqb (run_status run) RunStatus.CLOSING) then None
  else
    match first_stop context with
    | None => None
    | Some decision =>
        if negb (eqb (stop_mode run) (Some StopMode.CANCEL)) then None
        else
          let retire episode :=
            RetireRequested episode.1 ClosureDisposition.CANCEL
              (MkIdentity ("stop:" +:+ root (dbase_decision_id decision) +:+ ":" +:+ root episode.2))
              episode.2 (run_now_at run) in
          Some (RunJobsCancelRequested (dbase_scope decision) (dbase_decision_id decision)
                :: map retire (List.filter (unclosed context) (episodes state)))
    end.

(** [_stop_replay] *)
Definition stop_replay (state : SchedulingState) (context : SchedulingContext)
    : option (AreaChange SchedulingState) :=
  match committed_stops context with
  | [] | [_] => None
  | _ :: later :: rest =>
      let refused := List.last rest later in
      Some {| change_state := state; change_signals := []; change_requests := [];
              change_events :=
                [FeedbackEvent (Rejected (dbase_decision_id refused) RejectionCode.CLOSED_SCOPE
                   [Field "run"; Field "result"]
                   "first committed stop retains its result and disposition" None)] |}
  end.

(** [_run_sessions_drain] *)
Definition run_sessions_drain (context : SchedulingContext) : result string (list Signal) :=
  match first_stop context with
  | None => Ok []
  | Some stop =>
      let* _ := run_scope_ok (dbase_scope stop) in
      Ok [RunSessionsDrainRequested (dbase_scope stop) (dbase_decision_id stop)]
  end.

(** [_control] *)
Definition control_admission (state : SchedulingState) (context : SchedulingContext)
    (action : AdmissionAction) : result string (AreaChange SchedulingState) :=
  let run := schctx_run context in
  require* negb (eqb action AdmissionAction.PAUSE && negb (eqb (run_status run) RunStatus.PAUSED))
    else "admission_control.run.status" in
  if eqb action AdmissionAction.RESUME
  then if negb (eqb (run_status run) RunStatus.RUNNING) || not_none (run_result run)
       then Ok (only state)
       else fill (state <| sched_admission_closed := false |>) context None true
  else
    match stop_replay state context with
    | Some refusal => Ok refusal
    | None =>
        match (if eqb action AdmissionAction.CANCEL then cancel_stop state context else Some []) with
        | None => Ok (only state)
        | Some cancellations =>
            let closed := state <| sched_admission_closed := true |> in
            if eqb action AdmissionAction.PAUSE then Ok (only closed)
            else
              let* filled := fill closed context None true in
              let* draining := run_sessions_drain context in
              Ok (filled <| change_signals :=
                              (cancellations ++ draining ++ change_signals filled)%list |>)
        end
    end.

(** [_retired_entry] *)
Definition retired_entry (attempt : AttemptRef) (admission_id : DecisionId)
    (request : AdmissionRequest) : bool :=
  eqb (target_of request) attempt && eqb (admission_decision_id request) admission_id.

(** [_ready] *)
Definition ready (state : SchedulingState) (context : SchedulingContext) (attempt : AttemptRef)
    (admission_id : DecisionId) : AreaChange SchedulingState :=
  let valid :=
    match owner_of context attempt with
    | None => false
    | Some owner =>
        eqb (attempt_phase owner) AttemptPhase.ACTIVE
        && eqb (attempt_admission_id owner) (Some admission_id)
        && is_none (attempt_closure owner)
        && any (fun slot => slot_is attempt admission_id slot && is_none (slot_charge_ended_at slot))
               (sched_slots state)
    end in
  {| change_state := state; change_signals := []; change_requests := [];
     change_events := if valid then [AttemptReadyEvent attempt admission_id] else [] |}.

(** [schedule] *)
Definition schedule (state : SchedulingState) (context : SchedulingContext) (event : SchedulingEvent)
    : result string (AreaChange SchedulingState) :=
  match event with
  | AttemptRequested request => enqueue state context (AdmitStart request)
  | AttemptReopenRequested request => enqueue state context (AdmitReopen request)
  | SlotChargeEnded attempt admission_id ended_at => end_charge state attempt admission_id ended_at
  | SlotReleased attempt admission_id => release state context attempt admission_id
  | AttemptReady attempt admission_id => Ok (ready state context attempt admission_id)
  | QueueEntryRetired attempt admission_id =>
      fill (state <| sched_queue :=
              List.filter (fun request => negb (retired_entry attempt admission_id request))
                          (sched_queue state) |>) context None false
  | ClockAdvanced now_at =>
      let now := run_now_at (schctx_run context) in
      require* negb (flt now_at now) else "now_at" in
      let* filled := fill state context None true in
      Ok (filled <| change_signals :=
                      (change_signals filled ++ [ObservationsDue now]
                       ++ map ToRecords (due_retries (schctx_records context) now))%list |>)
  | AdmissionControl action => control_admission state context action
  | FenceLifted | ParallelLimitChanged => fill state context None true
  end.
End Scheduling.
