(* ===== verification/SchedulingSafe.v ===== *)
(** * What admission guarantees

    The properties of [Scheduling]: capacity, pools and the exclusive root are never given twice,
    admission is first in, first out and leaves no admissible head waiting, a start is registered
    only within the budget, a replayed or late fact changes nothing, and an event raises only for
    the reasons it names. *)

From S2P Require Import Prelude PyFloat Identities Values Requests Records State Control Proofs.
From S2P Require Import Answers Adoption Forward Ledger Scheduling Samples.

Section Safe.
Context `{Digests} `{SelectionDigest}.
Local Open Scope Z_scope.

(** ** The loop of [fill] *)

(** What lets a head leave the queue *)
Definition admissible (context : SchedulingContext) (registering : option AttemptRequest)
    (state : SchedulingState) (request : AdmissionRequest) : Prop :=
  accepting context = true /\ admission_proved state context request registering = true
  /\ fits state context request = Ok true.

(** The states the loop goes through: each admits the head of the queue. *)
Inductive Fills (context : SchedulingContext) (registering : option AttemptRequest)
    : SchedulingState -> list AdmissionRequest -> SchedulingState -> Prop :=
  | FillsDone state : Fills context registering state [] state
  | FillsHead state head rest admitted state' :
      sched_queue state = head :: rest -> admissible context registering state head ->
      Fills context registering (take_slot context state head rest) admitted state' ->
      Fills context registering state (head :: admitted) state'.

Lemma fill_loop_fills context registering queue : forall state state' signals,
  fill_loop context registering queue state = Ok (state', signals) -> sched_queue state = queue ->
  exists admitted, Fills context registering state admitted state'
                   /\ signals = map AdmitAttempt admitted.
Proof.
  induction queue as [|head rest IH]; intros state state' signals; simpl.
  - intros [= <- <-] _. exists []. split; [constructor|done].
  - destruct (negb (accepting context) || _) eqn:Hg.
    { intros [= <- <-] _. exists []. split; [constructor|done]. }
    intros (fitting & Hf & E)%rbind_Ok Hq. destruct fitting; simpl in E.
    + apply rbind_Ok in E as ([mid sigs] & Hl & E). injection E as <- <-.
      destruct (IH _ _ _ Hl eq_refl) as (admitted & Hfills & ->). exists (head :: admitted).
      split; [|done]. to_prop. by econstructor.
    + injection E as <- <-. exists []. split; [constructor|done].
Qed.

(** When the loop stops, the head of what is left is not admissible. *)
Lemma fill_loop_stops context registering queue : forall state state' signals,
  fill_loop context registering queue state = Ok (state', signals) -> sched_queue state = queue ->
  forall head rest, sched_queue state' = head :: rest -> ~ admissible context registering state' head.
Proof.
  induction queue as [|head rest IH]; intros state state' signals; simpl.
  - intros [= <- <-] Hq ? ? E. congruence.
  - destruct (negb (accepting context) || _) eqn:Hg.
    { intros [= <- <-] Hq ? ? E (Ha & Hp & _). rewrite Hq in E. injection E as <- <-.
      by rewrite Ha, Hp in Hg. }
    intros (fitting & Hf & E)%rbind_Ok Hq. destruct fitting; simpl in E.
    + apply rbind_Ok in E as ([mid sigs] & Hl & E). injection E as <- <-. by eapply IH.
    + injection E as <- <-. intros ? ? E (_ & _ & Hf'). rewrite Hq in E. injection E as <- <-.
      congruence.
Qed.

Lemma fills_shape context registering state admitted state' :
  Fills context registering state admitted state' ->
  sched_queue state = admitted ++ sched_queue state'
  /\ sched_slots state' = sched_slots state ++ map (slot_for context) admitted
  /\ sched_admission_closed state' = sched_admission_closed state
  /\ sched_released_slot_seconds state' = sched_released_slot_seconds state.
Proof.
  induction 1 as [state|state head rest admitted state' Hq _ _ (IHq & IHs & IHc & IHr)].
  - by rewrite app_nil_r.
  - rewrite Hq, IHs, IHc, IHr. simpl in *. rewrite <- IHq, <- app_assoc. done.
Qed.

Lemma fills_keep context registering (P : SchedulingState -> Prop) state admitted state' :
  (forall s head rest, P s -> sched_queue s = head :: rest -> admissible context registering s head ->
     P (take_slot context s head rest)) ->
  Fills context registering state admitted state' -> P state -> P state'.
Proof. intros Hstep. induction 1; eauto. Qed.

(** ** What a request must pass to fit *)

Ltac case_if name :=
  match goal with |- context [if ?b then _ else _] => destruct b eqn:name end.

Lemma any_result_false {A} (p : A -> result string bool) l :
  any_result p l = Ok false -> Forall (fun x => p x = Ok false) l.
Proof.
  induction l as [|x l IH]; simpl; [by constructor|].
  intros ([|] & Hx & E)%rbind_Ok; [done|]. constructor; [done|by apply IH].
Qed.

Definition exclusive_slot (context : SchedulingContext) (slot : Slot) : bool :=
  match admission_mode context (slot_attempt slot) (slot_admission_id slot) with
  | Ok mode => eqb mode WorkspaceMode.EXCLUSIVE_ROOT
  | Err _ => false
  end.

Lemma fits_spec state context request :
  fits state context request = Ok true ->
  (forall slot, slot ∈ sched_slots state ->
     aref_attempt_id (slot_attempt slot) <> aref_attempt_id (target_of request)
     /\ forall pool, pool ∈ admission_pools request -> pool ∉ slot_pools slot)
  /\ Z.of_nat (length (sched_slots state)) < parallel_limit (schctx_run context)
  /\ (exclusive_slot context (slot_for context request) = true ->
      fences_root_mutation (schctx_settlement context) (schctx_records context) = false
      /\ Forall (fun slot => exclusive_slot context slot = false) (sched_slots state)).
Proof.
  unfold fits. case_if Hid; [done|]. case_if Hlimit; [done|]. case_if Hpool; [done|].
  intros (own & Hown & E)%rbind_Ok. repeat split.
  - eapply any_false in Hid; [|done]. by apply eqb_neq in Hid.
  - intros pool Hp Hin. eapply any_false in Hpool; [|done]. eapply any_false in Hpool; [|done].
    apply among_false in Hpool. done.
  - lia.
  - unfold exclusive_slot in H1. simpl in H1. apply rbind_Ok in Hown as (mode & Hm & Hown).
    rewrite Hm in H1. injection Hown as <-. rewrite H1 in E. simpl in E.
    by destruct (fences_root_mutation _ _).
  - unfold exclusive_slot in H1. simpl in H1. apply rbind_Ok in Hown as (mode & Hm & Hown).
    rewrite Hm in H1. injection Hown as <-. rewrite H1 in E. simpl in E.
    destruct (fences_root_mutation _ _); [done|]. apply rbind_Ok in E as (held & Hh & E).
    destruct held; [done|]. eapply Forall_impl; [by apply any_result_false|].
    intros slot Hs. unfold exclusive_slot. simpl in Hs.
    apply rbind_Ok in Hs as (m & -> & Hs). by injection Hs as ->.
Qed.

(** ** What an event does *)

(** The state an event fills, and the start it registers as it queues it *)
Inductive Prepares (state : SchedulingState) (context : SchedulingContext)
    : SchedulingEvent -> SchedulingState -> option AttemptRequest -> Prop :=
  | Queues event request :
      event = match request with
              | AdmitStart start => AttemptRequested start
              | AdmitReopen reopening => AttemptReopenRequested reopening
              end ->
      match request with AdmitStart start => validate_start state context start = None | _ => True end ->
      duplicate state context request = None -> intake_closed state context = false ->
      match unregistered context request with
      | Some start => areq_admission_charge start <= remaining state context
      | None => True
      end ->
      NoDup (admission_pools request) ->
      Prepares state context event (state <| sched_queue := sched_queue state ++ [request] |>)
        (unregistered context request)
  | Ticks event : (event = FenceLifted \/ event = ParallelLimitChanged
                   \/ exists now, event = ClockAdvanced now) ->
      Prepares state context event state None
  | Controls action closed :
      Prepares state context (AdmissionControl action) (state <| sched_admission_closed := closed |>) None
  | Releases attempt admission_id slot :
      next_such (slot_is attempt admission_id) (sched_slots state) = Some slot ->
      Prepares state context (SlotReleased attempt admission_id) (released state context slot) None
  | Retires attempt admission_id :
      Prepares state context (QueueEntryRetired attempt admission_id)
        (state <| sched_queue := List.filter (fun r => negb (retired_entry attempt admission_id r))
                                             (sched_queue state) |>) None.

(** An event that fills nothing: the queue stays, the slots stay but for the end of a charge. *)
Definition uncharged (slot : Slot) : Slot := slot <| slot_charge_ended_at := None |>.
Record Leaves (state : SchedulingState) (change : AreaChange SchedulingState) : Prop := {
  leaves_queue : sched_queue (change_state change) = sched_queue state;
  leaves_slots : map uncharged (sched_slots (change_state change)) = map uncharged (sched_slots state);
  leaves_signals : change_signals change = []
}.

Definition beside (context : SchedulingContext) (registering : option AttemptRequest)
    (state : SchedulingState) (signal : Signal) : Prop :=
  match signal with
  | AdmitAttempt _ => False
  | RegisterAttempt start => registering = Some start
  | RunDrained => drained state context = true
  | _ => True
  end.

(** An event that fills: the heads it admits, and what it sends beside the admissions *)
Inductive Filled (context : SchedulingContext) (registering : option AttemptRequest)
    (filling : SchedulingState) (change : AreaChange SchedulingState) : Prop :=
  | Filling admitted before after :
      Fills context registering filling admitted (change_state change) ->
      (forall head rest, sched_queue (change_state change) = head :: rest ->
         ~ admissible context registering (change_state change) head) ->
      change_signals change = before ++ map AdmitAttempt admitted ++ after ->
      Forall (beside context registering (change_state change)) before ->
      Forall (beside context registering (change_state change)) after ->
      Filled context registering filling change.

Lemma retirements_quiet state context registering state' :
  Forall (beside context registering state') (deadline_retirements state context).
Proof.
  unfold deadline_retirements. destruct (_ || _); [constructor|].
  apply Forall_forall. by intros ? (? & -> & _)%list_elem_of_fmap.
Qed.

Lemma fill_filled state context registering retire change :
  fill state context registering retire = Ok change -> Filled context registering state change.
Proof.
  unfold fill. intros ([state' signals] & E & [= <-])%rbind_Ok.
  destruct (fill_loop_fills _ _ _ _ _ _ E eq_refl) as (admitted & Hf & ->).
  eapply (Filling _ _ _ _ admitted); [exact Hf| |done| |].
  - by eapply fill_loop_stops.
  - destruct retire; [apply retirements_quiet|constructor].
  - simpl. destruct (drained state' context) eqn:Hd; [constructor; [exact Hd|constructor]|constructor].
Qed.

(** A fill whose signals are put between others *)
Lemma filled_around context registering state filled change before after :
  Filled context registering state filled -> change_state change = change_state filled ->
  change_signals change = before ++ change_signals filled ++ after ->
  Forall (beside context registering (change_state change)) before ->
  Forall (beside context registering (change_state change)) after ->
  Filled context registering state change.
Proof.
  intros [admitted b a Hf Hst Hs Hqb Hqa] Hstate Hsig Hb Ha. rewrite Hstate in Hb, Ha.
  apply (Filling _ _ _ _ admitted (before ++ b) (a ++ after)); rewrite ?Hstate; try done;
    [by rewrite Hsig, Hs, <- !app_assoc|by apply Forall_app..].
Qed.

Lemma leaves_same state events requests :
  Leaves state {| change_state := state; change_signals := []; change_requests := requests;
                  change_events := events |}.
Proof. done. Qed.

Lemma duplicate_leaves state context request change :
  duplicate state context request = Some change -> change_state change = state /\ change_signals change = [].
Proof.
  unfold duplicate. destruct (queue_duplicate _ _ _) as [c|] eqn:Hq.
  { intros [= <-]. revert Hq. induction (sched_queue state) as [|queued rest IH]; simpl; [done|].
    destruct (eqb _ _); [destruct (eqb _ _); by intros [= <-]|].
    destruct (eqb _ _); [by intros [= <-]|done]. }
  destruct (slot_duplicate _ _) as [c|] eqn:Hs.
  { intros [= <-]. revert Hs. unfold slot_duplicate. destruct (next_such _ _); [|done].
    destruct (_ && _); by intros [= <-]. }
  unfold existing_duplicate. destruct request; [|destruct (reopen_replayed _ _); by intros [= <-]].
  destruct (owner_of _ _); [|done]. destruct (negb _); by intros [= <-].
Qed.

Lemma validate_leaves state context start change :
  validate_start state context start = Some change -> change_state change = state /\ change_signals change = [].
Proof.
  unfold validate_start. intros E. repeat case_match; simplify_eq; done.
Qed.

Lemma leaves_of state change :
  change_state change = state -> change_signals change = [] -> Leaves state change.
Proof. intros <- ?. done. Qed.

Lemma enqueue_cases state context request change :
  enqueue state context request = Ok change ->
  Leaves state change
  \/ exists filling registering,
       Prepares state context
         match request with
         | AdmitStart start => AttemptRequested start
         | AdmitReopen reopening => AttemptReopenRequested reopening
         end filling registering
       /\ Filled context registering filling change.
Proof.
  unfold enqueue. case_match eqn:Hv.
  { intros [= <-]. left. destruct request; [|done]. apply validate_leaves in Hv as []. by apply leaves_of. }
  destruct (duplicate _ _ _) eqn:Hd.
  { intros [= <-]. left. apply duplicate_leaves in Hd as []. by apply leaves_of. }
  destruct (intake_closed _ _) eqn:Hc; [intros [= <-]; by left|].
  destruct (match unregistered _ _ with Some _ => _ | None => _ end) eqn:Hb; [intros [= <-]; by left|].
  destruct (match request with AdmitStart _ => false | _ => _ end) eqn:Hp; [intros [= <-]; by left|].
  destruct (distinct _) eqn:Hn; [|done]. simpl. intros (filled & Hf & E)%rbind_Ok. injection E as <-. right.
  eexists _, _. split.
  - apply Queues; try done; [by destruct request| |by apply bool_decide_eq_true in Hn].
    destruct (unregistered _ _); [lia|done].
  - eapply (filled_around _ _ _ _ _ _ []); [by eapply fill_filled|done|by rewrite app_nil_r| |done].
    destruct (unregistered _ _); by repeat constructor.
Qed.

Lemma end_charge_leaves state attempt admission_id ended_at change :
  end_charge state attempt admission_id ended_at = Ok change -> Leaves state change.
Proof.
  unfold end_charge. intros (slots & Hs%rmap_Ok & [= <-])%rbind_Ok. split; simpl; [done| |done].
  induction Hs as [|slot slot' l l' Hslot _ IH]; [done|]. simpl. rewrite IH. f_equal.
  destruct (_ || _) in Hslot; [by injection Hslot as <-|].
  destruct (negb _) in Hslot; [|done]. injection Hslot as <-. done.
Qed.

Lemma control_cases state context action change :
  control_admission state context action = Ok change ->
  Leaves state change
  \/ exists closed, Filled context None (state <| sched_admission_closed := closed |>) change.
Proof.
  unfold control_admission. destruct (negb _); [|done]. simpl.
  destruct (eqb action AdmissionAction.RESUME).
  { destruct (_ || _); [intros [= <-]; by left|]. intros Hf. right. eexists. by eapply fill_filled. }
  destruct (stop_replay _ _) eqn:Hr.
  { intros [= <-]. left. unfold stop_replay in Hr. repeat case_match; simplify_eq; by apply leaves_of. }
  set (cancellations := if eqb action AdmissionAction.CANCEL then _ else _).
  assert (forall signals, cancellations = Some signals ->
            forall s, Forall (beside context None s) signals) as Hc.
  { unfold cancellations, cancel_stop. intros signals E s. repeat case_match; simplify_eq; try done.
    constructor; [done|]. apply Forall_forall. by intros ? (? & -> & _)%list_elem_of_fmap. }
  destruct cancellations as [signals|]; [|intros [= <-]; by left].
  destruct (eqb action AdmissionAction.PAUSE); [intros [= <-]; by left|].
  intros (filled & Hf & E)%rbind_Ok. apply rbind_Ok in E as (draining & Hd & [= <-]).
  right. eexists. eapply (filled_around _ _ _ _ _ (signals ++ draining) []);
    [by eapply fill_filled|done|by rewrite app_nil_r, <- app_assoc| |done].
  apply Forall_app. split; [by apply Hc|]. unfold run_sessions_drain in Hd.
  destruct (first_stop _); [|by injection Hd as <-].
  apply rbind_Ok in Hd as (_ & _ & [= <-]). by repeat constructor.
Qed.

(** Every event leaves the queue and the slots, or fills a state it prepared. *)
Lemma schedule_cases state context event change :
  schedule state context event = Ok change ->
  Leaves state change
  \/ exists filling registering, Prepares state context event filling registering
                                 /\ Filled context registering filling change.
Proof.
  destruct event as [start|reopening|attempt id|attempt id|attempt id ended|attempt id|now|action| |]; simpl.
  - apply enqueue_cases.
  - apply enqueue_cases.
  - intros [= <-]. by left.
  - unfold release. destruct (next_such _ _) as [slot|] eqn:Hs; [|intros [= <-]; by left].
    intros Hf. right. eexists _, _. split; [by apply Releases|by eapply fill_filled].
  - intros Hf. left. by eapply end_charge_leaves.
  - intros Hf. right. eexists _, _. split; [apply Retires|by eapply fill_filled].
  - destruct (negb _); [|done]. simpl. intros (filled & Hf & E)%rbind_Ok. injection E as <-. right. eexists _, _.
    split; [apply Ticks; eauto|].
    eapply (filled_around _ _ _ _ _ []); [by eapply fill_filled|done|done|done|].
    constructor; [done|]. apply Forall_forall. by intros ? (? & -> & _)%list_elem_of_fmap.
  - intros [?|(closed & ?)]%control_cases; [by left|]. right. eexists _, _. split; [apply Controls|done].
  - intros Hf. right. eexists _, _. split; [apply Ticks; eauto|by eapply fill_filled].
  - intros Hf. right. eexists _, _. split; [apply Ticks; eauto|by eapply fill_filled].
Qed.

(** ** Capacity *)

(** What no two slots share: the attempt and the pools *)
Definition slot_key (slot : Slot) : AttemptId := aref_attempt_id (slot_attempt slot).
Definition capacity_kept (state : SchedulingState) : Prop :=
  NoDup (map slot_key (sched_slots state)) /\ NoDup (flat_map slot_pools (sched_slots state))
  /\ Forall (fun request => NoDup (admission_pools request)) (sched_queue state).

Lemma uncharged_slots {B} (f : Slot -> B) l l' :
  (forall slot, f (uncharged slot) = f slot) -> map uncharged l = map uncharged l' -> map f l = map f l'.
Proof.
  intros Hf E. rewrite <- (map_ext _ _ Hf l), <- (map_ext _ _ Hf l').
  by rewrite <- !(map_map uncharged f), E.
Qed.

Lemma sublist_capacity state state' :
  sched_slots state' `sublist_of` sched_slots state ->
  Forall (fun request => NoDup (admission_pools request)) (sched_queue state') ->
  capacity_kept state -> capacity_kept state'.
Proof.
  intros Hs Hq (Hk & Hp & _). split; [|split; [|done]].
  - eapply sublist_NoDup; [done|]. exact Hk.
  - eapply list.sublist_NoDup; [done|by apply flat_map_sublist].
Qed.

Lemma prepares_capacity state context event filling registering :
  Prepares state context event filling registering -> capacity_kept state -> capacity_kept filling.
Proof.
  intros Hp Hc. pose proof Hc as (_ & _ & Hq). destruct Hp; try done.
  - apply (sublist_capacity state); [done| |done]. simpl. apply Forall_app. split; [done|by repeat constructor].
  - apply (sublist_capacity state); [apply filterb_sublist|done|done].
  - apply (sublist_capacity state); [done| |done]. apply Forall_forall. intros r [Hr _]%elem_of_filterb.
    by eapply Forall_forall in Hq.
Qed.

Lemma admit_capacity context registering state head rest :
  capacity_kept state -> sched_queue state = head :: rest -> admissible context registering state head ->
  capacity_kept (take_slot context state head rest).
Proof.
  intros (Hk & Hp & Hq) E (_ & _ & (Hfree & _ & _)%fits_spec). rewrite E in Hq.
  apply Forall_cons in Hq as [Hhead Hq]. split; [|split; [|done]]; simpl.
  - rewrite map_app. apply NoDup_app. split; [done|]. split; [|apply NoDup_singleton].
    intros key (slot & -> & Hs)%list_elem_of_fmap Hkey%list_elem_of_singleton.
    by destruct (Hfree slot Hs) as [[] _].
  - rewrite flat_map_app. simpl. rewrite app_nil_r. apply NoDup_app. split; [done|]. split; [|done].
    intros pool (slot & Hs & Hin)%list_elem_of_In%in_flat_map Hpool.
    destruct (Hfree slot) as [_ Hno]; [by apply list_elem_of_In|]. apply (Hno pool Hpool).
    by apply list_elem_of_In.
Qed.

(** C16: no two slots are ever held by one attempt or claim one pool: every event keeps the
    attempts of the slots distinct and their pools disjoint. *)
Theorem capacity_never_shared state context event change :
  capacity_kept state -> schedule state context event = Ok change ->
  capacity_kept (change_state change).
Proof.
  intros Hc [[Hq Hs _]|(filling & registering & Hp & [admitted b a Hf _ _ _ _])]%schedule_cases.
  - destruct Hc as (Hk & Hpools & Hqueue). split; [|split].
    + by erewrite uncharged_slots; [| |exact Hs].
    + rewrite flat_map_concat_map in *. by erewrite uncharged_slots; [| |exact Hs].
    + by rewrite Hq.
  - eapply fills_keep; [|exact Hf|by eapply prepares_capacity].
    intros s head rest Hs Hhead Hadm. by eapply admit_capacity.
Qed.

Lemma leaves_length state change :
  Leaves state change -> length (sched_slots (change_state change)) = length (sched_slots state).
Proof.
  intros [_ Hs _]. by rewrite <- (length_map uncharged), Hs, length_map.
Qed.

Lemma prepares_slots state context event filling registering :
  Prepares state context event filling registering ->
  sched_slots filling `sublist_of` sched_slots state.
Proof. destruct 1; try done. apply filterb_sublist. Qed.

(** The slots never outnumber the parallel limit in force by an admission: an event leaves at
    most the limit, or no more than there were when the limit is lowered below them. *)
Theorem slots_within_limit state context event change :
  schedule state context event = Ok change ->
  Z.of_nat (length (sched_slots (change_state change)))
  <= Z.max (Z.of_nat (length (sched_slots state))) (parallel_limit (schctx_run context)).
Proof.
  intros [Hl|(filling & registering & Hp & [admitted b a Hf _ _ _ _])]%schedule_cases.
  - rewrite (leaves_length _ _ Hl). lia.
  - apply prepares_slots, sublist_length in Hp.
    apply (fills_keep context registering
      (fun s => Z.of_nat (length (sched_slots s))
                <= Z.max (Z.of_nat (length (sched_slots state))) (parallel_limit (schctx_run context)))
      filling admitted); [|done|lia].
    intros s head rest _ _ (_ & _ & (_ & Hlimit & _)%fits_spec). simpl. rewrite length_app. simpl. lia.
Qed.

Definition exclusive_slots (context : SchedulingContext) (state : SchedulingState) : list Slot :=
  List.filter (exclusive_slot context) (sched_slots state).

(** The run's root is held once: every event leaves at most one slot of an exclusive-root
    attempt, and while an adoption fences the root no event admits another. *)
Theorem root_is_exclusive state context event change :
  (length (exclusive_slots context state) <= 1)%nat ->
  schedule state context event = Ok change ->
  (length (exclusive_slots context (change_state change)) <= 1)%nat
  /\ (fences_root_mutation (schctx_settlement context) (schctx_records context) = true ->
      (length (exclusive_slots context (change_state change))
       <= length (exclusive_slots context state))%nat).
Proof.
  intros Hone [[_ Hs _]|(filling & registering & Hp & [admitted b a Hf _ _ _ _])]%schedule_cases.
  - enough (length (exclusive_slots context (change_state change))
            = length (exclusive_slots context state)) by lia.
    unfold exclusive_slots. revert Hs. generalize (sched_slots (change_state change)) (sched_slots state).
    intros l. induction l as [|x l IH]; intros [|y l'] E; try done. simpl in E.
    assert (exclusive_slot context x = exclusive_slot context y) as Hxy.
    { change (exclusive_slot context (uncharged x) = exclusive_slot context (uncharged y)). congruence. }
    injection E as _ E. simpl. rewrite Hxy. destruct (exclusive_slot context y); simpl;
      [f_equal|]; by apply IH.
  - assert (length (exclusive_slots context filling) <= length (exclusive_slots context state))%nat as Hle.
    { apply prepares_slots in Hp. unfold exclusive_slots.
      induction Hp as [|x l l' _ IH|x l l' _ IH]; simpl; [done| |];
        destruct (exclusive_slot context x); simpl; lia. }
    apply (fills_keep context registering
      (fun s => (length (exclusive_slots context s) <= 1)%nat
         /\ (fences_root_mutation (schctx_settlement context) (schctx_records context) = true ->
             (length (exclusive_slots context s) <= length (exclusive_slots context state))%nat))
      filling admitted); [|done|lia].
    intros s head rest [IH1 IH2] _ (_ & _ & (_ & _ & Hroot)%fits_spec).
    unfold exclusive_slots in *. simpl. rewrite List.filter_app, length_app. simpl.
    destruct (exclusive_slot context (slot_for context head)) eqn:Hx; simpl; [|lia].
    destruct (Hroot eq_refl) as [Hfence Hnone]. split; [|by rewrite Hfence].
    assert (List.filter (exclusive_slot context) (sched_slots s) = []) as ->; [|simpl; lia].
    clear -Hnone. induction Hnone as [|slot l Hs _ IH]; simpl; [done|]. by rewrite Hs.
Qed.

(** ** Order *)

(** The requests an event admits, in the order of its signals *)
Definition admissions (signals : list Signal) : list AdmissionRequest :=
  flat_map (fun signal => match signal with AdmitAttempt request => [request] | _ => [] end) signals.

Lemma admissions_quiet context registering state signals :
  Forall (beside context registering state) signals -> admissions signals = [].
Proof. induction 1 as [|s l Hs _ IH]; [done|]. unfold admissions in *. simpl. by destruct s. Qed.

Lemma admissions_of admitted : admissions (map AdmitAttempt admitted) = admitted.
Proof. induction admitted as [|r l IH]; [done|]. unfold admissions in *. simpl. by rewrite IH. Qed.

Lemma filled_admissions context registering filling change :
  Filled context registering filling change ->
  Fills context registering filling (admissions (change_signals change)) (change_state change).
Proof.
  intros [admitted b a Hf _ Hs Hb Ha]. rewrite Hs. unfold admissions. rewrite !flat_map_app.
  fold (admissions b) (admissions a) (admissions (map AdmitAttempt admitted)).
  by rewrite (admissions_quiet _ _ _ _ Hb), (admissions_quiet _ _ _ _ Ha), admissions_of, app_nil_r.
Qed.

(** What an event does to the queue before it admits: it may append its own request, or retire the
    entry it names. *)
Inductive Intake (queue : list AdmissionRequest) : list AdmissionRequest -> Prop :=
  | Same : Intake queue queue
  | Appended request : Intake queue (queue ++ [request])
  | Without attempt admission_id :
      Intake queue (List.filter (fun r => negb (retired_entry attempt admission_id r)) queue).

(** C17: admission is first in, first out: what an event admits is exactly a prefix of the queue it
    found, its own request last, each head given a slot behind the slots that were held, and the
    rest of the queue waits in its order. *)
Theorem admission_is_fifo state context event change :
  schedule state context event = Ok change ->
  exists queue, Intake (sched_queue state) queue
    /\ queue = admissions (change_signals change) ++ sched_queue (change_state change)
    /\ exists held, held `sublist_of` map uncharged (sched_slots state)
       /\ map uncharged (sched_slots (change_state change))
          = held ++ map (slot_for context) (admissions (change_signals change)).
Proof.
  intros [[Hq Hs Hsig]|(filling & registering & Hp & Hf)]%schedule_cases.
  - exists (sched_queue state). rewrite Hsig, Hq, Hs. split; [constructor|split; [done|]].
    exists (map uncharged (sched_slots state)). by rewrite app_nil_r.
  - apply filled_admissions, fills_shape in Hf as (Hqueue & Hslots & _).
    exists (sched_queue filling). split; [destruct Hp; constructor|]. split; [done|].
    exists (map uncharged (sched_slots filling)). split.
    + apply map_sublist. by eapply prepares_slots.
    + rewrite Hslots, map_app, map_map. done.
Qed.

(** C18: no admissible head is left waiting: after an event that frees or opens capacity, retires a
    queue entry or ticks the clock, the head of the queue is one that may not be admitted now. *)
Theorem no_admissible_head_waits state context event change head rest :
  schedule state context event = Ok change ->
  match event with
  | QueueEntryRetired _ _ | ClockAdvanced _ | FenceLifted | ParallelLimitChanged => True
  | SlotReleased attempt admission_id => any (slot_is attempt admission_id) (sched_slots state) = true
  | _ => False
  end ->
  sched_queue (change_state change) = head :: rest ->
  accepting context = true -> admission_proved (change_state change) context head None = true ->
  fits (change_state change) context head <> Ok true.
Proof.
  intros E Hev Hq Ha Hp Hf.
  assert (exists s, Filled context None s change) as (s & [admitted b a _ Hstop _ _ _]);
    [|by apply (Hstop head rest Hq)].
  destruct event as [| | |attempt id| |attempt id|now| | |]; try done; simpl in E.
  - unfold release in E. apply any_true in Hev as (slot & Hin & Hslot).
    destruct (next_such _ _) as [found|] eqn:Hn; [eexists; by eapply fill_filled|].
    apply next_such_None with (x := slot) in Hn; [congruence|done].
  - eexists. by eapply fill_filled.
  - destruct (negb _); [|done]. simpl in E. apply rbind_Ok in E as (filled & Hfill & E). injection E as <-.
    exists state. eapply (filled_around _ _ _ _ _ []); [by eapply fill_filled|done|done|done|].
    constructor; [done|]. apply Forall_forall. by intros ? (? & -> & _)%list_elem_of_fmap.
  - eexists. by eapply fill_filled.
  - eexists. by eapply fill_filled.
Qed.

(** ** Budget *)

(** C19: a start is registered only within the budget: when an event asks the kernel to register one,
    its charge, what the queued unregistered starts reserve and what the attempts consumed together
    stay within the run's limit of attempts, and its command was accepted for it exactly. *)
Theorem registered_within_budget state context event change start :
  schedule state context event = Ok change -> RegisterAttempt start ∈ change_signals change ->
  0 < areq_admission_charge start ->
  areq_admission_charge start + foldr Z.add 0 (map (reserved_charge context) (sched_queue state))
  + admission_consumed (schctx_attempts context)
  <= limits_max_attempts (run_limits (schctx_run context))
  /\ validate_start state context start = None
  /\ owner_of context (start_target start) = None
  /\ intake_closed state context = false.
Proof.
  intros [[_ _ Hs]|(filling & registering & Hp & [admitted b a _ _ Hs Hb Ha])]%schedule_cases Hin;
    rewrite Hs in Hin; [by apply not_elem_of_nil in Hin|].
  assert (registering = Some start) as ->.
  { rewrite !elem_of_app in Hin. destruct Hin as [Hin|[Hin|Hin]].
    - exact (proj1 (Forall_forall _ _) Hb _ Hin).
    - by apply list_elem_of_fmap in Hin as (? & ? & _).
    - exact (proj1 (Forall_forall _ _) Ha _ Hin). }
  inversion Hp as [event' request Hev Hv _ Hc Hbudget _ Hevent Hfilling Hreg| | | |]; subst.
  rewrite Hreg in Hbudget. destruct request as [own|]; [|done]. unfold unregistered in Hreg.
  destruct (owner_of context (start_target own)) eqn:Ho; [done|]. injection Hreg as ->.
  unfold remaining, admission_remaining in Hbudget. split; [lia|done].
Qed.

(** ** Identity *)

(** Every attempt the scheduler knows of: those queued and those that hold a slot *)
Definition scheduled (state : SchedulingState) : list AttemptRef :=
  map target_of (sched_queue state) ++ map slot_attempt (sched_slots state).

Lemma queue_duplicate_None state request queue :
  queue_duplicate state request queue = None -> target_of request ∉ map target_of queue.
Proof.
  induction queue as [|queued rest IH]; simpl; [by intros _ ?%not_elem_of_nil|].
  destruct (eqb _ _); [done|]. destruct (eqb (target_of queued) _) eqn:Ht; [done|].
  intros Hn [E|Hin]%elem_of_cons; [|by apply IH]. apply eqb_neq in Ht. congruence.
Qed.

Lemma duplicate_None state context request :
  duplicate state context request = None -> target_of request ∉ scheduled state.
Proof.
  unfold duplicate. destruct (queue_duplicate _ _ _) eqn:Hq; [done|].
  destruct (slot_duplicate _ _) eqn:Hs; [done|]. intros _. unfold scheduled.
  apply queue_duplicate_None in Hq. intros [Hin|Hin]%elem_of_app; [done|].
  unfold slot_duplicate in Hs. destruct (next_such _ _) eqn:Hn; [done|].
  apply list_elem_of_fmap in Hin as (slot & E & Hin). apply next_such_None with (x := slot) in Hn; [|done].
  apply eqb_neq in Hn. congruence.
Qed.

Lemma prepares_scheduled state context event filling registering :
  Prepares state context event filling registering -> NoDup (scheduled state) -> NoDup (scheduled filling).
Proof.
  intros Hp Hnd. destruct Hp as [event request _ _ Hd%duplicate_None _ _ _|?|?|? ? slot|]; try done;
    unfold scheduled in *; simpl in *.
  - rewrite map_app, <- app_assoc. simpl. rewrite <- Permutation_middle. by apply NoDup_cons.
  - eapply list.sublist_NoDup; [exact Hnd|]. apply sublist_app; [done|].
    apply map_sublist, filterb_sublist.
  - eapply list.sublist_NoDup; [exact Hnd|]. apply sublist_app; [|done].
    apply map_sublist, filterb_sublist.
Qed.

(** An attempt is scheduled once: every event keeps the attempts queued and the attempts that
    hold a slot all distinct. *)
Theorem attempt_scheduled_once state context event change :
  NoDup (scheduled state) -> schedule state context event = Ok change ->
  NoDup (scheduled (change_state change)).
Proof.
  intros Hnd [[Hq Hs _]|(filling & registering & Hp & [admitted b a Hf _ _ _ _])]%schedule_cases.
  - unfold scheduled in *. rewrite Hq. by erewrite (uncharged_slots slot_attempt); [| |exact Hs].
  - apply (fills_keep context registering (fun s => NoDup (scheduled s)) filling admitted);
      [|exact Hf|by eapply prepares_scheduled].
    intros s head rest Hs Hhead _. unfold scheduled in *. rewrite Hhead in Hs. simpl in *.
    rewrite map_app. simpl. rewrite app_assoc, Permutation_app_comm. exact Hs.
Qed.

(** A request for an attempt already queued or holding a slot is answered without a change: it
    never raises, grants nothing and sends nothing, and the very request that is queued is not even
    refused. *)
Theorem repeated_request_changes_nothing state context request event :
  event = match request with
          | AdmitStart start => AttemptRequested start
          | AdmitReopen reopening => AttemptReopenRequested reopening
          end ->
  target_of request ∈ scheduled state ->
  exists change, schedule state context event = Ok change
    /\ change_state change = state /\ change_signals change = []
    /\ (NoDup (map admission_decision_id (sched_queue state)) -> NoDup (scheduled state) ->
        request ∈ sched_queue state ->
        match request with AdmitStart start => validate_start state context start = None | _ => True end ->
        change = only state).
Proof.
  intros -> Hin.
  enough (exists change, enqueue state context request = Ok change
    /\ change_state change = state /\ change_signals change = []
    /\ (NoDup (map admission_decision_id (sched_queue state)) -> NoDup (scheduled state) ->
        request ∈ sched_queue state ->
        match request with AdmitStart start => validate_start state context start = None | _ => True end ->
        change = only state)) by (by destruct request).
  unfold enqueue.
  destruct (match request with AdmitStart _ => _ | AdmitReopen _ => None end) as [change|] eqn:Hv.
  { exists change. split; [done|]. destruct request; [|done]. pose proof Hv as Hv'.
    apply validate_leaves in Hv' as []. repeat split; try done. congruence. }
  destruct (duplicate state context request) as [change|] eqn:Hd.
  2: { by apply duplicate_None in Hd. }
  exists change. split; [done|]. pose proof Hd as Hd'. apply duplicate_leaves in Hd' as [-> ->].
  repeat split. intros Hids Hnd Hqueued _. unfold duplicate in Hd.
  assert (queue_duplicate state request (sched_queue state) = Some (only state)) as Hq;
    [|rewrite Hq in Hd; congruence].
  apply NoDup_app in Hnd as (Htargets & _ & _). clear -Hids Htargets Hqueued.
  induction (sched_queue state) as [|queued rest IH]; [by apply not_elem_of_nil in Hqueued|].
  simpl in *. apply NoDup_cons in Hids as [Hid Hids], Htargets as [Ht Htargets].
  apply elem_of_cons in Hqueued as [->|Hqueued]; [by rewrite !eqb_refl|].
  destruct (eqb (admission_decision_id queued) _) eqn:E1.
  { apply eqb_eq in E1. destruct Hid. rewrite E1. by apply list_elem_of_fmap_2. }
  destruct (eqb (target_of queued) _) eqn:E2; [|by apply IH].
  apply eqb_eq in E2. destruct Ht. rewrite E2. by apply list_elem_of_fmap_2.
Qed.

(** A release frees exactly the slot of the episode it names: the other slots stay in their
    order, the interval of the episode is added to the released time once, and a release of an
    episode that holds no slot changes nothing. *)
Theorem release_frees_one_slot state context attempt admission_id change :
  NoDup (map slot_key (sched_slots state)) ->
  schedule state context (SlotReleased attempt admission_id) = Ok change ->
  match next_such (slot_is attempt admission_id) (sched_slots state) with
  | None => change = only state
  | Some slot =>
      exists before after, sched_slots state = before ++ slot :: after
        /\ sched_slots (change_state change)
           = before ++ after ++ map (slot_for context) (admissions (change_signals change))
        /\ sched_released_slot_seconds (change_state change)
           = fadd (sched_released_slot_seconds state)
               (fmax fzero (fsub (default (run_now_at (schctx_run context)) (slot_charge_ended_at slot))
                                 (slot_admitted_at slot)))
  end.
Proof.
  intros Hnd. simpl. unfold release. destruct (next_such _ _) as [slot|] eqn:Hs; [|by intros [= <-]].
  intros Hf%fill_filled%filled_admissions%fills_shape. destruct Hf as (_ & Hslots & _ & Hsec).
  apply next_such_Some in Hs as [Hin _]. apply list_elem_of_split in Hin as (before & after & E).
  exists before, after. rewrite Hslots, Hsec. split; [done|]. split; [|done]. simpl. rewrite E in Hnd |- *.
  rewrite map_app in Hnd. simpl in Hnd. apply NoDup_app in Hnd as (_ & Hb & [Ha _]%NoDup_cons).
  assert (forall l, slot_key slot ∉ map slot_key l ->
            List.filter (fun held => negb (eqb held slot)) l = l) as Hkeep.
  { induction l as [|x l IH]; simpl; [done|]. intros [Hx Hl]%not_elem_of_cons.
    destruct (eqb x slot) eqn:Ex; [apply eqb_eq in Ex; congruence|]. simpl. by rewrite IH. }
  rewrite List.filter_app. simpl. rewrite eqb_refl. simpl. rewrite !Hkeep; [by rewrite <- app_assoc|done|].
  intros Hbefore. apply (Hb _ Hbefore). by left.
Qed.

(** ** The end *)

(** The run is drained only once: core signals it only for a closing run with its first stop
    committed, admission closed and neither a queued nor a running episode left. *)
Theorem drained_run_is_empty state context event change :
  schedule state context event = Ok change -> RunDrained ∈ change_signals change ->
  sched_queue (change_state change) = [] /\ sched_slots (change_state change) = []
  /\ sched_admission_closed (change_state change) = true
  /\ run_status (schctx_run context) = RunStatus.CLOSING
  /\ first_stop context <> None.
Proof.
  intros [[_ _ Hs]|(filling & registering & Hp & [admitted b a _ _ Hs Hb Ha])]%schedule_cases Hin;
    rewrite Hs in Hin; [by apply not_elem_of_nil in Hin|].
  assert (drained (change_state change) context = true) as Hd.
  { rewrite !elem_of_app in Hin. destruct Hin as [Hin|[Hin|Hin]].
    - exact (proj1 (Forall_forall _ _) Hb _ Hin).
    - by apply list_elem_of_fmap in Hin as (? & ? & _).
    - exact (proj1 (Forall_forall _ _) Ha _ Hin). }
  unfold drained in Hd. to_prop. destruct (first_stop context); done.
Qed.

(** ** Errors *)

Lemma no_mismatch {T} checks (otherwise : Verdict T) value :
  identity_mismatch checks otherwise = Proven value ->
  otherwise = Proven value /\ Forall (fun check => check.2 = false) checks.
Proof.
  unfold identity_mismatch. destruct (next_such snd checks) as [[field b]|] eqn:Hn; [done|].
  intros E. split; [done|]. apply Forall_forall. by apply next_such_None.
Qed.

Lemma stop_scope_ok context stop : first_stop context = Some stop -> run_scope_ok (dbase_scope stop) = Ok tt.
Proof.
  unfold first_stop. destruct (committed_stop _) as [[[d mode] res]| |] eqn:E; [|done..]. intros [= ->].
  unfold committed_stop in E. destruct (next_such _ _) as [receipt|]; [|done].
  destruct (negb _); [done|]. destruct (accepted_receipt_for _ _); [|done..]. simpl in E.
  destruct (receipt_decision receipt) as [[]|]; try done. destruct (run_result _); [|done].
  apply no_mismatch in E as [E Hall]. injection E as -> _ _. apply Forall_cons in Hall as [Hscope _].
  simpl in Hscope. apply negb_false_iff, eqb_eq in Hscope. unfold run_scope_ok. by rewrite Hscope.
Qed.

Lemma filter_one_next {A} (p : A -> bool) l x : List.filter p l = [x] -> next_such p l = Some x.
Proof. induction l as [|y l IH]; simpl; [done|]. destruct (p y); [by intros [= -> _]|done]. Qed.

Lemma accepted_decision_first context ident command :
  accepted_decision context ident = Some command ->
  exists receipt, next_such (fun receipt => eqb (receipt_decision_id receipt) ident)
                    (run_receipts (schctx_run context)) = Some receipt
                  /\ receipt_decision receipt = Some command.
Proof.
  unfold accepted_decision, accepted_receipt_for.
  destruct (List.filter _ _) as [|receipt [|]] eqn:Hf; [done| |done].
  destruct (receipt_decision receipt) as [decision|] eqn:Hd; [|done].
  destruct (negb _); [done|]. destruct (identity_mismatch _ _) as [r| |] eqn:Hm; [|done..].
  apply no_mismatch in Hm as [Hp _]. unfold receipt_payload in Hp. rewrite Hd in Hp.
  destruct (differs _ _); [done|]. injection Hp as <-. intros E. exists receipt.
  split; [by apply filter_one_next|congruence].
Qed.

Definition mode_known (context : SchedulingContext) (target : AttemptRef) (id : DecisionId) : Prop :=
  exists mode, admission_mode context target id = Ok mode.
(** Every slot is of an attempt the kernel registered or of a start it accepted. *)
Definition modes_known (context : SchedulingContext) (state : SchedulingState) : Prop :=
  Forall (fun slot => mode_known context (slot_attempt slot) (slot_admission_id slot)) (sched_slots state).

Definition start_accepted (context : SchedulingContext) (registering : option AttemptRequest) : Prop :=
  forall start, registering = Some start ->
  exists d attempt_id item_id workspace budget sessions,
    accepted_decision context (areq_decision_id start)
    = Some (StartAttempt d attempt_id item_id workspace budget sessions).

Lemma validated_accepted state context start :
  validate_start state context start = None -> start_accepted context (Some start).
Proof.
  intros Hv own [= <-]. unfold validate_start in Hv.
  destruct (accepted_decision _ _) as [[]|]; try done. by repeat eexists.
Qed.

Lemma proved_mode state context request registering :
  start_accepted context registering -> admission_proved state context request registering = true ->
  mode_known context (target_of request) (admission_decision_id request).
Proof.
  intros Hreg Hp. unfold mode_known, admission_mode.
  destruct request as [start|reopening]; simpl in *.
  - destruct (owner_of context (start_target start)); [eauto|]. apply eqb_eq in Hp.
    destruct (Hreg start) as (d & a & i & w & b & s & Hd); [done|].
    apply accepted_decision_first in Hd as (receipt & -> & ->). eauto.
  - unfold reopen_proved in Hp. destruct (owner_of _ _); [eauto|done].
Qed.

Lemma any_result_total {A} (p : A -> result string bool) l :
  Forall (fun x => exists b, p x = Ok b) l -> exists b, any_result p l = Ok b.
Proof.
  induction 1 as [|x l [b Hb] _ [held IH]]; simpl; [eauto|]. rewrite Hb. simpl. destruct b; eauto.
Qed.

Lemma fits_total state context request :
  modes_known context state -> mode_known context (target_of request) (admission_decision_id request) ->
  exists fitting, fits state context request = Ok fitting.
Proof.
  intros Hslots [mode Hmode]. unfold fits. do 3 (case_if Hc; [eauto|clear Hc]).
  rewrite Hmode. simpl. destruct (negb _); [eauto|]. destruct (fences_root_mutation _ _); [eauto|].
  match goal with |- context [any_result ?p ?l] => destruct (any_result_total p l) as [held ->] end;
    [|simpl; eauto].
  eapply Forall_impl; [exact Hslots|]. intros slot [m Hm]. simpl. rewrite Hm. simpl. eauto.
Qed.

Lemma fill_loop_total context registering queue : forall state,
  start_accepted context registering -> modes_known context state ->
  exists filled, fill_loop context registering queue state = Ok filled.
Proof.
  induction queue as [|head rest IH]; intros state Hreg Hm; simpl; [eauto|].
  destruct (negb (accepting context) || _) eqn:Hg; [eauto|]. to_prop.
  assert (mode_known context (target_of head) (admission_decision_id head)) as Hk by (by eapply proved_mode).
  destruct (fits_total state context head) as [fitting ->]; [done|done|]. simpl.
  destruct (negb fitting); [eauto|].
  destruct (IH (take_slot context state head rest)) as [filled ->]; [done| |simpl; eauto].
  unfold modes_known. simpl. apply Forall_app. by repeat constructor.
Qed.

Lemma fill_total context registering state retire :
  start_accepted context registering -> modes_known context state ->
  exists filled, fill state context registering retire = Ok filled.
Proof.
  intros Hreg Hm. unfold fill.
  destruct (fill_loop_total context registering (sched_queue state) state) as [filled ->]; simpl; eauto.
Qed.

Lemma fill_known state context s retire :
  modes_known context state -> sched_slots s `sublist_of` sched_slots state ->
  exists filled, fill s context None retire = Ok filled.
Proof.
  intros Hm Hs. apply fill_total; [done|]. unfold modes_known in *.
  apply Forall_forall. intros slot Hin. eapply Forall_forall in Hm; [exact Hm|].
  eapply elem_of_submseteq; [exact Hin|by apply sublist_submseteq].
Qed.

Lemma enqueue_raises state context request error :
  modes_known context state -> enqueue state context request = Err error ->
  error = "pools"%string /\ ~ NoDup (admission_pools request).
Proof.
  intros Hm. unfold enqueue.
  destruct (match request with AdmitStart _ => _ | AdmitReopen _ => None end) eqn:Hv; [done|].
  destruct (duplicate _ _ _); [done|]. destruct (intake_closed _ _); [done|].
  destruct (match unregistered _ _ with Some _ => _ | None => _ end); [done|].
  destruct (match request with AdmitStart _ => false | _ => _ end); [done|].
  destruct (distinct _) eqn:Hd; simpl.
  - match goal with |- context [fill ?s _ ?r _] =>
      destruct (fill_total context r s true) as [filled ->] end; [|done|done].
    destruct request; simpl; [|done]. destruct (is_none _); [by eapply validated_accepted|done].
  - intros [= <-]. split; [done|]. by apply bool_decide_eq_false in Hd.
Qed.

Lemma end_charge_raises state attempt id ended error :
  end_charge state attempt id ended = Err error ->
  error = "ended_at"%string /\ exists slot, slot ∈ sched_slots state
    /\ slot_is attempt id slot = true /\ flt ended (slot_admitted_at slot) = true.
Proof.
  unfold end_charge. destruct (rmap _ _) as [|e] eqn:Hr; simpl; [done|]. intros [= <-].
  induction (sched_slots state) as [|slot l IH]; simpl in Hr; [done|].
  destruct (negb (slot_is attempt id slot) || _) eqn:Hs; simpl in Hr;
    [|destruct (flt ended _) eqn:Ht; simpl in Hr;
      [injection Hr as <-; split; [done|]; exists slot; to_prop; split; [by left|done]|]];
    destruct (rmap _ l) eqn:Hl; simpl in Hr; try done;
    destruct IH as (? & s & ? & ? & ?); try congruence; split; try done; exists s; split; [by right|done|by right|done].
Qed.

Lemma control_raises state context action error :
  modes_known context state -> control_admission state context action = Err error ->
  error = "admission_control.run.status"%string /\ action = AdmissionAction.PAUSE
  /\ run_status (schctx_run context) <> RunStatus.PAUSED.
Proof.
  intros Hm. unfold control_admission.
  destruct (eqb action AdmissionAction.PAUSE && _) eqn:Hp; simpl; [by intros [= <-]; to_prop|].
  destruct (eqb action AdmissionAction.RESUME).
  { destruct (_ || _); [done|].
    match goal with |- fill ?s _ _ _ = _ -> _ => destruct (fill_known state context s true) as [? ->] end; done. }
  destruct (stop_replay _ _); [done|].
  destruct (if eqb action AdmissionAction.CANCEL then _ else _); [|done].
  destruct (eqb action AdmissionAction.PAUSE); [done|].
  match goal with |- context [fill ?s _ _ _] =>
    destruct (fill_known state context s true) as [? ->] end; [done..|]. simpl.
  unfold run_sessions_drain. destruct (first_stop context) eqn:Hs; [|done].
  by rewrite (stop_scope_ok _ _ Hs).
Qed.

(** An admission never fails a step: as long as every slot is of an attempt the kernel knows,
    an event raises only for a request that names a pool twice, a charge that ends before its
    admission, a pause of a run that is not paused or a clock that runs back. *)
Theorem schedule_raises_only state context event error :
  modes_known context state -> schedule state context event = Err error ->
  match event with
  | AttemptRequested request => error = "pools"%string /\ ~ NoDup (areq_pools request)
  | AttemptReopenRequested request => error = "pools"%string /\ ~ NoDup (reopen_pools request)
  | SlotChargeEnded attempt admission_id ended_at =>
      error = "ended_at"%string
      /\ exists slot, slot ∈ sched_slots state /\ slot_is attempt admission_id slot = true
         /\ flt ended_at (slot_admitted_at slot) = true
  | ClockAdvanced now =>
      error = "now_at"%string /\ flt now (run_now_at (schctx_run context)) = true
  | AdmissionControl action =>
      error = "admission_control.run.status"%string /\ action = AdmissionAction.PAUSE
      /\ run_status (schctx_run context) <> RunStatus.PAUSED
  | _ => False
  end.
Proof.
  intros Hm. destruct event as [start|reopening|attempt id|attempt id|attempt id ended|attempt id|now|action| |];
    simpl; try (intros E; by eapply enqueue_raises in E); try (destruct (fill_known state context state true) as [? ->]; done).
  - done.
  - unfold release. destruct (next_such _ _) as [slot|]; [|done].
    destruct (fill_known state context (released state context slot) true) as [? ->]; [done|apply filterb_sublist|done].
  - apply end_charge_raises.
  - match goal with |- fill ?s _ _ _ = _ -> _ => destruct (fill_known state context s false) as [? ->] end;
      [done|done|done].
  - destruct (flt now _) eqn:Ht; simpl; [by intros [= <-]|].
    destruct (fill_known state context state true) as [? ->]; done.
  - by apply control_raises.
Qed.
End Safe.

(** ** A concrete run *)

#[local] Instance plain_digests : Digests :=
  {| digest_request := fun _ => ""%string; digest_command := fun _ => ""%string |}.
#[local] Instance plain_selection : SelectionDigest :=
  fun selection => root (revision_revision_id (selected_revision selection)).

Definition sample_start (name : string) : AttemptRequest :=
  {| areq_decision_id := MkIdentity name; areq_attempt_id := MkIdentity name;
     areq_item_id := MkIdentity "item"; areq_generation := 1; areq_admission_charge := 1;
     areq_pools := [MkIdentity name] |}.

(** The accepted command of that start, which takes the root for itself *)
Definition sample_start_receipt (name : string) : DecisionReceipt :=
  {| receipt_decision_id := MkIdentity name;
     receipt_decision := Some (StartAttempt {| dbase_decision_id := MkIdentity name;
                                               dbase_scope := sample_scope |}
       (MkIdentity name) (MkIdentity "item")
       {| wplan_mode := WorkspaceMode.EXCLUSIVE_ROOT; wplan_base := sample_revision;
          wplan_parked_predecessor := None |}
       {| budget_admission_charge := 1; budget_paid_invocation_limit := 1;
          budget_refund_limit := 0 |} []);
     receipt_until := None; receipt_limit := None; receipt_payload_digest := "";
     receipt_feedback := Accepted (MkIdentity name) [] [] None "[]";
     receipt_request_ids := []; receipt_completion := None |}.

Definition sample_scheduling_context (run : RunState) : SchedulingContext :=
  {| schctx_run := run <| run_receipts := [sample_start_receipt "a"; sample_start_receipt "b"] |>;
     schctx_attempts := []; schctx_records := core_records sample_running;
     schctx_sessions := core_sessions sample_running;
     schctx_settlement := core_settlement sample_running;
     schctx_evaluation := core_evaluation sample_running |}.
Definition sample_admitting : SchedulingContext := sample_scheduling_context sample_run.

Definition sample_idle : SchedulingState := core_scheduling sample_running.
Definition sample_admitted : AreaChange SchedulingState :=
  match schedule sample_idle sample_admitting (AttemptRequested (sample_start "a")) with
  | Ok change => change
  | Err _ => only sample_idle
  end.
(** The second start waits for the root the first one holds. *)
Definition sample_waiting : AreaChange SchedulingState :=
  match schedule (change_state sample_admitted) sample_admitting (AttemptRequested (sample_start "b")) with
  | Ok change => change
  | Err _ => only sample_idle
  end.
Definition sample_freed : AreaChange SchedulingState :=
  match schedule (change_state sample_waiting) sample_admitting
          (SlotReleased (start_target (sample_start "a")) (MkIdentity "a")) with
  | Ok change => change
  | Err _ => only sample_idle
  end.

Example first_start_admitted :
  change_signals sample_admitted
  = [RegisterAttempt (sample_start "a"); AdmitAttempt (AdmitStart (sample_start "a"))]
  /\ sched_queue (change_state sample_admitted) = []
  /\ length (sched_slots (change_state sample_admitted)) = 1%nat.
Proof. by vm_compute. Qed.

Example second_start_waits :
  change_signals sample_waiting = [RegisterAttempt (sample_start "b")]
  /\ sched_queue (change_state sample_waiting) = [AdmitStart (sample_start "b")].
Proof. by vm_compute. Qed.

Lemma capacity_never_shared_witness :
  capacity_kept sample_idle
  /\ schedule sample_idle sample_admitting (AttemptRequested (sample_start "a")) = Ok sample_admitted
  /\ capacity_kept (change_state sample_admitted).
Proof.
  assert (capacity_kept sample_idle) as Hc by (repeat split; constructor).
  split; [exact Hc|]. split; [vm_compute; reflexivity|].
  apply (capacity_never_shared sample_idle sample_admitting (AttemptRequested (sample_start "a"))
           sample_admitted Hc).
  vm_compute; reflexivity.
Defined.

Lemma slots_within_limit_witness :
  length (sched_slots (change_state sample_admitted)) = 1%nat
  /\ (Z.of_nat (length (sched_slots (change_state sample_admitted))) <= 2)%Z.
Proof.
  split; [reflexivity|].
  apply (slots_within_limit sample_idle sample_admitting (AttemptRequested (sample_start "a"))
           sample_admitted).
  vm_compute; reflexivity.
Defined.

Lemma root_is_exclusive_witness :
  length (exclusive_slots sample_admitting (change_state sample_waiting)) = 1%nat
  /\ (length (exclusive_slots sample_admitting (change_state sample_waiting)) <= 1)%nat.
Proof.
  split; [vm_compute; reflexivity|].
  destruct (root_is_exclusive (change_state sample_admitted) sample_admitting
              (AttemptRequested (sample_start "b")) sample_waiting) as [Hone _];
    [vm_compute; lia|vm_compute; reflexivity|exact Hone].
Defined.

Lemma admission_is_fifo_witness :
  admissions (change_signals sample_admitted) = [AdmitStart (sample_start "a")]
  /\ exists queue, Intake [] queue
     /\ queue = admissions (change_signals sample_admitted) ++ sched_queue (change_state sample_admitted).
Proof.
  split; [vm_compute; reflexivity|].
  destruct (admission_is_fifo sample_idle sample_admitting (AttemptRequested (sample_start "a"))
              sample_admitted) as (queue & Hi & Hq & _); [vm_compute; reflexivity|].
  exists queue. split; [exact Hi|exact Hq].
Defined.

(** Both attempts are registered by now, so the queued start has its owner. *)
Definition sample_owner (name : string) : AttemptView :=
  {| attempt_attempt_id := MkIdentity name; attempt_item_id := MkIdentity "item";
     attempt_generation := 1; attempt_phase := AttemptPhase.QUEUED;
     attempt_workspace := {| wplan_mode := WorkspaceMode.EXCLUSIVE_ROOT;
                             wplan_base := sample_revision; wplan_parked_predecessor := None |};
     attempt_base_input := None;
     attempt_budget := {| budget_admission_charge := 1; budget_paid_invocation_limit := 1;
                          budget_refund_limit := 0 |};
     attempt_admission_id := None; attempt_closure := None; attempt_checkpoints := [];
     attempt_charges :=
       [{| charge_charge_id := MkIdentity name; charge_kind := ChargeKind.ADMISSION;
           charge_invocation_id := None; charge_source_request := None; charge_charged := 1;
           charge_refunded := 0; charge_refund_sources := []; charge_historical_proof := None |}];
     attempt_parent := None; attempt_pending_records := []; attempt_sessions := [];
     attempt_release_dependencies := []; attempt_evaluation_history := "{}";
     attempt_terminal_reason := None; attempt_checkpoint_declines := [] |}.
Definition sample_registered : SchedulingContext :=
  {| schctx_run := schctx_run sample_admitting;
     schctx_attempts := [sample_owner "a"; sample_owner "b"];
     schctx_records := schctx_records sample_admitting;
     schctx_sessions := schctx_sessions sample_admitting;
     schctx_settlement := schctx_settlement sample_admitting;
     schctx_evaluation := schctx_evaluation sample_admitting |}.
Definition sample_tick : AreaChange SchedulingState :=
  match schedule (change_state sample_waiting) sample_registered (ClockAdvanced (seconds 11)) with
  | Ok change => change
  | Err _ => only sample_idle
  end.

Lemma no_admissible_head_waits_witness :
  sched_queue (change_state sample_tick) = [AdmitStart (sample_start "b")]
  /\ admission_proved (change_state sample_tick) sample_registered (AdmitStart (sample_start "b")) None = true
  /\ fits (change_state sample_tick) sample_registered (AdmitStart (sample_start "b")) <> Ok true.
Proof.
  split; [vm_compute; reflexivity|]. split; [vm_compute; reflexivity|].
  apply (no_admissible_head_waits (change_state sample_waiting) sample_registered
           (ClockAdvanced (seconds 11)) sample_tick (AdmitStart (sample_start "b")) []);
    vm_compute; reflexivity.
Defined.

Lemma registered_within_budget_witness :
  RegisterAttempt (sample_start "b") ∈ change_signals sample_waiting
  /\ validate_start (change_state sample_admitted) sample_admitting (sample_start "b") = None
  /\ (1 + 0 + 0 <= limits_max_attempts sample_limits)%Z.
Proof.
  assert (RegisterAttempt (sample_start "b") ∈ change_signals sample_waiting) as Hin by (vm_compute; left).
  split; [exact Hin|].
  edestruct (registered_within_budget (change_state sample_admitted) sample_admitting
               (AttemptRequested (sample_start "b")) sample_waiting (sample_start "b"))
    as (Hbudget & Hvalid & _); [vm_compute; reflexivity|exact Hin|vm_compute; reflexivity|].
  split; [exact Hvalid|]. exact Hbudget.
Defined.

Lemma attempt_scheduled_once_witness :
  scheduled (change_state sample_waiting) = [start_target (sample_start "b"); start_target (sample_start "a")]
  /\ NoDup (scheduled (change_state sample_waiting)).
Proof.
  split; [vm_compute; reflexivity|].
  apply (attempt_scheduled_once (change_state sample_admitted) sample_admitting
           (AttemptRequested (sample_start "b")) sample_waiting); [|vm_compute; reflexivity].
  vm_compute. apply NoDup_singleton.
Defined.

Lemma repeated_request_changes_nothing_witness :
  exists change,
    schedule (change_state sample_waiting) sample_admitting (AttemptRequested (sample_start "b")) = Ok change
    /\ change_state change = change_state sample_waiting /\ change_signals change = [].
Proof.
  destruct (repeated_request_changes_nothing (change_state sample_waiting) sample_admitting
              (AdmitStart (sample_start "b")) (AttemptRequested (sample_start "b")))
    as (change & E & Hs & Hsig & _); [reflexivity|vm_compute; left|].
  exists change. split; [exact E|]. split; [exact Hs|exact Hsig].
Defined.

Lemma release_frees_one_slot_witness :
  length (sched_slots (change_state sample_waiting)) = 1%nat
  /\ exists before after slot, sched_slots (change_state sample_waiting) = before ++ slot :: after
     /\ sched_slots (change_state sample_freed)
        = before ++ after ++ map (slot_for sample_admitting) (admissions (change_signals sample_freed)).
Proof.
  split; [reflexivity|].
  destruct (release_frees_one_slot (change_state sample_waiting) sample_admitting
              (start_target (sample_start "a")) (MkIdentity "a") sample_freed)
    as (before & after & E & E' & _);
    [vm_compute; apply NoDup_singleton|vm_compute; reflexivity|].
  exists before, after. eexists. split; [exact E|exact E'].
Defined.

(** A closing run whose only decision is the accepted end it commits *)
Definition sample_result : RunResultProposal :=
  {| result_outcome := RunOutcome.SUCCESS; result_reason := "done"; result_selection := None;
     result_uncompared := false |}.
Definition sample_closing : SchedulingContext :=
  let context := sample_admitting in
  {| schctx_run :=
       sample_run
         <| run_status := RunStatus.CLOSING |> <| run_result := Some sample_result |>
         <| run_receipts :=
              [{| receipt_decision_id := MkIdentity "end";
                  receipt_decision := Some (Finish {| dbase_decision_id := MkIdentity "end";
                                                      dbase_scope := sample_scope |}
                                                   StopMode.DRAIN sample_result);
                  receipt_until := None; receipt_limit := None; receipt_payload_digest := "";
                  receipt_feedback := Accepted (MkIdentity "end") [] [] None "[]";
                  receipt_request_ids := []; receipt_completion := None |}] |>;
     schctx_attempts := schctx_attempts context; schctx_records := schctx_records context;
     schctx_sessions := schctx_sessions context; schctx_settlement := schctx_settlement context;
     schctx_evaluation := schctx_evaluation context |}.
Definition sample_drained : AreaChange SchedulingState :=
  match schedule sample_idle sample_closing (AdmissionControl AdmissionAction.DRAIN) with
  | Ok change => change
  | Err _ => only sample_idle
  end.

Lemma drained_run_is_empty_witness :
  change_signals sample_drained
  = [RunSessionsDrainRequested sample_scope (MkIdentity "end"); RunDrained]
  /\ sched_admission_closed (change_state sample_drained) = true.
Proof.
  split; [vm_compute; reflexivity|].
  eapply (drained_run_is_empty sample_idle sample_closing (AdmissionControl AdmissionAction.DRAIN));
    [vm_compute; reflexivity|vm_compute; right; left].
Defined.

Lemma schedule_raises_only_witness :
  schedule (change_state sample_admitted) sample_admitting (ClockAdvanced (seconds 9)) = Err "now_at"%string
  /\ flt (seconds 9) (seconds 10) = true.
Proof.
  assert (schedule (change_state sample_admitted) sample_admitting (ClockAdvanced (seconds 9))
          = Err "now_at"%string) as E by (vm_compute; reflexivity).
  split; [exact E|].
  apply (schedule_raises_only (change_state sample_admitted) sample_admitting
           (ClockAdvanced (seconds 9)) "now_at"); [|exact E].
  repeat constructor. vm_compute. eauto.
Defined.
