(* ===== verification/Attempts.v ===== *)
(** * The attempts of open steps, as the log records them

    [libs/vs-core/src/vs_core/_step_attempts.py] and [_actions.py].  A record the fold refuses is
    an [Err] of its [RefusalReason]. *)

From S2P Require Import Prelude PyFloat Identities Values Requests Records State Control Clock.
From S2P Require Import Samples Proofs Permit Order.

Module RefusalReason.
Inductive RefusalReason : Set := NO_SEED | SEED_REPEATED | STEP_NOT_OPEN | START_NOT_DUE | ATTEMPT_MISMATCH | RUN_NOT_OVER | RESULT_MISMATCH | UNREADABLE.
End RefusalReason.
Abbreviation RefusalReason := RefusalReason.RefusalReason.
#[export] Instance RefusalReason_dec : EqDecision RefusalReason.
Proof. solve_decision. Defined.

Abbreviation fold_result := (result RefusalReason).

(** ** Actions *)

(** What [Settle] ends a step with: a result core decided without running it. *)
Inductive CoreResult : Set :=
  | FailedResult (failure : Failed)
  | CancelledResult (reason : CancelReason).

#[export] Instance CoreResult_dec : EqDecision CoreResult.
Proof. solve_decision. Defined.

Inductive Action : Set :=
  | Run (step : Request) (tag : RequestId) (attempt : Z) (deadline_at : float) (clear_first : bool)
  | Cancel (tag : RequestId) (reason : CancelReason)
  | Settle (tag : RequestId) (result : CoreResult)
  | Wait (until : option float)
  | Tick (at_ : float)
  | End (result : RunResultProposal).

#[export] Instance Action_dec : EqDecision Action.
Proof. solve_decision. Defined.

(** [OpenStep] *)
Record OpenStep := {
  openstep_step : Request;
  openstep_deadline_at : float;
  openstep_started : Z;
  openstep_unsettled : bool
}.
#[export] Instance OpenStep_dec : EqDecision OpenStep.
Proof. solve_decision. Defined.
#[export] Instance OpenStep_eta : Eta OpenStep := fun r => Build_OpenStep (openstep_step r)
  (openstep_deadline_at r) (openstep_started r) (openstep_unsettled r).

(** [interruption_of] *)
Definition interruption_of (reason : CancelReason) : option Interruption :=
  match reason with
  | CancelReason.PAUSE_NOW | CancelReason.DRAIN_EXPIRED => Some Interruption.PAUSE
  | CancelReason.DEADLINE | CancelReason.RUN_ENDING | CancelReason.WITHDRAWN
  | CancelReason.INTERRUPTED => None
  end.

Module RunRest.
Inductive RunRest : Set := ENDED | PARKED.
End RunRest.
Abbreviation RunRest := RunRest.RunRest.
#[export] Instance RunRest_dec : EqDecision RunRest.
Proof. solve_decision. Defined.

(** [at_rest] *)
Definition at_rest (state : CoreState) : option RunRest :=
  let run := core_run state in
  if not_none (run_result run) && eqb (steps_ended (core_steps state)) (run_result run)
  then Some RunRest.ENDED
  else if eqb (run_status run) RunStatus.PARKED then Some RunRest.PARKED else None.

(** ** Lookups *)

(** [open_record] *)
Definition open_record (state : CoreState) (tag : RequestId) : fold_result RequestRecord :=
  match find (core_records state) (Some tag) with
  | [record] => if is_open record then Ok record else Err RefusalReason.STEP_NOT_OPEN
  | _ => Err RefusalReason.STEP_NOT_OPEN
  end.

(** [ended_by_core] *)
Definition ended_by_core (state : CoreState) (tag : RequestId) : fold_result bool :=
  match find (core_records state) (Some tag) with
  | [record] => Ok (negb (is_open record))
  | _ => Err RefusalReason.STEP_NOT_OPEN
  end.

(** [open_step] *)
Definition open_step (state : CoreState) (tag : RequestId) : option OpenStep :=
  match find (core_records state) (Some tag) with
  | [record] =>
      if negb (is_open record) then None
      else
        let attempts := attempts_of (core_steps state) tag in
        Some {| openstep_step := rec_request record;
                openstep_deadline_at := until_at (rec_until record);
                openstep_started := match attempts with None => 0 | Some row => row_started row end;
                openstep_unsettled := match attempts with None => false | Some row => row_unsettled row end |}
  | _ => None
  end.

(** ** Updates *)

(** [_replaced] *)
Definition replaced (state : CoreState) (record : RequestRecord) : CoreState :=
  state <| core_records := replace_rows (core_records state) record |>.

(** [_with] *)
Definition with_row (state : CoreState) (tag : RequestId) (row : StepAttempts) : CoreState :=
  with_attempts state
    (List.filter (fun other => negb (eqb (row_tag other) tag)) (steps_attempts (core_steps state))
     ++ [row]).

(** [forgotten] *)
Definition forgotten (state : CoreState) (tag : RequestId) : CoreState :=
  with_attempts state
    (List.filter (fun other => negb (eqb (row_tag other) tag)) (steps_attempts (core_steps state))).

(** [unstarted] *)
Definition unstarted (state : CoreState) (record : RequestRecord) : RequestRecord :=
  let again := resent record (run_now_at (core_run state))
                 (limits_reconciliation_bound (run_limits (core_run state))) in
  match attempts_of (core_steps state) (rec_request_id record) with
  | Some row =>
      match row_deadline_at row with
      | Some deadline =>
          again <| rec_until := {| until_at := deadline;
                                   until_watches := until_watches (rec_until record) |} |>
      | None => again
      end
  | None => again
  end.

(** [_returned] *)
Definition returned (state : CoreState) (tag : RequestId) : fold_result CoreState :=
  let* record := open_record state tag in
  if eqb (rec_phase record) RequestPhase.PREPARED then Ok state
  else Ok (replaced state (unstarted state record)).

(** ** Epochs *)

(** [commands_lapsed] *)
Definition commands_lapsed (state : CoreState) : CoreState :=
  fold_left (fun state record =>
               if command_open record
               then replaced state (record <| rec_phase := RequestPhase.BLOCKED |>) else state)
            (rows_of state) state.

(** [_sent] *)
Definition sent (record : RequestRecord) : bool :=
  negb (eqb (rec_phase record) RequestPhase.PREPARED)
  || not_none (rec_dispatched_at record) || not_none (rec_dispatched_in record).

(** [_earlier_version_settled] *)
Definition earlier_version_settled (state : CoreState) : fold_result CoreState :=
  let state := commands_lapsed state in
  rfold (fun state record =>
           if is_open record && is_none (attempts_of (core_steps state) (rec_request_id record))
              && sent record
           then
             let first := {| row_tag := rec_request_id record; row_started := 1; row_ended := true;
                             row_uncharged := 1; row_unsettled := false;
                             row_deadline_at := Some (until_at (rec_until record));
                             row_charged_at := None |} in
             returned (with_row state (rec_request_id record) first) (rec_request_id record)
           else Ok state) state (rows_of state).

(** One attempt an earlier epoch left, in the loop of [epoch_opened] *)
Definition ended_row (parked : bool) (row : StepAttempts) : StepAttempts :=
  let running := negb (row_ended row) in
  row <| row_ended := true |>
      <| row_uncharged := row_uncharged row + (if running then 1 else 0) |>
      <| row_unsettled := row_unsettled row || (running && negb parked) |>.

Definition epoch_row (parked : bool) (acc : CoreState * list StepAttempts) (row : StepAttempts)
    : fold_result (CoreState * list StepAttempts) :=
  let '(state, rows) := acc in
  let* by_core := ended_by_core state (row_tag row) in
  if by_core then Ok (state, rows)
  else
    let* state := returned state (row_tag row) in
    Ok (state, rows ++ [ended_row parked row]).

(** [epoch_opened] *)
Definition epoch_opened (state : CoreState) (epoch : Z) : fold_result CoreState :=
  if epoch <=? steps_epoch (core_steps state) then Ok state
  else
    let origin := steps_epoch (core_steps state) =? 0 in
    let parked := eqb (run_status (core_run state)) RunStatus.PARKED in
    let* swept := rfold (epoch_row parked) (state, []) (steps_attempts (core_steps state)) in
    let state := with_attempts (fst swept) (snd swept) in
    let* state := if origin then earlier_version_settled state else Ok state in
    let counted := if origin then epoch else Z.max (ledger_epoch (core_records state)) epoch in
    let park :=
      match run_park (core_run state) with
      | Some park => if origin then Some (park <| park_epoch := Z.min (park_epoch park) (epoch - 1) |>)
                     else Some park
      | None => None
      end in
    Ok (state <| core_steps := (core_steps state) <| steps_epoch := epoch |> |>
              <| core_records := (core_records state) <| ledger_epoch := counted |> |>
              <| core_run := (core_run state) <| run_park := park |> |>).

(** ** Attempts *)

(** [started] *)
Definition started (state : CoreState) (tag : RequestId) (attempt : Z) (request : Request)
    (deadline : Until) : fold_result CoreState :=
  let* record := open_record state tag in
  let previous := attempts_of (core_steps state) tag in
  let expected := match previous with None => 1 | Some row => row_started row + 1 end in
  require* (attempt =? expected) && eqb (rec_request record) request
           && match previous with None => true | Some row => row_ended row end
    else RefusalReason.ATTEMPT_MISMATCH in
  let record :=
    if eqb (rec_phase record) RequestPhase.PREPARED
    then record <| rec_phase := RequestPhase.DISPATCHED |> <| rec_until := deadline |>
                <| rec_dispatched_at := Some (run_now_at (core_run state)) |>
    else record in
  let row :=
    {| row_tag := tag; row_started := attempt; row_ended := false;
       row_uncharged := match previous with None => 0 | Some row => row_uncharged row end;
       row_unsettled := false;
       row_deadline_at := match previous with
                          | None => Some (until_at deadline)
                          | Some row => row_deadline_at row
                          end;
       row_charged_at := match previous with None => None | Some row => row_charged_at row end |} in
  Ok (with_row (replaced state record) tag row).

(** [_lost] *)
Definition lost (state : CoreState) (tag : RequestId) (attempt : Z) (row : option StepAttempts)
    (by_core : bool) : fold_result CoreState :=
  match row with
  | Some row =>
      require* (row_started row =? attempt) && row_unsettled row
        else RefusalReason.ATTEMPT_MISMATCH in
      if by_core then Ok (forgotten state tag)
      else
        Ok (with_row state tag
              (row <| row_uncharged := row_uncharged row - 1 |> <| row_unsettled := false |>
                   <| row_charged_at := Some (run_now_at (core_run state)) |>))
  | None => Err RefusalReason.ATTEMPT_MISMATCH
  end.

(** [interrupted] *)
Definition interrupted (state : CoreState) (tag : RequestId) (attempt : Z) (why : Interruption)
    : fold_result CoreState :=
  let* by_core := ended_by_core state tag in
  let row := attempts_of (core_steps state) tag in
  if eqb why Interruption.LOST then lost state tag attempt row by_core
  else
    match row with
    | Some row =>
        require* (row_started row =? attempt) && negb (row_ended row)
          else RefusalReason.ATTEMPT_MISMATCH in
        if by_core then Ok (forgotten state tag)
        else
          let* state' := returned state tag in
          Ok (with_row state' tag
                (row <| row_ended := true |>
                     <| row_uncharged := row_uncharged row + (if interruption_charged why then 0 else 1) |>
                     <| row_charged_at := if interruption_charged why
                                          then Some (run_now_at (core_run state))
                                          else row_charged_at row |>))
    | None => Err RefusalReason.ATTEMPT_MISMATCH
    end.

(** [reported_by] *)
Definition reported_by (state : CoreState) (tag : RequestId) (attempt : Z) : fold_result unit :=
  let latest := match attempts_of (core_steps state) tag with
                | None => 0
                | Some row => row_started row
                end in
  ensure (attempt =? latest) RefusalReason.ATTEMPT_MISMATCH.

(** [dispatched] *)
Definition dispatched (state : CoreState) (tag : RequestId) : fold_result CoreState :=
  let* record := open_record state tag in
  if eqb (rec_phase record) RequestPhase.PREPARED
  then Ok (replaced state (record <| rec_phase := RequestPhase.DISPATCHED |>))
  else Ok state.

(** ** The run's end *)

(** [ended] *)
Definition ended (state : CoreState) (result : RunResultProposal) : fold_result CoreState :=
  require* eqb (run_result (core_run state)) (Some result) else RefusalReason.RUN_NOT_OVER in
  require* eqb (run_status (core_run state)) RunStatus.TERMINAL else RefusalReason.RUN_NOT_OVER in
  Ok (state <| core_steps := (core_steps state) <| steps_ended := Some result |> |>).

(** [end_lifted] *)
Definition end_lifted (state : CoreState) : CoreState :=
  if is_none (steps_ended (core_steps state)) || not_none (run_result (core_run state)) then state
  else state <| core_steps := (core_steps state) <| steps_ended := None |> |>.

(** ** Results core decides *)

(** [_speaks_for], of what [getattr] finds of a fact: its observation, scope and admission; the
    observation of an [Observation] is itself and must name the record. *)
Definition speaks_for (record : RequestRecord) (whole : bool) (observation : option Observation)
    (scope : option Scope) (admission_id : option (option DecisionId)) : fold_result unit :=
  let request := rec_request record in
  ensure
    (match scope with Some scope => eqb scope (req_scope request) | None => true end
     && match admission_id with
        | Some admission => eqb admission (req_admission_id request)
        | None => true
        end
     && match observation with
        | Some observation =>
            eqb (obs_scope observation) (req_scope request)
            && eqb (obs_admission_id observation) (req_admission_id request)
            && (negb whole || eqb (obs_request_id observation) (rec_request_id record))
        | None => true
        end) RefusalReason.RESULT_MISMATCH.

Definition reason_text (result : CoreResult) : string :=
  match result with
  | CancelledResult CancelReason.DEADLINE => "deadline"
  | CancelledResult CancelReason.PAUSE_NOW => "pause-now"
  | CancelledResult CancelReason.DRAIN_EXPIRED => "drain-expired"
  | CancelledResult CancelReason.RUN_ENDING => "run-ending"
  | CancelledResult CancelReason.WITHDRAWN => "withdrawn"
  | CancelledResult CancelReason.INTERRUPTED => "interrupted"
  | FailedResult failure =>
      match failed_reason failure with
      | FailureReason.TIMED_OUT => "timed-out"
      | FailureReason.WORKSPACE_CLOSED => "workspace-closed"
      | FailureReason.OWNER_GONE => "owner-gone"
      | FailureReason.REFUSED => "refused"
      | FailureReason.LOST => "lost"
      | FailureReason.INVALID_REPLY => "invalid-reply"
      | FailureReason.RENDER_FAILED => "render-failed"
      | FailureReason.TURN_FAILED => "turn-failed"
      | FailureReason.WAIT_REFUSED => "wait-refused"
      | FailureReason.QUEUE_BUDGET_SPENT => "queue-budget-spent"
      | FailureReason.OUT_OF_BUDGET => "out-of-budget"
      | FailureReason.MEASUREMENT_UNTRUSTED => "measurement-untrusted"
      | FailureReason.ATTEMPTS_EXHAUSTED => "attempts-exhausted"
      end
  end.

Definition is_cancelled (result : CoreResult) : bool :=
  match result with CancelledResult _ => true | FailedResult _ => false end.

(** [_concluded]: the observation it reports *)
Definition concluded (record : RequestRecord) (result : CoreResult) (now_at : float) : Observation :=
  {| obs_event_id := MkIdentity ("step-finished:" +:+ root (rec_request_id record));
     obs_request_id := rec_request_id record;
     obs_scope := req_scope (rec_request record);
     obs_sequence := match rec_observation record with
                     | None => 0
                     | Some prior => obs_sequence prior + 1
                     end;
     obs_observed_at := now_at;
     obs_status := if is_cancelled result then ObservationStatus.CANCELLED
                   else ObservationStatus.FAILED;
     obs_resource_id := None; obs_revision := None; obs_measured_input := None;
     obs_accepted := false; obs_terminal := true; obs_released := true; obs_children := [];
     obs_children_complete := true; obs_child_manifest := None;
     obs_admission_id := req_admission_id (rec_request record);
     obs_diagnostic := reason_text result |}.

(** [ended_failure] *)
Definition ended_failure (state : CoreState) (record : RequestRecord) (result : CoreResult)
    : option Failed :=
  let decision := req_decision_id (rec_request record) in
  match result with
  | FailedResult _ => None
  | CancelledResult CancelReason.DEADLINE =>
      Some ((failed_of FailureReason.TIMED_OUT decision)
              <| failed_limit_at := Some (until_at (rec_until record)) |>)
  | CancelledResult CancelReason.WITHDRAWN =>
      match fired_watch state record with
      | Some (watch, reason) =>
          Some ((failed_of reason decision) <| failed_watch := Some watch |>)
      | None => None
      end
  | CancelledResult _ => None
  end.

Section WithDigests.
Context `{Digests}.

(** [ended_unconcluded] *)
Definition ended_unconcluded (state : CoreState) : list RequestRecord :=
  List.filter (fun row => is_step row && negb (is_open row)) (unreleased_records state).
End WithDigests.

(** ** The records of attempts, as the log holds them *)

(** What the log says of attempts: a start, an interruption, the first record of a later
    epoch, and the finish that drops a step's attempts. *)
Inductive AttemptRecord : Set :=
  | Started (tag : RequestId) (attempt : Z) (request : Request) (deadline : Until)
  | Interrupted (tag : RequestId) (attempt : Z) (why : Interruption)
  | EpochOpened (epoch : Z)
  | Forgotten (tag : RequestId).

Definition apply_attempt (state : CoreState) (r : AttemptRecord) : fold_result CoreState :=
  match r with
  | Started tag attempt request deadline => started state tag attempt request deadline
  | Interrupted tag attempt why => interrupted state tag attempt why
  | EpochOpened epoch => epoch_opened state epoch
  | Forgotten tag => Ok (forgotten state tag)
  end.

(** ** What the ledger and the rows keep *)

(** The identity and the request of every record: no record of an attempt changes them. *)
Definition key (row : RequestRecord) : RequestId * Request := (rec_request_id row, rec_request row).
Definition keys (state : CoreState) : list (RequestId * Request) := map key (rows_of state).

Definition rows (state : CoreState) : list StepAttempts := steps_attempts (core_steps state).

(** The row's own numbers agree: attempts are numbered from 1, at most the ones that ended are
    uncharged, and only an attempt a dead host left uncharged is unsettled. *)
Definition row_ok (row : StepAttempts) : Prop :=
  1 <= row_started row /\ 0 <= row_uncharged row <= row_started row /\
  (row_ended row = false -> row_uncharged row < row_started row /\ row_unsettled row = false) /\
  (row_unsettled row = true -> 1 <= row_uncharged row).

(** The ledger names a request once ([_unique] refuses a second record of an identity). *)
Definition identified (state : CoreState) : Prop := NoDup (map fst (keys state)).

(** Every row names one step of the ledger. *)
Definition tracked (state : CoreState) : Prop :=
  forall row, row ∈ rows state -> row_tag row ∈ map fst (keys state).

Record attempts_wf (state : CoreState) : Prop := {
  wf_identified : identified state;
  wf_distinct : NoDup (map row_tag (rows state));
  wf_rows : Forall row_ok (rows state);
  wf_tracked : tracked state
}.

Lemma find_keys state tag :
  map key (find (core_records state) (Some tag))
  = filter (fun k => fst k = tag) (keys state).
Proof.
  rewrite find_scan. unfold keys, rows_of.
  induction (ledger_records (core_records state)) as [|row rows IH]; simpl; [done|].
  rewrite !filter_cons. simpl. case_decide; simpl; by rewrite IH.
Qed.

Lemma find_length state tag :
  length (find (core_records state) (Some tag)) = length (filter (fun k => fst k = tag) (keys state)).
Proof. by rewrite <- find_keys, length_map. Qed.

(** An identity of the ledger names one record. *)
Lemma find_one state tag :
  identified state -> tag ∈ map fst (keys state) ->
  exists record, find (core_records state) (Some tag) = [record].
Proof.
  intros Hnd Hin. apply list_elem_of_fmap in Hin as (k & -> & Hin).
  apply list_elem_of_fmap in Hin as (record & -> & Hin). exists record.
  rewrite find_scan. apply (filter_key_unique rec_request_id _ record); [|done]. unfold identified, keys in Hnd.
  by rewrite map_map in Hnd.
Qed.

Lemma find_single state tag record :
  find (core_records state) (Some tag) = [record] ->
  rec_request_id record = tag /\ record ∈ rows_of state.
Proof.
  intros E. assert (Hin : record ∈ find (core_records state) (Some tag))
    by (rewrite E; by left).
  rewrite find_scan in Hin. by apply list_elem_of_filter in Hin.
Qed.

Lemma open_record_Ok state tag record :
  open_record state tag = Ok record ->
  find (core_records state) (Some tag) = [record] /\ is_open record = true
  /\ rec_request_id record = tag.
Proof.
  unfold open_record. intros E. repeat destruct_match; simplify_eq.
  split; [done|]. split; [done|]. by eapply find_single.
Qed.

Lemma replaced_keys state record :
  identified state -> key record ∈ keys state -> keys (replaced state record) = keys state.
Proof.
  intros Hnd Hin. unfold keys, rows_of in *. simpl core_records. rewrite replace_rows_map, map_map.
  apply map_ext_in. intros row Hrow%list_elem_of_In. unfold swap. case_decide as E; [|done].
  apply (key_inj fst (keys state)); [done|done| |simpl; congruence].
  by apply list_elem_of_fmap_2.
Qed.

Lemma find_key_in state tag record :
  find (core_records state) (Some tag) = [record] -> key record ∈ keys state.
Proof. intros [_ Hin]%find_single. by apply list_elem_of_fmap_2. Qed.

Lemma rows_replaced state record : rows (replaced state record) = rows state.
Proof. done. Qed.

Lemma unstarted_key state record : key (unstarted state record) = key record.
Proof. unfold unstarted. by repeat destruct_match. Qed.

(** A state with the records, steps and clock of another, records' outcomes apart *)
Record same_ledger (state state' : CoreState) : Prop := {
  same_keys : keys state' = keys state;
  same_steps : core_steps state' = core_steps state;
  same_run : core_run state' = core_run state;
  same_epoch : ledger_epoch (core_records state') = ledger_epoch (core_records state)
}.

#[export] Instance same_ledger_preorder : PreOrder same_ledger.
Proof. split; [done|]. intros x y z [] []. split; congruence. Qed.

Lemma replaced_same state record :
  identified state -> key record ∈ keys state -> same_ledger state (replaced state record).
Proof. intros Hid Hin. split; [by apply replaced_keys|done..]. Qed.

(** Returning a step to unstarted changes neither the attempts nor who the records are. *)
Lemma returned_same state tag state' :
  identified state -> returned state tag = Ok state' -> same_ledger state state'.
Proof.
  intros Hid E. unfold returned in E. apply rbind_Ok in E as (record & Hrec & E).
  apply open_record_Ok in Hrec as (Hfind & _). destruct_match; simplify_eq; [done|].
  apply replaced_same; [done|]. rewrite unstarted_key. by eapply find_key_in.
Qed.

Lemma same_identified state state' : same_ledger state state' -> identified state -> identified state'.
Proof. unfold identified. by intros [-> _ _ _]. Qed.

Lemma elem_of_others tag (l : list StepAttempts) row :
  row ∈ List.filter (fun other => negb (eqb (row_tag other) tag)) l
  <-> row ∈ l /\ row_tag row <> tag.
Proof.
  by rewrite elem_of_filterb, negb_true_iff, eqb_false.
Qed.

Lemma others_NoDup tag (l : list StepAttempts) :
  NoDup (map row_tag l) ->
  NoDup (map row_tag (List.filter (fun other => negb (eqb (row_tag other) tag)) l)).
Proof.
  induction l as [|row l IH]; simpl; [done|]. intros [Hnew Hnd]%NoDup_cons.
  destruct (eqb (row_tag row) tag); simpl; [by apply IH|].
  apply NoDup_cons. split; [|by apply IH].
  intros (other & Heq & Hin)%list_elem_of_fmap. apply elem_of_others in Hin as [Hin _].
  apply Hnew. rewrite Heq. by apply list_elem_of_fmap_2.
Qed.

Lemma wf_forgotten state tag : attempts_wf state -> attempts_wf (forgotten state tag).
Proof.
  intros [Hid Hnd Hok Htr]. split; [done|by apply others_NoDup| |].
  - apply Forall_forall. intros row [Hrow _]%elem_of_others. by eapply Forall_forall in Hok.
  - intros row [Hrow _]%elem_of_others. by apply Htr.
Qed.

Lemma wf_with_row state tag row :
  attempts_wf state -> row_tag row = tag -> row_ok row -> tag ∈ map fst (keys state) ->
  attempts_wf (with_row state tag row).
Proof.
  intros [Hid Hnd Hok Htr] Htag Hrow Hin. split; [done| | |]; unfold rows; simpl.
  - rewrite map_app. simpl. apply NoDup_app. split; [by apply others_NoDup|]. split.
    + intros t Ht ->%list_elem_of_singleton. apply list_elem_of_fmap in Ht as (other & Ht & Ho).
      apply elem_of_others in Ho as [_ Hne]. congruence.
    + apply NoDup_singleton.
  - apply Forall_app. split; [|by apply Forall_singleton].
    apply Forall_forall. intros other [Ho _]%elem_of_others. by eapply Forall_forall in Hok.
  - intros other [[Ho _]%elem_of_others | ->%list_elem_of_singleton]%elem_of_app.
    + by apply Htr.
    + by rewrite Htag.
Qed.

Lemma wf_same state state' : same_ledger state state' -> attempts_wf state -> attempts_wf state'.
Proof.
  intros [Hkeys Hsteps _ _] [Hid Hnd Hok Htr].
  split; unfold identified, tracked, rows; by rewrite ?Hkeys, ?Hsteps.
Qed.

Lemma attempts_of_Some state tag row :
  attempts_of (core_steps state) tag = Some row -> row ∈ rows state /\ row_tag row = tag.
Proof.
  intros E. apply next_such_Some in E as [Hin Htag]. apply eqb_eq in Htag. by split.
Qed.

Lemma attempts_of_with_row state tag row other :
  row_tag row = tag ->
  attempts_of (core_steps (with_row state tag row)) other
  = if decide (other = tag) then Some row else attempts_of (core_steps state) other.
Proof.
  intros Htag. unfold attempts_of, with_row. simpl.
  induction (steps_attempts (core_steps state)) as [|r l IH]; simpl.
  - case_decide as E; unfold eqb.
    + by rewrite bool_decide_true by congruence.
    + by rewrite bool_decide_false by congruence.
  - destruct (eqb (row_tag r) tag) eqn:E; simpl.
    + apply eqb_eq in E. rewrite IH. case_decide; [done|]. unfold eqb.
      by rewrite bool_decide_false by congruence.
    + apply eqb_neq in E. rewrite IH. destruct (eqb (row_tag r) other) eqn:E'; [|done].
      apply eqb_eq in E'. by rewrite decide_False by congruence.
Qed.

Lemma attempts_of_forgotten state tag other :
  attempts_of (core_steps (forgotten state tag)) other
  = if decide (other = tag) then None else attempts_of (core_steps state) other.
Proof.
  unfold attempts_of, forgotten. simpl.
  induction (steps_attempts (core_steps state)) as [|r l IH]; simpl; [by case_decide|].
  destruct (eqb (row_tag r) tag) eqn:E; simpl.
  - apply eqb_eq in E. rewrite IH. case_decide; [done|]. unfold eqb.
    by rewrite bool_decide_false by congruence.
  - apply eqb_neq in E. rewrite IH. destruct (eqb (row_tag r) other) eqn:E'; [|done].
    apply eqb_eq in E'. by rewrite decide_False by congruence.
Qed.

Lemma wf_row state tag row :
  attempts_wf state -> attempts_of (core_steps state) tag = Some row ->
  row_ok row /\ row_tag row = tag /\ tag ∈ map fst (keys state).
Proof.
  intros Hwf [Hin <-]%attempts_of_Some. split; [|split; [done|by apply Hwf]].
  pose proof (wf_rows _ Hwf) as Hok. by eapply Forall_forall in Hok.
Qed.

(** ** Operations of one step *)

Definition expected_attempt (previous : option StepAttempts) : Z :=
  match previous with None => 1 | Some row => row_started row + 1 end.

Lemma started_Ok state tag attempt request deadline state' :
  started state tag attempt request deadline = Ok state' ->
  exists record record' row, find (core_records state) (Some tag) = [record]
    /\ is_open record = true /\ rec_request record = request
    /\ attempt = expected_attempt (attempts_of (core_steps state) tag)
    /\ (forall previous, attempts_of (core_steps state) tag = Some previous -> row_ended previous = true)
    /\ key record' = key record
    /\ row_tag row = tag /\ row_started row = attempt /\ row_ended row = false
    /\ row_unsettled row = false
    /\ row_uncharged row = match attempts_of (core_steps state) tag with
                           | None => 0
                           | Some previous => row_uncharged previous
                           end
    /\ state' = with_row (replaced state record') tag row.
Proof.
  intros E. unfold started in E. apply rbind_Ok in E as (record & Hrec & E).
  apply open_record_Ok in Hrec as (Hfind & Hopen & _).
  apply rbind_Ok in E as ([] & Hok & E). apply ensure_Ok in Hok. injection E as <-.
  to_prop. apply Z.eqb_eq in H.
  eexists record, _, _. split; [done|]. split; [done|].
  split; [done|]. split; [by unfold expected_attempt|].
  split; [intros previous Hprev; by rewrite Hprev in *|].
  split; [|by repeat split].
  by destruct (eqb (rec_phase record) RequestPhase.PREPARED).
Qed.

Lemma wf_started state tag attempt request deadline state' :
  attempts_wf state -> started state tag attempt request deadline = Ok state' -> attempts_wf state'.
Proof.
  intros Hwf E. apply started_Ok in E as (record & record' & row & Hfind & _ & _ & -> & Hend & Hkey
    & Htag & Hst & Hrun & Hset & Hunch & ->).
  apply find_key_in in Hfind as Hin. assert (Hsame : same_ledger state (replaced state record')).
  { apply replaced_same; [apply Hwf|by rewrite Hkey]. }
  apply find_single in Hfind as [Hid _].
  apply wf_with_row; [by eapply wf_same|done| |].
  - unfold row_ok. rewrite Hst, Hunch, Hset. unfold expected_attempt.
    destruct (attempts_of (core_steps state) tag) as [previous|] eqn:Hprev; [|lia].
    destruct (wf_row _ _ _ Hwf Hprev) as ((? & ? & _ & _) & _). lia.
  - rewrite (same_keys _ _ Hsame), <- Hid. by apply (list_elem_of_fmap_2 fst) in Hin.
Qed.

(** What an interruption of a step still open leaves in its row. *)
Definition interrupted_row (row : StepAttempts) (why : Interruption) (now : float) : StepAttempts :=
  if eqb why Interruption.LOST
  then row <| row_uncharged := row_uncharged row - 1 |> <| row_unsettled := false |>
           <| row_charged_at := Some now |>
  else row <| row_ended := true |>
           <| row_uncharged := row_uncharged row + (if interruption_charged why then 0 else 1) |>
           <| row_charged_at := if interruption_charged why then Some now else row_charged_at row |>.

Lemma interrupted_Ok state tag attempt why state' :
  identified state -> interrupted state tag attempt why = Ok state' ->
  exists row, attempts_of (core_steps state) tag = Some row /\ row_started row = attempt
    /\ (if eqb why Interruption.LOST then row_unsettled row = true else row_ended row = false)
    /\ (ended_by_core state tag = Ok true /\ state' = forgotten state tag \/
        ended_by_core state tag = Ok false /\
        exists before, same_ledger state before
          /\ state' = with_row before tag (interrupted_row row why (run_now_at (core_run state)))).
Proof.
  intros Hid E. unfold interrupted in E. apply rbind_Ok in E as (by_core & Hcore & E). rewrite Hcore.
  unfold interrupted_row.
  destruct (eqb why Interruption.LOST) eqn:Hwhy.
  - unfold lost in E. destruct (attempts_of _ _) as [row|]; [|done]. exists row.
    apply rbind_Ok in E as ([] & Hok%ensure_Ok & E). to_prop. apply Z.eqb_eq in H.
    split; [done|]. split; [done|]. split; [done|].
    destruct by_core; [left|right]; (split; [done|]); simplify_eq; [done|]. by exists state.
  - destruct (attempts_of _ _) as [row|]; [|done]. exists row.
    apply rbind_Ok in E as ([] & Hok%ensure_Ok & E). to_prop. apply Z.eqb_eq in H.
    split; [done|]. split; [done|]. split; [by destruct (row_ended row)|].
    destruct by_core; [left|right]; (split; [done|]); [by simplify_eq|].
    apply rbind_Ok in E as (before & Hbefore%returned_same & E); [|done]. simplify_eq.
    by exists before.
Qed.

Lemma interrupted_row_ok row why now :
  row_ok row ->
  (if eqb why Interruption.LOST then row_unsettled row = true else row_ended row = false) ->
  row_ok (interrupted_row row why now).
Proof.
  intros (? & ? & Hrun & Hset) Hcond. unfold interrupted_row, row_ok.
  destruct (eqb why Interruption.LOST); simpl.
  - assert (row_ended row = true) by (destruct (row_ended row); [done|]; naive_solver congruence).
    specialize (Hset Hcond). repeat split; try lia; intros; congruence.
  - destruct (Hrun Hcond) as [? Hsettled]. rewrite Hsettled.
    destruct (interruption_charged why); repeat split; try lia; intros; congruence.
Qed.

Lemma wf_interrupted state tag attempt why state' :
  attempts_wf state -> interrupted state tag attempt why = Ok state' -> attempts_wf state'.
Proof.
  intros Hwf E.
  apply interrupted_Ok in E as (row & Hrow & _ & Hcond & [[_ ->]|(_ & before & Hsame & ->)]);
    [by apply wf_forgotten| |apply Hwf].
  destruct (wf_row _ _ _ Hwf Hrow) as (Hok & Htag & Hin).
  apply wf_with_row; [by eapply wf_same| | |].
  - unfold interrupted_row. by destruct (eqb why Interruption.LOST).
  - by apply interrupted_row_ok.
  - by rewrite (same_keys _ _ Hsame).
Qed.

(** ** A later epoch *)

(** The step is open, and it is to start anew. *)
Definition opened (state : CoreState) (tag : RequestId) : Prop :=
  exists record, open_record state tag = Ok record.
Definition prepared (state : CoreState) (tag : RequestId) : Prop :=
  exists record, open_record state tag = Ok record /\ rec_phase record = RequestPhase.PREPARED.

Lemma open_record_find state tag record :
  find (core_records state) (Some tag) = [record] -> is_open record = true ->
  open_record state tag = Ok record.
Proof. unfold open_record. by intros -> ->. Qed.

(** What returning one open step leaves of it, and of the others. *)
Lemma returned_total state tag :
  identified state -> opened state tag ->
  exists state', returned state tag = Ok state' /\ prepared state' tag
    /\ (forall other, other <> tag -> find (core_records state') (Some other)
                                     = find (core_records state) (Some other)).
Proof.
  intros Hid (record & Hrec). unfold returned. rewrite Hrec. simpl.
  apply open_record_Ok in Hrec as Hrec'. destruct Hrec' as (Hfind & Hopen & <-).
  destruct (eqb (rec_phase record) RequestPhase.PREPARED) eqn:Hphase.
  { apply eqb_eq in Hphase. exists state. split; [done|]. split; [by exists record|done]. }
  set (again := unstarted state record). exists (replaced state again).
  assert (Hagain : key again = key record) by apply unstarted_key. injection Hagain as Htag Hreq.
  assert (Hprep : rec_phase again = RequestPhase.PREPARED)
    by (unfold again, unstarted; by repeat destruct_match).
  split; [done|]. split.
  - exists again. split; [|done]. apply open_record_find.
    + simpl core_records. by rewrite <- Htag, find_replace_same, Htag, Hfind.
    + revert Hopen. unfold is_open, canonical. rewrite Hreq, Hprep. by destruct (is_command _).
  - intros other Hne. simpl core_records. rewrite find_replace_other; [done|congruence].
Qed.

Lemma returned_prepared state tag state' :
  identified state -> returned state tag = Ok state' ->
  prepared state' tag /\ (forall other, prepared state other -> prepared state' other)
  /\ (forall other, opened state' other <-> opened state other).
Proof.
  intros Hid E.
  assert (opened state tag) as Hopen.
  { unfold returned in E. apply rbind_Ok in E as (record & Hrec & _). by exists record. }
  destruct (returned_total _ _ Hid Hopen) as (s & E' & Hprep & Hother).
  rewrite E in E'. simplify_eq.
  split; [done|]. split; intros other; (destruct (decide (other = tag)) as [->|Hne]; [|]).
  - done.
  - unfold prepared, open_record. by rewrite Hother.
  - split; [done|]. destruct Hprep as (r & ? & _). by exists r.
  - unfold opened, open_record. by rewrite Hother.
Qed.

Lemma open_record_key state tag record :
  open_record state tag = Ok record ->
  key record ∈ keys state /\ rec_request_id record = tag /\ is_command (rec_request record) = false.
Proof.
  intros (Hfind & Hopen & Htag)%open_record_Ok. split; [by eapply find_key_in|]. split; [done|].
  apply andb_true_iff in Hopen as [Hc _]. by apply negb_true_iff in Hc.
Qed.

(** A command that lapses is no step: the steps open stay as they are. *)
Lemma replaced_command state record tag step :
  identified state -> key record ∈ keys state -> is_command (rec_request record) = true ->
  open_record (replaced state record) tag = Ok step <-> open_record state tag = Ok step.
Proof.
  intros Hid Hin Hcmd. destruct (decide (rec_request_id record = tag)) as [<-|Hne].
  - assert (Hkeys : keys (replaced state record) = keys state) by (by apply replaced_keys).
    split; intros (Hk & Htag & Hno)%open_record_key; rewrite ?Hkeys in Hk;
      pose proof (key_inj fst _ _ _ Hid Hin Hk (eq_sym Htag)) as [= _ ?]; congruence.
  - unfold open_record. simpl core_records. by rewrite find_replace_other.
Qed.

Lemma commands_lapsed_same state :
  identified state ->
  same_ledger state (commands_lapsed state)
  /\ forall tag step, open_record (commands_lapsed state) tag = Ok step
                      <-> open_record state tag = Ok step.
Proof.
  intros Hid. unfold commands_lapsed.
  assert (Hin : forall r, r ∈ rows_of state -> key r ∈ keys state)
    by (intros; by apply list_elem_of_fmap_2).
  revert Hin. generalize (rows_of state) as l. induction l as [|r l IH] using rev_ind; intros Hin; [done|].
  rewrite fold_left_app. simpl. set (mid := fold_left _ l state) in *.
  destruct IH as [Hmid Hkeep]; [intros; apply Hin; set_solver|].
  destruct (command_open r) eqn:Hopen; [|done].
  apply andb_true_iff in Hopen as [Hcmd _]. rewrite negb_true_iff in Hcmd.
  apply negb_false_iff in Hcmd.
  assert (key r ∈ keys mid) as Hr by (rewrite (same_keys _ _ Hmid); apply Hin; set_solver).
  assert (identified mid) by (by eapply same_identified).
  split; [etrans; [exact Hmid|by apply replaced_same]|].
  intros tag step. by rewrite replaced_command.
Qed.

Lemma open_record_total state tag :
  identified state -> tag ∈ map fst (keys state) ->
  (ended_by_core state tag = Ok true /\ open_record state tag = Err RefusalReason.STEP_NOT_OPEN) \/
  (ended_by_core state tag = Ok false /\ exists record, open_record state tag = Ok record).
Proof.
  intros Hid Hin. destruct (find_one _ _ Hid Hin) as (record & Hfind).
  unfold ended_by_core, open_record. rewrite Hfind.
  destruct (is_open record); [right|left]; simpl; eauto.
Qed.

(** The rows whose step the ledger still holds open. *)
Definition row_open (state : CoreState) (row : StepAttempts) : bool :=
  match ended_by_core state (row_tag row) with Ok by_core => negb by_core | Err _ => false end.

Lemma row_open_returned state tag state' row :
  identified state -> returned state tag = Ok state' -> row_tag row <> tag ->
  row_open state' row = row_open state row.
Proof.
  intros Hid E Hne. unfold returned in E. apply rbind_Ok in E as (record & Hrec & E).
  apply open_record_Ok in Hrec as (_ & _ & Htag). destruct_match; simplify_eq; [done|].
  unfold row_open, ended_by_core. simpl core_records. rewrite find_replace_other; [done|].
  pose proof (unstarted_key state record) as [= -> _]. congruence.
Qed.

Lemma epoch_row_total parked state acc row :
  identified state -> row_tag row ∈ map fst (keys state) ->
  exists state', epoch_row parked (state, acc) row
    = Ok (state', if row_open state row then acc ++ [ended_row parked row] else acc)
  /\ same_ledger state state'
  /\ (forall tag, prepared state tag -> prepared state' tag)
  /\ (row_open state row = true -> prepared state' (row_tag row))
  /\ (forall tag, opened state' tag <-> opened state tag)
  /\ (forall other, row_tag other <> row_tag row -> row_open state' other = row_open state other).
Proof.
  intros Hid Hin. unfold epoch_row, row_open.
  destruct (open_record_total _ _ Hid Hin) as [[-> _]|[-> (record & Hrec)]]; simpl.
  { exists state. by repeat split. }
  assert (exists state', returned state (row_tag row) = Ok state') as (state' & Hret).
  { unfold returned. rewrite Hrec. simpl. destruct_match; eauto. }
  rewrite Hret. simpl. exists state'.
  destruct (returned_prepared _ _ _ Hid Hret) as (Hown & Hother & Hopen).
  split; [done|]. split; [by eapply returned_same|]. split; [done|]. split; [done|]. split; [done|].
  intros other Hne. by apply (row_open_returned _ (row_tag row)).
Qed.

#[local] Arguments epoch_row : simpl never.

(** Every attempt an earlier epoch left ends, and its step starts anew. *)
Lemma epoch_sweep parked l : forall state acc,
  identified state -> NoDup (map row_tag l) -> (forall row, row ∈ l -> row_tag row ∈ map fst (keys state)) ->
  (forall row, row ∈ acc -> prepared state (row_tag row)) ->
  exists state', rfold (epoch_row parked) (state, acc) l
    = Ok (state', acc ++ map (ended_row parked) (List.filter (row_open state) l))
  /\ same_ledger state state'
  /\ (forall row, row ∈ acc ++ map (ended_row parked) (List.filter (row_open state) l) ->
      prepared state' (row_tag row))
  /\ (forall tag, opened state' tag <-> opened state tag).
Proof.
  induction l as [|row l IH]; intros state acc Hid Hnd Hin Hacc; simpl.
  { exists state. rewrite app_nil_r. by repeat split. }
  apply NoDup_cons in Hnd as [Hnew Hnd].
  destruct (epoch_row_total parked state acc row) as (mid & -> & Hsame & Hkeep & Hown & Hopened & Hothers);
    [done|apply Hin; by left|]. simpl.
  assert (Hfilter : List.filter (row_open mid) l = List.filter (row_open state) l).
  { apply filter_ext_in. intros other Ho%list_elem_of_In. apply Hothers. intros E. apply Hnew.
    rewrite <- E. by apply list_elem_of_fmap_2. }
  destruct (IH mid (if row_open state row then acc ++ [ended_row parked row] else acc))
    as (final & -> & Hfinal & Hprep & Hopen).
  - by eapply same_identified.
  - done.
  - intros other Ho. rewrite (same_keys _ _ Hsame). apply Hin. by right.
  - intros other Ho. destruct (row_open state row); [|by apply Hkeep, Hacc].
    apply elem_of_app in Ho as [Ho| ->%list_elem_of_singleton]; [by apply Hkeep, Hacc|].
    by apply Hown.
  - rewrite Hfilter in *. exists final. split; [|split; [by etrans|split]].
    + destruct (row_open state row); simpl; [|done]. by rewrite <- app_assoc.
    + intros other Ho. apply Hprep. destruct (row_open state row); simpl in *; [|done].
      by rewrite <- app_assoc.
    + intros tag. by rewrite Hopen.
Qed.

(** A wellformed state of the steps of the ledger of [state]: its rows are [state]'s, and rows
    of one uncharged attempt that ended. *)
Record settles (state s : CoreState) : Prop := {
  settles_wf : attempts_wf s;
  settles_keys : keys s = keys state;
  settles_run : core_run s = core_run state;
  settles_epoch : ledger_epoch (core_records s) = ledger_epoch (core_records state);
  settles_steps : steps_epoch (core_steps s) = steps_epoch (core_steps state)
    /\ steps_ended (core_steps s) = steps_ended (core_steps state);
  settles_kept : forall tag row,
    attempts_of (core_steps state) tag = Some row -> attempts_of (core_steps s) tag = Some row;
  settles_new : forall tag row, attempts_of (core_steps s) tag = Some row ->
    attempts_of (core_steps state) tag = Some row
    \/ (attempts_of (core_steps state) tag = None
        /\ row_started row = 1 /\ row_uncharged row = 1 /\ row_ended row = true
        /\ row_unsettled row = false /\ prepared s tag);
  settles_prepared : forall tag, prepared state tag -> prepared s tag;
  settles_opened : forall tag, opened s tag <-> opened state tag
}.

Lemma settles_refl state : attempts_wf state -> settles state state.
Proof. intros Hwf. split; try done. by left. Qed.

Lemma settles_lapsed state : attempts_wf state -> settles state (commands_lapsed state).
Proof.
  intros Hwf. destruct (commands_lapsed_same state) as [Hsame Hkeep]; [apply Hwf|].
  pose proof Hsame as [Hk Hs Hr He]. split; rewrite ?Hs; try done.
  - by eapply wf_same.
  - by left.
  - intros tag (record & Hrec & Hp). exists record. split; [by apply Hkeep|done].
  - intros tag. unfold opened. by setoid_rewrite Hkeep.
Qed.

(** One step an earlier version dispatched without a record of the attempt. *)
Lemma settles_row state s tag :
  settles state s -> opened s tag -> attempts_of (core_steps s) tag = None ->
  forall first s', row_tag first = tag -> row_started first = 1 -> row_uncharged first = 1 ->
  row_ended first = true -> row_unsettled first = false ->
  returned (with_row s tag first) tag = Ok s' ->
  settles state s'.
Proof.
  intros Hs Hopen Hnone first s' Htag Hst Hun Hend Hset Hret.
  assert (Hwf : attempts_wf (with_row s tag first)).
  { apply wf_with_row; [apply Hs|done|by unfold row_ok; rewrite Hst, Hun, Hend, Hset; lia|].
    destruct Hopen as (record & (Hin & <- & _)%open_record_key). by apply (list_elem_of_fmap_2 fst) in Hin. }
  pose proof Hwf as [Hid _ _ _].
  destruct (returned_prepared _ _ _ Hid Hret) as (Hown & Hprep & Hkeep).
  apply returned_same in Hret as Hsame; [|done]. pose proof Hsame as [Hk Hst' Hr He].
  destruct Hs. split; rewrite ?Hk, ?Hst', ?Hr, ?He; try done.
  - by eapply wf_same.
  - intros other row Hrow. rewrite attempts_of_with_row by done.
    case_decide as E; [|by apply settles_kept0]. subst. apply settles_kept0 in Hrow. congruence.
  - intros other row. rewrite attempts_of_with_row by done. case_decide as E.
    + intros [= <-]. subst. right. split; [|done].
      destruct (attempts_of (core_steps state) (row_tag first)) eqn:Hold; [|done].
      apply settles_kept0 in Hold. congruence.
    + intros [Hold|(? & ? & ? & ? & ? & ?)]%settles_new0; [by left|]. right. repeat split; try done.
      by apply Hprep.
  - intros other Ho. by apply Hprep, settles_prepared0.
  - intros other. rewrite Hkeep. apply settles_opened0.
Qed.

Lemma earlier_version_settled_total state :
  attempts_wf state -> exists state', earlier_version_settled state = Ok state' /\ settles state state'.
Proof.
  intros Hwf. unfold earlier_version_settled. pose proof (settles_lapsed _ Hwf) as Hlapsed.
  set (lapsed := commands_lapsed state) in *.
  apply rfold_total; [|done]. intros s record Hin Hs.
  destruct (is_open record && is_none (attempts_of (core_steps s) (rec_request_id record))
            && sent record) eqn:Hcase; [|by exists s].
  to_prop. assert (Hopen : opened s (rec_request_id record)).
  { apply (settles_opened _ _ Hs), (settles_opened _ _ Hlapsed). exists record.
    apply open_record_find; [|done]. rewrite find_scan.
    apply (filter_key_unique rec_request_id _ record); [|done].
    pose proof (settles_wf _ _ Hlapsed) as [Hid _ _ _]. unfold identified, keys in Hid.
    by rewrite map_map in Hid. }
  match goal with |- context [with_row s _ ?row] => set (first := row) end.
  destruct (returned_total (with_row s (rec_request_id record) first) (rec_request_id record))
    as (s' & Hret & _ & _); [exact (wf_identified _ (settles_wf _ _ Hs))|exact Hopen|].
  rewrite Hret. exists s'. split; [done|].
  destruct (attempts_of (core_steps s) (rec_request_id record)) eqn:Hnone; [done|].
  by apply (settles_row state s (rec_request_id record) Hs Hopen Hnone first).
Qed.

Lemma attempts_of_In state row :
  NoDup (map row_tag (rows state)) -> row ∈ rows state ->
  attempts_of (core_steps state) (row_tag row) = Some row.
Proof.
  intros Hnd Hin. destruct (attempts_of (core_steps state) (row_tag row)) as [other|] eqn:E.
  - apply attempts_of_Some in E as [Ho E]. f_equal. by apply (key_inj row_tag (rows state)).
  - unfold attempts_of in E. rewrite next_such_None in E. specialize (E _ Hin).
    by apply eqb_neq in E.
Qed.

Lemma ended_row_ok parked row : row_ok row -> row_ok (ended_row parked row).
Proof.
  intros (? & ? & Hrun & Hset). unfold row_ok, ended_row; simpl.
  destruct (row_ended row), (row_unsettled row), parked; simpl in *;
    repeat split; intros; try done; try lia; try (destruct Hrun; [done|]; lia);
    try (specialize (Hset eq_refl); lia).
Qed.

(** The parked flag of the state, as [epoch_opened] reads it. *)
Definition is_parked (state : CoreState) : bool :=
  eqb (run_status (core_run state)) RunStatus.PARKED.

(** The rows of the steps still open, each ended as the epoch ends it *)
Definition epoch_rows (state : CoreState) : list StepAttempts :=
  map (ended_row (is_parked state)) (List.filter (row_open state) (rows state)).

Lemma epoch_rows_In state row :
  row ∈ epoch_rows state <->
  exists old, row = ended_row (is_parked state) old /\ old ∈ rows state /\ row_open state old = true.
Proof.
  unfold epoch_rows. rewrite list_elem_of_fmap. setoid_rewrite elem_of_filterb. naive_solver.
Qed.

(** The sweep of [epoch_opened], before the settlement of an earlier version's log. *)
Lemma epoch_swept state :
  attempts_wf state ->
  exists swept, rfold (epoch_row (is_parked state)) (state, []) (rows state)
      = Ok (swept, epoch_rows state)
    /\ same_ledger state swept /\ attempts_wf (with_attempts swept (epoch_rows state))
    /\ (forall row, row ∈ epoch_rows state -> prepared swept (row_tag row))
    /\ forall tag, opened swept tag <-> opened state tag.
Proof.
  intros [Hid Hnd Hok Htr].
  destruct (epoch_sweep (is_parked state) (rows state) state []) as (swept & E & Hsame & Hprep & Hopened);
    [done|done|done|by intros ? ?%not_elem_of_nil|].
  exists swept. split; [done|]. split; [done|]. split; [|done].
  split.
  - change (identified swept). by eapply same_identified.
  - change (NoDup (map row_tag (epoch_rows state))). unfold epoch_rows. rewrite map_map.
    change (NoDup (map row_tag (List.filter (row_open state) (rows state)))).
    eapply sublist_NoDup; [|exact Hnd]. clear.
    induction (rows state) as [|row l IH]; simpl; [done|].
    destruct (row_open state row); by constructor.
  - apply Forall_forall. intros row (old & -> & Hold & _)%epoch_rows_In. apply ended_row_ok.
    by eapply Forall_forall in Hok.
  - intros row (old & -> & Hold & _)%epoch_rows_In.
    change (row_tag old ∈ map fst (keys swept)). rewrite (same_keys _ _ Hsame). by apply Htr.
Qed.

Lemma opened_row_open state row : opened state (row_tag row) -> row_open state row = true.
Proof.
  intros (record & (Hfind & Hopen & _)%open_record_Ok). unfold row_open, ended_by_core.
  by rewrite Hfind, Hopen.
Qed.

(** What the first record of a later epoch makes of the attempts. *)
Record epoch_result (state : CoreState) (epoch : Z) (state' : CoreState) : Prop := {
  epoch_wf : attempts_wf state';
  epoch_keys : keys state' = keys state;
  epoch_limits : run_limits (core_run state') = run_limits (core_run state);
  epoch_set : steps_epoch (core_steps state') = epoch;
  epoch_prepared : forall row, row ∈ rows state' -> row_ended row = true /\ prepared state' (row_tag row);
  epoch_open : forall tag, opened state' tag <-> opened state tag;
  epoch_kept : forall row, row ∈ rows state -> row_open state row = true ->
    attempts_of (core_steps state') (row_tag row) = Some (ended_row (is_parked state) row);
  epoch_only : forall tag row, attempts_of (core_steps state') tag = Some row ->
    (exists old, attempts_of (core_steps state) tag = Some old
                 /\ row = ended_row (is_parked state) old)
    \/ (steps_epoch (core_steps state) = 0 /\ attempts_of (core_steps state) tag = None
        /\ row_started row = 1 /\ row_uncharged row = 1
        /\ row_ended row = true /\ row_unsettled row = false)
}.

Lemma epoch_opened_result state epoch :
  attempts_wf state -> steps_epoch (core_steps state) < epoch ->
  exists state', epoch_opened state epoch = Ok state' /\ epoch_result state epoch state'.
Proof.
  intros Hwf Hlt. unfold epoch_opened.
  destruct (epoch <=? steps_epoch (core_steps state)) eqn:Hle; [lia|]. clear Hle.
  destruct (epoch_swept _ Hwf) as (swept & E & Hsame & Hswept & Hprep & Hopened).
  unfold is_parked, rows in E. rewrite E. clear E. simpl rbind.
  set (mid := with_attempts _ _). change (attempts_wf mid) in Hswept.
  assert (exists s, (if steps_epoch (core_steps state) =? 0 then earlier_version_settled mid else Ok mid)
            = Ok s /\ settles mid s /\ (steps_epoch (core_steps state) <> 0 -> s = mid)) as (s & -> & Hs & Horig).
  { destruct (Z.eqb_spec (steps_epoch (core_steps state)) 0).
    - destruct (earlier_version_settled_total _ Hswept) as (s & ? & ?). by exists s.
    - exists mid. split; [done|]. split; [by apply settles_refl|done]. }
  assert (Hof : forall tag row, attempts_of (core_steps mid) tag = Some row ->
    row_ended row = true /\ prepared mid tag /\
    exists old, attempts_of (core_steps state) tag = Some old /\ row = ended_row (is_parked state) old).
  { intros tag row [Hin <-]%attempts_of_Some. change (row ∈ epoch_rows state) in Hin.
    split; [by apply epoch_rows_In in Hin as (old & -> & _)|]. split; [by apply Hprep|].
    apply epoch_rows_In in Hin as (old & -> & Hin & _). exists old. split; [|done].
    exact (attempts_of_In state old (wf_distinct _ Hwf) Hin). }
  eexists. split; [reflexivity|]. destruct Hs as [Hswf Hskeys Hsrun Hsep Hssteps Hskept Hsnew Hsprep Hsopen].
  pose proof Hswf as [Hid Hnd Hok Htr]. split; simpl.
  - by split.
  - rewrite <- (same_keys _ _ Hsame). exact Hskeys.
  - rewrite Hsrun. unfold mid. simpl. by rewrite (same_run _ _ Hsame).
  - done.
  - intros row Hin. change (row ∈ rows s) in Hin. apply (attempts_of_In _ _ Hnd) in Hin.
    apply Hsnew in Hin as [(? & Hp & _)%Hof|(_ & _ & _ & ? & _ & ?)]; [|done].
    split; [done|]. by apply Hsprep in Hp.
  - intros tag. change (opened s tag <-> opened state tag). rewrite Hsopen. apply Hopened.
  - intros row Hin Hopen.
    assert (ended_row (is_parked state) row ∈ rows mid) as Hmid
      by (change (ended_row (is_parked state) row ∈ epoch_rows state); apply epoch_rows_In; eauto).
    apply (attempts_of_In _ _ (wf_distinct _ Hswept)) in Hmid. exact (Hskept _ _ Hmid).
  - intros tag row Hrow. destruct (decide (steps_epoch (core_steps state) = 0)) as [|Hne].
    + apply Hsnew in Hrow as [(_ & _ & ?)%Hof|(Hnone & ? & ? & ? & ? & (r & Hr & _))]; [by left|].
      right. repeat split; try done.
      destruct (attempts_of (core_steps state) tag) as [old|] eqn:Hold; [|done].
      assert (opened state tag) as Hopen
        by (apply Hopened; change (opened mid tag); apply Hsopen; by exists r).
      apply attempts_of_Some in Hold as [Hin <-].
      assert (ended_row (is_parked state) old ∈ rows mid) as Hmid.
      { change (ended_row (is_parked state) old ∈ epoch_rows state). apply epoch_rows_In.
        exists old. split; [done|]. split; [done|]. by apply opened_row_open. }
      apply (attempts_of_In _ _ (wf_distinct _ Hswept)) in Hmid.
      change (row_tag (ended_row (is_parked state) old)) with (row_tag old) in Hmid. congruence.
    + rewrite (Horig Hne) in Hrow. left. by apply Hof in Hrow as (_ & _ & ?).
Qed.

(** ** What a record does to the attempts *)

Lemma epoch_opened_Ok state epoch state' :
  attempts_wf state -> epoch_opened state epoch = Ok state' ->
  (epoch <= steps_epoch (core_steps state) /\ state' = state) \/ epoch_result state epoch state'.
Proof.
  intros Hwf E. destruct (Z.le_gt_cases epoch (steps_epoch (core_steps state))) as [Hle|Hlt].
  - left. unfold epoch_opened in E. destruct (epoch <=? _) eqn:H; [by simplify_eq|lia].
  - right. destruct (epoch_opened_result _ _ Hwf Hlt) as (s & E' & Hs). rewrite E in E'.
    by injection E' as ->.
Qed.

Lemma apply_attempt_wf state r state' :
  attempts_wf state -> apply_attempt state r = Ok state' -> attempts_wf state'.
Proof.
  intros Hwf. destruct r as [tag attempt request deadline|tag attempt why|epoch|tag]; simpl.
  - by apply wf_started.
  - by apply wf_interrupted.
  - intros [[_ ->]|Hres]%epoch_opened_Ok; [done|by apply Hres|done].
  - intros [= <-]. by apply wf_forgotten.
Qed.

(** The attempts of a step that ended and were charged. *)
Definition spent (row : StepAttempts) : Z := row_charged row - (if row_ended row then 0 else 1).
Definition spent_at (state : CoreState) (tag : RequestId) : Z :=
  match attempts_of (core_steps state) tag with Some row => spent row | None => 0 end.
Definition started_at (state : CoreState) (tag : RequestId) : Z :=
  match attempts_of (core_steps state) tag with Some row => row_started row | None => 0 end.

(** The charges and the starts one record makes of a step. *)
Definition charges (r : AttemptRecord) (tag : RequestId) : Z :=
  match r with
  | Interrupted other _ why => if eqb other tag && interruption_charged why then 1 else 0
  | _ => 0
  end.
Definition begins (r : AttemptRecord) (tag : RequestId) : Z :=
  match r with Started other _ _ _ => if eqb other tag then 1 else 0 | _ => 0 end.

Lemma ended_row_spent parked row : spent (ended_row parked row) = spent row.
Proof. unfold spent, row_charged. simpl. destruct (row_ended row); simpl; lia. Qed.

Lemma interrupted_row_spent row why now :
  row_ok row ->
  (if eqb why Interruption.LOST then row_unsettled row = true else row_ended row = false) ->
  spent (interrupted_row row why now) = spent row + (if interruption_charged why then 1 else 0).
Proof.
  intros (_ & _ & Hrun & _) Hcond. unfold interrupted_row, spent, row_charged.
  destruct (eqb why Interruption.LOST) eqn:E; simpl.
  - apply eqb_eq in E as ->. change (interruption_charged Interruption.LOST) with true. simpl.
    destruct (row_ended row); [lia|]. destruct Hrun; [done|congruence].
  - rewrite Hcond. destruct (interruption_charged why); lia.
Qed.

Lemma apply_attempt_counts state r state' tag row :
  attempts_wf state -> apply_attempt state r = Ok state' ->
  attempts_of (core_steps state') tag = Some row ->
  spent row = spent_at state tag + charges r tag
  /\ (row_started row = started_at state tag + begins r tag
      \/ (exists epoch, r = EpochOpened epoch) /\ steps_epoch (core_steps state) = 0
         /\ row_started row = 1).
Proof.
  intros Hwf. unfold spent_at, started_at.
  destruct r as [other attempt request deadline|other attempt why|epoch|other]; simpl.
  - intros (record & record' & new & _ & _ & _ & -> & Hend & _ & Htag & Hst & Hrun & _ & Hun & ->)%started_Ok.
    rewrite attempts_of_with_row by done.
    change (core_steps (replaced state record')) with (core_steps state). case_decide as E.
    + intros [= <-]. rewrite E, eqb_refl. unfold spent, row_charged, expected_attempt in *.
      rewrite Hst, Hrun, Hun. destruct (attempts_of (core_steps state) other) as [old|] eqn:Hold; [|lia].
      rewrite (Hend old) by done. lia.
    + intros ->. unfold eqb. rewrite bool_decide_false by congruence. lia.
  - intros (old & Hold & <- & Hcond & [[_ ->]|(_ & before & Hsame & ->)])%interrupted_Ok; [| |apply Hwf].
    + rewrite attempts_of_forgotten. case_decide as E; [done|]. intros ->. unfold eqb.
      rewrite bool_decide_false by congruence. simpl. lia.
    + destruct (wf_row _ _ _ Hwf Hold) as (Hok & Htag & _).
      rewrite attempts_of_with_row by (unfold interrupted_row; by destruct (eqb why Interruption.LOST)).
      rewrite (same_steps _ _ Hsame). case_decide as E.
      * intros [= <-]. subst tag. rewrite Hold, eqb_refl. rewrite interrupted_row_spent by done.
        split; [done|]. left. unfold interrupted_row.
        destruct (eqb why Interruption.LOST); simpl; lia.
      * intros ->. unfold eqb. rewrite bool_decide_false by congruence. simpl. lia.
  - intros [[_ ->]|Hres]%epoch_opened_Ok Hrow; [rewrite Hrow; lia| |done].
    apply (epoch_only _ _ _ Hres) in Hrow as [(old & -> & ->)|(Horigin & -> & Hst & Hun & Hend & _)].
    + rewrite ended_row_spent. simpl. lia.
    + split; [unfold spent, row_charged; rewrite Hst, Hun, Hend; lia|].
      right. split; [by exists epoch|done].
  - intros [= <-]. rewrite attempts_of_forgotten. case_decide; [done|]. intros ->. lia.
Qed.

(** ** Properties *)

(** A log's records of attempts keep the attempts well formed.  From a state whose rows name
    distinct steps of a ledger without repeated identities, with each row's counts in agreement
    (attempts numbered from 1, at most the ended ones uncharged, unsettled only after an
    uncharged end), every sequence of records the fold accepts leads to such a state. *)
Theorem attempts_stay_wellformed records : forall state state',
  attempts_wf state -> rfold apply_attempt state records = Ok state' -> attempts_wf state'.
Proof. intros state state'. apply rfold_inv, apply_attempt_wf. Qed.

(** An attempt is charged once, and only by an interruption that charges.  Across any record
    the fold accepts, the ended and charged attempts of a step grow by one exactly when the
    record interrupts that step because its body raised or its attempt was lost; a pause, a
    shutdown, a start and a new epoch (the host died) charge none.  The attempts are numbered
    one by one: a start takes the next number and nothing else does, except that the first epoch
    of a log of an earlier version counts the one attempt it never recorded. *)
Theorem attempts_charged_once state r state' tag row :
  attempts_wf state -> apply_attempt state r = Ok state' ->
  attempts_of (core_steps state') tag = Some row ->
  spent row = spent_at state tag + charges r tag
  /\ 0 <= spent row
  /\ (row_started row = started_at state tag + begins r tag
      \/ (exists epoch, r = EpochOpened epoch) /\ steps_epoch (core_steps state) = 0
         /\ row_started row = 1).
Proof.
  intros Hwf Hr Hrow. destruct (apply_attempt_counts _ _ _ _ _ Hwf Hr Hrow) as [Hspent Hstarted].
  split; [done|]. split; [|done]. apply apply_attempt_wf in Hr; [|done].
  apply (wf_row _ _ _ Hr) in Hrow as ((_ & ? & Hrun & _) & _).
  unfold spent, row_charged. destruct (row_ended row); [lia|]. destruct Hrun; [done|lia].
Qed.

(** A later epoch ends every attempt an earlier one left, and no attempt of it runs on.  On
    the well-formed state of a log, the first record of a later epoch is never refused; after it
    every attempt has ended, every step that has one is open and PREPARED, so it can only start
    anew; the attempts of open steps are kept with their numbers, an attempt that ran is left
    uncharged and, unless the run was parked, unsettled; attempts of steps the core ended are
    dropped; and the same record again changes nothing. *)
Theorem epoch_ends_attempts state epoch :
  attempts_wf state -> steps_epoch (core_steps state) < epoch ->
  exists state', epoch_opened state epoch = Ok state'
    /\ attempts_wf state' /\ keys state' = keys state
    /\ steps_epoch (core_steps state') = epoch
    /\ (forall row, row ∈ rows state' -> row_ended row = true /\ prepared state' (row_tag row))
    /\ (forall row, row ∈ rows state -> row_open state row = true ->
        attempts_of (core_steps state') (row_tag row) = Some (ended_row (is_parked state) row))
    /\ (forall row, row ∈ rows state -> row_open state row = false ->
        attempts_of (core_steps state') (row_tag row) = None)
    /\ epoch_opened state' epoch = Ok state'.
Proof.
  intros Hwf Hlt. destruct (epoch_opened_result _ _ Hwf Hlt) as (state' & E & Hres).
  exists state'. pose proof Hres as [H1 H2 H3 H4 H5 H6 H7 _].
  do 6 (split; [assumption|]). split.
  - intros row Hin Hclosed.
    destruct (attempts_of (core_steps state') (row_tag row)) as [new|] eqn:Hnew; [|done].
    apply attempts_of_Some in Hnew as [Hnew Htag]. apply H5 in Hnew as [_ (r & Hr & _)].
    rewrite Htag in Hr. assert (opened state (row_tag row)) as Hopen by (apply H6; by exists r).
    apply opened_row_open in Hopen. congruence.
  - unfold epoch_opened. rewrite H4. destruct (epoch <=? epoch) eqn:Hle; [done|lia].
Qed.

(** The sample ledger with one step running its second attempt is well formed. *)
Lemma sample_running_wf : attempts_wf sample_running.
Proof.
  split.
  - apply NoDup_singleton.
  - apply NoDup_singleton.
  - apply Forall_singleton. unfold row_ok. simpl. lia.
  - intros row ->%list_elem_of_singleton. by left.
Qed.

Definition sample_lost : list AttemptRecord :=
  [EpochOpened 2; Interrupted (sample_tag "a") 2 Interruption.LOST;
   Started (sample_tag "a") 3 (sample_request "a" []) {| until_at := seconds 500; until_watches := [] |};
   Interrupted (sample_tag "a") 3 Interruption.RAISED].

Lemma attempts_stay_wellformed_witness :
  exists state', rfold apply_attempt sample_running sample_lost = Ok state' /\ attempts_wf state'.
Proof.
  eexists. split; [vm_compute; reflexivity|].
  apply (attempts_stay_wellformed sample_lost sample_running); [apply sample_running_wf|].
  vm_compute; reflexivity.
Defined.

(** What follows when the running attempt of the sample raises. *)
Definition sample_raised : result RefusalReason CoreState :=
  apply_attempt sample_running (Interrupted (sample_tag "a") 2 Interruption.RAISED).

Lemma attempts_charged_once_witness :
  match sample_raised with
  | Ok state' => exists row, attempts_of (core_steps state') (sample_tag "a") = Some row /\ spent row = 2
  | Err _ => False
  end.
Proof.
  destruct sample_raised as [state'|] eqn:E; [|by vm_compute in E].
  destruct (attempts_of (core_steps state') (sample_tag "a")) as [row|] eqn:Hrow.
  - exists row. split; [done|].
    destruct (attempts_charged_once _ _ _ _ _ sample_running_wf E Hrow) as (Hspent & _ & _).
    rewrite Hspent. vm_compute. reflexivity.
  - vm_compute in E. injection E as <-. by vm_compute in Hrow.
Defined.

Lemma epoch_ends_attempts_witness :
  exists state', epoch_opened sample_running 2 = Ok state'
    /\ attempts_of (core_steps state') (sample_tag "a")
       = Some ((sample_row "a" 2 1 true) <| row_unsettled := true |>).
Proof.
  destruct (epoch_ends_attempts sample_running 2) as (state' & E & _ & _ & _ & _ & Hkept & _);
    [apply sample_running_wf|vm_compute; reflexivity|].
  exists state'. split; [exact E|]. apply (Hkept (sample_row "a" 2 0 false)); [by left|].
  vm_compute; reflexivity.
Defined.
