(* ===== verification/Park.v ===== *)
(** * Draining a run: what a pause lets start, cancels, returns and waits for

    [libs/vs-core/src/vs_core/_run_park.py]. *)

From S2P Require Import Prelude PyFloat Identities Values Requests Records State Control Clock.
From S2P Require Import Samples Proofs Permit Order Attempts.

(** [Scheduled] *)
Record Scheduled := {
  scheduled_request : Request;
  scheduled_until : Until;
  scheduled_limit_from_dispatch : option float
}.
#[export] Instance Scheduled_dec : EqDecision Scheduled.
Proof. solve_decision. Defined.
#[export] Instance Scheduled_eta : Eta Scheduled := fun r => Build_Scheduled (scheduled_request r)
  (scheduled_until r) (scheduled_limit_from_dispatch r).

(** [isinstance(request, _DRAIN_EFFECTS)] *)
Definition drain_effect (request : Request) : bool :=
  match request with
  | SnapshotAndRetain _ _ _ _ | SnapshotAndRetainRun _ _ _ | RetainRevision _ _ _ _
  | CloseSession _ _ _ _ | CancelTurn _ _ | DiscardWorkspace _ _ | CloseAttemptScope _ _
  | BlockRequest _ _ _ | CancelOwnedJob _ _ _ _ | CollectEvidence _ _ => true
  | _ => false
  end.

Section WithDigests.
Context `{Digests}.

(** [admitted_turns] *)
Definition admitted_turns (state : CoreState) : list InvocationRef :=
  map inv_invocation
    (List.filter (fun invocation =>
       any (fun row => dispatch_of invocation row
                       && in_epoch row (ledger_epoch (core_records state))) (rows_of state))
       (sessions_invocations (core_sessions state))).

(** [drain_bound] *)
Definition drain_bound (state : CoreState) (command : Command) : option float :=
  match run_park (core_run state) with
  | Some park =>
      if park_immediate park || negb (drain_in_force (core_run state) (core_records state))
      then None else option_map permit_deadline_at (permit_for_command state command)
  | None => None
  end.

(** [_past_deadline] and [_immediate] *)
Definition past_deadline (state : CoreState) (park : RunPark) : bool :=
  match park_deadline_at park with
  | Some deadline => fle deadline (run_now_at (core_run state))
  | None => false
  end.
Definition immediate (state : CoreState) (park : RunPark) : bool :=
  park_immediate park || past_deadline state park.

(** [_pause_now_holds_back] *)
Definition pause_now_holds_back (state : CoreState) (request : Request) : bool :=
  match run_park (core_run state) with
  | Some park =>
      drain_in_force (core_run state) (core_records state) && immediate state park
      && negb (drain_effect request)
  | None => false
  end.

(** [dispatch_allowed] *)
Definition dispatch_allowed (state : CoreState) (request : Request) : bool :=
  let status := run_status (core_run state) in
  if eqb status RunStatus.PARKED then pause_outlived state
  else if negb (eqb status RunStatus.DRAINING) then true
  else if pause_now_holds_back state request then false
  else
    not_none (permit_for_request state request)
    || drain_effect request
    || match request with
       | ObserveOwnedJob b _ | InspectOwnedJob b _ =>
           scope_in_flight (core_sessions state) (core_records state) (base_scope b)
       | _ => false
       end.

(** [_admits] *)
Definition admits (state : CoreState) (request : Request) : bool :=
  match run_status (core_run state) with
  | RunStatus.RUNNING | RunStatus.CLOSING => true
  | RunStatus.DRAINING => dispatch_allowed state request
  | _ => false
  end.

(** [starts] *)
Definition starts (state : CoreState) (record : RequestRecord) (dependencies : DependencyStatus)
    : bool :=
  negb (eqb dependencies DependencyStatus.PENDING) && admits state (rec_request record)
  && negb (holds_back state record).

(** [drain_deadline], of the [drain_seconds] and the action of its event *)
Definition drain_deadline (drain_seconds : option float) (action : ControlAction)
    (now_at cleanup_bound : float) : option float :=
  match drain_seconds with
  | Some seconds => Some (fadd now_at seconds)
  | None =>
      if eqb action ControlAction.PAUSE_NOW then Some (fadd now_at cleanup_bound) else None
  end.

(** [_releases_a_job] *)
Definition releases_a_job (state : CoreState) (request : Request) : bool :=
  match run_park (core_run state) with
  | Some park =>
      eqb (run_status (core_run state)) RunStatus.DRAINING
      && (ledger_epoch (core_records state) =? park_epoch park)
      && eqb (request_lifecycle request) LifecycleClass.OWNED_JOB
  | None => false
  end.

(** [pause_cancels] *)
Definition pause_cancels (state : CoreState) (request : Request) : bool :=
  pause_now_holds_back state request || releases_a_job state request.

(** [_unfinished] *)
Definition unfinished (state : CoreState) (record : RequestRecord) : bool :=
  if negb (among (rec_phase record) [RequestPhase.DISPATCHED; RequestPhase.RECONCILING]) then false
  else
    match rec_request record, rec_observation record with
    | EnsureSession _ _ _, Some observation =>
        if negb (obs_accepted observation) || is_none (obs_resource_id observation) then true
        else negb (any (fun session => eqb (view_resource_id session) (obs_resource_id observation))
                       (sessions_sessions (core_sessions state)))
    | _, _ => true
    end.

(** [_holds_park] *)
Definition holds_park (state : CoreState) (immediate : bool) (record : RequestRecord) : bool :=
  unfinished state record && negb (immediate && running state record).

(** [_turns_in_flight] *)
Definition turns_in_flight (state : CoreState) : bool :=
  any (fun turn =>
         turn_executing turn (core_records state)
         || (eqb (inv_phase turn) SessionPhase.SUSPENDED
             && not_none (invocation_permit state (inv_invocation turn))))
      (sessions_invocations (core_sessions state)).

(** [_released_or_bounded] *)
Definition released_or_bounded (state : CoreState) (record : option RequestRecord) : bool :=
  match record with
  | None => false
  | Some record =>
      match rec_observation record with
      | Some observation => obs_accepted observation && obs_released observation
      | None => false
      end
      || (eqb (rec_phase record) RequestPhase.BLOCKED
          && fle (until_at (rec_until record)) (run_now_at (core_run state)))
  end.

(** The dispatch of the invocation's own turn, authorized or not *)
Definition turn_of_row (invocation : Invocation) (row : RequestRecord) : bool :=
  match turn_request (rec_request row) with
  | Some turn =>
      eqb turn (inv_turn invocation) && eqb (req_scope (rec_request row)) (inv_scope invocation)
  | None => false
  end.

(** [_dispatched] *)
Definition turn_dispatched (state : CoreState) (invocation : Invocation) : bool :=
  any (dispatch_of invocation) (rows_of state).

(** The cancel [_cancel_turns] sends for an invocation it holds no record of *)
Definition cancel_identity (park : RunPark) (invocation : Invocation) : RequestId :=
  MkIdentity ("pause-now:" +:+ root (park_control_id park) +:+ ":"
              +:+ root (iref_invocation_id (inv_invocation invocation))).
Definition turn_cancel (state : CoreState) (park : RunPark) (invocation : Invocation) : Scheduled :=
  {| scheduled_request :=
       CancelTurn {| base_request_id := Some (cancel_identity park invocation);
                     base_scope := inv_scope invocation; base_depends_on := [];
                     base_decision_id := None;
                     base_admission_id :=
                       match next_such (turn_of_row invocation) (rows_of state) with
                       | Some row => req_admission_id (rec_request row)
                       | None => None
                       end |} (inv_invocation invocation);
     scheduled_until :=
       {| until_at := fadd (run_now_at (core_run state))
                           (limits_cleanup_bound (run_limits (core_run state)));
          until_watches := [] |};
     scheduled_limit_from_dispatch := None |}.

(** [_cancel_turns] *)
Definition cancel_turns (state : CoreState) (park : RunPark) : list Scheduled * bool :=
  if negb (immediate state park) then ([], true)
  else
    fold_left (fun acc invocation =>
      if eqb (inv_phase invocation) SessionPhase.TERMINAL || negb (turn_dispatched state invocation)
      then acc
      else
        let held := record_of (core_records state) (Some (cancel_identity park invocation)) in
        let pending := match held with
                       | None => fst acc ++ [turn_cancel state park invocation]
                       | Some _ => fst acc
                       end in
        (pending, snd acc && released_or_bounded state held))
      (sessions_invocations (core_sessions state)) ([], true).

(** [_rerunnable] *)
Definition rerunnable (record : RequestRecord) : bool :=
  eqb (settlement record Inspection.ANSWERED false true) Settlement.RESEND.

(** [cap_to_drain_deadline] *)
Definition cap_to_drain_deadline (state : CoreState) : CoreState :=
  match run_park (core_run state) with
  | Some park =>
      match park_deadline_at park with
      | Some deadline =>
          if negb (eqb (run_status (core_run state)) RunStatus.DRAINING) then state
          else
            let bound := fadd deadline (limits_cleanup_bound (run_limits (core_run state))) in
            cap_open_records state (fun record =>
              if unfinished state record && negb (rerunnable record) then Some bound else None)
      | None => state
      end
  | None => state
  end.

(** [_holds_a_job] *)
Definition holds_a_job (record : RequestRecord) : bool :=
  eqb (request_lifecycle (rec_request record)) LifecycleClass.OWNED_JOB.

(** [_interrupt] *)
Definition interrupt_row (state : CoreState) (overdue : bool) (row : RequestRecord) : RequestRecord :=
  if unfinished state row && (holds_a_job row || (overdue && rerunnable row))
  then unstarted state row else row.
Definition interrupt (state : CoreState) (park : RunPark) : CoreState :=
  with_rows state (map (interrupt_row state (past_deadline state park)) (rows_of state)).

(** [isinstance(record.request, SubmitMeasurement | ObserveOwnedJob | InspectOwnedJob)] *)
Definition watches_a_job (request : Request) : bool :=
  match request with
  | SubmitMeasurement _ _ _ _ _ | ObserveOwnedJob _ _ | InspectOwnedJob _ _ => true
  | _ => false
  end.

(** [advance] *)
Definition advance (state : CoreState) : CoreState * list Scheduled :=
  match run_park (core_run state) with
  | None => (state, [])
  | Some park =>
      if negb (eqb (run_status (core_run state)) RunStatus.DRAINING) then (state, [])
      else
        let state := interrupt state park in
        let now := immediate state park in
        if negb now
           && any (fun record => unfinished state record && watches_a_job (rec_request record))
                  (rows_of state) then (state, [])
        else
          let '(pending, released) := cancel_turns state park in
          match pending with
          | _ :: _ => (state, pending)
          | [] =>
              if negb released || any (holds_park state now) (rows_of state)
                 || (negb now && turns_in_flight state) then (state, [])
              else if negb now
                      && any (fun row =>
                                eqb (rec_phase row) RequestPhase.PREPARED
                                && starts state row
                                     (request_dependency_status (rec_request row)
                                        (run_receipts (core_run state)) (core_records state)))
                             (rows_of state) then (state, [])
              else (with_status state RunStatus.PARKED, [])
          end
  end.
End WithDigests.

(** ** Interrupting *)

Section Drain.
Context `{Digests}.

Lemma unfinished_sessions state state' row :
  core_sessions state' = core_sessions state -> unfinished state' row = unfinished state row.
Proof. unfold unfinished. by intros ->. Qed.

Lemma unstarted_unfinished state record : unfinished state (unstarted state record) = false.
Proof.
  assert (rec_phase (unstarted state record) = RequestPhase.PREPARED) as E
    by (unfold unstarted; by repeat destruct_match).
  unfold unfinished. by rewrite E.
Qed.

(** What an interruption leaves unfinished it left as it was: no job, and past the deadline
    nothing that may run again. *)
Lemma interrupt_row_unfinished state overdue row :
  unfinished state (interrupt_row state overdue row) = true ->
  interrupt_row state overdue row = row /\ holds_a_job row = false
  /\ (overdue = true -> rerunnable row = false).
Proof.
  unfold interrupt_row. destruct (unfinished state row) eqn:Hun; simpl.
  - destruct (holds_a_job row) eqn:Hjob; simpl; [by rewrite unstarted_unfinished|].
    destruct (overdue && rerunnable row) eqn:Hre; [by rewrite unstarted_unfinished|].
    intros _. split; [done|]. split; [done|]. intros ->. done.
  - by rewrite Hun.
Qed.

Lemma interrupt_same state park : same_ledger state (interrupt state park).
Proof.
  split; try done. unfold keys, interrupt. change (rows_of (with_rows state _)) with
    (map (interrupt_row state (past_deadline state park)) (rows_of state)).
  rewrite map_map. apply map_ext. intros row. unfold interrupt_row.
  destruct (_ && _); [apply unstarted_key|done].
Qed.

Lemma interrupt_rows state park row :
  row ∈ rows_of (interrupt state park) -> unfinished (interrupt state park) row = true ->
  row ∈ rows_of state /\ unfinished state row = true /\ holds_a_job row = false
  /\ (past_deadline state park = true -> rerunnable row = false).
Proof.
  intros Hin Hun. rewrite (unfinished_sessions state) in Hun by done.
  change (row ∈ map (interrupt_row state (past_deadline state park)) (rows_of state)) in Hin.
  apply list_elem_of_fmap in Hin as (old & -> & Hin).
  apply interrupt_row_unfinished in Hun as Hold. destruct Hold as (E & Hjob & Hre).
  rewrite E in *. auto.
Qed.

Lemma running_steps state state' row :
  core_steps state' = core_steps state -> running state' row = running state row.
Proof. unfold running. by intros ->. Qed.

(** C34: a drain parks only a run that is quiet.  While a run drains, [advance] keeps the ledger's
    identities and the attempts; it leaves no owned job unfinished, and past the deadline
    nothing that may run again; and it parks only when no cancellation is left to send and
    whatever is unfinished is a step whose attempt runs under an immediate pause (one a graceful
    drain would wait for). *)
Theorem drain_parks_quiet state park :
  run_status (core_run state) = RunStatus.DRAINING -> run_park (core_run state) = Some park ->
  let '(after, pending) := advance state in
  keys after = keys state /\ core_steps after = core_steps state
  /\ (forall row, row ∈ rows_of after -> unfinished after row = true ->
      row ∈ rows_of state /\ holds_a_job row = false
      /\ (past_deadline state park = true -> rerunnable row = false))
  /\ (run_status (core_run after) = RunStatus.DRAINING
      \/ run_status (core_run after) = RunStatus.PARKED /\ pending = []
         /\ forall row, row ∈ rows_of after -> unfinished after row = true ->
            immediate state park = true /\ running after row = true).
Proof.
  intros Hstatus Hpark. unfold advance. rewrite Hpark, Hstatus. simpl negb.
  assert (Hrows : forall row, row ∈ rows_of (interrupt state park) ->
    unfinished (interrupt state park) row = true ->
    row ∈ rows_of state /\ holds_a_job row = false
    /\ (past_deadline state park = true -> rerunnable row = false)).
  { intros row Hin Hun. by apply interrupt_rows in Hin as (? & _ & ?). }
  destruct (interrupt_same state park) as [Hkeys Hsteps Hrun _].
  assert (Hdrain : run_status (core_run (interrupt state park)) = RunStatus.DRAINING) by by rewrite Hrun.
  cbv iota zeta.
  destruct (_ && any _ _); [split_and!; auto|].
  destruct (cancel_turns (interrupt state park) park) as [[|request pending] released];
    [|split_and!; auto].
  destruct (negb released || _ || _) eqn:Hheld; [split_and!; auto|].
  destruct (_ && any _ _); [split_and!; auto|].
  split_and!; auto. right. split; [done|]. split; [done|].
  apply orb_false_iff in Hheld as [Hheld _]. apply orb_false_iff in Hheld as [_ Hheld].
  rewrite any_false in Hheld. intros row Hin Hun. specialize (Hheld row Hin).
  unfold holds_park in Hheld. rewrite (unfinished_sessions (interrupt state park)) in Hun by done.
  rewrite Hun in Hheld. simpl in Hheld. apply negb_false_iff, andb_true_iff in Hheld as [Hnow Hr].
  split; [|done]. unfold immediate, past_deadline in *. by rewrite Hrun in Hnow.
Qed.

(** The deadline of a drain bounds it.  Once the deadline passed (or the pause was immediate)
    and every cancellation of a turn was recorded and released or outlived, the run parks at
    once, whatever its other steps are: one that runs is left to be cancelled, an owned job or a
    step that may run again is returned to unstarted; only another unfinished step with no
    attempt running could hold it. *)
Theorem drain_deadline_parks state park :
  run_status (core_run state) = RunStatus.DRAINING -> run_park (core_run state) = Some park ->
  immediate state park = true ->
  cancel_turns (interrupt state park) park = ([], true) ->
  (forall row, row ∈ rows_of state -> unfinished state row = true ->
     running state row = true \/ holds_a_job row = true
     \/ past_deadline state park = true /\ rerunnable row = true) ->
  advance state = (with_status (interrupt state park) RunStatus.PARKED, []).
Proof.
  intros Hstatus Hpark Hnow Hcancels Hquiet. unfold advance. rewrite Hpark, Hstatus. simpl negb.
  destruct (interrupt_same state park) as [_ Hsteps Hrun _]. cbv iota zeta.
  assert (immediate (interrupt state park) park = true) as -> by
    (unfold immediate, past_deadline in *; by rewrite Hrun).
  rewrite Hcancels. simpl negb. simpl orb. cbv iota.
  destruct (any (holds_park (interrupt state park) true) _) eqn:Hheld; [|done].
  exfalso. apply any_true in Hheld as (row & Hin & Hhold). unfold holds_park in Hhold.
  apply andb_true_iff in Hhold as [Hun Hrow].
  destruct (interrupt_rows _ _ _ Hin Hun) as (Hin' & Hun' & Hjob & Hre).
  rewrite (running_steps state) in Hrow by done.
  destruct (Hquiet row Hin' Hun') as [Hr|[Hj|[Hp Hr]]].
  - by rewrite Hr in Hrow.
  - congruence.
  - rewrite (Hre Hp) in Hr. done.
Qed.
End Drain.

(** ** Witnesses *)

#[local] Instance plain_digests : Digests :=
  {| digest_request := fun _ => ""%string; digest_command := fun _ => ""%string |}.

(** The running sample while a pause that ends at 15 drains it, at 20. *)
Definition sample_park : RunPark :=
  {| park_admitted_turns := []; park_immediate := false; park_deadline_at := Some (seconds 15);
     park_control_id := MkIdentity "control"; park_epoch := 1 |}.
Definition sample_draining : CoreState :=
  sample_running
    <| core_run := sample_run <| run_status := RunStatus.DRAINING |> <| run_park := Some sample_park |>
                              <| run_now_at := seconds 20 |> |>.

Lemma drain_parks_quiet_witness :
  run_status (core_run (fst (advance sample_draining))) = RunStatus.PARKED
  /\ keys (fst (advance sample_draining)) = keys sample_draining.
Proof.
  split; [vm_compute; reflexivity|].
  pose proof (drain_parks_quiet sample_draining sample_park) as Hquiet.
  destruct (advance sample_draining) as [after pending].
  destruct Hquiet as (Hkeys & _); [reflexivity|reflexivity|exact Hkeys].
Defined.

Lemma drain_deadline_parks_witness :
  advance sample_draining
  = (with_status (interrupt sample_draining sample_park) RunStatus.PARKED, []).
Proof.
  apply drain_deadline_parks.
  - reflexivity.
  - reflexivity.
  - vm_compute. reflexivity.
  - vm_compute. reflexivity.
  - intros row Hin _. left. vm_compute in Hin. apply list_elem_of_singleton in Hin as ->.
    vm_compute. reflexivity.
Defined.
