(* ===== verification/Decide.v ===== *)
(** * The recovery rule

    [libs/vs-core/src/vs_core/_decide.py]: [decide], the function of the folded state and the run
    clock that says what the runner loop does next, and the records of attempts as the fold
    applies them.  The kernel's reducers ([_step.step]) are not modelled, so of the fold's
    records these are the ones that no reducer handles. *)

From S2P Require Import Prelude PyFloat Identities Values Requests Records State Control Clock.
From S2P Require Import Samples Proofs Permit Order Attempts Park.

(** What [decide] could raise: a backoff that overflows, or a ledger that names a step twice *)
Inductive DecideError : Set :=
  | BackoffOverflow
  | LedgerRefused (reason : RefusalReason).

Definition lift_refusal {A} (c : result RefusalReason A) : result DecideError A :=
  match c with Ok a => Ok a | Err reason => Err (LedgerRefused reason) end.
Definition lift_overflow {A} (c : result ArithmeticError A) : result DecideError A :=
  match c with Ok a => Ok a | Err _ => Err BackoffOverflow end.

Section WithDigests.
Context `{Digests}.

(** [limit_of] *)
Definition limit_of (state : CoreState) (record : RequestRecord) : float :=
  bound_at (turn_bound record (core_run state)).

(** [_park_is_due]: [settle_park] registers the cancels [advance] asks for, which leaves the
    run's status as [advance] made it. *)
Definition park_is_due (recorded now : CoreState) : bool :=
  eqb (run_status (core_run recorded)) RunStatus.DRAINING
  && eqb (run_status (core_run (fst (advance now)))) RunStatus.PARKED.

(** [_run_is_ending] *)
Definition run_is_ending (state : CoreState) : bool :=
  not_none (run_result (core_run state))
  && (eqb (run_status (core_run state)) RunStatus.TERMINAL
      || eqb (stop_mode (core_run state)) (Some StopMode.CANCEL)).

(** [_run_ends_step] *)
Definition run_ends_step (state : CoreState) (record : RequestRecord) : bool :=
  run_is_ending state
  && (eqb (run_status (core_run state)) RunStatus.TERMINAL
      || eqb (request_end_policy (rec_request record) (core_registry state)) EndPolicy.CANCEL).

Definition minus_infinity : float := SpecFloat.S754_infinity true.

(** [_retry_at] *)
Definition retry_at (state : CoreState) (attempts : option StepAttempts)
    : result DecideError float :=
  match attempts with
  | Some row =>
      match row_charged_at row with
      | Some charged_at =>
          if run_is_ending state then Ok minus_infinity
          else
            let* wait := lift_overflow (delay (limits_request_retries (run_limits (core_run state)))
                                              (row_charged row)) in
            Ok (fadd charged_at wait)
      | None => Ok minus_infinity
      end
  | None => Ok minus_infinity
  end.

(** [_started_until] *)
Definition step_started_until (state : CoreState) (record : RequestRecord) : Until :=
  if not_none (rec_dispatched_at record) then rec_until record
  else
    let until := dispatch_until (facts_of state) record in
    if eqb (request_lifecycle (rec_request record)) LifecycleClass.OWNED_JOB
    then job_step_until (core_run state) until else until.

(** End the step: cancel an attempt that runs, settle a step that does not. *)
Definition end_step (running : bool) (tag : RequestId) (reason : CancelReason) : Action :=
  if running then Cancel tag reason else Settle tag (CancelledResult reason).

(** [_stop_running] *)
Definition stop_running (state : CoreState) (record : RequestRecord) (now : float)
    : option Action :=
  let tag := rec_request_id record in
  if fle (limit_of state record) now then Some (Cancel tag CancelReason.DEADLINE)
  else
    match run_park (core_run state) with
    | Some park =>
        if pause_cancels state (rec_request record) then
          let released := eqb (request_lifecycle (rec_request record)) LifecycleClass.OWNED_JOB in
          Some (Cancel tag (if park_immediate park || released then CancelReason.PAUSE_NOW
                            else CancelReason.DRAIN_EXPIRED))
        else None
    | None => None
    end.

(** [_start_or_settle] *)
Definition start_or_settle (state : CoreState) (record : RequestRecord) (now : float)
    : result DecideError (option Action) :=
  let tag := rec_request_id record in
  let attempts := attempts_of (core_steps state) tag in
  let dependencies := request_dependency_status (rec_request record)
                        (run_receipts (core_run state)) (core_records state) in
  if eqb dependencies DependencyStatus.FAILED
  then Ok (Some (Settle tag (CancelledResult CancelReason.WITHDRAWN)))
  else if not_none attempts
          && eqb (request_interrupt_policy (rec_request record)) InterruptPolicy.CANCEL
  then Ok (Some (Settle tag (CancelledResult CancelReason.INTERRUPTED)))
  else if match attempts with
          | Some row => retry_limit (core_run state) (rec_request record) <? row_charged row
          | None => false
          end
  then Ok (Some (Settle tag (FailedResult (failed_of FailureReason.ATTEMPTS_EXHAUSTED None))))
  else if fle (limit_of state record) now
  then Ok (Some (Settle tag (CancelledResult CancelReason.DEADLINE)))
  else if negb (starts state record dependencies) then Ok None
  else
    let* due := retry_at state attempts in
    if flt now due then Ok None
    else
      Ok (Some (Run (rec_request record) tag
                    (match attempts with None => 1 | Some row => row_started row + 1 end)
                    (until_at (step_started_until state record))
                    (not_none attempts))).

(** [_of_step] *)
Definition of_step (state : CoreState) (record : RequestRecord) (now : float)
    : result DecideError (option Action) :=
  let tag := rec_request_id record in
  if run_ends_step state record
  then Ok (Some (end_step (running state record) tag CancelReason.RUN_ENDING))
  else if withdrawn_by_close state record
  then Ok (Some (end_step (running state record) tag CancelReason.WITHDRAWN))
  else if not_none (fired_watch state record)
  then Ok (Some (end_step (running state record) tag CancelReason.WITHDRAWN))
  else if running state record then Ok (stop_running state record now)
  else start_or_settle state record now.

(** [_stopped_by_core] *)
Definition stopped_by_core (state : CoreState) (now : float) : result DecideError (list Action) :=
  let unconcluded := ended_unconcluded state in
  let ends record :=
    end_step (running state record) (rec_request_id record)
      (if fle (until_at (rec_until record)) now then CancelReason.DEADLINE
       else CancelReason.WITHDRAWN) in
  let* flights :=
    rmap (fun row =>
            if row_ended row then Ok []
            else
              let* by_core := lift_refusal (ended_by_core state (row_tag row)) in
              Ok (if by_core
                     && all (fun record => negb (eqb (row_tag row) (rec_request_id record))) unconcluded
                  then [Cancel (row_tag row) CancelReason.WITHDRAWN] else []))
         (steps_attempts (core_steps state)) in
  Ok (map ends unconcluded ++ concat flights).

(** [min((at for at in due if at > now), default=None)] *)
Definition next_after (now : float) (due : list float) : option float :=
  fold_left (fun best at_ =>
               if flt now at_ then
                 match best with None => Some at_ | Some held => Some (fmin held at_) end
               else best) due None.

(** [_wake_at] *)
Definition wake_at (state : CoreState) (open_steps : list RequestRecord) (now : float)
    : result DecideError (option float) :=
  let* retries :=
    rmap (fun record =>
            match attempts_of (core_steps state) (rec_request_id record) with
            | Some row =>
                if row_ended row then let* at_ := retry_at state (Some row) in Ok [at_] else Ok []
            | None => Ok []
            end) open_steps in
  let drain := match run_park (core_run state) with
               | Some park => match park_deadline_at park with Some at_ => [at_] | None => [] end
               | None => []
               end in
  Ok (next_after now (map (limit_of state) open_steps ++ concat retries ++ drain)).

Definition is_cancel (action : Action) : bool :=
  match action with Cancel _ _ => true | _ => false end.

(** [actions or (Wait(until=...),)] *)
Definition or_wait (actions : list Action) (until : result DecideError (option float))
    : result DecideError (list Action) :=
  match actions with
  | [] => let* at_ := until in Ok [Wait at_]
  | _ => Ok actions
  end.

(** [decide] *)
Definition decide (recorded : CoreState) (now : float) : result DecideError (list Action) :=
  let state := advance_run_time recorded now in
  let open_steps := List.filter is_open (rows_of state) in
  match at_rest state with
  | Some RunRest.ENDED => Ok [Wait None]
  | rest =>
      if park_is_due recorded state then Ok [Tick now]
      else if eqb rest (Some RunRest.PARKED) then
        let* by_core := stopped_by_core state now in
        let stops :=
          map (fun record => Cancel (rec_request_id record) CancelReason.PAUSE_NOW)
              (List.filter (running state) open_steps)
          ++ List.filter is_cancel by_core in
        or_wait stops (Ok None)
      else
        match run_result (core_run state), open_steps with
        | Some result, [] =>
            if eqb (run_status (core_run state)) RunStatus.TERMINAL then Ok [End result]
            else
              let* by_core := stopped_by_core state now in
              or_wait by_core (wake_at state open_steps now)
        | _, _ =>
            let* by_core := stopped_by_core state now in
            let* of_steps := rmap (fun record => of_step state record now) open_steps in
            or_wait (by_core ++ omap id of_steps) (wake_at state open_steps now)
        end
  end.

(** [start_due]: [inl] the refusal *)
Definition start_due (state : CoreState) (tag : RequestId) (now : float)
    : result DecideError (RefusalReason + Action) :=
  match record_of (core_records state) (Some tag) with
  | None => Ok (inl RefusalReason.STEP_NOT_OPEN)
  | Some record =>
      if negb (is_open record) then Ok (inl RefusalReason.STEP_NOT_OPEN)
      else
        let advanced := advance_run_time state now in
        let* action := if park_is_due state advanced then Ok None
                       else of_step advanced record now in
        Ok (match action with
            | Some (Run step tag attempt deadline clear) => inr (Run step tag attempt deadline clear)
            | _ => inl RefusalReason.START_NOT_DUE
            end)
  end.

(** [may_start] *)
Definition may_start (state : CoreState) (tag : RequestId) (now : float)
    : result DecideError bool :=
  let* due := start_due state tag now in
  Ok match due with inr _ => true | inl _ => false end.

(** [_start], of the fields of a [StepStarted] record *)
Definition start (state : CoreState) (tag : RequestId) (attempt : Z) (request : Request)
    (deadline_at : float) : result DecideError CoreState :=
  let* record := lift_refusal (open_record state tag) in
  let* due := start_due state tag (run_now_at (core_run state)) in
  match due with
  | inl reason => Err (LedgerRefused reason)
  | inr _ =>
      lift_refusal (started state tag attempt request
        {| until_at := deadline_at; until_watches := until_watches (rec_until record) |})
  end.
End WithDigests.

(** ** What a decision comes from *)

Section WithDigests.
Context `{Digests}.

Definition is_run (action : Action) : bool :=
  match action with Run _ _ _ _ _ => true | _ => false end.

(** The step an action ends. *)
Definition ends (action : Action) : option RequestId :=
  match action with Cancel tag _ | Settle tag _ => Some tag | _ => None end.

Lemma end_step_ends running tag reason : ends (end_step running tag reason) = Some tag.
Proof. by destruct running. Qed.

(** The actions that stop what the core ended each end a step. *)
Lemma stopped_by_core_ends state now actions :
  stopped_by_core state now = Ok actions ->
  forall action, action ∈ actions -> exists tag, ends action = Some tag.
Proof.
  unfold stopped_by_core. intros (flights & Hfl & E)%rbind_Ok action Hin. simplify_eq.
  apply elem_of_app in Hin as [Hin|Hin].
  - apply list_elem_of_fmap in Hin as (record & -> & _). eexists. apply end_step_ends.
  - apply list_elem_of_In, in_concat in Hin as (flight & Hf & Hin).
    apply list_elem_of_In in Hf. apply list_elem_of_In in Hin.
    apply (rmap_In _ _ _ _ Hfl) in Hf as (row & _ & Hrow).
    destruct (row_ended row); simplify_eq; [by apply not_elem_of_nil in Hin|].
    apply rbind_Ok in Hrow as (by_core & _ & Hrow). simplify_eq.
    destruct (_ && _); [|by apply not_elem_of_nil in Hin].
    apply list_elem_of_singleton in Hin as ->. by eexists.
Qed.

Lemma stopped_by_core_no_run state now actions :
  stopped_by_core state now = Ok actions -> forall action, action ∈ actions -> is_run action = false.
Proof.
  intros E action Hin. destruct (stopped_by_core_ends _ _ _ E _ Hin) as [tag Hends]. by destruct action.
Qed.

Lemma at_rest_None state : at_rest state = None -> run_status (core_run state) <> RunStatus.PARKED.
Proof. unfold at_rest. intros E Hstatus. rewrite Hstatus in E. by destruct (_ && _). Qed.

(** The branch of [decide] that starts steps: the run is not at rest and no park is due. *)
Record under_way (recorded : CoreState) (now : float) : Prop := {
  way_rest : at_rest (advance_run_time recorded now) = None;
  way_park : park_is_due recorded (advance_run_time recorded now) = false
}.

Definition open_steps (state : CoreState) : list RequestRecord := List.filter is_open (rows_of state).

Lemma decide_actions recorded now actions :
  decide recorded now = Ok actions -> let state := advance_run_time recorded now in
  (forall action, action ∈ actions -> is_run action = false) \/
  under_way recorded now /\
  exists by_core of_steps, stopped_by_core state now = Ok by_core
    /\ rmap (fun record => of_step state record now) (open_steps state) = Ok of_steps
    /\ or_wait (by_core ++ omap id of_steps) (wake_at state (open_steps state) now) = Ok actions.
Proof.
  intros E state. unfold decide in E. fold state in E. fold (open_steps state) in E.
  assert (Hwait : forall l u, or_wait l u = Ok actions -> (forall a, a ∈ l -> is_run a = false) ->
    forall action, action ∈ actions -> is_run action = false).
  { intros [|a l] u Hw Hl action Hin; simpl in Hw; [|simplify_eq; by apply Hl].
    apply rbind_Ok in Hw as (at_ & _ & Hw). simplify_eq. by apply list_elem_of_singleton in Hin as ->. }
  destruct (at_rest state) as [[]|] eqn:Hrest.
  - left. simplify_eq. by intros ? ->%list_elem_of_singleton.
  - left. destruct (park_is_due recorded state); [simplify_eq; by intros ? ->%list_elem_of_singleton|].
    simpl in E. apply rbind_Ok in E as (by_core & Hcore & E). eapply Hwait; [exact E|].
    intros action [Hin|Hin]%elem_of_app.
    + by apply list_elem_of_fmap in Hin as (record & -> & _).
    + apply elem_of_filterb in Hin as [Hin _]. by eapply stopped_by_core_no_run.
  - destruct (park_is_due recorded state) eqn:Hpark;
      [left; simplify_eq; by intros ? ->%list_elem_of_singleton|]. simpl in E.
    destruct (run_result (core_run state)) as [result|] eqn:Hresult;
      [destruct (open_steps state) as [|record rest] eqn:Hopen|].
    + left. destruct (eqb _ _); [simplify_eq; by intros ? ->%list_elem_of_singleton|].
      apply rbind_Ok in E as (by_core & Hcore & E). eapply Hwait; [exact E|].
      by eapply stopped_by_core_no_run.
    + right. split; [by split|]. apply rbind_Ok in E as (by_core & Hcore & E).
      apply rbind_Ok in E as (of_steps & Hof & E). by exists by_core, of_steps.
    + right. split; [by split|]. apply rbind_Ok in E as (by_core & Hcore & E).
      apply rbind_Ok in E as (of_steps & Hof & E). by exists by_core, of_steps.
Qed.

Lemma or_wait_In l u actions action :
  or_wait l u = Ok actions -> action ∈ actions -> action ∈ l \/ exists at_, action = Wait at_.
Proof.
  destruct l as [|a l]; simpl; [|intros; simplify_eq; by left].
  intros (at_ & _ & E)%rbind_Ok Hin. simplify_eq. apply list_elem_of_singleton in Hin. eauto.
Qed.

Lemma decide_Run recorded now actions step tag attempt deadline clear :
  decide recorded now = Ok actions -> Run step tag attempt deadline clear ∈ actions ->
  under_way recorded now /\
  exists record, record ∈ open_steps (advance_run_time recorded now) /\
    of_step (advance_run_time recorded now) record now = Ok (Some (Run step tag attempt deadline clear)).
Proof.
  intros E Hin. apply decide_actions in E as [Hno|(Hway & by_core & of_steps & Hcore & Hof & E)].
  { by apply Hno in Hin. }
  split; [done|]. apply (or_wait_In _ _ _ _ E) in Hin as [Hin|[at_ Hin]]; [|done].
  apply elem_of_app in Hin as [Hin|Hin]; [by eapply stopped_by_core_no_run in Hin|].
  apply list_elem_of_omap in Hin as ([action|] & Hin & Heq); simplify_eq/=.
  by apply (rmap_In _ _ _ _ Hof) in Hin.
Qed.

(** What must hold of a step for [decide] to start it. *)
Record startable (state : CoreState) (record : RequestRecord) (now : float) : Prop := {
  startable_live : run_ends_step state record = false /\ withdrawn_by_close state record = false
    /\ fired_watch state record = None;
  startable_idle : running state record = false;
  startable_needs : request_dependency_status (rec_request record) (run_receipts (core_run state))
                      (core_records state) = DependencyStatus.SUCCEEDED;
  startable_rerun : attempts_of (core_steps state) (rec_request_id record) <> None ->
    request_interrupt_policy (rec_request record) <> InterruptPolicy.CANCEL;
  startable_tries : forall row, attempts_of (core_steps state) (rec_request_id record) = Some row ->
    row_charged row <= retry_limit (core_run state) (rec_request record);
  startable_time : fle (limit_of state record) now = false;
  startable_admitted : admits state (rec_request record) = true;
  startable_order : holds_back state record = false;
  startable_backoff : exists due,
    retry_at state (attempts_of (core_steps state) (rec_request_id record)) = Ok due
    /\ flt now due = false
}.

(** The start of a step. *)
Definition start_of (state : CoreState) (record : RequestRecord) : Action :=
  Run (rec_request record) (rec_request_id record)
      (expected_attempt (attempts_of (core_steps state) (rec_request_id record)))
      (until_at (step_started_until state record))
      (not_none (attempts_of (core_steps state) (rec_request_id record))).

Lemma of_step_Run state record now step tag attempt deadline clear :
  of_step state record now = Ok (Some (Run step tag attempt deadline clear)) ->
  startable state record now /\ start_of state record = Run step tag attempt deadline clear.
Proof.
  unfold of_step. intros E.
  destruct (run_ends_step state record) eqn:Hends; [by destruct (running state record)|].
  destruct (withdrawn_by_close state record) eqn:Hclose; [by destruct (running state record)|].
  destruct (fired_watch state record) eqn:Hwatch; simpl in E; [by destruct (running state record)|].
  destruct (running state record) eqn:Hrun.
  { unfold stop_running in E. by repeat destruct_match. }
  unfold start_or_settle in E. set (attempts := attempts_of _ _) in *.
  set (needs := request_dependency_status _ _ _) in *.
  destruct (eqb needs DependencyStatus.FAILED) eqn:Hneeds; [done|]. apply eqb_neq in Hneeds.
  destruct (not_none attempts && _) eqn:Hrerun; [done|].
  destruct (match attempts with Some row => _ | None => false end) eqn:Htries; [done|].
  destruct (fle (limit_of state record) now) eqn:Htime; [done|].
  destruct (starts state record needs) eqn:Hstarts; [|done]. simpl in E.
  apply rbind_Ok in E as (due & Hdue & E). destruct (flt now due) eqn:Hback; [done|].
  injection E as <- <- <- <- <-. unfold starts in Hstarts. to_prop.
  split; [split|done]; try done.
  - fold needs. by destruct needs.
  - intros Hsome. fold attempts in Hsome. destruct attempts; [|done]. by apply eqb_neq in Hrerun.
  - fold attempts. intros row Hrow. rewrite Hrow in Htries. lia.
  - by exists due.
Qed.
End WithDigests.

(** ** The attempts at a later clock *)

Lemma moved_keys state state' : clock_moved state state' -> keys state' = keys state.
Proof.
  intros Hmoved. unfold keys. induction (moved_rows _ _ Hmoved) as [|row row' l l' [at_ ->] _ IH];
    simpl; [done|]. by rewrite IH.
Qed.

Lemma moved_wf state state' : clock_moved state state' -> attempts_wf state -> attempts_wf state'.
Proof.
  intros Hmoved [Hid Hnd Hok Htr]. pose proof (moved_keys _ _ Hmoved) as Hkeys.
  pose proof (moved_attempts _ _ Hmoved) as Hrows. split; unfold identified, tracked; rewrite ?Hkeys.
  - done.
  - assert (map row_tag (rows state') = map row_tag (rows state)) as ->; [|done]. unfold rows.
    induction Hrows as [|row row' l l' [d ->] _ IH]; simpl; [done|]. by rewrite IH.
  - unfold rows in *. eapply Forall2_Forall_r; [exact Hrows|].
    eapply Forall_impl; [exact Hok|]. by intros row Hrow row' [d ->].
  - intros row' Hin. unfold rows in *.
    apply list_elem_of_lookup in Hin as (i & Hi).
    destruct (Forall2_lookup_r _ _ _ _ _ Hrows Hi) as (row & Hrow & [d ->]).
    apply (Htr row). by eapply list_elem_of_lookup_2.
Qed.

Lemma moved_charged state state' bound :
  clock_moved state state' -> (forall row, row ∈ rows state -> row_charged row <= bound) ->
  forall row, row ∈ rows state' -> row_charged row <= bound.
Proof.
  intros Hmoved Hb row' Hin. unfold rows in *. apply list_elem_of_lookup in Hin as (i & Hi).
  destruct (Forall2_lookup_r _ _ _ _ _ (moved_attempts _ _ Hmoved) Hi) as (row & Hrow & [d ->]).
  apply (Hb row). by eapply list_elem_of_lookup_2.
Qed.

Section Total.
Context `{Digests}.

Lemma retry_at_total state attempts :
  (forall row, attempts = Some row -> row_charged row <= 1024) ->
  exists due, retry_at state attempts = Ok due.
Proof.
  intros Hb. unfold retry_at. destruct attempts as [row|]; [|by eexists].
  destruct (row_charged_at row); [|by eexists]. destruct (run_is_ending state); [by eexists|].
  unfold delay, power_of_two. destruct (Z.ltb_spec (Z.max (row_charged row - 1) 0) 1024); simpl.
  - by eexists.
  - specialize (Hb _ eq_refl). lia.
Qed.

Context (state : CoreState) (Hwf : attempts_wf state).
Context (Hcharged : forall row, row ∈ rows state -> row_charged row <= 1024).

Lemma tries_bounded tag row :
  attempts_of (core_steps state) tag = Some row -> row_charged row <= 1024.
Proof. intros [Hin _]%attempts_of_Some. by apply Hcharged. Qed.

Lemma stopped_by_core_total now : exists actions, stopped_by_core state now = Ok actions.
Proof.
  unfold stopped_by_core.
  match goal with |- context [rmap ?f ?l] => destruct (rmap_total f l) as (flights & ->) end.
  - intros row Hin. destruct (row_ended row); [by eexists|].
    destruct (open_record_total state (row_tag row)) as [[-> _]|[-> _]]; [apply Hwf|by apply Hwf|..];
      by eexists.
  - by eexists.
Qed.

Lemma of_step_total record now : exists action, of_step state record now = Ok action.
Proof.
  unfold of_step, start_or_settle.
  repeat (case_match; [by eexists|]).
  destruct (retry_at_total state (attempts_of (core_steps state) (rec_request_id record)))
    as (due & ->); [apply tries_bounded|]. simpl.
  repeat case_match; by eexists.
Qed.

Lemma wake_at_total open_steps now : exists at_, wake_at state open_steps now = Ok at_.
Proof.
  unfold wake_at. match goal with |- context [rmap ?f ?l] => destruct (rmap_total f l) as (r & ->) end.
  - intros record _. destruct (attempts_of _ _) as [row|] eqn:Hrow; [|by eexists].
    destruct (row_ended row); [|by eexists].
    destruct (retry_at_total state (Some row)) as (due & ->); [|simpl; by eexists].
    intros other [= <-]. by eapply tries_bounded.
  - by eexists.
Qed.
End Total.

Section Starts.
Context `{Digests}.

(** ** What the fold makes of a start *)

Lemma advance_run_time_now state now :
  is_nan now = false -> run_now_at (core_run state) = now -> advance_run_time state now = state.
Proof.
  intros Hnan Hnow. unfold advance_run_time. rewrite Hnow. unfold fmax.
  rewrite flt_irrefl, feq_refl by done. done.
Qed.

Lemma open_steps_find state record :
  identified state -> record ∈ open_steps state ->
  find (core_records state) (Some (rec_request_id record)) = [record] /\ is_open record = true.
Proof.
  intros Hid [Hin Hopen]%elem_of_filterb. split; [|done]. rewrite find_scan.
  apply filter_key_unique; [|done]. unfold identified, keys in Hid. by rewrite map_map in Hid.
Qed.

Lemma moved_status state state' :
  clock_moved state state' -> run_status (core_run state') = run_status (core_run state).
Proof. by intros [[now ->] _ _ _ _ _]. Qed.

(** A step that may start at the time the state's clock reads is due. *)
Lemma start_due_Run state record now :
  identified state -> is_nan now = false -> run_now_at (core_run state) = now ->
  park_is_due state state = false -> record ∈ open_steps state ->
  of_step state record now = Ok (Some (start_of state record)) ->
  start_due state (rec_request_id record) now = Ok (inr (start_of state record)).
Proof.
  intros Hid Hnan Hnow Hpark Hin E. apply open_steps_find in Hin as [Hfind Hopen]; [|done].
  unfold start_due. rewrite record_of_find, Hfind. simpl. rewrite Hopen. simpl.
  rewrite (advance_run_time_now state now) by done. rewrite Hpark, E. done.
Qed.

(** The fold takes the start of a due step, and the step then runs that attempt. *)
Lemma start_Ok state record now deadline :
  identified state -> is_nan now = false -> run_now_at (core_run state) = now ->
  park_is_due state state = false -> record ∈ open_steps state ->
  of_step state record now = Ok (Some (start_of state record)) ->
  exists state' row,
    start state (rec_request_id record)
      (expected_attempt (attempts_of (core_steps state) (rec_request_id record)))
      (rec_request record) deadline = Ok state'
    /\ attempts_of (core_steps state') (rec_request_id record) = Some row
    /\ row_started row = expected_attempt (attempts_of (core_steps state) (rec_request_id record))
    /\ row_ended row = false.
Proof.
  intros Hid Hnan Hnow Hpark Hin E. pose proof (start_due_Run _ _ _ Hid Hnan Hnow Hpark Hin E) as Hdue.
  apply open_steps_find in Hin as [Hfind Hopen]; [|done].
  pose proof (open_record_find _ _ _ Hfind Hopen) as Hrec.
  unfold start. rewrite Hrec. simpl. rewrite Hnow, Hdue. simpl.
  unfold started. rewrite Hrec. simpl.
  assert (Hended : match attempts_of (core_steps state) (rec_request_id record) with
                   | Some row => row_ended row | None => true end = true).
  { apply of_step_Run in E as [[_ Hidle _ _ _ _ _ _ _] _]. unfold running in Hidle.
    destruct (attempts_of _ _); [by apply negb_false_iff in Hidle|done]. }
  unfold expected_attempt. rewrite Z.eqb_refl, eqb_refl, Hended. simpl.
  eexists _, _. split; [reflexivity|]. rewrite attempts_of_with_row by done.
  by rewrite decide_True.
Qed.
End Starts.

(** ** What ends, and what a wait wakes for *)

Section Ends.
Context `{Digests}.

(** A step past its limit is ended, whatever else holds of it. *)
Lemma of_step_expired state record now :
  fle (limit_of state record) now = true ->
  exists action, of_step state record now = Ok (Some action)
                 /\ ends action = Some (rec_request_id record).
Proof.
  intros Hlimit. unfold of_step.
  destruct (run_ends_step state record); [eexists; split; [done|apply end_step_ends]|].
  destruct (withdrawn_by_close state record); [eexists; split; [done|apply end_step_ends]|].
  destruct (not_none (fired_watch state record)); [eexists; split; [done|apply end_step_ends]|].
  destruct (running state record).
  - unfold stop_running. rewrite Hlimit. eexists; split; reflexivity.
  - unfold start_or_settle. rewrite Hlimit.
    destruct (eqb _ DependencyStatus.FAILED); [eexists; split; reflexivity|].
    destruct (not_none _ && _); [eexists; split; reflexivity|].
    destruct (match attempts_of _ _ with Some _ => _ | None => false end);
      eexists; split; reflexivity.
Qed.

(** [decide] away from rest, with a step open. *)
Lemma decide_under_way recorded now record :
  under_way recorded now -> record ∈ open_steps (advance_run_time recorded now) ->
  decide recorded now =
    (let* by_core := stopped_by_core (advance_run_time recorded now) now in
     let* of_steps := rmap (fun record => of_step (advance_run_time recorded now) record now)
                           (open_steps (advance_run_time recorded now)) in
     or_wait (by_core ++ omap id of_steps)
             (wake_at (advance_run_time recorded now) (open_steps (advance_run_time recorded now)) now)).
Proof.
  intros [Hrest Hpark] Hin. unfold decide. rewrite Hrest, Hpark. simpl.
  fold (open_steps (advance_run_time recorded now)).
  destruct (run_result (core_run (advance_run_time recorded now))); [|done].
  by destruct (open_steps (advance_run_time recorded now)); [apply not_elem_of_nil in Hin|].
Qed.

Lemma of_step_In recorded now record actions action :
  under_way recorded now -> record ∈ open_steps (advance_run_time recorded now) ->
  decide recorded now = Ok actions ->
  of_step (advance_run_time recorded now) record now = Ok (Some action) -> action ∈ actions.
Proof.
  intros Hway Hin E Hstep. rewrite (decide_under_way _ _ _ Hway Hin) in E.
  apply rbind_Ok in E as (by_core & _ & E). apply rbind_Ok in E as (of_steps & Hof & E).
  pose proof (rmap_hit _ _ _ _ _ Hof Hin Hstep) as Hhit.
  assert (action ∈ by_core ++ omap id of_steps) as Hact.
  { apply elem_of_app. right. apply list_elem_of_omap. by exists (Some action). }
  destruct (by_core ++ omap id of_steps); simpl in E; [by apply not_elem_of_nil in Hact|].
  by simplify_eq.
Qed.

(** Neither rule of a step waits. *)
Definition is_wait (action : Action) : bool := match action with Wait _ => true | _ => false end.

Lemma no_wait state now by_core of_steps :
  stopped_by_core state now = Ok by_core ->
  rmap (fun record => of_step state record now) (open_steps state) = Ok of_steps ->
  forall action, action ∈ by_core ++ omap id of_steps -> is_wait action = false.
Proof.
  intros Hcore Hof action [Hin|Hin]%elem_of_app.
  - destruct (stopped_by_core_ends _ _ _ Hcore _ Hin) as [tag Hends]. by destruct action.
  - apply list_elem_of_omap in Hin as ([a|] & Hin & Heq); simplify_eq/=.
    apply (rmap_In _ _ _ _ Hof) in Hin as (record & _ & Hstep).
    destruct action as [| | |u| |]; try done. exfalso.
    unfold of_step, end_step, stop_running, start_or_settle in Hstep.
    repeat (case_match; simplify_eq/=).
    apply rbind_Ok in Hstep as (due & _ & Hstep). by destruct (flt now due).
Qed.

(** The earliest time after [now] of those due. *)
Lemma next_after_spec now due : forall best held,
  (forall at_, best = Some at_ -> flt now at_ = true) ->
  fold_left (fun best at_ =>
               if flt now at_ then
                 match best with None => Some at_ | Some held => Some (fmin held at_) end
               else best) due best = held ->
  (forall at_, held = Some at_ -> flt now at_ = true) /\
  forall at_, flt now at_ = true -> at_ ∈ due \/ best = Some at_ ->
    exists first, held = Some first /\ fle first at_ = true.
Proof.
  assert (Hnan : forall x, flt now x = true -> is_nan x = false) by (by intros x (_ & ? & _)%flt_rank).
  induction due as [|x due IH]; intros best held Hbest Hheld; simpl in Hheld.
  { subst. split; [done|]. intros at_ Hlt [Hin| ->]; [by apply not_elem_of_nil in Hin|].
    exists at_. split; [done|]. by apply fle_refl, Hnan. }
  destruct (flt now x) eqn:Hx.
  - destruct (IH (Some match best with Some held => fmin held x | None => x end) held) as [Hh Hall].
    + intros at_ [= <-]. destruct best as [b|]; [|done]. unfold fmin. destruct (flt x b); [done|].
      by apply Hbest.
    + by destruct best.
    + split; [done|]. intros at_ Hlt Hin.
      assert (exists y, flt now y = true /\ fle y at_ = true
        /\ (y ∈ due \/ Some match best with Some held => fmin held x | None => x end = Some y))
        as (y & Hy & Hle & Hyin).
      { destruct Hin as [[->|Hin]%elem_of_cons| ->].
        - eexists. split; [|split; [|by right]]; destruct best as [b|]; try done.
          + unfold fmin. destruct (flt x b); [done|]. by apply Hbest.
          + apply fmin_le_r; [apply Hnan, Hbest; done|by apply Hnan].
          + by apply fle_refl, Hnan.
        - exists at_. split; [done|]. split; [by apply fle_refl, Hnan|by left].
        - exists (fmin at_ x). split; [unfold fmin; by destruct (flt x at_)|]. split; [|by right].
          apply fmin_le_l. by apply Hnan. }
      destruct (Hall y Hy Hyin) as (first & -> & Hfirst). exists first. split; [done|].
      by eapply fle_trans.
  - destruct (IH best held Hbest Hheld) as [Hh Hall]. split; [done|].
    intros at_ Hlt [[->|Hin]%elem_of_cons|Heq]; [congruence|apply Hall; auto|apply Hall; auto].
Qed.

Lemma next_after_le now due at_ :
  at_ ∈ due -> flt now at_ = true ->
  exists first, next_after now due = Some first /\ flt now first = true /\ fle first at_ = true.
Proof.
  intros Hin Hlt. destruct (next_after_spec now due None (next_after now due)) as [Hh Hall]; [done..|].
  destruct (Hall at_ Hlt) as (first & E & Hle); [by left|]. exists first. auto.
Qed.
End Ends.

(** ** How often a step is tried *)

(** The tries of a step the log owes or holds: those charged, and one a dead host left open. *)
Definition tries (row : StepAttempts) : Z :=
  row_charged row + (if row_unsettled row then 1 else 0).

(** A step is tried once, and again as often as its limit allows. *)
Definition tries_allowed (state : CoreState) (request : Request) : Z :=
  Z.max 0 (retry_limit (core_run state) request) + 1.

Definition tries_bounded_by_limit (state : CoreState) : Prop :=
  forall row request, row ∈ rows state -> (row_tag row, request) ∈ keys state ->
    tries row <= tries_allowed state request.

Section Tries.
Context `{Digests}.

(** One record of the log at the time it was written: the fold advances the clock to it, then
    applies it.  A start passes [start]. *)
Definition fold_record (state : CoreState) (entry : float * AttemptRecord)
    : result DecideError CoreState :=
  let state := advance_run_time state (fst entry) in
  match snd entry with
  | Started tag attempt request deadline => start state tag attempt request (until_at deadline)
  | record => lift_refusal (apply_attempt state record)
  end.

Lemma limits_tries_allowed state state' request :
  run_limits (core_run state') = run_limits (core_run state) ->
  tries_allowed state' request = tries_allowed state request.
Proof. intros E. unfold tries_allowed, retry_limit. by rewrite E. Qed.

Lemma moved_limits state state' :
  clock_moved state state' -> run_limits (core_run state') = run_limits (core_run state).
Proof. by intros [[now ->] _ _ _ _ _]. Qed.

Lemma moved_bounded state state' :
  clock_moved state state' -> tries_bounded_by_limit state -> tries_bounded_by_limit state'.
Proof.
  intros Hmoved Hb row' request Hin. rewrite (moved_keys _ _ Hmoved).
  rewrite (limits_tries_allowed _ _ _ (moved_limits _ _ Hmoved)).
  unfold rows in *. apply list_elem_of_lookup in Hin as (i & Hi).
  destruct (Forall2_lookup_r _ _ _ _ _ (moved_attempts _ _ Hmoved) Hi) as (row & Hrow & [d ->]).
  apply (Hb row). by eapply list_elem_of_lookup_2.
Qed.

(** A start the fold takes is of a step its limit lets try again. *)
Lemma start_tries state tag attempt request deadline state' :
  identified state -> start state tag attempt request deadline = Ok state' ->
  exists record until, find (core_records state) (Some tag) = [record]
    /\ started state tag attempt request until = Ok state'
    /\ forall row, attempts_of (core_steps state) tag = Some row ->
       row_charged row <= retry_limit (core_run state) (rec_request record).
Proof.
  intros Hid E. unfold start in E. apply rbind_Ok in E as (record & Hrec & E).
  assert (open_record state tag = Ok record) as Hopen
    by (unfold lift_refusal in Hrec; destruct (open_record state tag); by simplify_eq).
  apply open_record_Ok in Hopen as (Hfind & Hopen & Htag).
  apply rbind_Ok in E as (due & Hdue & E). destruct due as [reason|action]; [done|].
  exists record. eexists. split; [done|].
  split; [unfold lift_refusal in E; destruct (started _ _ _ _ _) eqn:Hs; by simplify_eq|].
  intros row Hrow. unfold start_due in Hdue. rewrite record_of_find, Hfind in Hdue. simpl in Hdue.
  rewrite Hopen in Hdue. simpl in Hdue. set (later := advance_run_time _ _) in Hdue.
  assert (clock_moved state later) as Hmoved by apply advance_run_time_moved.
  apply rbind_Ok in Hdue as (due & Hstep & Hdue). destruct (park_is_due state later); [by simplify_eq|].
  destruct due as [[]|]; simplify_eq. apply of_step_Run in Hstep as [Hstart _].
  destruct Hstart as [_ _ _ _ Htries _ _ _ _].
  pose proof (moved_attempts_of Hmoved (rec_request_id record)) as Hof. rewrite Hrow in Hof.
  destruct (attempts_of (core_steps later) (rec_request_id record)) as [row'|]; [|by inversion Hof].
  inversion Hof as [? ? [d ->]|]; subst. specialize (Htries _ eq_refl). revert Htries.
  unfold retry_limit. by rewrite (moved_limits _ _ Hmoved).
Qed.

Lemma with_row_bounded state tag row request :
  NoDup (map fst (keys state)) -> (tag, request) ∈ keys state -> row_tag row = tag ->
  tries row <= tries_allowed state request -> tries_bounded_by_limit state ->
  tries_bounded_by_limit (with_row state tag row).
Proof.
  intros Hid Hkey Htag Hrow Hb other req Hin Hreq. apply elem_of_app in Hin as [Hin|Hin].
  - apply elem_of_others in Hin as [Hin _]. by apply Hb.
  - apply list_elem_of_singleton in Hin as ->. change (keys (with_row state tag row)) with (keys state) in Hreq.
    pose proof (key_inj fst _ _ _ Hid Hreq Hkey) as E. simpl in E. rewrite Htag in E.
    injection (E eq_refl) as ->. done.
Qed.

Lemma same_bounded state state' :
  same_ledger state state' -> tries_bounded_by_limit state -> tries_bounded_by_limit state'.
Proof.
  intros [Hkeys Hsteps Hrun _] Hb row request. unfold rows, tries_allowed. rewrite Hkeys, Hsteps, Hrun.
  apply Hb.
Qed.

Lemma started_bounded state tag attempt request until state' :
  attempts_wf state -> started state tag attempt request until = Ok state' ->
  (forall row, attempts_of (core_steps state) tag = Some row ->
     row_charged row <= retry_limit (core_run state) request) ->
  tries_bounded_by_limit state -> tries_bounded_by_limit state'.
Proof.
  intros Hwf E Htries Hb.
  apply started_Ok in E as (record & record' & row & Hfind & _ & <- & -> & Hend & Hkey
    & Htag & Hst & Hrun & Hset & Hunch & ->).
  apply find_key_in in Hfind as Hin. assert (Hsame : same_ledger state (replaced state record')).
  { apply replaced_same; [apply Hwf|by rewrite Hkey]. }
  apply find_single in Hfind as [Hid _]. pose proof (same_keys _ _ Hsame) as Hkeys.
  apply (with_row_bounded _ _ _ (rec_request record)); rewrite ?Hkeys;
    [apply Hwf|by rewrite <- Hid|done| |by eapply same_bounded].
  unfold tries, tries_allowed, row_charged. rewrite Hset, Hst, Hunch.
  change (core_run (replaced state record')) with (core_run state). unfold expected_attempt.
  destruct (attempts_of (core_steps state) tag) as [previous|] eqn:Hprev; [|lia].
  specialize (Htries _ eq_refl). unfold row_charged in Htries. lia.
Qed.

Lemma interrupted_row_tries row why now :
  row_ok row ->
  (if eqb why Interruption.LOST then row_unsettled row = true else row_ended row = false) ->
  tries (interrupted_row row why now) <= tries row.
Proof.
  intros (_ & _ & Hrun & _) Hcond. unfold interrupted_row, tries, row_charged.
  destruct (eqb why Interruption.LOST) eqn:E; simpl; [rewrite Hcond; lia|].
  destruct (Hrun Hcond) as [_ ->]. destruct (interruption_charged why); lia.
Qed.

Lemma ended_row_tries parked row : row_ok row -> tries (ended_row parked row) <= tries row.
Proof.
  intros (_ & _ & Hrun & _). unfold ended_row, tries, row_charged. simpl.
  destruct (row_ended row) eqn:E; simpl; [rewrite orb_false_r; lia|].
  destruct (Hrun eq_refl) as [_ ->]. destruct parked; simpl; lia.
Qed.

Lemma apply_attempt_bounded state r state' :
  attempts_wf state -> (forall tag attempt request until, r <> Started tag attempt request until) ->
  apply_attempt state r = Ok state' -> tries_bounded_by_limit state -> tries_bounded_by_limit state'.
Proof.
  intros Hwf Hr E Hb. destruct r as [tag attempt request until|tag attempt why|epoch|tag]; simpl in E.
  - by destruct (Hr tag attempt request until).
  - apply interrupted_Ok in E as (row & Hrow & _ & Hcond & [[_ ->]|(_ & before & Hsame & ->)]); [| |apply Hwf].
    + intros other request [Hin _]%elem_of_others. by apply Hb.
    + destruct (wf_row _ _ _ Hwf Hrow) as (Hok & Htag & Hin).
      apply list_elem_of_fmap in Hin as ([t request] & Heq & Hin). simpl in Heq. subst t.
      pose proof (same_keys _ _ Hsame) as Hkeys. apply attempts_of_Some in Hrow as [Hrow _].
      apply (with_row_bounded _ _ _ request); rewrite ?Hkeys;
        [apply Hwf|done| | |by eapply same_bounded].
      * unfold interrupted_row. by destruct (eqb why Interruption.LOST).
      * etrans; [by apply interrupted_row_tries|]. rewrite (limits_tries_allowed state).
        { apply Hb; [done|by rewrite Htag]. } by rewrite (same_run _ _ Hsame).
  - apply epoch_opened_Ok in E as [[_ ->]|Hres]; [done| |done].
    intros row request Hin Hkey. rewrite (epoch_keys _ _ _ Hres) in Hkey.
    rewrite (limits_tries_allowed state) by apply Hres.
    apply (attempts_of_In _ _ (wf_distinct _ (epoch_wf _ _ _ Hres))) in Hin.
    apply (epoch_only _ _ _ Hres) in Hin as [(old & Hold & ->)|(_ & _ & Hst & Hun & _ & Hset)].
    + destruct (wf_row _ _ _ Hwf Hold) as (Hok & _ & _). apply attempts_of_Some in Hold as [Hold _].
      etrans; [by apply ended_row_tries|]. by apply Hb.
    + unfold tries, tries_allowed, row_charged. rewrite Hst, Hun, Hset. lia.
  - simplify_eq. intros other request [Hin _]%elem_of_others. by apply Hb.
Qed.

Lemma lift_refusal_Ok {A} (c : fold_result A) a : lift_refusal c = Ok a -> c = Ok a.
Proof. unfold lift_refusal. by destruct c; intros; simplify_eq. Qed.

(** The two invariants of the fold of a log. *)
Lemma fold_record_keeps state entry state' :
  attempts_wf state -> tries_bounded_by_limit state -> fold_record state entry = Ok state' ->
  attempts_wf state' /\ tries_bounded_by_limit state'.
Proof.
  intros Hwf Hb. unfold fold_record. destruct entry as [now r]. simpl.
  pose proof (advance_run_time_moved state now) as Hmoved. set (later := advance_run_time state now) in *.
  pose proof (moved_wf _ _ Hmoved Hwf) as Hwf'. pose proof (moved_bounded _ _ Hmoved Hb) as Hb'.
  assert (Hrest : (forall tag attempt request until, r <> Started tag attempt request until) ->
    lift_refusal (apply_attempt later r) = Ok state' -> attempts_wf state' /\ tries_bounded_by_limit state').
  { intros Hr E%lift_refusal_Ok. split; [by eapply apply_attempt_wf|by eapply apply_attempt_bounded]. }
  destruct r as [tag attempt request until| | |]; intros E; [clear Hrest|apply Hrest; done..].
  apply start_tries in E as (record & limit & Hfind & Hs & Htries); [|apply Hwf'].
  split; [by eapply wf_started|]. eapply started_bounded; [done|done| |done].
    apply started_Ok in Hs as (record' & _ & _ & Hfind' & _ & <- & _). simplify_eq.
    rewrite Hfind in Hfind'. by injection Hfind' as ->.
Qed.
End Tries.

(** ** Properties *)

Section Properties.
Context `{Digests}.

(** C1: [decide] starts a step only when every rule lets it start.  When it asks for an attempt
    of a step, the run is neither ended nor parked and no pause is about to park it; the step is
    one of the ledger's open records and the action carries that record's own request; no
    attempt of it runs and the attempt asked for is the next one; its dependencies succeeded; it
    has tries left, its backoff has passed and its limit has not; the run's status, the pause
    and the order of its scope let it start; and no end of the run, close of its scope or watch
    ends it. *)
Theorem decide_starts_only_due recorded now actions step tag attempt deadline clear :
  decide recorded now = Ok actions -> Run step tag attempt deadline clear ∈ actions ->
  let state := advance_run_time recorded now in
  at_rest state = None /\ run_status (core_run state) <> RunStatus.PARKED
  /\ park_is_due recorded state = false
  /\ exists record, record ∈ rows_of state /\ is_open record = true
     /\ rec_request record = step /\ rec_request_id record = tag
     /\ attempt = started_at state tag + 1
     /\ startable state record now.
Proof.
  intros E Hin state. apply (decide_Run _ _ _ _ _ _ _ _ E) in Hin as ([Hrest Hpark] & record & Hin & Hstep).
  split; [done|]. split; [by apply at_rest_None|]. split; [done|]. apply of_step_Run in Hstep as [Hstart [= <- <- <- <- <-]].
  apply elem_of_filterb in Hin as [Hin Hopen]. exists record. repeat (split; [done|]). split; [|done].
  unfold started_at, expected_attempt. by destruct (attempts_of _ _).
Qed.

(** C3: the fold takes every start that [decide] asks for.  At the time the run's clock reads,
    the record of the start of any attempt [decide] asks for is accepted, and the step then has
    that attempt running; so the runner never starts a body whose record the log refuses. *)
Theorem decide_starts_accepted recorded now actions step tag attempt deadline clear :
  attempts_wf recorded -> is_nan now = false ->
  run_now_at (core_run (advance_run_time recorded now)) = now ->
  decide recorded now = Ok actions -> Run step tag attempt deadline clear ∈ actions ->
  exists state' row,
    start (advance_run_time recorded now) tag attempt step deadline = Ok state'
    /\ attempts_of (core_steps state') tag = Some row
    /\ row_started row = attempt /\ row_ended row = false.
Proof.
  intros Hwf Hnan Hnow E Hin. pose proof (advance_run_time_moved recorded now) as Hmoved.
  apply (decide_Run _ _ _ _ _ _ _ _ E) in Hin as ([Hrest Hpark] & record & Hin & Hstep).
  apply of_step_Run in Hstep as Hrun. destruct Hrun as [_ Hact]. rewrite <- Hact in Hstep.
  injection Hact as <- <- <- <- <-. apply (start_Ok _ _ now); try done.
  - apply (moved_wf _ _ Hmoved Hwf).
  - revert Hpark. unfold park_is_due. by rewrite (moved_status _ _ Hmoved).
Qed.

(** C27: [decide] ends every open step whose limit has passed.  Away from rest, for each open
    record whose limit (credits of a capacity hold included) is not after [now], the actions
    hold a cancellation of its running attempt or a settlement of it: no rule, whatever its
    order, keeps an expired step waiting. *)
Theorem decide_ends_expired recorded now actions record :
  let state := advance_run_time recorded now in
  at_rest state = None -> park_is_due recorded state = false ->
  decide recorded now = Ok actions ->
  record ∈ rows_of state -> is_open record = true -> fle (limit_of state record) now = true ->
  exists action, action ∈ actions /\ ends action = Some (rec_request_id record).
Proof.
  intros state Hrest Hpark E Hin Hopen Hlimit.
  destruct (of_step_expired _ _ _ Hlimit) as (action & Hstep & Hends). exists action.
  split; [|done]. eapply of_step_In; [split|apply elem_of_filterb|..]; done.
Qed.

(** [decide] never sleeps past a limit or a retry.  When all it asks is to wait, the wait
    has an end, after [now], that is not after the limit of any open step, nor after the time
    at which the next attempt of an open step is due, nor after the deadline of a drain. *)
Theorem decide_wakes_in_time recorded now until record :
  let state := advance_run_time recorded now in
  at_rest state = None -> park_is_due recorded state = false -> is_nan now = false ->
  decide recorded now = Ok [Wait until] ->
  record ∈ rows_of state -> is_open record = true -> is_nan (limit_of state record) = false ->
  exists at_, until = Some at_ /\ flt now at_ = true /\ fle at_ (limit_of state record) = true
    /\ (forall row due, attempts_of (core_steps state) (rec_request_id record) = Some row ->
        row_ended row = true -> retry_at state (Some row) = Ok due -> flt now due = true ->
        fle at_ due = true)
    /\ (forall park drain, run_park (core_run state) = Some park ->
        park_deadline_at park = Some drain -> flt now drain = true -> fle at_ drain = true).
Proof.
  intros state Hrest Hpark Hnan E Hin Hopen Hlimit.
  assert (Hway : under_way recorded now) by done.
  assert (Hstep : record ∈ open_steps state) by (by apply elem_of_filterb).
  assert (Hlate : flt now (limit_of state record) = true).
  { apply not_fle_flt; [done|done|]. destruct (fle (limit_of state record) now) eqn:Hle; [|done].
    destruct (of_step_expired _ _ _ Hle) as (action & Hs & Hends).
    pose proof (of_step_In _ _ _ _ _ Hway Hstep E Hs) as Ha.
    by apply list_elem_of_singleton in Ha as ->. }
  rewrite (decide_under_way _ _ _ Hway Hstep) in E. fold state in E.
  apply rbind_Ok in E as (by_core & Hcore & E). apply rbind_Ok in E as (of_steps & Hof & E).
  destruct (by_core ++ omap id of_steps) as [|action l] eqn:Hl; simpl in E.
  2: { exfalso. simplify_eq. assert (Wait until ∈ by_core ++ omap id of_steps) as Hw by (rewrite Hl; by left).
       by apply (no_wait _ _ _ _ Hcore Hof) in Hw. }
  apply rbind_Ok in E as (at_ & Hwake & E). simplify_eq.
  unfold wake_at in Hwake. apply rbind_Ok in Hwake as (retries & Hretries & Hwake).
  injection Hwake as Hwake.
  assert (Hdue : forall due, due ∈ map (limit_of state) (open_steps state) ++ concat retries
      ++ match run_park (core_run state) with
         | Some park => match park_deadline_at park with Some at_ => [at_] | None => [] end
         | None => [] end -> flt now due = true ->
    exists first, until = Some first /\ flt now first = true /\ fle first due = true).
  { intros due Hd Hlt. destruct (next_after_le now _ due Hd Hlt) as (first & Hfirst & Hle).
    exists first. split; [congruence|done]. }
  destruct (Hdue (limit_of state record)) as (first & -> & Hfirst & Hle);
    [apply elem_of_app; left; by apply list_elem_of_fmap_2|done|].
  exists first. split; [done|]. split; [done|]. split; [done|]. split.
  - intros row due Hrow Hended Hretry Hlt. destruct (Hdue due) as (f & [= <-] & _ & ?); [|done..].
    apply elem_of_app. right. apply elem_of_app. left. apply list_elem_of_In, in_concat. exists [due].
    split; [|by left]. apply list_elem_of_In. eapply (rmap_hit _ _ _ record); [exact Hretries|done|].
    cbv beta. by rewrite Hrow, Hended, Hretry.
  - intros park drain Hp Hd Hlt. destruct (Hdue drain) as (f & [= <-] & _ & ?); [|done..].
    apply elem_of_app. right. apply elem_of_app. right. rewrite Hp, Hd. by left.
Qed.
End Properties.

Section Bounds.
Context `{Digests}.

(** No step is tried more often than its limit allows.  Across any log the fold accepts that
    begins with no attempts, the charged attempts of a step (the one running included, and one
    a dead host left unsettled counted with them) never exceed one more than its retry limit;
    the fold refuses the record that would start another. *)
Theorem retries_within_limit log initial final row request :
  attempts_wf initial -> rows initial = [] -> rfold fold_record initial log = Ok final ->
  row ∈ rows final -> (row_tag row, request) ∈ keys final ->
  0 <= row_charged row <= tries row
  /\ tries row <= Z.max 0 (retry_limit (core_run final) request) + 1.
Proof.
  intros Hwf Hnone E Hin Hkey.
  assert (attempts_wf final /\ tries_bounded_by_limit final) as [Hwf' Hb].
  { eapply (rfold_inv (fun s => attempts_wf s /\ tries_bounded_by_limit s)); [|split; [done|]|exact E].
    - intros s entry s' [Hs Hb]. by apply fold_record_keeps.
    - intros r q Hr. rewrite Hnone in Hr. by apply not_elem_of_nil in Hr. }
  split; [|by apply Hb]. pose proof (wf_rows _ Hwf') as Hok. rewrite Forall_forall in Hok.
  destruct (Hok _ Hin) as (? & ? & _). unfold tries, row_charged. destruct (row_unsettled row); lia.
Qed.

(** C35: [decide] always answers.  On a well-formed state whose steps have been charged at most
    1024 attempts each, [decide] raises nothing and says at least one thing to do (a wait when
    there is nothing else). *)
Theorem decide_total recorded now :
  attempts_wf recorded -> (forall row, row ∈ rows recorded -> row_charged row <= 1024) ->
  exists action actions, decide recorded now = Ok (action :: actions).
Proof.
  intros Hwf Hcharged. pose proof (advance_run_time_moved recorded now) as Hmoved.
  pose proof (moved_wf _ _ Hmoved Hwf) as Hwf'.
  pose proof (moved_charged _ _ _ Hmoved Hcharged) as Hcharged'.
  unfold decide. set (state := advance_run_time recorded now) in *.
  destruct (stopped_by_core_total state Hwf' now) as (by_core & ->).
  destruct (rmap_total (fun record => of_step state record now) (List.filter is_open (rows_of state)))
    as (of_steps & ->).
  { intros record _. by apply of_step_total. }
  assert (Hwait : forall l, exists action actions,
    or_wait l (wake_at state (List.filter is_open (rows_of state)) now) = Ok (action :: actions)).
  { intros [|a l]; simpl; [|by eexists _, _].
    destruct (wake_at_total state Hcharged' (List.filter is_open (rows_of state)) now) as (at_ & ->).
    simpl. by eexists _, _. }
  destruct (at_rest state) as [[]|]; simpl; [by eexists _, _|..];
    (destruct (park_is_due recorded state); [by eexists _, _|]).
  - destruct (_ ++ _); simpl; by eexists _, _.
  - destruct (run_result _), (List.filter is_open (rows_of state)); try apply Hwait.
    destruct (eqb _ _); [by eexists _, _|apply Hwait].
Qed.

End Bounds.

Section Rest.
Context `{Digests}.

(** A parked run only stops what still runs.  At rest in PARKED, [decide] starts and settles
    nothing and ends no run: each action cancels an attempt, or is the one wait with no end; and
    the running attempt of every open step is cancelled for the pause. *)
Theorem parked_run_only_stops recorded now actions :
  let state := advance_run_time recorded now in
  at_rest state = Some RunRest.PARKED -> decide recorded now = Ok actions ->
  (forall action, action ∈ actions ->
     action = Wait None \/ exists tag reason, action = Cancel tag reason)
  /\ (forall record, record ∈ rows_of state -> is_open record = true ->
       running state record = true -> Cancel (rec_request_id record) CancelReason.PAUSE_NOW ∈ actions).
Proof.
  intros state Hrest E. unfold decide in E. fold state in E. rewrite Hrest in E.
  assert (park_is_due recorded state = false) as Hpark.
  { unfold park_is_due. rewrite <- (moved_status recorded state) by apply advance_run_time_moved.
    unfold at_rest in Hrest. destruct (_ && _); [done|].
    destruct (eqb (run_status (core_run state)) RunStatus.PARKED) eqn:Hs; [|done].
    apply eqb_eq in Hs. by rewrite Hs. }
  rewrite Hpark in E. simpl in E. apply rbind_Ok in E as (by_core & Hcore & E).
  set (stops := map _ _ ++ _) in E.
  assert (Hstops : forall action, action ∈ stops -> exists tag reason, action = Cancel tag reason).
  { intros action [Hin|Hin]%elem_of_app.
    - apply list_elem_of_fmap in Hin as (record & -> & _). by eexists _, _.
    - apply elem_of_filterb in Hin as [_ Hc]. destruct action; try done. by eexists _, _. }
  assert (Hactions : actions = stops \/ stops = [] /\ actions = [Wait None]).
  { destruct stops; simpl in E; simplify_eq; [by right|by left]. }
  split.
  - intros action Hin. destruct Hactions as [->|[_ ->]]; [by right; apply Hstops|].
    left. by apply list_elem_of_singleton in Hin.
  - intros record Hin Hopen Hrun.
    assert (Cancel (rec_request_id record) CancelReason.PAUSE_NOW ∈ stops) as Hstop.
    { apply elem_of_app. left.
      apply (list_elem_of_fmap_2 (fun record => Cancel (rec_request_id record) CancelReason.PAUSE_NOW)).
      by rewrite !elem_of_filterb. }
    destruct Hactions as [->|[Hnil _]]; [done|]. rewrite Hnil in Hstop. by apply not_elem_of_nil in Hstop.
Qed.
End Rest.

(** ** Witnesses *)

#[local] Instance plain_digests : Digests :=
  {| digest_request := fun _ => ""%string; digest_command := fun _ => ""%string |}.

(** A step to start, one whose limit passed at 15, and one that waits for the first. *)
Definition sample_due : CoreState :=
  sample_state sample_run
    [sample_record "a" [] RequestPhase.PREPARED 500; sample_record "b" [] RequestPhase.PREPARED 15;
     sample_record "c" ["a"%string] RequestPhase.PREPARED 500] [].

Definition start_a : Action :=
  Run (sample_request "a" []) (sample_tag "a") 1 (seconds 500) false.
Definition settle_b : Action :=
  Settle (sample_tag "b") (CancelledResult CancelReason.DEADLINE).

Example decide_sample : decide sample_due (seconds 20) = Ok [start_a; settle_b].
Proof. vm_compute. reflexivity. Qed.

Lemma sample_due_wf : attempts_wf sample_due.
Proof.
  split.
  - unfold identified. change (NoDup (map sample_tag ["a"; "b"; "c"]%string)).
    apply (bool_decide_unpack _). vm_compute. exact I.
  - constructor.
  - constructor.
  - by intros row ?%not_elem_of_nil.
Qed.

Lemma decide_starts_only_due_witness :
  exists record, rec_request_id record = sample_tag "a"
    /\ startable (advance_run_time sample_due (seconds 20)) record (seconds 20).
Proof.
  destruct (decide_starts_only_due sample_due (seconds 20) [start_a; settle_b]
    (sample_request "a" []) (sample_tag "a") 1 (seconds 500) false)
    as (_ & _ & _ & record & _ & _ & _ & Htag & _ & Hstart).
  - vm_compute. reflexivity.
  - left.
  - exists record. split; [exact Htag|exact Hstart].
Defined.

Lemma decide_starts_accepted_witness :
  exists state' row,
    start (advance_run_time sample_due (seconds 20)) (sample_tag "a") 1 (sample_request "a" [])
          (seconds 500) = Ok state'
    /\ attempts_of (core_steps state') (sample_tag "a") = Some row
    /\ row_started row = 1 /\ row_ended row = false.
Proof.
  apply (decide_starts_accepted sample_due (seconds 20) [start_a; settle_b]
    (sample_request "a" []) (sample_tag "a") 1 (seconds 500) false).
  - apply sample_due_wf.
  - reflexivity.
  - vm_compute. reflexivity.
  - vm_compute. reflexivity.
  - left.
Defined.

Lemma decide_ends_expired_witness :
  exists action, action ∈ [start_a; settle_b] /\ ends action = Some (sample_tag "b").
Proof.
  apply (decide_ends_expired sample_due (seconds 20) [start_a; settle_b]
    (sample_record "b" [] RequestPhase.PREPARED 15)).
  - vm_compute. reflexivity.
  - vm_compute. reflexivity.
  - vm_compute. reflexivity.
  - right. left.
  - reflexivity.
  - vm_compute. reflexivity.
Defined.

(** A state in which the only open step runs. *)
Lemma decide_wakes_in_time_witness :
  decide sample_running (seconds 20) = Ok [Wait (Some (seconds 500))]
  /\ exists at_, Some (seconds 500) = Some at_ /\ flt (seconds 20) at_ = true.
Proof.
  split; [vm_compute; reflexivity|].
  destruct (decide_wakes_in_time sample_running (seconds 20) (Some (seconds 500))
    (sample_record "a" [] RequestPhase.DISPATCHED 500)) as (at_ & Hat & Hlt & _).
  - vm_compute. reflexivity.
  - vm_compute. reflexivity.
  - reflexivity.
  - vm_compute. reflexivity.
  - left.
  - reflexivity.
  - vm_compute. reflexivity.
  - exists at_. split; [exact Hat|exact Hlt].
Defined.

(** The first step tried, lost with its host, charged and tried again. *)
Definition sample_log : list (float * AttemptRecord) :=
  let deadline := {| until_at := seconds 500; until_watches := [] |} in
  [(seconds 20, Started (sample_tag "a") 1 (sample_request "a" []) deadline);
   (seconds 30, EpochOpened 2);
   (seconds 30, Interrupted (sample_tag "a") 1 Interruption.LOST);
   (seconds 40, Started (sample_tag "a") 2 (sample_request "a" []) deadline)].

Definition sample_final : result DecideError CoreState := rfold fold_record sample_due sample_log.

Lemma retries_within_limit_witness :
  match sample_final with
  | Ok final => exists row, rows final = [row] /\ row_charged row = 2
                            /\ tries row <= Z.max 0 (retry_limit (core_run final) (sample_request "a" [])) + 1
  | Err _ => False
  end.
Proof.
  destruct sample_final as [final|] eqn:E; [|by vm_compute in E].
  assert (exists row, rows final = [row] /\ row_charged row = 2
    /\ (row_tag row, sample_request "a" []) ∈ keys final) as (row & Hrows & Hcharged & Hkey).
  { vm_compute in E. injection E as <-. eexists. split; [reflexivity|]. split; [reflexivity|]. left. }
  exists row. split; [exact Hrows|]. split; [exact Hcharged|].
  apply (retries_within_limit sample_log sample_due final row (sample_request "a" [])).
  - apply sample_due_wf.
  - reflexivity.
  - exact E.
  - rewrite Hrows. left.
  - exact Hkey.
Defined.

Lemma decide_total_witness :
  exists action actions, decide sample_running (seconds 20) = Ok (action :: actions).
Proof.
  apply decide_total; [apply sample_running_wf|].
  intros row ->%list_elem_of_singleton. vm_compute. discriminate.
Defined.

(** An operation whose own limit allows 2000 retries, after the 1026th attempt of it raised. *)
Definition sample_operation : Request :=
  ExecuteRegisteredOperation (req_base (sample_request "a" [])) (MkIdentity "op")
    sample_wire 2000 [].
Definition sample_tired : CoreState :=
  sample_state sample_run
    [(sample_record "a" [] RequestPhase.PREPARED 500) <| rec_request := sample_operation |>]
    [(sample_row "a" 1026 0 true) <| row_charged_at := Some (seconds 9) |>].

(** [decide] raises when a backoff overflows.  An operation's own retry limit has no upper
    bound, and the wait after the 1026th charged attempt needs [2 ** 1025] as a float: on a
    well-formed state with such a step, [decide] raises an [OverflowError] instead of answering
    with the capped wait. *)
Theorem decide_overflows :
  attempts_wf sample_tired
  /\ retry_limit (core_run sample_tired) sample_operation = 2000
  /\ decide sample_tired (seconds 20) = Err BackoffOverflow.
Proof.
  split; [|by vm_compute]. split.
  - apply NoDup_singleton.
  - apply NoDup_singleton.
  - apply Forall_singleton. unfold row_ok. simpl. lia.
  - intros row ->%list_elem_of_singleton. by left.
Qed.

(** The sample with its step running, parked. *)
Definition sample_parked : CoreState := with_status sample_running RunStatus.PARKED.

Lemma parked_run_only_stops_witness :
  Cancel (sample_tag "a") CancelReason.PAUSE_NOW
  ∈ [Cancel (sample_tag "a") CancelReason.PAUSE_NOW].
Proof.
  destruct (parked_run_only_stops sample_parked (seconds 20)
    [Cancel (sample_tag "a") CancelReason.PAUSE_NOW]) as [_ Hstops].
  - vm_compute. reflexivity.
  - vm_compute. reflexivity.
  - apply (Hstops (sample_record "a" [] RequestPhase.DISPATCHED 500)).
    + vm_compute. left.
    + reflexivity.
    + vm_compute. reflexivity.
Defined.
