(* ===== verification/Exclusion.v ===== *)
(** * Which steps run side by side

    What the recovery rule ([_decide.py]) makes of the scope order ([_scope_order.py]): beside what
    it starts a step that snapshots a workspace or closes a scope, and that the order of the steps
    it relies on is kept. *)

From S2P Require Import Prelude PyFloat Identities Values Requests Records State Control Clock.
From S2P Require Import Samples Proofs Permit Order Attempts Park Decide.

Section Exclusion.
Context `{Digests}.

(** ** Dependencies *)

(** The request of the identity ended well, as [_request_dependency] proves it. *)
Definition done_well (state : CoreState) (tag : RequestId) : Prop :=
  is_proven (request_dependency (find (core_records state) (Some tag))) = true.





(** Steps begin in dependency order: what a step that runs, or that ended well, needs has ended
    well.  ([decide] starts no other step, and the reducers conclude only steps that ran.) *)
Definition in_order (state : CoreState) : Prop :=
  forall record, record ∈ rows_of state ->
    running state record = true \/ done_well state (rec_request_id record) ->
    forall d, d ∈ req_depends_on (rec_request record) -> done_well state d.



(** ** Starts *)





(** ** The order of the steps is kept *)

(** Between the two ledgers no record was concluded: a row that differs ended neither before nor
    after. *)
Definition unconcluded_row (row row' : RequestRecord) : Prop :=
  row' = row \/ key row' = key row /\ rec_phase row <> RequestPhase.COMPLETED
                /\ rec_phase row' <> RequestPhase.COMPLETED.
Definition unconcluded (state state' : CoreState) : Prop :=
  Forall2 unconcluded_row (rows_of state) (rows_of state').

#[local] Instance unconcluded_row_preorder : PreOrder unconcluded_row.
Proof.
  split; [by left|]. intros x y z [->|(Hk & Hx & Hy)] [->|(Hk' & Hy' & Hz)].
  - by left.
  - by right.
  - by right.
  - right. split_and!; try done. congruence.
Qed.
#[local] Instance unconcluded_preorder : PreOrder unconcluded.
Proof.
  unfold unconcluded. split; [intros s; reflexivity|]. intros x y z. apply transitivity.
Qed.

Lemma not_concluded_proof row :
  rec_phase row <> RequestPhase.COMPLETED -> is_proven (request_dependency [row]) = false.
Proof.
  intros Hp. simpl. destruct (request_matches row); simpl; [|done..].
  by rewrite (proj2 (eqb_false (rec_phase row) _) Hp).
Qed.












(** Between the two ledgers only steps that ran were concluded. *)
Definition concluded_row (state : CoreState) (row row' : RequestRecord) : Prop :=
  unconcluded_row row row'
  \/ key row' = key row /\ rec_phase row <> RequestPhase.COMPLETED /\ running state row = true.

Lemma done_well_concluded state state' tag :
  Forall2 (concluded_row state) (rows_of state) (rows_of state') ->
  (done_well state tag -> done_well state' tag)
  /\ (done_well state' tag -> done_well state tag
      \/ exists row, row ∈ rows_of state /\ rec_request_id row = tag /\ running state row = true).
Proof.
  unfold done_well, rows_of. rewrite !find_scan. intros Hrows.
  assert (Forall2 (fun row row' => concluded_row state row row'
                     /\ row ∈ ledger_records (core_records state) /\ rec_request_id row = tag)
    (filter (fun row => rec_request_id row = tag) (ledger_records (core_records state)))
    (filter (fun row => rec_request_id row = tag) (ledger_records (core_records state')))) as Hof.
  { assert (forall all l l' : list RequestRecord, Forall2 (concluded_row state) l l' -> (forall row, row ∈ l -> row ∈ all) ->
      Forall2 (fun row row' => concluded_row state row row' /\ row ∈ all /\ rec_request_id row = tag)
        (filter (fun row => rec_request_id row = tag) l) (filter (fun row => rec_request_id row = tag) l'))
      as Hall; [|by apply Hall].
    intros all l l'. induction 1 as [|row row' l l' Hrow _ IH]; intros Hin; [constructor|]. rewrite !filter_cons.
    assert (rec_request_id row' = rec_request_id row) as ->
      by (destruct Hrow as [[->|(Hk & _)]|(Hk & _)]; [done|by injection Hk..]).
    assert (forall other, other ∈ l -> other ∈ all) as Hl by (intros; apply Hin; by right).
    case_decide; [|by apply IH]. constructor; [|by apply IH].
    split_and!; [done|apply Hin; by left|done]. }
  destruct Hof as [|row row' l l' (Hrow & Hin & Hid) Hrest]; [tauto|].
  destruct Hrest as [|]; [|by split].
  destruct Hrow as [[->|(_ & Hp & Hp')]|(_ & Hp & Hrun)]; [tauto|..].
  - by rewrite !not_concluded_proof.
  - rewrite (not_concluded_proof row) by done. split; [done|]. intros _. right. by exists row.
Qed.

(** And answers keep it, which conclude only steps that run. *)
Lemma conclusions_keep_order state state' :
  in_order state -> Forall2 (concluded_row state) (rows_of state) (rows_of state') ->
  (forall record, running state' record = true -> running state record = true) -> in_order state'.
Proof.
  intros Hord Hrows Hrun record Hin Hwhy d Hd.
  apply (proj1 (done_well_concluded _ _ d Hrows)).
  apply list_elem_of_lookup_1 in Hin as [i Hi].
  destruct (Forall2_lookup_r _ _ _ _ _ Hrows Hi) as (row & Hold & Hkey).
  apply list_elem_of_lookup_2 in Hold.
  assert (key record = key row) as [= Hid Hreq] by (by destruct Hkey as [[->|(? & _)]|(? & _)]).
  rewrite Hreq in Hd. apply (Hord row Hold); [|done].
  assert (forall s, running s row = running s record) as Erun by (intros s; unfold running; by rewrite Hid).
  rewrite Erun, <- Hid. destruct Hwhy as [Hr|Hdone]; [left; by apply Hrun|].
  apply (done_well_concluded _ _ _ Hrows) in Hdone as [?|(other & _ & Hother & Hr)]; [by right|left].
  unfold running in *. by rewrite Hother in Hr.
Qed.

End Exclusion.

(** ** Witness *)

#[local] Instance plain_digests : Digests :=
  {| digest_request := fun _ => ""%string; digest_command := fun _ => ""%string |}.


