(* ===== verification/LogRecord.v ===== *)
(** * Records of the run log

    The messages of [proto/vibesys/store/v1] that the run log reads, as the generated classes of
    [libs/vs-proto/src/vs_proto/_generated/vibesys/store/v1] hold them.  A message keeps every
    field that [libs/vs-runlog/src/vs_runlog] looks inside; the others are kept together as
    canonical text, so that equal messages are equal values.  The codec of records
    ([to_binary], [from_binary], [validate]) is protobuf's, and the checksum is
    [google_crc32c]'s: both are operations of the class [Codec]. *)

From S2P Require Import Prelude PyFloat Identities.

Abbreviation byte := Z (only parsing).

Definition is_byte (b : Z) : Prop := 0 <= b < 256.

(** ** Messages *)

Record Timestamp := { at_seconds : Z; at_nanos : Z }.
#[export] Instance Timestamp_dec : EqDecision Timestamp.
Proof. solve_decision. Defined.

(** [google.protobuf.Any] *)
Record AnyMessage := { type_url : string; any_value : list byte }.
#[export] Instance AnyMessage_dec : EqDecision AnyMessage.
Proof. solve_decision. Defined.

Record MeasuredInput := { measured_series : string; measured_value : float; measured_span : string }.
#[export] Instance MeasuredInput_dec : EqDecision MeasuredInput.
Proof. solve_decision. Defined.

(** [InputMeasurement.state]; a message no rule accepted may have none *)
Inductive InputMeasurement : Set := measured (m : MeasuredInput) | unmeasured | no_measurement_state.
#[export] Instance InputMeasurement_dec : EqDecision InputMeasurement.
Proof. solve_decision. Defined.

Record Objective := { objective_series : string; objective_direction : Z; objective_rest : Canonical }.
#[export] Instance Objective_dec : EqDecision Objective.
Proof. solve_decision. Defined.

Record RunDescription := {
  described_strategy : string;
  described_input : string;
  described_objectives : list Objective;
  described_input_measurement : option InputMeasurement;
  described_rest : Canonical
}.
#[export] Instance RunDescription_dec : EqDecision RunDescription.
Proof. solve_decision. Defined.

Record MetricSeriesDecl := { decl_name : string; decl_rest : Canonical }.
#[export] Instance MetricSeriesDecl_dec : EqDecision MetricSeriesDecl.
Proof. solve_decision. Defined.

Record EpochStarted := {
  started_epoch : Z;
  started_run : option RunDescription;
  started_series : list MetricSeriesDecl;
  started_rest : Canonical
}.
#[export] Instance EpochStarted_dec : EqDecision EpochStarted.
Proof. solve_decision. Defined.

(** [Hold.reason]; a message no rule accepted may have none *)
Inductive Hold : Set := operator_hold | capacity_span (span : string) | no_hold_reason.
#[export] Instance Hold_dec : EqDecision Hold.
Proof. solve_decision. Defined.

Record RunOutcomePresentation := { presentation_status : string; presentation_word : string }.
#[export] Instance RunOutcomePresentation_dec : EqDecision RunOutcomePresentation.
Proof. solve_decision. Defined.

Record Ended := { ended_outcome : Z; ended_presentation : option RunOutcomePresentation; ended_rest : Canonical }.
#[export] Instance Ended_dec : EqDecision Ended.
Proof. solve_decision. Defined.

Module LifecycleState.
Inductive LifecycleState : Set :=
  | starting (c : Canonical) | running (hold : option Hold) | draining (c : Canonical)
  | parked (c : Canonical) | ended (e : Ended).
End LifecycleState.
Abbreviation LifecycleState := LifecycleState.LifecycleState.
#[export] Instance LifecycleState_dec : EqDecision LifecycleState.
Proof. solve_decision. Defined.

Record Lifecycle := { lifecycle_state : option LifecycleState }.
#[export] Instance Lifecycle_dec : EqDecision Lifecycle.
Proof. solve_decision. Defined.

Record Link := { link_rel : string; link_to : string }.
#[export] Instance Link_dec : EqDecision Link.
Proof. solve_decision. Defined.

Record Label := {
  label_kind : string;
  label_attrs : option AnyMessage;
  label_links : list Link;
  label_verdict : string;
  label_rest : Canonical
}.
#[export] Instance Label_dec : EqDecision Label.
Proof. solve_decision. Defined.

(** An optional string that is absent reads as the empty one, which no rule accepts when it is there. *)
Record Span := {
  span_id : string;
  span_parent : string;
  span_status : Z;
  span_label : option Label;
  span_rest : Canonical
}.
#[export] Instance Span_dec : EqDecision Span.
Proof. solve_decision. Defined.

Record SpanRecord := { record_span : option Span; record_change : Z }.
#[export] Instance SpanRecord_dec : EqDecision SpanRecord.
Proof. solve_decision. Defined.

Record MetricPoint := {
  point_series : string;
  point_value : float;
  point_span : string;
  point_clock : float
}.
#[export] Instance MetricPoint_dec : EqDecision MetricPoint.
Proof. solve_decision. Defined.

Record StreamRef := { stream_id : string; stream_rest : Canonical }.
#[export] Instance StreamRef_dec : EqDecision StreamRef.
Proof. solve_decision. Defined.

Record Notice := { notice_severity : Z; notice_rest : Canonical }.
#[export] Instance Notice_dec : EqDecision Notice.
Proof. solve_decision. Defined.

(** The fields of the [body] oneof; a message core folds is kept whole as its text *)
Module Body.
Inductive Body : Set :=
  | epoch_started (value : EpochStarted)
  | legacy_event (value : Canonical)
  | lifecycle (value : Lifecycle)
  | span (value : SpanRecord)
  | metric (value : MetricPoint)
  | stream (value : StreamRef)
  | blob (value : Canonical)
  | intent (value : Canonical)
  | notice (value : Notice)
  | chat (value : Canonical)
  | declaration_amended (value : EpochStarted)
  | core_input (value : Canonical)
  | step_started (value : Canonical)
  | step_finished (value : Canonical)
  | attempt_interrupted (value : Canonical)
  | run_ended (value : Canonical)
  | run_started (value : Canonical)
  | strategy_advanced (value : Canonical)
  | core_snapshot (value : Canonical).
End Body.
Abbreviation Body := Body.Body.
#[export] Instance Body_dec : EqDecision Body.
Proof. solve_decision. Defined.

(** [Record]: the envelope of every entry of the log *)
Record LogRecord := {
  seq : Z;
  record_at : option Timestamp;
  epoch : Z;
  clock_field : option float;
  input_measurement : option InputMeasurement;
  body : option Body;
  record_rest : Canonical
}.
#[export] Instance LogRecord_dec : EqDecision LogRecord.
Proof. solve_decision. Defined.

(** [record.clock]: an absent optional field reads as its default *)
Definition clock (r : LogRecord) : float := default fzero (clock_field r).

(** The next record of a dense log *)
Lemma dense_snoc log (r : LogRecord) :
  map seq log = seqZ 1 (Z.of_nat (length log)) -> seq r = Z.of_nat (length log) + 1 ->
  map seq (log ++ [r]) = seqZ 1 (Z.of_nat (length (log ++ [r]))).
Proof.
  intros Hlog Hr. rewrite map_app, Hlog, length_app. cbn [map length].
  rewrite Nat2Z.inj_add, seqZ_app by lia. rewrite Hr, Z.add_comm. done.
Qed.

Lemma dense_take k (log : list LogRecord) : (k <= length log)%nat ->
  map seq log = seqZ 1 (Z.of_nat (length log)) -> map seq (take k log) = seqZ 1 (Z.of_nat k).
Proof.
  intros Hk Hlog. rewrite <- firstn_map, Hlog.
  replace (Z.of_nat (length log)) with (Z.of_nat k + Z.of_nat (length log - k)) by lia.
  rewrite seqZ_app, take_app_le by (try rewrite length_seqZ; lia).
  apply take_ge. rewrite length_seqZ. lia.
Qed.

(** ** The codec *)

(** [Record.from_binary] and [validate] raise a [ValueError] with a message. *)
Class Codec := {
  to_binary : LogRecord -> list byte;
  from_binary : list byte -> result string LogRecord;
  validate : LogRecord -> result string unit;
  crc32c : list byte -> Z
}.

(** What the log relies on: a payload is bytes, a record that validates decodes to itself, and
    a checksum is a 32-bit number. *)
Class CodecLaws `(Codec) : Prop := {
  to_binary_bytes r : Forall is_byte (to_binary r);
  from_to_binary r : validate r = Ok tt -> from_binary (to_binary r) = Ok r;
  crc32c_range payload : 0 <= crc32c payload < 2 ^ 32
}.

(** ** A codec of small records, on which the witnesses are evaluated *)

Definition sample_entry (n : Z) : LogRecord :=
  {| seq := n; record_at := None; epoch := 1; clock_field := Some (of_int n);
     input_measurement := None; body := Some (Body.notice {| notice_severity := 1; notice_rest := EmptyString |});
     record_rest := EmptyString |}.

(** Entry [n], of 7 bytes; only those validate. *)
Definition sample_codec : Codec :=
  {| to_binary r := let b := seq r mod 256 in [b; b; b; b; b; b; b];
     from_binary payload := match payload with
       | [b; _; _; _; _; _; _] => Ok (sample_entry b)
       | _ => Err "not a sample"%string
       end;
     validate r := ensure (bool_decide (r = sample_entry (seq r)) && (0 <=? seq r) && (seq r <? 256)) "not a sample"%string;
     crc32c payload := foldr Z.add 0 payload mod 2 ^ 32 |}.

Lemma sample_laws : CodecLaws sample_codec.
Proof.
  split.
  - intros r. cbn. repeat constructor; cbn; apply Z.mod_pos_bound; lia.
  - intros r Hr. cbn in *. apply ensure_Ok in Hr.
    rewrite !andb_true_iff, bool_decide_eq_true in Hr. destruct Hr as [[-> ?] ?].
    cbn [seq sample_entry] in *. by rewrite Z.mod_small by lia.
  - intros payload. apply Z.mod_pos_bound. lia.
Qed.
