(* ===== verification/Skeleton.v ===== *)
(** * The skeleton of a run: the fold of its records

    [libs/vs-runlog/src/vs_runlog/_fold.py], over the [Keyframe] message it folds into, and
    [_upgrade.InputUpgrade], the input fact a retained record leaves implicit.  A [ValueError] is
    an [Err] of its message.  [GateAttrs.from_binary] is protobuf's, so the subject it decodes is
    a parameter. *)

From S2P Require Import Prelude PyFloat Identities LogRecord.

(** ** Keyframes *)

Record SpanVersion := { span_version_seq : Z; span_version_span : Span }.
#[export] Instance SpanVersion_dec : EqDecision SpanVersion.
Proof. solve_decision. Defined.

Record MetricVersion := { metric_version_seq : Z; metric_version_point : MetricPoint }.
#[export] Instance MetricVersion_dec : EqDecision MetricVersion.
Proof. solve_decision. Defined.

Record MetricHistory := { history_series : string; history_points : list MetricVersion }.
#[export] Instance MetricHistory_dec : EqDecision MetricHistory.
Proof. solve_decision. Defined.
#[export] Instance eta_MetricHistory : Eta MetricHistory :=
  fun h => {| history_series := history_series h; history_points := history_points h |}.

Record EpochVersion := {
  epoch_version_seq : Z;
  epoch_version_epoch : option EpochStarted;
  epoch_version_started_at : option Timestamp;
  starts_epoch : bool
}.
#[export] Instance EpochVersion_dec : EqDecision EpochVersion.
Proof. solve_decision. Defined.

Record LifecycleVersion := { lifecycle_version_seq : Z; lifecycle_version_lifecycle : option Lifecycle }.
#[export] Instance LifecycleVersion_dec : EqDecision LifecycleVersion.
Proof. solve_decision. Defined.

(** [HeadlineObjective]; its declaration is required *)
Record HeadlineObjective := {
  headline_series : MetricSeriesDecl;
  headline_best : option float;
  headline_input : option float;
  input_stated : bool
}.
#[export] Instance HeadlineObjective_dec : EqDecision HeadlineObjective.
Proof. solve_decision. Defined.
#[export] Instance eta_HeadlineObjective : Eta HeadlineObjective := fun o =>
  {| headline_series := headline_series o; headline_best := headline_best o;
     headline_input := headline_input o; input_stated := input_stated o |}.

Record TokenUsage := {
  usage_input : option Z; usage_cache_read : option Z; usage_cache_creation : option Z;
  usage_output : option Z; usage_reasoning : option Z; usage_cost_usd : option float;
  usage_duration_ms : option Z
}.
#[export] Instance TokenUsage_dec : EqDecision TokenUsage.
Proof. solve_decision. Defined.

Record RunProcess := { pid : Z; process_epoch : Z; started_at : Timestamp }.
#[export] Instance RunProcess_dec : EqDecision RunProcess.
Proof. solve_decision. Defined.

Module IdeaOutcome.
Inductive IdeaOutcome : Set :=
  PENDING | FAILED | KEPT | NOT_KEPT | WITHIN_NOISE | WORSE_THAN_INPUT | INPUT | UNATTRIBUTED.
End IdeaOutcome.
Abbreviation IdeaOutcome := IdeaOutcome.IdeaOutcome.
#[export] Instance IdeaOutcome_dec : EqDecision IdeaOutcome.
Proof. solve_decision. Defined.

Record IdeaPerformance := {
  measurement_seq : Z;
  performance_point : MetricPoint;
  performance_idea : option string;
  performance_outcome : IdeaOutcome;
  new_best : bool
}.
#[export] Instance IdeaPerformance_dec : EqDecision IdeaPerformance.
Proof. solve_decision. Defined.
#[export] Instance eta_IdeaPerformance : Eta IdeaPerformance := fun r =>
  {| measurement_seq := measurement_seq r; performance_point := performance_point r;
     performance_idea := performance_idea r; performance_outcome := performance_outcome r;
     new_best := new_best r |}.

Record IdeaDecision := {
  decision_idea : string;
  decision_outcome : IdeaOutcome;
  decision_seq : option Z;
  decision_new_best : bool
}.
#[export] Instance IdeaDecision_dec : EqDecision IdeaDecision.
Proof. solve_decision. Defined.

(** [SeriesPerformance]; the one refusal there is, an unknown direction *)
Record SeriesPerformance := {
  performance_series : string;
  performance_input : option float;
  performance_best : option float;
  performance_points : list IdeaPerformance;
  performance_ideas : list IdeaDecision;
  unknown_direction : bool
}.
#[export] Instance SeriesPerformance_dec : EqDecision SeriesPerformance.
Proof. solve_decision. Defined.

(** [RunHead]: the published projection *)
Record RunHead := {
  head_lifecycle : option Lifecycle;
  head_strategy : string;
  head_objective : option HeadlineObjective;
  span_counts : gmap string Z;
  head_usage : option TokenUsage;
  chart_points : list MetricPoint;
  needs_user : bool;
  head_committed_seq : option Z;
  head_process : option RunProcess;
  awaiting_lifecycle : bool;
  head_epoch : Z;
  performance : list SeriesPerformance;
  performance_stated : bool
}.
#[export] Instance RunHead_dec : EqDecision RunHead.
Proof. solve_decision. Defined.
#[export] Instance eta_RunHead : Eta RunHead := fun h =>
  {| head_lifecycle := head_lifecycle h; head_strategy := head_strategy h;
     head_objective := head_objective h; span_counts := span_counts h; head_usage := head_usage h;
     chart_points := chart_points h; needs_user := needs_user h;
     head_committed_seq := head_committed_seq h; head_process := head_process h;
     awaiting_lifecycle := awaiting_lifecycle h; head_epoch := head_epoch h;
     performance := performance h; performance_stated := performance_stated h |}.

(** [head.committed_seq]: an absent optional field reads as its default *)
Definition committed_seq (h : RunHead) : Z := default 0 (head_committed_seq h).

Record Keyframe := {
  through_seq : Z;
  log_offset : Z;
  spans : gmap string (list SpanVersion);
  metrics : list MetricHistory;
  streams : list StreamRef;
  epochs : list EpochVersion;
  lifecycles : list LifecycleVersion;
  failures : list LogRecord;
  failures_tracked : bool;
  intents : list LogRecord;
  records_tracked : bool;
  record_facts : list LogRecord;
  head : option RunHead
}.
#[export] Instance Keyframe_dec : EqDecision Keyframe.
Proof. solve_decision. Defined.
#[export] Instance eta_Keyframe : Eta Keyframe := fun s =>
  {| through_seq := through_seq s; log_offset := log_offset s; spans := spans s;
     metrics := metrics s; streams := streams s; epochs := epochs s; lifecycles := lifecycles s;
     failures := failures s; failures_tracked := failures_tracked s; intents := intents s;
     records_tracked := records_tracked s; record_facts := record_facts s; head := head s |}.

(** [Keyframe(failures_tracked=True, records_tracked=True)] *)
Definition fresh_keyframe : Keyframe :=
  {| through_seq := 0; log_offset := 0; spans := ∅; metrics := []; streams := []; epochs := [];
     lifecycles := []; failures := []; failures_tracked := true; intents := [];
     records_tracked := true; record_facts := []; head := None |}.

(** ** The fold *)

Definition SEVERITY_ERROR : Z := 2.

(** [state.spans.setdefault(span.id, SpanHistory()).versions.append(...)] *)
Definition append_span (state : Keyframe) (seq : Z) (span : Span) : Keyframe :=
  let versions := default [] (spans state !! span_id span) in
  state <| spans := <[span_id span := versions ++ [{| span_version_seq := seq; span_version_span := span |}]]> (spans state) |>.

(** [_append_metric]: the first history of the series, or a new one *)
Fixpoint append_metric (histories : list MetricHistory) (seq : Z) (point : MetricPoint) : list MetricHistory :=
  let version := {| metric_version_seq := seq; metric_version_point := point |} in
  match histories with
  | [] => [{| history_series := point_series point; history_points := [version] |}]
  | h :: histories =>
    if eqb (history_series h) (point_series point)
    then h <| history_points := history_points h ++ [version] |> :: histories
    else h :: append_metric histories seq point
  end.

(** [_put_stream]: in place of the first of the same id, or at the end *)
Fixpoint put_stream (known : list StreamRef) (stream : StreamRef) : list StreamRef :=
  match known with
  | [] => [stream]
  | s :: known =>
    if eqb (stream_id s) (stream_id stream) then stream :: known else s :: put_stream known stream
  end.

(** [_required_span] *)
Definition required_span (span : option Span) : result string Span :=
  match span with None => Err "record.span.span is required"%string | Some span => Ok span end.

Definition steers (value : SpanRecord) : bool :=
  match record_span value with
  | Some span =>
    match span_label span with
    | Some label => any (fun link => eqb (link_rel link) "steer"%string) (label_links label)
    | None => false
    end
  | None => false
  end.

(** [_append_record_fact] *)
Definition append_record_fact (state : Keyframe) (owned : LogRecord) : Keyframe :=
  match body owned with
  | Some (Body.intent _) => state <| intents := intents state ++ [owned] |>
  | Some (Body.blob _) | Some (Body.chat _) => state <| record_facts := record_facts state ++ [owned] |>
  | Some (Body.span value) =>
    if steers value then state <| record_facts := record_facts state ++ [owned] |> else state
  | _ => state
  end.

(** [declaration.run.input_measurement = measurement] of a copy of [epoch] *)
Definition with_measurement (epoch : EpochStarted) (run : RunDescription)
    (measurement : option InputMeasurement) : EpochStarted :=
  {| started_epoch := started_epoch epoch;
     started_run := Some {| described_strategy := described_strategy run;
       described_input := described_input run; described_objectives := described_objectives run;
       described_input_measurement := measurement; described_rest := described_rest run |};
     started_series := started_series epoch; started_rest := started_rest epoch |}.

(** [_append_input_fact] *)
Definition append_input_fact (state : Keyframe) (record : LogRecord) : Keyframe :=
  match input_measurement record, last (epochs state) with
  | Some measurement, Some latest =>
    match epoch_version_epoch latest with
    | Some epoch =>
      match started_run epoch with
      | Some run =>
        state <| epochs := epochs state ++ [{| epoch_version_seq := seq record;
          epoch_version_epoch := Some (with_measurement epoch run (Some measurement));
          epoch_version_started_at := None; starts_epoch := false |}] |>
      | None => state
      end
    | None => state
    end
  | _, _ => state
  end.

(** The [match body.field] of [append_skeleton] *)
Definition append_body (state : Keyframe) (owned : LogRecord) : result string Keyframe :=
  match body owned with
  | Some (Body.span value) =>
    let* span := required_span (record_span value) in
    Ok (append_span state (seq owned) span)
  | Some (Body.metric point) => Ok (state <| metrics := append_metric (metrics state) (seq owned) point |>)
  | Some (Body.stream stream) => Ok (state <| streams := put_stream (streams state) stream |>)
  | Some (Body.epoch_started value) =>
    Ok (state <| epochs := epochs state ++ [{| epoch_version_seq := seq owned;
      epoch_version_epoch := Some value; epoch_version_started_at := record_at owned; starts_epoch := true |}] |>)
  | Some (Body.declaration_amended value) =>
    Ok (state <| epochs := epochs state ++ [{| epoch_version_seq := seq owned;
      epoch_version_epoch := Some value; epoch_version_started_at := None; starts_epoch := false |}] |>)
  | Some (Body.lifecycle value) =>
    Ok (state <| lifecycles := lifecycles state ++ [{| lifecycle_version_seq := seq owned;
      lifecycle_version_lifecycle := Some value |}] |>)
  | Some (Body.notice value) =>
    Ok (if SEVERITY_ERROR <=? notice_severity value
        then state <| failures := List.filter (fun kept => negb (epoch kept =? epoch owned)) (failures state) ++ [owned] |>
        else state)
  | _ => Ok state
  end.

(** [append_skeleton]: the state it leaves *)
Definition append_skeleton (state : Keyframe) (record : LogRecord) : result string Keyframe :=
  require* seq record =? through_seq state + 1 else "record.seq: not the next"%string in
  let* state := append_body (state <| head := None |>) record in
  let state := append_input_fact (append_record_fact state record) record in
  Ok (state <| through_seq := seq record |>).

(** [fold_skeleton] *)
Definition fold_skeleton (records : list LogRecord) (log_offset : Z) (seed : option Keyframe)
    : result string Keyframe :=
  let* result := rfold append_skeleton (default fresh_keyframe seed) records in
  Ok (result <| Skeleton.log_offset := log_offset |>).

(** ** The input fact of a retained log *)

Class GateAttrs := gate_subject : list byte -> result string Z.

Definition GATE_SUBJECT_INPUT : Z := 1.

Record InputUpgrade := { upgrade_epoch : option EpochStarted; upgrade_inputs : gset string }.

Definition fresh_upgrade : InputUpgrade := {| upgrade_epoch := None; upgrade_inputs := ∅ |}.

Definition upgrade_run (u : InputUpgrade) : option RunDescription :=
  match upgrade_epoch u with Some epoch => started_run epoch | None => None end.

(** [_same_input] *)
Definition same_input (former : option EpochStarted) (latter : EpochStarted) : bool :=
  match former with
  | None => false
  | Some former =>
    match started_run former, started_run latter with
    | Some previous, Some current =>
      eqb (described_input previous) (described_input current) &&
      match described_objectives previous, described_objectives current with
      | p :: _, c :: _ => eqb (objective_series p) (objective_series c)
      | _, _ => false
      end
    | _, _ => false
    end
  end.

(** [InputUpgrade.declaration]: the epoch as it amends it *)
Definition declaration (u : InputUpgrade) (epoch : EpochStarted) : EpochStarted * InputUpgrade :=
  let amended :=
    match started_run epoch, upgrade_run u with
    | Some run, Some previous =>
      if is_none (described_input_measurement run) && same_input (upgrade_epoch u) epoch
      then with_measurement epoch run (described_input_measurement previous)
      else epoch
    | _, _ => epoch
    end in
  (amended, {| upgrade_epoch := Some amended; upgrade_inputs := upgrade_inputs u |}).

Definition GATE_ATTRS : string := "type.googleapis.com/vibesys.search.v1.GateAttrs".

(** [InputUpgrade.measurement]: the epoch amended with the measured input, when this is it *)
Definition measurement (u : InputUpgrade) (point : MetricPoint) : option EpochStarted * InputUpgrade :=
  match upgrade_epoch u with
  | None => (None, u)
  | Some epoch =>
    match started_run epoch with
    | None => (None, u)
    | Some run =>
      match described_input_measurement run, described_objectives run with
      | None, objective :: _ =>
        if negb (eqb (point_series point) (objective_series objective))
           || (negb (eqb (point_span point) EmptyString)
               && negb (bool_decide (point_span point ∈ upgrade_inputs u)))
        then (None, u)
        else
          let fact := measured {| measured_series := point_series point;
            measured_value := point_value point; measured_span := point_span point |} in
          let epoch := with_measurement epoch run (Some fact) in
          (Some epoch, {| upgrade_epoch := Some epoch; upgrade_inputs := upgrade_inputs u |})
      | _, _ => (None, u)
      end
    end
  end.

Section Upgrade.
Context `{GateAttrs}.

(** [InputUpgrade.span] *)
Definition upgrade_span (u : InputUpgrade) (span : Span) : result string InputUpgrade :=
  let u := {| upgrade_epoch := upgrade_epoch u; upgrade_inputs := upgrade_inputs u ∖ {[span_id span]} |} in
  match span_label span with
  | None => Ok u
  | Some label =>
    match label_attrs label with
    | None => Ok u
    | Some attrs =>
      if negb (eqb (label_kind label) "gate"%string) then Ok u
      else if negb (eqb (type_url attrs) GATE_ATTRS) then Ok u
      else
        let* subject := gate_subject (any_value attrs) in
        Ok (if subject =? GATE_SUBJECT_INPUT
            then {| upgrade_epoch := upgrade_epoch u; upgrade_inputs := upgrade_inputs u ∪ {[span_id span]} |}
            else u)
    end
  end.

Definition with_body (record : LogRecord) (b : Body) : LogRecord :=
  {| seq := seq record; record_at := record_at record; epoch := epoch record;
     clock_field := clock_field record; input_measurement := input_measurement record;
     body := Some b; record_rest := record_rest record |}.

Definition with_input (record : LogRecord) (m : option InputMeasurement) : LogRecord :=
  {| seq := seq record; record_at := record_at record; epoch := epoch record;
     clock_field := clock_field record; input_measurement := m;
     body := body record; record_rest := record_rest record |}.

(** The [match body.field] of [InputUpgrade.apply] *)
Definition apply_body (u : InputUpgrade) (record : LogRecord) : result string (LogRecord * InputUpgrade) :=
  match body record with
  | Some (Body.epoch_started value) =>
    let (value, u) := declaration u value in Ok (with_body record (Body.epoch_started value), u)
  | Some (Body.declaration_amended value) =>
    let (value, u) := declaration u value in Ok (with_body record (Body.declaration_amended value), u)
  | Some (Body.span value) =>
    match record_span value with
    | Some span => let* u := upgrade_span u span in Ok (record, u)
    | None => Ok (record, u)
    end
  | Some (Body.metric point) =>
    match measurement u point with
    | (Some amended, u) =>
      match started_run amended with
      | Some run => Ok (with_input record (described_input_measurement run), u)
      | None => Ok (record, u)
      end
    | (None, u) => Ok (record, u)
    end
  | _ => Ok (record, u)
  end.

(** [InputUpgrade.apply]: the record as it amends it *)
Definition upgrade_apply (u : InputUpgrade) (record : LogRecord) : result string (LogRecord * InputUpgrade) :=
  match body record with
  | None => Ok (record, u)
  | Some _ =>
    let* applied := apply_body u record in
    let (record, u) := applied in
    match input_measurement record, upgrade_epoch u with
    | Some m, Some epoch =>
      match started_run epoch with
      | Some run => Ok (record, {| upgrade_epoch := Some (with_measurement epoch run (Some m));
                                   upgrade_inputs := upgrade_inputs u |})
      | None => Ok (record, u)
      end
    | _, _ => Ok (record, u)
    end
  end.

(** [InputUpgrade.observe]: the record itself stays as it is *)
Definition observe (u : InputUpgrade) (record : LogRecord) : result string InputUpgrade :=
  let* applied := upgrade_apply u record in Ok applied.2.

End Upgrade.

(** [InputUpgrade.measured] *)
Definition measured_value_of (u : InputUpgrade) : option float :=
  match upgrade_run u with
  | Some run =>
    match described_input_measurement run with
    | Some (measured m) => Some (measured_value m)
    | _ => None
    end
  | None => None
  end.

(** ** Lemmas *)

Lemma append_skeleton_Ok state record state' :
  append_skeleton state record = Ok state' ->
  seq record = through_seq state + 1 /\ through_seq state' = seq record.
Proof.
  unfold append_skeleton. destruct (_ =? _) eqn:E; cbn; [|done].
  destruct (append_body _ _); cbn; [|done]. intros [= <-]. split; [lia|done].
Qed.

(** The offset of a skeleton is no part of its fold. *)
Lemma append_body_offset s r o :
  append_body (s <| log_offset := o |>) r = rbind (append_body s r) (fun s' => Ok (s' <| log_offset := o |>)).
Proof.
  destruct s. unfold append_body. destruct (body r) as [[]|]; cbn; try done;
    unfold required_span; by repeat (destruct_match; cbn).
Qed.

Lemma append_record_fact_offset s r o :
  append_record_fact (s <| log_offset := o |>) r = (append_record_fact s r) <| log_offset := o |>.
Proof. destruct s. unfold append_record_fact. destruct (body r) as [[]|]; cbn; try done. by destruct (steers _). Qed.

Lemma append_input_fact_offset s r o :
  append_input_fact (s <| log_offset := o |>) r = (append_input_fact s r) <| log_offset := o |>.
Proof. destruct s. unfold append_input_fact. cbn. by repeat (destruct_match; cbn). Qed.

Lemma append_skeleton_offset s r o :
  append_skeleton (s <| log_offset := o |>) r =
  rbind (append_skeleton s r) (fun s' => Ok (s' <| log_offset := o |>)).
Proof.
  unfold append_skeleton. change (through_seq (s <| log_offset := o |>)) with (through_seq s).
  destruct (_ =? _); cbn [ensure rbind]; [|done].
  change (s <| log_offset := o |> <| head := None |>) with (s <| head := None |> <| log_offset := o |>).
  rewrite append_body_offset. destruct (append_body _ r) as [s'|]; cbn [rbind]; [|done].
  by rewrite append_record_fact_offset, append_input_fact_offset.
Qed.

Lemma append_skeleton_keeps_offset s r s' :
  append_skeleton s r = Ok s' -> s' = s' <| log_offset := log_offset s |>.
Proof.
  intros Hs. assert (s = s <| log_offset := log_offset s |>) as E by (by destruct s).
  rewrite E in Hs. rewrite append_skeleton_offset in Hs.
  destruct (append_skeleton s r); cbn in Hs; [|done]. by injection Hs as <-.
Qed.

(** A fold takes records numbered from the next one on. *)
Lemma fold_dense records state state' :
  rfold append_skeleton state records = Ok state' ->
  map seq records = seqZ (through_seq state + 1) (Z.of_nat (length records)) /\
  through_seq state' = through_seq state + Z.of_nat (length records).
Proof.
  revert state. induction records as [|r records IH]; intros state.
  { cbn. intros [= ->]. split; [done|lia]. }
  cbn [rfold]. destruct (append_skeleton state r) as [s1|] eqn:E; cbn; [|done]. intros Hr.
  apply append_skeleton_Ok in E as [Hseq Hthrough]. apply IH in Hr as [Hmap Hlen].
  rewrite seqZ_cons by lia. rewrite Hthrough, Hseq in *. split; [|lia].
  cbn [map]. rewrite Hmap. repeat f_equal; lia.
Qed.
