(* ===== verification/Epoch.v ===== *)
(** * Epochs of a run log

    [libs/vs-runlog/src/vs_runlog/_epoch.py]: who writes the log, and the lifecycle that writer
    published, folded from the records or read off a skeleton.  The two agree. *)

From S2P Require Import Prelude PyFloat Identities LogRecord Skeleton.

Record CurrentEpoch := { number : Z; lifecycle : option Lifecycle }.
#[export] Instance CurrentEpoch_dec : EqDecision CurrentEpoch.
Proof. solve_decision. Defined.

(** [CurrentEpoch()] *)
Definition no_epoch : CurrentEpoch := {| number := 0; lifecycle := None |}.

(** One round of the loop of [current_epoch] *)
Definition epoch_after (e : CurrentEpoch) (record : LogRecord) : CurrentEpoch :=
  match body record with
  | Some (Body.epoch_started value) =>
    if number e <? started_epoch value then {| number := started_epoch value; lifecycle := None |} else e
  | Some (Body.lifecycle value) =>
    if epoch record =? number e then {| number := number e; lifecycle := Some value |} else e
  | _ => e
  end.

(** [current_epoch] of records *)
Definition current_epoch (records : list LogRecord) (seed : CurrentEpoch) : CurrentEpoch :=
  fold_left epoch_after records seed.

(** A record of one of the two kinds a keyframe is read as, all other fields unset *)
Definition bare_record (seq epoch : Z) (b : Body) : LogRecord :=
  {| LogRecord.seq := seq; record_at := None; LogRecord.epoch := epoch; clock_field := None;
     input_measurement := None; body := Some b; record_rest := EmptyString |}.

(** [sorted(rows, key=lambda row: row.seq)], which is stable: a row goes after the rows of its
    key that came before it. *)
Fixpoint insert_row (row : LogRecord) (rows : list LogRecord) : list LogRecord :=
  match rows with
  | [] => [row]
  | r :: rows => if seq row <? seq r then row :: r :: rows else r :: insert_row row rows
  end.

Definition sorted_rows (rows : list LogRecord) : list LogRecord :=
  fold_left (fun sorted row => insert_row row sorted) rows [].

Definition epoch_row (row : EpochVersion) : option LogRecord :=
  option_map (fun e => bare_record (epoch_version_seq row) (started_epoch e) (Body.epoch_started e))
    (epoch_version_epoch row).
Definition lifecycle_row (row : LifecycleVersion) : option LogRecord :=
  option_map (fun l => bare_record (lifecycle_version_seq row) 0 (Body.lifecycle l))
    (lifecycle_version_lifecycle row).

(** [record.epoch = number] *)
Definition with_epoch (record : LogRecord) (number : Z) : LogRecord :=
  {| seq := seq record; record_at := record_at record; epoch := number;
     clock_field := clock_field record; input_measurement := input_measurement record;
     body := body record; record_rest := record_rest record |}.

(** A lifecycle row inherits the epoch of the header before it. *)
Fixpoint inherit_epochs (number : Z) (rows : list LogRecord) : list LogRecord :=
  match rows with
  | [] => []
  | row :: rows =>
    match body row with
    | Some (Body.epoch_started _) => row :: inherit_epochs (epoch row) rows
    | _ => with_epoch row number :: inherit_epochs number rows
    end
  end.

(** The rows a keyframe is read as *)
Definition keyframe_rows (kf : Keyframe) : list LogRecord :=
  sorted_rows (omap epoch_row (epochs kf) ++ omap lifecycle_row (lifecycles kf)).

(** [current_epoch] of a keyframe *)
Definition current_epoch_of_keyframe (kf : Keyframe) (seed : CurrentEpoch) : CurrentEpoch :=
  current_epoch (inherit_epochs 0 (keyframe_rows kf)) seed.

(** [epoch_has_ended] *)
Definition epoch_has_ended (e : CurrentEpoch) : bool :=
  match lifecycle e with
  | Some l =>
    match lifecycle_state l with
    | Some (LifecycleState.parked _) | Some (LifecycleState.ended _) => true
    | _ => false
    end
  | None => false
  end.

(** ** What the epochs of a log are *)

(** The epoch after a record of a well-formed log: a header opens its epoch or a later one than
    the epoch before it, and every other record that names an epoch names the current one. *)
Definition in_epoch (n : Z) (record : LogRecord) : option Z :=
  match body record with
  | Some (Body.epoch_started value) => if n <=? started_epoch value then Some (started_epoch value) else None
  | Some (Body.declaration_amended value) => if started_epoch value =? n then Some n else None
  | Some (Body.lifecycle _) => if epoch record =? n then Some n else None
  | _ => Some n
  end.

Fixpoint epochs_in_order (n : Z) (records : list LogRecord) : bool :=
  match records with
  | [] => true
  | record :: records =>
    match in_epoch n record with
    | Some n => epochs_in_order n records
    | None => false
    end
  end.

(** ** Sorting *)

Lemma insert_row_last row rows :
  Forall (fun r => seq r <= seq row) rows -> insert_row row rows = rows ++ [row].
Proof.
  induction 1 as [|r rows Hr _ IH]; cbn; [done|].
  rewrite (proj2 (Z.ltb_ge _ _)) by lia. by rewrite IH.
Qed.

Lemma insert_row_before row rows z :
  seq row < seq z -> insert_row row (rows ++ [z]) = insert_row row rows ++ [z].
Proof.
  intros Hz. induction rows as [|r rows IH]; cbn.
  - by rewrite (proj2 (Z.ltb_lt _ _)).
  - destruct (_ <? _); cbn; [done|]. by rewrite IH.
Qed.

Lemma insert_all_before rows sorted z :
  Forall (fun r => seq r < seq z) rows ->
  fold_left (fun sorted row => insert_row row sorted) rows (sorted ++ [z]) =
  fold_left (fun sorted row => insert_row row sorted) rows sorted ++ [z].
Proof.
  intros Hrows. revert sorted. induction Hrows as [|r rows Hr _ IH]; intros sorted; cbn; [done|].
  by rewrite insert_row_before, IH.
Qed.

Lemma elem_insert_row r row rows : r ∈ insert_row row rows <-> r = row \/ r ∈ rows.
Proof.
  induction rows as [|x rows IH]; cbn; [set_solver|]. destruct (_ <? _); set_solver.
Qed.

Lemma elem_insert_all r rows sorted :
  r ∈ fold_left (fun sorted row => insert_row row sorted) rows sorted <-> r ∈ rows \/ r ∈ sorted.
Proof.
  revert sorted. induction rows as [|x rows IH]; intros sorted; cbn; [set_solver|].
  rewrite IH, elem_insert_row. set_solver.
Qed.

Lemma elem_sorted_rows r rows : r ∈ sorted_rows rows <-> r ∈ rows.
Proof. unfold sorted_rows. rewrite elem_insert_all. set_solver. Qed.

(** The latest row, wherever it is among the rows before it, sorts last. *)
Lemma sorted_rows_latest front back z :
  Forall (fun r => seq r <= seq z) front -> Forall (fun r => seq r < seq z) back ->
  sorted_rows (front ++ z :: back) = sorted_rows (front ++ back) ++ [z].
Proof.
  intros Hfront Hback. unfold sorted_rows. rewrite !fold_left_app. cbn.
  rewrite insert_row_last, insert_all_before; [done|done|].
  rewrite Forall_forall in *. intros r Hr.
  apply (elem_insert_all r front []) in Hr as [Hr|Hr]; [by apply Hfront|set_solver].
Qed.

Lemma inherit_epochs_app n rows rows' :
  inherit_epochs n (rows ++ rows') =
  inherit_epochs n rows ++
  inherit_epochs (fold_left (fun n row => match body row with Some (Body.epoch_started _) => epoch row | _ => n end) rows n) rows'.
Proof.
  revert n. induction rows as [|r rows IH]; intros n; [done|].
  cbn [inherit_epochs app fold_left]. destruct (body r) as [[]|]; cbn; by rewrite IH.
Qed.

(** ** A keyframe tells the epoch its records do *)

(** The number a lifecycle row would inherit after [rows], and the epoch they tell *)
Definition read_rows (rows : list LogRecord) : Z * CurrentEpoch :=
  (fold_left (fun n row => match body row with Some (Body.epoch_started _) => epoch row | _ => n end) rows 0,
   current_epoch (inherit_epochs 0 rows) no_epoch).

Definition read_row (read : Z * CurrentEpoch) (row : LogRecord) : Z * CurrentEpoch :=
  match body row with
  | Some (Body.epoch_started _) => (epoch row, epoch_after read.2 row)
  | _ => (read.1, epoch_after read.2 (with_epoch row read.1))
  end.

Lemma read_rows_app rows new : read_rows (rows ++ new) = fold_left read_row new (read_rows rows).
Proof.
  revert rows. induction new as [|row new IH]; intros rows; [by rewrite app_nil_r|].
  change (row :: new) with ([row] ++ new). rewrite app_assoc, IH. cbn [app fold_left]. f_equal.
  unfold read_rows, current_epoch, read_row.
  rewrite inherit_epochs_app, !fold_left_app. cbn [fold_left inherit_epochs fst snd].
  by destruct (body row) as [[]|].
Qed.

(** New rows that are all later than the old ones come after them. *)
Lemma sorted_rows_new s E L newE newL :
  Forall (fun r => seq r < s) (E ++ L) -> Forall (fun r => seq r = s) (newE ++ newL) ->
  sorted_rows ((E ++ newE) ++ (L ++ newL)) = sorted_rows (E ++ L) ++ newE ++ newL.
Proof.
  intros Hold Hnew. rewrite Forall_app in *. destruct Hold as [HE HL], Hnew as [HnE HnL].
  induction newL as [|z newL IH] using rev_ind.
  - rewrite !app_nil_r. induction newE as [|z newE IH] using rev_ind; [by rewrite !app_nil_r|].
    rewrite Forall_app, Forall_singleton in HnE. destruct HnE as [HnE Hz].
    rewrite (app_assoc E newE), <- (app_assoc (E ++ newE)). cbn [app].
    rewrite sorted_rows_latest, IH, !app_assoc; [done|done| |].
    + rewrite Forall_app. split; (eapply Forall_impl; [eassumption|]); intros ?; cbn; lia.
    + eapply Forall_impl; [apply HL|]; intros ?; cbn; lia.
  - rewrite Forall_app, Forall_singleton in HnL. destruct HnL as [HnL Hz].
    rewrite (app_assoc L newL), (app_assoc (E ++ newE)), sorted_rows_latest, app_nil_r, IH, !app_assoc;
      [done|done| |done].
    rewrite !Forall_app. repeat split; (eapply Forall_impl; [eassumption|]); intros ?; cbn; lia.
Qed.

(** The rows a record adds *)
Definition body_epochs (r : LogRecord) : list EpochVersion :=
  match body r with
  | Some (Body.epoch_started value) =>
    [{| epoch_version_seq := seq r; epoch_version_epoch := Some value;
        epoch_version_started_at := record_at r; starts_epoch := true |}]
  | Some (Body.declaration_amended value) =>
    [{| epoch_version_seq := seq r; epoch_version_epoch := Some value;
        epoch_version_started_at := None; starts_epoch := false |}]
  | _ => []
  end.

Definition body_lifecycles (r : LogRecord) : list LifecycleVersion :=
  match body r with
  | Some (Body.lifecycle value) =>
    [{| lifecycle_version_seq := seq r; lifecycle_version_lifecycle := Some value |}]
  | _ => []
  end.

(** The number of the latest declaration *)
Definition last_number (versions : list EpochVersion) : option Z :=
  match last versions with
  | Some v => option_map started_epoch (epoch_version_epoch v)
  | None => Some 0
  end.

Lemma append_skeleton_rows kf r kf' :
  append_skeleton kf r = Ok kf' ->
  lifecycles kf' = lifecycles kf ++ body_lifecycles r /\
  exists facts, epochs kf' = epochs kf ++ body_epochs r ++ facts /\
    (facts = [] \/ exists v e, facts = [v] /\ epoch_version_seq v = seq r /\ epoch_version_epoch v = Some e
      /\ last_number (epochs kf ++ body_epochs r) = Some (started_epoch e)).
Proof.
  unfold append_skeleton. destruct (_ =? _); cbn [ensure rbind]; [|done].
  destruct (append_body _ r) as [s1|] eqn:Hb; cbn [rbind]; [|done]. intros [= <-].
  assert (Hs1 : epochs s1 = epochs kf ++ body_epochs r /\ lifecycles s1 = lifecycles kf ++ body_lifecycles r).
  { unfold append_body, body_epochs, body_lifecycles in *.
    destruct (body r) as [[]|]; cbn in Hb; unfold required_span in Hb;
      repeat (destruct_match; cbn in Hb; try done); simplify_eq; cbn; by rewrite ?app_nil_r. }
  set (s2 := append_record_fact s1 r).
  assert (Hs2 : epochs s2 = epochs s1 /\ lifecycles s2 = lifecycles s1).
  { unfold s2, append_record_fact. destruct (body r) as [[]|]; cbn; try done. by destruct (steers _). }
  destruct Hs2 as [He Hl], Hs1 as [He1 Hl1]. unfold append_input_fact.
  rewrite He, He1. cbn [update].
  destruct (input_measurement r) as [m|];
    [destruct (last (epochs kf ++ body_epochs r)) as [v|] eqn:Hlast;
      [destruct (epoch_version_epoch v) as [e|] eqn:Hv; [destruct (started_run e) as [run|]|]|]|];
    cbn; rewrite ?He, ?Hl, ?He1, ?Hl1; (split; [done|]).
  all: try (exists []; split; [by rewrite !app_nil_r|by left]).
  eexists [_]. split; [by rewrite app_assoc|]. right. do 2 eexists. do 3 (split; [done|]).
  unfold last_number. by rewrite Hlast, Hv.
Qed.

(** What the rows of a keyframe say after records that left epoch [n] *)
Record rows_tell (kf : Keyframe) (n : Z) (e : CurrentEpoch) : Prop := {
  rows_number : number e = n;
  rows_read : read_rows (keyframe_rows kf) = (n, e);
  rows_past : Forall (fun r => seq r <= through_seq kf) (omap epoch_row (epochs kf) ++ omap lifecycle_row (lifecycles kf));
  rows_last : last_number (epochs kf) = Some n
}.

Lemma last_number_snoc versions v : last_number (versions ++ [v]) = option_map started_epoch (epoch_version_epoch v).
Proof. unfold last_number. by rewrite last_snoc. Qed.

(** The fact a record leaves about the declaration before it opens no epoch. *)
Lemma facts_quiet r versions facts n e :
  number e = n -> last_number versions = Some n ->
  (facts = [] \/ exists v d, facts = [v] /\ epoch_version_seq v = seq r /\ epoch_version_epoch v = Some d
     /\ last_number versions = Some (started_epoch d)) ->
  fold_left read_row (omap epoch_row facts) (n, e) = (n, e) /\
  last_number (versions ++ facts) = Some n /\
  Forall (fun row => seq row = seq r) (omap epoch_row facts).
Proof.
  intros <- Hlast [->|(v & d & -> & Hs & Hd & Hn)]; [by rewrite app_nil_r|].
  rewrite Hn in Hlast. injection Hlast as Hlast. rewrite last_number_snoc.
  cbn [omap list_omap epoch_row]. unfold epoch_row. rewrite Hd. cbn.
  unfold epoch_after. cbn. rewrite Hlast, Z.ltb_irrefl. split; [done|]. split; [by f_equal|].
  by repeat constructor.
Qed.

(** The rows of its body tell the epoch a record does. *)
Lemma body_rows n e r n' :
  number e = n -> in_epoch n r = Some n' ->
  exists e', number e' = n' /\
    fold_left read_row (omap epoch_row (body_epochs r)) (n, e) = (n', e') /\
    fold_left read_row (omap lifecycle_row (body_lifecycles r)) (n', e') = (n', epoch_after e r) /\
    number (epoch_after e r) = n' /\
    (forall versions, last_number versions = Some n -> last_number (versions ++ body_epochs r) = Some n') /\
    Forall (fun row => seq row = seq r) (omap epoch_row (body_epochs r)) /\
    Forall (fun row => seq row = seq r) (omap lifecycle_row (body_lifecycles r)).
Proof.
  intros <- Hin. unfold in_epoch in Hin. unfold body_epochs, body_lifecycles, epoch_after.
  destruct (body r) as [[]|]; repeat (destruct_match; try done); simplify_eq; cbn;
    try (exists e; setoid_rewrite app_nil_r; by repeat constructor).
  - (* a header of a later epoch *)
    rewrite Heqb. exists {| number := started_epoch value; lifecycle := None |}. split_and!; try by repeat constructor.
    intros. by rewrite last_number_snoc.
  - (* a header that repeats the epoch *)
    rewrite Heqb. exists e. assert (number e = started_epoch value) as E by lia. rewrite E.
    split_and!; try by repeat constructor. intros. by rewrite last_number_snoc.
  - exists e. rewrite Z.eqb_refl. setoid_rewrite app_nil_r. by repeat constructor.
  - exists e. assert (started_epoch value = number e) as E by lia. rewrite E, Z.ltb_irrefl.
    split_and!; try by repeat constructor. intros. rewrite last_number_snoc. cbn. by f_equal.
Qed.

Lemma rows_tell_step kf n e r kf' n' :
  rows_tell kf n e -> append_skeleton kf r = Ok kf' -> in_epoch n r = Some n' ->
  rows_tell kf' n' (epoch_after e r).
Proof.
  intros [Hn Hread Hpast Hlast] Happ Hin.
  pose proof (append_skeleton_Ok _ _ _ Happ) as [Hseq Hthrough].
  pose proof (append_skeleton_rows _ _ _ Happ) as (HL & facts & HE & Hfacts).
  destruct (body_rows _ _ _ _ Hn Hin) as (e' & He' & Hfe & Hfl & Hnum & Hver & HsE & HsL).
  specialize (Hver _ Hlast).
  destruct (facts_quiet r _ facts _ _ He' Hver Hfacts) as (Hquiet & Hlast' & Hsf).
  rewrite <- app_assoc, <- HE in Hlast'. split; [done| | |done].
  - unfold keyframe_rows. rewrite HE, HL, !omap_app.
    rewrite (sorted_rows_new (seq r)).
    + rewrite read_rows_app. change (sorted_rows _) with (keyframe_rows kf).
      by rewrite Hread, !fold_left_app, Hfe, Hquiet.
    + eapply Forall_impl; [apply Hpast|]. intros ?; cbn; lia.
    + rewrite !Forall_app. done.
  - rewrite HE, HL, !omap_app, !Forall_app. rewrite Forall_app in Hpast. destruct Hpast.
    rewrite Hthrough. repeat split; (eapply Forall_impl; [eassumption|]); intros ?; cbn; lia.
Qed.

(** A reader that has a keyframe and one that has the records read the same epoch. *)
Theorem keyframe_epoch_agrees records kf offset :
  fold_skeleton records offset None = Ok kf -> epochs_in_order 0 records = true ->
  current_epoch_of_keyframe kf no_epoch = current_epoch records no_epoch.
Proof.
  unfold fold_skeleton. cbn [default].
  destruct (rfold _ _ _) as [kf1|] eqn:Hfold; cbn; [|done]. intros [= <-] Hin.
  assert (Hstart : rows_tell fresh_keyframe 0 no_epoch) by done.
  assert (forall kf0 n e, rows_tell kf0 n e -> rfold append_skeleton kf0 records = Ok kf1 ->
    epochs_in_order n records = true -> exists n', rows_tell kf1 n' (current_epoch records e)) as Hall.
  { clear. induction records as [|r records IH]; intros kf0 n e Htell Hfold Hin.
    - injection Hfold as ->. by exists n.
    - cbn in Hfold, Hin. destruct (append_skeleton kf0 r) as [kf2|] eqn:E; cbn in Hfold; [|done].
      destruct (in_epoch n r) as [n2|] eqn:En; [|done].
      eapply IH; [|done|done]. by eapply rows_tell_step. }
  destruct (Hall _ _ _ Hstart Hfold Hin) as [n' [_ Hread _ _]].
  unfold read_rows in Hread. by injection Hread as _ Hread.
Qed.

(** A run of two epochs: the first ends, and the second amends its declaration. *)
Definition sample_header (n e : Z) : LogRecord :=
  bare_record n e (Body.epoch_started {| started_epoch := e; started_run := None; started_series := []; started_rest := EmptyString |}).
Definition sample_ended (n e : Z) : LogRecord :=
  bare_record n e (Body.lifecycle {| lifecycle_state := Some (LifecycleState.ended {| ended_outcome := 1; ended_presentation := None; ended_rest := EmptyString |}) |}).

Lemma keyframe_epoch_agrees_witness :
  exists kf, let records := [sample_header 1 1; sample_ended 2 1; sample_header 3 2; sample_ended 4 2] in
    fold_skeleton records 100 None = Ok kf /\
    current_epoch_of_keyframe kf no_epoch = current_epoch records no_epoch /\
    epoch_has_ended (current_epoch records no_epoch) = true.
Proof.
  eexists. cbn zeta. split; [vm_compute; reflexivity|]. split; [|vm_compute; reflexivity].
  apply (keyframe_epoch_agrees _ _ 100); vm_compute; reflexivity.
Defined.
