(* ===== verification/Framing.v ===== *)
(** * Frames of the run log

    [libs/vs-runlog/src/vs_runlog/_framing.py]: a record is a length, a checksum and a payload.
    A [BinaryIO] is its bytes and a position; a read at the end returns what is left. *)

From S2P Require Import Prelude PyFloat Identities LogRecord.

(** ** Bits and bytes *)

Lemma lor_add_shift a b k : 0 <= k -> 0 <= a < 2 ^ k -> Z.lor a (Z.shiftl b k) = a + b * 2 ^ k.
Proof.
  intros Hk Ha. assert (Hland : Z.land a (Z.shiftl b k) = 0).
  { apply Z.bits_inj'. intros n Hn. rewrite Z.land_spec, Z.bits_0.
    destruct (Z.ltb_spec n k).
    - rewrite Z.shiftl_spec_low by lia. apply andb_false_r.
    - rewrite (Z.testbit_eqb a) by lia. rewrite Z.div_small; [done|].
      split; [lia|]. eapply Z.lt_le_trans; [apply Ha|]. apply Z.pow_le_mono_r; lia. }
  rewrite <- Z.lxor_lor, <- Z.add_nocarry_lxor, Z.shiftl_mul_pow2 by done. done.
Qed.

Lemma land_127 n : Z.land n 127 = n mod 128.
Proof. change 127 with (Z.ones 7). by rewrite Z.land_ones. Qed.

Lemma land_128 n : 0 <= n < 256 -> Z.eqb (Z.land n 128) 0 = (n <? 128).
Proof.
  intros Hn. destruct (Z.ltb_spec n 128).
  - rewrite Z.eqb_eq. apply Z.bits_inj'. intros i Hi. rewrite Z.land_spec, Z.bits_0.
    destruct (decide (i = 7)) as [->|].
    + rewrite Z.testbit_eqb by lia. by rewrite Z.div_small by lia.
    + change 128 with (2 ^ 7). rewrite Z.pow2_bits_false by lia. apply andb_false_r.
  - rewrite Z.eqb_neq. intros Hz.
    assert (Hb : Z.testbit (Z.land n 128) 7 = false) by (by rewrite Hz, Z.bits_0).
    rewrite Z.land_spec in Hb. change (Z.testbit 128 7) with true in Hb.
    rewrite andb_true_r, Z.testbit_eqb in Hb by lia.
    assert (n / 2 ^ 7 = 1) as E by (symmetry; apply Z.div_unique with (n - 128); lia).
    by rewrite E in Hb.
Qed.

(** [int.to_bytes(count, "little")] *)
Fixpoint to_bytes_little (count : nat) (n : Z) : list byte :=
  match count with
  | O => []
  | S count => n mod 256 :: to_bytes_little count (n / 256)
  end.

(** [int.from_bytes(data, "little")] *)
Fixpoint from_bytes_little (data : list byte) : Z :=
  match data with
  | [] => 0
  | b :: data => b + 256 * from_bytes_little data
  end.

Lemma to_bytes_length count n : length (to_bytes_little count n) = count.
Proof. revert n. induction count as [|count IH]; intros n; cbn; [done|]. by rewrite IH. Qed.

Lemma from_to_bytes count n :
  0 <= n < 256 ^ Z.of_nat count -> from_bytes_little (to_bytes_little count n) = n.
Proof.
  revert n. induction count as [|count IH]; intros n Hn; [cbn in *; lia|].
  rewrite Nat2Z.inj_succ, Z.pow_succ_r in Hn by lia.
  cbn [to_bytes_little from_bytes_little]. rewrite IH.
  - pose proof (Z.div_mod n 256). lia.
  - split; [apply Z.div_pos; lia|]. apply Z.div_lt_upper_bound; lia.
Qed.

(** ** Streams *)

Record Stream := { stream_bytes : list byte; stream_at : Z }.

(** [stream.seek(offset)] *)
Definition seek (offset : Z) (s : Stream) : Stream :=
  {| stream_bytes := stream_bytes s; stream_at := offset |}.

(** [stream.tell()] *)
Definition tell (s : Stream) : Z := stream_at s.

(** What a read of everything would return *)
Definition rest_of (s : Stream) : list byte := drop (Z.to_nat (stream_at s)) (stream_bytes s).

(** [stream.read(n)] *)
Definition read (n : Z) (s : Stream) : list byte * Stream :=
  let data := take (Z.to_nat n) (rest_of s) in
  (data, seek (stream_at s + Z.of_nat (length data)) s).

(** ** Frames *)

Definition RUN_LOG_MAX_RECORD_BYTES : Z := 1048576.
(** [b"VSRLOG01"] *)
Definition RUN_LOG_MAGIC : list byte := [86; 83; 82; 76; 79; 71; 48; 49].
Definition MAX_VARINT_BYTES : nat := 10.
Definition CONTINUATION_BIT : Z := 128.
Definition CHECKSUM_BYTES : nat := 4.

Module RunLogStopReason.
Inductive RunLogStopReason : Set := END | TORN_TAIL | CORRUPTION.
End RunLogStopReason.
Abbreviation RunLogStopReason := RunLogStopReason.RunLogStopReason.
#[export] Instance RunLogStopReason_dec : EqDecision RunLogStopReason.
Proof. solve_decision. Defined.

(** [ReadStop]: why a reader stopped, and the first byte of the frame it did not read *)
Record ReadStop := { stop_reason : RunLogStopReason; stop_offset : Z; stop_detail : string }.
#[export] Instance ReadStop_dec : EqDecision ReadStop.
Proof. solve_decision. Defined.

Definition stop_at (reason : RunLogStopReason) (offset : Z) : ReadStop :=
  {| stop_reason := reason; stop_offset := offset; stop_detail := EmptyString |}.
Definition corrupt_at (offset : Z) (detail : string) : ReadStop :=
  {| stop_reason := RunLogStopReason.CORRUPTION; stop_offset := offset; stop_detail := detail |}.

(** The loop [while length >= _CONTINUATION_BIT]: a length of [k] bits takes fewer than [k]
    rounds. *)
Fixpoint length_prefix (fuel : nat) (length : Z) : list byte :=
  match fuel with
  | O => [length]
  | S fuel =>
    if CONTINUATION_BIT <=? length
    then Z.lor (Z.land length 127) 128 :: length_prefix fuel (Z.shiftr length 7)
    else [length]
  end.

Definition uvarint (length : Z) : list byte := length_prefix (Z.to_nat (Z.log2 length)) length.

Section Framing.
Context `{Codec}.

(** [encode_frame] *)
Definition encode_frame (record : LogRecord) : result string (list byte) :=
  let* _ := validate record in
  let payload := to_binary record in
  let length := Z.of_nat (length payload) in
  require* length <=? RUN_LOG_MAX_RECORD_BYTES else "record payload exceeds the cap"%string in
  Ok (uvarint length ++ to_bytes_little CHECKSUM_BYTES (crc32c payload) ++ payload).

(** The loop of [read_frame] over the bytes of the length: the length, or why there is none *)
Fixpoint read_length (indices : list Z) (length : Z) (offset : Z) (s : Stream)
    : (Z + ReadStop) * Stream :=
  match indices with
  | [] => (inr (corrupt_at offset "invalid length varint"), s)
  | index :: indices =>
    match read 1 s with
    | ([], s) =>
      (inr (stop_at (if index =? 0 then RunLogStopReason.END else RunLogStopReason.TORN_TAIL) offset), s)
    | (b :: _, s) =>
      let length := Z.lor length (Z.shiftl (Z.land b 127) (7 * index)) in
      if RUN_LOG_MAX_RECORD_BYTES <? length
      then (inr (corrupt_at offset "length exceeds record cap"), s)
      else if Z.land b 128 =? 0 then (inl length, s)
      else read_length indices length offset s
    end
  end.

(** [_read_payload] *)
Definition read_payload (offset length : Z) (s : Stream) : option LogRecord * ReadStop * Stream :=
  let '(checksum, s) := read (Z.of_nat CHECKSUM_BYTES) s in
  let '(payload, s) := read length s in
  if negb (Nat.eqb (List.length checksum) CHECKSUM_BYTES)
     || negb (Z.of_nat (List.length payload) =? length)
  then (None, stop_at RunLogStopReason.TORN_TAIL offset, s)
  else if negb (crc32c payload =? from_bytes_little checksum)
  then (None, corrupt_at offset "CRC32C mismatch", s)
  else match (let* record := from_binary payload in let* _ := validate record in Ok record) with
  | Err exc => (None, corrupt_at offset ("invalid Record: " +:+ exc), s)
  | Ok record => (Some record, stop_at RunLogStopReason.END (tell s), s)
  end.

(** [read_frame] *)
Definition read_frame (offset : Z) (s : Stream) : option LogRecord * ReadStop * Stream :=
  match read_length (seqZ 0 (Z.of_nat MAX_VARINT_BYTES)) 0 offset s with
  | (inr stop, s) => (None, stop, s)
  | (inl length, s) => read_payload offset length s
  end.

End Framing.

(** ** Reading *)

Lemma rest_seek s n : 0 <= stream_at s -> 0 <= n ->
  rest_of (seek (stream_at s + n) s) = drop (Z.to_nat n) (rest_of s).
Proof. intros. unfold rest_of. cbn. rewrite drop_drop, Z2Nat.inj_add by lia. done. Qed.

Lemma rest_after s data rest :
  rest_of s = data ++ rest -> 0 <= stream_at s ->
  rest_of (seek (stream_at s + Z.of_nat (length data)) s) = rest.
Proof.
  intros Hrest Hat. by rewrite rest_seek, Hrest, Nat2Z.id, drop_app_length by lia.
Qed.

Lemma read_takes n s data s' : read n s = (data, s') -> 0 <= stream_at s ->
  rest_of s = data ++ rest_of s' /\ s' = seek (stream_at s + Z.of_nat (length data)) s.
Proof.
  unfold read. intros [= <- <-] Hat. split; [|done]. rewrite rest_seek by lia.
  set (k := Z.to_nat n). rewrite Nat2Z.id, length_take.
  destruct (Nat.le_ge_cases k (length (rest_of s))).
  - by rewrite Nat.min_l, take_drop.
  - rewrite Nat.min_r, take_ge, drop_ge by done. by rewrite app_nil_r.
Qed.

(** A read of the bytes that come first takes them. *)
Lemma read_exact s data rest n :
  rest_of s = data ++ rest -> n = Z.of_nat (length data) ->
  read n s = (data, seek (stream_at s + Z.of_nat (length data)) s).
Proof. intros Hrest ->. unfold read. by rewrite Hrest, Nat2Z.id, take_app_length. Qed.

(** A read of more than is left takes what is left. *)
Lemma read_short s n : Z.of_nat (length (rest_of s)) <= n ->
  read n s = (rest_of s, seek (stream_at s + Z.of_nat (length (rest_of s))) s).
Proof. intros Hn. unfold read. by rewrite take_ge by lia. Qed.

Lemma rest_end s : 0 <= stream_at s ->
  rest_of (seek (stream_at s + Z.of_nat (length (rest_of s))) s) = [].
Proof. intros. rewrite rest_seek by lia. apply drop_ge. lia. Qed.

Lemma uvarint_byte n : 0 <= n -> Z.lor (Z.land n 127) 128 = n mod 128 + 128.
Proof.
  intros Hn. rewrite land_127. change 128 with (Z.shiftl 1 7) at 2.
  rewrite lor_add_shift; [done|lia|]. apply Z.mod_pos_bound. lia.
Qed.

(** The digit a round of the reader adds *)
Lemma add_digit acc n index : 0 <= index -> 0 <= acc < 2 ^ (7 * index) ->
  Z.lor acc (Z.shiftl (Z.land n 127) (7 * index)) = acc + n mod 128 * 2 ^ (7 * index).
Proof. intros. rewrite lor_add_shift by lia. by rewrite land_127. Qed.

Lemma digit_bound acc n index : 0 <= index -> 0 <= n -> 0 <= acc < 2 ^ (7 * index) ->
  0 <= acc + n mod 128 * 2 ^ (7 * index) < 2 ^ (7 * (index + 1)) /\
  acc + n mod 128 * 2 ^ (7 * index) <= acc + n * 2 ^ (7 * index).
Proof.
  intros Hi Hn Hacc. pose proof (Z.mod_pos_bound n 128). pose proof (Z.mod_le n 128).
  assert (0 < 2 ^ (7 * index)) by (apply Z.pow_pos_nonneg; lia).
  rewrite Z.mul_add_distr_l, Z.pow_add_r by lia. change (2 ^ (7 * 1)) with 128.
  split; nia.
Qed.

Section Lengths.
Variable offset : Z.

(** One round over a byte of the length *)
Lemma read_length_byte s index count acc b rest :
  0 < count -> rest_of s = b :: rest ->
  read_length (seqZ index count) acc offset s =
  let length := Z.lor acc (Z.shiftl (Z.land b 127) (7 * index)) in
  let s := seek (stream_at s + 1) s in
  if RUN_LOG_MAX_RECORD_BYTES <? length
  then (inr (corrupt_at offset "length exceeds record cap"), s)
  else if Z.land b 128 =? 0 then (inl length, s)
  else read_length (seqZ (index + 1) (count - 1)) length offset s.
Proof.
  intros Hc Hrest. rewrite seqZ_cons by done. cbn [read_length].
  by rewrite (read_exact s [b] rest) by done.
Qed.

Lemma read_length_end s index count acc :
  0 < count -> rest_of s = [] ->
  (read_length (seqZ index count) acc offset s).1 =
  inr (stop_at (if index =? 0 then RunLogStopReason.END else RunLogStopReason.TORN_TAIL) offset).
Proof.
  intros Hc Hrest. rewrite seqZ_cons by done. cbn [read_length].
  by rewrite read_short by (rewrite Hrest; cbn; lia); rewrite Hrest.
Qed.

(** What the reader of a length needs of the number it still has to read *)
Definition readable (fuel : nat) (n index count acc : Z) : Prop :=
  0 <= index /\ 0 <= n < 2 ^ (Z.of_nat fuel + 1) /\ 0 <= acc < 2 ^ (7 * index) /\
  0 < count /\ n < 2 ^ (7 * count) /\ acc + n * 2 ^ (7 * index) <= RUN_LOG_MAX_RECORD_BYTES.

Lemma readable_next fuel n index count acc :
  readable (S fuel) n index count acc -> 128 <= n ->
  readable fuel (Z.shiftr n 7) (index + 1) (count - 1) (acc + n mod 128 * 2 ^ (7 * index)) /\
  acc + n mod 128 * 2 ^ (7 * index) + Z.shiftr n 7 * 2 ^ (7 * (index + 1)) = acc + n * 2 ^ (7 * index).
Proof.
  intros (Hi & Hn & Hacc & Hc & Hlt & Hmax) Hn'. rewrite Z.shiftr_div_pow2 by lia.
  change (2 ^ 7) with 128.
  pose proof (digit_bound acc n index Hi ltac:(lia) Hacc) as [Hd _].
  pose proof (Z.div_mod n 128 ltac:(lia)).
  assert (Hsum : acc + n mod 128 * 2 ^ (7 * index) + n / 128 * 2 ^ (7 * (index + 1))
    = acc + n * 2 ^ (7 * index)).
  { rewrite Z.mul_add_distr_l, Z.pow_add_r by lia. change (2 ^ (7 * 1)) with 128. nia. }
  split; [|done]. rewrite <- Hsum in Hmax.
  assert (2 ^ (7 * count) = 128 * 2 ^ (7 * (count - 1))) as E.
  { replace (7 * count) with (7 + 7 * (count - 1)) by lia. rewrite Z.pow_add_r by lia. done. }
  assert (n / 128 < 2 ^ (7 * (count - 1))) by (apply Z.div_lt_upper_bound; lia).
  assert (1 < count).
  { destruct (Z.lt_ge_cases 1 count); [done|]. replace count with 1 in * by lia. cbn in *. lia. }
  repeat split; try lia; [apply Z.div_pos; lia|].
  apply Z.div_lt_upper_bound; [lia|]. eapply Z.lt_le_trans; [apply Hn|].
  replace (Z.of_nat (S fuel) + 1) with (1 + (Z.of_nat fuel + 1)) by lia.
  rewrite Z.pow_add_r by lia. change (2 ^ 1) with 2.
  assert (0 < 2 ^ (Z.of_nat fuel + 1)) by (apply Z.pow_pos_nonneg; lia). lia.
Qed.

Lemma last_digit fuel n index count acc :
  readable fuel n index count acc -> n < 128 ->
  Z.lor acc (Z.shiftl (Z.land n 127) (7 * index)) = acc + n * 2 ^ (7 * index) /\ (Z.land n 128 =? 0) = true.
Proof.
  intros (Hi & Hn & Hacc & _) Hlt. rewrite add_digit, Z.mod_small by lia.
  rewrite land_128 by lia. split; [done|]. by apply Z.ltb_lt.
Qed.

Lemma more_digit fuel n index count acc :
  readable fuel n index count acc ->
  Z.lor acc (Z.shiftl (Z.land (Z.lor (Z.land n 127) 128) 127) (7 * index))
    = acc + n mod 128 * 2 ^ (7 * index) /\ (Z.land (Z.lor (Z.land n 127) 128) 128 =? 0) = false
  /\ acc + n mod 128 * 2 ^ (7 * index) <= RUN_LOG_MAX_RECORD_BYTES.
Proof.
  intros (Hi & Hn & Hacc & Hc & _ & Hmax). pose proof (Z.mod_pos_bound n 128).
  rewrite uvarint_byte, add_digit, land_128 by lia.
  rewrite Z.add_mod, Z.mod_same, Z.add_0_r, !Z.mod_mod by lia.
  pose proof (digit_bound acc n index Hi ltac:(lia) Hacc). split; [done|]. split; [|lia].
  apply Z.ltb_ge. lia.
Qed.

(** The reader reads back the length the writer wrote. *)
Lemma read_length_prefix fuel n index count acc s rest :
  readable fuel n index count acc -> 0 <= stream_at s ->
  rest_of s = length_prefix fuel n ++ rest ->
  read_length (seqZ index count) acc offset s =
  (inl (acc + n * 2 ^ (7 * index)), seek (stream_at s + Z.of_nat (length (length_prefix fuel n))) s).
Proof.
  revert n index count acc s. induction fuel as [|fuel IH]; intros n index count acc s Hr Hat Hrest;
    pose proof Hr as (Hi & Hn & Hacc & Hc & Hlt & Hmax); cbn [length_prefix] in *.
  - erewrite read_length_byte by done. cbn zeta.
    destruct (last_digit _ _ _ _ _ Hr) as [-> ->]; [cbn in Hn; lia|].
    by rewrite (proj2 (Z.ltb_ge _ _)) by lia.
  - unfold CONTINUATION_BIT in *. destruct (128 <=? n) eqn:E.
    + erewrite read_length_byte by done. cbn zeta.
      destruct (more_digit _ _ _ _ _ Hr) as (-> & -> & Hle).
      rewrite (proj2 (Z.ltb_ge _ _)) by lia.
      destruct (readable_next _ _ _ _ _ Hr) as [Hr' <-]; [lia|].
      rewrite (IH _ _ _ _ _ Hr'); cbn [stream_at seek length]; [|lia|].
      { f_equal. unfold seek. cbn. f_equal. lia. }
      by apply (rest_after s [Z.lor (Z.land n 127) 128]).
    + erewrite read_length_byte by done. cbn zeta.
      destruct (last_digit _ _ _ _ _ Hr) as [-> ->]; [lia|].
      by rewrite (proj2 (Z.ltb_ge _ _)) by lia.
Qed.

(** A length that is cut reads as the end of the log, or as a torn tail. *)
Lemma read_length_torn fuel n index count acc s tail :
  readable fuel n index count acc -> 0 <= stream_at s ->
  length_prefix fuel n = rest_of s ++ tail -> tail <> [] ->
  (read_length (seqZ index count) acc offset s).1 =
  inr (stop_at (if bool_decide (rest_of s = []) && (index =? 0)
                then RunLogStopReason.END else RunLogStopReason.TORN_TAIL) offset).
Proof.
  revert n index count acc s. induction fuel as [|fuel IH]; intros n index count acc s Hr Hat Hrest Htail;
    pose proof Hr as (Hi & Hn & Hacc & Hc & Hlt & Hmax);
    (destruct (rest_of s) as [|b p] eqn:Hs;
      [by rewrite read_length_end|]); cbn [length_prefix] in Hrest.
  - destruct p; [|done]. cbn in Hrest. by simplify_eq.
  - unfold CONTINUATION_BIT in *. destruct (128 <=? n) eqn:E;
      [|destruct p; [by simplify_eq/=|done]].
    injection Hrest as Hb Hp. erewrite read_length_byte by done. cbn zeta. rewrite <- Hb.
    destruct (more_digit _ _ _ _ _ Hr) as (-> & -> & Hle).
    rewrite (proj2 (Z.ltb_ge _ _)) by lia.
    destruct (readable_next _ _ _ _ _ Hr) as [Hr' _]; [lia|].
    assert (Hp' : rest_of (seek (stream_at s + 1) s) = p) by (apply (rest_after s [b]); [done|lia]).
    rewrite (IH _ _ _ _ _ Hr'); cbn [stream_at seek]; [|lia| |done].
    + rewrite (proj2 (Z.eqb_neq (index + 1) 0)) by lia. by rewrite andb_false_r.
    + cbn in Hp'. by rewrite Hp'.
Qed.

End Lengths.

(** ** Frames *)

Section Frames.
Context `{CodecLaws}.

Lemma uvarint_readable n : 0 <= n <= RUN_LOG_MAX_RECORD_BYTES ->
  readable (Z.to_nat (Z.log2 n)) n 0 (Z.of_nat MAX_VARINT_BYTES) 0.
Proof.
  intros Hn. unfold readable, MAX_VARINT_BYTES, RUN_LOG_MAX_RECORD_BYTES in *. cbn [Z.mul Z.pow].
  rewrite Z2Nat.id by apply Z.log2_nonneg.
  assert (n < 2 ^ (Z.log2 n + 1)).
  { destruct (decide (n = 0)) as [->|]; [done|]. rewrite Z.add_1_r. apply Z.log2_spec. lia. }
  cbn. lia.
Qed.

(** The three parts of a frame *)
Record frame_of (r : LogRecord) (frame : list byte) : Prop := {
  frame_valid : validate r = Ok tt;
  frame_payload : Z.of_nat (length (to_binary r)) <= RUN_LOG_MAX_RECORD_BYTES;
  frame_bytes : frame = uvarint (Z.of_nat (length (to_binary r)))
    ++ to_bytes_little CHECKSUM_BYTES (crc32c (to_binary r)) ++ to_binary r
}.

Lemma encode_frame_of r frame : encode_frame r = Ok frame <-> frame_of r frame.
Proof.
  unfold encode_frame. destruct (validate r) as [[]|e] eqn:Hv; cbn.
  - destruct (_ <=? _) eqn:E; cbn.
    + split; [intros [= <-]; split; [done|lia|done]|]. by intros [_ _ ->].
    + split; [done|]. intros [_ ? _]. lia.
  - split; [done|]. intros [Hr _ _]. congruence.
Qed.

Lemma read_uvarint n s rest offset :
  0 <= n <= RUN_LOG_MAX_RECORD_BYTES -> 0 <= stream_at s -> rest_of s = uvarint n ++ rest ->
  read_length (seqZ 0 (Z.of_nat MAX_VARINT_BYTES)) 0 offset s =
  (inl n, seek (stream_at s + Z.of_nat (length (uvarint n))) s).
Proof.
  intros Hn Hat Hrest. unfold uvarint in *.
  rewrite (read_length_prefix _ _ n 0 _ 0 s rest (uvarint_readable n Hn)) by done.
  do 2 f_equal. cbn. lia.
Qed.

Lemma checksum_bytes payload :
  from_bytes_little (to_bytes_little CHECKSUM_BYTES (crc32c payload)) = crc32c payload.
Proof. apply from_to_bytes. apply crc32c_range. Qed.

(** A payload of the stated length is judged by its checksum, then decoded. *)
Lemma read_payload_whole s payload sum rest offset :
  0 <= stream_at s -> length sum = CHECKSUM_BYTES -> rest_of s = sum ++ payload ++ rest ->
  read_payload offset (Z.of_nat (length payload)) s =
  let s := seek (stream_at s + Z.of_nat (CHECKSUM_BYTES + length payload)) s in
  if negb (crc32c payload =? from_bytes_little sum)
  then (None, corrupt_at offset "CRC32C mismatch", s)
  else match (let* record := from_binary payload in let* _ := validate record in Ok record) with
  | Err exc => (None, corrupt_at offset ("invalid Record: " +:+ exc), s)
  | Ok record => (Some record, stop_at RunLogStopReason.END (stream_at s), s)
  end.
Proof.
  intros Hat Hsum Hrest. unfold read_payload.
  rewrite (read_exact s sum (payload ++ rest)) by (done || by rewrite Hsum).
  erewrite read_exact by (try apply (rest_after s sum); done).
  rewrite Hsum, Nat.eqb_refl, Z.eqb_refl. cbn [negb orb seek stream_at stream_bytes tell].
  unfold seek, tell. cbn [stream_at stream_bytes].
  rewrite Nat2Z.inj_add, Z.add_assoc. done.
Qed.

(** A reader at a frame reads its record and stops after it. *)
Lemma read_frame_whole r frame s rest offset :
  frame_of r frame -> 0 <= stream_at s -> rest_of s = frame ++ rest ->
  read_frame offset s =
  (Some r, stop_at RunLogStopReason.END (stream_at s + Z.of_nat (length frame)),
   seek (stream_at s + Z.of_nat (length frame)) s).
Proof.
  intros [Hv Hlen ->] Hat Hrest. rewrite <- !app_assoc in Hrest.
  unfold read_frame. rewrite (read_uvarint _ _ _ _ (conj (Nat2Z.is_nonneg _) Hlen) Hat Hrest).
  erewrite (read_payload_whole _ (to_binary r) _ rest); cycle 1.
  { cbn. lia. } { apply to_bytes_length. } { by rewrite (rest_after s _ _ Hrest Hat). }
  cbn zeta. rewrite checksum_bytes, Z.eqb_refl, from_to_binary by done. cbn [negb rbind]. rewrite Hv. cbn [rbind].
  rewrite !length_app, to_bytes_length, !Nat2Z.inj_add, !Z.add_assoc. done.
Qed.

(** A payload of which less is left than stated is torn. *)
Lemma read_payload_short s offset length :
  0 <= stream_at s -> 0 <= length ->
  Z.of_nat (List.length (rest_of s)) < Z.of_nat CHECKSUM_BYTES + length ->
  (read_payload offset length s).1 = (None, stop_at RunLogStopReason.TORN_TAIL offset).
Proof.
  intros Hat Hlen Hshort. unfold read_payload, read. cbn zeta.
  rewrite rest_seek by lia.
  destruct (Nat.eqb _ _) eqn:E1; [|done]. apply Nat.eqb_eq in E1. rewrite E1.
  rewrite (proj2 (Z.eqb_neq _ _)); [done|].
  rewrite length_take in *. rewrite length_drop. unfold CHECKSUM_BYTES in *. lia.
Qed.

Lemma uvarint_nonempty n : uvarint n <> [].
Proof. unfold uvarint. destruct (Z.to_nat _); cbn; [done|]. by destruct (_ <=? _). Qed.

(** A reader at a frame that is cut reads nothing, and stops where the frame starts. *)
Lemma read_frame_torn r frame s tail offset :
  frame_of r frame -> 0 <= stream_at s -> frame = rest_of s ++ tail -> tail <> [] ->
  (read_frame offset s).1 =
  (None, stop_at (if bool_decide (rest_of s = []) then RunLogStopReason.END
                  else RunLogStopReason.TORN_TAIL) offset).
Proof.
  intros [Hv Hlen Hframe] Hat Hcut Htail. rewrite Hcut in Hframe. clear Hcut.
  set (n := Z.of_nat (length (to_binary r))) in *.
  assert (Hn : 0 <= n <= RUN_LOG_MAX_RECORD_BYTES) by lia.
  unfold read_frame.
  destruct (app_eq_inv _ _ _ _ Hframe) as [(k & Hk & Hsum)|(k & Hk & _)];
    [|destruct (decide (k = [])) as [->|Hk']].
  1,2: assert (exists k, rest_of s = uvarint n ++ k /\ (length k < 4 + length (to_binary r))%nat)
    as (k' & Hrest & Hshort).
  - exists k. split; [done|]. apply (f_equal length) in Hsum.
    rewrite !length_app, to_bytes_length in Hsum. destruct tail; [done|].
    unfold CHECKSUM_BYTES in Hsum. cbn in Hsum. lia.
  - rewrite (read_uvarint n s k') by done. rewrite bool_decide_eq_false_2;
      [|rewrite Hrest; intros [? _]%app_eq_nil; by eapply uvarint_nonempty].
    apply read_payload_short; [cbn; lia|lia|]. rewrite (rest_after s _ _ Hrest Hat).
    unfold CHECKSUM_BYTES. lia.
  - exists []. rewrite app_nil_r in *. split; [done|]. cbn. lia.
  - rewrite (read_uvarint n s k') by done. rewrite bool_decide_eq_false_2;
      [|rewrite Hrest; intros [? _]%app_eq_nil; by eapply uvarint_nonempty].
    apply read_payload_short; [cbn; lia|lia|]. rewrite (rest_after s _ _ Hrest Hat).
    unfold CHECKSUM_BYTES. lia.
  - unfold uvarint in Hk.
    pose proof (read_length_torn offset _ _ _ _ _ s k (uvarint_readable n Hn) Hat Hk Hk') as E.
    rewrite andb_true_r in E.
    destruct (read_length _ _ _ _) as [[len|stop] s']; cbn in *; by simplify_eq.
Qed.

(** A frame whose payload no longer has its checksum is corrupt. *)
Lemma read_frame_damaged payload sum s rest offset :
  Z.of_nat (length payload) <= RUN_LOG_MAX_RECORD_BYTES -> 0 <= stream_at s ->
  length sum = CHECKSUM_BYTES -> from_bytes_little sum <> crc32c payload ->
  rest_of s = uvarint (Z.of_nat (length payload)) ++ sum ++ payload ++ rest ->
  (read_frame offset s).1 = (None, corrupt_at offset "CRC32C mismatch").
Proof.
  intros Hlen Hat Hsum Hcrc Hrest. unfold read_frame.
  rewrite (read_uvarint _ _ _ _ (conj (Nat2Z.is_nonneg _) Hlen) Hat Hrest).
  erewrite (read_payload_whole _ payload sum rest); [|cbn; lia|done|by apply rest_after].
  cbn zeta. by rewrite (proj2 (Z.eqb_neq _ _)).
Qed.

(** ** What a record read from a frame was *)

Lemma read_length_takes indices acc offset s n s' :
  read_length indices acc offset s = (inl n, s') -> 0 <= stream_at s ->
  n <= RUN_LOG_MAX_RECORD_BYTES /\
  exists header, header <> [] /\ rest_of s = header ++ rest_of s' /\
    s' = seek (stream_at s + Z.of_nat (length header)) s.
Proof.
  revert acc s. induction indices as [|i indices IH]; intros acc s Hr Hat; [done|].
  cbn [read_length] in Hr. destruct (rest_of s) as [|b rest] eqn:Hrest.
  { rewrite read_short in Hr by (rewrite Hrest; cbn; lia). by rewrite Hrest in Hr. }
  rewrite (read_exact s [b] rest) in Hr by done. cbn zeta in Hr.
  change (Z.of_nat (length [b])) with 1 in Hr.
  assert (Hs1 : rest_of (seek (stream_at s + 1) s) = rest) by exact (rest_after s [b] rest Hrest Hat).
  destruct (_ <? _) eqn:E; [done|]. destruct (_ =? 0).
  - injection Hr as <- <-. split; [lia|]. exists [b]. change (Z.of_nat (length [b])) with 1. by rewrite Hs1.
  - destruct (IH _ _ Hr) as (? & header & _ & Hh & ->); [cbn; lia|].
    split; [done|]. exists (b :: header). split; [done|]. split.
    + rewrite Hs1 in Hh. by rewrite Hh.
    + unfold seek. cbn [stream_at stream_bytes]. f_equal. cbn [length]. lia.
Qed.

(** A reader never makes up a record: what it returns is the decoding of bytes of the log that
    have their checksum and validate, and it has moved past them. *)
Lemma read_frame_sound offset s r stop s' :
  read_frame offset s = (Some r, stop, s') -> 0 <= stream_at s ->
  exists header sum payload, header <> [] /\ length sum = CHECKSUM_BYTES /\
    rest_of s = header ++ sum ++ payload ++ rest_of s' /\
    from_bytes_little sum = crc32c payload /\ from_binary payload = Ok r /\ validate r = Ok tt /\
    s' = seek (stream_at s + Z.of_nat (length (header ++ sum ++ payload))) s /\
    stop = stop_at RunLogStopReason.END (stream_at s').
Proof.
  unfold read_frame. intros Hr Hat.
  destruct (read_length _ _ _ _) as [[n|?] s1] eqn:Hl; [|done].
  destruct (read_length_takes _ _ _ _ _ _ Hl Hat) as (_ & header & Hh & Hrest & ->).
  set (s1 := seek _ s) in *. assert (Hat1 : 0 <= stream_at s1) by (cbn; lia).
  unfold read_payload in Hr.
  destruct (read _ s1) as [sum s2] eqn:R2. apply read_takes in R2 as [Hrest1 Hs2]; [|done].
  destruct (read n s2) as [payload s3] eqn:R3.
  apply read_takes in R3 as [Hrest2 Hs3]; [|rewrite Hs2; cbn; lia].
  destruct (negb _ || _) eqn:E; [done|]. rewrite orb_false_iff, !negb_false_iff in E.
  destruct E as [Esum%Nat.eqb_eq _].
  destruct (negb _) eqn:E; [done|]. apply negb_false_iff, Z.eqb_eq in E.
  destruct (from_binary payload) as [r'|] eqn:Hd; cbn in Hr; [|done].
  destruct (validate r') as [[]|] eqn:Hv; cbn in Hr; [|done]. injection Hr as -> <- <-.
  exists header, sum, payload. repeat split; try done.
  - by rewrite Hrest, Hrest1, Hrest2.
  - rewrite Hs3, Hs2. unfold s1, seek. cbn [stream_at stream_bytes]. f_equal.
    rewrite !length_app. lia.
Qed.

(** ** Frames of many records *)

(** [b"".join(map(encode_frame, records))] *)
Fixpoint encode_frames (records : list LogRecord) : result string (list byte) :=
  match records with
  | [] => Ok []
  | record :: records =>
    let* frame := encode_frame record in
    let* frames := encode_frames records in
    Ok (frame ++ frames)
  end.

End Frames.
