(* ===== verification/LogFile.v ===== *)
(** * Reading and recovering a run.log file

    [libs/vs-runlog/src/vs_runlog/_file.py]: [RunLogReader], [FileRunLogWriter._recover] and
    [FileRunContent].  The reader's loop has no bound of its own; every frame takes bytes, so one
    round more than the file has bytes is enough ([read_frames_total]). *)

From S2P Require Import Prelude PyFloat Identities LogRecord Skeleton Epoch Framing.

(** ** The reader *)

(** [RunLogReader.__init__] *)
Definition open_reader (offset : Z) : result string unit :=
  require* negb (negb (offset =? 0) && (offset <? Z.of_nat (length RUN_LOG_MAGIC)))
    else "run.log offset must be zero or a record boundary after magic"%string in
  Ok tt.

(** [bytes.startswith] *)
Fixpoint starts_with (whole part : list byte) : bool :=
  match part, whole with
  | [], _ => true
  | p :: part, w :: whole => (p =? w) && starts_with whole part
  | _ :: _, [] => false
  end.

Section LogFile.
Context `{Codec} `{GateAttrs}.

(** The [while True] of [RunLogReader.__iter__] *)
Fixpoint read_frames (fuel : nat) (s : Stream) : option (list LogRecord * ReadStop) :=
  match fuel with
  | O => None
  | S fuel =>
    match read_frame (tell s) s with
    | (None, stop, _) => Some ([], stop)
    | (Some record, _, s) =>
      match read_frames fuel s with
      | Some (records, stop) => Some (record :: records, stop)
      | None => None
      end
    end
  end.

(** [RunLogReader.__iter__]: the records yielded and the stop it leaves *)
Definition iterate (file : list byte) (offset : Z) : option (list LogRecord * ReadStop) :=
  let (magic, s) := read (Z.of_nat (length RUN_LOG_MAGIC)) {| stream_bytes := file; stream_at := 0 |} in
  if negb (eqb magic RUN_LOG_MAGIC)
  then Some ([], if starts_with RUN_LOG_MAGIC magic
                 then {| stop_reason := RunLogStopReason.TORN_TAIL; stop_offset := 0;
                         stop_detail := "incomplete magic" |}
                 else corrupt_at 0 "bad magic")
  else read_frames (S (length file))
         (seek (if offset =? 0 then Z.of_nat (length RUN_LOG_MAGIC) else offset) s).

(** ** Recovery *)

(** What recovery leaves of the writer: its projections and the file it will append to *)
Record Recovered := {
  sequence : Z;
  recovered_epoch : CurrentEpoch;
  skeleton : Keyframe;
  upgrade : InputUpgrade;
  recovered_file : list byte
}.

(** One round of the loop of [_recover] *)
Definition recover_record (w : Z * CurrentEpoch * Keyframe * InputUpgrade) (record : LogRecord)
    : result string (Z * CurrentEpoch * Keyframe * InputUpgrade) :=
  let '(sequence, e, skeleton, upgrade) := w in
  require* seq record =? sequence + 1 else "non-dense run.log sequence"%string in
  let* skeleton := append_skeleton skeleton record in
  let* upgrade := observe upgrade record in
  Ok (seq record, current_epoch [record] e, skeleton, upgrade).

(** [_recover]: [head] is what reading [run.head] gives, when there is one *)
Definition recover (head : option (result string RunHead)) (file : list byte)
    : option (result string Recovered) :=
  match head with
  | Some (Err e) => Some (Err e)
  | _ =>
    let committed := match head with Some (Ok head) => committed_seq head | _ => 0 end in
    match iterate file 0 with
    | None => None
    | Some (records, stop) => Some (
      let* w := rfold recover_record (0, no_epoch, fresh_keyframe, fresh_upgrade) records in
      let '(sequence, e, skeleton, upgrade) := w in
      require* negb (sequence <? committed) else "run.log lost committed records"%string in
      require* negb (eqb (stop_reason stop) RunLogStopReason.CORRUPTION) else "corrupt run.log"%string in
      let file :=
        if eqb (stop_reason stop) RunLogStopReason.TORN_TAIL
        then if stop_offset stop =? 0 then RUN_LOG_MAGIC else take (Z.to_nat (stop_offset stop)) file
        else file in
      let offset := if stop_offset stop =? 0 then Z.of_nat (length RUN_LOG_MAGIC) else stop_offset stop in
      Ok {| sequence := sequence; recovered_epoch := e; skeleton := skeleton <| log_offset := offset |>;
            upgrade := upgrade; recovered_file := file |})
    end
  end.

End LogFile.
Arguments Recovered : clear implicits.

(** ** Immutable content *)

(** [FileRunContent.append_stream] on the bytes of one stream file, none when it does not exist
    yet; [valid_id] is the match of the id with [_STREAM_ID]. *)
Definition append_stream (valid_id : bool) (file : option (list byte)) (offset : Z) (content : list byte)
    : result string (list byte) :=
  require* valid_id && negb (offset <? 0) else "invalid stream id or offset"%string in
  let file := default [] file in
  require* negb (Z.of_nat (length file) <? offset) else "missing prefix"%string in
  let existing := take (length content) (drop (Z.to_nat offset) file) in
  require* eqb existing (take (length existing) content) else "conflicting content"%string in
  Ok (file ++ drop (length existing) content).

(** [FileRunContent.write_blob] on the blob files, [sha256] being [hashlib]'s digest in
    hexadecimal *)
Definition write_blob (sha256 : list byte -> string) (blobs : gmap string (list byte))
    (digest : string) (content : list byte) : result string (gmap string (list byte)) :=
  require* eqb (sha256 content) digest else "blob digest does not match content"%string in
  match blobs !! digest with
  | None => Ok (<[digest := content]> blobs)
  | Some existing =>
    require* eqb existing content else "blob conflicts with existing content"%string in
    Ok blobs
  end.

(** ** Reading logs *)

Definition magic_length : Z := Z.of_nat (length RUN_LOG_MAGIC).

Section Reading.
Context `{CodecLaws}.

Lemma encode_frames_app rs rs' frames :
  encode_frames (rs ++ rs') = Ok frames <->
  exists f f', encode_frames rs = Ok f /\ encode_frames rs' = Ok f' /\ frames = f ++ f'.
Proof.
  revert frames. induction rs as [|r rs IH]; intros frames; cbn.
  { split; [by eauto|]. intros (f & f' & [= <-] & ? & ->). done. }
  destruct (encode_frame r) as [fr|]; cbn; [|naive_solver].
  destruct (encode_frames (rs ++ rs')) as [g|] eqn:E; cbn.
  - destruct (proj1 (IH g) eq_refl) as (f & f' & Hf & Hf' & ->). rewrite Hf. cbn. split.
    + intros [= <-]. exists (fr ++ f), f'. by rewrite app_assoc.
    + intros (? & ? & [= <-] & Hf2 & ->). rewrite Hf' in Hf2. injection Hf2 as ->. by rewrite app_assoc.
  - split; [done|]. intros (f & f' & Hf & Hf' & ->).
    destruct (encode_frames rs) as [g|] eqn:Hg; cbn in Hf; [|done].
    assert (Err e = Ok (g ++ f')) by (apply IH; eauto). done.
Qed.

Lemma encode_frames_cons r rs frames :
  encode_frames (r :: rs) = Ok frames <->
  exists f f', frame_of r f /\ encode_frames rs = Ok f' /\ frames = f ++ f'.
Proof.
  cbn. setoid_rewrite <- encode_frame_of.
  destruct (encode_frame r) as [f|]; cbn; [|naive_solver].
  destruct (encode_frames rs) as [f'|]; cbn; naive_solver.
Qed.

Lemma frame_nonempty r frame : frame_of r frame -> frame <> [].
Proof. intros [_ _ ->] [Hu _]%app_eq_nil. by eapply uvarint_nonempty. Qed.

(** A record takes bytes of the stream. *)
Lemma read_frame_shrinks offset s r stop s' :
  read_frame offset s = (Some r, stop, s') -> 0 <= stream_at s ->
  (length (rest_of s') < length (rest_of s))%nat /\ 0 <= stream_at s' /\ stream_bytes s' = stream_bytes s.
Proof.
  intros Hr Hat. destruct (read_frame_sound _ _ _ _ _ Hr Hat)
    as (header & sum & payload & Hh & _ & Hrest & _ & _ & _ & Hs & _).
  apply (f_equal length) in Hrest. rewrite !length_app in Hrest.
  split; [|rewrite Hs; cbn; split; [lia|done]]. assert (length header <> 0%nat) by (intros ?%nil_length_inv; done). lia.
Qed.

Lemma read_frames_total fuel s :
  (length (rest_of s) < fuel)%nat -> 0 <= stream_at s -> is_Some (read_frames fuel s).
Proof.
  revert s. induction fuel as [|fuel IH]; intros s Hlen Hat; [lia|]. cbn.
  destruct (read_frame (tell s) s) as [[[r|] stop] s'] eqn:E; [|by eauto].
  destruct (read_frame_shrinks _ _ _ _ _ E Hat) as (Hlt & Hat' & _).
  destruct (IH s') as [[rs st] ->]; [lia|done|by eauto].
Qed.

Lemma seek_self s : seek (stream_at s) s = s.
Proof. by destruct s. Qed.

(** Frames that are whole are all read; what comes after them is what the reader stops at. *)
Lemma read_frames_whole rs frames fuel s rest :
  encode_frames rs = Ok frames -> 0 <= stream_at s -> rest_of s = frames ++ rest ->
  (length (rest_of s) < fuel)%nat ->
  let s' := seek (stream_at s + Z.of_nat (length frames)) s in
  (forall stop, (read_frame (tell s') s').1 = (None, stop) -> read_frames fuel s = Some (rs, stop)).
Proof.
  revert frames fuel s. induction rs as [|r rs IH]; intros frames fuel s Henc Hat Hrest Hfuel; cbn zeta.
  - injection Henc as <-. intros stop Hstop. destruct fuel as [|fuel]; [lia|]. cbn [read_frames].
    change (Z.of_nat (length [])) with 0 in Hstop. rewrite Z.add_0_r, seek_self in Hstop. destruct (read_frame (tell s) s) as [[r st] s']. cbn in Hstop. by simplify_eq.
  - intros stop Hstop. apply encode_frames_cons in Henc as (f & f' & Hf & Hf' & ->).
    destruct fuel as [|fuel]; [lia|]. cbn [read_frames]. rewrite <- app_assoc in Hrest.
    rewrite (read_frame_whole _ _ _ _ _ Hf Hat Hrest).
    pose proof (rest_after _ _ _ Hrest Hat) as Hrest'.
    pose proof (frame_nonempty _ _ Hf).
    rewrite (IH f' fuel (seek (stream_at s + Z.of_nat (length f)) s) Hf' ltac:(cbn; lia) Hrest') with (stop := stop).
    + done.
    + rewrite Hrest'. rewrite Hrest, length_app in Hfuel.
      assert (length f <> 0%nat) by (intros ?%nil_length_inv; done). lia.
    + unfold seek in *. cbn [stream_at stream_bytes] in *. rewrite <- Hstop, length_app, Nat2Z.inj_add, Z.add_assoc. done.
Qed.

Lemma read_at_end s : 0 <= stream_at s -> rest_of s = [] ->
  (read_frame (tell s) s).1 = (None, stop_at RunLogStopReason.END (tell s)).
Proof.
  intros Hat Hrest. unfold read_frame.
  pose proof (read_length_end (tell s) s 0 (Z.of_nat MAX_VARINT_BYTES) 0 eq_refl Hrest) as E.
  destruct (read_length _ _ _ _) as [[|] ?]; cbn [fst] in E; [done|]. by injection E as ->.
Qed.

Lemma starts_with_prefix whole part : starts_with whole part = true <-> part `prefix_of` whole.
Proof.
  revert whole. induction part as [|p part IH]; intros whole.
  - split; [intros _; apply prefix_nil|by destruct whole].
  - destruct whole as [|w whole]; cbn [starts_with].
    + split; [done|]. intros ?%prefix_nil_inv. done.
    + rewrite andb_true_iff, IH, Z.eqb_eq. split.
      * intros [-> ?]. by apply prefix_cons.
      * intros Hp. split; [by eapply prefix_cons_inv_1|by eapply prefix_cons_inv_2].
Qed.

(** A file that starts with the magic, opened at a boundary *)
Lemma read_magic f1 rest offset :
  offset = magic_length + Z.of_nat (length f1) \/ (offset = 0 /\ f1 = []) ->
  let file := RUN_LOG_MAGIC ++ f1 ++ rest in
  let s := {| stream_bytes := file; stream_at := Z.of_nat (length (RUN_LOG_MAGIC ++ f1)) |} in
  exists s0, read (Z.of_nat (length RUN_LOG_MAGIC)) {| stream_bytes := file; stream_at := 0 |} = (RUN_LOG_MAGIC, s0) /\
    seek (if offset =? 0 then Z.of_nat (length RUN_LOG_MAGIC) else offset) s0 = s /\ rest_of s = rest.
Proof.
  intros Hoff file s. rewrite (read_exact _ RUN_LOG_MAGIC (f1 ++ rest)) by done.
  eexists. split; [done|]. split.
  - unfold seek. cbn [stream_bytes]. unfold s. f_equal. rewrite length_app, Nat2Z.inj_add. fold magic_length.
    destruct Hoff as [->|[-> ->]]; [|done]. rewrite (proj2 (Z.eqb_neq _ _)); [done|]. unfold magic_length. cbn. lia.
  - unfold rest_of, s, file. cbn [stream_at stream_bytes]. by rewrite app_assoc, Nat2Z.id, drop_app_length.
Qed.

(** A file that starts with the magic is read from a boundary: the frames there that are whole,
    and the stop of what comes after them. *)
Lemma iterate_frames f1 rs f2 tail offset stop :
  encode_frames rs = Ok f2 ->
  offset = magic_length + Z.of_nat (length f1) \/ (offset = 0 /\ f1 = []) ->
  (forall s, 0 <= stream_at s -> rest_of s = tail ->
    tell s = magic_length + Z.of_nat (length f1) + Z.of_nat (length f2) ->
    (read_frame (tell s) s).1 = (None, stop)) ->
  iterate (RUN_LOG_MAGIC ++ f1 ++ f2 ++ tail) offset = Some (rs, stop).
Proof.
  intros Henc Hoff Hstop. unfold iterate. destruct (read_magic f1 (f2 ++ tail) offset Hoff) as (s0 & -> & -> & Hrest).
  rewrite eqb_refl. cbn [negb]. set (file := RUN_LOG_MAGIC ++ f1 ++ f2 ++ tail) in *.
  eapply (read_frames_whole rs f2 _ _ tail); [done|cbn; lia|done| |].
  - unfold rest_of. cbn [stream_bytes]. rewrite length_drop. lia.
  - unfold seek. cbn [stream_bytes stream_at]. apply Hstop; [cbn; lia| |].
    + rewrite <- Nat2Z.inj_add, <- length_app. unfold rest_of. cbn [stream_at stream_bytes]. unfold file.
      by rewrite Nat2Z.id, !app_assoc, <- (app_assoc RUN_LOG_MAGIC), drop_app_length.
    + cbn [tell stream_at]. rewrite length_app. unfold magic_length. lia.
Qed.

(** A reader at a boundary of whole frames yields the records after it. *)
Lemma iterate_suffix rs1 rs2 f1 f2 :
  encode_frames rs1 = Ok f1 -> encode_frames rs2 = Ok f2 ->
  let file := RUN_LOG_MAGIC ++ f1 ++ f2 in
  iterate file (magic_length + Z.of_nat (length f1)) =
  Some (rs2, stop_at RunLogStopReason.END (Z.of_nat (length file))).
Proof.
  intros H1 H2. cbn zeta. rewrite <- (app_nil_r f2). apply iterate_frames; [done|by left|].
  intros s Hat Hrest Htell. rewrite read_at_end by done. rewrite Htell, app_nil_r.
  do 2 f_equal. rewrite !length_app. unfold magic_length. lia.
Qed.

Lemma iterate_whole rs f : encode_frames rs = Ok f ->
  iterate (RUN_LOG_MAGIC ++ f) 0 = Some (rs, stop_at RunLogStopReason.END (Z.of_nat (length (RUN_LOG_MAGIC ++ f)))).
Proof.
  intros Hf. rewrite <- (app_nil_r f) at 1. apply (iterate_frames []); [done|by right|].
  intros s Hat Hrest Htell. rewrite read_at_end by done. rewrite Htell.
  do 2 f_equal. rewrite (length_app RUN_LOG_MAGIC). unfold magic_length. cbn [length]. lia.
Qed.

(** C36: a log reads back: from its start, every record; from the boundary after any record, the
    records after it, with nothing left over. *)
Theorem log_reads_back rs1 rs2 f1 f2 :
  encode_frames rs1 = Ok f1 -> encode_frames rs2 = Ok f2 ->
  let file := RUN_LOG_MAGIC ++ f1 ++ f2 in
  let boundary := magic_length + Z.of_nat (length f1) in
  let stop := stop_at RunLogStopReason.END (Z.of_nat (length file)) in
  iterate file 0 = Some (rs1 ++ rs2, stop) /\
  open_reader boundary = Ok tt /\ iterate file boundary = Some (rs2, stop).
Proof.
  intros H1 H2. cbn zeta.
  assert (H12 : encode_frames (rs1 ++ rs2) = Ok (f1 ++ f2)) by (apply encode_frames_app; eauto).
  split; [by apply iterate_whole|]. split; [|exact (iterate_suffix _ _ _ _ H1 H2)].
  unfold open_reader. fold magic_length. rewrite (proj2 (Z.ltb_ge _ _)) by lia. by rewrite andb_false_r.
Qed.

(** A frame whose payload does not have its checksum stops the reader there, as corruption,
    after every record before it. *)
Theorem damage_is_found rs frames payload sum rest :
  encode_frames rs = Ok frames ->
  Z.of_nat (length payload) <= RUN_LOG_MAX_RECORD_BYTES -> length sum = CHECKSUM_BYTES ->
  from_bytes_little sum <> crc32c payload ->
  iterate (RUN_LOG_MAGIC ++ frames ++ uvarint (Z.of_nat (length payload)) ++ sum ++ payload ++ rest) 0 =
  Some (rs, corrupt_at (magic_length + Z.of_nat (length frames)) "CRC32C mismatch").
Proof.
  intros Henc Hlen Hsum Hcrc. apply (iterate_frames []); [done|by right|].
  intros s Hat Hrest Htell. rewrite (read_frame_damaged payload sum _ rest) by done.
  rewrite Htell. by cbn [length]; rewrite Z.add_0_r.
Qed.

(** ** Logs that are cut *)

(** A file that is the first bytes of the log of [rs]: [k] records are whole, and a reader is to
    stop as [stop] says. *)
Inductive log_cut (rs : list LogRecord) : list byte -> nat -> ReadStop -> Prop :=
  | cut_magic part tail :
    RUN_LOG_MAGIC = part ++ tail -> tail <> [] ->
    log_cut rs part 0 {| stop_reason := RunLogStopReason.TORN_TAIL; stop_offset := 0;
                         stop_detail := "incomplete magic" |}
  | cut_between k frames :
    (k <= length rs)%nat -> encode_frames (take k rs) = Ok frames ->
    log_cut rs (RUN_LOG_MAGIC ++ frames) k
      (stop_at RunLogStopReason.END (magic_length + Z.of_nat (length frames)))
  | cut_within k frames r frame part tail :
    encode_frames (take k rs) = Ok frames -> rs !! k = Some r -> frame_of r frame ->
    frame = part ++ tail -> part <> [] -> tail <> [] ->
    log_cut rs (RUN_LOG_MAGIC ++ frames ++ part) k
      (stop_at RunLogStopReason.TORN_TAIL (magic_length + Z.of_nat (length frames))).

Lemma log_cut_reads rs file k stop : log_cut rs file k stop -> iterate file 0 = Some (take k rs, stop).
Proof.
  destruct 1 as [part tail Hm Htail|k frames Hle Henc|k frames r frame part tail Henc Hr Hf Hcut Hpart Htail].
  - assert (length part < length RUN_LOG_MAGIC)%nat as Hlen.
    { rewrite Hm, length_app. assert (length tail <> 0%nat) by (intros ?%nil_length_inv; done). lia. }
    assert (rest_of {| stream_bytes := part; stream_at := 0 |} = part) as E by done.
    unfold iterate. rewrite read_short; rewrite E; [|lia].
    unfold eqb. rewrite bool_decide_eq_false_2 by (intros ->; lia). cbn [negb].
    rewrite (proj2 (starts_with_prefix _ _)); [done|by exists tail].
  - rewrite <- (app_nil_r frames) at 1. apply (iterate_frames []); [done|by right|].
    intros s Hat Hrest Htell. rewrite read_at_end by done. rewrite Htell. by cbn [length]; rewrite Z.add_0_r.
  - apply (iterate_frames []); [done|by right|]. intros s Hat Hrest Htell.
    rewrite (read_frame_torn r frame s tail _ Hf Hat) by (by rewrite ?Hrest).
    rewrite Hrest, bool_decide_eq_false_2 by done. rewrite Htell. by cbn [length]; rewrite Z.add_0_r.
Qed.

Lemma log_cut_cons r f rs file k stop :
  frame_of r f -> log_cut rs (RUN_LOG_MAGIC ++ file) k stop ->
  exists k stop, log_cut (r :: rs) (RUN_LOG_MAGIC ++ f ++ file) k stop.
Proof.
  intros Hf Hcut. remember (RUN_LOG_MAGIC ++ file) as whole eqn:Hp.
  destruct Hcut as [part tail Hm Htail|k' frames Hle Henc|k' frames r' frame part tail Henc Hr Hf' Hc Hpart Htail].
  - exfalso. subst part. apply (f_equal length) in Hm. rewrite !length_app in Hm.
    assert (length tail <> 0%nat) by (intros ?%nil_length_inv; done). lia.
  - apply app_inv_head in Hp as <-. eexists (S k'), _. apply (cut_between _ (S k')); [cbn; lia|].
    apply encode_frames_cons. eauto.
  - apply app_inv_head in Hp as <-. eexists (S k'), _. rewrite (app_assoc f).
    eapply (cut_within _ (S k')); [|done..]. apply encode_frames_cons. eauto.
Qed.

Lemma cut_frames rs frames file :
  encode_frames rs = Ok frames -> file `prefix_of` frames ->
  exists k stop, log_cut rs (RUN_LOG_MAGIC ++ file) k stop.
Proof.
  revert frames file. induction rs as [|r rs IH]; intros frames file Henc Hpre.
  - injection Henc as <-. apply prefix_nil_inv in Hpre as ->.
    eexists 0%nat, _. apply cut_between; [lia|done].
  - apply encode_frames_cons in Henc as (f & f' & Hf & Hf' & ->).
    destruct Hpre as [tail Htail]. apply app_eq_inv in Htail as [(g & Hg & _)|(g & -> & Hg)].
    + destruct (decide (g = [])) as [->|Hg'].
      * rewrite app_nil_r in Hg. subst file. rewrite <- (app_nil_r f).
        eapply log_cut_cons; [done|]. apply (cut_between _ 0 []); [lia|done].
      * destruct (decide (file = [])) as [->|Hfile].
        { eexists 0%nat, _. apply cut_between; [lia|done]. }
        eexists 0%nat, _. by eapply (cut_within _ 0 []).
    + (* the frame is whole *)
      destruct (IH f' g Hf' (ex_intro _ tail Hg)) as (k & stop & Hcut).
      eapply log_cut_cons; done.
Qed.

(** Every truncation of a log is a log that is cut. *)
Lemma truncation_cut rs frames file :
  encode_frames rs = Ok frames -> file `prefix_of` RUN_LOG_MAGIC ++ frames ->
  exists k stop, log_cut rs file k stop.
Proof.
  intros Henc [tail Htail]. apply app_eq_inv in Htail as [(g & Hg & _)|(g & -> & Hg)].
  - destruct (decide (g = [])) as [->|Hg'].
    + rewrite app_nil_r in Hg. subst file. rewrite <- (app_nil_r RUN_LOG_MAGIC).
      eapply cut_frames; [done|]. apply prefix_nil.
    + eexists 0%nat, _. by eapply cut_magic.
  - eapply cut_frames; [done|]. by exists tail.
Qed.

Lemma encode_take_longer rs k j fk fj :
  (k < j <= length rs)%nat -> encode_frames (take k rs) = Ok fk -> encode_frames (take j rs) = Ok fj ->
  exists r f rest, rs !! k = Some r /\ frame_of r f /\ fj = fk ++ f ++ rest.
Proof.
  intros Hkj Hk Hj. destruct (lookup_lt_is_Some_2 rs k) as [r Hr]; [lia|].
  assert (take j rs = take k rs ++ r :: take (j - S k) (drop (S k) rs)) as E.
  { rewrite <- (take_drop_middle rs k r Hr) at 1. rewrite take_app, length_take_le by lia.
    rewrite take_ge by (rewrite length_take; lia). f_equal.
    by replace (j - k)%nat with (S (j - S k)) by lia. }
  rewrite E in Hj. apply encode_frames_app in Hj as (f1 & f2 & Hf1 & Hf2 & ->).
  rewrite Hk in Hf1. injection Hf1 as <-.
  apply encode_frames_cons in Hf2 as (f & rest & Hf & _ & ->). by eauto 6.
Qed.

(** A cut keeps every record whose frame it keeps. *)
Lemma log_cut_covers rs file k stop j fj :
  log_cut rs file k stop -> encode_frames (take j rs) = Ok fj -> (j <= length rs)%nat ->
  RUN_LOG_MAGIC ++ fj `prefix_of` file -> (j <= k)%nat.
Proof.
  intros Hcut Hj Hlen Hpre%prefix_length. destruct (Nat.le_gt_cases j k) as [|Hlt]; [done|exfalso].
  rewrite length_app in Hpre.
  destruct Hcut as [part tail Hm Htail|k frames Hle Henc|k frames r frame part tail Henc Hr Hf Hc Hpart Htail].
  - apply (f_equal length) in Hm. rewrite length_app in Hm.
    assert (length tail <> 0%nat) by (intros ?%nil_length_inv; done). lia.
  - destruct (encode_take_longer rs k j frames fj) as (r & f & rest & Hr & Hf & ->); [lia|done|done|].
    apply frame_nonempty in Hf. rewrite !length_app in Hpre.
    assert (length f <> 0%nat) by (intros ?%nil_length_inv; done). lia.
  - destruct (encode_take_longer rs k j frames fj) as (r' & f & rest & Hr' & Hf' & ->); [lia|done|done|].
    rewrite Hr in Hr'. injection Hr' as <-. destruct Hf as [_ _ Hf], Hf' as [_ _ ->]. rewrite <- Hf in Hpre.
    rewrite Hc, !length_app in Hpre. 
    assert (length tail <> 0%nat) by (intros ?%nil_length_inv; done). lia.
Qed.

Lemma log_cut_le rs file k stop : log_cut rs file k stop -> (k <= length rs)%nat.
Proof. destruct 1 as [| |? ? ? ? ? ? ? Hr%lookup_lt_Some]; lia. Qed.

(** A log that was cut anywhere, by a crash or by a writer that had not finished, reads as the
    records whose frames are whole; the reader then stops at the first byte it did not read, as
    the end of the log when nothing is left there and as a torn tail otherwise. *)
Theorem cut_log_reads_prefix rs frames file :
  encode_frames rs = Ok frames -> file `prefix_of` RUN_LOG_MAGIC ++ frames ->
  exists k stop, iterate file 0 = Some (take k rs, stop) /\ log_cut rs file k stop /\
    stop_reason stop <> RunLogStopReason.CORRUPTION /\
    forall j fj, (j <= length rs)%nat -> encode_frames (take j rs) = Ok fj ->
      RUN_LOG_MAGIC ++ fj `prefix_of` file -> (j <= k)%nat.
Proof.
  intros Henc Hpre. destruct (truncation_cut _ _ _ Henc Hpre) as (k & stop & Hcut).
  exists k, stop. split; [by apply log_cut_reads|]. split; [done|]. split.
  - by destruct Hcut.
  - intros j fj Hj Hfj Hp. by eapply log_cut_covers.
Qed.

End Reading.

(** ** Recovery *)

Section Recovery.
Context `{CodecLaws} `{GateAttrs}.

(** The writer before any record *)
Definition no_records : Z * CurrentEpoch * Keyframe * InputUpgrade :=
  (0, no_epoch, fresh_keyframe, fresh_upgrade).

Lemma recover_record_Ok w r w' :
  recover_record w r = Ok w' -> seq r = w.1.1.1 + 1 /\ w'.1.1.1 = seq r.
Proof.
  destruct w as [[[n e] s] u]. cbn. destruct (_ =? _) eqn:E; cbn; [|done].
  destruct (append_skeleton s r); cbn; [|done]. destruct (observe u r); cbn; [|done].
  intros [= <-]. split; [lia|done].
Qed.

Lemma recover_counts rs w w' : rfold recover_record w rs = Ok w' ->
  w'.1.1.1 = w.1.1.1 + Z.of_nat (length rs).
Proof.
  revert w. induction rs as [|r rs IH]; intros w; cbn [rfold length]; [intros [= ->]; lia|].
  destruct (recover_record w r) as [w1|] eqn:E; cbn; [|done]. intros Hr%IH.
  apply recover_record_Ok in E. lia.
Qed.

Lemma recover_take rs k w w' : rfold recover_record w rs = Ok w' ->
  exists wk, rfold recover_record w (take k rs) = Ok wk.
Proof.
  rewrite <- (take_drop k rs) at 1. rewrite rfold_app.
  destruct (rfold recover_record w (take k rs)); cbn; [by eauto|done].
Qed.

Definition committed_of (head : option RunHead) : Z :=
  match head with Some head => committed_seq head | None => 0 end.

(** What recovery leaves of the records [rs] *)
Definition recovered_from (rs : list LogRecord) (r : Recovered) : Prop :=
  exists frames sk, encode_frames rs = Ok frames /\ recovered_file r = RUN_LOG_MAGIC ++ frames /\
    sequence r = Z.of_nat (length rs) /\
    rfold recover_record no_records rs = Ok (sequence r, recovered_epoch r, sk, upgrade r) /\
    skeleton r = sk <| log_offset := Z.of_nat (length (recovered_file r)) |>.

Lemma recover_log_cut rs file k stop w head :
  log_cut rs file k stop -> rfold recover_record no_records rs = Ok w -> (k <= length rs)%nat ->
  if Z.of_nat k <? committed_of head
  then recover (option_map Ok head) file = Some (Err "run.log lost committed records"%string)
  else exists r, recover (option_map Ok head) file = Some (Ok r) /\ recovered_from (take k rs) r.
Proof.
  intros Hcut Hw Hk. destruct (recover_take _ k _ _ Hw) as [[[[n e] sk] u] Hwk].
  pose proof (recover_counts _ _ _ Hwk) as Hn. cbn [fst no_records] in Hn.
  rewrite length_take_le, Z.add_0_l in Hn by done.
  assert (E : recover (option_map Ok head) file =
    match iterate file 0 with
    | None => None
    | Some (records, stop) => Some (
      let* w := rfold recover_record no_records records in
      let '(sequence, e, skeleton, upgrade) := w in
      require* negb (sequence <? committed_of head) else "run.log lost committed records"%string in
      require* negb (eqb (stop_reason stop) RunLogStopReason.CORRUPTION) else "corrupt run.log"%string in
      let file :=
        if eqb (stop_reason stop) RunLogStopReason.TORN_TAIL
        then if stop_offset stop =? 0 then RUN_LOG_MAGIC else take (Z.to_nat (stop_offset stop)) file
        else file in
      let offset := if stop_offset stop =? 0 then magic_length else stop_offset stop in
      Ok {| sequence := sequence; recovered_epoch := e; skeleton := skeleton <| log_offset := offset |>;
            upgrade := upgrade; recovered_file := file |})
    end) by (by destruct head).
  subst n. rewrite E, (log_cut_reads _ _ _ _ Hcut), Hwk. cbn [rbind].
  destruct (Z.of_nat k <? committed_of head) eqn:Hc; cbn [negb ensure rbind]; [done|].
  assert (forall frames : list byte, (magic_length + Z.of_nat (length frames) =? 0) = false) as Hnz.
  { intros. apply Z.eqb_neq. unfold magic_length. cbn. lia. }
  destruct Hcut as [part tail Hm Htail|k frames Hle Henc|k frames r frame part tail Henc Hr Hf Hcf Hpart Htail];
    cbn [stop_reason stop_offset stop_at]; rewrite ?Hnz; eexists; (split; [reflexivity|]);
    change (eqb RunLogStopReason.END RunLogStopReason.TORN_TAIL) with false;
    change (eqb RunLogStopReason.TORN_TAIL RunLogStopReason.TORN_TAIL) with true;
    unfold recovered_from; cbn [recovered_file sequence recovered_epoch upgrade skeleton];
    rewrite ?length_take_le by done.
  - exists [], sk. by split_and!.
  - exists frames, sk. rewrite length_app, Nat2Z.inj_add. by split_and!.
  - exists frames, sk.
    replace (Z.to_nat _) with (length (RUN_LOG_MAGIC ++ frames)) by (rewrite length_app; unfold magic_length; lia).
    rewrite app_assoc, take_app_length, length_app, Nat2Z.inj_add. by split_and!.
Qed.

(** A writer that opens a log cut anywhere recovers the records whose frames are whole, and
    only those: it folds them, cuts what is left of the next one, and would recover the same
    again.  A log that lost records its head committed is refused, never shortened. *)
Theorem recovery_keeps_whole_records rs frames file w head :
  encode_frames rs = Ok frames -> rfold recover_record no_records rs = Ok w ->
  file `prefix_of` RUN_LOG_MAGIC ++ frames ->
  exists k, (k <= length rs)%nat /\
    (forall j fj, (j <= length rs)%nat -> encode_frames (take j rs) = Ok fj ->
      RUN_LOG_MAGIC ++ fj `prefix_of` file -> (j <= k)%nat) /\
    if Z.of_nat k <? committed_of head
    then recover (option_map Ok head) file = Some (Err "run.log lost committed records"%string)
    else exists r, recover (option_map Ok head) file = Some (Ok r) /\ recovered_from (take k rs) r /\
      recover (option_map Ok head) (recovered_file r) = Some (Ok r).
Proof.
  intros Henc Hw Hpre. destruct (truncation_cut _ _ _ Henc Hpre) as (k & stop & Hcut).
  assert (Hk : (k <= length rs)%nat) by (by eapply log_cut_le).
  exists k. split; [done|]. split; [intros; by eapply log_cut_covers|].
  pose proof (recover_log_cut _ _ _ _ _ head Hcut Hw Hk) as Hrec.
  destruct (_ <? _) eqn:Hc; [done|]. destruct Hrec as (r & Hr & Hfrom).
  exists r. split; [done|]. split; [done|].
  destruct Hfrom as (fk & sk & Hfk & Hfile & Hseq & Hfold & Hsk).
  assert (Hcut' : log_cut rs (recovered_file r) k (stop_at RunLogStopReason.END (magic_length + Z.of_nat (length fk)))).
  { rewrite Hfile. apply cut_between; [done|done]. }
  pose proof (recover_log_cut _ _ _ _ _ head Hcut' Hw Hk) as Hrec. rewrite Hc in Hrec.
  destruct Hrec as (r' & Hr' & (fk' & sk' & Hfk' & Hfile' & Hseq' & Hfold' & Hsk')).
  rewrite Hr'. do 2 f_equal. rewrite Hfk in Hfk'. injection Hfk' as <-.
  rewrite Hfold in Hfold'. injection Hfold' as E1 E2 E3 E4. subst sk'.
  destruct r, r'; cbn in *. by simplify_eq.
Qed.

End Recovery.

(** *** A log of two sample records *)

Definition sample_frames (ns : list Z) : list byte :=
  match @encode_frames sample_codec (map sample_entry ns) with Ok frames => frames | Err _ => [] end.

Lemma log_reads_back_witness :
  @encode_frames sample_codec [sample_entry 1] = Ok (sample_frames [1]) /\
  @iterate sample_codec (RUN_LOG_MAGIC ++ sample_frames [1] ++ sample_frames [2])
    (magic_length + Z.of_nat (length (sample_frames [1]))) =
  Some ([sample_entry 2], stop_at RunLogStopReason.END 32).
Proof.
  split; [vm_compute; reflexivity|].
  apply (@log_reads_back sample_codec sample_laws [sample_entry 1] [sample_entry 2]); vm_compute; reflexivity.
Defined.

Lemma damage_is_found_witness :
  exists stop, @iterate sample_codec
    (RUN_LOG_MAGIC ++ sample_frames [1] ++ uvarint 3 ++ [7; 0; 0; 0] ++ [1; 2; 3] ++ [9]) 0 =
  Some ([sample_entry 1], stop) /\ stop_reason stop = RunLogStopReason.CORRUPTION.
Proof.
  eexists. split; [|shelve].
  apply (@damage_is_found sample_codec sample_laws [sample_entry 1] (sample_frames [1]) [1; 2; 3] [7; 0; 0; 0] [9]);
    vm_compute; done.
  Unshelve. done.
Defined.

Lemma cut_log_reads_prefix_witness :
  exists k stop, @iterate sample_codec (RUN_LOG_MAGIC ++ sample_frames [1] ++ [7; 14]) 0 =
    Some (take k (map sample_entry [1; 2]), stop) /\ (1 <= k)%nat.
Proof.
  destruct (@cut_log_reads_prefix sample_codec sample_laws (map sample_entry [1; 2]) (sample_frames [1; 2])
    (RUN_LOG_MAGIC ++ sample_frames [1] ++ [7; 14])) as (k & stop & Hread & _ & _ & Hcovers).
  - vm_compute; reflexivity.
  - eexists. vm_compute. reflexivity.
  - exists k, stop. split; [exact Hread|].
    apply (Hcovers 1%nat (sample_frames [1])); [cbn; lia|vm_compute; reflexivity|].
    exists [7; 14]. by rewrite <- app_assoc.
Defined.

(** A log of two records, cut in its second frame, whose head committed one record: the first is
    kept.  Had the head committed both, the log would be refused. *)
Definition sample_gate : GateAttrs := fun _ => Ok 1.
Definition sample_head (n : Z) : RunHead := 
  {| head_lifecycle := None; head_strategy := "sample"; head_objective := None; span_counts := ∅; head_usage := None;
     chart_points := []; needs_user := false; head_committed_seq := Some n; head_process := None;
     awaiting_lifecycle := true; head_epoch := 1; performance := []; performance_stated := true |}.

Lemma recovery_keeps_whole_records_witness :
  exists k r, (1 <= k)%nat /\
    @recover sample_codec sample_gate (Some (Ok (sample_head 1)))
      (RUN_LOG_MAGIC ++ sample_frames [1] ++ [7; 14]) = Some (Ok r) /\
    @recovered_from sample_codec sample_gate (take k (map sample_entry [1; 2])) r.
Proof.
  destruct (@recovery_keeps_whole_records sample_codec sample_laws sample_gate
    (map sample_entry [1; 2]) (sample_frames [1; 2]) (RUN_LOG_MAGIC ++ sample_frames [1] ++ [7; 14])
    (2, no_epoch, match rfold append_skeleton fresh_keyframe (map sample_entry [1; 2]) with Ok s => s | Err _ => fresh_keyframe end,
     fresh_upgrade) (Some (sample_head 1)))
    as (k & Hk & Hcovers & Hrec).
  - vm_compute; reflexivity.
  - vm_compute; reflexivity.
  - eexists. vm_compute. reflexivity.
  - assert (1 <= k)%nat as Hk1.
    { apply (Hcovers 1%nat (sample_frames [1])); [cbn; lia|vm_compute; reflexivity|].
      exists [7; 14]. by rewrite <- app_assoc. }
    rewrite (proj2 (Z.ltb_ge _ _)) in Hrec by (cbn; lia).
    destruct Hrec as (r & Hr & Hfrom & _). by exists k, r.
Defined.

(** ** Stream content *)

(** What the append finds at its offset: a part of the content that ends with the file, or all of
    it. *)
Lemma append_stream_Ok valid_id file offset content file' :
  append_stream valid_id file offset content = Ok file' <->
  (valid_id = true /\ 0 <= offset /\ offset <= Z.of_nat (length (default [] file)) /\
   exists existing over missing, content = existing ++ missing /\
     drop (Z.to_nat offset) (default [] file) = existing ++ over /\
     (over = [] \/ missing = []) /\ file' = default [] file ++ missing).
Proof.
  unfold append_stream. set (f := default [] file). set (at_ := drop (Z.to_nat offset) f).
  set (n := length content). split.
  - intros Happ. destruct (valid_id && _) eqn:Hid; cbn [ensure rbind] in *; [|done]. to_prop.
    destruct (negb (_ <? offset)) eqn:Hoff; cbn [ensure rbind] in Happ; [|done]. to_prop.
    destruct (eqb _ _) eqn:Hsame; cbn [ensure rbind] in Happ; [|done]. injection Happ as <-.
    apply eqb_eq in Hsame. do 3 (split; [done || lia|]).
    exists (take n at_), (drop n at_), (drop (length (take n at_)) content).
    split; [rewrite Hsame at 1; by rewrite take_drop|]. split; [by rewrite take_drop|]. split; [|done].
    rewrite length_take. destruct (Nat.le_ge_cases (length at_) n).
    + left. by apply drop_ge.
    + right. apply drop_ge. lia.
  - intros (-> & Hoff & Hlen & existing & over & missing & Hc & Hat & Hor & ->).
    rewrite (proj2 (Z.ltb_ge offset 0)), (proj2 (Z.ltb_ge _ offset)) by lia. cbn [negb andb ensure rbind].
    assert (take n at_ = existing) as ->.
    { unfold n. rewrite Hat, Hc. destruct Hor as [->| ->]; rewrite ?app_nil_r.
      - apply take_ge. rewrite length_app. lia.
      - apply take_app_length. }
    rewrite Hc, take_app_length, drop_app_length, eqb_refl. done.
Qed.

(** Appending to a stream at an offset puts the content there and nothing else; appending it
    again changes nothing, and so does appending it after a crash that kept only part of it. *)
Theorem append_stream_replays valid_id file offset content file' :
  append_stream valid_id file offset content = Ok file' ->
  default [] file `prefix_of` file' /\
  take (length content) (drop (Z.to_nat offset) file') = content /\
  forall torn, default [] file `prefix_of` torn -> torn `prefix_of` file' ->
    append_stream valid_id (Some torn) offset content = Ok file'.
Proof.
  intros (-> & Hoff & Hlen & existing & over & missing & Hc & Hat & Hor & ->)%append_stream_Ok.
  set (f := default [] file) in *.
  assert (Hdrop : forall d, drop (Z.to_nat offset) (f ++ d) = drop (Z.to_nat offset) f ++ d)
    by (intros; apply drop_app_le; lia).
  split; [by eexists|]. split.
  - rewrite Hdrop, Hat, Hc. destruct Hor as [->| ->]; rewrite ?app_nil_r; [by rewrite take_ge|].
    apply take_app_length.
  - intros torn [d1 ->] [d2 Hd]. rewrite <- app_assoc in Hd. apply app_inv_head in Hd as ->.
    apply append_stream_Ok. change (default [] (Some (f ++ d1))) with (f ++ d1).
    rewrite length_app. do 3 (split; [done || lia|]).
    destruct Hor as [->| Hnil].
    + exists (existing ++ d1), [], d2. rewrite Hdrop, Hat, app_nil_r, !app_nil_r, <- !app_assoc. by auto.
    + apply app_eq_nil in Hnil as [-> ->]. exists existing, over, [].
      rewrite Hdrop, Hat, !app_nil_r. rewrite app_nil_r in Hc. by auto 6.
Qed.

Lemma append_stream_replays_witness :
  append_stream true (Some [1; 2; 3]) 2 [3; 4; 5] = Ok [1; 2; 3; 4; 5] /\
  append_stream true (Some [1; 2; 3; 4]) 2 [3; 4; 5] = Ok [1; 2; 3; 4; 5].
Proof.
  split; [vm_compute; reflexivity|].
  apply (append_stream_replays true (Some [1; 2; 3]) 2 [3; 4; 5]);
    [vm_compute; reflexivity|by exists [4]|by exists [5]].
Defined.
