(* ===== verification/Head.v ===== *)
(** * The head of a run

    [libs/vs-runlog/src/vs_runlog/_head.py]: what a dashboard shows of a run, computed by its writer
    from the skeleton: where the run is, what it spent, and per objective which idea's measurement
    stands.  A [ValueError], and the [IndexError] of an empty history, is an [Err].  The payloads
    of labels are decoded by protobuf ([HeadAttrs], [GateAttrs]); the order in which a [dict] of
    spans iterates is a parameter ([SpanItems]). *)

From Stdlib Require Import Ascii.
From S2P Require Import Prelude PySorted PyFloat Identities LogRecord Skeleton Epoch.

(** ** Payloads of labels *)

Record WorkstreamAttrs := { probe : bool; hypothesis_id : string }.

(** [AgentTurnAttrs.from_binary(value).usage], [WorkstreamAttrs.from_binary],
    [ComparisonAttrs.from_binary(value).verdict] *)
Class HeadAttrs := {
  turn_usage : list byte -> result string (option TokenUsage);
  workstream_attrs : list byte -> result string WorkstreamAttrs;
  comparison_verdict : list byte -> result string Z
}.

(** [state.spans.items()], in the order of the dict *)
Class SpanItems := span_items : gmap string (list SpanVersion) -> list (string * list SpanVersion).
Class SpanItemsLaw `(SpanItems) : Prop := span_items_perm m : span_items m ≡ₚ map_to_list m.

Module SpanStatus.
Definition RUNNING : Z := 1.
Definition WAITING : Z := 2.
Definition PENDING : Z := 3.
End SpanStatus.

Module ComparisonVerdict.
Definition WITHIN_NOISE : Z := 2.
Definition WORSE : Z := 3.
End ComparisonVerdict.

Module Direction.
Definition MAX : Z := 1.
Definition MIN : Z := 2.
End Direction.

(** ** Lifecycle and spending *)

(** [outcome_presentation], the options of the enum [Outcome] *)
Definition outcome_presentation (outcome : Z) : result string RunOutcomePresentation :=
  let shown status word := Ok {| presentation_status := status; presentation_word := word |} in
  if outcome =? 1 then shown "completed" "Finished"
  else if outcome =? 2 then shown "failed" "Failed"
  else if outcome =? 3 then shown "stopped" "Stopped"
  else if outcome =? 4 then shown "stopped" "Stopped"
  else Err "ended.outcome: unknown outcome"%string.

(** [project_lifecycle] *)
Definition project_lifecycle (lifecycle : option Lifecycle) : result string (option Lifecycle) :=
  match lifecycle with
  | None => Ok None
  | Some lifecycle =>
    match lifecycle_state lifecycle with
    | Some (LifecycleState.ended ended) =>
      let* presentation := outcome_presentation (ended_outcome ended) in
      Ok (Some {| lifecycle_state := Some (LifecycleState.ended {| ended_outcome := ended_outcome ended;
        ended_presentation := Some presentation; ended_rest := ended_rest ended |}) |})
    | _ => Ok (Some lifecycle)
    end
  end.

(** [_run_declaration] *)
Fixpoint run_declaration_from (versions : list EpochVersion) : option (EpochStarted * RunDescription) :=
  match versions with
  | [] => None
  | v :: versions =>
    match epoch_version_epoch v with
    | Some epoch => match started_run epoch with Some run => Some (epoch, run) | None => run_declaration_from versions end
    | None => run_declaration_from versions
    end
  end.
Definition run_declaration (state : Keyframe) : option (EpochStarted * RunDescription) :=
  run_declaration_from (rev (epochs state)).

(** One field of [_add_usage]: absent means unreported *)
Definition add_count (total value : option Z) : option Z :=
  match value with Some value => Some (default 0 total + value) | None => total end.
Definition add_cost (total value : option float) : option float :=
  match value with Some value => Some (fadd (default fzero total) value) | None => total end.

Definition no_usage : TokenUsage :=
  {| usage_input := None; usage_cache_read := None; usage_cache_creation := None; usage_output := None;
     usage_reasoning := None; usage_cost_usd := None; usage_duration_ms := None |}.

(** [_add_usage] *)
Definition add_usage (total : option TokenUsage) (usage : TokenUsage) : TokenUsage :=
  let result := default no_usage total in
  {| usage_input := add_count (usage_input result) (usage_input usage);
     usage_cache_read := add_count (usage_cache_read result) (usage_cache_read usage);
     usage_cache_creation := add_count (usage_cache_creation result) (usage_cache_creation usage);
     usage_output := add_count (usage_output result) (usage_output usage);
     usage_reasoning := add_count (usage_reasoning result) (usage_reasoning usage);
     usage_cost_usd := add_cost (usage_cost_usd result) (usage_cost_usd usage);
     usage_duration_ms := add_count (usage_duration_ms result) (usage_duration_ms usage) |}.

(** [text.rsplit("/", 1)[-1]] *)
Fixpoint last_segment_from (segment text : string) : string :=
  match text with
  | EmptyString => segment
  | String c text => if eqb c "/"%char then last_segment_from text text else last_segment_from segment text
  end.
Definition last_segment (text : string) : string := last_segment_from text text.

(** ** Ideas *)

(** The spans of [project_performance]: each span's last version, in the order they first appear *)
Definition first_seq (item : string * list SpanVersion) : Z :=
  match item.2 with v :: _ => span_version_seq v | [] => 0 end.
Definition item_before (a b : string * list SpanVersion) : bool :=
  (first_seq a <? first_seq b) || ((first_seq a =? first_seq b) && String.ltb a.1 b.1).
Definition last_span (item : string * list SpanVersion) : option (string * Span) :=
  option_map (fun v => (item.1, span_version_span v)) (last item.2).

Definition find_span (key : string) (spans : list (string * Span)) : option Span :=
  option_map snd (next_such (fun it => eqb it.1 key) spans).

(** [groups.setdefault(idea, []).append(span)] *)
Fixpoint append_group (idea : string) (span : Span) (groups : list (string * list Span)) : list (string * list Span) :=
  match groups with
  | [] => [(idea, [span])]
  | (i, attempts) :: groups =>
    if eqb i idea then (i, attempts ++ [span]) :: groups else (i, attempts) :: append_group idea span groups
  end.

Definition group_of (idea : option string) (groups : list (string * list Span)) : list Span :=
  match idea with
  | None => []
  | Some idea => match next_such (fun it => eqb it.1 idea) groups with Some it => it.2 | None => [] end
  end.

(** [_owner]: the nearest of a span and its ancestors that an idea owns; [None] is out of fuel *)
Fixpoint owner_from (fuel : nat) (at_ : string) (seen : list string) (spans : list (string * Span))
    (owners : gmap string string) : option (option string) :=
  match fuel with
  | O => None
  | S fuel =>
    if eqb at_ EmptyString || among at_ seen then Some None
    else if not_none (owners !! at_) then Some (Some at_)
    else owner_from fuel (match find_span at_ spans with Some span => span_parent span | None => EmptyString end)
           (at_ :: seen) spans owners
  end.
Definition owner (at_ : string) (spans : list (string * Span)) (owners : gmap string string) : option string :=
  default None (owner_from (length spans + 2) at_ [] spans owners).

Definition is_empty {A} (l : list A) : bool := match l with [] => true | _ :: _ => false end.

(** An attempt whose label says it passed *)
Definition passed (span : Span) : bool :=
  match span_label span with
  | Some label => eqb (label_verdict label) "passed"%string || eqb (label_verdict label) "accepted"%string
  | None => false
  end.

Definition unfinished (span : Span) : bool :=
  among (span_status span) [SpanStatus.PENDING; SpanStatus.RUNNING; SpanStatus.WAITING].

Section Head.
Context `{GateAttrs} `{HeadAttrs} `{SpanItems}.

Definition spans_of (state : Keyframe) : list (string * Span) :=
  omap last_span (sorted_by item_before (span_items (spans state))).

(** The idea a span is an attempt of, if it is a workstream and not a probe *)
Definition idea_of (key : string) (span : Span) : result string (option string) :=
  match span_label span with
  | Some label =>
    match label_attrs label with
    | Some attrs =>
      if eqb (label_kind label) "workstream"%string then
        let* w := workstream_attrs (any_value attrs) in
        Ok (if probe w then None
            else Some (if eqb (hypothesis_id w) EmptyString then "span:" +:+ key else "hypothesis:" +:+ hypothesis_id w))
      else Ok None
    | None => Ok None
    end
  | None => Ok None
  end.

(** [_ideas]: which idea owns a workstream, and the attempts of each idea *)
Fixpoint ideas_from (spans : list (string * Span)) (owners : gmap string string) (groups : list (string * list Span))
    : result string (gmap string string * list (string * list Span)) :=
  match spans with
  | [] => Ok (owners, groups)
  | (key, span) :: spans =>
    let* idea := idea_of key span in
    match idea with
    | Some idea => ideas_from spans (<[key := idea]> owners) (append_group idea span groups)
    | None => ideas_from spans owners groups
    end
  end.
Definition ideas (spans : list (string * Span)) := ideas_from spans ∅ [].

(** [_comparisons]: the last verdict on each candidate *)
Fixpoint comparisons_from (spans : list (string * Span)) (verdicts : gmap string Z) : result string (gmap string Z) :=
  match spans with
  | [] => Ok verdicts
  | (_, span) :: spans =>
    match span_label span with
    | Some label =>
      match label_attrs label with
      | Some attrs =>
        if eqb (label_kind label) "comparison"%string then
          let* verdict := comparison_verdict (any_value attrs) in
          comparisons_from spans (fold_left (fun verdicts link =>
            if eqb (link_rel link) "candidate"%string then <[link_to link := verdict]> verdicts else verdicts)
            (label_links label) verdicts)
        else comparisons_from spans verdicts
      | None => comparisons_from spans verdicts
      end
    | None => comparisons_from spans verdicts
    end
  end.
Definition comparisons (spans : list (string * Span)) := comparisons_from spans ∅.

(** Whether a span is a gate on the input *)
Definition is_input_gate (span : Span) : result string bool :=
  match span_label span with
  | Some label =>
    match label_attrs label with
    | Some attrs =>
      if eqb (label_kind label) "gate"%string
      then let* subject := gate_subject (any_value attrs) in Ok (subject =? GATE_SUBJECT_INPUT)
      else Ok false
    | None => Ok false
    end
  | None => Ok false
  end.

(** [_outcome] *)
Definition outcome (point_span : string) (spans : list (string * Span)) (attempts : list Span)
    (verdicts : gmap string Z) (owner : option string) : result string IdeaOutcome :=
  let* input := match find_span point_span spans with Some span => is_input_gate span | None => Ok false end in
  if input then Ok IdeaOutcome.INPUT
  else if is_empty attempts then Ok IdeaOutcome.UNATTRIBUTED
  else if any unfinished attempts then Ok IdeaOutcome.PENDING
  else
    let won := List.filter passed attempts in
    let* lost := match owner with
                 | None => Ok false
                 | Some owner =>
                   match find_span owner spans with
                   | Some span => Ok (negb (among span won))
                   | None => Err "KeyError"%string
                   end
                 end in
    if is_empty won || lost then Ok IdeaOutcome.FAILED
    else
      let verdict := match owner with Some owner => verdicts !! owner | None => None end in
      Ok (if eqb verdict (Some ComparisonVerdict.WITHIN_NOISE) then IdeaOutcome.WITHIN_NOISE
          else if eqb verdict (Some ComparisonVerdict.WORSE) then IdeaOutcome.NOT_KEPT
          else IdeaOutcome.KEPT).

(** ** Measurements *)

(** The spans that are gates on the input *)
Fixpoint input_gates (spans : list (string * Span)) : result string (gset string) :=
  match spans with
  | [] => Ok ∅
  | (key, span) :: spans =>
    let* input := is_input_gate span in
    let* keys := input_gates spans in
    Ok (if input then {[key]} ∪ keys else keys)
  end.

Definition series_points (state : Keyframe) (series : string) : list MetricVersion :=
  match next_such (fun h => eqb (history_series h) series) (metrics state) with
  | Some history => history_points history
  | None => []
  end.

(** [_input_value] *)
Definition input_value (state : Keyframe) (run : RunDescription) (metric : string) (spans : list (string * Span))
    : result string (option float) :=
  let from_gate :=
    let* inputs := input_gates spans in
    Ok (option_map (fun v => point_value (metric_version_point v))
      (next_such (fun v => eqb (point_span (metric_version_point v)) EmptyString
                           || bool_decide (point_span (metric_version_point v) ∈ inputs))
        (flat_map history_points (List.filter (fun h => eqb (history_series h) metric) (metrics state))))) in
  match described_input_measurement run with
  | Some (measured m) => if eqb (measured_series m) metric then Ok (Some (measured_value m)) else from_gate
  | Some _ => Ok None
  | None => from_gate
  end.

(** [sorted(points, key=lambda v: (v.point.clock, v.seq))] *)
Definition point_before (a b : MetricVersion) : bool :=
  let clock v := point_clock (metric_version_point v) in
  if feq (clock a) (clock b) then metric_version_seq a <? metric_version_seq b else flt (clock a) (clock b).

(** A reading, before its objective decides *)
Definition reading_of (spans : list (string * Span)) (owners : gmap string string) (groups : list (string * list Span))
    (verdicts : gmap string Z) (version : MetricVersion) : result string IdeaPerformance :=
  let point := metric_version_point version in
  let owner := owner (point_span point) spans owners in
  let idea := match owner with Some owner => owners !! owner | None => None end in
  let* outcome := outcome (point_span point) spans (group_of idea groups) verdicts owner in
  Ok {| measurement_seq := metric_version_seq version; performance_point := point; performance_idea := idea;
        performance_outcome := outcome; new_best := false |}.

Fixpoint readings (spans : list (string * Span)) (owners : gmap string string) (groups : list (string * list Span))
    (verdicts : gmap string Z) (versions : list MetricVersion) : result string (list IdeaPerformance) :=
  match versions with
  | [] => Ok []
  | version :: versions =>
    let* reading := reading_of spans owners groups verdicts version in
    let* rest := readings spans owners groups verdicts versions in
    Ok (reading :: rest)
  end.

End Head.

(** The measurement that decides each idea, its last of a finished attempt that passed *)
Definition decides (reading : IdeaPerformance) : bool :=
  among (performance_outcome reading)
    [IdeaOutcome.KEPT; IdeaOutcome.NOT_KEPT; IdeaOutcome.WITHIN_NOISE; IdeaOutcome.WORSE_THAN_INPUT].
Definition selected (points : list IdeaPerformance) : gmap string Z :=
  fold_left (fun chosen reading =>
    match performance_idea reading with
    | Some idea => if decides reading then <[idea := measurement_seq reading]> chosen else chosen
    | None => chosen
    end) points ∅.

(** Whether [value] is better than [other], in a direction that is one of the two *)
Definition better (direction : Z) (value other : float) : bool :=
  if direction =? Direction.MIN then flt value other else flt other value.

(** [_decide]: the reading, and the standing value after it *)
Definition decide_reading (direction : Z) (refused : bool) (baseline standing : option float) (reading : IdeaPerformance)
    : IdeaPerformance * option float :=
  let with_outcome o := reading <| performance_outcome := o |> in
  if negb (eqb (performance_outcome reading) IdeaOutcome.KEPT) || refused then
    (if eqb (performance_outcome reading) IdeaOutcome.KEPT then with_outcome IdeaOutcome.NOT_KEPT else reading, standing)
  else
    let value := point_value (performance_point reading) in
    if match baseline with Some baseline => better direction baseline value | None => false end
    then (with_outcome IdeaOutcome.WORSE_THAN_INPUT, standing)
    else if match standing with Some standing => negb (better direction value standing) | None => false end
    then (with_outcome IdeaOutcome.NOT_KEPT, standing)
    else (reading <| new_best := true |>, Some value).

(** What the loop over the readings makes of one: an idea keeps only its selected measurement *)
Definition only_selected (chosen : gmap string Z) (reading : IdeaPerformance) : IdeaPerformance :=
  match performance_idea reading with
  | Some idea =>
    if negb (eqb (chosen !! idea) (Some (measurement_seq reading)))
       && eqb (performance_outcome reading) IdeaOutcome.KEPT
    then reading <| performance_outcome := IdeaOutcome.NOT_KEPT |> else reading
  | None => reading
  end.

Fixpoint decide_readings (direction : Z) (refused : bool) (baseline standing : option float) (chosen : gmap string Z)
    (points : list IdeaPerformance) : list IdeaPerformance * option float :=
  match points with
  | [] => ([], standing)
  | reading :: points =>
    let (reading, standing) := decide_reading direction refused baseline standing (only_selected chosen reading) in
    let (points, standing) := decide_readings direction refused baseline standing chosen points in
    (reading :: points, standing)
  end.

Section Project.
Context `{GateAttrs} `{HeadAttrs} `{SpanItems}.

(** One idea of [_decisions] *)
Definition decision_of (points : list IdeaPerformance) (spans : list (string * Span)) (verdicts : gmap string Z)
    (group : string * list Span) : result string IdeaDecision :=
  let (idea, attempts) := group in
  let mine := List.filter (fun reading => eqb (performance_idea reading) (Some idea)) points in
  let ended reading := negb (among (performance_outcome reading) [IdeaOutcome.FAILED; IdeaOutcome.PENDING]) in
  let chosen := match next_such ended (rev mine) with Some reading => Some reading | None => last mine end in
  let* owner := match last (List.filter passed attempts), last attempts with
                | Some span, _ | None, Some span => Ok (span_id span)
                | None, None => Err "list index out of range"%string
                end in
  let* outcome_ := outcome EmptyString spans attempts verdicts (Some owner) in
  let outcome_ := if eqb outcome_ IdeaOutcome.KEPT
                  then match chosen with Some reading => performance_outcome reading | None => IdeaOutcome.NOT_KEPT end
                  else outcome_ in
  let best := any new_best mine in
  Ok {| decision_idea := idea; decision_outcome := if best then IdeaOutcome.KEPT else outcome_;
        decision_seq := option_map measurement_seq chosen; decision_new_best := best |}.

(** [_decisions] *)
Fixpoint decisions (points : list IdeaPerformance) (spans : list (string * Span)) (verdicts : gmap string Z)
    (groups : list (string * list Span)) : result string (list IdeaDecision) :=
  match groups with
  | [] => Ok []
  | group :: groups =>
    let* decision := decision_of points spans verdicts group in
    let* rest := decisions points spans verdicts groups in
    Ok (decision :: rest)
  end.

(** One objective of [project_performance] *)
Definition objective_performance (state : Keyframe) (run : RunDescription) (spans : list (string * Span))
    (owners : gmap string string) (groups : list (string * list Span)) (verdicts : gmap string Z)
    (objective : Objective) : result string SeriesPerformance :=
  let series := objective_series objective in
  let direction := objective_direction objective in
  let refused := negb (among direction [Direction.MIN; Direction.MAX]) in
  let* input := input_value state run series spans in
  let* points := readings spans owners groups verdicts (sorted_by point_before (series_points state series)) in
  let (points, best) := decide_readings direction refused input input (selected points) points in
  let* ideas := decisions points spans verdicts groups in
  Ok {| performance_series := series; performance_input := input; performance_best := best;
        performance_points := points; performance_ideas := ideas; unknown_direction := refused |}.

Fixpoint objectives_performance (state : Keyframe) (run : RunDescription) (spans : list (string * Span))
    (owners : gmap string string) (groups : list (string * list Span)) (verdicts : gmap string Z)
    (objectives : list Objective) : result string (list SeriesPerformance) :=
  match objectives with
  | [] => Ok []
  | objective :: objectives =>
    let* series := objective_performance state run spans owners groups verdicts objective in
    let* rest := objectives_performance state run spans owners groups verdicts objectives in
    Ok (series :: rest)
  end.

(** [project_performance], of a declaration with a run *)
Definition project_performance (state : Keyframe) (run : RunDescription) : result string (list SeriesPerformance) :=
  let spans := spans_of state in
  let* owned := ideas spans in
  let* verdicts := comparisons spans in
  objectives_performance state run spans owned.1 owned.2 verdicts (described_objectives run).

(** ** The head *)

(** The loop of [project_head] over the spans: how many of each kind, and what the turns spent *)
Definition count_span (counted : gmap string Z * option TokenUsage) (versions : list SpanVersion)
    : result string (gmap string Z * option TokenUsage) :=
  let (counts, usage) := counted in
  match last versions with
  | None => Err "list index out of range"%string
  | Some version =>
    match span_label (span_version_span version) with
    | None => Ok counted
    | Some label =>
      let kind := label_kind label in
      let counts := <[kind := default 0 (counts !! kind) + 1]> counts in
      match label_attrs label with
      | Some attrs =>
        if eqb (last_segment (type_url attrs)) "vibesys.store.v1.AgentTurnAttrs"%string then
          let* spent := turn_usage (any_value attrs) in
          Ok (counts, match spent with Some spent => Some (add_usage usage spent) | None => usage end)
        else Ok (counts, usage)
      | None => Ok (counts, usage)
      end
    end
  end.

(** Whether the run waits for its operator *)
Definition held_by_operator (lifecycle : option Lifecycle) : bool :=
  match lifecycle with
  | Some lifecycle =>
    match lifecycle_state lifecycle with
    | Some (LifecycleState.running (Some operator_hold)) => true
    | _ => false
    end
  | None => false
  end.

(** The headline of [project_head]: its first objective *)
Definition headline_of (state : Keyframe) (epoch : EpochStarted) (objective : Objective) (head : RunHead)
    : result string RunHead :=
  match next_such (fun s => eqb (decl_name s) (objective_series objective)) (started_series epoch), performance head with
  | Some declaration, first :: _ =>
    let readings := map metric_version_point (series_points state (objective_series objective)) in
    Ok (head <| head_objective := Some {| headline_series := declaration;
               headline_best := if unknown_direction first then None else performance_best first;
               headline_input := performance_input first; input_stated := true |} |>
             <| chart_points := drop (length readings - 256) readings |>)
  | None, _ => Err "StopIteration"%string
  | _, [] => Err "list index out of range"%string
  end.

(** [project_head] *)
Definition project_head (state : Keyframe) (process : option RunProcess) : result string (option RunHead) :=
  let current := current_epoch_of_keyframe state no_epoch in
  let* lifecycle := project_lifecycle (lifecycle current) in
  match run_declaration state with
  | None => Ok None
  | Some (epoch, run) =>
    let* performance_ := project_performance state run in
    let* counted := rfold count_span (∅, None) (map snd (span_items (spans state))) in
    let head := {| head_lifecycle := lifecycle; head_strategy := described_strategy run; head_objective := None;
      span_counts := counted.1; head_usage := counted.2; chart_points := [];
      needs_user := held_by_operator lifecycle; head_committed_seq := Some (through_seq state);
      head_process := process; awaiting_lifecycle := is_none lifecycle; head_epoch := number current;
      performance := performance_; performance_stated := true |} in
    match described_objectives run with
    | [] => Ok (Some head)
    | objective :: _ => let* head := headline_of state epoch objective head in Ok (Some head)
    end
  end.
End Project.
