(* ===== verification/Standing.v ===== *)
(** * What stands

    The measurements of [Head.project_performance]: which of them is kept, and that nothing else
    than the spans and the points of the skeleton decides. *)

From stdpp Require Import sorting.
From S2P Require Import Prelude PySorted PyFloat Identities LogRecord Skeleton Epoch Head.

(** ** The standing value *)

Lemma better_trans d a b c : better d a b = true -> better d b c = true -> better d a c = true.
Proof. unfold better. destruct (d =? _); intros; by eapply flt_trans. Qed.

Definition value_of (reading : IdeaPerformance) : float := point_value (performance_point reading).
Definition stands (points : list IdeaPerformance) : list float := map value_of (List.filter new_best points).

(** What [decide_readings] makes of readings none of which is the best yet *)
Record decided (d : Z) (refused : bool) (baseline standing : option float) (points : list IdeaPerformance)
    (best : option float) : Prop := {
  decided_kept : forall r, r ∈ points -> new_best r = true <-> performance_outcome r = IdeaOutcome.KEPT;
  decided_chain : StronglySorted (fun a b => better d b a = true) (option_list standing ++ stands points);
  decided_best : best = last (option_list standing ++ stands points);
  decided_baseline : forall b r, baseline = Some b -> r ∈ points -> new_best r = true -> better d b (value_of r) = false;
  decided_refused : refused = true -> stands points = []
}.

Lemma decide_reading_kept d refused baseline standing r r' standing' :
  new_best r = false -> decide_reading d refused baseline standing r = (r', standing') ->
  (new_best r' = false /\ performance_outcome r' <> IdeaOutcome.KEPT /\ standing' = standing) \/
  (new_best r' = true /\ performance_outcome r' = IdeaOutcome.KEPT /\ refused = false /\ value_of r' = value_of r /\
   standing' = Some (value_of r') /\ (forall s, standing = Some s -> better d (value_of r') s = true) /\
   forall b, baseline = Some b -> better d b (value_of r') = false).
Proof.
  intros Hnew. unfold decide_reading. fold (value_of r).
  destruct (eqb (performance_outcome r) IdeaOutcome.KEPT) eqn:Ek; cbn [negb orb].
  - apply eqb_eq in Ek. destruct refused; [intros [= <- <-]; left; by rewrite Hnew|].
    destruct (match baseline with Some b => better d b (value_of r) | None => false end) eqn:Eb; [intros [= <- <-]; by left|].
    destruct (match standing with Some s => negb (better d (value_of r) s) | None => false end) eqn:Es; [intros [= <- <-]; by left|].
    intros [= <- <-]. right. unfold value_of in *. split_and!; [done..| |].
    + intros s ->. by destruct (better d _ s).
    + by intros b ->.
  - apply eqb_neq in Ek. intros [= <- <-]. by left.
Qed.

Lemma only_selected_same chosen r : new_best (only_selected chosen r) = new_best r /\ value_of (only_selected chosen r) = value_of r.
Proof. unfold only_selected. destruct (performance_idea r); [|done]. by destruct (_ && _). Qed.

Lemma decide_readings_decided d refused baseline standing chosen points points' best :
  (forall r, r ∈ points -> new_best r = false) ->
  decide_readings d refused baseline standing chosen points = (points', best) ->
  decided d refused baseline standing points' best.
Proof.
  revert standing points' best. induction points as [|r points IH]; intros standing points' best Hnew.
  { cbn. intros [= <- <-]. split; cbn; rewrite ?app_nil_r; [set_solver| |by destruct standing|set_solver|done].
    destruct standing; repeat constructor. }
  cbn [decide_readings]. destruct (decide_reading _ _ _ _ _) as [r1 s1] eqn:E1.
  destruct (decide_readings _ _ _ s1 _ _) as [ps b] eqn:E2. intros [= <- <-].
  assert (Hr : new_best (only_selected chosen r) = false).
  { rewrite (proj1 (only_selected_same _ _)). apply Hnew. by left. }
  destruct (IH s1 ps b) as [I1 I2 I3 I4 I5]; [intros; apply Hnew; by right|done|].
  destruct (decide_reading_kept _ _ _ _ _ _ _ Hr E1) as [(Hn & Hk & ->)|(Hn & Hk & Hf & _ & -> & Hs & Hb)].
  - assert (Hst : stands (r1 :: ps) = stands ps) by (unfold stands; cbn [List.filter]; by rewrite Hn).
    split; rewrite ?Hst; try done; intros ?; [intros [->|?]%elem_of_cons|intros ? ? [->|?]%elem_of_cons]; try by auto.
    + rewrite Hn. split; [done|]. intros ?. by destruct Hk.
    + congruence.
  - assert (Hst : stands (r1 :: ps) = value_of r1 :: stands ps) by (unfold stands; cbn [List.filter]; by rewrite Hn).
    cbn [option_list app] in I2, I3. split; rewrite ?Hst; cbn [option_list app].
    + intros x [->|?]%elem_of_cons; [by rewrite Hn, Hk|by apply I1].
    + destruct standing as [s|]; [|done]. cbn [option_list app]. apply StronglySorted_inv in I2 as HI. destruct HI as [HI1 HI2].
      constructor; [done|]. constructor; [by apply Hs|]. eapply Forall_impl; [exact HI2|]. intros v Hv.
      eapply better_trans; [exact Hv|by apply Hs].
    + rewrite I3. by destruct standing.
    + intros b0 x Hb0 [->|?]%elem_of_cons Hx; [by apply Hb|by eapply I4].
    + congruence.
Qed.

(** ** Spans, ideas and owners *)

Definition parent_of (spans : list (string * Span)) (child parent : string) : Prop :=
  exists span, find_span child spans = Some span /\ span_parent span = parent.

Lemma find_span_elem key spans span : find_span key spans = Some span -> (key, span) ∈ spans.
Proof.
  unfold find_span. destruct (next_such _ spans) as [[k s]|] eqn:E; [|done]. intros [= <-].
  apply next_such_Some in E as [Hin Hk%eqb_eq]. cbn in Hk. by subst.
Qed.

(** The walk ends: it meets each span of the log once, then one that is not there, then the root. *)
Lemma owner_from_total fuel at_ seen spans owners :
  NoDup seen -> (forall key, key ∈ seen -> not_none (find_span key spans) = true) ->
  (length spans + 2 <= fuel + length seen)%nat -> not_none (owner_from fuel at_ seen spans owners) = true.
Proof.
  assert (Hsize : forall l, NoDup l -> (forall key, key ∈ l -> not_none (find_span key spans) = true) ->
    (length l <= length spans)%nat).
  { intros l Hl Hin. rewrite <- (length_map fst spans). apply NoDup_incl_length; [by apply NoDup_ListNoDup|].
    intros key Hk%list_elem_of_In. specialize (Hin key Hk). destruct (find_span key spans) as [span|] eqn:E; [|done].
    apply find_span_elem in E. apply in_map_iff. exists (key, span). split; [done|by apply list_elem_of_In]. }
  revert at_ seen. induction fuel as [|fuel IH]; intros at_ seen Hnd Hin Hlen.
  { specialize (Hsize _ Hnd Hin). lia. }
  cbn [owner_from]. destruct (eqb at_ EmptyString); [done|]. destruct (among at_ seen) eqn:Hs; [done|]. cbn [orb].
  destruct (not_none (owners !! at_)); [done|]. apply among_false in Hs.
  destruct (find_span at_ spans) as [span|] eqn:Es.
  - apply IH; [by constructor| |cbn; lia]. intros key [->|?]%elem_of_cons; [by rewrite Es|by apply Hin].
  - destruct fuel; [specialize (Hsize _ Hnd Hin); lia|]. cbn. by rewrite eqb_refl.
Qed.

Lemma owner_total at_ spans owners : exists o, owner_from (length spans + 2) at_ [] spans owners = Some o.
Proof.
  assert (H : not_none (owner_from (length spans + 2) at_ [] spans owners) = true).
  { apply owner_from_total; [constructor|set_solver|cbn; lia]. }
  destruct (owner_from _ _ _ _ _); [by eexists|done].
Qed.

(** [o] is the nearest owned span from [at_] up, [n] parents away. *)
Inductive nearest (spans : list (string * Span)) (owners : gmap string string) : nat -> string -> string -> Prop :=
  | nearest_self key : not_none (owners !! key) = true -> nearest spans owners O key key
  | nearest_up n child parent o : owners !! child = None -> parent_of spans child parent ->
    nearest spans owners n parent o -> nearest spans owners (S n) child o.

Lemma nearest_once spans owners n m key o o' :
  nearest spans owners n key o -> nearest spans owners m key o' -> n = m /\ o = o'.
Proof.
  intros H. revert m. induction H as [key Hk|n child parent o Hc (span & Hs & <-) H IH]; intros m Hm; inversion Hm; subst.
  - done.
  - match goal with H : owners !! _ = None |- _ => by rewrite H in Hk end.
  - match goal with H : not_none (owners !! _) = true |- _ => by rewrite Hc in H end.
  - match goal with H : parent_of _ _ _ |- _ => destruct H as (span' & Hs' & <-) end. rewrite Hs in Hs'. injection Hs' as <-.
    match goal with H : nearest _ _ _ _ o' |- _ => apply IH in H as [-> ->] end. done.
Qed.

Lemma owner_from_nearest fuel at_ seen spans owners n o :
  (forall key, key ∈ seen -> exists m, (n < m)%nat /\ nearest spans owners m key o) ->
  owners !! EmptyString = None -> find_span EmptyString spans = None ->
  nearest spans owners n at_ o -> not_none (owner_from fuel at_ seen spans owners) = true ->
  owner_from fuel at_ seen spans owners = Some (Some o).
Proof.
  intros Hseen He Hf Hn. revert fuel seen Hseen. induction Hn as [key Hk|n child parent o Hc (span & Hs & <-) Hn IH];
    intros fuel seen Hseen Hfuel; (destruct fuel as [|fuel]; [done|]); cbn [owner_from] in *.
  - rewrite (proj2 (eqb_false key EmptyString)) in * by (intros ->; by rewrite He in Hk).
    destruct (among key seen) eqn:Ea; [|by rewrite Hk].
    apply among_true, Hseen in Ea as (m & Hm & Hnear). destruct (nearest_once _ _ _ _ _ _ _ Hnear (nearest_self _ _ _ Hk)). lia.
  - rewrite (proj2 (eqb_false child EmptyString)) in * by (intros ->; congruence).
    assert (Hself : nearest spans owners (S n) child o) by (eapply nearest_up; [done| |done]; by exists span).
    destruct (among child seen) eqn:Ea.
    { apply among_true, Hseen in Ea as (m & Hm & Hnear). destruct (nearest_once _ _ _ _ _ _ _ Hnear Hself). lia. }
    rewrite Hc, Hs in *. cbn [orb not_none is_none negb] in *. apply IH; [|done].
    intros key [->|(m & Hm & Hnear)%Hseen]%elem_of_cons; [exists (S n); split; [lia|done]|exists m; split; [lia|done]].
Qed.

Lemma owner_from_sound fuel at_ seen spans owners o :
  owner_from fuel at_ seen spans owners = Some (Some o) -> exists n, nearest spans owners n at_ o.
Proof.
  revert at_ seen. induction fuel as [|fuel IH]; intros at_ seen; [done|]. cbn [owner_from].
  destruct (_ || _); [done|]. destruct (not_none (owners !! at_)) eqn:Ho.
  { intros [= <-]. exists O. by constructor. }
  destruct (find_span at_ spans) as [span|] eqn:Es; [|destruct fuel; cbn; [done|by rewrite eqb_refl]].
  intros [n Hn]%IH. exists (S n). eapply nearest_up; [by destruct (owners !! at_)| |done]. by exists span.
Qed.

Lemma owner_nearest_iff at_ spans owners o : owners !! EmptyString = None -> find_span EmptyString spans = None ->
  owner at_ spans owners = Some o <-> exists n, nearest spans owners n at_ o.
Proof.
  intros He Hf. unfold owner. destruct (owner_total at_ spans owners) as [found E]. split.
  - rewrite E. cbn. intros ->. by eapply owner_from_sound.
  - intros [n Hn]. rewrite (owner_from_nearest _ _ _ _ _ n o); [done|set_solver|done..|by rewrite E].
Qed.

Lemma nearest_owned spans owners n at_ o : nearest spans owners n at_ o -> not_none (owners !! o) = true.
Proof. by induction 1. Qed.

Section Performance.
Context `{GateAttrs} `{HeadAttrs} `{SpanItems}.

(** ** Groups *)

Lemma group_of_append idea idea' span groups :
  group_of (Some idea) (append_group idea' span groups) =
  if eqb idea' idea then group_of (Some idea) groups ++ [span] else group_of (Some idea) groups.
Proof.
  unfold group_of. induction groups as [|[i attempts] groups IH]; cbn [append_group next_such fst].
  - destruct (eqb idea' idea); done.
  - destruct (eqb i idea') eqn:E; cbn [next_such fst].
    + apply eqb_eq in E as ->. by destruct (eqb idea' idea).
    + destruct (eqb i idea) eqn:E'; [|exact IH]. apply eqb_eq in E' as ->.
      rewrite (proj2 (eqb_false idea' idea)); [done|]. apply eqb_neq in E. congruence.
Qed.

Lemma groups_keys idea span groups : map fst (append_group idea span groups) =
  if bool_decide (idea ∈ map fst groups) then map fst groups else map fst groups ++ [idea].
Proof.
  induction groups as [|[i attempts] groups IH]; [done|]. cbn [append_group map fst].
  destruct (eqb i idea) eqn:E; cbn [map fst].
  - apply eqb_eq in E as ->. by rewrite bool_decide_eq_true_2 by left.
  - rewrite IH. apply eqb_neq in E.
    rewrite (bool_decide_ext (idea ∈ i :: map fst groups) (idea ∈ map fst groups)) by set_solver.
    by destruct (bool_decide _).
Qed.

(** What [_ideas] says of the spans *)
Record ideas_ok (spans : list (string * Span)) (owners : gmap string string) (groups : list (string * list Span)) : Prop := {
  ideas_decoded : forall key span, (key, span) ∈ spans -> exists idea, idea_of key span = Ok idea;
  ideas_owner : forall key idea, owners !! key = Some idea <->
    exists span, (key, span) ∈ spans /\ idea_of key span = Ok (Some idea);
  ideas_group : forall idea span, span ∈ group_of (Some idea) groups <->
    exists key, (key, span) ∈ spans /\ idea_of key span = Ok (Some idea);
  ideas_once : NoDup (map fst groups);
  ideas_named : forall idea, idea ∈ map fst groups <-> exists key span, (key, span) ∈ spans /\ idea_of key span = Ok (Some idea)
}.

Lemma ideas_step spans owners groups key span idea :
  ideas_ok spans owners groups -> NoDup (map fst (spans ++ [(key, span)])) -> idea_of key span = Ok idea ->
  match idea with
  | Some idea => ideas_ok (spans ++ [(key, span)]) (<[key := idea]> owners) (append_group idea span groups)
  | None => ideas_ok (spans ++ [(key, span)]) owners groups
  end.
Proof.
  intros [I1 I2 I3 I4 I5] Hnd Hi. rewrite map_app, NoDup_app in Hnd. destruct Hnd as (_ & Hnew & _).
  assert (Hkey : forall s, (key, s) ∈ spans -> False).
  { intros s Hs. apply (Hnew key); [|by left]. apply list_elem_of_fmap. by exists (key, s). }
  assert (Hin : forall k s, (k, s) ∈ spans ++ [(key, span)] <-> (k, s) ∈ spans \/ (k = key /\ s = span)).
  { intros k s. rewrite elem_of_app, list_elem_of_singleton. by split; intros [?|?]; simplify_eq; auto; naive_solver. }
  assert (Hdec : forall k s, (k, s) ∈ spans ++ [(key, span)] -> exists i, idea_of k s = Ok i).
  { intros k s [?|[-> ->]]%Hin; [by apply I1|by eexists]. }
  destruct idea as [idea|]; split; try done.
  - intros k i. rewrite lookup_insert_Some, I2. split.
    + intros [[<- <-]|[Hk (s & Hs & E)]]; [exists span; split; [apply Hin; by right|done]|].
      exists s. split; [apply Hin; by left|done].
    + intros (s & [Hs|[-> ->]]%Hin & E); [right|left; split; congruence].
      split; [intros <-; by eapply Hkey|]. by exists s.
  - intros i s. rewrite group_of_append. destruct (eqb idea i) eqn:E.
    + apply eqb_eq in E as ->. rewrite elem_of_app, list_elem_of_singleton, I3. split.
      * intros [(k & Hk & E)| ->]; [exists k; split; [apply Hin; by left|done]|]. exists key. split; [apply Hin; by right|done].
      * intros (k & [Hk|[-> ->]]%Hin & E); [left; by exists k|by right].
    + apply eqb_neq in E. rewrite I3. split; intros (k & Hk & E'); exists k; (split; [|done]).
      * apply Hin. by left.
      * apply Hin in Hk as [?|[-> ->]]; [done|congruence].
  - rewrite groups_keys. case_bool_decide as E; [done|]. apply NoDup_app. split; [done|]. split; [|apply NoDup_singleton].
    intros x Hx ->%list_elem_of_singleton. done.
  - intros i. rewrite groups_keys. assert (Hi' : i ∈ map fst groups \/ i = idea <->
      exists k s, (k, s) ∈ spans ++ [(key, span)] /\ idea_of k s = Ok (Some i)).
    { rewrite I5. split.
      - intros [(k & s & Hk & E)| ->]; [exists k, s; split; [apply Hin; by left|done]|].
        exists key, span. split; [apply Hin; by right|done].
      - intros (k & s & [Hk|[-> ->]]%Hin & E); [left; by exists k, s|right; congruence]. }
    rewrite <- Hi'. case_bool_decide as E; [|by rewrite elem_of_app, list_elem_of_singleton]. naive_solver.
  - intros k i. rewrite I2. split; intros (s & Hs & E); exists s; (split; [|done]); [apply Hin; by left|].
    apply Hin in Hs as [?|[-> ->]]; [done|congruence].
  - intros i s. rewrite I3. split; intros (k & Hk & E); exists k; (split; [|done]); [apply Hin; by left|].
    apply Hin in Hk as [?|[-> ->]]; [done|congruence].
  - intros i. rewrite I5. split; intros (k & s & Hk & E); exists k, s; (split; [|done]); [apply Hin; by left|].
    apply Hin in Hk as [?|[-> ->]]; [done|congruence].
Qed.

Lemma ideas_from_spec before spans owners groups owners' groups' :
  ideas_ok before owners groups -> NoDup (map fst (before ++ spans)) ->
  ideas_from spans owners groups = Ok (owners', groups') -> ideas_ok (before ++ spans) owners' groups'.
Proof.
  revert before owners groups. induction spans as [|[key span] spans IH]; intros before owners groups I Hnd; cbn [ideas_from].
  { intros [= <- <-]. by rewrite app_nil_r. }
  intros (idea & Hi & Hrest)%rbind_Ok. rewrite (app_assoc before [(key, span)] spans : before ++ (key, span) :: spans = _) in Hnd |- *.
  assert (Hnd' : NoDup (map fst (before ++ [(key, span)]))) by (rewrite map_app in Hnd; by apply NoDup_app in Hnd as (? & _)).
  pose proof (ideas_step _ _ _ _ _ _ I Hnd' Hi). destruct idea; by eapply IH.
Qed.

Lemma ideas_spec spans owners groups : NoDup (map fst spans) -> ideas spans = Ok (owners, groups) -> ideas_ok spans owners groups.
Proof.
  intros Hnd. apply (ideas_from_spec []); [|done]. split; cbn; [set_solver| |set_solver|constructor|set_solver].
  intros. rewrite lookup_empty. split; [done|]. by intros (? & ?%not_elem_of_nil & _).
Qed.

(** ** Readings *)

Lemma last_span_keys l : map fst (omap last_span l) `sublist_of` map fst l.
Proof.
  induction l as [|[key versions] l IH]; cbn; [done|]. unfold last_span at 1. cbn [fst snd].
  destruct (last versions); cbn; by constructor.
Qed.

Lemma spans_of_keys `{!SpanItemsLaw _} state : NoDup (map fst (spans_of state)).
Proof.
  unfold spans_of. eapply list_relations.list.sublist_NoDup; [|apply last_span_keys]. rewrite sorted_by_perm, span_items_perm.
  apply NoDup_fst_map_to_list.
Qed.

Lemma readings_spec spans owners groups verdicts versions rs :
  readings spans owners groups verdicts versions = Ok rs ->
  Forall2 (fun v r => reading_of spans owners groups verdicts v = Ok r) versions rs.
Proof.
  revert rs. induction versions as [|v versions IH]; intros rs; cbn [readings]; [by intros [= <-]|].
  intros (r & Hr & (rest & Hrest & [= <-])%rbind_Ok)%rbind_Ok. constructor; [done|by apply IH].
Qed.

Lemma reading_of_new spans owners groups verdicts v r :
  reading_of spans owners groups verdicts v = Ok r -> new_best r = false /\ measurement_seq r = metric_version_seq v /\
  performance_point r = metric_version_point v.
Proof. unfold reading_of. by intros (o & _ & [= <-])%rbind_Ok. Qed.

(** A decided reading is the reading it was but for its outcome, and is kept only as the selected one. *)
Lemma decide_readings_from d refused baseline standing chosen points points' best :
  decide_readings d refused baseline standing chosen points = (points', best) ->
  Forall2 (fun r r' => measurement_seq r' = measurement_seq r /\ performance_point r' = performance_point r /\
    performance_idea r' = performance_idea r /\
    (performance_outcome r' = IdeaOutcome.KEPT -> performance_outcome r = IdeaOutcome.KEPT /\
       forall idea, performance_idea r = Some idea -> chosen !! idea = Some (measurement_seq r))) points points'.
Proof.
  revert standing points' best. induction points as [|r points IH]; intros standing points' best; cbn [decide_readings].
  { by intros [= <- _]. }
  destruct (decide_reading _ _ _ _ _) as [r1 s1] eqn:E1. destruct (decide_readings _ _ _ s1 _ _) as [ps b] eqn:E2.
  intros [= <- <-]. constructor; [|by eapply IH].
  assert (Hs : measurement_seq (only_selected chosen r) = measurement_seq r /\
    performance_point (only_selected chosen r) = performance_point r /\
    performance_idea (only_selected chosen r) = performance_idea r /\
    (performance_outcome (only_selected chosen r) = IdeaOutcome.KEPT -> performance_outcome r = IdeaOutcome.KEPT /\
       forall idea, performance_idea r = Some idea -> chosen !! idea = Some (measurement_seq r))).
  { unfold only_selected. destruct (performance_idea r) as [idea|] eqn:Ei; [|done].
    destruct (eqb (chosen !! idea) _) eqn:Ec; cbn [negb andb].
    - apply eqb_eq in Ec. split_and!; [done..|]. intros ->. split; [done|]. by intros ? [= <-].
    - destruct (eqb (performance_outcome r) IdeaOutcome.KEPT) eqn:Ek; split_and!; try done; cbn.
      apply eqb_neq in Ek. by intros. }
  destruct Hs as (S1 & S2 & S3 & S4). revert E1. unfold decide_reading.
  destruct (negb _ || refused).
  - destruct (eqb _ IdeaOutcome.KEPT) eqn:Ek; intros [= <- _]; cbn; split_and!; try done. 
  - destruct (match baseline with Some _ => _ | None => _ end); [by intros [= <- _]|].
    destruct (match standing with Some _ => _ | None => _ end); by intros [= <- _].
Qed.

Lemma outcome_kept at_ spans attempts verdicts owner_ :
  outcome at_ spans attempts verdicts owner_ = Ok IdeaOutcome.KEPT ->
  (forall span, span ∈ attempts -> unfinished span = false) /\
  exists span, span ∈ attempts /\ passed span = true /\
  forall o, owner_ = Some o -> exists s, find_span o spans = Some s /\ s ∈ attempts /\ passed s = true /\
    verdicts !! o <> Some ComparisonVerdict.WITHIN_NOISE /\ verdicts !! o <> Some ComparisonVerdict.WORSE.
Proof.
  unfold outcome. intros (input & _ & Hout)%rbind_Ok. destruct input; [done|]. destruct attempts as [|a attempts]; [done|].
  cbn [is_empty] in Hout. destruct (any unfinished _) eqn:Eu; [done|]. rewrite any_false in Eu.
  apply rbind_Ok in Hout as (lost & Hlost & Hout). destruct (is_empty _ || lost) eqn:E; [done|].
  apply orb_false_elim in E as [Ewon ->]. split; [done|].
  destruct (List.filter passed (a :: attempts)) as [|w won] eqn:Ew; [done|].
  assert (Hwon : forall s, s ∈ w :: won -> s ∈ a :: attempts /\ passed s = true) by (intros s; rewrite <- Ew; apply elem_of_filterb).
  exists w. split; [by apply Hwon; left|]. split; [by apply Hwon; left|]. intros o ->.
  destruct (find_span o spans) as [s|]; [|done]. injection Hlost as Hlost. apply negb_false_iff, among_true in Hlost.
  exists s. split; [done|]. split; [by apply Hwon|]. split; [by apply Hwon|].
  destruct (eqb (verdicts !! o) (Some ComparisonVerdict.WITHIN_NOISE)) eqn:E1; [done|].
  destruct (eqb (verdicts !! o) (Some ComparisonVerdict.WORSE)) eqn:E2; [done|]. by apply eqb_neq in E1, E2.
Qed.

(** ** The performance of a run *)

Lemma objective_performance_Ok state run spans owners groups verdicts objective p :
  objective_performance state run spans owners groups verdicts objective = Ok p ->
  performance_series p = objective_series objective /\
  unknown_direction p = negb (among (objective_direction objective) [Direction.MIN; Direction.MAX]) /\
  decisions (performance_points p) spans verdicts groups = Ok (performance_ideas p) /\
  exists points, Forall2 (fun v r => reading_of spans owners groups verdicts v = Ok r)
      (sorted_by point_before (series_points state (objective_series objective))) points /\
    decide_readings (objective_direction objective) (unknown_direction p) (performance_input p) (performance_input p)
      (selected points) points = (performance_points p, performance_best p).
Proof.
  unfold objective_performance. intros (input & Hin & (points & Hpoints%readings_spec & Hrest)%rbind_Ok)%rbind_Ok.
  destruct (decide_readings _ _ _ _ _ _) as [points' best] eqn:Ed. apply rbind_Ok in Hrest as (ideas_ & Hideas & [= <-]).
  cbn. split_and!; [done..|]. by exists points.
Qed.

Lemma project_performance_Ok state run perfs : project_performance state run = Ok perfs ->
  exists owners groups verdicts, ideas (spans_of state) = Ok (owners, groups) /\ comparisons (spans_of state) = Ok verdicts /\
  Forall2 (fun objective p => objective_performance state run (spans_of state) owners groups verdicts objective = Ok p)
    (described_objectives run) perfs.
Proof.
  unfold project_performance. intros ([owners groups] & Hi & (verdicts & Hv & Ho)%rbind_Ok)%rbind_Ok.
  exists owners, groups, verdicts. split; [done|]. split; [done|]. cbn [fst snd] in Ho. revert perfs Ho.
  induction (described_objectives run) as [|objective objectives IH]; intros perfs; cbn [objectives_performance]; [by intros [= <-]|].
  intros (p & Hp & (rest & Hrest & [= <-])%rbind_Ok)%rbind_Ok. constructor; [done|by apply IH].
Qed.

Lemma readings_new spans owners groups verdicts versions points :
  Forall2 (fun v r => reading_of spans owners groups verdicts v = Ok r) versions points ->
  forall r, r ∈ points -> new_best r = false.
Proof.
  intros Hall r [i Hr]%list_elem_of_lookup. destruct (Forall2_lookup_r _ _ _ _ _ Hall Hr) as (v & _ & Hv).
  by apply reading_of_new in Hv as (? & _).
Qed.

Lemma objective_decided state run spans owners groups verdicts objective p :
  objective_performance state run spans owners groups verdicts objective = Ok p ->
  decided (objective_direction objective) (unknown_direction p) (performance_input p) (performance_input p)
    (performance_points p) (performance_best p).
Proof.
  intros (_ & _ & _ & points & Hall & Hd)%objective_performance_Ok. eapply decide_readings_decided; [|exact Hd].
  by eapply readings_new.
Qed.

(** C32: what stands only improves: of every objective of the run, a reading is a new best exactly when
    it is kept; each kept value is better than the input's and than every kept one before it; and the
    best value is the last of them, or the input's when none is kept.  Of a direction that is
    neither to minimise nor to maximise nothing is kept. *)
Theorem standing_only_improves state run perfs :
  project_performance state run = Ok perfs ->
  Forall2 (fun objective p =>
    performance_series p = objective_series objective /\
    (forall r, r ∈ performance_points p -> new_best r = true <-> performance_outcome r = IdeaOutcome.KEPT) /\
    StronglySorted (fun a b => better (objective_direction objective) b a = true)
      (option_list (performance_input p) ++ stands (performance_points p)) /\
    performance_best p = last (option_list (performance_input p) ++ stands (performance_points p)) /\
    (among (objective_direction objective) [Direction.MIN; Direction.MAX] = false -> stands (performance_points p) = []))
  (described_objectives run) perfs.
Proof.
  intros (owners & groups & verdicts & _ & _ & Hall)%project_performance_Ok.
  eapply Forall2_impl; [exact Hall|]. intros objective p Hp.
  destruct (objective_decided _ _ _ _ _ _ _ _ Hp) as [D1 D2 D3 _ D5].
  apply objective_performance_Ok in Hp as (Hs & Hu & _). split_and!; try done.
  intros Hd. apply D5. by rewrite Hu, Hd.
Qed.

(** A kept reading was to be kept before its objective decided, and is the one of its idea. *)
Lemma kept_reading state run spans owners groups verdicts objective p r :
  objective_performance state run spans owners groups verdicts objective = Ok p ->
  r ∈ performance_points p -> performance_outcome r = IdeaOutcome.KEPT ->
  (exists r0, reading_of spans owners groups verdicts
      {| metric_version_seq := measurement_seq r; metric_version_point := performance_point r |} = Ok r0 /\
    performance_idea r0 = performance_idea r /\ performance_outcome r0 = IdeaOutcome.KEPT) /\
  forall r' idea, r' ∈ performance_points p -> performance_outcome r' = IdeaOutcome.KEPT ->
    performance_idea r = Some idea -> performance_idea r' = Some idea -> measurement_seq r' = measurement_seq r.
Proof.
  intros (_ & _ & _ & points & Hall & Hd%decide_readings_from)%objective_performance_Ok Hr Hkept.
  assert (Hback : forall r, r ∈ performance_points p -> performance_outcome r = IdeaOutcome.KEPT ->
    exists v r0, reading_of spans owners groups verdicts v = Ok r0 /\ measurement_seq r = metric_version_seq v /\
      performance_point r = metric_version_point v /\ performance_idea r0 = performance_idea r /\
      performance_outcome r0 = IdeaOutcome.KEPT /\
      forall idea, performance_idea r = Some idea -> selected points !! idea = Some (measurement_seq r)).
  { intros x [i Hx]%list_elem_of_lookup Hk. destruct (Forall2_lookup_r _ _ _ _ _ Hd Hx) as (r0 & Hr0 & E1 & E2 & E3 & E4).
    destruct (Forall2_lookup_r _ _ _ _ _ Hall Hr0) as (v & _ & Hv). destruct (reading_of_new _ _ _ _ _ _ Hv) as (_ & F1 & F2).
    destruct (E4 Hk) as [Ek Es]. exists v, r0. rewrite E1, E2, E3. by split_and!. }
  destruct (Hback r Hr Hkept) as ([sq pt] & r0 & Hv & -> & -> & Hi & Hk & Hs). split; [by exists r0|].
  intros r' idea Hr' Hkept' Hidea Hidea'. destruct (Hback r' Hr' Hkept') as (v' & _ & _ & E & _ & _ & _ & Hs').
  specialize (Hs _ Hidea). specialize (Hs' _ Hidea'). rewrite E in *. congruence.
Qed.

(** An idea wins by an attempt that passed: a kept reading belongs to an idea none of whose attempts
    is unfinished; the nearest workstream its span is part of is an attempt of the idea that
    passed and that no comparison found within noise or worse; and an idea has one kept
    measurement at most. *)
Theorem kept_idea_passed `{!SpanItemsLaw _} state run perfs p r :
  project_performance state run = Ok perfs -> p ∈ perfs -> r ∈ performance_points p ->
  performance_outcome r = IdeaOutcome.KEPT ->
  exists idea owner_ span owners n verdicts,
    performance_idea r = Some idea /\ comparisons (spans_of state) = Ok verdicts /\
    (forall key i, owners !! key = Some i <->
       exists s, (key, s) ∈ spans_of state /\ idea_of key s = Ok (Some i)) /\
    nearest (spans_of state) owners n (point_span (performance_point r)) owner_ /\
    (owner_, span) ∈ spans_of state /\ idea_of owner_ span = Ok (Some idea) /\ passed span = true /\
    verdicts !! owner_ <> Some ComparisonVerdict.WITHIN_NOISE /\ verdicts !! owner_ <> Some ComparisonVerdict.WORSE /\
    (forall key attempt, (key, attempt) ∈ spans_of state -> idea_of key attempt = Ok (Some idea) -> unfinished attempt = false) /\
    (forall r', r' ∈ performance_points p -> performance_outcome r' = IdeaOutcome.KEPT ->
       performance_idea r' = Some idea -> measurement_seq r' = measurement_seq r).
Proof.
  intros (owners & groups & verdicts & Hi & Hv & Hall)%project_performance_Ok [k Hp]%list_elem_of_lookup Hr Hkept.
  destruct (Forall2_lookup_r _ _ _ _ _ Hall Hp) as (objective & _ & Ho).
  destruct (kept_reading _ _ _ _ _ _ _ _ _ Ho Hr Hkept) as [(r0 & Hof & Eidea & Ek) Hone].
  pose proof (ideas_spec _ _ _ (spans_of_keys state) Hi) as [_ I2 I3 _ _].
  unfold reading_of in Hof. cbn [metric_version_point metric_version_seq] in Hof.
  apply rbind_Ok in Hof as (o & Hout & [= <-]). cbn [performance_outcome performance_idea] in *. subst o.
  destruct (owner _ _ _) as [w|] eqn:Eo.
  2: { cbn in Hout. unfold outcome in Hout. apply rbind_Ok in Hout as (input & _ & Hout). by destruct input. }
  unfold owner in Eo. destruct (owner_from _ _ _ _ _) as [found|] eqn:Ef; cbn in Eo; [|done]. subst found.
  apply owner_from_sound in Ef as [n Hn].
  destruct (owners !! w) as [idea|] eqn:Ew; [|by apply nearest_owned in Hn; rewrite Ew in Hn].
  apply outcome_kept in Hout as (Hfin & _ & _ & _ & Hown). destruct (Hown _ eq_refl) as (span & Hs & Hin & Hpass & V1 & V2).
  apply find_span_elem in Hs. apply I2 in Ew as Hw. destruct Hw as (s & Hs' & Hidea).
  assert (s = span) as ->. { pose proof (key_inj fst _ _ _ (spans_of_keys state) Hs Hs' eq_refl). congruence. }
  exists idea, w, span, owners, n, verdicts. split_and!; try done.
  - intros key attempt Hat Hid. apply Hfin, I3. by exists key.
  - intros r' Hr' Hk' Hid'. by eapply Hone.
Qed.

(** ** Decisions *)

Lemma decision_of_kept points spans verdicts idea attempts d :
  (forall r, r ∈ points -> new_best r = true <-> performance_outcome r = IdeaOutcome.KEPT) ->
  decision_of points spans verdicts (idea, attempts) = Ok d ->
  decision_idea d = idea /\ (decision_outcome d = IdeaOutcome.KEPT <-> decision_new_best d = true) /\
  (decision_new_best d = true <->
     exists r, r ∈ points /\ performance_idea r = Some idea /\ performance_outcome r = IdeaOutcome.KEPT).
Proof.
  intros Hkept. unfold decision_of. set (mine := List.filter _ points). set (chosen := match next_such _ (rev mine) with Some _ => _ | None => _ end).
  intros (o & _ & (out & _ & [= <-])%rbind_Ok)%rbind_Ok. cbn [decision_idea decision_outcome decision_new_best].
  assert (Hmine : forall r, r ∈ mine <-> r ∈ points /\ performance_idea r = Some idea).
  { intros r. unfold mine. rewrite elem_of_filterb. by rewrite eqb_true. }
  assert (Hbest : any new_best mine = true <->
    exists r, r ∈ points /\ performance_idea r = Some idea /\ performance_outcome r = IdeaOutcome.KEPT).
  { rewrite any_true. split; intros (r & Hr).
    - destruct Hr as [[Hr Hid]%Hmine Hn]. exists r. split_and!; [done..|by apply Hkept].
    - destruct Hr as (Hr & Hid & Hk). exists r. split; [by apply Hmine|by apply Hkept]. }
  split; [done|]. split; [|exact Hbest]. destruct (any new_best mine) eqn:Eb; [done|]. split; [|done]. intros Hk. exfalso.
  assert (Hno : ~ exists r, r ∈ points /\ performance_idea r = Some idea /\ performance_outcome r = IdeaOutcome.KEPT)
    by (intros Hex; by apply Hbest in Hex).
  destruct (eqb out IdeaOutcome.KEPT) eqn:Eo; [|by apply eqb_neq in Eo].
  destruct chosen as [r|] eqn:Ec; [|done]. apply Hno. exists r.
  assert (r ∈ mine) as [? ?]%Hmine; [|by split_and!]. unfold chosen in Ec.
  destruct (next_such _ (rev mine)) as [x|] eqn:En.
  - injection Ec as ->. apply next_such_Some in En as [Hin _]. apply list_elem_of_In, in_rev. by apply list_elem_of_In.
  - by apply last_Some_elem_of.
Qed.

(** Every idea is decided once, and by its readings: the decisions of an objective name each idea
    that an attempt of the run is of, and no other, once; and an idea is kept exactly when one of
    its readings is. *)
Theorem ideas_decided_once `{!SpanItemsLaw _} state run perfs p :
  project_performance state run = Ok perfs -> p ∈ perfs ->
  NoDup (map decision_idea (performance_ideas p)) /\
  (forall idea, idea ∈ map decision_idea (performance_ideas p) <->
     exists key span, (key, span) ∈ spans_of state /\ idea_of key span = Ok (Some idea)) /\
  forall d, d ∈ performance_ideas p ->
    (decision_outcome d = IdeaOutcome.KEPT <->
     exists r, r ∈ performance_points p /\ performance_idea r = Some (decision_idea d) /\
       performance_outcome r = IdeaOutcome.KEPT).
Proof.
  intros (owners & groups & verdicts & Hi & _ & Hall)%project_performance_Ok [k Hp]%list_elem_of_lookup.
  destruct (Forall2_lookup_r _ _ _ _ _ Hall Hp) as (objective & _ & Ho).
  pose proof (ideas_spec _ _ _ (spans_of_keys state) Hi) as [_ _ _ I4 I5].
  destruct (objective_decided _ _ _ _ _ _ _ _ Ho) as [D1 _ _ _ _].
  apply objective_performance_Ok in Ho as (_ & _ & Hd & _).
  assert (Hdec : Forall2 (fun group d => decision_of (performance_points p) (spans_of state) verdicts group = Ok d)
    groups (performance_ideas p)).
  { clear -Hd. revert Hd. generalize (performance_ideas p). induction groups as [|g groups IH]; intros ds; cbn [decisions]; [by intros [= <-]|].
    intros (d & Hd & (rest & Hrest & [= <-])%rbind_Ok)%rbind_Ok. constructor; [done|by apply IH]. }
  assert (Hnames : map decision_idea (performance_ideas p) = map fst groups).
  { clear -Hdec D1. induction Hdec as [|[idea attempts] d groups ds Hd _ IH]; [done|]. cbn [map fst].
    rewrite IH. by destruct (decision_of_kept _ _ _ _ _ _ D1 Hd) as [-> _]. }
  rewrite Hnames. split; [done|]. split; [done|]. intros d [i Hdi]%list_elem_of_lookup.
  destruct (Forall2_lookup_r _ _ _ _ _ Hdec Hdi) as ([idea attempts] & _ & Hd').
  destruct (decision_of_kept _ _ _ _ _ _ D1 Hd') as (-> & -> & ->). done.
Qed.
End Performance.

(** ** The order of the spans *)

Lemma ltb_total a b : String.ltb a b = true -> String.ltb b a = false.
Proof.
  unfold String.ltb. rewrite (String.compare_antisym a b). by destruct (b ?= a)%string.
Qed.

Lemma ltb_not_le a b : String.ltb b a = false <-> String.leb a b = true.
Proof.
  unfold String.ltb, String.leb. rewrite (String.compare_antisym b a). by destruct (a ?= b)%string.
Qed.

Lemma item_not_before a b : not_before item_before a b <->
  first_seq a < first_seq b \/ (first_seq a = first_seq b /\ String.leb a.1 b.1 = true).
Proof.
  unfold not_before, item_before. rewrite orb_false_iff, andb_false_iff, ltb_not_le.
  destruct (Z.lt_trichotomy (first_seq a) (first_seq b)) as [?|[?|?]]; lia.
Qed.

Lemma leb_trans a b c : String.leb a b = true -> String.leb b c = true -> String.leb a c = true.
Proof.
  intros Hab Hbc. apply Is_true_true. change (String.le a c). transitivity b; by apply Is_true_true.
Qed.

Lemma spans_of_any (items items' : SpanItems) state :
  SpanItemsLaw items -> SpanItemsLaw items' -> @spans_of items state = @spans_of items' state.
Proof.
  intros L L'. unfold spans_of. f_equal. apply sorted_by_unique.
  - intros x y. unfold item_before. rewrite orb_true_iff, orb_false_iff, andb_true_iff, andb_false_iff.
    intros [?|[? ?%ltb_total]]; lia.
  - intros x y z. rewrite !item_not_before. intros [?|[? ?]] [?|[? ?]]; try lia.
    right. split; [lia|by eapply leb_trans].
  - by rewrite (@span_items_perm items), (@span_items_perm items').
  - intros [kx x] [ky y] Hx Hy. rewrite !item_not_before. cbn [fst]. intros [?|[? ?]] [?|[? ?]]; try lia.
    assert (kx = ky) as <- by (by apply String.leb_antisym).
    rewrite (@span_items_perm items L) in Hx, Hy. apply elem_of_map_to_list in Hx, Hy. congruence.
Qed.

(** The order of the dict of spans decides nothing: whatever order it iterates in, the performance
    of the run is the same. *)
Theorem span_order_decides_nothing `{GateAttrs} `{HeadAttrs} (items items' : SpanItems) state run :
  SpanItemsLaw items -> SpanItemsLaw items' ->
  @project_performance _ _ items state run = @project_performance _ _ items' state run.
Proof.
  intros L L'. unfold project_performance. by rewrite (spans_of_any items items' state L L').
Qed.

(** ** A run of three ideas *)

Local Open Scope string_scope.

Definition sample_head_attrs : HeadAttrs :=
  {| turn_usage _ := Ok None; workstream_attrs _ := Ok {| probe := false; hypothesis_id := "" |};
     comparison_verdict payload := Ok (match payload with b :: _ => b | [] => 0 end) |}.
Definition sample_subject : GateAttrs := fun payload => Ok (match payload with b :: _ => b | [] => 0 end).
Definition sample_items : SpanItems := map_to_list.
Lemma sample_items_law : SpanItemsLaw sample_items.
Proof. intros m. reflexivity. Qed.

Definition sample_span (id parent kind verdict : string) (payload : list byte) (links : list Link) : Span :=
  {| span_id := id; span_parent := parent; span_status := 4;
     span_label := Some {| label_kind := kind; label_attrs := Some {| type_url := ""; any_value := payload |};
       label_links := links; label_verdict := verdict; label_rest := "" |}; span_rest := "" |}.

Definition sample_history (n : Z) (span : Span) : list SpanVersion := [{| span_version_seq := n; span_version_span := span |}].

Definition sample_point (span : string) (n value : Z) : MetricVersion :=
  {| metric_version_seq := n; metric_version_point := {| point_series := "latency"; point_value := of_int value;
       point_span := span; point_clock := of_int n |} |}.

Definition sample_described : RunDescription :=
  {| described_strategy := "search"; described_input := "tree"; described_input_measurement := None;
     described_objectives := [{| objective_series := "latency"; objective_direction := Direction.MIN; objective_rest := "" |}];
     described_rest := "" |}.

(** The input reads 10; [w1] passed with 8, [w2] failed with 5, [w3] passed with 9. *)
Definition sample_search : Keyframe := fresh_keyframe
  <| spans := {["g0" := sample_history 2 (sample_span "g0" "" "gate" "passed" [GATE_SUBJECT_INPUT] []);
               "w1" := sample_history 4 (sample_span "w1" "" "workstream" "passed" [] []);
               "g1" := sample_history 5 (sample_span "g1" "w1" "gate" "passed" [2] []);
               "w2" := sample_history 7 (sample_span "w2" "" "workstream" "failed" [] []);
               "w3" := sample_history 9 (sample_span "w3" "" "workstream" "accepted" [] [])]} |>
  <| metrics := [{| history_series := "latency";
       history_points := [sample_point "g0" 3 10; sample_point "g1" 6 8; sample_point "w2" 8 5; sample_point "w3" 10 9] |}] |>.

Definition sample_performance : list SeriesPerformance :=
  match @project_performance sample_subject sample_head_attrs sample_items sample_search sample_described with
  | Ok perfs => perfs
  | Err _ => []
  end.

Example sample_stands : map (fun p => (performance_best p, map performance_outcome (performance_points p))) sample_performance =
  [(Some (of_int 8), [IdeaOutcome.INPUT; IdeaOutcome.KEPT; IdeaOutcome.FAILED; IdeaOutcome.NOT_KEPT])].
Proof. vm_compute. reflexivity. Qed.

Lemma sample_performed :
  @project_performance sample_subject sample_head_attrs sample_items sample_search sample_described = Ok sample_performance.
Proof. vm_compute. reflexivity. Qed.

Lemma standing_only_improves_witness :
  exists p, sample_performance = [p] /\ stands (performance_points p) = [of_int 8] /\
  StronglySorted (fun a b => better Direction.MIN b a = true) (option_list (performance_input p) ++ stands (performance_points p)).
Proof.
  eexists. split; [vm_compute; reflexivity|]. split; [vm_compute; reflexivity|].
  pose proof (@standing_only_improves sample_subject sample_head_attrs sample_items _ _ _ sample_performed) as Hall.
  vm_compute in Hall |- *. by inversion_clear Hall as [|? ? ? ? (_ & _ & Hs & _) _].
Defined.

Lemma kept_idea_passed_witness :
  exists p r, p ∈ sample_performance /\ r ∈ performance_points p /\ performance_outcome r = IdeaOutcome.KEPT /\
  exists idea, performance_idea r = Some idea /\
    forall r', r' ∈ performance_points p -> performance_outcome r' = IdeaOutcome.KEPT ->
      performance_idea r' = Some idea -> measurement_seq r' = measurement_seq r.
Proof.
  set (p := match sample_performance with p :: _ => p | [] => {| performance_series := ""; performance_input := None;
    performance_best := None; performance_points := []; performance_ideas := []; unknown_direction := true |} end).
  set (r := match performance_points p with _ :: r :: _ => r | _ => {| measurement_seq := 0;
    performance_point := metric_version_point (sample_point "" 0 0); performance_idea := None;
    performance_outcome := IdeaOutcome.INPUT; new_best := false |} end).
  assert (Hp : p ∈ sample_performance) by (apply (list_elem_of_lookup_2 _ 0); vm_compute; reflexivity).
  assert (Hr : r ∈ performance_points p) by (apply (list_elem_of_lookup_2 _ 1); vm_compute; reflexivity).
  assert (Hk : performance_outcome r = IdeaOutcome.KEPT) by (vm_compute; reflexivity).
  destruct (@kept_idea_passed sample_subject sample_head_attrs sample_items sample_items_law _ _ _ p r sample_performed Hp Hr Hk)
    as (idea & _ & _ & _ & _ & _ & Hi & _ & _ & _ & _ & _ & _ & _ & _ & _ & Hone).
  exists p, r. split; [exact Hp|]. split; [exact Hr|]. split; [exact Hk|]. exists idea. split; [exact Hi|exact Hone].
Defined.

Lemma ideas_decided_once_witness :
  exists p, p ∈ sample_performance /\ map decision_idea (performance_ideas p) = ["span:w1"; "span:w2"; "span:w3"] /\
  NoDup (map decision_idea (performance_ideas p)).
Proof.
  set (p := match sample_performance with p :: _ => p | [] => {| performance_series := ""; performance_input := None;
    performance_best := None; performance_points := []; performance_ideas := []; unknown_direction := true |} end).
  assert (Hp : p ∈ sample_performance) by (apply (list_elem_of_lookup_2 _ 0); vm_compute; reflexivity).
  destruct (@ideas_decided_once sample_subject sample_head_attrs sample_items sample_items_law _ _ _ p sample_performed Hp) as [Hn _].
  exists p. split; [exact Hp|]. split; [vm_compute; reflexivity|exact Hn].
Defined.

(** Another order of a dict *)
Definition sample_reversed : SpanItems := fun m => rev (map_to_list m).
Lemma sample_reversed_law : SpanItemsLaw sample_reversed.
Proof. intros m. unfold span_items, sample_reversed. symmetry. apply Permutation_rev. Qed.

Lemma span_order_decides_nothing_witness :
  span_items (SpanItems := sample_reversed) (spans sample_search) <> span_items (SpanItems := sample_items) (spans sample_search) /\
  @project_performance sample_subject sample_head_attrs sample_reversed sample_search sample_described = Ok sample_performance.
Proof.
  split; [vm_compute; discriminate|].
  rewrite (@span_order_decides_nothing sample_subject sample_head_attrs sample_reversed sample_items sample_search
    sample_described sample_reversed_law sample_items_law).
  exact sample_performed.
Defined.
