(* ===== verification/Upgrade.v ===== *)
(** * The read upgrade of a stored skeleton

    [upgrade_skeleton] of [libs/vs-runlog/src/vs_runlog/_upgrade.py]: what a previous writer's
    keyframe leaves implicit, restored from its histories.  It agrees with upgrading the records
    one by one before they are folded. *)

From stdpp Require Import sorting.
From S2P Require Import Prelude PySorted PyFloat Identities LogRecord Skeleton Epoch Head Standing.

(** ** Definitions *)

(** A row of [events]; a declaration is the version at its index of [result.epochs] *)
Inductive UpgradeEvent :=
  | Declares (index : nat) (epoch : EpochStarted)
  | Spans (span : Span)
  | Measures (point : MetricPoint).

Definition epoch_events (versions : list EpochVersion) : list (Z * UpgradeEvent) :=
  omap (fun row => option_map (fun e => (epoch_version_seq row.2, Declares row.1 e)) (epoch_version_epoch row.2))
    (imap pair versions).
Definition span_events (items : list (string * list SpanVersion)) : list (Z * UpgradeEvent) :=
  flat_map (fun item => map (fun v => (span_version_seq v, Spans (span_version_span v))) item.2) items.
Definition point_events (histories : list MetricHistory) : list (Z * UpgradeEvent) :=
  flat_map (fun h => map (fun v => (metric_version_seq v, Measures (metric_version_point v))) (history_points h)) histories.

(** The upgrade so far: the versions the keyframe had, as amended in place, and those appended *)
Record Upgrading := { upgrading : InputUpgrade; declared : list EpochVersion; inferred : list EpochVersion }.
#[export] Instance eta_Upgrading : Eta Upgrading := fun s =>
  {| upgrading := upgrading s; declared := declared s; inferred := inferred s |}.

Definition with_declaration (amended : EpochStarted) (v : EpochVersion) : EpochVersion :=
  {| epoch_version_seq := epoch_version_seq v; epoch_version_epoch := Some amended;
     epoch_version_started_at := epoch_version_started_at v; starts_epoch := starts_epoch v |}.

Definition inferred_version (n : Z) (amended : EpochStarted) : EpochVersion :=
  {| epoch_version_seq := n; epoch_version_epoch := Some amended; epoch_version_started_at := None; starts_epoch := false |}.

Definition version_before (a b : EpochVersion) : bool := epoch_version_seq a <? epoch_version_seq b.
Definition event_before (a b : Z * UpgradeEvent) : bool := a.1 <? b.1.

Section Upgrade.
Context `{GateAttrs} `{HeadAttrs} `{SpanItems}.

(** One round of the loop of [upgrade_in_place] *)
Definition upgrade_event (s : Upgrading) (event : Z * UpgradeEvent) : result string Upgrading :=
  match event.2 with
  | Declares i epoch =>
    let (amended, u) := declaration (upgrading s) epoch in
    Ok {| upgrading := u; declared := alter (with_declaration amended) i (declared s); inferred := inferred s |}
  | Spans span =>
    let* u := upgrade_span (upgrading s) span in Ok (s <| upgrading := u |>)
  | Measures point =>
    match measurement (upgrading s) point with
    | (Some amended, u) =>
      Ok {| upgrading := u; declared := declared s; inferred := inferred s ++ [inferred_version event.1 amended] |}
    | (None, u) => Ok (s <| upgrading := u |>)
    end
  end.

Definition upgrade_rows (state : Keyframe) : list (Z * UpgradeEvent) :=
  epoch_events (epochs state) ++ span_events (span_items (spans state)) ++ point_events (metrics state).

Definition not_upgraded (state : Keyframe) : Upgrading :=
  {| upgrading := fresh_upgrade; declared := epochs state; inferred := [] |}.

Definition upgrade_all (state : Keyframe) : result string Upgrading :=
  rfold upgrade_event (not_upgraded state) (sorted_by event_before (upgrade_rows state)).

(** Whether the head that a keyframe states is of its prefix *)
Definition head_current (state : Keyframe) : bool :=
  match head state with
  | Some head => performance_stated head && (committed_seq head =? through_seq state)
  | None => false
  end.

(** [upgrade_in_place]: the state it leaves and the measured value it returns *)
Definition upgrade_in_place (state : Keyframe) : result string (Keyframe * option float) :=
  let* upgraded := upgrade_all state in
  let state := state <| epochs := sorted_by version_before (declared upgraded ++ inferred upgraded) |> in
  let* head_ := if head_current state then Ok (head state) else project_head state None in
  Ok (state <| head := head_ |>, measured_value_of (upgrading upgraded)).

(** [upgrade_skeleton] *)
Definition upgrade_skeleton (state : Keyframe) : result string Keyframe :=
  let* upgraded := upgrade_in_place state in Ok upgraded.1.

(** ** A scan of the records *)

(** What the full scan of [_observe._recover_prefix] keeps *)
Record Scan := { scan_epoch : CurrentEpoch; scan_upgrade : InputUpgrade; scan_state : Keyframe }.

(** [Keyframe()] *)
Definition bare_keyframe : Keyframe := fresh_keyframe <| failures_tracked := false |> <| records_tracked := false |>.

Definition no_scan : Scan := {| scan_epoch := no_epoch; scan_upgrade := fresh_upgrade; scan_state := bare_keyframe |}.

(** One round of the loop of [_recover_prefix] *)
Definition scan_record (s : Scan) (record : LogRecord) : result string Scan :=
  let facts := current_epoch [record] (scan_epoch s) in
  let* applied := upgrade_apply (scan_upgrade s) record in
  let (record, u) := applied in
  let* state :=
    if 0 <? seq record then append_skeleton ((scan_state s) <| through_seq := seq record - 1 |>) record
    else Ok (scan_state s) in
  Ok {| scan_epoch := facts; scan_upgrade := u; scan_state := state |}.

End Upgrade.

(** ** Sorting the rows *)

Lemma sorted_by_ext {A} (before before' : A -> A -> bool) l :
  (forall l1 x l2 y, l = l1 ++ x :: l2 -> y ∈ l1 -> before x y = before' x y) -> sorted_by before l = sorted_by before' l.
Proof.
  induction l as [|x l IH] using rev_ind; [done|]. intros Hext.
  rewrite !sorted_by_snoc, IH.
  2: { intros l1 y l2 z -> Hz. apply (Hext l1 y (l2 ++ [x])); [by rewrite <- app_assoc|done]. }
  assert (Hx : forall y, y ∈ sorted_by before' l -> before x y = before' x y).
  { intros y Hy. rewrite elem_sorted_by in Hy. by apply (Hext l x []). }
  clear IH Hext. induction (sorted_by before' l) as [|y l' IHl]; [done|]. cbn [insert_by]. rewrite (Hx y) by left.
  destruct (before' x y); [done|]. rewrite IHl; [done|]. intros z Hz. apply Hx. by right.
Qed.

Definition event_class (event : UpgradeEvent) : Z :=
  match event with Declares _ _ => 0 | Spans _ => 1 | Measures _ => 2 end.

(** The rows in the order the upgrade takes them: by sequence, a declaration before a span before a
    measurement *)
Definition event_key (row : Z * UpgradeEvent) : Z * Z := (row.1, event_class row.2).
Definition event_before2 (a b : Z * UpgradeEvent) : bool :=
  (a.1 <? b.1) || ((a.1 =? b.1) && (event_class a.2 <? event_class b.2)).

Lemma not_before2 a b : not_before event_before2 a b <->
  a.1 < b.1 \/ (a.1 = b.1 /\ event_class a.2 <= event_class b.2).
Proof. unfold not_before, event_before2. lia. Qed.

Lemma epoch_events_class versions row : row ∈ epoch_events versions -> event_class row.2 = 0.
Proof.
  unfold epoch_events. rewrite list_elem_of_omap. intros ([i v] & _ & Hrow). cbn in Hrow.
  destruct (epoch_version_epoch v); [|done]. by injection Hrow as <-.
Qed.

Lemma span_events_class items row : row ∈ span_events items -> event_class row.2 = 1.
Proof.
  unfold span_events. rewrite list_elem_of_In, in_flat_map. intros (item & _ & Hrow).
  apply in_map_iff in Hrow as (v & <- & _). done.
Qed.

Lemma point_events_class histories row : row ∈ point_events histories -> event_class row.2 = 2.
Proof.
  unfold point_events. rewrite list_elem_of_In, in_flat_map. intros (h & _ & Hrow).
  apply in_map_iff in Hrow as (v & <- & _). done.
Qed.

(** Declarations, spans and measurements in turn are sorted by class where they are of one record. *)
Lemma rows_sorted2 E S M :
  (forall row, row ∈ E -> event_class row.2 = 0) -> (forall row, row ∈ S -> event_class row.2 = 1) ->
  (forall row, row ∈ M -> event_class row.2 = 2) ->
  sorted_by event_before (E ++ S ++ M) = sorted_by event_before2 (E ++ S ++ M).
Proof.
  intros HE HS HM. apply sorted_by_ext. intros l1 x l2 y Hl Hy.
  assert (Hin : forall z, z ∈ l1 ++ x :: l2 -> z ∈ E \/ z ∈ S \/ z ∈ M).
  { intros z. rewrite <- Hl, !elem_of_app. tauto. }
  assert (Hcl : event_class y.2 <= event_class x.2).
  { assert (Hmono : StronglySorted (fun a b => event_class a.2 <= event_class b.2) (E ++ S ++ M)).
    { clear -HE HS HM. assert (Hone : forall c L, (forall row, row ∈ L -> event_class row.2 = c) ->
        StronglySorted (fun a b : Z * UpgradeEvent => event_class a.2 <= event_class b.2) L).
      { intros c L. induction L as [|r L IH]; intros HL; constructor; [apply IH; intros; apply HL; by right|].
        apply Forall_forall. intros z Hz. rewrite (HL r), (HL z); [lia|by right|by left]. }
      apply StronglySorted_app_2; [|by eapply Hone|apply StronglySorted_app_2; [|by eapply Hone..]].
      - intros a b Ha [Hb|Hb]%elem_of_app; rewrite (HE a) by done; [rewrite (HS b) by done|rewrite (HM b) by done]; lia.
      - intros a b Ha Hb. rewrite (HS a), (HM b) by done. lia. }
    rewrite Hl in Hmono. apply StronglySorted_app in Hmono as (Hmono & _). apply Hmono; [done|by left]. }
  unfold event_before, event_before2. lia.
Qed.

Lemma rows_any_order l l' : l ≡ₚ l' -> NoDup (map event_key l) -> sorted_by event_before2 l = sorted_by event_before2 l'.
Proof.
  intros Hl Hnd. apply sorted_by_unique; [|..|done|].
  - intros x y. unfold event_before2. lia.
  - intros x y z. rewrite !not_before2. lia.
  - intros x y Hx Hy. rewrite !not_before2. intros H1 H2. apply (key_inj event_key l); [done..|].
    unfold event_key. f_equal; lia.
Qed.

(** ** What a record adds *)

(** The declaration that a record's own input fact amends *)
Definition fact_epoch (versions : list EpochVersion) (r : LogRecord) : option EpochStarted :=
  match input_measurement r, last versions with
  | Some m, Some v =>
    match epoch_version_epoch v with
    | Some e => match started_run e with Some run => Some (with_measurement e run (Some m)) | None => None end
    | None => None
    end
  | _, _ => None
  end.

Lemma append_input_fact_epoch state r : append_input_fact state r =
  match fact_epoch (epochs state) r with
  | Some e => state <| epochs := epochs state ++ [inferred_version (seq r) e] |>
  | None => state
  end.
Proof.
  unfold append_input_fact, fact_epoch. destruct (input_measurement r); [|done]. destruct (last (epochs state)) as [v|]; [|done].
  destruct (epoch_version_epoch v) as [e|]; [|done]. by destruct (started_run e).
Qed.

(** A record that validates states its metric's measurement, or none.  (The rule compares the values
    as numbers, so that the two may differ in the sign of a zero; such records are left out.) *)
Definition fact_matches (r : LogRecord) : Prop :=
  match input_measurement r with
  | None => True
  | Some m => exists p, body r = Some (Body.metric p) /\
      m = measured {| measured_series := point_series p; measured_value := point_value p; measured_span := point_span p |}
  end.

(** The rows a record adds to those of the keyframe before it *)
Definition new_rows (versions : list EpochVersion) (r : LogRecord) : list (Z * UpgradeEvent) :=
  match body r with
  | Some (Body.epoch_started e) | Some (Body.declaration_amended e) => [(seq r, Declares (length versions) e)]
  | Some (Body.span v) => match record_span v with Some span => [(seq r, Spans span)] | None => [] end
  | Some (Body.metric p) =>
    match fact_epoch versions r with Some e => [(seq r, Declares (length versions) e)] | None => [] end ++ [(seq r, Measures p)]
  | _ => []
  end.

Lemma epoch_events_snoc versions v : epoch_events (versions ++ [v]) =
  epoch_events versions ++
  match epoch_version_epoch v with Some e => [(epoch_version_seq v, Declares (length versions) e)] | None => [] end.
Proof.
  unfold epoch_events. rewrite imap_app, omap_app. f_equal. cbn. rewrite Nat.add_0_r. by destruct (epoch_version_epoch v).
Qed.

Lemma point_events_append histories n p : point_events (append_metric histories n p) ≡ₚ point_events histories ++ [(n, Measures p)].
Proof.
  unfold point_events. induction histories as [|h histories IH]; cbn [append_metric flat_map]; [done|].
  destruct (eqb _ _); cbn [flat_map].
  - cbn. rewrite map_app, <- !app_assoc. apply Permutation_app_head. cbn. by rewrite Permutation_app_comm.
  - by rewrite IH, app_assoc.
Qed.

#[export] Instance span_events_proper : Proper ((≡ₚ) ==> (≡ₚ)) span_events.
Proof. intros items items'. unfold span_events. by intros ->. Qed.

Section Rows.
Context `{GateAttrs} `{HeadAttrs} `{SpanItems} `{!SpanItemsLaw _}.

Lemma span_events_append (state : Keyframe) n span :
  span_events (span_items (spans (append_span state n span))) ≡ₚ
  span_events (span_items (spans state)) ++ [(n, Spans span)].
Proof.
  rewrite !span_items_perm. cbn. set (old := default [] (spans state !! span_id span)).
  rewrite <- (insert_delete_eq (spans state) (span_id span) (old ++ _)).
  rewrite map_to_list_insert by apply lookup_delete_eq. cbn. rewrite map_app. cbn.
  rewrite <- app_assoc, Permutation_app_comm, <- app_assoc. cbn.
  rewrite (Permutation_app_comm (span_events (map_to_list (spans state)))). cbn. constructor.
  unfold old. destruct (spans state !! span_id span) as [versions|] eqn:E; cbn.
  - rewrite <- (insert_delete_id (spans state) (span_id span) versions E) at 2.
    rewrite map_to_list_insert by apply lookup_delete_eq. cbn. apply Permutation_app_comm.
  - rewrite app_nil_r. rewrite delete_id; done.
Qed.

Lemma append_rows kf r kf' : append_skeleton kf r = Ok kf' -> fact_matches r ->
  upgrade_rows kf' ≡ₚ upgrade_rows kf ++ new_rows (epochs kf) r.
Proof.
  unfold append_skeleton, fact_matches, upgrade_rows. destruct (_ =? _); cbn [ensure rbind]; [|done].
  destruct (append_body _ r) as [s1|] eqn:Hb; cbn [rbind]; [|done]. intros [= <-] Hm. cbn [epochs spans metrics update].
  rewrite append_input_fact_epoch.
  assert (Hr : forall s, epochs (append_record_fact s r) = epochs s /\ spans (append_record_fact s r) = spans s /\
    metrics (append_record_fact s r) = metrics s).
  { intros s. unfold append_record_fact. destruct (body r) as [[]|]; try done. by destruct (steers _). }
  destruct (Hr s1) as (R1 & R2 & R3). rewrite R1.
  assert (Hfact : match body r with Some (Body.metric _) => True | _ => fact_epoch (epochs s1) r = None end).
  { unfold fact_epoch. destruct (input_measurement r); [|by destruct (body r) as [[]|]]. by destruct Hm as (p & -> & _). }
  set (rest := match fact_epoch (epochs s1) r with Some e => _ | None => _ end).
  assert (Hrest : spans rest = spans s1 /\ metrics rest = metrics s1 /\
    epochs rest = match fact_epoch (epochs s1) r with Some e => epochs s1 ++ [inferred_version (seq r) e] | None => epochs s1 end).
  { unfold rest. destruct (fact_epoch (epochs s1) r); cbn; by rewrite ?R1, R2, R3. }
  change (epoch_events (epochs rest) ++ span_events (span_items (spans rest)) ++ point_events (metrics rest) ≡ₚ
    (epoch_events (epochs kf) ++ span_events (span_items (spans kf)) ++ point_events (metrics kf)) ++ new_rows (epochs kf) r).
  destruct Hrest as (-> & -> & ->). clear rest R1 R2 R3 Hr. unfold append_body in Hb. unfold new_rows.
  destruct (body r) as [[e| |l|sp|p|st| | |nt| |e| | | | | | | |]|];
    try (injection Hb as <-; cbn [epochs spans metrics update] in *; rewrite ?Hfact, ?app_nil_r; done).
  - injection Hb as <-. cbn [epochs spans metrics update] in *. rewrite Hfact, epoch_events_snoc. cbn.
    rewrite <- !app_assoc. apply Permutation_app_head. cbn. rewrite (app_assoc (span_events _)). apply Permutation_cons_append.
  - destruct (record_span sp) as [span|]; cbn in Hb; [|done]. injection Hb as <-.
    change (epochs (append_span _ _ _)) with (epochs kf) in *. rewrite Hfact, <- app_assoc. apply Permutation_app_head.
    rewrite span_events_append. change (metrics (append_span _ _ _)) with (metrics kf). cbn [spans]. rewrite <- !app_assoc. apply Permutation_app_head.
    apply Permutation_app_comm.
  - injection Hb as <-. cbn [epochs spans metrics update] in *. rewrite point_events_append.
    destruct (fact_epoch (epochs kf) r) as [e|]; cbn [app]; [|by rewrite !app_assoc].
    rewrite epoch_events_snoc. cbn. rewrite <- !app_assoc. apply Permutation_app_head. cbn.
    solve_Permutation.
  - injection Hb as <-. cbn [epochs spans metrics update] in *. by destruct (_ <=? _); rewrite Hfact, app_nil_r.
  - injection Hb as <-. cbn [epochs spans metrics update] in *. rewrite Hfact, epoch_events_snoc. cbn.
    rewrite <- !app_assoc. apply Permutation_app_head. cbn. rewrite (app_assoc (span_events _)). apply Permutation_cons_append.
Qed.

Record rows_ok (kf : Keyframe) : Prop := {
  rows_through : forall row, row ∈ upgrade_rows kf -> row.1 <= through_seq kf;
  rows_distinct : NoDup (map event_key (upgrade_rows kf))
}.

Lemma rows_by_class kf : sorted_by event_before (upgrade_rows kf) = sorted_by event_before2 (upgrade_rows kf).
Proof.
  apply rows_sorted2; intros row; [apply epoch_events_class|apply span_events_class|apply point_events_class].
Qed.

(** A record adds none, one, or two rows, of which the declaration comes first. *)
Lemma new_rows_shape versions r : new_rows versions r = [] \/ (exists e, new_rows versions r = [(seq r, e)]) \/
  exists e e', new_rows versions r = [(seq r, e); (seq r, e')] /\ event_class e < event_class e'.
Proof.
  unfold new_rows. destruct (body r) as [[e| |l|sp|p|st| | |nt| |e| | | | | | | |]|]; try (by left); try (by right; left; eexists).
  - destruct (record_span sp); [by right; left; eexists|by left].
  - destruct (fact_epoch versions r); cbn; [right; right; by do 2 eexists|by right; left; eexists].
Qed.

Lemma rows_step kf r kf' : rows_ok kf -> append_skeleton kf r = Ok kf' -> fact_matches r ->
  rows_ok kf' /\
  sorted_by event_before (upgrade_rows kf') = sorted_by event_before (upgrade_rows kf) ++ new_rows (epochs kf) r.
Proof using SpanItemsLaw0.
  intros [Hpast Hnd] Happ Hm. destruct (append_skeleton_Ok _ _ _ Happ) as [Hseq Hthrough].
  pose proof (append_rows _ _ _ Happ Hm) as Hperm.
  assert (Hkey : forall row, row ∈ new_rows (epochs kf) r -> row.1 = seq r).
  { intros row. destruct (new_rows_shape (epochs kf) r) as [->|[(e & ->)|(e & e' & -> & _)]]; set_solver. }
  assert (Hnd' : NoDup (map event_key (upgrade_rows kf ++ new_rows (epochs kf) r))).
  { rewrite map_app. apply NoDup_app. split; [done|]. split.
    - intros k (row & -> & Hrow)%list_elem_of_fmap (row' & E & Hrow')%list_elem_of_fmap.
      apply Hpast in Hrow. apply Hkey in Hrow'. unfold event_key in E. injection E as E _. lia.
    - destruct (new_rows_shape (epochs kf) r) as [->|[(e & ->)|(e & e' & -> & Hlt)]]; cbn; [constructor|apply NoDup_singleton|].
      apply NoDup_cons. split; [|apply NoDup_singleton]. intros Heq%list_elem_of_singleton. injection Heq as E. lia. }
  split; [split|].
  - intros row. rewrite Hperm, elem_of_app. rewrite Hthrough. intros [?%Hpast|?%Hkey]; lia.
  - by rewrite Hperm.
  - rewrite !rows_by_class. rewrite (rows_any_order _ _ Hperm) by (by rewrite Hperm).
    assert (Hlast : forall row, row.1 = seq r -> forall x, x ∈ sorted_by event_before2 (upgrade_rows kf) -> not_before event_before2 x row).
    { intros row Hrow x. rewrite elem_sorted_by. intros Hx%Hpast. apply not_before2. lia. }
    destruct (new_rows_shape (epochs kf) r) as [->|[(e & ->)|(e & e' & -> & Hlt)]]; [by rewrite !app_nil_r|..].
    + rewrite sorted_by_snoc, insert_by_last; [done|]. apply Forall_forall. by apply Hlast.
    + change [(seq r, e); (seq r, e')] with ([(seq r, e)] ++ [(seq r, e')]). rewrite app_assoc, sorted_by_snoc, sorted_by_snoc.
      rewrite (insert_by_last _ (seq r, e)) by (apply Forall_forall; by apply Hlast).
      rewrite insert_by_last; [by rewrite <- app_assoc|]. apply Forall_forall. intros x [Hx|Hx%list_elem_of_singleton]%elem_of_app; [by apply Hlast|].
      subst x. apply not_before2. cbn. lia.
Qed.

(** ** Later versions *)

(** A loop over earlier rows does not see the versions after those they name. *)
Definition within (n : nat) (row : Z * UpgradeEvent) : Prop :=
  match row.2 with Declares i _ => (i < n)%nat | _ => True end.

Definition extended (extra : list EpochVersion) (s : Upgrading) : Upgrading := s <| declared := declared s ++ extra |>.

Lemma upgrade_event_extended s row extra : within (length (declared s)) row ->
  upgrade_event (extended extra s) row = rbind (upgrade_event s row) (fun s' => Ok (extended extra s')) /\
  forall s', upgrade_event s row = Ok s' -> length (declared s') = length (declared s).
Proof.
  unfold within, upgrade_event, extended. destruct row as [n [i e|span|p]]; cbn.
  - intros Hi. destruct (declaration (upgrading s) e) as [amended u]. cbn. split; [by rewrite alter_app_l|].
    intros s' [= <-]. apply length_alter.
  - intros _. destruct (upgrade_span _ _); cbn; [|done]. split; [done|]. by intros s' [= <-].
  - intros _. destruct (measurement _ _) as [[amended|] u]; cbn; (split; [done|]); by intros s' [= <-].
Qed.

Lemma upgrade_rows_extended rows s extra : (forall row, row ∈ rows -> within (length (declared s)) row) ->
  rfold upgrade_event (extended extra s) rows = rbind (rfold upgrade_event s rows) (fun s' => Ok (extended extra s')) /\
  forall s', rfold upgrade_event s rows = Ok s' -> length (declared s') = length (declared s).
Proof.
  revert s. induction rows as [|row rows IH]; intros s Hrows; cbn [rfold]; [split; [done|by intros s' [= <-]]|].
  destruct (upgrade_event_extended s row extra) as [E1 E2]; [apply Hrows; by left|]. rewrite E1.
  destruct (upgrade_event s row) as [s1|e]; cbn [rbind]; [|done]. specialize (E2 _ eq_refl).
  destruct (IH s1) as [F1 F2]; [intros x Hx; rewrite E2; apply Hrows; by right|]. rewrite F1. split; [done|].
  intros s' Hs'. by rewrite (F2 _ Hs').
Qed.

Lemma upgrade_rows_within kf row : row ∈ upgrade_rows kf -> within (length (epochs kf)) row.
Proof.
  unfold upgrade_rows. rewrite !elem_of_app. intros [Hrow|[Hrow|Hrow]].
  - unfold epoch_events in Hrow. apply list_elem_of_omap in Hrow as ([i v] & Hin & Hrow). cbn in Hrow.
    destruct (epoch_version_epoch v); [|done]. injection Hrow as <-. cbn.
    apply elem_of_lookup_imap in Hin as (j & x & [= -> ->] & Hj). by eapply lookup_lt_Some.
  - apply span_events_class in Hrow. by destruct row as [? []].
  - apply point_events_class in Hrow. by destruct row as [? []].
Qed.

Lemma upgrade_all_length kf d : upgrade_all kf = Ok d -> length (declared d) = length (epochs kf).
Proof.
  apply (upgrade_rows_extended (sorted_by event_before (upgrade_rows kf)) (not_upgraded kf) []).
  intros row. rewrite elem_sorted_by. apply upgrade_rows_within.
Qed.

(** The upgrade of a keyframe that a record was appended to goes on from the upgrade before it. *)
Lemma upgrade_all_step kf r kf' extra : rows_ok kf -> append_skeleton kf r = Ok kf' -> fact_matches r ->
  epochs kf' = epochs kf ++ extra ->
  upgrade_all kf' = rbind (upgrade_all kf) (fun d => rfold upgrade_event (extended extra d) (new_rows (epochs kf) r)).
Proof using SpanItemsLaw0.
  intros Hok Happ Hm Hextra. destruct (rows_step _ _ _ Hok Happ Hm) as [_ Hsort]. unfold upgrade_all.
  rewrite Hsort, rfold_app. change (not_upgraded kf') with {| upgrading := fresh_upgrade; declared := epochs kf'; inferred := [] |}.
  rewrite Hextra. change {| upgrading := _; declared := _; inferred := _ |} with (extended extra (not_upgraded kf)).
  destruct (upgrade_rows_extended (sorted_by event_before (upgrade_rows kf)) (not_upgraded kf) extra) as [E1 _].
  { intros row. rewrite elem_sorted_by. apply upgrade_rows_within. }
  rewrite E1. by destruct (rfold upgrade_event (not_upgraded kf) _).
Qed.

(** The latest version sorts last. *)
Lemma version_latest front v back :
  (forall w, w ∈ front ++ back -> epoch_version_seq w < epoch_version_seq v) ->
  sorted_by version_before (front ++ v :: back) = sorted_by version_before (front ++ back) ++ [v].
Proof.
  intros Hlt. rewrite (sorted_by_split _ (fun w => epoch_version_seq w <? epoch_version_seq v)).
  - assert (Hf : forall l, (forall w, w ∈ l -> epoch_version_seq w < epoch_version_seq v) ->
      List.filter (fun w => epoch_version_seq w <? epoch_version_seq v) l = l /\
      List.filter (fun w => negb (epoch_version_seq w <? epoch_version_seq v)) l = []).
    { intros l. induction l as [|w l IH]; cbn; [done|]. intros Hl. rewrite (proj2 (Z.ltb_lt _ _)) by (apply Hl; by left).
      destruct IH as [-> ->]; [intros x Hx; apply Hl; by right|done]. }
    destruct (Hf front) as [F1 F2]; [intros; apply Hlt, elem_of_app; by left|].
    destruct (Hf back) as [B1 B2]; [intros; apply Hlt, elem_of_app; by right|].
    rewrite !List.filter_app. cbn [List.filter]. rewrite Z.ltb_irrefl. cbn [negb]. by rewrite F1, F2, B1, B2.
  - intros x y _ _. unfold version_before. lia.
  - intros x y Hx Hy. unfold version_before.
    assert (Hle : forall w, w ∈ front ++ v :: back -> epoch_version_seq w <= epoch_version_seq v).
    { intros w Hw. rewrite elem_of_app, elem_of_cons in Hw. destruct Hw as [?|[->|?]]; [|lia|];
        (enough (epoch_version_seq w < epoch_version_seq v) by lia); apply Hlt, elem_of_app; by auto. }
    specialize (Hle _ Hx) as Hx'. specialize (Hle _ Hy) as Hy'. lia.
Qed.

(** ** Views *)

(** The facts of a keyframe, but for its declarations *)
Definition view (kf : Keyframe) (E : list EpochVersion) : Keyframe :=
  {| through_seq := through_seq kf; log_offset := 0; spans := spans kf; metrics := metrics kf; streams := streams kf;
     epochs := E; lifecycles := lifecycles kf; failures := failures kf; failures_tracked := false;
     intents := intents kf; records_tracked := false; record_facts := record_facts kf; head := None |}.

Definition fact_versions (versions : list EpochVersion) (r : LogRecord) : list EpochVersion :=
  match fact_epoch versions r with Some e => [inferred_version (seq r) e] | None => [] end.

(** A record, or the record as the upgrade amends it *)
Inductive amended (r : LogRecord) : LogRecord -> Prop :=
  | amended_not : amended r r
  | amended_header e e' : body r = Some (Body.epoch_started e) -> amended r (with_body r (Body.epoch_started e'))
  | amended_declaration e e' : body r = Some (Body.declaration_amended e) -> amended r (with_body r (Body.declaration_amended e'))
  | amended_fact p m : body r = Some (Body.metric p) -> amended r (with_input r m).

Lemma append_fact_view kf E r s : s = view kf E ->
  (append_input_fact s r) <| through_seq := seq r |> = view (kf <| through_seq := seq r |>) (E ++ fact_versions E r).
Proof.
  intros ->. rewrite append_input_fact_epoch. unfold fact_versions. cbn. by destruct (fact_epoch E r); [|rewrite app_nil_r].
Qed.

Lemma append_epochs kf r kf' : append_skeleton kf r = Ok kf' ->
  epochs kf' = epochs kf ++ body_epochs r ++ fact_versions (epochs kf ++ body_epochs r) r.
Proof.
  unfold append_skeleton. destruct (_ =? _); cbn [ensure rbind]; [|done].
  destruct (append_body _ r) as [s1|] eqn:Hb; cbn [rbind]; [|done]. intros [= <-].
  assert (He : epochs (append_record_fact s1 r) = epochs kf ++ body_epochs r).
  { transitivity (epochs s1); [unfold append_record_fact; destruct (body r) as [[]|]; cbn; try done; by destruct (steers _)|].
    unfold append_body, body_epochs in *. destruct (body r) as [[]|]; cbn in Hb; unfold required_span in Hb;
      repeat (destruct_match; cbn in Hb; try done); simplify_eq; cbn; by rewrite ?app_nil_r. }
  cbn [epochs update]. rewrite append_input_fact_epoch, He. unfold fact_versions.
  destruct (fact_epoch _ r); cbn [epochs update]; [by rewrite <- app_assoc|by rewrite He, app_nil_r].
Qed.

(** Appending is the same to a view of the keyframe. *)
Lemma append_view kf r kf' E r' : append_skeleton kf r = Ok kf' -> amended r r' ->
  append_skeleton (view kf E) r' = Ok (view kf' (E ++ body_epochs r' ++ fact_versions (E ++ body_epochs r') r')).
Proof.
  intros Happ Ham. unfold append_skeleton in *.
  assert (Hseq : seq r' = seq r) by (by destruct Ham).
  change (through_seq (view kf E)) with (through_seq kf). rewrite Hseq. destruct (_ =? _); cbn [ensure rbind] in *; [|done].
  destruct (append_body (kf <| head := None |>) r) as [s1|] eqn:Hb; cbn [rbind] in Happ; [|done].
  assert (Hb' : rbind (append_body ((view kf E) <| head := None |>) r') (fun s => Ok (append_record_fact s r')) =
                Ok (view (append_record_fact s1 r) (E ++ body_epochs r'))).
  { destruct Ham as [|e e' Hr|e e' Hr|p m Hr]; unfold append_body, append_record_fact, body_epochs in *; cbn [body with_body with_input] in *;
      try rewrite Hr in *; cbn [rbind] in *.
    - destruct (body r) as [[]|]; cbn in Hb |- *; unfold required_span in *;
        repeat (destruct_match; cbn in Hb |- *; try done); simplify_eq; cbn; unfold view; cbn; by rewrite ?app_nil_r.
    - injection Hb as <-. done.
    - injection Hb as <-. done.
    - injection Hb as <-. unfold view. cbn. by rewrite app_nil_r. }
  destruct (append_body ((view kf E) <| head := None |>) r') as [s1'|]; cbn [rbind] in Hb' |- *; [|done]. injection Hb' as Hb'.
  injection Happ as <-. f_equal. rewrite <- Hseq, (append_fact_view _ _ _ _ Hb'), <- app_assoc, Hseq. unfold view. cbn.
  rewrite append_input_fact_epoch. by destruct (fact_epoch _ r).
Qed.

(** ** The agreement *)

(** A declaration, but for the input it says was measured *)
Definition undecided (e : EpochStarted) : EpochStarted :=
  match started_run e with Some run => with_measurement e run None | None => e end.

Definition latest_epoch (versions : list EpochVersion) : option EpochStarted :=
  match last versions with Some v => epoch_version_epoch v | None => None end.

Definition upgraded_epochs (d : Upgrading) : list EpochVersion := sorted_by version_before (declared d ++ inferred d).

(** What the upgrade of a keyframe and a scan of its records have in common *)
Record agree (kf : Keyframe) (d : Upgrading) (s : Scan) : Prop := {
  agree_through : 0 <= through_seq kf;
  agree_upgrade : scan_upgrade s = upgrading d;
  agree_state : scan_state s = view kf (upgraded_epochs d);
  agree_past : forall v, v ∈ declared d ++ inferred d -> epoch_version_seq v <= through_seq kf;
  agree_latest : latest_epoch (upgraded_epochs d) = upgrade_epoch (upgrading d);
  agree_undecided : option_map undecided (latest_epoch (epochs kf)) = option_map undecided (upgrade_epoch (upgrading d))
}.

Lemma undecided_measurement e run m : started_run e = Some run -> undecided (with_measurement e run m) = undecided e.
Proof. intros Hrun. unfold undecided. by rewrite Hrun. Qed.

Lemma undecided_declaration u e : undecided (declaration u e).1 = undecided e.
Proof.
  unfold declaration. cbn [fst]. destruct (started_run e) as [run|] eqn:Hrun; [|done]. destruct (upgrade_run u); [|done].
  destruct (is_none _ && _); [|done]. by apply undecided_measurement.
Qed.

Lemma undecided_run e e' run' : undecided e = undecided e' -> started_run e' = Some run' ->
  exists run, started_run e = Some run /\ forall m, with_measurement e run m = with_measurement e' run' m.
Proof.
  unfold undecided, with_measurement. intros Heq Hrun. rewrite Hrun in Heq. destruct e as [n [run|] series rest]; cbn in *; [|by subst].
  destruct run, run'. cbn in *. injection Heq as -> -> -> -> -> -> ->. by eexists.
Qed.

Lemma undecided_no_run e e' : undecided e = undecided e' -> started_run e' = None -> started_run e = None.
Proof. unfold undecided. intros Heq Hrun. rewrite Hrun in Heq. destruct (started_run e) eqn:E; [|done]. by subst. Qed.

Lemma latest_epoch_snoc versions v : latest_epoch (versions ++ [v]) = epoch_version_epoch v.
Proof. unfold latest_epoch. by rewrite last_snoc. Qed.

Lemma fact_epoch_latest versions r : fact_epoch versions r =
  match input_measurement r, latest_epoch versions with
  | Some m, Some e => match started_run e with Some run => Some (with_measurement e run (Some m)) | None => None end
  | _, _ => None
  end.
Proof.
  unfold fact_epoch, latest_epoch. destruct (input_measurement r), (last versions) as [v|]; try done.
Qed.

(** The upgrade after one more declaration, at the end of those the keyframe has *)
Lemma upgraded_epochs_declared d v (u : InputUpgrade) n :
  (forall w, w ∈ declared d ++ inferred d -> epoch_version_seq w <= n) -> n < epoch_version_seq v ->
  upgraded_epochs {| upgrading := u; declared := declared d ++ [v]; inferred := inferred d |} = upgraded_epochs d ++ [v].
Proof.
  intros Hpast Hn. unfold upgraded_epochs. cbn [declared inferred]. rewrite <- app_assoc. apply version_latest.
  intros w Hw. specialize (Hpast w Hw). lia.
Qed.

Lemma upgraded_epochs_inferred d v (u : InputUpgrade) n :
  (forall w, w ∈ declared d ++ inferred d -> epoch_version_seq w <= n) -> n < epoch_version_seq v ->
  upgraded_epochs {| upgrading := u; declared := declared d; inferred := inferred d ++ [v] |} = upgraded_epochs d ++ [v].
Proof.
  intros Hpast Hn. unfold upgraded_epochs. cbn [declared inferred]. rewrite app_assoc. rewrite (version_latest (declared d ++ inferred d) v []).
  - by rewrite app_nil_r.
  - rewrite app_nil_r. intros w Hw. specialize (Hpast w Hw). lia.
Qed.

(** A declaration among those added is amended where it was added. *)
Lemma declares_added d v e n : length (declared d) = n -> forall seq,
  upgrade_event (extended [v] d) (seq, Declares n e) =
  Ok {| upgrading := (declaration (upgrading d) e).2; declared := declared d ++ [with_declaration (declaration (upgrading d) e).1 v];
        inferred := inferred d |}.
Proof.
  intros <- seq. unfold upgrade_event, extended. cbn. do 2 f_equal.
  rewrite alter_app_r_alt by lia. by rewrite Nat.sub_diag.
Qed.

(** A record that upgrades as the rows it adds do is a step of the scan. *)
Lemma agree_next kf r kf' d s r' d' new :
  agree kf d s -> append_skeleton kf r = Ok kf' -> amended r r' ->
  upgrade_apply (upgrading d) r = Ok (r', upgrading d') ->
  new = body_epochs r' ++ fact_versions (upgraded_epochs d ++ body_epochs r') r' ->
  upgraded_epochs d' = upgraded_epochs d ++ new ->
  (forall v, v ∈ declared d' ++ inferred d' -> v ∈ declared d ++ inferred d \/ epoch_version_seq v = seq r) ->
  latest_epoch (upgraded_epochs d') = upgrade_epoch (upgrading d') ->
  option_map undecided (latest_epoch (epochs kf')) = option_map undecided (upgrade_epoch (upgrading d')) ->
  exists s', scan_record s r = Ok s' /\ agree kf' d' s'.
Proof.
  intros [Hthrough Hu Hs Hpast _ _] Happ Ham Hup Hnew Hd' Hin Hlatest Hund.
  destruct (append_skeleton_Ok _ _ _ Happ) as [Hseq Hthrough'].
  pose proof (append_view _ _ _ (upgraded_epochs d) _ Happ Ham) as Hview. rewrite <- Hnew, <- Hd' in Hview.
  assert (Hr' : seq r' = seq r) by (by destruct Ham).
  eexists. split.
  - unfold scan_record. rewrite Hu, Hup. cbn [rbind]. rewrite Hr', (proj2 (Z.ltb_lt 0 (seq r))) by lia.
    rewrite Hs. assert ((view kf (upgraded_epochs d)) <| through_seq := seq r - 1 |> = view kf (upgraded_epochs d)) as ->.
    { replace (seq r - 1) with (through_seq kf) by lia. done. }
    rewrite Hview. cbn [rbind]. done.
  - split; cbn [scan_upgrade scan_state]; [lia|done..| |done|done].
    intros v [Hv| ->]%Hin; [apply Hpast in Hv|]; lia.
Qed.

(** Neither the declaration nor its input change. *)
Lemma agree_quiet kf r kf' d s d' :
  agree kf d s -> append_skeleton kf r = Ok kf' -> upgrade_apply (upgrading d) r = Ok (r, upgrading d') ->
  body_epochs r = [] -> fact_epoch (epochs kf) r = None -> fact_epoch (upgraded_epochs d) r = None ->
  declared d' = declared d -> inferred d' = inferred d -> upgrade_epoch (upgrading d') = upgrade_epoch (upgrading d) ->
  exists s', scan_record s r = Ok s' /\ agree kf' d' s'.
Proof.
  intros Hag Happ Hup Hb Hf1 Hf2 Hd Hi Hu. pose proof (append_epochs _ _ _ Happ) as HE.
  rewrite Hb, app_nil_r in HE. unfold fact_versions in HE. rewrite Hf1, !app_nil_r in HE.
  assert (Hd' : upgraded_epochs d' = upgraded_epochs d) by (unfold upgraded_epochs; by rewrite Hd, Hi).
  eapply (agree_next _ _ _ _ _ _ _ []); [done|done|apply amended_not|done|..].
  - rewrite Hb, app_nil_r. unfold fact_versions. by rewrite Hf2.
  - by rewrite Hd', app_nil_r.
  - rewrite Hd, Hi. by left.
  - rewrite Hd', Hu. apply Hag.
  - rewrite HE, Hu. apply Hag.
Qed.

Lemma agree_header kf r kf' d s e r' v :
  agree kf d s -> append_skeleton kf r = Ok kf' -> amended r r' -> length (declared d) = length (epochs kf) ->
  input_measurement r = None -> body_epochs r = [v] -> epoch_version_epoch v = Some e -> epoch_version_seq v = seq r ->
  upgrade_apply (upgrading d) r = Ok (r', (declaration (upgrading d) e).2) ->
  body_epochs r' = [with_declaration (declaration (upgrading d) e).1 v] -> input_measurement r' = None ->
  exists d' s', rfold upgrade_event (extended [v] d) [(seq r, Declares (length (epochs kf)) e)] = Ok d' /\
    scan_record s r = Ok s' /\ agree kf' d' s'.
Proof.
  intros Hag Happ Ham Hlen Hm Hb He Hv Hup Hb' Hm'. destruct (append_skeleton_Ok _ _ _ Happ) as [Hseq _].
  pose proof (append_epochs _ _ _ Happ) as HE. rewrite Hb in HE. unfold fact_versions in HE.
  rewrite fact_epoch_latest, Hm, app_nil_r in HE.
  set (v' := with_declaration (declaration (upgrading d) e).1 v) in *.
  set (d' := {| upgrading := (declaration (upgrading d) e).2; declared := declared d ++ [v']; inferred := inferred d |}).
  assert (Hd' : upgraded_epochs d' = upgraded_epochs d ++ [v']).
  { apply (upgraded_epochs_declared _ _ _ (through_seq kf)); [apply Hag|]. cbn. lia. }
  exists d'. enough (exists s', scan_record s r = Ok s' /\ agree kf' d' s') as (s' & ? & ?).
  { exists s'. split; [|done]. cbn [rfold]. by rewrite (declares_added _ _ _ _ Hlen). }
  eapply (agree_next _ _ _ _ _ r' d' [v']); [done..|by unfold fact_versions; rewrite fact_epoch_latest, Hm', Hb'|done| | |].
  - intros w. cbn. rewrite !elem_of_app, list_elem_of_singleton. intros [[?| ->]|?]; auto.
  - by rewrite Hd', latest_epoch_snoc.
  - rewrite HE, latest_epoch_snoc, He. cbn. f_equal. symmetry. apply undecided_declaration.
Qed.

Definition point_fact (p : MetricPoint) : InputMeasurement :=
  measured {| measured_series := point_series p; measured_value := point_value p; measured_span := point_span p |}.

Definition with_epoch_of (u : InputUpgrade) (e : EpochStarted) : InputUpgrade :=
  {| upgrade_epoch := Some e; upgrade_inputs := upgrade_inputs u |}.

Lemma with_measurement_twice e run m run' : started_run (with_measurement e run m) = Some run' ->
  described_input_measurement run' = m /\ forall m', with_measurement (with_measurement e run m) run' m' = with_measurement e run m'.
Proof. intros [= <-]. done. Qed.

Lemma measurement_cases u p :
  measurement u p = (None, u) \/
  exists e run, upgrade_epoch u = Some e /\ started_run e = Some run /\ described_input_measurement run = None /\
    measurement u p = (Some (with_measurement e run (Some (point_fact p))), with_epoch_of u (with_measurement e run (Some (point_fact p)))).
Proof.
  unfold measurement. destruct (upgrade_epoch u) as [e|] eqn:He; [|by left]. destruct (started_run e) as [run|] eqn:Hrun; [|by left].
  destruct (described_input_measurement run) eqn:Hm; [by left|]. destruct (described_objectives run); [by left|].
  destruct (_ || _); [by left|]. right. by exists e, run.
Qed.

(** What the upgrade makes of a measurement of a run that said nothing *)
Lemma measured_apply u e run r p : body r = Some (Body.metric p) ->
  upgrade_epoch u = Some e -> started_run e = Some run ->
  measurement u p = (Some (with_measurement e run (Some (point_fact p))), with_epoch_of u (with_measurement e run (Some (point_fact p)))) ->
  upgrade_apply u r = Ok (with_input r (Some (point_fact p)), with_epoch_of u (with_measurement e run (Some (point_fact p)))).
Proof. intros Hb He Hrun Hm. unfold upgrade_apply, apply_body. rewrite Hb, Hm. done. Qed.

(** A measurement a record says was the input's: the latest declaration has it from there on. *)
Lemma stated_apply u e run r p : body r = Some (Body.metric p) -> input_measurement r = Some (point_fact p) ->
  upgrade_epoch u = Some e -> started_run e = Some run ->
  upgrade_apply u r = Ok (r, with_epoch_of u (with_measurement e run (Some (point_fact p)))).
Proof.
  intros Hb Hi He Hrun. destruct (measurement_cases u p) as [Hm|(e' & run' & He' & Hrun' & _ & Hm)].
  - unfold upgrade_apply, apply_body. rewrite Hb, Hm. cbn [rbind]. by rewrite Hi, He, Hrun.
  - rewrite He in He'. injection He' as <-. rewrite Hrun in Hrun'. injection Hrun' as <-.
    rewrite (measured_apply _ _ _ _ _ Hb He Hrun Hm), <- Hi. by destruct r.
Qed.

Lemma exists_and_Ok {A B} (d : A) (P : B -> Prop) : (exists s', P s') -> exists s', Ok (E := string) d = Ok d /\ P s'.
Proof. intros (s' & ?). by exists s'. Qed.

Lemma extended_nil d : extended [] d = d.
Proof. unfold extended. destruct d. cbn. by rewrite app_nil_r. Qed.

Lemma agree_measured kf r kf' d s p :
  agree kf d s -> append_skeleton kf r = Ok kf' -> body r = Some (Body.metric p) -> input_measurement r = None ->
  exists d' s', rfold upgrade_event (extended [] d) [(seq r, Measures p)] = Ok d' /\ scan_record s r = Ok s' /\ agree kf' d' s'.
Proof.
  intros Hag Happ Hb Hi. rewrite extended_nil. cbn [rfold]. unfold upgrade_event. cbn [snd fst].
  assert (Hfact : forall versions, fact_epoch versions r = None) by (intros; rewrite fact_epoch_latest; by rewrite Hi).
  assert (Hbody : body_epochs r = []) by (unfold body_epochs; by rewrite Hb).
  destruct (measurement_cases (upgrading d) p) as [Hm|(e & run & He & Hrun & _ & Hm)]; rewrite Hm; cbn [rbind].
  - eexists. apply exists_and_Ok. eapply agree_quiet; [done|done| |done|done|done|done..].
    unfold upgrade_apply, apply_body. rewrite Hb, Hm. cbn [rbind]. by rewrite Hi.
  - set (am := with_measurement e run (Some (point_fact p))) in *. eexists. apply exists_and_Ok.
    destruct (append_skeleton_Ok _ _ _ Happ) as [Hseq _]. pose proof (append_epochs _ _ _ Happ) as HE.
    rewrite Hbody in HE. unfold fact_versions in HE. rewrite Hfact in HE. cbn [app] in HE. rewrite app_nil_r in HE.
    assert (Hd' : upgraded_epochs {| upgrading := with_epoch_of (upgrading d) am; declared := declared d;
        inferred := inferred d ++ [inferred_version (seq r) am] |} = upgraded_epochs d ++ [inferred_version (seq r) am]).
    { apply (upgraded_epochs_inferred _ _ _ (through_seq kf)); [apply Hag|]. cbn. lia. }
    eapply (agree_next _ _ _ _ _ (with_input r (Some (point_fact p))) _ [inferred_version (seq r) am]);
      [done|done|by eapply amended_fact|by apply measured_apply| |done| | |].
    + assert (body_epochs (with_input r (Some (point_fact p))) = []) as -> by (unfold body_epochs; cbn; by rewrite Hb).
      rewrite app_nil_r. unfold fact_versions. rewrite fact_epoch_latest, (agree_latest _ _ _ Hag), He, Hrun. done.
    + intros w. cbn. rewrite !elem_of_app, list_elem_of_singleton. intros [?|[?| ->]]; auto.
    + by rewrite Hd', latest_epoch_snoc.
    + rewrite HE, (agree_undecided _ _ _ Hag), He. cbn [option_map upgrading with_epoch_of upgrade_epoch]. f_equal. symmetry.
      by apply undecided_measurement.
Qed.

Lemma agree_stated kf r kf' d s p :
  agree kf d s -> append_skeleton kf r = Ok kf' -> length (declared d) = length (epochs kf) ->
  body r = Some (Body.metric p) -> input_measurement r = Some (point_fact p) ->
  exists d' s', rfold upgrade_event (extended (fact_versions (epochs kf) r) d) (new_rows (epochs kf) r) = Ok d' /\
    scan_record s r = Ok s' /\ agree kf' d' s'.
Proof.
  intros Hag Happ Hlen Hb Hi. destruct (append_skeleton_Ok _ _ _ Happ) as [Hseq _].
  assert (Hbody : body_epochs r = []) by (unfold body_epochs; by rewrite Hb).
  pose proof (append_epochs _ _ _ Happ) as HE. rewrite Hbody in HE. cbn [app] in HE. rewrite app_nil_r in HE.
  pose proof (agree_undecided _ _ _ Hag) as Hund. pose proof (agree_latest _ _ _ Hag) as Hlat.
  assert (Hno : (upgrade_epoch (upgrading d) = None \/ exists e, upgrade_epoch (upgrading d) = Some e /\ started_run e = None) \/
    exists e run, upgrade_epoch (upgrading d) = Some e /\ started_run e = Some run).
  { destruct (upgrade_epoch (upgrading d)) as [e|]; [|by left; left]. destruct (started_run e) as [run|] eqn:?; [by right; eauto|left; right; by eauto]. }
  destruct Hno as [Hno|(e & run & He & Hrun)].
  - assert (Hf : fact_epoch (epochs kf) r = None /\ fact_epoch (upgraded_epochs d) r = None /\ measurement (upgrading d) p = (None, upgrading d)
      /\ upgrade_apply (upgrading d) r = Ok (r, upgrading d)).
    { rewrite !fact_epoch_latest, Hlat, Hi. unfold upgrade_apply, apply_body, measurement. rewrite Hb.
      destruct Hno as [Hno|(e & Hno & Hrun)]; rewrite Hno in *; cbn [option_map rbind] in *.
      - destruct (latest_epoch (epochs kf)); [done|]. rewrite Hi, Hno. done.
      - rewrite Hrun. destruct (latest_epoch (epochs kf)) as [e0|]; [|done]. injection Hund as Hund.
        rewrite (undecided_no_run _ _ Hund Hrun). cbn. by rewrite Hi, Hno, Hrun. }
    destruct Hf as (Hf1 & Hf2 & Hm & Hup). unfold fact_versions, new_rows. rewrite Hf1, Hb, extended_nil. cbn [app rfold].
    unfold upgrade_event. cbn [snd]. rewrite Hm. cbn [rbind]. eexists. apply exists_and_Ok.
    by eapply agree_quiet.
  - rewrite He in Hund. destruct (latest_epoch (epochs kf)) as [e0|] eqn:He0; [|done]. cbn in Hund. injection Hund as Hund.
    destruct (undecided_run _ _ _ Hund Hrun) as (run0 & Hrun0 & Hwith).
    set (am := with_measurement e run (Some (point_fact p))).
    assert (Hf1 : fact_epoch (epochs kf) r = Some am) by (rewrite fact_epoch_latest, Hi, He0, Hrun0; by rewrite Hwith).
    assert (Hf2 : fact_epoch (upgraded_epochs d) r = Some am) by (rewrite fact_epoch_latest, Hi, Hlat, He, Hrun; done).
    unfold fact_versions, new_rows in *. rewrite Hf1, Hb in *. cbn [app rfold].
    rewrite (declares_added _ _ _ _ Hlen). cbn [rbind].
    assert (Hdecl : declaration (upgrading d) am = (am, with_epoch_of (upgrading d) am)).
    { unfold declaration. cbn. by destruct (upgrade_run _). }
    rewrite Hdecl. cbn [fst snd]. unfold upgrade_event. cbn [snd]. cbn [measurement].
    set (v := with_declaration am (inferred_version (seq r) am)). change v with (inferred_version (seq r) am).
    assert (Hmeas : measurement (with_epoch_of (upgrading d) am) p = (None, with_epoch_of (upgrading d) am)) by done.
    cbn [upgrading]. rewrite Hmeas. cbn [rbind]. eexists. apply exists_and_Ok.
    set (d' := {| upgrading := with_epoch_of (upgrading d) am; declared := declared d ++ [inferred_version (seq r) am]; inferred := inferred d |}).
    change (exists s', scan_record s r = Ok s' /\ agree kf' d' s').
    assert (Hd' : upgraded_epochs d' = upgraded_epochs d ++ [inferred_version (seq r) am]).
    { apply (upgraded_epochs_declared _ _ _ (through_seq kf)); [apply Hag|]. cbn. lia. }
    eapply (agree_next _ _ _ _ _ r d' [inferred_version (seq r) am]); [done|done|apply amended_not|by apply stated_apply| |done| | |].
    + rewrite Hbody, app_nil_r. unfold fact_versions. by rewrite Hf2.
    + intros w. cbn. rewrite !elem_of_app, list_elem_of_singleton. intros [[?| ->]|?]; auto.
    + by rewrite Hd', latest_epoch_snoc.
    + by rewrite HE, latest_epoch_snoc.
Qed.

Definition agrees (kf : Keyframe) (upgraded : result string Upgrading) (scanned : result string Scan) : Prop :=
  match upgraded, scanned with
  | Ok d, Ok s => agree kf d s
  | Err a, Err b => a = b
  | _, _ => False
  end.

Lemma agrees_Ok kf upgraded scanned : (exists d s, upgraded = Ok d /\ scanned = Ok s /\ agree kf d s) -> agrees kf upgraded scanned.
Proof. by intros (d & s & -> & -> & ?). Qed.

Lemma upgrade_span_epoch u span u' : upgrade_span u span = Ok u' -> upgrade_epoch u' = upgrade_epoch u.
Proof.
  unfold upgrade_span. destruct (span_label span) as [label|]; [|by intros [= <-]].
  destruct (label_attrs label) as [attrs|]; [|by intros [= <-]]. do 2 (destruct (negb _); [by intros [= <-]|]).
  destruct (gate_subject _); cbn [rbind]; [|done]. intros [= <-]. by destruct (_ =? _).
Qed.

Lemma agree_span kf r kf' d s v span :
  agree kf d s -> append_skeleton kf r = Ok kf' -> body r = Some (Body.span v) -> record_span v = Some span ->
  input_measurement r = None -> agrees kf' (rfold upgrade_event (extended [] d) [(seq r, Spans span)]) (scan_record s r).
Proof.
  intros Hag Happ Hb Hv Hi. rewrite extended_nil. cbn [rfold]. unfold upgrade_event. cbn [snd].
  assert (Hup : upgrade_apply (upgrading d) r = rbind (upgrade_span (upgrading d) span) (fun u => Ok (r, u))).
  { unfold upgrade_apply, apply_body. rewrite Hb, Hv. destruct (upgrade_span _ _); cbn [rbind]; [|done]. by rewrite Hi. }
  destruct (upgrade_span (upgrading d) span) as [u|e] eqn:Hu; cbn [rbind] in *.
  - apply agrees_Ok. eexists. apply exists_and_Ok.
    assert (Hfact : forall versions, fact_epoch versions r = None) by (intros; rewrite fact_epoch_latest; by rewrite Hi).
    eapply agree_quiet; [done|done|exact Hup|unfold body_epochs; by rewrite Hb|apply Hfact|apply Hfact|done|done|].
    cbn. by eapply upgrade_span_epoch.
  - unfold scan_record. rewrite (agree_upgrade _ _ _ Hag), Hup. done.
Qed.

Lemma agree_other kf r kf' d s :
  agree kf d s -> append_skeleton kf r = Ok kf' -> input_measurement r = None ->
  match body r with
  | Some (Body.epoch_started _) | Some (Body.declaration_amended _) | Some (Body.span _) | Some (Body.metric _) => False
  | _ => True
  end -> agrees kf' (rfold upgrade_event (extended [] d) (new_rows (epochs kf) r)) (scan_record s r).
Proof.
  intros Hag Happ Hi Hb. rewrite extended_nil. apply agrees_Ok. exists d.
  assert (Hrows : new_rows (epochs kf) r = [] /\ body_epochs r = []).
  { unfold new_rows, body_epochs. by destruct (body r) as [[]|]. }
  destruct Hrows as [-> Hbody]. apply exists_and_Ok.
  assert (Hfact : forall versions, fact_epoch versions r = None) by (intros; rewrite fact_epoch_latest; by rewrite Hi).
  eapply agree_quiet; [done|done| |done..]. unfold upgrade_apply, apply_body.
  destruct (body r) as [[]|]; try done; cbn [rbind]; by rewrite Hi.
Qed.

Lemma agree_step kf r kf' d s :
  agree kf d s -> append_skeleton kf r = Ok kf' -> fact_matches r -> length (declared d) = length (epochs kf) ->
  agrees kf' (rfold upgrade_event (extended (body_epochs r ++ fact_versions (epochs kf ++ body_epochs r) r) d)
                (new_rows (epochs kf) r)) (scan_record s r).
Proof.
  intros Hag Happ Hm Hlen. unfold fact_matches in Hm. destruct (input_measurement r) as [m|] eqn:Hi.
  - destruct Hm as (p & Hb & ->). assert (Hbody : body_epochs r = []) by (unfold body_epochs; by rewrite Hb).
    rewrite Hbody. cbn [app]. rewrite app_nil_r. apply agrees_Ok. by eapply agree_stated.
  - assert (Hfact : fact_versions (epochs kf ++ body_epochs r) r = []) by (unfold fact_versions; by rewrite fact_epoch_latest, Hi).
    rewrite Hfact, app_nil_r. destruct (body r) as [b|] eqn:Hb.
    2: { assert (body_epochs r = []) as -> by (unfold body_epochs; by rewrite Hb). eapply agree_other; [done..|by rewrite Hb]. }
    assert (Hother : match Some b with
      | Some (Body.epoch_started _) | Some (Body.declaration_amended _) | Some (Body.span _) | Some (Body.metric _) => False
      | _ => True end -> agrees kf' (rfold upgrade_event (extended (body_epochs r) d) (new_rows (epochs kf) r)) (scan_record s r)).
    { intros Hnot. assert (body_epochs r = []) as -> by (unfold body_epochs; rewrite Hb; by destruct b). eapply agree_other; [done..|by rewrite Hb]. }
    destruct b as [e| |l|sp|p|st| | |nt| |e| | | | | | | |]; try by apply Hother.
    all: clear Hother; unfold new_rows; rewrite Hb.
    + apply agrees_Ok. assert (Hbody := eq_refl : body_epochs r = body_epochs r). unfold body_epochs at 2 in Hbody. rewrite Hb in Hbody.
      rewrite Hbody. eapply (agree_header _ _ _ _ _ _ (with_body r (Body.epoch_started (declaration (upgrading d) e).1)));
        [done|done|by eapply amended_header|done|done|exact Hbody|done|done| |done|done].
      unfold upgrade_apply, apply_body. rewrite Hb. destruct (declaration (upgrading d) e). cbn. by rewrite Hi.
    + destruct (record_span sp) as [span|] eqn:Hsp.
      * assert (body_epochs r = []) as -> by (unfold body_epochs; by rewrite Hb). by eapply agree_span.
      * unfold append_skeleton, append_body in Happ. rewrite Hb, Hsp in Happ. by destruct (_ =? _).
    + assert (body_epochs r = []) as -> by (unfold body_epochs; by rewrite Hb).
      rewrite fact_epoch_latest, Hi. apply agrees_Ok. by eapply agree_measured.
    + apply agrees_Ok. assert (Hbody := eq_refl : body_epochs r = body_epochs r). unfold body_epochs at 2 in Hbody. rewrite Hb in Hbody.
      rewrite Hbody. eapply (agree_header _ _ _ _ _ _ (with_body r (Body.declaration_amended (declaration (upgrading d) e).1)));
        [done|done|by eapply amended_declaration|done|done|exact Hbody|done|done| |done|done].
      unfold upgrade_apply, apply_body. rewrite Hb. destruct (declaration (upgrading d) e). cbn. by rewrite Hi.
Qed.

(** A keyframe and its records upgrade to the same, or fail of the same span. *)
Lemma scan_agrees records kf :
  rfold append_skeleton fresh_keyframe records = Ok kf -> Forall fact_matches records ->
  rows_ok kf /\ agrees kf (upgrade_all kf) (rfold scan_record no_scan records).
Proof using SpanItemsLaw0.
  revert kf. induction records as [|r records IH] using rev_ind; intros kf.
  - intros [= <-] _. assert (Hrows : upgrade_rows fresh_keyframe = []).
    { unfold upgrade_rows. cbn. assert (span_items ∅ = []) as ->; [|done].
      apply Permutation_nil. rewrite (span_items_perm ∅). by rewrite map_to_list_empty. }
    unfold upgrade_all. rewrite Hrows. split; [split; rewrite Hrows; [set_solver|constructor]|].
    split; try done. by intros v Hv%elem_of_nil.
  - rewrite rfold_app, Forall_app, Forall_singleton. destruct (rfold append_skeleton _ records) as [kf0|] eqn:Hkf; cbn [rbind]; [|done].
    cbn [rfold]. destruct (append_skeleton kf0 r) as [kf1|] eqn:Happ; cbn [rbind]; [|done]. intros [= <-] [Hms Hm].
    destruct (IH kf0 eq_refl Hms) as [Hrows Hag]. destruct (rows_step _ _ _ Hrows Happ Hm) as [Hrows' _].
    pose proof (append_epochs _ _ _ Happ) as HE. pose proof (upgrade_all_step _ _ _ _ Hrows Happ Hm HE) as Hall.
    rewrite rfold_app, Hall. split; [done|].
    destruct (upgrade_all kf0) as [d|] eqn:Hd, (rfold scan_record no_scan records) as [s|]; cbn [agrees rbind] in *; try done.
    cbn [rfold]. apply upgrade_all_length in Hd. pose proof (agree_step _ _ _ _ _ Hag Happ Hm Hd) as Hstep.
    by destruct (scan_record s r).
Qed.

Lemma objectives_metrics kf kf' run spans owners groups verdicts objectives : metrics kf = metrics kf' ->
  objectives_performance kf run spans owners groups verdicts objectives =
  objectives_performance kf' run spans owners groups verdicts objectives.
Proof.
  intros Hm. induction objectives as [|o objectives IH]; [done|]. cbn [objectives_performance]. rewrite IH.
  unfold objective_performance, input_value, series_points. by rewrite Hm.
Qed.

(** The head a keyframe projects is of its facts. *)
Lemma project_head_view kf E process : project_head (view kf E) process = project_head (kf <| epochs := E |>) process.
Proof.
  assert (Hp : forall run, project_performance (view kf E) run = project_performance (kf <| epochs := E |>) run).
  { intros run. unfold project_performance. cbn [spans_of spans view update]. destruct (ideas _); cbn [rbind]; [|done].
    destruct (comparisons _); cbn [rbind]; [|done]. by apply objectives_metrics. }
  unfold project_head. destruct (project_lifecycle _); cbn [rbind]; [|done].
  change (run_declaration (view kf E)) with (run_declaration (kf <| epochs := E |>)).
  destruct (run_declaration _) as [[epoch run]|]; [|done]. by rewrite Hp.
Qed.

Lemma append_skeleton_head kf r kf' : append_skeleton kf r = Ok kf' -> head kf' = None.
Proof.
  unfold append_skeleton. destruct (_ =? _); cbn [ensure rbind]; [|done].
  destruct (append_body _ r) as [s|] eqn:Hb; cbn [rbind]; [|done]. intros [= <-].
  assert (Hs : head s = None).
  { unfold append_body in Hb. destruct (body r) as [[]|]; cbn in Hb; unfold required_span in Hb;
      repeat (destruct_match; cbn in Hb; try done); by simplify_eq. }
  cbn [head update]. rewrite append_input_fact_epoch.
  assert (Hf : head (append_record_fact s r) = head s) by (unfold append_record_fact; destruct (body r) as [[]|]; try done; by destruct (steers _)).
  destruct (fact_epoch _ r); cbn [head update]; by rewrite Hf.
Qed.

Lemma fold_head records kf : rfold append_skeleton fresh_keyframe records = Ok kf -> head kf = None.
Proof.
  destruct records as [|r records _] using rev_ind; [by intros [= <-]|]. rewrite rfold_app.
  destruct (rfold _ _ records) as [kf0|]; cbn [rbind rfold]; [|done]. destruct (append_skeleton kf0 r) eqn:E; cbn [rbind]; [|done].
  intros [= <-]. by eapply append_skeleton_head.
Qed.

(** What the upgrade of a folded keyframe is, in terms of a scan of its records *)
Lemma upgrade_folded records offset kf :
  fold_skeleton records offset None = Ok kf -> Forall fact_matches records ->
  match rfold scan_record no_scan records with
  | Err e => upgrade_in_place kf = Err e
  | Ok s =>
    scan_state s = view kf (epochs (scan_state s)) /\
    upgrade_in_place kf =
      let* head_ := project_head (scan_state s) None in
      Ok (kf <| epochs := epochs (scan_state s) |> <| head := head_ |>, measured_value_of (scan_upgrade s))
  end.
Proof using SpanItemsLaw0.
  unfold fold_skeleton. cbn [default]. destruct (rfold _ _ _) as [kf0|] eqn:Hfold; cbn [rbind]; [|done]. intros [= Hkf] Hm.
  destruct (scan_agrees _ _ Hfold Hm) as [_ Hag]. assert (Hall : upgrade_all kf = upgrade_all kf0) by by rewrite <- Hkf.
  unfold upgrade_in_place. rewrite Hall.
  destruct (upgrade_all kf0) as [d|], (rfold scan_record no_scan records) as [s|]; cbn [agrees] in Hag; cbn [rbind]; [|done|done|by subst].
  change (sorted_by version_before _) with (upgraded_epochs d).
  assert (head_current (kf <| epochs := upgraded_epochs d |>) = false) as ->.
  { unfold head_current. rewrite <- Hkf. cbn [head update]. by rewrite (fold_head _ _ Hfold). }
  assert (Hview : scan_state s = view kf (upgraded_epochs d)) by (rewrite (agree_state _ _ _ Hag), <- Hkf; done).
  rewrite Hview, (agree_upgrade _ _ _ Hag), <- project_head_view. split; reflexivity.
Qed.

(** The upgrade of a stored skeleton, which walks the histories the keyframe kept, is the
    upgrade of the records one by one before they are folded: the same declarations, the same
    measured input, and the head of the same facts; and it fails of the same record. *)
Theorem upgrade_is_of_the_records records offset kf :
  fold_skeleton records offset None = Ok kf -> Forall fact_matches records ->
  upgrade_in_place kf =
    let* scanned := rfold scan_record no_scan records in
    let* head_ := project_head (scan_state scanned) None in
    Ok (kf <| epochs := epochs (scan_state scanned) |> <| head := head_ |>, measured_value_of (scan_upgrade scanned)).
Proof using SpanItemsLaw0.
  intros Hfold Hm. pose proof (upgrade_folded _ _ _ Hfold Hm) as Hup.
  destruct (rfold scan_record no_scan records) as [s|]; [exact (proj2 Hup)|exact Hup].
Qed.

(** ** The epoch of an upgraded skeleton *)

Lemma declaration_epoch u e : started_epoch (declaration u e).1 = started_epoch e.
Proof.
  unfold declaration. cbn [fst]. destruct (started_run e) as [run|]; [|done]. destruct (upgrade_run u); [|done].
  by destruct (is_none _ && _).
Qed.

(** A record as it is amended tells the epoch it did. *)
Lemma amended_epoch u r r' u' : upgrade_apply u r = Ok (r', u') ->
  seq r' = seq r /\ forall n e, in_epoch n r' = in_epoch n r /\ epoch_after e r' = epoch_after e r.
Proof.
  unfold upgrade_apply, apply_body. destruct (body r) as [b|] eqn:Hb; [|by intros [= <- _]]. intros Hup.
  assert (Hr : r' = r \/ (exists m, r' = with_input r m) \/
    (exists e, b = Body.epoch_started e /\ r' = with_body r (Body.epoch_started (declaration u e).1)) \/
    exists e, b = Body.declaration_amended e /\ r' = with_body r (Body.declaration_amended (declaration u e).1)).
  { assert (Hlast : forall r0 u0, rbind (Ok (E := string) (r0, u0)) (fun applied => let (record, u) := applied in
      match input_measurement record, upgrade_epoch u with
      | Some m, Some epoch =>
        match started_run epoch with
        | Some run => Ok (record, {| upgrade_epoch := Some (with_measurement epoch run (Some m)); upgrade_inputs := upgrade_inputs u |})
        | None => Ok (record, u)
        end
      | _, _ => Ok (record, u)
      end) = Ok (r', u') -> r' = r0).
    { intros r0 u0. cbn [rbind]. destruct (input_measurement r0), (upgrade_epoch u0) as [e|]; try (by intros [= ->]).
      destruct (started_run e); by intros [= ->]. }
    destruct b as [e| |l|sp|p|st| | |nt| |e| | | | | | | |]; try (apply Hlast in Hup; by left).
    - right; right; left. exists e. split; [done|]. destruct (declaration u e). by apply Hlast in Hup.
    - destruct (record_span sp); [|apply Hlast in Hup; by left]. destruct (upgrade_span _ _); [|done]. apply Hlast in Hup; by left.
    - destruct (measurement u p) as [[am|] u0]; [|apply Hlast in Hup; by left].
      destruct (started_run am); [|apply Hlast in Hup; by left]. right; left. apply Hlast in Hup. by eexists.
    - right; right; right. exists e. split; [done|]. destruct (declaration u e). by apply Hlast in Hup. }
  destruct Hr as [-> |[(m & ->)|[(e & -> & ->)|(e & -> & ->)]]]; (split; [done|]); intros n ce; unfold in_epoch, epoch_after; cbn [body with_body with_input];
    rewrite ?Hb, ?declaration_epoch; done.
Qed.

Lemma through_seq_same kf n : through_seq kf = n -> kf <| through_seq := n |> = kf.
Proof. intros <-. by destruct kf. Qed.

(** The epoch a scan of dense records reads is that of the state it leaves. *)
Lemma scan_tells records s0 n s :
  rows_tell (scan_state s0) n (scan_epoch s0) -> 0 <= through_seq (scan_state s0) ->
  map seq records = seqZ (through_seq (scan_state s0) + 1) (Z.of_nat (length records)) -> epochs_in_order n records = true ->
  rfold scan_record s0 records = Ok s ->
  scan_epoch s = current_epoch records (scan_epoch s0) /\ exists n', rows_tell (scan_state s) n' (scan_epoch s).
Proof.
  revert s0 n. induction records as [|r records IH]; intros s0 n Htell Hth Hdense Hin Hs.
  { injection Hs as <-. split; [done|by exists n]. }
  cbn in Hin. destruct (in_epoch n r) as [n1|] eqn:En; [|done].
  cbn [length map] in Hdense. rewrite seqZ_cons in Hdense by lia. injection Hdense as Hseq Hdense.
  cbn [rfold] in Hs. unfold scan_record at 1 in Hs. destruct (upgrade_apply _ r) as [[r' u]|] eqn:Hup; cbn [rbind] in Hs; [|done].
  destruct (amended_epoch _ _ _ _ Hup) as [Hseq' Hsame]. rewrite Hseq', (proj2 (Z.ltb_lt 0 (seq r))) in Hs by lia.
  rewrite through_seq_same in Hs by lia. destruct (append_skeleton _ r') as [kf1|] eqn:Happ; cbn [rbind] in Hs; [|done].
  destruct (append_skeleton_Ok _ _ _ Happ) as [_ Hth1]. apply (IH _ n1) in Hs; [done|cbn [scan_state scan_epoch]..|done].
  - change (current_epoch [r] (scan_epoch s0)) with (epoch_after (scan_epoch s0) r).
    rewrite <- (proj2 (Hsame n (scan_epoch s0))). eapply rows_tell_step; [exact Htell|exact Happ|].
    by rewrite (proj1 (Hsame n (scan_epoch s0))).
  - lia.
  - cbn. rewrite Hdense. f_equal; lia.
Qed.

Lemma scan_epoch_agrees records s :
  map seq records = seqZ 1 (Z.of_nat (length records)) -> epochs_in_order 0 records = true ->
  rfold scan_record no_scan records = Ok s ->
  scan_epoch s = current_epoch records no_epoch /\ current_epoch_of_keyframe (scan_state s) no_epoch = scan_epoch s.
Proof.
  intros Hdense Hin Hs. destruct (scan_tells records no_scan 0 s) as [He (n & [_ Hread _ _])]; [done..|].
  split; [done|]. unfold read_rows in Hread. by injection Hread as _ Hread.
Qed.

End Rows.

(** ** A retained log *)

(** Two epochs of a run whose records state no input: the gate's measurement is found to be of the
    input, and the second epoch, of the same input and objective, keeps it. *)
Definition sample_retained : list LogRecord :=
  let started n := {| started_epoch := n; started_run := Some sample_described;
    started_series := [{| decl_name := "latency"; decl_rest := EmptyString |}]; started_rest := EmptyString |} in
  let gate := {| span_id := "g0"; span_parent := EmptyString; span_status := 4;
    span_label := Some {| label_kind := "gate"; label_attrs := Some {| type_url := GATE_ATTRS; any_value := [GATE_SUBJECT_INPUT] |};
      label_links := []; label_verdict := "passed"; label_rest := EmptyString |}; span_rest := EmptyString |} in
  [bare_record 1 1 (Body.epoch_started (started 1));
   bare_record 2 1 (Body.span {| record_span := Some gate; record_change := 1 |});
   bare_record 3 1 (Body.metric (metric_version_point (sample_point "g0" 3 10)));
   bare_record 4 1 (Body.lifecycle {| lifecycle_state := Some (LifecycleState.running None) |});
   bare_record 5 2 (Body.epoch_started (started 2))].

Definition sample_kept : Keyframe :=
  match fold_skeleton sample_retained 100 None with Ok kf => kf | Err _ => fresh_keyframe end.

Lemma upgrade_is_of_the_records_witness :
  fold_skeleton sample_retained 100 None = Ok sample_kept /\
  exists kf head_, @upgrade_in_place sample_subject sample_head_attrs sample_items sample_kept = Ok (kf, Some (of_int 10)) /\
    map epoch_version_seq (epochs kf) = [1; 3; 5] /\ head kf = Some head_ /\ head_epoch head_ = 2.
Proof.
  split; [vm_compute; reflexivity|]. do 2 eexists.
  rewrite (@upgrade_is_of_the_records sample_subject sample_head_attrs sample_items sample_items_law sample_retained 100).
  - split; [vm_compute; reflexivity|]. split; [vm_compute; reflexivity|]. split; vm_compute; reflexivity.
  - vm_compute. reflexivity.
  - repeat constructor.
Defined.
