(* ===== verification/Observe.v ===== *)
(** * Readers of a run

    [libs/vs-runlog/src/vs_runlog/_observe.py] and [_prefix.py]: what a process that does not write a
    run sees of its files.  A head that lacks a fact gets it from the committed prefix of the log:
    by a scan of it, which [HeadObserver] remembers, or from its nearest keyframe.  The two agree,
    and nothing past the committed record is looked at.

    A directory of a run is a [RunFiles].  What reading a protobuf file gives is its message, or the
    message of the [ValueError] that decoding or validating it raises; a loop over a reader has the
    fuel of its file's bytes, which is enough ([bounded_total]). *)

From stdpp Require Import pretty.
From S2P Require Import Prelude PySorted PyFloat Identities LogRecord Skeleton Epoch Head Framing LogFile Standing Upgrade.

(** ** Files and failures *)

Record LogView := { device : Z; inode : Z; modified_ns : Z; log_bytes : list byte }.

(** A run's directory: [run.head], [run.log] and [keyframes/N.pb] by [N] *)
Record RunFiles := {
  head_file : option (result string RunHead);
  log_file : option LogView;
  keyframe_files : gmap Z (result string Keyframe)
}.

Inductive ReadError :=
  | ValueError (message : string)
  | RunLogDamagedError (message : string)
  | FileNotFoundError.

(** [str(error)] *)
Definition message_of (error : ReadError) : string :=
  match error with ValueError m | RunLogDamagedError m => m | FileNotFoundError => EmptyString end.

Definition raising {A} (c : result string A) : result ReadError A :=
  match c with Ok a => Ok a | Err message => Err (ValueError message) end.

(** [RunLogDamagedError(path, reason)] *)
Definition damaged (path reason : string) : ReadError := RunLogDamagedError (path +:+ ": " +:+ reason).

(** [_damage_is_typed] *)
Definition damage_is_typed {A} (path : string) (c : result ReadError A) : result ReadError A :=
  match c with
  | Err (ValueError message) => Err (damaged path message)
  | _ => c
  end.

(** [_read_raw_head] *)
Definition read_raw_head (files : RunFiles) : result ReadError RunHead :=
  match head_file files with
  | None => Err FileNotFoundError
  | Some head => raising head
  end.

(** ** Facts a head lacks *)

Module Observed.
(** [_Recovered] *)
Record Recovered := { epoch : CurrentEpoch; input_value : option float; head : option RunHead }.
End Observed.

(** [_wants_input] *)
Definition wants_input (head : RunHead) : bool :=
  match head_objective head with
  | Some objective => negb (input_stated objective) && is_none (headline_input objective)
  | None => false
  end.

(** [needs_recovery] *)
Definition needs_recovery (head : RunHead) : bool :=
  (head_epoch head =? 0) || wants_input head || negb (performance_stated head).

(** [apply_recovered] *)
Definition apply_recovered (head : RunHead) (recovered : Observed.Recovered) : RunHead :=
  let wants_input_ := wants_input head in
  let wants_performance := negb (performance_stated head) in
  let head := head <| head_epoch := if head_epoch head =? 0 then number (Observed.epoch recovered) else head_epoch head |> in
  let head := match Observed.input_value recovered, head_objective head with
              | Some value, Some objective =>
                if wants_input_ then head <| head_objective := Some (objective <| headline_input := Some value |>) |> else head
              | _, _ => head
              end in
  match Observed.head recovered with
  | Some projected => if wants_performance then projected <| head_process := head_process head |> else head
  | None => head
  end.

(** [_legacy_epoch_record] *)
Definition legacy_epoch_record (record : LogRecord) : bool :=
  match body record with
  | Some (Body.legacy_event _) => true
  | Some (Body.epoch_started value) => is_none (started_run value)
  | _ => false
  end.

Definition past (limit : option Z) (n : Z) : bool := match limit with Some limit => limit <? n | None => false end.
Definition short_of (limit : option Z) (n : Z) : bool := match limit with Some limit => n <? limit | None => false end.

(** The number of the last record read *)
Definition through (start : Z) (records : list LogRecord) : Z := match last records with Some r => seq r | None => start end.

(** [_Prefix] *)
Record Prefix := {
  prefix_device : Z; prefix_inode : Z; prefix_modified_ns : Z; prefix_size : Z;
  prefix_committed : option Z; prefix_headed : bool
}.
#[export] Instance Prefix_dec : EqDecision Prefix.
Proof. solve_decision. Defined.

Section Observe.
Context `{Codec} `{GateAttrs} `{HeadAttrs} `{SpanItems}.

(** ** A committed prefix *)

(** The loop of [_head_records], and of [_committed], over a reader: what it yields up to the limit,
    and the stop its reader is left with *)
Fixpoint bounded_frames (fuel : nat) (limit : option Z) (s : Stream) : option (list LogRecord * ReadStop) :=
  match fuel with
  | O => None
  | S fuel =>
    match read_frame (tell s) s with
    | (None, stop, _) => Some ([], stop)
    | (Some record, stop, s) =>
      if past limit (seq record) then Some ([], stop)
      else if eqb limit (Some (seq record)) then Some ([record], stop)
      else match bounded_frames fuel limit s with
           | Some (records, stop) => Some (record :: records, stop)
           | None => None
           end
    end
  end.

(** That loop over [RunLogReader(stream, offset)], which reads nothing when [start] is the limit *)
Definition bounded_records (file : list byte) (offset : Z) (limit : option Z) (start : Z) : list LogRecord * ReadStop :=
  if eqb limit (Some start) then ([], stop_at RunLogStopReason.END offset)
  else
    let (magic, s) := read (Z.of_nat (length RUN_LOG_MAGIC)) {| stream_bytes := file; stream_at := 0 |} in
    if negb (eqb magic RUN_LOG_MAGIC)
    then ([], if starts_with RUN_LOG_MAGIC magic
              then {| stop_reason := RunLogStopReason.TORN_TAIL; stop_offset := 0; stop_detail := "incomplete magic" |}
              else corrupt_at 0 "bad magic")
    else match bounded_frames (S (length file)) limit
                 (seek (if offset =? 0 then Z.of_nat (length RUN_LOG_MAGIC) else offset) s) with
         | Some read => read
         | None => ([], stop_at RunLogStopReason.END offset)
         end.

(** [_head_records]: the records, and how the generator ends *)
Definition head_records (path : string) (file : list byte) (limit : option Z) : list LogRecord * result ReadError unit :=
  let (records, stop) := bounded_records file 0 limit 0 in
  let through := through 0 records in
  (records,
   if eqb limit (Some through) then Ok tt
   else if eqb (stop_reason stop) RunLogStopReason.CORRUPTION then Err (damaged path (stop_detail stop))
   else match limit with
        | Some limit =>
          if through <? limit
          then Err (damaged path ("committed sequence " +:+ pretty limit +:+ " exceeds log sequence " +:+ pretty through))
          else Ok tt
        | None => Ok tt
        end).

(** [_committed]: the records, the offset its reader is left with, and how the generator ends *)
Definition committed (path : string) (file : list byte) (offset : Z) (limit : option Z) (start : Z)
    : list LogRecord * Z * result ReadError unit :=
  let (records, stop) := bounded_records file offset limit start in
  let through := through start records in
  (records, stop_offset stop,
   if eqb limit (Some through) then Ok tt
   else if eqb (stop_reason stop) RunLogStopReason.CORRUPTION || short_of limit through
   then Err (damaged path ("invalid committed prefix at sequence " +:+ pretty through))
   else Ok tt).

(** The loop of [_recover_prefix]; [None] where it returns at a record of no legacy epoch *)
Fixpoint scan_prefix (headed : bool) (s : Scan) (records : list LogRecord) : result string (option Scan) :=
  match records with
  | [] => Ok (Some s)
  | record :: records =>
    if negb headed && negb (legacy_epoch_record record) then Ok None
    else let* s := scan_record s record in scan_prefix headed s records
  end.

(** [_recover_prefix], of what [_prefix] keeps of the head: whether there is one, and its limit *)
Definition recover_prefix (path : string) (file : list byte) (headed : bool) (limit : option Z)
    : result ReadError Observed.Recovered :=
  let (records, ended) := head_records path file limit in
  let* scanned := raising (scan_prefix headed no_scan records) in
  match scanned with
  | None => Ok {| Observed.epoch := no_epoch; Observed.input_value := None; Observed.head := None |}
  | Some s =>
    let* _ := ended in
    let* head_ := raising (project_head (scan_state s) None) in
    Ok {| Observed.epoch := scan_epoch s; Observed.input_value := measured_value_of (scan_upgrade s); Observed.head := head_ |}
  end.

(** ** The observer *)

(** [_prefix] *)
Definition prefix (log : LogView) (head : option RunHead) : Prefix :=
  {| prefix_device := device log; prefix_inode := inode log; prefix_modified_ns := modified_ns log;
     prefix_size := Z.of_nat (length (log_bytes log));
     prefix_committed := match head with Some head => head_committed_seq head | None => None end;
     prefix_headed := not_none head |}.

(** [HeadObserver]: its memo is an [OrderedDict], oldest first *)
Record HeadObserver := { scans : Z; capacity : Z; memo : list (Prefix * result string Observed.Recovered) }.

Definition known_as (key : Prefix) (memo : list (Prefix * result string Observed.Recovered)) : option (result string Observed.Recovered) :=
  option_map snd (next_such (fun it => eqb it.1 key) memo).

Definition without (key : Prefix) (memo : list (Prefix * result string Observed.Recovered)) : list (Prefix * result string Observed.Recovered) :=
  List.filter (fun it => negb (eqb it.1 key)) memo.

(** [self._memo[key] = fact] *)
Fixpoint put (key : Prefix) (fact : result string Observed.Recovered) (memo : list (Prefix * result string Observed.Recovered))
    : list (Prefix * result string Observed.Recovered) :=
  match memo with
  | [] => [(key, fact)]
  | (k, f) :: memo => if eqb k key then (k, fact) :: memo else (k, f) :: put key fact memo
  end.

(** [_remember] *)
Definition remember (key : Prefix) (fact : result string Observed.Recovered) (o : HeadObserver) : HeadObserver :=
  let memo := put key fact (memo o) in
  {| scans := scans o; capacity := capacity o; memo := if capacity o <? Z.of_nat (length memo) then drop 1 memo else memo |}.

(** [HeadObserver._recovered] *)
Definition recovered (o : HeadObserver) (path : string) (log : LogView) (head : option RunHead)
    : result ReadError Observed.Recovered * HeadObserver :=
  let key := prefix log head in
  match known_as key (memo o) with
  | Some known =>
    (match known with Ok fact => Ok fact | Err reason => Err (damaged path reason) end,
     {| scans := scans o; capacity := capacity o; memo := without key (memo o) ++ [(key, known)] |})
  | None =>
    let o := {| scans := scans o + 1; capacity := capacity o; memo := memo o |} in
    match recover_prefix path (log_bytes log) (prefix_headed key) (prefix_committed key) with
    | Ok fact => (Ok fact, remember key (Ok fact) o)
    | Err FileNotFoundError => (Err FileNotFoundError, o)
    | Err error => (Err error, remember key (Err (message_of error)) o)
    end
  end.

(** [HeadObserver.read], and [read_run_head] of the process's observer *)
Definition read_run_head (o : HeadObserver) (path log_path : string) (files : RunFiles) : result ReadError RunHead * HeadObserver :=
  match read_raw_head files with
  | Err error => (damage_is_typed path (Err error), o)
  | Ok head =>
    match log_file files with
    | Some log =>
      if needs_recovery head then
        let (fact, o) := recovered o log_path log (Some head) in
        (damage_is_typed path (let* fact := fact in Ok (apply_recovered head fact)), o)
      else (Ok head, o)
    | None => (Ok head, o)
    end
  end.

(** [HeadObserver.current_epoch], and [read_current_epoch] of the process's observer *)
Definition read_current_epoch (o : HeadObserver) (path : string) (files : RunFiles) : result ReadError (option CurrentEpoch) * HeadObserver :=
  match head_file files, log_file files with
  | Some (Err message), _ => (damage_is_typed path (Err (ValueError message)), o)
  | Some (Ok _), None => (Err (damaged path "run.head exists without run.log"), o)
  | None, None => (Ok None, o)
  | head, Some log =>
    let head := match head with Some (Ok head) => Some head | _ => None end in
    let (fact, o) := recovered o path log head in
    (damage_is_typed path (let* fact := fact in Ok (Some (Observed.epoch fact))), o)
  end.

(** [read_committed_records] *)
Definition read_committed_records (path : string) (files : RunFiles) : result ReadError (list LogRecord) :=
  damage_is_typed path (
    let* head := match head_file files with None => Ok None | Some head => let* head := raising head in Ok (Some head) end in
    match log_file files with
    | None => Err FileNotFoundError
    | Some log =>
      let (records, ended) := head_records path (log_bytes log) (match head with Some head => head_committed_seq head | None => None end) in
      let* _ := ended in Ok records
    end).

(** ** From the nearest keyframe *)

Definition ACTIVITY_RECORD_LIMIT : Z := 256.

(** [CommittedPrefix] *)
Record CommittedPrefix := { prefix_head : RunHead; prefix_skeleton : Keyframe; last_record_at : option Timestamp }.

(** The candidates of [_seed], the latest first *)
Definition candidates (limit : option Z) (files : gmap Z (result string Keyframe)) : list (Z * result string Keyframe) :=
  sorted_by (fun a b => b.1 <? a.1) (List.filter (fun it => negb (past limit it.1)) (map_to_list files)).

(** [_seed] *)
Definition seed (path : string) (files : RunFiles) (limit : option Z) : result ReadError (option Keyframe) :=
  let found := candidates limit (keyframe_files files) in
  let found := match found, limit with
               | (n, _) :: others, Some limit =>
                 let previous := match others with (previous, _) :: _ => previous | [] => 0 end in
                 if (n =? limit) && (limit - previous <=? ACTIVITY_RECORD_LIMIT) then others else found
               | _, _ => found
               end in
  match found with
  | [] => Ok None
  | (sequence, candidate) :: _ =>
    let* seed := raising candidate in
    match log_file files with
    | None => if through_seq seed =? sequence then Err FileNotFoundError
              else Err (damaged path (pretty sequence +:+ ".pb: keyframe does not match the committed log"))
    | Some log =>
      if negb (through_seq seed =? sequence) || (Z.of_nat (length (log_bytes log)) <? log_offset seed)
      then Err (damaged path (pretty sequence +:+ ".pb: keyframe does not match the committed log"))
      else Ok (Some seed)
    end
  end.

(** [read_committed_prefix] *)
Definition read_committed_prefix (path : string) (files : RunFiles) : result ReadError CommittedPrefix :=
  damage_is_typed path (
    let* stated := read_raw_head files in
    let limit := head_committed_seq stated in
    let* seed := seed path files limit in
    let skeleton := default fresh_keyframe seed in
    match log_file files with
    | None => Err FileNotFoundError
    | Some log =>
      let* _ := raising (open_reader (log_offset skeleton)) in
      let '(records, offset, ended) := committed path (log_bytes log) (log_offset skeleton) limit (through_seq skeleton) in
      let* skeleton := raising (rfold append_skeleton skeleton records) in
      let* _ := ended in
      let* upgraded := raising (upgrade_in_place (skeleton <| Skeleton.log_offset := offset |>)) in
      let (skeleton, measured) := upgraded in
      let head_ := if needs_recovery stated
                   then apply_recovered stated {| Observed.epoch := current_epoch_of_keyframe skeleton no_epoch;
                          Observed.input_value := measured; Observed.head := head skeleton |}
                   else stated in
      Ok {| prefix_head := head_; prefix_skeleton := skeleton;
            last_record_at := match last records with Some record => record_at record | None => None end |}
    end).

End Observe.

(** ** Reading up to the limit *)

Section Reading.
Context `{CodecLaws} `{GateAttrs} `{HeadAttrs} `{SpanItems}.

Lemma bounded_total fuel limit s :
  (length (rest_of s) < fuel)%nat -> 0 <= stream_at s -> is_Some (bounded_frames fuel limit s).
Proof.
  revert s. induction fuel as [|fuel IH]; intros s Hlen Hat; [lia|]. cbn [bounded_frames].
  destruct (read_frame (tell s) s) as [[[r|] stop] s'] eqn:E; [|by eauto].
  destruct (past limit (seq r)); [by eauto|]. destruct (eqb limit _); [by eauto|].
  destruct (read_frame_shrinks _ _ _ _ _ E Hat) as (Hlt & Hat' & _).
  destruct (IH s') as [[rs st] ->]; [lia|done|by eauto].
Qed.

(** The limit is not met before the last record. *)
Definition before_limit (limit : option Z) (r : LogRecord) : Prop := past limit (seq r) = false /\ limit <> Some (seq r).

Lemma bounded_all fuel limit s rs stop :
  read_frames fuel s = Some (rs, stop) -> Forall (before_limit limit) rs -> bounded_frames fuel limit s = Some (rs, stop).
Proof.
  revert s rs. induction fuel as [|fuel IH]; intros s rs; [done|]. cbn [read_frames bounded_frames].
  destruct (read_frame (tell s) s) as [[[r|] st] s']; [|by intros [= <- <-]].
  destruct (read_frames fuel s') as [[rs' st']|] eqn:E; [|done]. intros [= <- <-] [[Hp Hl] Hrs]%Forall_cons.
  rewrite Hp, (proj2 (eqb_false _ _) Hl). by rewrite (IH _ _ E Hrs).
Qed.

Lemma bounded_whole rs r frames fuel s rest :
  encode_frames (rs ++ [r]) = Ok frames -> 0 <= stream_at s -> rest_of s = frames ++ rest ->
  (length (rest_of s) < fuel)%nat -> Forall (before_limit (Some (seq r))) rs ->
  bounded_frames fuel (Some (seq r)) s =
  Some (rs ++ [r], stop_at RunLogStopReason.END (stream_at s + Z.of_nat (length frames))).
Proof.
  revert frames fuel s. induction rs as [|r' rs IH]; intros frames fuel s Henc Hat Hrest Hfuel Hrs;
    destruct fuel as [|fuel]; try lia; cbn [app bounded_frames] in *; apply encode_frames_cons in Henc as (f & f' & Hf & Hf' & ->);
    rewrite <- app_assoc in Hrest; rewrite (read_frame_whole _ _ _ _ _ Hf Hat Hrest).
  - injection Hf' as <-. cbn [past]. rewrite Z.ltb_irrefl, eqb_refl, app_nil_r. done.
  - apply Forall_cons in Hrs as [[Hp Hl] Hrs]. rewrite Hp, (proj2 (eqb_false _ _) Hl).
    pose proof (rest_after _ _ _ Hrest Hat) as Hrest'. pose proof (frame_nonempty _ _ Hf).
    rewrite (IH f' fuel (seek (stream_at s + Z.of_nat (length f)) s) Hf' ltac:(cbn; lia) Hrest'); [|..|done].
    + cbn [seek stream_at]. do 3 f_equal. rewrite length_app. lia.
    + rewrite Hrest'. rewrite Hrest, length_app in Hfuel.
      assert (length f <> 0%nat) by (intros ?%nil_length_inv; done). lia.
Qed.

Lemma dense_before start rs r : map seq (rs ++ [r]) = seqZ start (Z.of_nat (length (rs ++ [r]))) ->
  seq r = start + Z.of_nat (length rs) /\ Forall (before_limit (Some (seq r))) rs.
Proof.
  intros Hd. assert (Hlt : forall i x, (rs ++ [r]) !! i = Some x -> seq x = start + Z.of_nat i).
  { intros i x Hi. assert (E : map seq (rs ++ [r]) !! i = Some (seq x)) by (rewrite list_lookup_fmap, Hi; done).
    rewrite Hd in E. apply lookup_seqZ in E. lia. }
  assert (Hr : seq r = start + Z.of_nat (length rs)) by (apply Hlt; by rewrite list_lookup_middle).
  split; [done|]. apply Forall_lookup. intros i x Hi. specialize (Hlt i x). rewrite lookup_app_l in Hlt by by eapply lookup_lt_Some.
  specialize (Hlt Hi). apply lookup_lt_Some in Hi. split; [cbn; lia|]. intros [= E]. lia.
Qed.

(** Frames that are whole are read up to the limit, whatever comes after them. *)
Lemma bounded_prefix f1 rs frames rest offset start :
  encode_frames rs = Ok frames -> offset = magic_length + Z.of_nat (length f1) \/ (offset = 0 /\ f1 = []) ->
  map seq rs = seqZ (start + 1) (Z.of_nat (length rs)) ->
  (bounded_records (RUN_LOG_MAGIC ++ f1 ++ frames ++ rest) offset (Some (start + Z.of_nat (length rs))) start).1 = rs.
Proof.
  intros Henc Hoff Hdense. unfold bounded_records. destruct rs as [|r rs _] using rev_ind.
  { change (Z.of_nat (length [])) with 0. by rewrite Z.add_0_r, eqb_refl. }
  destruct (dense_before _ _ _ Hdense) as [Hr Hrs]. rewrite length_app.
  replace (start + Z.of_nat (length rs + length [r])) with (seq r) by (cbn; lia).
  rewrite (proj2 (eqb_false _ _)) by (intros [= E]; lia).
  destruct (read_magic f1 (frames ++ rest) offset Hoff) as (s0 & -> & -> & Hrest). rewrite eqb_refl. cbn [negb].
  rewrite (bounded_whole rs r frames _ _ rest); [done|done|cbn; lia|done| |done].
  unfold rest_of. cbn [stream_bytes]. rewrite length_drop. lia.
Qed.

Lemma through_dense start rs : map seq rs = seqZ (start + 1) (Z.of_nat (length rs)) -> through start rs = start + Z.of_nat (length rs).
Proof.
  unfold through. destruct rs as [|r rs _] using rev_ind; [cbn; lia|]. rewrite last_snoc. intros [Hr _]%dense_before.
  rewrite length_app. cbn. lia.
Qed.

(** The records of a log that a head has committed, and what follows them in the file *)
Record committed_log (file : list byte) (records : list LogRecord) : Prop := {
  committed_dense : map seq records = seqZ 1 (Z.of_nat (length records));
  committed_file : exists frames rest, encode_frames records = Ok frames /\ file = RUN_LOG_MAGIC ++ frames ++ rest
}.

Lemma head_records_committed path file records : committed_log file records ->
  head_records path file (Some (Z.of_nat (length records))) = (records, Ok tt).
Proof.
  intros [Hdense (frames & rest & Henc & ->)]. unfold head_records.
  pose proof (bounded_prefix [] records frames rest 0 0 Henc (or_intror (conj eq_refl eq_refl)) Hdense) as Hb.
  cbn [app] in Hb. rewrite Z.add_0_l in Hb.
  destruct (bounded_records _ _ _ _) as [rs stop]. cbn in Hb. subst rs. rewrite (through_dense 0) by done.
  by rewrite Z.add_0_l, eqb_refl.
Qed.

Lemma committed_suffix path file records k fk :
  committed_log file records -> (k <= length records)%nat -> encode_frames (take k records) = Ok fk ->
  forall offset, offset = magic_length + Z.of_nat (length fk) \/ (offset = 0 /\ k = 0%nat) ->
  exists o, committed path file offset (Some (Z.of_nat (length records))) (Z.of_nat k) = (drop k records, o, Ok tt).
Proof.
  intros [Hdense (frames & rest & Henc & ->)] Hk Hfk offset Hoff. unfold committed.
  rewrite <- (take_drop k records) in Henc. apply encode_frames_app in Henc as (f & f2 & Hf & Hf2 & ->).
  rewrite Hfk in Hf. injection Hf as <-.
  assert (Hdense2 : map seq (drop k records) = seqZ (Z.of_nat k + 1) (Z.of_nat (length (drop k records)))).
  { rewrite <- skipn_map, Hdense, length_drop.
    replace (Z.of_nat (length records)) with (Z.of_nat k + Z.of_nat (length records - k)) by lia.
    rewrite seqZ_app, drop_app_ge by (try rewrite length_seqZ; lia).
    by rewrite length_seqZ, Nat2Z.id, Nat.sub_diag, Z.add_comm. }
  pose proof (bounded_prefix fk (drop k records) f2 rest offset (Z.of_nat k) Hf2) as Hb.
  rewrite <- app_assoc. rewrite length_drop in Hb. replace (Z.of_nat k + Z.of_nat (length records - k)) with (Z.of_nat (length records)) in Hb by lia.
  destruct (bounded_records _ _ _ _) as [rs stop] eqn:E. cbn [fst] in Hb. rewrite Hb; [|..].
  - eexists. rewrite through_dense by done. rewrite length_drop.
    replace (Z.of_nat k + Z.of_nat (length records - k)) with (Z.of_nat (length records)) by lia. by rewrite eqb_refl.
  - destruct Hoff as [Hoff|[Hoff ->]]; [by left|right]. rewrite take_0 in Hfk. by injection Hfk as <-.
  - by rewrite <- length_drop.
Qed.

Lemma scan_prefix_headed s rs : scan_prefix true s rs = rbind (rfold scan_record s rs) (fun s => Ok (Some s)).
Proof.
  revert s. induction rs as [|r rs IH]; intros s; [done|]. cbn [scan_prefix negb andb rfold].
  destruct (scan_record s r); cbn [rbind]; [|done]. apply IH.
Qed.

(** What a scan of a committed log finds, or why it fails *)
Lemma recover_committed path file records : committed_log file records ->
  recover_prefix path file true (Some (Z.of_nat (length records))) =
  let* s := raising (rfold scan_record no_scan records) in
  let* head_ := raising (project_head (scan_state s) None) in
  Ok {| Observed.epoch := scan_epoch s; Observed.input_value := measured_value_of (scan_upgrade s); Observed.head := head_ |}.
Proof.
  intros Hlog. unfold recover_prefix. rewrite (head_records_committed _ _ _ Hlog), scan_prefix_headed.
  by destruct (rfold scan_record no_scan records).
Qed.

(** ** The nearest keyframe *)

(** The files of a run whose writer published its head and keyframes: whatever else is in its log
    and its later keyframes *)
Record published (files : RunFiles) (head_ : RunHead) (records : list LogRecord) : Prop := {
  published_head : head_file files = Some (Ok head_);
  published_limit : head_committed_seq head_ = Some (Z.of_nat (length records));
  published_log : exists log, log_file files = Some log /\ committed_log (log_bytes log) records;
  published_keyframes n c : keyframe_files files !! n = Some c -> n <= Z.of_nat (length records) ->
    exists k kf fk, n = Z.of_nat k /\ encode_frames (take k records) = Ok fk /\ c = Ok kf /\
      fold_skeleton (take k records) (magic_length + Z.of_nat (length fk)) None = Ok kf
}.

Lemma elem_candidates limit files n c : (n, c) ∈ candidates limit files -> files !! n = Some c /\ past limit n = false.
Proof.
  unfold candidates. rewrite elem_sorted_by, elem_of_filterb, elem_of_map_to_list, negb_true_iff. done.
Qed.

Lemma fold_from_offset kf rs o :
  rfold append_skeleton (kf <| Skeleton.log_offset := o |>) rs =
  rbind (rfold append_skeleton kf rs) (fun kf' => Ok (kf' <| Skeleton.log_offset := o |>)).
Proof.
  revert kf. induction rs as [|r rs IH]; intros kf; [done|]. cbn [rfold]. rewrite append_skeleton_offset.
  destruct (append_skeleton kf r); cbn [rbind]; [|done]. apply IH.
Qed.

(** A skeleton to read the rest of the committed records onto *)
Record seeds (records : list LogRecord) (k : nat) (kf : Keyframe) : Prop := {
  seeds_within : (k <= length records)%nat;
  seeds_through : through_seq kf = Z.of_nat k;
  seeds_frames : exists fk, encode_frames (take k records) = Ok fk /\
    (log_offset kf = magic_length + Z.of_nat (length fk) \/ (log_offset kf = 0 /\ k = 0%nat));
  seeds_folds all : rfold append_skeleton fresh_keyframe records = Ok all ->
    rfold append_skeleton kf (drop k records) = Ok (all <| Skeleton.log_offset := log_offset kf |>)
}.

Lemma seeds_fresh records : seeds records 0 fresh_keyframe.
Proof.
  split; [lia|done| |].
  - exists []. split; [done|by right].
  - intros all Hall. rewrite drop_0, Hall. f_equal.
    assert (E : fresh_keyframe = fresh_keyframe <| Skeleton.log_offset := 0 |>) by done.
    rewrite E, fold_from_offset in Hall. destruct (rfold _ _ _); cbn in Hall; [|done]. by injection Hall as <-.
Qed.

Lemma seeds_keyframe records k kf fk : (k <= length records)%nat -> encode_frames (take k records) = Ok fk ->
  fold_skeleton (take k records) (magic_length + Z.of_nat (length fk)) None = Ok kf -> seeds records k kf.
Proof.
  intros Hk Hfk Hfold. unfold fold_skeleton in Hfold. cbn [default] in Hfold.
  destruct (rfold append_skeleton fresh_keyframe (take k records)) as [kf0|] eqn:E; cbn [rbind] in Hfold; [|done].
  assert (Hkf : kf = kf0 <| Skeleton.log_offset := magic_length + Z.of_nat (length fk) |>) by by injection Hfold as <-.
  clear Hfold. destruct (fold_dense _ _ _ E) as [_ Hth]. rewrite length_take_le in Hth by done. split; [done| | |].
  - rewrite Hkf. cbn in *. lia.
  - exists fk. split; [done|left]. by rewrite Hkf.
  - intros all. rewrite <- (take_drop k records) at 1. rewrite rfold_app, E. cbn [rbind]. intros Hall.
    rewrite Hkf, fold_from_offset, Hall. done.
Qed.

Lemma seed_folds path files head_ records : published files head_ records ->
  exists k sd, seed path files (Some (Z.of_nat (length records))) = Ok sd /\ seeds records k (default fresh_keyframe sd) /\
    open_reader (log_offset (default fresh_keyframe sd)) = Ok tt.
Proof.
  intros [_ _ (log & Hlog & Hfile) Hkfs]. unfold seed.
  assert (Hin : forall found, (forall it, it ∈ found -> it ∈ candidates (Some (Z.of_nat (length records))) (keyframe_files files)) ->
    exists k sd, match found with
      | [] => Ok None
      | (sequence, candidate) :: _ =>
        let* seed := raising candidate in
        match log_file files with
        | None => if through_seq seed =? sequence then Err FileNotFoundError
                  else Err (damaged path (pretty sequence +:+ ".pb: keyframe does not match the committed log"))
        | Some log =>
          if negb (through_seq seed =? sequence) || (Z.of_nat (length (log_bytes log)) <? log_offset seed)
          then Err (damaged path (pretty sequence +:+ ".pb: keyframe does not match the committed log"))
          else Ok (Some seed)
        end
      end = Ok sd /\ seeds records k (default fresh_keyframe sd) /\ open_reader (log_offset (default fresh_keyframe sd)) = Ok tt).
  { intros [|[n c] found] Hf.
    - exists 0%nat, None. split; [done|]. split; [apply seeds_fresh|done].
    - destruct (elem_candidates _ _ _ _ (Hf (n, c) ltac:(by left))) as [Hn Hpast]. cbn in Hpast.
      destruct (Hkfs n c Hn ltac:(lia)) as (k & kf & fk & -> & Hfk & -> & Hfold). exists k, (Some kf). cbn [raising rbind].
      change (default fresh_keyframe (Some kf)) with kf.
      rewrite Hlog. pose proof (seeds_keyframe records k kf fk ltac:(lia) Hfk Hfold) as Hseeds.
      pose proof (seeds_through _ _ _ Hseeds) as Hth. rewrite Hth, Z.eqb_refl. cbn [negb orb].
      destruct (seeds_frames _ _ _ Hseeds) as (fk' & Hfk' & Hoff). rewrite Hfk in Hfk'. injection Hfk' as <-.
      destruct Hfile as [_ (frames & rest & Henc & ->)].
      rewrite <- (take_drop k records) in Henc. apply encode_frames_app in Henc as (f & f2 & Hf1 & _ & ->).
      rewrite Hfk in Hf1. injection Hf1 as <-. unfold open_reader. fold magic_length.
      assert (Hm : magic_length = 8) by done. rewrite !length_app. change (length RUN_LOG_MAGIC) with 8%nat.
      split; [rewrite (proj2 (Z.ltb_ge _ _)) by lia; done|]. split; [done|].
      destruct Hoff as [->|[-> _]]; [|done]. rewrite (proj2 (Z.ltb_ge (magic_length + _) _)) by lia. by rewrite andb_false_r. }
  apply Hin. intros it. destruct (candidates _ _) as [|[n c] others] eqn:E; [done|].
  destruct (_ && _); [|done]. intros Hit. by right.
Qed.

(** ** What readers see *)

(** A reader of committed records gets those the head has committed, whatever follows them in
    the log: an append whose head is not yet published, a torn frame or damage is not looked at. *)
Theorem nothing_past_the_head path files head_ records log :
  head_file files = Some (Ok head_) -> head_committed_seq head_ = Some (Z.of_nat (length records)) ->
  log_file files = Some log -> committed_log (log_bytes log) records ->
  read_committed_records path files = Ok records.
Proof.
  intros Hhead Hlimit Hlog Hfile. unfold read_committed_records. rewrite Hhead. cbn [raising rbind]. rewrite Hlog, Hlimit.
  by rewrite (head_records_committed _ _ _ Hfile).
Qed.

Lemma bounded_of_iterate file limit start rs stop : iterate file 0 = Some (rs, stop) -> Forall (before_limit limit) rs ->
  limit <> Some start -> bounded_records file 0 limit start = (rs, stop).
Proof.
  unfold iterate, bounded_records. destruct (read _ _) as [magic s]. intros Hit Hrs Hl. rewrite (proj2 (eqb_false _ _) Hl).
  destruct (negb _); [by injection Hit as <- <-|]. by rewrite (bounded_all _ _ _ _ _ Hit Hrs).
Qed.

Lemma cut_short records frames file k stop : encode_frames records = Ok frames -> log_cut records file k stop ->
  (length file < length (RUN_LOG_MAGIC ++ frames))%nat -> (0 < length records)%nat -> (k < length records)%nat.
Proof.
  intros Henc Hcut Hlen Hpos. destruct Hcut as [part tail Hm Htail|k fk Hle Hfk|k fk r frame part tail Hfk Hr Hf Hc Hp Ht]; [done|..].
  - destruct (decide (k = length records)) as [->|]; [|lia]. rewrite take_ge in Hfk by lia. rewrite Henc in Hfk. injection Hfk as <-. lia.
  - by eapply lookup_lt_Some.
Qed.

(** A log that lost records its head has committed, however it was cut, is damage: no reader
    takes what is left for the run. *)
Theorem lost_records_are_damage path files head_ records frames log :
  head_file files = Some (Ok head_) -> head_committed_seq head_ = Some (Z.of_nat (length records)) ->
  log_file files = Some log -> encode_frames records = Ok frames ->
  map seq records = seqZ 1 (Z.of_nat (length records)) -> (0 < length records)%nat ->
  log_bytes log `prefix_of` RUN_LOG_MAGIC ++ frames -> log_bytes log <> RUN_LOG_MAGIC ++ frames ->
  exists m, read_committed_records path files = Err (RunLogDamagedError m).
Proof.
  intros Hhead Hlimit Hlog Henc Hdense Hpos Hpre Hne.
  assert (Hlen : (length (log_bytes log) < length (RUN_LOG_MAGIC ++ frames))%nat).
  { destruct Hpre as [tail Htail]. rewrite Htail in *. rewrite (length_app (log_bytes log)).
    destruct tail; [by rewrite app_nil_r in Hne|cbn; lia]. }
  destruct (truncation_cut _ _ _ Henc Hpre) as (k & stop & Hcut). pose proof (cut_short _ _ _ _ _ Henc Hcut Hlen Hpos) as Hk.
  pose proof (log_cut_reads _ _ _ _ Hcut) as Hit.
  assert (Hd : map seq (take k records) = seqZ 1 (Z.of_nat k)) by (by apply dense_take; [lia|]).
  assert (Hthrough : through 0 (take k records) = Z.of_nat k).
  { rewrite (through_dense 0); rewrite length_take_le by lia; [lia|done]. }
  assert (Hb : bounded_records (log_bytes log) 0 (Some (Z.of_nat (length records))) 0 = (take k records, stop)).
  { apply bounded_of_iterate; [done| |intros [= ?]; lia]. apply Forall_forall. intros r Hr.
    assert (Hs : seq r ∈ map seq (take k records)) by by apply list_elem_of_fmap_2.
    rewrite Hd, elem_of_seqZ in Hs. split; [cbn; lia|]. intros [= E]. lia. }
  unfold read_committed_records. rewrite Hhead. cbn [raising rbind]. rewrite Hlog, Hlimit. unfold head_records. rewrite Hb, Hthrough.
  rewrite (proj2 (eqb_false _ _)) by (intros [= ?]; lia). rewrite (proj2 (Z.ltb_lt _ _)) by lia.
  destruct (eqb _ _); by eexists.
Qed.

(** C31: the head that a reader derives from the nearest keyframe and the records after it is the one
    that a scan of every committed record finds, with the same facts supplied to it; and its skeleton
    is of exactly the committed record. *)
Theorem prefix_head_is_scanned `{!SpanItemsLaw _} path path' log_path files head_ records kf o :
  published files head_ records -> Forall fact_matches records -> epochs_in_order 0 records = true ->
  rfold append_skeleton fresh_keyframe records = Ok kf -> memo o = [] ->
  match read_committed_prefix path files with
  | Ok p => (read_run_head o path' log_path files).1 = Ok (prefix_head p) /\
            through_seq (prefix_skeleton p) = Z.of_nat (length records)
  | Err e => needs_recovery head_ = true ->
             exists m, e = damaged path m /\ (read_run_head o path' log_path files).1 = Err (damaged path' m)
  end.
Proof.
  intros Hpub Hm Hin Hkf Hmemo. destruct (seed_folds path _ _ _ Hpub) as (k & sd & Hsd & [Hk Hth (fk & Hfk & Hoff) Hfold] & Hopen).
  destruct Hpub as [Hhead Hlimit (log & Hlog & Hfile) _]. destruct (fold_dense _ _ _ Hkf) as [Hdense Hthrough].
  unfold read_committed_prefix, read_run_head, read_raw_head. rewrite Hhead. cbn [raising rbind]. rewrite Hlimit, Hsd. cbn [rbind].
  rewrite Hlog, Hopen, Hth. cbn [raising rbind].
  destruct (committed_suffix path _ _ k fk Hfile Hk Hfk _ Hoff) as (offset & ->).
  rewrite (Hfold kf Hkf). cbn [raising rbind].
  set (kf' := kf <| Skeleton.log_offset := log_offset _ |> <| Skeleton.log_offset := offset |>).
  assert (Hkf' : fold_skeleton records offset None = Ok kf') by (unfold fold_skeleton; cbn [default]; rewrite Hkf; done).
  pose proof (upgrade_folded _ _ _ Hkf' Hm) as Hup.
  unfold recovered. rewrite Hmemo. cbn [known_as next_such option_map].
  change (prefix_headed (prefix log (Some head_))) with true. change (prefix_committed (prefix log (Some head_))) with (head_committed_seq head_).
  rewrite Hlimit.
  rewrite (recover_committed log_path _ _ Hfile).
  destruct (rfold scan_record no_scan records) as [s|e] eqn:Hs; cbn [raising rbind].
  - destruct Hup as [Hview ->]. destruct (scan_epoch_agrees _ _ Hdense Hin Hs) as [_ He].
    destruct (project_head (scan_state s) None) as [h|e]; cbn [raising rbind damage_is_typed].
    + split; [|cbn [prefix_skeleton through_seq update]; cbn in Hthrough |- *; lia].
      assert (Hcur : current_epoch_of_keyframe (kf' <| epochs := epochs (scan_state s) |> <| head := h |>) no_epoch = scan_epoch s).
      { rewrite <- He, Hview. reflexivity. }
      rewrite Hcur. by destruct (needs_recovery head_).
    + intros ->. by eexists.
  - rewrite Hup. cbn [raising rbind damage_is_typed]. intros ->. by eexists.
Qed.

(** ** The memo *)

(** The path a prefix is recovered from is only named in what is raised. *)
Lemma head_records_path path path' file limit :
  (head_records path file limit).1 = (head_records path' file limit).1 /\
  ((head_records path file limit).2 = Ok tt <-> (head_records path' file limit).2 = Ok tt) /\
  forall e, (head_records path file limit).2 = Err e -> exists m, e = RunLogDamagedError m.
Proof.
  unfold head_records. destruct (bounded_records _ _ _ _) as [rs stop]. cbn [fst snd].
  destruct (eqb limit _); [done|]. destruct (eqb _ _); [by (split; [done|]; split; [done|]; intros e [= <-]; eexists)|].
  destruct limit as [limit|]; [|done]. destruct (_ <? _); [|done].
  split; [done|]. split; [done|]. intros e [= <-]. by eexists.
Qed.

Lemma recover_path path path' file headed limit :
  match recover_prefix path file headed limit, recover_prefix path' file headed limit with
  | Ok f, Ok f' => f = f'
  | Err e, Err e' => e <> FileNotFoundError /\ e' <> FileNotFoundError
  | _, _ => False
  end.
Proof.
  unfold recover_prefix. destruct (head_records_path path path' file limit) as (E1 & E2 & E3).
  destruct (head_records_path path' path file limit) as (_ & _ & E4).
  destruct (head_records path file limit) as [rs ended], (head_records path' file limit) as [rs' ended']. cbn in *. subst rs'.
  destruct (scan_prefix headed no_scan rs) as [[s|]|]; cbn [raising rbind]; [|done|done].
  destruct ended as [[]|e], ended' as [[]|e']; cbn [rbind].
  - by destruct (project_head (scan_state s) None).
  - by specialize (proj1 E2 eq_refl).
  - by specialize (proj2 E2 eq_refl).
  - destruct (E3 _ eq_refl) as [m ->], (E4 _ eq_refl) as [m' ->]. done.
Qed.

(** Two answers of readers that name the run by other paths *)
Definition same_answer {A} (a b : result ReadError A) : Prop :=
  match a, b with Ok a, Ok b => a = b | Err _, Err _ => True | _, _ => False end.

(** Everything remembered is what the log says, when a log whose [stat] did not change has not
    changed: [content] is what the log of each [stat] holds. *)
Definition remembers (content : Prefix -> list byte) (o : HeadObserver) : Prop :=
  forall key fact, (key, fact) ∈ memo o -> forall path,
    match fact, recover_prefix path (content key) (prefix_headed key) (prefix_committed key) with
    | Ok f, Ok f' => f = f'
    | Err _, Err _ => True
    | _, _ => False
    end.

Lemma known_as_elem key m fact : known_as key m = Some fact -> (key, fact) ∈ m.
Proof.
  unfold known_as. destruct (next_such _ m) as [[k f]|] eqn:E; [|done]. intros [= <-].
  apply next_such_Some in E as [Hin Hk]. cbn in Hk. by apply eqb_true in Hk as ->.
Qed.

Lemma elem_put key fact m it : it ∈ put key fact m -> it = (key, fact) \/ it ∈ m.
Proof.
  induction m as [|[k f] m IH]; cbn [put]; [set_solver|]. destruct (eqb k key) eqn:E.
  - apply eqb_true in E as ->. set_solver.
  - rewrite !elem_of_cons. intuition.
Qed.

Lemma length_put key fact m : (length (put key fact m) <= S (length m))%nat.
Proof. induction m as [|[k f] m IH]; cbn; [lia|]. destruct (eqb k key); cbn; lia. Qed.

Lemma length_without key m fact : known_as key m = Some fact -> (length (without key m) < length m)%nat.
Proof.
  unfold known_as, without. induction m as [|[k f] m IH]; cbn [next_such List.filter]; [done|].
  change ((k, f).1) with k. destruct (eqb k key); cbn [negb length].
  - intros _. assert (Hl := List.filter_length_le (fun it : Prefix * result string Observed.Recovered => negb (eqb it.1 key)) m). lia.
  - intros Hk. specialize (IH Hk). cbn [length]. lia.
Qed.

Lemma remembers_put content key fact o : remembers content o ->
  (forall path, match fact, recover_prefix path (content key) (prefix_headed key) (prefix_committed key) with
    | Ok f, Ok f' => f = f' | Err _, Err _ => True | _, _ => False end) -> remembers content (remember key fact o).
Proof.
  intros Ho Hfact k f. unfold remember. cbn [memo].
  assert (Hput : (k, f) ∈ put key fact (memo o) -> forall path,
    match f, recover_prefix path (content k) (prefix_headed k) (prefix_committed k) with
    | Ok f, Ok f' => f = f' | Err _, Err _ => True | _, _ => False end).
  { intros [[= -> ->]|Hin]%elem_put; [exact Hfact|exact (Ho k f Hin)]. }
  destruct (_ <? _); [|done]. intros Hin. apply Hput. rewrite <- (take_drop 1 (put key fact (memo o))). apply elem_of_app. by right.
Qed.

(** One read of a prefix: the same answer as a scan, at the cost of a scan only when it is not
    remembered *)
Lemma recovered_answers content o path log head_ : remembers content o -> log_bytes log = content (prefix log head_) ->
  let key := prefix log head_ in
  let (answer, o') := recovered o path log head_ in
  same_answer answer (recover_prefix path (log_bytes log) (prefix_headed key) (prefix_committed key)) /\
  remembers content o' /\ capacity o' = capacity o /\
  (Z.of_nat (length (memo o)) <= capacity o -> Z.of_nat (length (memo o')) <= capacity o') /\
  scans o' = scans o + (if known_as key (memo o) then 0 else 1).
Proof.
  intros Ho Hlog key. unfold recovered. fold key. destruct (known_as key (memo o)) as [known|] eqn:Hk.
  - pose proof (Ho key known (known_as_elem _ _ _ Hk) path) as Hknown. rewrite Hlog. fold key.
    split; [destruct known, (recover_prefix _ _ _ _); done|]. split; [|split; [done|split; [|cbn; lia]]].
    + intros k f. cbn [memo]. rewrite elem_of_app, list_elem_of_singleton. intros [[Hin _]%elem_of_filterb|[= -> ->]]; [exact (Ho k f Hin)|].
      exact (Ho key known (known_as_elem _ _ _ Hk)).
    + cbn [memo capacity]. rewrite length_app. pose proof (length_without _ _ _ Hk). cbn [length]. lia.
  - assert (Hcap : forall fact, Z.of_nat (length (memo o)) <= capacity o ->
      Z.of_nat (length (memo (remember key fact {| scans := scans o + 1; capacity := capacity o; memo := memo o |}))) <= capacity o).
    { intros fact Hlen. unfold remember. cbn [memo capacity]. pose proof (length_put key fact (memo o)).
      destruct (Z.ltb_spec (capacity o) (Z.of_nat (length (put key fact (memo o))))); [rewrite length_drop|]; lia. }
    assert (Hrem : remembers content {| scans := scans o + 1; capacity := capacity o; memo := memo o |}) by exact Ho.
    pose proof (fun path' => recover_path path path' (log_bytes log) (prefix_headed key) (prefix_committed key)) as Hpath.
    destruct (recover_prefix path (log_bytes log) _ _) as [f|e] eqn:Hr.
    + split; [done|]. split; [|split; [done|split; [apply Hcap|done]]]. apply remembers_put; [exact Hrem|].
      intros path'. specialize (Hpath path'). unfold key at 1. rewrite <- Hlog. exact Hpath.
    + assert (Herr : forall path', match recover_prefix path' (content key) (prefix_headed key) (prefix_committed key) with Ok _ => False | Err _ => True end).
      { intros path'. specialize (Hpath path'). unfold key. rewrite <- Hlog. fold key. by destruct (recover_prefix path' _ _ _). }
      assert (He : e <> FileNotFoundError) by (specialize (Hpath path); rewrite Hr in Hpath; apply Hpath).
      destruct e as [m|m|]; [..|done]; (split; [done|]; split; [|split; [done|split; [apply Hcap|done]]];
        apply remembers_put; [exact Hrem|]; intros path'; specialize (Herr path'); by destruct (recover_prefix _ _ _ _)).
Qed.

(** A read of the head of a run, and a sequence of them by one observer *)
Record HeadRead := { read_path : string; read_log_path : string; read_files : RunFiles }.

Fixpoint reads (o : HeadObserver) (requests : list HeadRead) : list (result ReadError RunHead) * HeadObserver :=
  match requests with
  | [] => ([], o)
  | r :: requests =>
    let (answer, o) := read_run_head o (read_path r) (read_log_path r) (read_files r) in
    let (answers, o) := reads o requests in
    (answer :: answers, o)
  end.

Definition new_observer (capacity_ : Z) : HeadObserver := {| scans := 0; capacity := capacity_; memo := [] |}.

(** What a log holds is a function of what its [stat] says. *)
Definition told (content : Prefix -> list byte) (files : RunFiles) : Prop :=
  forall log head_, log_file files = Some log -> head_file files = Some (Ok head_) ->
    log_bytes log = content (prefix log (Some head_)).

Lemma read_answers content o r : remembers content o -> told content (read_files r) ->
  let (answer, o') := read_run_head o (read_path r) (read_log_path r) (read_files r) in
  same_answer answer (read_run_head (new_observer (capacity o)) (read_path r) (read_log_path r) (read_files r)).1 /\
  remembers content o' /\ capacity o' = capacity o /\
  (Z.of_nat (length (memo o)) <= capacity o -> Z.of_nat (length (memo o')) <= capacity o').
Proof.
  intros Ho Htold. unfold read_run_head, read_raw_head.
  destruct (head_file (read_files r)) as [[head_|m]|] eqn:Hhead; cbn [raising damage_is_typed fst]; [|done|done].
  destruct (log_file (read_files r)) as [log|] eqn:Hlog; [|done]. destruct (needs_recovery head_); [|done].
  specialize (Htold log head_ Hlog Hhead).
  pose proof (recovered_answers content o (read_log_path r) log (Some head_) Ho Htold) as Ha.
  pose proof (recovered_answers content (new_observer (capacity o)) (read_log_path r) log (Some head_)) as Hb.
  destruct (recovered o _ _ _) as [a o1], (recovered (new_observer _) _ _ _) as [b o2]. cbn [fst].
  destruct Ha as (Ha & Hrem & Hcap & Hlen & _). split; [|done].
  destruct Hb as (Hb & _); [by intros k f ?%elem_of_nil|done|].
  destruct (recover_prefix _ _ _ _); destruct a as [|[]], b as [|[]]; cbn in *; congruence || done.
Qed.

(** What an observer remembers changes no answer: of any sequence of reads, of any runs, each is
    answered as by an observer that has read nothing, and the memo never outgrows its capacity. *)
Theorem memo_changes_no_answer content capacity_ requests :
  Forall (fun r => told content (read_files r)) requests -> 0 <= capacity_ ->
  let (answers, o) := reads (new_observer capacity_) requests in
  Forall2 (fun r answer => same_answer answer
    (read_run_head (new_observer capacity_) (read_path r) (read_log_path r) (read_files r)).1) requests answers /\
  Z.of_nat (length (memo o)) <= capacity_.
Proof.
  intros Hall Hcap. assert (Hgen : forall o, remembers content o -> capacity o = capacity_ -> Z.of_nat (length (memo o)) <= capacity_ ->
    let (answers, o) := reads o requests in
    Forall2 (fun r answer => same_answer answer
      (read_run_head (new_observer capacity_) (read_path r) (read_log_path r) (read_files r)).1) requests answers /\
    Z.of_nat (length (memo o)) <= capacity_).
  { induction Hall as [|r requests Hr _ IH]; intros o Ho Hc Hl; [by split|]. cbn [reads].
    pose proof (read_answers content o r Ho Hr) as Hread. destruct (read_run_head o _ _ _) as [answer o1].
    rewrite Hc in Hread. destruct Hread as (Ha & Ho1 & Hc1 & Hl1). specialize (IH o1 Ho1 Hc1 ltac:(lia)).
    destruct (reads o1 requests) as [answers o2]. destruct IH as [IH1 IH2]. split; [by constructor|done]. }
  apply Hgen; [by intros k f ?%elem_of_nil|done|cbn; lia].
Qed.

End Reading.

(** ** A retained run, read *)

(** A codec of the records of [sample_retained] *)
Definition sample_retained_codec : Codec :=
  {| to_binary r := [seq r mod 256];
     from_binary payload := match payload with
       | [b] => match next_such (fun r => seq r =? b) sample_retained with Some r => Ok r | None => Err "not a sample"%string end
       | _ => Err "not a sample"%string
       end;
     validate r := ensure (bool_decide (r ∈ sample_retained)) "not a sample"%string;
     crc32c payload := foldr Z.add 0 payload mod 2 ^ 32 |}.

Lemma sample_retained_laws : CodecLaws sample_retained_codec.
Proof.
  split.
  - intros r. cbn. repeat constructor; cbn; apply Z.mod_pos_bound; lia.
  - intros r Hr%ensure_Ok. rewrite bool_decide_eq_true in Hr.
    assert (Hall : Forall (fun r => @from_binary sample_retained_codec (@to_binary sample_retained_codec r) = Ok r) sample_retained).
    { repeat (apply List.Forall_cons; [vm_compute; reflexivity|]). apply List.Forall_nil. }
    rewrite Forall_forall in Hall. by apply Hall.
  - intros payload. apply Z.mod_pos_bound. lia.
Qed.

Definition sample_log (n : nat) : list byte :=
  match @encode_frames sample_retained_codec (take n sample_retained) with Ok frames => RUN_LOG_MAGIC ++ frames | Err _ => [] end.

(** A head that states neither its epoch nor its performance, a keyframe at the third record, and a
    torn frame after the fifth *)
Definition sample_stated : RunHead := (sample_head 5) <| head_epoch := 0 |> <| performance_stated := false |>.
Definition sample_files : RunFiles :=
  {| head_file := Some (Ok sample_stated);
     log_file := Some {| device := 1; inode := 1; modified_ns := 0; log_bytes := sample_log 5 ++ [6; 0; 0] |};
     keyframe_files := {[3 := match fold_skeleton (take 3 sample_retained) (Z.of_nat (length (sample_log 3))) None with
                              | Ok kf => Ok kf | Err e => Err e end]} |}.

Lemma sample_committed_log : @committed_log sample_retained_codec (sample_log 5 ++ [6; 0; 0]) sample_retained.
Proof.
  split; [vm_compute; reflexivity|]. eexists _, [6; 0; 0]. split; [vm_compute; reflexivity|]. vm_compute. reflexivity.
Qed.

Lemma sample_published : @published sample_retained_codec sample_files sample_stated sample_retained.
Proof.
  split; [reflexivity|reflexivity|eexists; split; [reflexivity|exact sample_committed_log]|].
  intros n c Hn _. unfold sample_files in Hn. cbn [keyframe_files] in Hn. apply lookup_singleton_Some in Hn as [<- <-].
  eexists 3%nat, _, _. split; [reflexivity|]. split; [vm_compute; reflexivity|]. split; vm_compute; reflexivity.
Qed.

Lemma nothing_past_the_head_witness :
  @read_committed_records sample_retained_codec "run.log" sample_files = Ok sample_retained.
Proof.
  apply (@nothing_past_the_head sample_retained_codec sample_retained_laws
    "run.log" sample_files sample_stated sample_retained
    {| device := 1; inode := 1; modified_ns := 0; log_bytes := sample_log 5 ++ [6; 0; 0] |});
    [reflexivity|reflexivity|reflexivity|exact sample_committed_log].
Defined.

Lemma lost_records_are_damage_witness :
  exists m, @read_committed_records sample_retained_codec "run.log"
    {| head_file := Some (Ok sample_stated); log_file := Some {| device := 1; inode := 1; modified_ns := 0; log_bytes := sample_log 3 |};
       keyframe_files := ∅ |} = Err (RunLogDamagedError m).
Proof.
  eapply (@lost_records_are_damage sample_retained_codec sample_retained_laws
    "run.log" _ sample_stated sample_retained); [reflexivity|reflexivity|reflexivity|vm_compute; reflexivity|vm_compute; reflexivity|cbn; lia| |].
  - apply starts_with_prefix. vm_compute. reflexivity.
  - vm_compute. discriminate.
Defined.

Lemma prefix_head_is_scanned_witness :
  exists p, @read_committed_prefix sample_retained_codec sample_subject sample_head_attrs sample_items "run.log" sample_files = Ok p /\
    (@read_run_head sample_retained_codec sample_subject sample_head_attrs sample_items (new_observer 8) "run.head" "run.log" sample_files).1
      = Ok (prefix_head p) /\ head_epoch (prefix_head p) = 2.
Proof.
  destruct (@read_committed_prefix sample_retained_codec sample_subject sample_head_attrs sample_items "run.log" sample_files) as [p|e] eqn:E;
    [|vm_compute in E; discriminate].
  pose proof (@prefix_head_is_scanned sample_retained_codec sample_retained_laws sample_subject sample_head_attrs sample_items sample_items_law
    "run.log" "run.head" "run.log" sample_files sample_stated sample_retained
    (match fold_skeleton sample_retained 0 None with Ok kf => kf | Err _ => fresh_keyframe end) (new_observer 8) sample_published) as Hread.
  rewrite E in Hread. exists p. split; [reflexivity|]. split.
  - apply Hread; [repeat constructor|vm_compute; reflexivity|vm_compute; reflexivity|reflexivity].
  - vm_compute in E. injection E as <-. reflexivity.
Defined.

(** The second read is of a prefix the first one scanned. *)
Lemma memo_changes_no_answer_witness :
  let r := {| read_path := "run.head"; read_log_path := "run.log"; read_files := sample_files |} in
  let read := @reads sample_retained_codec sample_subject sample_head_attrs sample_items (new_observer 1) [r; r] in
  scans read.2 = 1 /\
  Forall2 (fun r answer => same_answer answer
    (@read_run_head sample_retained_codec sample_subject sample_head_attrs sample_items (new_observer 1)
      (read_path r) (read_log_path r) (read_files r)).1) [r; r] read.1 /\ length (memo read.2) = 1%nat.
Proof.
  cbn zeta. split; [vm_compute; reflexivity|].
  pose proof (@memo_changes_no_answer sample_retained_codec sample_retained_laws sample_subject sample_head_attrs sample_items
    (fun _ => sample_log 5 ++ [6; 0; 0]) 1
    [{| read_path := "run.head"; read_log_path := "run.log"; read_files := sample_files |};
     {| read_path := "run.head"; read_log_path := "run.log"; read_files := sample_files |}]) as Hall.
  assert (Htold : told (fun _ => sample_log 5 ++ [6; 0; 0]) sample_files) by (intros log h [= <-] _; reflexivity).
  specialize (Hall ltac:(repeat constructor; exact Htold) ltac:(lia)).
  destruct (reads _ _) as [answers o] eqn:E. split; [exact (proj1 Hall)|].
  vm_compute in E. injection E as _ <-. reflexivity.
Defined.

(** A remembered damage is raised with the path of its log before the message that names it already. *)
Example remembered_damage_repeats_path :
  let files := {| head_file := Some (Ok sample_stated);
                  log_file := Some {| device := 1; inode := 1; modified_ns := 0; log_bytes := [0] |}; keyframe_files := ∅ |} in
  let r := {| read_path := "run.head"; read_log_path := "run.log"; read_files := files |} in
  (@reads sample_retained_codec sample_subject sample_head_attrs sample_items (new_observer 8) [r; r]).1 =
  [Err (RunLogDamagedError "run.log: bad magic"); Err (RunLogDamagedError "run.log: run.log: bad magic")].
Proof. vm_compute. reflexivity. Qed.
