(* ===== verification/Writer.v ===== *)
(** * The one writer of a run.log

    [libs/vs-runlog/src/vs_runlog/_file.py]: [FileRunLogWriter] and the commit policy
    [_CommitIntent].  Appends come from any thread; one committer makes them durable.  The writer
    is a step relation whose steps are what happens under one hold of the lock, or one operation
    on the disk by the committer (with the projections it computed before it).

    The disk: the bytes of run.log, how many of them a sync has made durable, the published
    [run.head] and the keyframes.  A crash keeps the durable bytes and any part of the others. *)

From S2P Require Import Prelude PyFloat Identities LogRecord Skeleton Epoch Framing LogFile.

(** ** The commit policy *)

(** [COMMIT_INTERVAL = 0.1] and [CHECKPOINT_RECORDS = 256] *)
Definition COMMIT_INTERVAL : float := SpecFloat.S754_finite false 7205759403792794 (-56).
Definition CHECKPOINT_RECORDS : Z := 256.

(** [_WaitCommit] and [_CommitBatch] *)
Inductive CommitAction : Set := WaitCommit (delay : option float) | CommitBatch (checkpoint : bool).
#[export] Instance CommitAction_dec : EqDecision CommitAction.
Proof. solve_decision. Defined.

(** [_CommitIntent] *)
Record CommitIntent := { due : option float; urgent_seq : Z; wanted_checkpoint : Z; closing : bool }.
#[export] Instance CommitIntent_dec : EqDecision CommitIntent.
Proof. solve_decision. Defined.

Definition no_intent : CommitIntent :=
  {| due := None; urgent_seq := 0; wanted_checkpoint := 0; closing := false |}.

(** [_CommitIntent.queued] *)
Definition queued (i : CommitIntent) (at_ : float) : CommitIntent :=
  match due i with
  | Some _ => i
  | None => {| due := Some (fadd at_ COMMIT_INTERVAL); urgent_seq := urgent_seq i;
               wanted_checkpoint := wanted_checkpoint i; closing := closing i |}
  end.

(** [_CommitIntent.requested] *)
Definition requested (i : CommitIntent) (target : Z) (checkpoint closing_ : bool) : CommitIntent :=
  {| due := due i;
     urgent_seq := Z.max (urgent_seq i) target;
     wanted_checkpoint := Z.max (wanted_checkpoint i) (if checkpoint then target else 0);
     closing := closing i || closing_ |}.

(** [_CommitIntent.taken] *)
Definition taken (i : CommitIntent) : CommitIntent :=
  {| due := None; urgent_seq := urgent_seq i; wanted_checkpoint := wanted_checkpoint i; closing := closing i |}.

(** [_CommitIntent.next]: what the committer does now; [None] is to stop *)
Definition next (i : CommitIntent) (now : float) (committed checkpointed : Z) (failed : bool) : option CommitAction :=
  if failed then None
  else
    let checkpoint := checkpointed <? wanted_checkpoint i in
    match due i with
    | None =>
      if checkpoint then Some (CommitBatch true)
      else if closing i then None else Some (WaitCommit None)
    | Some due =>
      let delay := fmax fzero (fsub due now) in
      if negb (feq delay fzero) && negb checkpoint && (urgent_seq i <=? committed)
      then Some (WaitCommit (Some delay))
      else Some (CommitBatch checkpoint)
    end.

(** ** The writer *)

(** Where the committer is: waiting for work, with a batch it has not synced, with the records of
    a synced batch it has still to fold, with everything published, or ended, perhaps while it
    published a head. *)
Inductive Phase : Type :=
  | Idle
  | Taken (batch : list (LogRecord * Z)) (checkpoint : bool)
  | Folding (rest : list (LogRecord * Z)) (any_record checkpoint : bool)
  | Published
  | Stopped (publishing : option RunHead).

(** The fields of [FileRunLogWriter], and the disk under it *)
Record Writer := {
  file : list byte;
  durable : nat;
  run_head : option RunHead;
  keyframes : gmap Z Keyframe;
  pending : list (LogRecord * Z);
  intent : CommitIntent;
  failed : bool;
  committed : Z;
  sequence : Z;
  writer_epoch : CurrentEpoch;
  skeleton : Keyframe;
  upgrade : InputUpgrade;
  checkpoint_seq : Z;
  process : option RunProcess;
  phase : Phase
}.
#[export] Instance eta_Writer : Eta Writer := fun w =>
  {| file := file w; durable := durable w; run_head := run_head w; keyframes := keyframes w;
     pending := pending w; intent := intent w; failed := failed w; committed := committed w;
     sequence := sequence w; writer_epoch := writer_epoch w; skeleton := skeleton w;
     upgrade := upgrade w; checkpoint_seq := checkpoint_seq w; process := process w; phase := phase w |}.

(** [_is_boundary] *)
Definition is_boundary (record : LogRecord) : bool :=
  match body record with
  | Some (Body.lifecycle _) | Some (Body.epoch_started _) | Some (Body.declaration_amended _) => true
  | _ => false
  end.

Section Writer.
Context `{Codec} `{GateAttrs}.

(** The caller's headline projection of a skeleton, [project_head] by default; the pid of this
    process; and the rules of [validate] for heads and keyframes *)
Context (headline : Keyframe -> option RunProcess -> option RunHead) (own_pid : Z).
Context (validate_head : RunHead -> result string unit) (validate_keyframe : Keyframe -> result string unit).

(** [_check_open] *)
Definition is_open (w : Writer) : bool := negb (failed w) && negb (closing (intent w)).

(** [_request_commit] *)
Definition request_commit (w : Writer) (target : Z) (checkpoint closing_ : bool) : Writer :=
  w <| intent := requested (intent w) target checkpoint closing_ |>.

(** [append], up to the wait of a boundary: [now] is the clock's reading *)
Definition append (w : Writer) (now : float) (record : LogRecord) : result string Writer :=
  let* frame := encode_frame record in
  require* is_open w else "run.log writer is closed"%string in
  require* seq record =? sequence w + 1 else "expected run.log seq"%string in
  let file_ := file w ++ frame in
  let w := w <| file := file_ |> in
  let w := w <| intent := queued (intent w) now |> in
  let w := w <| pending := pending w ++ [(record, Z.of_nat (length file_))] |> in
  let w := w <| sequence := seq record |> in
  let w := w <| writer_epoch := current_epoch [record] (writer_epoch w) |> in
  Ok (if is_boundary record then request_commit w (seq record) true false else w).

(** [commit] and [checkpoint], up to their wait *)
Definition commit (w : Writer) (checkpoint : bool) : result string Writer :=
  require* is_open w else "run.log writer is closed"%string in
  Ok (request_commit w (sequence w) checkpoint false).

(** [close], up to its wait *)
Definition close (w : Writer) : Writer := request_commit w (sequence w) true true.

(** The condition [_wait_committed] waits for: it returns when the target is committed *)
Definition is_committed (w : Writer) (target : Z) (checkpoint : bool) : bool :=
  negb ((committed w <? target) || (checkpoint && (checkpoint_seq w <? target))).

(** [read]: the committed prefix, of a fresh reader of the file *)
Definition read_committed (w : Writer) : result string (list LogRecord) :=
  require* is_open w else "run.log writer is closed"%string in
  let whole := match iterate (file w) 0 with Some (records, _) => records | None => [] end in
  Ok (take (Z.to_nat (committed w)) whole).

(** [publish] of a keyframe: its name is immutable *)
Definition publish_keyframe (w : Writer) : result string Writer :=
  let n := through_seq (skeleton w) in
  let* _ := validate_keyframe (skeleton w) in
  let* keyframes_ :=
    match keyframes w !! n with
    | None => Ok (<[n := skeleton w]> (keyframes w))
    | Some existing =>
      require* eqb existing (skeleton w) else "immutable keyframe conflicts"%string in Ok (keyframes w)
    end in
  Ok (w <| keyframes := keyframes_ |> <| checkpoint_seq := n |>).

(** The head [_publish_head] writes: the projection, with the measured input it does not state *)
Definition stated_head (w : Writer) : option RunHead :=
  match headline (skeleton w) (process w) with
  | None => None
  | Some head =>
    Some match head_objective head with
    | Some objective =>
      if is_none (headline_input objective)
      then head <| head_objective := Some (objective <| headline_input := measured_value_of (upgrade w) |>) |>
      else head
    | None => head
    end
  end.

(** [_publish_head] *)
Definition publish_head (w : Writer) : result string Writer :=
  match stated_head w with
  | None => Ok w
  | Some head => let* _ := validate_head head in Ok (w <| run_head := Some head |>)
  end.

(** The process this writer is, once a header opens its epoch *)
Definition opened_process (process_ : option RunProcess) (record : LogRecord) : option RunProcess :=
  match body record, record_at record with
  | Some (Body.epoch_started _), Some at_ =>
    if match process_ with None => true | Some p => process_epoch p <? epoch record end
    then Some {| pid := own_pid; process_epoch := epoch record; started_at := at_ |}
    else process_
  | _, _ => process_
  end.

(** The projections after a record is folded *)
Definition with_record (w : Writer) (record : LogRecord) (offset : Z)
    (skeleton_ : Keyframe) (upgrade_ : InputUpgrade) : Writer :=
  w <| skeleton := skeleton_ <| log_offset := offset |> |> <| upgrade := upgrade_ |>
    <| process := opened_process (process w) record |>.

(** One round of the loop of [_commit_batch] *)
Definition fold_record (w : Writer) (record : LogRecord) (offset : Z) : result string Writer :=
  let* skeleton_ := append_skeleton (skeleton w) record in
  let* upgrade_ := observe (upgrade w) record in
  let w := with_record w record offset skeleton_ upgrade_ in
  if is_boundary record then publish_keyframe w else Ok w.

(** What [_commit_batch] does after its loop *)
Definition wants_keyframe (w : Writer) (checkpoint : bool) : bool :=
  let through := through_seq (skeleton w) in
  (checkpoint && (checkpoint_seq w <? through)) || (CHECKPOINT_RECORDS <=? through - checkpoint_seq w).
Definition publish_batch (w : Writer) (any_record checkpoint : bool) : result string Writer :=
  let* w := if wants_keyframe w checkpoint then publish_keyframe w else Ok w in
  if any_record then publish_head w else Ok w.

(** [_commit_batch], undisturbed *)
Fixpoint fold_batch (w : Writer) (batch : list (LogRecord * Z)) : result string Writer :=
  match batch with
  | [] => Ok w
  | (record, offset) :: batch => let* w := fold_record w record offset in fold_batch w batch
  end.

Definition synced_file (w : Writer) (batch : list (LogRecord * Z)) : nat :=
  match batch with [] => durable w | _ :: _ => length (file w) end.

Definition commit_batch (w : Writer) (batch : list (LogRecord * Z)) (checkpoint : bool) : result string Writer :=
  let* w := fold_batch (w <| durable := synced_file w batch |>) batch in
  publish_batch w (match batch with [] => false | _ :: _ => true end) checkpoint.

(** [_take_batch]: the action of the policy now *)
Definition policy (w : Writer) (now : float) : option CommitAction :=
  next (intent w) now (committed w) (checkpoint_seq w) (failed w).

(** The head that is being published, or whose publication failed *)
Definition publishing_head (w : Writer) : option RunHead :=
  match phase w with
  | Folding [] true _ => stated_head w
  | Stopped publishing => publishing
  | _ => None
  end.

Definition is_stopped (w : Writer) : bool := match phase w with Stopped _ => true | _ => false end.

(** [_take_batch] when the policy commits: the batch leaves the queue *)
Definition take_batch (w : Writer) : Writer := w <| pending := [] |> <| intent := taken (intent w) |>.

(** One round of [_run_committer] *)
Definition committer_round (w : Writer) (checkpoint : bool) : result string Writer :=
  let* w := commit_batch (take_batch w) (pending w) checkpoint in
  Ok (w <| committed := through_seq (skeleton w) |>).

(** ** Steps *)

(** The label is the record a caller gave to [append]. *)
Inductive step : option LogRecord -> Writer -> Writer -> Prop :=
  (* the callers, under the lock *)
  | step_append w now record w' : append w now record = Ok w' -> step (Some record) w w'
  | step_torn w now record frame part tail w' :
    encode_frame record = Ok frame -> append w now record = Ok w' -> frame = part ++ tail ->
    step (Some record) w (w <| file := file w ++ part |> <| failed := true |>)
  | step_commit w checkpoint w' : commit w checkpoint = Ok w' -> step None w w'
  | step_close w : step None w (close w)
  (* the committer *)
  | step_take w now checkpoint :
    phase w = Idle -> policy w now = Some (CommitBatch checkpoint) ->
    step None w (take_batch (w <| phase := Taken (pending w) checkpoint |>))
  | step_stop w now : phase w = Idle -> policy w now = None -> step None w (w <| phase := Stopped None |>)
  | step_sync w batch checkpoint :
    phase w = Taken batch checkpoint ->
    step None w (w <| durable := synced_file w batch |>
              <| phase := Folding batch (match batch with [] => false | _ :: _ => true end) checkpoint |>)
  | step_fold w record offset rest any_record checkpoint w' :
    phase w = Folding ((record, offset) :: rest) any_record checkpoint ->
    fold_record w record offset = Ok w' ->
    step None w (w' <| phase := Folding rest any_record checkpoint |>)
  | step_keyframe w any_record checkpoint w' :
    phase w = Folding [] any_record checkpoint -> wants_keyframe w checkpoint = true ->
    publish_keyframe w = Ok w' -> step None w w'
  | step_publish w any_record checkpoint w' :
    phase w = Folding [] any_record checkpoint -> publish_batch w any_record checkpoint = Ok w' ->
    step None w (w' <| phase := Published |>)
  | step_committed w :
    phase w = Published ->
    step None w (w <| committed := through_seq (skeleton w) |> <| phase := Idle |>)
  (* a failed sync, projection or publication ends the committer *)
  | step_fail w : is_stopped w = false -> step None w (w <| failed := true |> <| phase := Stopped (publishing_head w) |>).

(** ** Crashes *)

(** What a crash leaves of run.log: the durable bytes, and any part of the rest *)
Definition crash_file (w : Writer) (left_ : list byte) : Prop :=
  take (durable w) (file w) `prefix_of` left_ /\ left_ `prefix_of` file w.

(** What it leaves of run.head: the published one, or one whose publication it interrupted *)
Definition crash_head (w : Writer) (left_ : option RunHead) : Prop :=
  left_ = run_head w \/ (left_ <> None /\ left_ = publishing_head w).

(** ** Opening *)

(** The file a writer creates where there is none *)
Definition created : Recovered :=
  {| LogFile.sequence := 0; recovered_epoch := no_epoch; LogFile.skeleton := fresh_keyframe;
     LogFile.upgrade := fresh_upgrade; recovered_file := RUN_LOG_MAGIC |}.

(** [__init__] after recovery *)
Definition start (r : Recovered) (head_ : option RunHead) (keyframes_ : gmap Z Keyframe) : result string Writer :=
  let w := {| file := recovered_file r; durable := length (recovered_file r); run_head := head_;
    keyframes := keyframes_; pending := []; intent := no_intent; failed := false; committed := 0;
    sequence := LogFile.sequence r; writer_epoch := recovered_epoch r; skeleton := LogFile.skeleton r;
    upgrade := LogFile.upgrade r; checkpoint_seq := 0; process := None; phase := Idle |} in
  if sequence w =? 0 then Ok w
  else
    let* w := publish_head w in
    let* w := publish_keyframe w in
    Ok (w <| committed := sequence w |>).

(** A run of the writer: the records given to [append], in order *)
Inductive run (w0 : Writer) : list LogRecord -> Writer -> Prop :=
  | run_start : run w0 [] w0
  | run_step records w label w' :
    run w0 records w -> step label w w' -> run w0 (records ++ option_list label) w'.

End Writer.

(** ** The bytes of a log *)

Section Bytes.
Context `{CodecLaws}.

Definition frames_of (rs : list LogRecord) : list byte :=
  match encode_frames rs with Ok frames => frames | Err _ => [] end.
Definition log_bytes (rs : list LogRecord) : list byte := RUN_LOG_MAGIC ++ frames_of rs.

Definition encodable (rs : list LogRecord) : Prop := encode_frames rs = Ok (frames_of rs).

Lemma encodable_app rs rs' :
  encodable (rs ++ rs') <-> encodable rs /\ encodable rs'.
Proof.
  unfold encodable, frames_of. split.
  - intros (f & f' & Hf & Hf' & _)%encode_frames_app. by rewrite Hf, Hf'.
  - intros [Hf Hf']. assert (Hff : encode_frames (rs ++ rs') = Ok (frames_of rs ++ frames_of rs')).
    { apply encode_frames_app. by eauto. }
    by rewrite Hff.
Qed.

Lemma frames_of_app rs rs' : encodable (rs ++ rs') -> frames_of (rs ++ rs') = frames_of rs ++ frames_of rs'.
Proof.
  intros Henc. pose proof Henc as (f & f' & Hf & Hf' & E)%encode_frames_app.
  rewrite E. unfold frames_of. by rewrite Hf, Hf'.
Qed.

Lemma log_bytes_app rs rs' : encodable (rs ++ rs') -> log_bytes (rs ++ rs') = log_bytes rs ++ frames_of rs'.
Proof. intros. unfold log_bytes. by rewrite frames_of_app, app_assoc. Qed.

Lemma encodable_take k rs : encodable rs -> encodable (take k rs).
Proof. intros Henc. rewrite <- (take_drop k rs) in Henc. by apply encodable_app in Henc as []. Qed.

Lemma encodable_one r frame : encode_frame r = Ok frame -> encodable [r] /\ frames_of [r] = frame.
Proof.
  intros Hf. assert (encode_frames [r] = Ok frame) as E by (cbn; by rewrite Hf; cbn; rewrite app_nil_r).
  unfold encodable, frames_of. by rewrite E.
Qed.

Lemma encodable_snoc rs r frame : encodable rs -> encode_frame r = Ok frame ->
  encodable (rs ++ [r]) /\ log_bytes (rs ++ [r]) = log_bytes rs ++ frame.
Proof.
  intros Hrs Hr. destruct (encodable_one _ _ Hr) as [Hone Hframe].
  assert (encodable (rs ++ [r])) by (by apply encodable_app). split; [done|].
  by rewrite log_bytes_app, Hframe.
Qed.

Lemma log_bytes_prefix k rs : encodable rs -> log_bytes (take k rs) `prefix_of` log_bytes rs.
Proof.
  intros Henc. exists (frames_of (drop k rs)). rewrite <- log_bytes_app; by rewrite take_drop.
Qed.

Lemma log_bytes_mono j k rs : encodable rs -> (j <= k)%nat ->
  log_bytes (take j rs) `prefix_of` log_bytes (take k rs).
Proof.
  intros Henc Hjk. replace (take j rs) with (take j (take k rs)) by (rewrite take_take; f_equal; lia).
  apply log_bytes_prefix.
  by apply encodable_take.
Qed.

(** The records that follow [at_] bytes, each with the offset after its frame *)
Fixpoint entries (at_ : nat) (rs : list LogRecord) : list (LogRecord * Z) :=
  match rs with
  | [] => []
  | r :: rs =>
    let at_ := (at_ + length (frames_of [r]))%nat in
    (r, Z.of_nat at_) :: entries at_ rs
  end.

Lemma entries_snoc at_ rs r : encodable (rs ++ [r]) ->
  entries at_ (rs ++ [r]) = entries at_ rs ++ [(r, Z.of_nat (at_ + length (frames_of (rs ++ [r]))))].
Proof.
  revert at_. induction rs as [|x rs IH]; intros at_ Henc; cbn [app entries]; [done|].
  change ((x :: rs) ++ [r]) with ([x] ++ (rs ++ [r])) in Henc.
  pose proof (frames_of_app _ _ Henc) as E. apply encodable_app in Henc as [_ Hrest].
  rewrite IH by done. cbn [app] in E. by rewrite E, length_app, Nat.add_assoc.
Qed.

Lemma entries_length at_ rs : length (entries at_ rs) = length rs.
Proof. revert at_. induction rs as [|r rs IH]; intros at_; cbn; [done|]. by rewrite IH. Qed.

(** ** Folds of a log *)

Context `{GateAttrs}.

(** The projections after the records [rs] *)
Definition folded (rs : list LogRecord) (sk : Keyframe) (u : InputUpgrade) : Prop :=
  exists e, rfold recover_record no_records rs = Ok (Z.of_nat (length rs), e, sk, u).

Definition keyframe_at (rs : list LogRecord) (sk : Keyframe) : Keyframe :=
  sk <| log_offset := Z.of_nat (length (log_bytes rs)) |>.

Lemma fold_through rs w w' : rfold recover_record w rs = Ok w' ->
  through_seq w.1.2 = w.1.1.1 -> through_seq w'.1.2 = w'.1.1.1.
Proof.
  intros Hr Hw. refine (rfold_inv (fun w => through_seq w.1.2 = w.1.1.1) recover_record w rs w' _ Hw Hr).
  clear. intros [[[n e] s] u] r w' Hw. cbn in *. destruct (_ =? _) eqn:E; cbn; [|done].
  destruct (append_skeleton s r) as [s'|] eqn:Hs; cbn; [|done].
  destruct (observe u r); cbn; [|done]. intros [= <-]. by apply append_skeleton_Ok in Hs as [_ ?].
Qed.

Lemma fold_epoch rs w w' : rfold recover_record w rs = Ok w' -> w'.1.1.2 = current_epoch rs w.1.1.2.
Proof.
  revert w. induction rs as [|r rs IH]; intros w Hr; [by injection Hr as <-|].
  cbn [rfold] in Hr. destruct (recover_record w r) as [w1|] eqn:E; cbn [rbind] in Hr; [|done].
  rewrite (IH _ Hr). clear Hr. destruct w as [[[n e] s] u]. cbn in E.
  destruct (_ =? _); cbn in E; [|done]. destruct (append_skeleton s r); cbn in E; [|done].
  destruct (observe u r); cbn in E; [|done]. by injection E as <-.
Qed.

Lemma folded_through rs sk u : folded rs sk u -> through_seq sk = Z.of_nat (length rs).
Proof. intros [e He]. by apply (fold_through _ _ _ He). Qed.

Lemma folded_snoc rs sk u r sk' u' :
  folded rs sk u -> append_skeleton sk r = Ok sk' -> observe u r = Ok u' -> folded (rs ++ [r]) sk' u'.
Proof.
  intros Hf Hsk Hu. pose proof (folded_through _ _ _ Hf) as Ht. destruct Hf as [e He].
  pose proof (append_skeleton_Ok _ _ _ Hsk) as [Hseq _].
  eexists. rewrite rfold_app, He. cbn [rbind rfold recover_record].
  rewrite (proj2 (Z.eqb_eq _ _)) by lia. cbn [ensure rbind]. rewrite Hsk. cbn [rbind]. rewrite Hu. cbn [rbind].
  do 4 f_equal. rewrite length_app. cbn [length]. lia.
Qed.

(** A fold is a function of its records. *)
Lemma folded_det rs sk u sk' u' : folded rs sk u -> folded rs sk' u' -> sk = sk' /\ u = u'.
Proof. intros [e He] [e' He']. rewrite He in He'. by injection He' as _ -> ->. Qed.

(** A record every projection takes: its span is there and its gate attributes decode *)
Definition foldable (r : LogRecord) : bool :=
  match body r with
  | Some (Body.span value) =>
    match record_span value with
    | Some span => match upgrade_span fresh_upgrade span with Ok _ => true | Err _ => false end
    | None => false
    end
  | _ => true
  end.

Lemma upgrade_span_total u u' span v : upgrade_span u span = Ok v -> exists v', upgrade_span u' span = Ok v'.
Proof.
  unfold upgrade_span. cbn zeta. destruct (span_label span) as [l|]; [|by eauto].
  destruct (label_attrs l) as [a|]; [|by eauto].
  destruct (negb (eqb _ _)); [by eauto|]. destruct (negb (eqb _ _)); [by eauto|].
  destruct (gate_subject _); cbn; [by eauto|done].
Qed.

Lemma observe_total u r : foldable r = true -> exists u', observe u r = Ok u'.
Proof.
  unfold foldable, observe, upgrade_apply, apply_body. destruct (body r) as [[]|] eqn:Hb; intros Hr.
  2-7: try (destruct (record_span _) as [span|]; [|done]).
  all: try (destruct (upgrade_span fresh_upgrade span) as [v|] eqn:E; [|done];
    destruct (upgrade_span_total _ u _ _ E) as [v' ->]).
  all: cbn [rbind]; repeat (destruct_match; cbn [rbind]); by eauto.
Qed.

Lemma append_skeleton_total s r :
  foldable r = true -> seq r = through_seq s + 1 -> exists s', append_skeleton s r = Ok s'.
Proof.
  intros Hr Hseq. unfold append_skeleton. rewrite (proj2 (Z.eqb_eq _ _)) by done. cbn [ensure rbind].
  assert (exists s1, append_body (s <| head := None |>) r = Ok s1) as [s1 ->]; [|by eauto].
  unfold append_body, foldable in *. destruct (body r) as [[]|]; try by eauto.
  destruct (record_span _); cbn; [by eauto|done].
Qed.

(** A dense log of such records folds. *)
Lemma fold_total rs w :
  Forall (fun r => foldable r = true) rs -> through_seq w.1.2 = w.1.1.1 ->
  map seq rs = seqZ (w.1.1.1 + 1) (Z.of_nat (length rs)) ->
  exists w', rfold recover_record w rs = Ok w'.
Proof.
  intros Hrs. revert w. induction Hrs as [|r rs Hr _ IH]; intros w Hw Hseq; [by eauto|].
  cbn [map length] in Hseq. rewrite seqZ_cons in Hseq by lia. injection Hseq as Hseq Hrest.
  destruct w as [[[n e] s] u]. cbn [fst snd] in *. cbn [rfold recover_record].
  rewrite (proj2 (Z.eqb_eq _ _)) by done. cbn [ensure rbind].
  destruct (append_skeleton_total s r Hr) as [s' Hs]; [lia|]. rewrite Hs. cbn [rbind].
  destruct (observe_total u r Hr) as [u' ->]. cbn [rbind].
  apply append_skeleton_Ok in Hs as [_ Hs]. apply IH; cbn [fst snd]; [done|].
  rewrite Hrest, Hseq. f_equal; lia.
Qed.

Lemma dense_fold_total rs : Forall (fun r => foldable r = true) rs ->
  map seq rs = seqZ 1 (Z.of_nat (length rs)) -> exists w, rfold recover_record no_records rs = Ok w.
Proof. intros. by apply fold_total. Qed.

End Bytes.
