(* ===== verification/Durability.v ===== *)
(** * What the writer of a run.log keeps

    The invariant of the writer of [Writer], kept by every step, by every crash and by every
    reopening of the log; and what it makes true: a crash loses nothing that was committed,
    keyframes are folds of the log, a commit is served, and a close commits everything. *)

From S2P Require Import Prelude PyFloat Identities LogRecord Skeleton Epoch Framing LogFile Writer.

(** ** The invariant of a writer *)

Section Run.
Context `{CodecLaws} `{GateAttrs}.
Context (headline : Keyframe -> option RunProcess -> option RunHead) (own_pid : Z).
Context (validate_head : RunHead -> result string unit) (validate_keyframe : Keyframe -> result string unit).

(** The one thing asked of a projection: it states how many records it covers. *)
Hypothesis headline_seq : forall sk p h, headline sk p = Some h -> committed_seq h = through_seq sk.

Abbreviation publishing_head := (publishing_head headline).
Abbreviation stated_head := (stated_head headline).
Abbreviation step := (step headline own_pid validate_head validate_keyframe).
Abbreviation run := (run headline own_pid validate_head validate_keyframe).

(** The batch the committer has not folded *)
Definition in_flight (w : Writer) : list (LogRecord * Z) :=
  match phase w with Taken batch _ => batch | Folding rest _ _ => rest | _ => [] end.

(** How many records of it are synced *)
Definition synced (w : Writer) : nat :=
  match phase w with Folding rest _ _ => length rest | _ => 0 end.

(** [log] are the records given to [append], of which the writer accepted [n] and folded [m]; when
    the last write failed, its record may be in the file or not. *)
Record inv (log : list LogRecord) (n m : nat) (w : Writer) : Prop := {
  inv_encodable : encodable log;
  inv_dense : map seq log = seqZ 1 (Z.of_nat (length log));
  inv_length : (m <= n <= length log)%nat;
  inv_sequence : sequence w = Z.of_nat n;
  inv_file : log_bytes (take n log) `prefix_of` file w /\ file w `prefix_of` log_bytes log;
  inv_open : failed w = false -> n = length log;
  inv_epoch : writer_epoch w = current_epoch (take n log) no_epoch;
  inv_folded : exists sk, folded (take m log) sk (upgrade w) /\
    (skeleton w = keyframe_at (take m log) sk \/ (m = 0%nat /\ skeleton w = sk));
  inv_work : is_stopped w = false ->
    in_flight w ++ pending w = entries (length (log_bytes (take m log))) (drop m (take n log));
  inv_durable : (durable w <= length (file w))%nat /\
    (length (log_bytes (take (m + synced w) log)) <= durable w)%nat;
  inv_synced : (m + synced w <= n)%nat;
  inv_committed : committed w <= Z.of_nat m /\ (phase w = Idle -> committed w = Z.of_nat m);
  inv_head : forall h, run_head w = Some h \/ publishing_head w = Some h -> committed_seq h <= Z.of_nat m;
  inv_keyframes : forall k kf, keyframes w !! k = Some kf ->
    exists sk u, 0 < k <= Z.of_nat m /\ folded (take (Z.to_nat k) log) sk u /\
      kf = keyframe_at (take (Z.to_nat k) log) sk;
  inv_due : due (intent w) = None <-> pending w = [];
  inv_requests : urgent_seq (intent w) <= Z.of_nat n /\ wanted_checkpoint (intent w) <= Z.of_nat n /\
    0 <= checkpoint_seq w <= Z.of_nat m;
  inv_closing : closing (intent w) = true ->
    urgent_seq (intent w) = Z.of_nat n /\ wanted_checkpoint (intent w) = Z.of_nat n;
  inv_checkpoint : 0 < checkpoint_seq w -> is_Some (keyframes w !! checkpoint_seq w)
}.

Lemma inv_file_open log n m w : inv log n m w -> failed w = false -> file w = log_bytes log.
Proof.
  intros I Hf. destruct (inv_file _ _ _ _ I) as [Hp Hq]. rewrite (inv_open _ _ _ _ I Hf) in Hp.
  rewrite take_ge in Hp by done. by apply (anti_symm prefix).
Qed.

Lemma inv_through log n m w : inv log n m w -> through_seq (skeleton w) = Z.of_nat m.
Proof.
  intros I. destruct (inv_folded _ _ _ _ I) as (sk & Hf & Hsk). apply folded_through in Hf.
  rewrite length_take_le in Hf by (pose proof (inv_length _ _ _ _ I); lia).
  by destruct Hsk as [->|[_ ->]].
Qed.

Lemma stated_head_seq w h : stated_head w = Some h -> committed_seq h = through_seq (skeleton w).
Proof.
  unfold Writer.stated_head. destruct (headline _ _) as [h'|] eqn:E; [|done].
  apply headline_seq in E. rewrite <- E. intros [= <-].
  destruct (head_objective h') as [o|]; [|done]. by destruct (is_none _).
Qed.

(** A request asks for no more than was accepted. *)
Lemma inv_request log n m w checkpoint closing_ :
  inv log n m w -> (closing_ = true -> checkpoint = true) ->
  inv log n m (request_commit w (sequence w) checkpoint closing_).
Proof.
  intros [? ? ? Hseq ? ? ? ? ? ? ? ? ? ? ? [Hu [Hc ?]] Hclose Hckpt] Hboth. split; try done; cbn.
  - rewrite Hseq. split; [lia|]. split; [|done]. destruct checkpoint; lia.
  - rewrite Hseq. intros Hc'. destruct (closing (intent w)).
    + destruct Hclose as [-> ->]; [done|]. destruct checkpoint; lia.
    + cbn in Hc'. rewrite Hboth by done. lia.
Qed.

Lemma take_snoc {A} k (log : list A) r : (k <= length log)%nat -> take k (log ++ [r]) = take k log.
Proof. intros. by rewrite take_app_le. Qed.

(** What the log knows of its first [m] records stays when it grows. *)
Lemma inv_keyframes_snoc log m (r : LogRecord) k kf :
  (m <= length log)%nat -> 
  (exists sk u, 0 < k <= Z.of_nat m /\ folded (take (Z.to_nat k) log) sk u /\
      kf = keyframe_at (take (Z.to_nat k) log) sk) ->
  exists sk u, 0 < k <= Z.of_nat m /\ folded (take (Z.to_nat k) (log ++ [r])) sk u /\
      kf = keyframe_at (take (Z.to_nat k) (log ++ [r])) sk.
Proof. intros Hm (sk & u & Hk & Hf & ->). exists sk, u. by rewrite take_snoc by lia. Qed.

(** An accepted record is the next of the log. *)
Lemma inv_append log n m w now r w' :
  inv log n m w -> append w now r = Ok w' ->
  inv (log ++ [r]) (S n) m w' /\ seq r = Z.of_nat n + 1 /\ failed w = false.
Proof.
  intros I Happ. unfold append in Happ.
  destruct (encode_frame r) as [frame|] eqn:Hframe; cbn [rbind] in Happ; [|done].
  destruct (is_open w) eqn:Hopen; cbn [ensure rbind] in Happ; [|done].
  destruct (seq r =? sequence w + 1) eqn:Hseq; cbn [ensure rbind] in Happ; [|done].
  unfold is_open in Hopen. to_prop. apply Z.eqb_eq in Hseq.
  assert (Hfile : file w = log_bytes log) by (by eapply inv_file_open).
  pose proof I as [Henc Hdense Hlen Hs Hf Hn He Hfold Hwork [Hd1 Hd2] Hsync Hcom Hhead Hkf Hdue (Hu & Hc & Hck) Hclose Hckpt].
  rewrite Hs in Hseq. specialize (Hn ltac:(done)). split; [|done].
  destruct (encodable_snoc _ _ _ Henc Hframe) as [Henc' Hbytes].
  assert (Hall : forall k, (k <= n)%nat -> take k (log ++ [r]) = take k log) by (intros; apply take_snoc; lia).
  assert (Hlog : take n log = log) by (apply take_ge; lia).
  assert (Hlog' : take (S n) (log ++ [r]) = log ++ [r]) by (apply take_ge; rewrite length_app; cbn; lia).
  injection Happ as <-.
  match goal with |- inv _ _ _ (if _ then request_commit ?w' _ _ _ else _) => set (w1 := w') end.
  assert (inv (log ++ [r]) (S n) m w1) as I1.
  { assert (file w1 = log_bytes (log ++ [r])) as Hfile1 by (change (file w1) with (file w ++ frame); by rewrite Hbytes, Hfile).
    split; try done.
    - apply dense_snoc; [done|lia].
    - rewrite length_app. cbn. lia.
    - cbn. lia.
    - rewrite Hlog', Hfile1. done.
    - cbn. rewrite length_app. cbn. lia.
    - cbn [w1 writer_epoch update]. rewrite Hlog', He, Hlog. unfold current_epoch. by rewrite fold_left_app.
    - by rewrite Hall by lia.
    - intros Hstop. cbn [w1 pending update]. rewrite app_assoc. change (in_flight w1) with (in_flight w).
      rewrite (Hwork Hstop), Hlog', Hlog, Hall by lia. rewrite drop_app_le by lia.
      assert (log ++ [r] = take m log ++ (drop m log ++ [r])) as E by (by rewrite app_assoc, take_drop).
      rewrite entries_snoc; [|rewrite E in Henc'; by apply encodable_app in Henc' as []].
      do 4 f_equal. rewrite Hfile, <- !length_app, <- Hbytes, E, log_bytes_app; [done|by rewrite <- E].
    - change (durable w1) with (durable w). change (synced w1) with (synced w). rewrite Hall by lia.
      split; [|done]. change (file w1) with (file w ++ frame). rewrite length_app. lia.
    - change (synced w1) with (synced w). lia.
    - intros k kf Hk. apply inv_keyframes_snoc; [lia|]. by apply Hkf.
    - cbn. unfold queued. destruct (due (intent w)) eqn:Ed; cbn; rewrite ?Ed;
        (split; [done|]; by intros [_ ?]%app_eq_nil).
    - cbn. unfold queued. destruct (due (intent w)); cbn; lia.
    - cbn. unfold queued. destruct (due (intent w)); cbn; congruence. }
  destruct (is_boundary r); [|done]. by apply (inv_request _ _ _ w1 true false I1).
Qed.

(** A write that failed leaves some of its frame, and no record is accepted any more. *)
Lemma inv_torn log n m w now r frame part tail w' :
  inv log n m w -> encode_frame r = Ok frame -> append w now r = Ok w' -> frame = part ++ tail ->
  inv (log ++ [r]) n m (w <| file := file w ++ part |> <| failed := true |>).
Proof.
  intros I Hframe Happ Hcut.
  destruct (inv_append _ _ _ _ _ _ _ I Happ) as (I' & _ & Hopen).
  assert (Hfile : file w = log_bytes log) by (by eapply inv_file_open).
  pose proof I as [Henc Hdense Hlen Hs Hf Hn He Hfold Hwork [Hd1 Hd2] Hsync Hcom Hhead Hkf Hdue (Hu & Hc & Hck) Hclose Hckpt].
  destruct (encodable_snoc _ _ _ Henc Hframe) as [Henc' Hbytes].
  assert (Hall : forall k, (k <= n)%nat -> take k (log ++ [r]) = take k log) by (intros; apply take_snoc; lia).
  set (w1 := w <| file := file w ++ part |> <| failed := true |>).
  split; try done; rewrite ?Hall by lia; try done.
  - by destruct I'.
  - rewrite length_app. lia.
  - change (file w1) with (file w ++ part). split; [apply prefix_app_r, Hf|].
    rewrite Hbytes, Hfile, Hcut, app_assoc. by eexists.
  - change (durable w1) with (durable w). change (synced w1) with (synced w). rewrite Hall by lia.
    split; [|done]. change (file w1) with (file w ++ part). rewrite length_app. lia.
  - intros k kf Hk. apply inv_keyframes_snoc; [lia|]. by apply Hkf.
Qed.

(** The committer takes what is pending. *)
Lemma inv_take log n m w checkpoint :
  inv log n m w -> phase w = Idle ->
  inv log n m (take_batch (w <| phase := Taken (pending w) checkpoint |>)).
Proof.
  intros [? ? ? ? ? ? ? ? Hwork [Hd1 Hd2] Hsync [Hcom ?] Hhead ? ? (? & ? & ?) Hclose Hckpt] Hidle.
  unfold synced in *. rewrite Hidle in *.
  split; try done.
  - intros _. transitivity (pending w ++ []); [done|]. rewrite app_nil_r, <- Hwork by (unfold is_stopped; by rewrite Hidle).
    unfold in_flight. by rewrite Hidle.
  - intros h [Hh|Hh]; [apply Hhead; by left|done].
Qed.

Lemma inv_stop log n m w : inv log n m w -> phase w = Idle -> inv log n m (w <| phase := Stopped None |>).
Proof.
  intros [? ? ? ? ? ? ? ? Hwork [Hd1 Hd2] Hsync [Hcom ?] Hhead ? ? (? & ? & ?) Hclose Hckpt] Hidle.
  unfold synced in *. rewrite Hidle in *. split; try done.
  intros h [Hh|Hh]; [apply Hhead; by left|done].
Qed.

(** A sync makes the whole file durable, with it the batch. *)
Lemma inv_sync log n m w batch checkpoint :
  inv log n m w -> phase w = Taken batch checkpoint ->
  inv log n m (w <| durable := synced_file w batch |>
    <| phase := Folding batch (match batch with [] => false | _ :: _ => true end) checkpoint |>).
Proof.
  intros I Hphase.
  pose proof I as [Henc Hdense Hlen Hs [Hf1 Hf2] Hn He Hfold Hwork [Hd1 Hd2] Hsync [Hcom Hidle] Hhead Hkf Hdue (Hu & Hc & Hck) Hclose Hckpt].
  assert (Hw : batch ++ pending w = entries (length (log_bytes (take m log))) (drop m (take n log))).
  { rewrite <- Hwork by (unfold is_stopped; by rewrite Hphase). unfold in_flight. by rewrite Hphase. }
  assert (m + length batch <= n)%nat as Hb.
  { apply (f_equal length) in Hw. rewrite entries_length, length_app, length_drop, length_take_le in Hw; lia. }
  unfold synced in *. rewrite Hphase in *.
  split; try done.
  - cbn [durable phase update file synced]. unfold synced_file. split; [by destruct batch|].
    destruct batch; [done|]. etransitivity; [|apply prefix_length, Hf1].
    apply prefix_length, log_bytes_mono; [done|]. cbn in *. lia.
  - intros h [Hh|Hh]; [apply Hhead; by left|]. by destruct batch.
Qed.

(** A failure keeps everything but the batch. *)
Lemma inv_fail log n m w :
  inv log n m w -> inv log n m (w <| failed := true |> <| phase := Stopped (publishing_head w) |>).
Proof.
  intros [Henc ? ? ? ? ? ? ? ? [Hd1 Hd2] Hsync [Hcom ?] Hhead ? ? (? & ? & ?) Hclose Hckpt].
  split; try done.
  - split; [done|]. etransitivity; [|exact Hd2]. apply prefix_length, log_bytes_mono; [done|]. cbn. lia.
  - cbn. lia.
Qed.

Lemma inv_done log n m w :
  inv log n m w -> phase w = Published ->
  inv log n m (w <| committed := through_seq (skeleton w) |> <| phase := Idle |>).
Proof.
  intros I Hphase. pose proof (inv_through _ _ _ _ I) as Ht.
  destruct I as [? ? ? ? ? ? ? ? Hwork [Hd1 Hd2] Hsync [Hcom ?] Hhead ? ? (? & ? & ?) Hclose Hckpt].
  unfold synced in *. rewrite Hphase in *. split; try done.
  - intros _. rewrite <- Hwork by (unfold is_stopped; by rewrite Hphase).
    unfold in_flight. by rewrite Hphase.
  - split; [|intros _]; change (through_seq (skeleton w) <= Z.of_nat m) || change (through_seq (skeleton w) = Z.of_nat m); lia.
  - intros h [Hh|Hh]; [apply Hhead; by left|done].
Qed.

(** A keyframe that is published is the fold of the records it covers. *)
Lemma inv_keyframe log n m w w' :
  inv log n m w -> (0 < m)%nat -> publish_keyframe validate_keyframe w = Ok w' ->
  inv log n m w' /\ phase w' = phase w /\ checkpoint_seq w' = Z.of_nat m /\ publishing_head w' = publishing_head w.
Proof.
  intros I Hm Hpub. pose proof (inv_through _ _ _ _ I) as Ht.
  unfold publish_keyframe in Hpub. destruct (validate_keyframe _); cbn [rbind] in Hpub; [|done].
  destruct (match keyframes w !! _ with Some _ => _ | None => _ end) as [kfs|] eqn:Hkfs; cbn [rbind] in Hpub; [|done].
  injection Hpub as <-. split; [|split_and!; done].
  assert (forall k kf, kfs !! k = Some kf -> keyframes w !! k = Some kf \/ (k = Z.of_nat m /\ kf = skeleton w)) as Hnew.
  { rewrite Ht in Hkfs. intros k kf Hk. destruct (keyframes w !! _) as [old|] eqn:Hold.
    - destruct (eqb old _); cbn in Hkfs; [|done]. injection Hkfs as <-. by left.
    - injection Hkfs as <-. apply lookup_insert_Some in Hk as [[<- <-]|[_ Hk]]; [by right|by left]. }
  destruct I as [? ? ? ? ? ? ? Hfold Hwork [Hd1 Hd2] Hsync [Hcom ?] Hhead Hkf ? (? & ? & ?) Hclose Hckpt].
  split; try done.
  - intros k kf [Hk|[-> ->]]%Hnew; [by apply Hkf|].
    destruct Hfold as (sk & Hf & [Hsk|[-> _]]); [|lia].
    exists sk, (upgrade w). rewrite Nat2Z.id. split; [lia|]. by split.
  - cbn. lia.
  - intros _. change (is_Some (kfs !! through_seq (skeleton w))).
    destruct (keyframes w !! through_seq (skeleton w)) as [old|] eqn:Hold.
    + destruct (eqb old _); cbn in Hkfs; [|done]. injection Hkfs as <-. by eexists.
    + injection Hkfs as <-. rewrite lookup_insert_eq. by eexists.
Qed.

Lemma publish_keyframe_keeps w w' : publish_keyframe validate_keyframe w = Ok w' -> phase w' = phase w.
Proof.
  unfold publish_keyframe. intros Hpub. destruct (validate_keyframe _); cbn [rbind] in Hpub; [|done].
  destruct (match keyframes w !! _ with Some _ => _ | None => _ end); cbn [rbind] in Hpub; [|done].
  by injection Hpub as <-.
Qed.

Lemma publish_head_keeps w w' : publish_head headline validate_head w = Ok w' -> phase w' = phase w.
Proof.
  unfold publish_head. intros Hpub. destruct (stated_head w) as [h|]; [|by injection Hpub as <-].
  destruct (validate_head h); cbn [rbind] in Hpub; [|done]. by injection Hpub as <-.
Qed.

Lemma publish_keyframe_phase w p : publish_keyframe validate_keyframe (w <| phase := p |>) =
  rbind (publish_keyframe validate_keyframe w) (fun w' => Ok (w' <| phase := p |>)).
Proof.
  unfold publish_keyframe. change (skeleton (w <| phase := p |>)) with (skeleton w).
  change (keyframes (w <| phase := p |>)) with (keyframes w).
  destruct (validate_keyframe _); cbn [rbind]; [|done].
  destruct (keyframes w !! _); cbn [rbind]; [|done]. by destruct (eqb _ _).
Qed.

(** The next entry of the batch is the next record of the log. *)
Lemma next_entry log n m record offset rest :
  (m <= n <= length log)%nat -> encodable log ->
  (record, offset) :: rest = entries (length (log_bytes (take m log))) (drop m (take n log)) ->
  (m < n)%nat /\ take (S m) log = take m log ++ [record] /\
  offset = Z.of_nat (length (log_bytes (take (S m) log))) /\
  rest = entries (length (log_bytes (take (S m) log))) (drop (S m) (take n log)).
Proof.
  intros Hlen Henc Hentries. destruct (drop m (take n log)) as [|r ds] eqn:Hdrop; [done|].
  assert ((m < n)%nat) as Hmn.
  { apply (f_equal length) in Hdrop. rewrite length_drop, length_take_le in Hdrop by lia. cbn in Hdrop. lia. }
  assert (log !! m = Some r) as Hr.
  { transitivity (take n log !! m); [symmetry; by apply lookup_take_lt|].
    transitivity (drop m (take n log) !! 0%nat); [rewrite lookup_drop; f_equal; lia|by rewrite Hdrop]. }
  assert (take (S m) log = take m log ++ [r]) as Htake by (by apply take_S_r).
  assert (drop (S m) (take n log) = ds) as Hds.
  { replace (S m) with (m + 1)%nat by lia. rewrite <- drop_drop, Hdrop. done. }
  cbn [entries] in Hentries.
  assert (length (log_bytes (take (S m) log)) = (length (log_bytes (take m log)) + length (frames_of [r]))%nat) as Hl.
  { rewrite Htake, log_bytes_app, length_app; [done|]. rewrite <- Htake. by apply encodable_take. }
  rewrite <- Hl in Hentries. injection Hentries as -> -> ->. by rewrite Hds.
Qed.

(** What the record in front of the batch is *)
Lemma inv_front log n m w record offset rest any_record checkpoint :
  inv log n m w -> phase w = Folding ((record, offset) :: rest) any_record checkpoint ->
  (m < n)%nat /\ take (S m) log = take m log ++ [record] /\
  offset = Z.of_nat (length (log_bytes (take (S m) log))) /\
  rest ++ pending w = entries (length (log_bytes (take (S m) log))) (drop (S m) (take n log)).
Proof.
  intros I Hphase. apply next_entry; [by destruct I|by destruct I|].
  rewrite <- (inv_work _ _ _ _ I) by (unfold is_stopped; by rewrite Hphase).
  unfold in_flight. by rewrite Hphase.
Qed.

(** Folding a record moves the projections past it. *)
Lemma inv_with_record log n m w record offset rest any_record checkpoint sk1 u' :
  inv log n m w -> phase w = Folding ((record, offset) :: rest) any_record checkpoint ->
  append_skeleton (skeleton w) record = Ok sk1 -> observe (upgrade w) record = Ok u' ->
  inv log n (S m) ((with_record own_pid w record offset sk1 u') <| phase := Folding rest any_record checkpoint |>).
Proof.
  intros I Hphase Happw Hobs.
  destruct (inv_front _ _ _ _ _ _ _ _ _ I Hphase) as (Hmn & Htake & -> & Hrest).
  destruct I as [Henc Hdense Hlen Hs Hf Hn He Hfold Hwork [Hd1 Hd2] Hsync [Hcom Hidle] Hhead Hkf Hdue (Hu & Hc & Hck) Hclose Hckpt].
  unfold synced in *. rewrite Hphase in *. cbn [length] in Hd2, Hsync.
  destruct Hfold as (sk & Hsk & Hskel).
  assert (exists sk', append_skeleton sk record = Ok sk' /\ sk1 = sk' <| log_offset := log_offset (skeleton w) |>)
    as (sk' & Happ & ->).
  { destruct Hskel as [Hskel|[_ Hskel]].
    - rewrite Hskel in Happw. unfold keyframe_at in Happw. rewrite append_skeleton_offset in Happw.
      destruct (append_skeleton sk record) as [sk'|]; cbn in Happw; [|done]. exists sk'. split; [done|].
      rewrite Hskel. by injection Happw as <-.
    - subst sk. exists sk1. split; [done|]. by eapply append_skeleton_keeps_offset. }
  assert (Hfolded : folded (take (S m) log) sk' u') by (rewrite Htake; by eapply folded_snoc).
  match goal with |- inv _ _ _ ?w' => set (w2 := w') end.
  split; try done.
  - lia.
  - exists sk'. split; [done|]. by left.
  - change (synced w2) with (length rest). replace (S m + length rest)%nat with (m + S (length rest))%nat by lia. done.
  - change (synced w2) with (length rest). lia.
  - split; [|done]. change (committed w2) with (committed w). lia.
  - intros h [Hh|Hh].
    + transitivity (Z.of_nat m); [|lia]. apply Hhead. by left.
    + unfold Writer.publishing_head in Hh. cbn [w2 phase update] in Hh.
      destruct rest, any_record; try done. apply stated_head_seq in Hh. rewrite Hh.
      apply append_skeleton_Ok in Happ as [_ Happ]. apply folded_through in Hfolded.
      rewrite length_take_le in Hfolded by lia. change (through_seq (skeleton w2)) with (through_seq sk'). lia.
  - intros k kf Hk. destruct (Hkf k kf Hk) as (sk0 & u0 & ? & ? & ?). exists sk0, u0. split; [lia|done].
  - change (checkpoint_seq w2) with (checkpoint_seq w). change (intent w2) with (intent w). lia.
Qed.

Lemma inv_fold_record log n m w record offset rest any_record checkpoint w' :
  inv log n m w -> phase w = Folding ((record, offset) :: rest) any_record checkpoint ->
  fold_record own_pid validate_keyframe w record offset = Ok w' ->
  inv log n (S m) (w' <| phase := Folding rest any_record checkpoint |>).
Proof.
  intros I Hphase Hfr. unfold fold_record in Hfr.
  destruct (append_skeleton (skeleton w) record) as [sk1|] eqn:Hsk; cbn [rbind] in Hfr; [|done].
  destruct (observe (upgrade w) record) as [u'|] eqn:Hobs; cbn [rbind] in Hfr; [|done].
  pose proof (inv_with_record _ _ _ _ _ _ _ _ _ _ _ I Hphase Hsk Hobs) as I2.
  cbn zeta in Hfr. destruct (is_boundary record); [|by injection Hfr as <-].
  eapply (inv_keyframe _ _ _ _ (w' <| phase := Folding rest any_record checkpoint |>)) in I2 as [? _]; [done|lia|].
  by rewrite publish_keyframe_phase, Hfr.
Qed.

(** A head that is published covers what is folded. *)
Lemma inv_publish_head log n m w w' :
  inv log n m w -> publish_head headline validate_head w = Ok w' -> inv log n m w' /\ phase w' = phase w.
Proof.
  intros I Hpub. unfold publish_head in Hpub.
  destruct (stated_head w) as [h|] eqn:Eh; [|injection Hpub as <-; done].
  destruct (validate_head h); cbn [rbind] in Hpub; [|done]. injection Hpub as <-. split; [|done].
  pose proof (inv_through _ _ _ _ I) as Ht. apply stated_head_seq in Eh. rewrite Ht in Eh.
  destruct I as [? ? ? ? ? ? ? ? Hwork [Hd1 Hd2] Hsync [Hcom ?] Hhead ? ? (? & ? & ?) Hclose Hckpt]. split; try done.
  intros h0 [Hh0|Hh0]; [|apply Hhead; by right]. injection Hh0 as <-. lia.
Qed.

Lemma publish_head_phase w p : publish_head headline validate_head (w <| phase := p |>) =
  rbind (publish_head headline validate_head w) (fun w' => Ok (w' <| phase := p |>)).
Proof.
  unfold publish_head. change (stated_head (w <| phase := p |>)) with (stated_head w).
  destruct (stated_head w) as [h|]; [|done]. by destruct (validate_head h).
Qed.

(** A keyframe that is wanted covers a record. *)
Lemma wanted_covers log n m w checkpoint :
  inv log n m w -> wants_keyframe w checkpoint = true -> (0 < m)%nat.
Proof.
  intros I Hb. pose proof (inv_through _ _ _ _ I) as Ht. destruct (inv_requests _ _ _ _ I) as (_ & _ & Hck).
  unfold wants_keyframe, CHECKPOINT_RECORDS in Hb. cbn zeta in Hb. rewrite Ht in Hb.
  destruct (checkpoint && _) eqn:Hc; to_prop; lia.
Qed.

(** Publishing a batch publishes a keyframe and a head of what is folded. *)
Lemma inv_publish log n m w any_record checkpoint w' :
  inv log n m w -> phase w = Folding [] any_record checkpoint ->
  publish_batch headline validate_head validate_keyframe w any_record checkpoint = Ok w' ->
  inv log n m (w' <| phase := Published |>).
Proof.
  intros I Hphase Hpub. pose proof (inv_through _ _ _ _ I) as Ht.
  unfold publish_batch in Hpub. destruct (inv_requests _ _ _ _ I) as (_ & _ & Hck).
  set (b := wants_keyframe w checkpoint) in Hpub.
  assert (exists w1, (if b then publish_keyframe validate_keyframe w else Ok w) = Ok w1 /\
    inv log n m w1 /\ phase w1 = phase w) as (w1 & Hw1 & I1 & Hp1).
  { destruct b eqn:Hb; [|by exists w].
    destruct (publish_keyframe validate_keyframe w) as [w1|] eqn:E; [|done]. exists w1. split; [done|].
    apply (inv_keyframe _ _ _ _ _ I (wanted_covers _ _ _ _ _ I Hb)) in E as (? & ? & _). by split. }
  rewrite Hw1 in Hpub. cbn [rbind] in Hpub. clear Hw1 I Ht.
  assert (inv log n m w' /\ phase w' = Folding [] any_record checkpoint) as [I2 Hp2].
  { rewrite <- Hphase, <- Hp1. destruct any_record; [by apply inv_publish_head|by injection Hpub as <-]. }
  destruct I2 as [? ? ? ? ? ? ? ? Hwork [Hd1 Hd2] Hsync [Hcom ?] Hhead ? ? (? & ? & ?) Hclose Hckpt].
  unfold synced in *. rewrite Hp2 in *. split; try done.
  - intros _. rewrite <- Hwork by (unfold is_stopped; by rewrite Hp2).
    unfold in_flight. by rewrite Hp2.
  - intros h0 [Hh0|Hh0]; [apply Hhead; by left|done].
Qed.

Lemma inv_step log n m w label w' :
  inv log n m w -> step label w w' -> exists n' m', inv (log ++ option_list label) n' m' w'.
Proof.
  intros I. destruct 1; cbn [option_list]; rewrite ?app_nil_r.
  - eapply inv_append in I as (? & _); eauto.
  - exists n, m. by eapply inv_torn.
  - unfold commit in *. destruct (is_open w); cbn in *; [|done]. simplify_eq.
    exists n, m. by apply inv_request.
  - exists n, m. by apply inv_request.
  - exists n, m. by apply inv_take.
  - exists n, m. by apply inv_stop.
  - exists n, m. by apply inv_sync.
  - exists n, (S m). by eapply inv_fold_record.
  - exists n, m. eapply inv_keyframe; eauto using wanted_covers.
  - exists n, m. by eapply inv_publish.
  - exists n, m. by apply inv_done.
  - exists n, m. by apply inv_fail.
Qed.

Lemma inv_run log0 n0 m0 w0 records w :
  inv log0 n0 m0 w0 -> run w0 records w -> exists n m, inv (log0 ++ records) n m w.
Proof.
  intros I. induction 1 as [|records w label w' Hrun (n & m & IH) Hstep]; [rewrite app_nil_r; by eauto|].
  rewrite app_assoc. by eapply inv_step.
Qed.

(** What is committed stays so. *)
Lemma publish_keyframe_committed w w' : publish_keyframe validate_keyframe w = Ok w' -> committed w' = committed w.
Proof.
  unfold publish_keyframe. intros Hpub. destruct (validate_keyframe _); cbn [rbind] in Hpub; [|done].
  destruct (match keyframes w !! _ with Some _ => _ | None => _ end); cbn [rbind] in Hpub; [|done].
  by injection Hpub as <-.
Qed.

Lemma fold_record_committed w r o w' : fold_record own_pid validate_keyframe w r o = Ok w' -> committed w' = committed w.
Proof.
  unfold fold_record. intros Hf. destruct (append_skeleton _ r); cbn [rbind] in Hf; [|done].
  destruct (observe _ r); cbn [rbind] in Hf; [|done].
  destruct (is_boundary r); [|by injection Hf as <-]. by apply publish_keyframe_committed in Hf.
Qed.

Lemma publish_batch_committed w any_record checkpoint w' :
  publish_batch headline validate_head validate_keyframe w any_record checkpoint = Ok w' -> committed w' = committed w.
Proof.
  unfold publish_batch. intros Hpub.
  destruct (if wants_keyframe w checkpoint then publish_keyframe validate_keyframe w else Ok w) as [w1|] eqn:E;
    cbn [rbind] in Hpub; [|done].
  assert (committed w1 = committed w) as <-.
  { destruct (wants_keyframe w checkpoint); [by apply publish_keyframe_committed in E|by injection E as ->]. }
  destruct any_record; [|by injection Hpub as <-]. unfold publish_head in Hpub.
  destruct (stated_head w1) as [h|]; [|by injection Hpub as <-].
  destruct (validate_head h); cbn [rbind] in Hpub; [|done]. by injection Hpub as <-.
Qed.

Lemma append_committed w now r w' : append w now r = Ok w' -> committed w' = committed w.
Proof.
  unfold append. intros E. destruct (encode_frame r) as [frame|]; cbn [rbind] in E; [|done].
  destruct (is_open w); cbn [ensure rbind] in E; [|done].
  destruct (seq r =? sequence w + 1); cbn [ensure rbind] in E; [|done].
  injection E as <-. by destruct (is_boundary r).
Qed.

Lemma step_commits_more log n m w label w' : inv log n m w -> step label w w' -> committed w <= committed w'.
Proof.
  intros I S. destruct S as [? ? ? ? E|? ? ? ? ? ? ? _ E|? ? ? E|?|? ? ? _ _|? ? _ _|? ? ? _|? ? ? ? ? ? ? _ E|
    ? ? ? ? _ _ E|? ? ? ? _ E|? _|? _]; cbn [committed update take_batch]; try lia.
  - apply append_committed in E. lia.
  - unfold commit in E. destruct (is_open w); cbn in E; [|done]. injection E as <-. cbn. lia.
  - cbn. lia.
  - apply fold_record_committed in E. lia.
  - apply publish_keyframe_committed in E. lia.
  - apply publish_batch_committed in E. lia.
  - rewrite (inv_through _ _ _ _ I). by destruct (inv_committed _ _ _ _ I).
Qed.

Lemma run_commits_more log0 n0 m0 w0 records w :
  inv log0 n0 m0 w0 -> run w0 records w -> committed w0 <= committed w.
Proof.
  intros I. induction 1 as [|records w label w' R IH S]; [lia|].
  destruct (inv_run _ _ _ _ _ _ I R) as (n & m & I'). pose proof (step_commits_more _ _ _ _ _ _ I' S). lia.
Qed.

(** ** Crashes *)

(** What a writer that opened the records of [log] left on the disk is what a crash may leave of
    it; the next writer recovers it, maybe to crash again.  Callers append records that fold. *)
Inductive life : list LogRecord -> Writer -> Prop :=
  | life_created w : start headline validate_head validate_keyframe created None ∅ = Ok w -> life [] w
  | life_step log w label w' :
    life log w -> step label w w' -> Forall (fun r => foldable r = true) (option_list label) ->
    life (log ++ option_list label) w'
  | life_crash log w left_file left_head r w' :
    life log w -> crash_file w left_file -> crash_head headline w left_head ->
    recover (option_map Ok left_head) left_file = Some (Ok r) ->
    start headline validate_head validate_keyframe r left_head (keyframes w) = Ok w' ->
    life (take (Z.to_nat (sequence w')) log) w'.

Lemma prefix_take_le {A} (a whole : list A) d :
  a `prefix_of` whole -> (length a <= d)%nat -> a `prefix_of` take d whole.
Proof. intros [b ->] Hd. rewrite take_app, take_ge by done. by eexists. Qed.

(** A crash keeps every record that was synced. *)
Lemma crash_keeps_synced log n m w left_file left_head :
  inv log n m w -> Forall (fun r => foldable r = true) log ->
  crash_file w left_file -> crash_head headline w left_head ->
  exists k r, (m + synced w <= k <= length log)%nat /\
    recover (option_map Ok left_head) left_file = Some (Ok r) /\ recovered_from (take k log) r.
Proof.
  intros I Hfoldable [Hd1 Hd2] Hhead.
  destruct (inv_file _ _ _ _ I) as [Hf1 Hf2]. pose proof (inv_encodable _ _ _ _ I) as Henc.
  pose proof (inv_length _ _ _ _ I) as Hlen. pose proof (inv_synced _ _ _ _ I) as Hsync.
  destruct (dense_fold_total log Hfoldable (inv_dense _ _ _ _ I)) as [wf Hwf].
  destruct (truncation_cut log (frames_of log) left_file Henc) as (k & stop & Hcut); [by etransitivity|].
  assert (Hk : (k <= length log)%nat) by (by eapply log_cut_le).
  assert (Hcov : (m + synced w <= k)%nat).
  { apply (log_cut_covers _ _ _ _ (m + synced w) (frames_of (take (m + synced w) log)) Hcut);
      [by apply encodable_take|lia|].
    etransitivity; [|exact Hd1]. destruct (inv_durable _ _ _ _ I) as [_ Hdur].
    apply prefix_take_le; [|exact Hdur].
    etransitivity; [|exact Hf1]. by apply log_bytes_mono. }
  exists k. pose proof (recover_log_cut _ _ _ _ _ left_head Hcut Hwf Hk) as Hrec.
  rewrite (proj2 (Z.ltb_ge _ _)) in Hrec; [destruct Hrec as (r & ? & ?); by exists r|].
  destruct left_head as [h|]; cbn; [|lia]. transitivity (Z.of_nat m); [|lia].
  apply (inv_head _ _ _ _ I). destruct Hhead as [<-|[_ <-]]; [by left|by right].
Qed.

Lemma inv_start log r left_head keyframes_ w' :
  recovered_from log r \/ (log = [] /\ r = created) ->
  encodable log -> map seq log = seqZ 1 (Z.of_nat (length log)) ->
  (forall k kf, keyframes_ !! k = Some kf -> exists sk u, 0 < k <= Z.of_nat (length log) /\
    folded (take (Z.to_nat k) log) sk u /\ kf = keyframe_at (take (Z.to_nat k) log) sk) ->
  (forall h, left_head = Some h -> committed_seq h <= Z.of_nat (length log)) ->
  start headline validate_head validate_keyframe r left_head keyframes_ = Ok w' ->
  inv log (length log) (length log) w' /\ sequence w' = Z.of_nat (length log).
Proof.
  intros Hr Henc Hdense Hkf Hhead Hstart.
  assert (exists sk, folded log sk (LogFile.upgrade r) /\
    (LogFile.skeleton r = keyframe_at log sk \/ (length log = 0%nat /\ LogFile.skeleton r = sk)) /\
    recovered_file r = log_bytes log /\ LogFile.sequence r = Z.of_nat (length log) /\
    recovered_epoch r = current_epoch log no_epoch) as (sk & Hsk & Hskel & Hfile & Hseq & Hepoch).
  { destruct Hr as [(fs & sk & Hfs & Hfile & Hseq & Hfold & Hskel)|[-> ->]].
    - exists sk. assert (frames_of log = fs) as Hframes by (unfold frames_of; by rewrite Hfs).
      rewrite Hseq in Hfold. split; [by eexists|]. split; [left; by rewrite Hskel, Hfile, <- Hframes|].
      split; [by rewrite Hfile, <- Hframes|]. split; [done|]. by eapply fold_epoch in Hfold.
    - exists fresh_keyframe. split; [by eexists|]. split; [by right|]. done. }
  unfold start in Hstart.
  match type of Hstart with (if sequence ?w =? 0 then _ else _) = _ => set (w0 := w) in * end.
  assert (inv log (length log) (length log) (w0 <| phase := Published |>)) as I.
  { split; try done.
    - by rewrite take_ge by done; cbn [file update w0]; rewrite Hfile.
    - by rewrite take_ge by done.
    - exists sk. by rewrite take_ge by done.
    - intros _. by rewrite take_ge, drop_ge by done.
    - cbn [synced phase update durable file w0]. rewrite take_ge by lia. by rewrite Hfile.
    - cbn. lia.
    - cbn. split; [lia|done].
    - intros h [Hh|Hh]; [by apply Hhead|done].
    - cbn. lia. }
  set (wp := w0 <| phase := Published |>) in *.
  assert (Hthrough : forall w, inv log (length log) (length log) w -> phase w = Published ->
    inv log (length log) (length log) (w <| committed := Z.of_nat (length log) |> <| phase := Idle |>)).
  { intros w Iw Hp. rewrite <- (inv_through _ _ _ _ Iw). by apply inv_done. }
  destruct (sequence w0 =? 0) eqn:Hzero.
  - injection Hstart as <-. split; [|done]. apply Z.eqb_eq in Hzero. cbn in Hzero.
    pose proof (Hthrough _ I eq_refl) as I'.
    assert (w0 = wp <| committed := Z.of_nat (length log) |> <| phase := Idle |>) as E
      by (by rewrite <- Hseq, Hzero).
    by rewrite E.
  - destruct (publish_head _ _ w0) as [w1|] eqn:E1; cbn [rbind] in Hstart; [|done].
    destruct (publish_keyframe _ w1) as [w2|] eqn:E2; cbn [rbind] in Hstart; [|done].
    assert (publish_head headline validate_head wp = Ok (w1 <| phase := Published |>)) as F1
      by (unfold wp; by rewrite publish_head_phase, E1).
    assert (publish_keyframe validate_keyframe (w1 <| phase := Published |>) = Ok (w2 <| phase := Published |>)) as F2
      by (by rewrite publish_keyframe_phase, E2).
    apply (inv_publish_head _ _ _ _ _ I) in F1 as [I1 _].
    apply (inv_keyframe _ _ _ _ _ I1) in F2 as [I2 _]; [|cbn in Hzero; lia].
    assert (phase w2 = Idle) as Hidle.
    { transitivity (phase w1); [by apply publish_keyframe_keeps in E2|by apply publish_head_keeps in E1]. }
    injection Hstart as <-. pose proof (inv_sequence _ _ _ _ I2) as Hs2. cbn in Hs2. split; [|done].
    pose proof (Hthrough _ I2 eq_refl) as I'.
    assert (w2 <| committed := sequence w2 |> =
      w2 <| phase := Published |> <| committed := Z.of_nat (length log) |> <| phase := Idle |>) as E.
    { rewrite <- Hs2, <- Hidle. by destruct w2. }
    exact (eq_ind_r (inv log (length log) (length log)) I' E).
Qed.

Lemma foldable_take k log : Forall (fun r => foldable r = true) log -> Forall (fun r => foldable r = true) (take k log).
Proof. apply Forall_take. Qed.

(** Every writer of a life keeps the invariant, however often the log was reopened. *)
Lemma life_inv log w : life log w ->
  Forall (fun r => foldable r = true) log /\ exists n m, inv log n m w.
Proof.
  induction 1 as [w Hstart|log w label w' _ [Hfold (n & m & I)] Hstep Hlabel|
    log w lf lh r w' _ [Hfold (n & m & I)] Hfile Hhead Hrec Hstart].
  - split; [done|]. exists 0%nat, 0%nat. eapply (inv_start [] created); eauto; done.
  - split; [by apply Forall_app|]. by eapply inv_step.
  - destruct (crash_keeps_synced _ _ _ _ _ _ I Hfold Hfile Hhead) as (k & r' & Hk & Hrec' & Hfrom).
    rewrite Hrec in Hrec'. injection Hrec' as <-.
    assert (Hkf : length (take k log) = k) by (apply length_take_le; lia).
    edestruct (inv_start (take k log) r lh) as [I' Hseq]; [by left| | | | |exact Hstart|].
    + apply encodable_take. by destruct I.
    + rewrite Hkf. apply dense_take; [lia|]. by destruct I.
    + rewrite Hkf. intros j kf (sk & u & ? & ? & ?)%(inv_keyframes _ _ _ _ I).
      exists sk, u. rewrite take_take, Nat.min_l by lia. split; [lia|done].
    + rewrite Hkf. intros h ->. transitivity (Z.of_nat m); [|lia]. apply (inv_head _ _ _ _ I).
      destruct Hhead as [<-|[_ <-]]; [by left|by right].
    + rewrite Hseq, Hkf, Nat2Z.id. split; [by apply foldable_take|]. rewrite Hkf in I'. by eauto.
Qed.

(** ** A commit is served *)

(** The rules of the published messages refuse what a writer of [log] publishes: the keyframe of
    its first records, or the head stated of them. *)
Inductive refused (log : list LogRecord) : string -> Prop :=
  | keyframe_refused k sk u message :
      (0 < k <= length log)%nat -> folded (take k log) sk u ->
      validate_keyframe (keyframe_at (take k log) sk) = Err message -> refused log message
  | head_refused k sk w h message :
      (k <= length log)%nat -> folded (take k log) sk (upgrade w) ->
      skeleton w = keyframe_at (take k log) sk \/ (k = 0%nat /\ skeleton w = sk) ->
      stated_head w = Some h -> validate_head h = Err message -> refused log message.

(** A keyframe is refused by the rules or published: one on the disk already is the same. *)
Lemma publish_keyframe_refused log n m w message : inv log n m w -> (0 < m)%nat ->
  publish_keyframe validate_keyframe w = Err message -> refused log message.
Proof.
  intros I Hm. pose proof (inv_length _ _ _ _ I) as Hlen.
  destruct (inv_folded _ _ _ _ I) as (sk & Hf & [Hsk|[-> _]]); [|lia].
  unfold publish_keyframe. destruct (validate_keyframe (skeleton w)) as [[]|message'] eqn:Hv; cbn [rbind].
  2: { intros [= <-]. rewrite Hsk in Hv. eapply keyframe_refused; [|exact Hf|exact Hv]. lia. }
  destruct (keyframes w !! _) as [old|] eqn:Hold; cbn [rbind]; [|done].
  rewrite (inv_through _ _ _ _ I) in Hold.
  destruct (inv_keyframes _ _ _ _ I _ _ Hold) as (sk0 & u0 & _ & Hf0 & ->). rewrite Nat2Z.id in *.
  destruct (folded_det _ _ _ _ _ Hf0 Hf) as [-> _]. by rewrite Hsk, eqb_refl.
Qed.

Lemma publish_head_refused log n m w message : inv log n m w ->
  publish_head headline validate_head w = Err message -> refused log message.
Proof.
  intros I. pose proof (inv_length _ _ _ _ I) as Hlen. destruct (inv_folded _ _ _ _ I) as (sk & Hf & Hsk).
  unfold publish_head. destruct (stated_head w) as [h|] eqn:Hh; [|done].
  destruct (validate_head h) as [[]|message'] eqn:Hv; cbn [rbind]; [done|]. intros [= <-].
  eapply head_refused; [|exact Hf|exact Hsk|exact Hh|exact Hv]. lia.
Qed.

(** What committing leaves as it was *)
Definition same_queue (w w' : Writer) : Prop :=
  intent w' = intent w /\ pending w' = pending w /\ failed w' = failed w /\ sequence w' = sequence w
  /\ phase w' = phase w.

Lemma publish_keyframe_queue w w' : publish_keyframe validate_keyframe w = Ok w' -> same_queue w w'.
Proof.
  unfold publish_keyframe. intros Hpub. destruct (validate_keyframe _); cbn [rbind] in Hpub; [|done].
  destruct (match keyframes w !! _ with Some _ => _ | None => _ end); cbn [rbind] in Hpub; [|done].
  by injection Hpub as <-.
Qed.

Lemma publish_head_queue w w' : publish_head headline validate_head w = Ok w' -> same_queue w w'.
Proof.
  unfold publish_head. intros Hpub. destruct (stated_head w) as [h|]; [|by injection Hpub as <-].
  destruct (validate_head h); cbn [rbind] in Hpub; [|done]. by injection Hpub as <-.
Qed.

Lemma fold_record_queue w r o w' : fold_record own_pid validate_keyframe w r o = Ok w' -> same_queue w w'.
Proof.
  unfold fold_record. intros Hf. destruct (append_skeleton _ r); cbn [rbind] in Hf; [|done].
  destruct (observe _ r); cbn [rbind] in Hf; [|done].
  destruct (is_boundary r); [|by injection Hf as <-]. by apply publish_keyframe_queue in Hf.
Qed.

Lemma fold_record_phase w r o p :
  fold_record own_pid validate_keyframe (w <| phase := p |>) r o =
  rbind (fold_record own_pid validate_keyframe w r o) (fun w' => Ok (w' <| phase := p |>)).
Proof.
  unfold fold_record. change (skeleton (w <| phase := p |>)) with (skeleton w).
  change (upgrade (w <| phase := p |>)) with (upgrade w).
  destruct (append_skeleton _ r) as [sk|]; cbn [rbind]; [|done].
  destruct (observe _ r) as [u|]; cbn [rbind]; [|done].
  destruct (is_boundary r); [|done]. cbn zeta.
  match goal with |- _ = rbind (publish_keyframe _ ?w0) _ => rewrite <- (publish_keyframe_phase w0 p) end.
  done.
Qed.

Lemma fold_record_refused log n m w record offset rest any_record checkpoint message :
  inv log n m w -> Forall (fun r => foldable r = true) log ->
  phase w = Folding ((record, offset) :: rest) any_record checkpoint ->
  fold_record own_pid validate_keyframe w record offset = Err message -> refused log message.
Proof.
  intros I Hfoldable Hphase.
  destruct (inv_front _ _ _ _ _ _ _ _ _ I Hphase) as (Hmn & Htake & _ & _).
  pose proof (inv_length _ _ _ _ I) as Hlen.
  assert (log !! m = Some record) as Hr.
  { transitivity (take (S m) log !! m); [symmetry; apply lookup_take_lt; lia|].
    rewrite Htake, lookup_app_r, length_take_le, Nat.sub_diag by (rewrite ?length_take_le; lia). done. }
  assert (foldable record = true) as Hrec by (rewrite Forall_lookup in Hfoldable; by eapply Hfoldable).
  destruct (append_skeleton_total (skeleton w) record Hrec) as [sk1 Hsk].
  { rewrite (inv_through _ _ _ _ I). pose proof (inv_dense _ _ _ _ I) as Hd.
    assert (map seq log !! m = Some (seq record)) as Hm by (by rewrite list_lookup_fmap, Hr).
    rewrite Hd in Hm. apply lookup_seqZ in Hm as [-> _]. lia. }
  destruct (observe_total (upgrade w) record Hrec) as [u' Hobs].
  pose proof (inv_with_record _ _ _ _ _ _ _ _ _ _ _ I Hphase Hsk Hobs) as I2.
  unfold fold_record. rewrite Hsk. cbn [rbind]. rewrite Hobs. cbn [rbind]. cbn zeta.
  destruct (is_boundary record); [|done]. intros E.
  apply (publish_keyframe_refused _ _ _ _ message I2); [lia|].
  by rewrite publish_keyframe_phase, E.
Qed.

Lemma publish_keyframe_raises log n m w w' :
  inv log n m w -> publish_keyframe validate_keyframe w = Ok w' -> checkpoint_seq w <= checkpoint_seq w'.
Proof.
  intros I Hpub. pose proof (inv_through _ _ _ _ I) as Ht. destruct (inv_requests _ _ _ _ I) as (_ & _ & Hc).
  unfold publish_keyframe in Hpub. destruct (validate_keyframe _); cbn [rbind] in Hpub; [|done].
  destruct (match keyframes w !! _ with Some _ => _ | None => _ end); cbn [rbind] in Hpub; [|done].
  injection Hpub as <-. cbn. lia.
Qed.

Lemma fold_record_raises log n m w record offset rest any_record checkpoint w' :
  inv log n m w -> phase w = Folding ((record, offset) :: rest) any_record checkpoint ->
  fold_record own_pid validate_keyframe w record offset = Ok w' -> checkpoint_seq w <= checkpoint_seq w'.
Proof.
  intros I Hphase Hf. unfold fold_record in Hf.
  destruct (append_skeleton (skeleton w) record) as [sk1|] eqn:Hsk; cbn [rbind] in Hf; [|done].
  destruct (observe (upgrade w) record) as [u'|] eqn:Hobs; cbn [rbind] in Hf; [|done].
  pose proof (inv_with_record _ _ _ _ _ _ _ _ _ _ _ I Hphase Hsk Hobs) as I2.
  cbn zeta in Hf. destruct (is_boundary record); [|by injection Hf as <-].
  eapply (publish_keyframe_raises _ _ _ _ (w' <| phase := Folding rest any_record checkpoint |>)) in I2; [done|].
  by rewrite publish_keyframe_phase, Hf.
Qed.

(** What the committer leaves when it gets through its batch *)
Lemma fold_batch_runs log n any_record checkpoint batch m w w' :
  inv log n m (w <| phase := Folding batch any_record checkpoint |>) ->
  fold_batch own_pid validate_keyframe w batch = Ok w' ->
  inv log n (m + length batch) (w' <| phase := Folding [] any_record checkpoint |>) /\
  same_queue w w' /\ checkpoint_seq w <= checkpoint_seq w' /\
  forall w0 records, run w0 records (w <| phase := Folding batch any_record checkpoint |>) ->
    run w0 records (w' <| phase := Folding [] any_record checkpoint |>).
Proof.
  revert m w. induction batch as [|[r o] batch IH]; intros m w I E.
  { injection E as <-. rewrite Nat.add_0_r. by split_and!. }
  cbn [fold_batch] in E. destruct (fold_record _ _ w r o) as [w2|] eqn:E1; cbn [rbind] in E; [|done].
  assert (fold_record own_pid validate_keyframe (w <| phase := Folding ((r, o) :: batch) any_record checkpoint |>) r o
    = Ok (w2 <| phase := Folding ((r, o) :: batch) any_record checkpoint |>)) as Hw1
    by (by rewrite fold_record_phase, E1).
  pose proof (inv_fold_record _ _ _ _ r o batch any_record checkpoint _ I eq_refl Hw1) as I1.
  pose proof (fold_record_raises _ _ _ _ r o batch any_record checkpoint _ I eq_refl Hw1) as Hraise.
  apply fold_record_queue in E1 as Hq.
  destruct (IH (S m) w2) as (I' & Hq' & Hc' & Hrun); [exact I1|done|].
  split; [cbn [length]; by rewrite Nat.add_succ_r|]. split.
  { destruct Hq as (? & ? & ? & ? & ?), Hq' as (? & ? & ? & ? & ?). split_and!; congruence. }
  split; [cbn in Hraise; lia|]. intros w0 records Hw0. apply Hrun.
  assert (Hstep : step None (w <| phase := Folding ((r, o) :: batch) any_record checkpoint |>)
    (w2 <| phase := Folding ((r, o) :: batch) any_record checkpoint |> <| phase := Folding batch any_record checkpoint |>))
    by (eapply step_fold; [reflexivity|exact Hw1]).
  rewrite <- (app_nil_r records). exact (run_step _ _ _ _ _ _ _ None _ Hw0 Hstep).
Qed.

(** No projection refuses a record that folds: only the rules of a keyframe stop it. *)
Lemma fold_batch_refused log n any_record checkpoint batch m w message :
  inv log n m (w <| phase := Folding batch any_record checkpoint |>) ->
  Forall (fun r => foldable r = true) log ->
  fold_batch own_pid validate_keyframe w batch = Err message -> refused log message.
Proof.
  intros I Hfoldable. revert m w I. induction batch as [|[r o] batch IH]; intros m w I E; [done|].
  cbn [fold_batch] in E. destruct (fold_record _ _ w r o) as [w2|message'] eqn:E1; cbn [rbind] in E.
  - apply (IH (S m) w2); [|done].
    exact (inv_fold_record _ _ _ _ r o batch any_record checkpoint _ I eq_refl
      (eq_trans (fold_record_phase w r o _) (f_equal (fun x => rbind x _) E1))).
  - injection E as <-.
    exact (fold_record_refused _ _ _ _ r o batch any_record checkpoint message' I Hfoldable eq_refl
      (eq_trans (fold_record_phase w r o _) (f_equal (fun x => rbind x _) E1))).
Qed.

Lemma publish_batch_phase w any_record checkpoint p :
  publish_batch headline validate_head validate_keyframe (w <| phase := p |>) any_record checkpoint =
  rbind (publish_batch headline validate_head validate_keyframe w any_record checkpoint) (fun w' => Ok (w' <| phase := p |>)).
Proof.
  unfold publish_batch. change (wants_keyframe (w <| phase := p |>) checkpoint) with (wants_keyframe w checkpoint).
  destruct (wants_keyframe w checkpoint).
  - rewrite publish_keyframe_phase. destruct (publish_keyframe _ w) as [w1|]; cbn [rbind]; [|done].
    destruct any_record; [apply publish_head_phase|done].
  - cbn [rbind]. destruct any_record; [apply publish_head_phase|done].
Qed.

(** It publishes what it folded, and a checkpoint when one is wanted. *)
Lemma publish_batch_runs log n m w any_record checkpoint w' :
  inv log n m w -> publish_batch headline validate_head validate_keyframe w any_record checkpoint = Ok w' ->
  checkpoint_seq w <= checkpoint_seq w' /\ (checkpoint = true -> Z.of_nat m <= checkpoint_seq w').
Proof.
  intros I. unfold publish_batch. pose proof (inv_through _ _ _ _ I) as Ht.
  destruct (inv_requests _ _ _ _ I) as (_ & _ & Hck).
  destruct (if wants_keyframe w checkpoint then publish_keyframe validate_keyframe w else Ok w) as [w1|] eqn:E1;
    cbn [rbind]; [|done].
  assert (checkpoint_seq w <= checkpoint_seq w1 /\ (checkpoint = true -> Z.of_nat m <= checkpoint_seq w1)) as [Hc Hcm].
  { destruct (wants_keyframe w checkpoint) eqn:Hb.
    - destruct (inv_keyframe _ _ _ _ _ I (wanted_covers _ _ _ _ _ I Hb) E1) as (_ & _ & Hcm & _). lia.
    - injection E1 as <-. split; [lia|]. intros ->. unfold wants_keyframe in Hb. to_prop. cbn in *. lia. }
  destruct any_record; [|by intros [= <-]]. unfold publish_head.
  destruct (stated_head w1) as [h|]; [|by intros [= <-]].
  destruct (validate_head h); cbn [rbind]; [|done]. by intros [= <-].
Qed.

Lemma publish_batch_refused log n m w any_record checkpoint message :
  inv log n m w -> publish_batch headline validate_head validate_keyframe w any_record checkpoint = Err message ->
  refused log message.
Proof.
  intros I. unfold publish_batch.
  destruct (wants_keyframe w checkpoint) eqn:Hb; cbn [rbind].
  - pose proof (wanted_covers _ _ _ _ _ I Hb) as Hm.
    destruct (publish_keyframe validate_keyframe w) as [w1|message'] eqn:E1; cbn [rbind].
    + destruct (inv_keyframe _ _ _ _ _ I Hm E1) as (I1 & _). destruct any_record; [|done].
      by apply (publish_head_refused _ _ _ _ _ I1).
    + intros [= <-]. by apply (publish_keyframe_refused _ _ _ _ _ I Hm).
  - destruct any_record; [|done]. by apply (publish_head_refused _ _ _ _ _ I).
Qed.

Lemma publish_batch_queue w any_record checkpoint w' :
  publish_batch headline validate_head validate_keyframe w any_record checkpoint = Ok w' -> same_queue w w'.
Proof.
  unfold publish_batch. set (b := wants_keyframe w checkpoint). intros Hpub.
  destruct (if b then publish_keyframe validate_keyframe w else Ok w) as [w1|] eqn:E; cbn [rbind] in Hpub; [|done].
  assert (same_queue w w1) as (? & ? & ? & ? & ?).
  { destruct b; [by apply publish_keyframe_queue|by injection E as <-]. }
  assert (same_queue w1 w') as (? & ? & ? & ? & ?).
  { destruct any_record; [by apply publish_head_queue|by injection Hpub as <-]. }
  split_and!; congruence.
Qed.

Lemma run_snoc w0 records w w' : run w0 records w -> step None w w' -> run w0 records w'.
Proof. intros Hrun Hstep. rewrite <- (app_nil_r records). exact (run_step _ _ _ _ _ _ _ None _ Hrun Hstep). Qed.

(** The steps of a round *)
Lemma round_steps w now checkpoint w2 w4 :
  let batch := pending w in
  let any_record := match batch with [] => false | _ :: _ => true end in
  phase w = Idle -> policy w now = Some (CommitBatch checkpoint) ->
  (forall w0 records,
    run w0 records (take_batch w <| durable := synced_file (take_batch w) batch |> <| phase := Folding batch any_record checkpoint |>) ->
    run w0 records (w2 <| phase := Folding [] any_record checkpoint |>)) ->
  publish_batch headline validate_head validate_keyframe w2 any_record checkpoint = Ok w4 -> phase w4 = Idle ->
  run w [] (w4 <| committed := through_seq (skeleton w4) |>).
Proof.
  intros batch any_record Hidle Hpol Hfold Hpub Hidle4.
  assert (Hpub' : publish_batch headline validate_head validate_keyframe (w2 <| phase := Folding [] any_record checkpoint |>)
    any_record checkpoint = Ok (w4 <| phase := Folding [] any_record checkpoint |>)).
  { by rewrite publish_batch_phase, Hpub. }
  assert (w4 <| committed := through_seq (skeleton w4) |> =
    w4 <| phase := Published |> <| committed := through_seq (skeleton w4) |> <| phase := Idle |>) as E.
  { rewrite <- Hidle4. by destruct w4. }
  assert (R0 : run w [] w) by apply run_start.
  pose proof (run_snoc _ _ _ _ R0 (step_take _ _ _ _ w now checkpoint Hidle Hpol)) as R1.
  pose proof (run_snoc _ _ _ _ R1 (step_sync _ _ _ _ (take_batch (w <| phase := Taken (pending w) checkpoint |>))
    (pending w) checkpoint eq_refl)) as R2.
  pose proof (Hfold _ _ R2) as R3.
  pose proof (run_snoc _ _ _ _ R3 (step_publish _ _ _ _ (w2 <| phase := Folding [] any_record checkpoint |>)
    any_record checkpoint _ eq_refl Hpub')) as R4.
  pose proof (run_snoc _ _ _ _ R4 (step_committed _ _ _ _
    (w4 <| phase := Published |>) eq_refl)) as R5.
  exact (eq_ind_r (run w []) R5 E).
Qed.

(** While the committer waits, what is folded is committed and the rest is pending. *)
Lemma idle_pending log n m w : inv log n m w -> phase w = Idle ->
  committed w = Z.of_nat m /\ length (pending w) = (n - m)%nat.
Proof.
  intros I Hidle. split; [by apply (inv_committed _ _ _ _ I)|].
  pose proof (inv_work _ _ _ _ I) as Hw. unfold in_flight, is_stopped in Hw. rewrite Hidle in Hw.
  cbn [app] in Hw. rewrite Hw, entries_length, length_drop, length_take_le; [done| |done].
  by destruct (inv_length _ _ _ _ I).
Qed.

(** The policy commits for whoever waits. *)
Lemma policy_commits log n m w now :
  inv log n m w -> phase w = Idle -> failed w = false ->
  is_committed w (urgent_seq (intent w)) false && is_committed w (wanted_checkpoint (intent w)) true = false ->
  exists checkpoint, policy w now = Some (CommitBatch checkpoint).
Proof.
  intros I Hidle Hopen Hwait. destruct (idle_pending _ _ _ _ I Hidle) as [Hc Hp].
  destruct (inv_requests _ _ _ _ I) as (Hu & Hw & Hck). pose proof (inv_due _ _ _ _ I) as Hdue.
  unfold policy, next. rewrite Hopen. destruct (checkpoint_seq w <? wanted_checkpoint (intent w)) eqn:E.
  - destruct (due (intent w)); [|by eauto]. cbn [negb]. rewrite andb_false_r. cbn. by eauto.
  - assert (committed w < urgent_seq (intent w)) as Hlt.
    { unfold is_committed in Hwait. rewrite E in Hwait. cbn in Hwait. lia. }
    destruct (due (intent w)) as [t|] eqn:Ed.
    + rewrite (proj2 (Z.leb_gt _ _)) by lia. rewrite andb_false_r. by eauto.
    + exfalso. rewrite (proj1 Hdue eq_refl) in Hp. cbn in Hp. lia.
Qed.

Lemma policy_checkpoint w now checkpoint : policy w now = Some (CommitBatch checkpoint) ->
  checkpoint = (checkpoint_seq w <? wanted_checkpoint (intent w)).
Proof.
  unfold policy, next. destruct (failed w); [done|]. destruct (due (intent w)).
  - destruct (_ && _); [done|]. by intros [= <-].
  - destruct (_ <? _); [by intros [= <-]|]. by destruct (closing _).
Qed.

(** The round a caller waits for: what it leaves, and what can stop it *)
Lemma committer_round_spec log n m w now checkpoint :
  inv log n m w -> phase w = Idle -> policy w now = Some (CommitBatch checkpoint) ->
  match committer_round headline own_pid validate_head validate_keyframe w checkpoint with
  | Ok w' => run w [] w' /\ phase w' = Idle /\ failed w' = failed w /\ committed w' = sequence w /\
      is_committed w' (urgent_seq (intent w)) false = true /\
      is_committed w' (wanted_checkpoint (intent w)) true = true
  | Err message => Forall (fun r => foldable r = true) log -> refused log message
  end.
Proof.
  intros I Hidle Hpol. pose proof (policy_checkpoint _ _ _ Hpol) as Hcp.
  destruct (idle_pending _ _ _ _ I Hidle) as [_ Hp]. set (batch := pending w) in *.
  set (any_record := match batch with [] => false | _ :: _ => true end).
  set (w1 := take_batch w <| durable := synced_file (take_batch w) batch |>).
  pose proof (inv_take _ _ _ _ checkpoint I Hidle) as I0.
  pose proof (inv_sync _ _ _ _ _ _ I0 eq_refl) as I1.
  change (committer_round headline own_pid validate_head validate_keyframe w checkpoint) with
    (let* w' := (let* w' := fold_batch own_pid validate_keyframe w1 batch in
       publish_batch headline validate_head validate_keyframe w' any_record checkpoint) in
     Ok (w' <| committed := through_seq (skeleton w') |>)).
  destruct (fold_batch own_pid validate_keyframe w1 batch) as [w2|message] eqn:Hw2; cbn [rbind].
  2: { intros Hfoldable. by apply (fold_batch_refused log n any_record checkpoint batch m w1). }
  destruct (fold_batch_runs log n any_record checkpoint batch m w1 w2 I1 Hw2) as (I2 & Hq2 & Hc2 & Hrun2).
  assert (publish_batch headline validate_head validate_keyframe (w2 <| phase := Folding [] any_record checkpoint |>)
    any_record checkpoint = rbind (publish_batch headline validate_head validate_keyframe w2 any_record checkpoint)
      (fun w' => Ok (w' <| phase := Folding [] any_record checkpoint |>))) as Hw3 by apply publish_batch_phase.
  destruct (publish_batch _ _ _ w2 _ _) as [w4|message] eqn:E4; cbn [rbind] in *.
  2: { intros _. by apply (publish_batch_refused _ _ _ _ _ _ _ I2 Hw3). }
  destruct (publish_batch_runs _ _ _ _ _ _ _ I2 Hw3) as [Hc3 Hm3].
  pose proof (inv_publish _ _ _ _ any_record checkpoint _ I2 eq_refl Hw3) as I3.
  pose proof (inv_length _ _ _ _ I) as Hlen.
  replace (m + length batch)%nat with n in * by lia.
  pose proof (publish_batch_queue _ _ _ _ E4) as Hq4.
  destruct Hq2 as (Hi2 & Hp2 & Hf2 & Hs2 & Hph2), Hq4 as (Hi4 & Hp4 & Hf4 & Hs4 & Hph4).
  assert (Hidle4 : phase w4 = Idle) by (by rewrite Hph4, Hph2).
  assert (Hthrough : through_seq (skeleton w4) = Z.of_nat n) by (by apply inv_through in I3).
  split; [by eapply round_steps|]. split; [done|]. split; [cbn; by rewrite Hf4, Hf2|].
  assert (Hseq : sequence w = Z.of_nat n) by (by destruct I).
  destruct (inv_requests _ _ _ _ I) as (Hu & Hw & _).
  split; [cbn; by rewrite Hthrough|]. unfold is_committed. cbn [committed checkpoint_seq update andb].
  rewrite Hthrough, !(proj2 (Z.ltb_ge (Z.of_nat n) _)) by lia. split; [done|].
  rewrite (proj2 (Z.ltb_ge _ _)); [done|].
  destruct (checkpoint_seq w <? wanted_checkpoint (intent w)) eqn:E.
  - cbn in Hm3. specialize (Hm3 Hcp). lia.
  - cbn in Hc2, Hc3. lia.
Qed.

(** C28: a commit is served.  Whenever the committer waits and a caller of [commit],
    [checkpoint], [close] or a boundary [append] is not served, the policy commits, whatever the
    clock says.  Unless the disk fails, the round gets through, and after it everything appended is
    committed and everyone served; or the rules of the published messages refuse a head stated of
    the log or a keyframe of it, which ends the committer.  (No projection refuses a record, and no
    keyframe conflicts with one on the disk.) *)
Theorem commit_is_served log w now :
  life log w -> phase w = Idle -> failed w = false ->
  is_committed w (urgent_seq (intent w)) false && is_committed w (wanted_checkpoint (intent w)) true = false ->
  exists checkpoint, policy w now = Some (CommitBatch checkpoint) /\
  match committer_round headline own_pid validate_head validate_keyframe w checkpoint with
  | Ok w' => run w [] w' /\ phase w' = Idle /\ failed w' = false /\ committed w' = sequence w /\
      is_committed w' (urgent_seq (intent w)) false = true /\
      is_committed w' (wanted_checkpoint (intent w)) true = true
  | Err message => refused log message
  end.
Proof.
  intros Hlife Hidle Hopen Hwait. destruct (life_inv _ _ Hlife) as [Hfoldable (n & m & I)].
  destruct (policy_commits _ _ _ _ now I Hidle Hopen Hwait) as [checkpoint Hpol]. exists checkpoint.
  split; [done|]. pose proof (committer_round_spec _ _ _ _ _ _ I Hidle Hpol) as Hround.
  destruct (committer_round _ _ _ _ w checkpoint) as [w'|message]; [|by apply Hround].
  rewrite Hopen in Hround. exact Hround.
Qed.

(** C26: a crash loses nothing that was committed.  Whatever a crash keeps of the bytes no sync
    covered, and whether or not it interrupted the publication of a head, the next writer
    recovers: it takes the first records given to [append], at least all those committed, and a
    caller whose [commit] had returned finds its record among them. *)
Theorem crash_keeps_committed log w left_file left_head :
  life log w -> crash_file w left_file -> crash_head headline w left_head ->
  exists k r, recover (option_map Ok left_head) left_file = Some (Ok r) /\
    recovered_from (take k log) r /\ (k <= length log)%nat /\ committed w <= Z.of_nat k /\
    forall target checkpoint, is_committed w target checkpoint = true -> target <= Z.of_nat k.
Proof.
  intros Hlife Hfile Hhead. destruct (life_inv _ _ Hlife) as [Hfoldable (n & m & I)].
  destruct (crash_keeps_synced _ _ _ _ _ _ I Hfoldable Hfile Hhead) as (k & r & Hk & Hrec & Hfrom).
  destruct (inv_committed _ _ _ _ I) as [Hc _]. exists k, r. split_and!; try done; [lia|lia|].
  intros target checkpoint Hcom. unfold is_committed in Hcom.
  apply negb_true_iff, orb_false_iff in Hcom as [Hcom _]. lia.
Qed.

Lemma folded_skeleton rs sk u : folded rs sk u -> rfold append_skeleton fresh_keyframe rs = Ok sk.
Proof.
  intros [e He]. revert He. unfold no_records. generalize 0, no_epoch, fresh_keyframe, fresh_upgrade.
  generalize (Z.of_nat (length rs)). induction rs as [|r rs IH]; intros z n0 e0 s0 u0 He.
  - by injection He as _ _ -> _.
  - cbn [rfold recover_record] in He. destruct (_ =? _); cbn [ensure rbind] in He; [|done].
    destruct (append_skeleton s0 r) as [s1|] eqn:E; cbn [rbind] in He; [|done].
    destruct (observe u0 r); cbn [rbind] in He; [|done]. cbn [rfold]. rewrite E. cbn [rbind]. eauto.
Qed.

(** A keyframe on the disk is the fold of the records before it, and its offset is where the
    records after it start: a reader that opens it and reads on sees the whole log. *)
Theorem keyframe_resumes log w k kf :
  life log w -> keyframes w !! k = Some kf ->
  fold_skeleton (take (Z.to_nat k) log) (log_offset kf) None = Ok kf /\
  (failed w = false ->
    iterate (file w) (log_offset kf) =
    Some (drop (Z.to_nat k) log, stop_at RunLogStopReason.END (Z.of_nat (length (file w))))).
Proof.
  intros Hlife Hk. destruct (life_inv _ _ Hlife) as [_ (n & m & I)].
  destruct (inv_keyframes _ _ _ _ I _ _ Hk) as (sk & u & Hkm & Hf & ->).
  pose proof (inv_encodable _ _ _ _ I) as Henc. split.
  - unfold fold_skeleton. cbn [default]. rewrite (folded_skeleton _ _ _ Hf). done.
  - intros Hopen. rewrite (inv_file_open _ _ _ _ I Hopen).
    rewrite <- (take_drop (Z.to_nat k) log) in Henc at 1. pose proof Henc as [E1 E2]%encodable_app.
    pose proof (iterate_suffix _ _ _ _ E1 E2) as Hread. cbn zeta in Hread.
    rewrite <- frames_of_app, take_drop in Hread by done.
    change (log_offset (keyframe_at (take (Z.to_nat k) log) sk)) with
      (Z.of_nat (length (log_bytes (take (Z.to_nat k) log)))).
    unfold log_bytes at 2. rewrite length_app, Nat2Z.inj_add. exact Hread.
Qed.

(** A writer that closes has committed everything.  When the committer stops without a
    failure, [close] was called, nothing is pending, every record given to [append] is committed,
    and the last keyframe is the fold of them all. *)
Theorem close_commits_all log w now :
  life log w -> phase w = Idle -> failed w = false -> policy w now = None ->
  closing (intent w) = true /\ pending w = [] /\ file w = log_bytes log /\
  committed w = Z.of_nat (length log) /\
  (log <> [] -> exists kf, keyframes w !! Z.of_nat (length log) = Some kf /\
    fold_skeleton log (Z.of_nat (length (file w))) None = Ok kf).
Proof.
  intros Hlife Hidle Hopen Hpol. destruct (life_inv _ _ Hlife) as [_ (n & m & I)].
  destruct (idle_pending _ _ _ _ I Hidle) as [Hc Hp].
  pose proof (inv_file_open _ _ _ _ I Hopen) as Hfile. pose proof (inv_open _ _ _ _ I Hopen) as Hn.
  unfold policy, next in Hpol. rewrite Hopen in Hpol.
  destruct (due (intent w)) as [t|] eqn:Ed; [by destruct (_ && _)|].
  destruct (_ <? _) eqn:Ew; [done|]. destruct (closing (intent w)) eqn:Ecl; [|done].
  assert (Hnil : pending w = []) by (by apply (inv_due _ _ _ _ I)).
  destruct (inv_closing _ _ _ _ I Ecl) as [_ Hw]. destruct (inv_requests _ _ _ _ I) as (_ & _ & Hck).
  pose proof (inv_length _ _ _ _ I). rewrite Hnil in Hp. cbn in Hp.
  assert (m = n) as -> by lia. assert (checkpoint_seq w = Z.of_nat (length log)) as Hlast by lia.
  split_and!; try done; [by rewrite Hc, Hn|]. intros Hlog.
  assert (0 < checkpoint_seq w) as Hpos by (destruct log; [done|cbn in *; lia]).
  destruct (inv_checkpoint _ _ _ _ I Hpos) as [kf Hkf]. rewrite Hlast in Hkf. exists kf. split; [done|].
  destruct (inv_keyframes _ _ _ _ I _ _ Hkf) as (sk & u & _ & Hf & ->).
  rewrite Nat2Z.id, take_ge in * by done. unfold fold_skeleton. cbn [default].
  rewrite (folded_skeleton _ _ _ Hf), Hfile. done.
Qed.

End Run.

(** ** A writer at work

    A head that states what it covers, and rules that accept every message. *)

Definition sample_headline (sk : Keyframe) (_ : option RunProcess) : option RunHead :=
  Some (sample_head (through_seq sk)).
Definition sample_accept {A} (_ : A) : result string unit := Ok tt.

Abbreviation sample_life := (@life sample_codec sample_gate sample_headline 1 sample_accept sample_accept).
Abbreviation sample_step := (@step sample_codec sample_gate sample_headline 1 sample_accept sample_accept).

Lemma sample_headline_seq sk p h : sample_headline sk p = Some h -> committed_seq h = through_seq sk.
Proof. by intros [= <-]. Qed.

(** The first record was appended, and a checkpoint asked for. *)
Definition sample_first : Writer :=
  match @start sample_headline sample_accept sample_accept created None ∅ with
  | Ok w =>
    match @append sample_codec w (of_int 0) (sample_entry 1) with
    | Ok w => match commit w true with Ok w => w | Err _ => w end
    | Err _ => w
    end
  | Err _ => {| file := []; durable := 0; run_head := None; keyframes := ∅; pending := []; intent := no_intent;
      failed := true; committed := 0; sequence := 0; writer_epoch := no_epoch; skeleton := fresh_keyframe;
      upgrade := fresh_upgrade; checkpoint_seq := 0; process := None; phase := Stopped None |}
  end.

Lemma sample_first_life : sample_life [sample_entry 1] sample_first.
Proof.
  eassert (sample_life [] _) as L0 by (apply life_created; vm_compute; reflexivity).
  eassert (sample_life [sample_entry 1] _) as L1.
  { apply (life_step _ _ _ _ _ _ (Some (sample_entry 1)) _ L0); [|by repeat constructor].
    eapply (step_append _ _ _ _ _ (of_int 0)). vm_compute. reflexivity. }
  refine (life_step _ _ _ _ _ _ None _ L1 _ _); [|by repeat constructor].
  eapply (step_commit _ _ _ _ _ true). vm_compute. reflexivity.
Qed.

Lemma commit_is_served_witness :
  exists checkpoint w', policy sample_first (of_int 0) = Some (CommitBatch checkpoint) /\
    @committer_round sample_gate sample_headline 1 sample_accept sample_accept sample_first checkpoint = Ok w' /\
    committed w' = 1 /\ is_committed w' 1 false = true.
Proof.
  destruct (@commit_is_served sample_codec sample_laws sample_gate sample_headline 1 sample_accept sample_accept
    sample_headline_seq [sample_entry 1] sample_first (of_int 0) sample_first_life)
    as (checkpoint & Hpol & Hround); [vm_compute; reflexivity..|].
  exists checkpoint. destruct (committer_round _ _ _ _ sample_first checkpoint) as [w'|message].
  - destruct Hround as (_ & _ & _ & Hc & Hu & _). exists w'. split; [exact Hpol|]. split; [reflexivity|].
    split; [|exact Hu]. rewrite Hc. vm_compute. reflexivity.
  - exfalso. destruct Hround as [? ? ? ? _ _ E|? ? ? ? ? _ _ _ _ E]; discriminate E.
Defined.

Definition sample_round (w : Writer) (checkpoint : bool) : Writer :=
  match @committer_round sample_gate sample_headline 1 sample_accept sample_accept w checkpoint with
  | Ok w => w | Err _ => w end.

(** Then the committer made its round, and a second record was appended. *)
Definition sample_second : Writer :=
  match @append sample_codec (sample_round sample_first true) (of_int 1) (sample_entry 2) with
  | Ok w => w | Err _ => sample_first end.

Lemma sample_life_next log w w' : sample_life log w -> sample_step None w w' -> sample_life log w'.
Proof. intros L S. rewrite <- (app_nil_r log). exact (life_step _ _ _ _ _ _ None _ L S (List.Forall_nil _)). Qed.

Lemma sample_round_life : sample_life [sample_entry 1] (sample_round sample_first true).
Proof.
  pose proof sample_first_life as L0.
  eassert (sample_life [sample_entry 1] _) as L1
    by (eapply (sample_life_next _ _ _ L0), (step_take _ _ _ _ _ (of_int 0)); vm_compute; reflexivity).
  eassert (sample_life [sample_entry 1] _) as L2
    by (eapply (sample_life_next _ _ _ L1), step_sync; vm_compute; reflexivity).
  eassert (sample_life [sample_entry 1] _) as L3
    by (eapply (sample_life_next _ _ _ L2), step_fold; vm_compute; reflexivity).
  eassert (sample_life [sample_entry 1] _) as L4
    by (eapply (sample_life_next _ _ _ L3), step_publish; vm_compute; reflexivity).
  eassert (sample_life [sample_entry 1] _) as L5
    by (eapply (sample_life_next _ _ _ L4), step_committed; vm_compute; reflexivity).
  assert (forall w w', sample_life [sample_entry 1] w -> w = w' -> sample_life [sample_entry 1] w') as E
    by (by intros ? ? ? <-).
  eapply E; [exact L5|]. vm_compute. reflexivity.
Qed.

Lemma sample_second_life : sample_life [sample_entry 1; sample_entry 2] sample_second.
Proof.
  refine (life_step _ _ _ _ [sample_entry 1] _ (Some (sample_entry 2)) _ sample_round_life _ _); [|by repeat constructor].
  apply (step_append _ _ _ _ _ (of_int 1)). vm_compute. reflexivity.
Qed.

(** A crash that keeps three bytes of the second frame keeps the first record. *)
Lemma crash_keeps_committed_witness :
  exists k r, @recover sample_codec sample_gate (Some (Ok (sample_head 1)))
      (RUN_LOG_MAGIC ++ sample_frames [1] ++ [7; 14; 0]) = Some (Ok r) /\
    @recovered_from sample_codec sample_gate (take k [sample_entry 1; sample_entry 2]) r /\
    committed sample_second = 1 /\ 1 <= Z.of_nat k.
Proof.
  destruct (@crash_keeps_committed sample_codec sample_laws sample_gate sample_headline 1 sample_accept sample_accept
    sample_headline_seq [sample_entry 1; sample_entry 2] sample_second
    (RUN_LOG_MAGIC ++ sample_frames [1] ++ [7; 14; 0]) (Some (sample_head 1)) sample_second_life)
    as (k & r & Hrec & Hfrom & _ & Hc & _).
  - split; [exists [7; 14; 0]; vm_compute; reflexivity|eexists; vm_compute; reflexivity].
  - left. vm_compute. reflexivity.
  - exists k, r. split; [exact Hrec|]. split; [exact Hfrom|].
    assert (committed sample_second = 1) as E by (vm_compute; reflexivity). split; [exact E|]. by rewrite E in Hc.
Defined.

Lemma keyframe_resumes_witness :
  exists kf, keyframes sample_second !! 1 = Some kf /\
    @iterate sample_codec (file sample_second) (log_offset kf) =
    Some ([sample_entry 2], stop_at RunLogStopReason.END 32).
Proof.
  eexists. split; [vm_compute; reflexivity|].
  apply (@keyframe_resumes sample_codec sample_laws sample_gate sample_headline 1 sample_accept sample_accept
    sample_headline_seq [sample_entry 1; sample_entry 2] sample_second 1 _ sample_second_life); vm_compute; reflexivity.
Defined.

(** Closed after its first commit: the keyframe of the one record is already there. *)
Lemma close_commits_all_witness :
  let w := close (sample_round sample_first true) in
  policy w (of_int 3) = None /\ committed w = 1 /\ pending w = [].
Proof.
  assert (L : sample_life [sample_entry 1] (close (sample_round sample_first true))).
  { apply (sample_life_next _ _ _ sample_round_life), step_close. }
  split; [vm_compute; reflexivity|].
  destruct (@close_commits_all sample_codec sample_laws sample_gate sample_headline 1 sample_accept sample_accept
    sample_headline_seq [sample_entry 1] _ (of_int 3) L) as (_ & Hp & _ & Hc & _); [vm_compute; reflexivity..|].
  split; [exact Hc|exact Hp].
Defined.
