(* ===== verification/FoldText.v ===== *)
(** * The written form of core's fold

    [Folded.encode] and [Folded.decode] of [libs/vs-core/src/vs_core/_decide.py], with
    [encode_fold], [decode_fold] and [_readable] of [_step_log.py] and the tolerant read of
    version 44 documents of [_envelope_migrations.py].  The values of core's state and of the
    search's events are type parameters; pydantic's reading and writing of JSON is the class
    [FoldJson]. *)

From S2P Require Import Prelude PyFloat LogRecord.

(** [SCHEMA_VERSION], the version of the canonical encoding of every body in the core records *)
Definition CORE_SCHEMA_VERSION : Z := 1.

(** ** JSON documents *)

(** [JsonValue]: an object's members are in the order of the document, each key once *)
Inductive JsonValue : Set :=
  | JNull
  | JBool (b : bool)
  | JInt (n : Z)
  | JFloat (x : float)
  | JString (s : string)
  | JArray (items : list JsonValue)
  | JObject (members : list (string * JsonValue)).

(** What reading a fold raises: a [ValueError] of pydantic or of [_same_encoding], a
    [FoldRulesChangedError], which is one too, or the [OverflowError] of a sum. *)
Inductive Refusal : Set :=
  | FoldUnreadable
  | FoldRulesChanged (written reading : string)
  | FoldOverflow.

#[export] Instance Refusal_dec : EqDecision Refusal.
Proof. solve_decision. Defined.

Definition member (key : string) (members : list (string * JsonValue)) : option JsonValue :=
  snd <$> List.find (fun m => eqb m.1 key) members.

(** [walked.pop(key)], and [walked[key] = value] of a key it has *)
Definition pop (key : string) (members : list (string * JsonValue)) : list (string * JsonValue) :=
  List.filter (fun m => negb (eqb m.1 key)) members.
Definition set_member (key : string) (value : JsonValue) (members : list (string * JsonValue)) :
    list (string * JsonValue) :=
  map (fun m => if eqb m.1 key then (m.1, value) else m) members.

(** [_number] *)
Definition number (value : option JsonValue) : option JsonValue :=
  match value with Some (JInt n) => Some (JInt n) | Some (JFloat x) => Some (JFloat x) | _ => None end.

(** The truth of a number *)
Definition truthy (value : JsonValue) : bool :=
  match value with
  | JInt n => negb (n =? 0)
  | JFloat x => negb (feq x fzero)
  | _ => true
  end.

(** [float(n)] *)
Definition to_float (n : Z) : result Refusal float :=
  require* is_finite (of_int n) else FoldOverflow in Ok (of_int n).

(** [x + y] of two numbers *)
Definition number_add (x y : JsonValue) : result Refusal JsonValue :=
  match x, y with
  | JInt m, JInt n => Ok (JInt (m + n))
  | JInt m, JFloat y => let* x := to_float m in Ok (JFloat (fadd x y))
  | JFloat x, JInt n => let* y := to_float n in Ok (JFloat (fadd x y))
  | JFloat x, JFloat y => Ok (JFloat (fadd x y))
  | _, _ => Ok x
  end.

(** What [without_downtime_credit] makes of the walked members of an object *)
Definition without_credit (walked : list (string * JsonValue)) : result Refusal JsonValue :=
  match member "continuation_id" walked, member "downtime_credit" walked with
  | Some _, Some downtime_credit =>
    let walked := pop "downtime_credit" walked in
    match number (Some downtime_credit), number (member "deadline_at" walked) with
    | Some credit, Some deadline =>
      if truthy credit
      then let* moved := number_add deadline credit in Ok (JObject (set_member "deadline_at" moved walked))
      else Ok (JObject walked)
    | _, _ => Ok (JObject walked)
    end
  | _, _ => Ok (JObject walked)
  end.

(** [without_downtime_credit], as [_readable] calls it: with no run deadline *)
Fixpoint without_downtime_credit (value : JsonValue) : result Refusal JsonValue :=
  match value with
  | JArray items => let* items := rmap without_downtime_credit items in Ok (JArray items)
  | JObject members =>
    let* walked := rmap (fun m => let* item := without_downtime_credit m.2 in Ok (m.1, item)) members in
    without_credit walked
  | _ => Ok value
  end.

(** The bytes of an ASCII text, and [text in data] *)
Definition ascii_bytes (s : string) : list byte :=
  map (fun a => Z.of_N (Ascii.N_of_ascii a)) (String.list_ascii_of_string s).
Fixpoint bytes_in (text data : list byte) : bool :=
  eqb (take (length text) data) text || match data with [] => false | _ :: rest => bytes_in text rest end.

(** The text whose presence makes [_readable] parse: the key in its quotes *)
Definition DOWNTIME_CREDIT : list byte := 34 :: ascii_bytes "downtime_credit" ++ [34].

(** ** The fold and its body *)

(** [Translated] *)
Record Translated {Event Discarded : Type} := { events : list Event; discarded : list Discarded }.
Arguments Translated : clear implicits.

(** [Folded] *)
Record Folded {CoreState Event Discarded : Type} := { state : CoreState; owed : Translated Event Discarded }.
Arguments Folded : clear implicits.

(** [_FoldBody] *)
Record FoldBody {CoreState Event Discarded : Type} := {
  body_schema_version : Z;
  body_rules : string;
  body_state : CoreState;
  body_events : list Event;
  body_discarded : list Discarded
}.
Arguments FoldBody : clear implicits.

(** pydantic's [_FOLD] and [_ANY_JSON]: [dump_json] and [validate_json], the first under the
    registry of the reader *)
Class FoldJson (CoreState Event Discarded : Type) := {
  fold_dump : FoldBody CoreState Event Discarded -> list byte;
  fold_validate : list byte -> result string (FoldBody CoreState Event Discarded);
  any_dump : JsonValue -> list byte;
  any_validate : list byte -> result string JsonValue
}.

Section Text.
Context {CoreState Event Discarded : Type} `{!FoldJson CoreState Event Discarded}.
Local Abbreviation Folded := (Folded CoreState Event Discarded).
Local Abbreviation FoldBody := (FoldBody CoreState Event Discarded).

(** A [ValidationError] of pydantic is a [ValueError] *)
Definition validated {A} (read : result string A) : result Refusal A :=
  match read with Ok a => Ok a | Err _ => Err FoldUnreadable end.

(** [_readable] *)
Definition readable (data : list byte) : result Refusal (list byte) :=
  if negb (bytes_in DOWNTIME_CREDIT data) then Ok data
  else
    let* document := validated (any_validate data) in
    let* document := without_downtime_credit document in
    Ok (any_dump document).

(** [_same_encoding] *)
Definition same_encoding (version : Z) : result Refusal unit :=
  ensure (version =? CORE_SCHEMA_VERSION) FoldUnreadable.

(** [encode_fold] *)
Definition encode_fold (state : CoreState) (events : list Event) (discarded : list Discarded) (rules : string) :
    list byte :=
  fold_dump {| body_schema_version := CORE_SCHEMA_VERSION; body_rules := rules; body_state := state;
               body_events := events; body_discarded := discarded |}.

(** [decode_fold] *)
Definition decode_fold (data : list byte) (rules : string) :
    result Refusal (CoreState * list Event * list Discarded) :=
  let* data := readable data in
  let* body := validated (fold_validate data) in
  let* _ := same_encoding (body_schema_version body) in
  if eqb rules ""%string || negb (eqb (body_rules body) rules)
  then Err (FoldRulesChanged (body_rules body) rules)
  else Ok (body_state body, body_events body, body_discarded body).

(** [Folded.encode] *)
Definition encode (f : Folded) (rules : string) : list byte :=
  encode_fold (state f) (events (owed f)) (discarded (owed f)) rules.

(** [Folded.decode] *)
Definition decode (data : list byte) (rules : string) : result Refusal Folded :=
  let* body := decode_fold data rules in
  let '(state, events, discarded) := body in
  Ok {| state := state; owed := {| events := events; discarded := discarded |} |}.

(** What is relied on of pydantic: a body that was written reads as itself or is refused (by a
    reader whose registry lacks an operation, say), also once parsed and written again, and no
    field of a model is called [downtime_credit]. *)
Class FoldJsonLaws := {
  validate_dump b b' : fold_validate (fold_dump b) = Ok b' -> b' = b;
  validate_again b document b' :
    any_validate (fold_dump b) = Ok document -> fold_validate (any_dump document) = Ok b' -> b' = b;
  no_credit_left b document :
    any_validate (fold_dump b) = Ok document -> without_downtime_credit document = Ok document
}.

(** A fold that was written and then read under some rules is refused as unreadable, or is itself
    when those are the rules that wrote it and they have a name, and is refused as another's
    otherwise. *)
Lemma decode_encode `{!FoldJsonLaws} f rules rules' :
  decode (encode f rules) rules' = Err FoldUnreadable \/
  decode (encode f rules) rules' =
    if eqb rules' ""%string || negb (eqb rules rules') then Err (FoldRulesChanged rules rules') else Ok f.
Proof.
  unfold decode, decode_fold, encode, encode_fold. set (body := {| body_rules := rules |}).
  assert (Hread : readable (fold_dump body) = Err FoldUnreadable \/ exists data,
      readable (fold_dump body) = Ok data /\ forall b', fold_validate data = Ok b' -> b' = body).
  { unfold readable. destruct (negb _); [right; exists (fold_dump body); split; [done|apply validate_dump]|].
    destruct (any_validate _) as [document|] eqn:E; cbn [validated rbind]; [|by left].
    rewrite (no_credit_left body document E). cbn [rbind]. right. eexists. split; [done|].
    intros b'. by apply validate_again. }
  destruct Hread as [->|(data & -> & Hbody)]; [by left|]. cbn [rbind].
  destruct (fold_validate data) as [b|] eqn:E; cbn [validated rbind]; [|by left].
  rewrite (Hbody b eq_refl). right. cbn. destruct (_ || _); cbn; [done|]. by destruct f as [? []].
Qed.

End Text.
Arguments FoldJsonLaws CoreState Event Discarded {FoldJson0}.

(** ** Instances the witnesses evaluate *)

(** A number, its events and what was discarded of it, written as bytes with their lengths *)
Definition ascii_of (data : list byte) : string :=
  String.string_of_list_ascii (map (fun z => Ascii.ascii_of_N (Z.to_N z)) data).

Lemma ascii_of_bytes s : ascii_of (ascii_bytes s) = s.
Proof.
  unfold ascii_of, ascii_bytes. rewrite <- (String.string_of_list_ascii_of_string s) at 2. f_equal.
  induction (String.list_ascii_of_string s) as [|a l IH]; [done|]. cbn [map]. rewrite IH, N2Z.id.
  by rewrite Ascii.ascii_N_embedding.
Qed.

#[export] Instance sample_fold_json : FoldJson Z Z Z :=
  {| fold_dump b := body_schema_version b :: body_state b :: Z.of_nat (length (body_events b)) ::
       Z.of_nat (length (body_discarded b)) :: body_events b ++ body_discarded b ++ ascii_bytes (body_rules b);
     fold_validate data := match data with
       | version :: state :: heard :: dropped :: rest => Ok {|
           body_schema_version := version; body_rules := ascii_of (drop (Z.to_nat (heard + dropped)) rest);
           body_state := state; body_events := take (Z.to_nat heard) rest;
           body_discarded := take (Z.to_nat dropped) (drop (Z.to_nat heard) rest) |}
       | _ => Err "short"%string
       end;
     any_dump document := match document with
       | JArray items => map (fun item => match item with JInt n => n | _ => 0 end) items
       | _ => []
       end;
     any_validate data := Ok (JArray (map JInt data)) |}.

#[export] Instance sample_fold_laws : FoldJsonLaws Z Z Z.
Proof.
  assert (Hdump : forall b : FoldBody Z Z Z, fold_validate (fold_dump b) = Ok b).
  { intros [version rules st evs drops]. cbn -[ascii_of ascii_bytes take drop]. rewrite <- Nat2Z.inj_add, !Nat2Z.id. f_equal. f_equal.
    - by rewrite app_assoc, <- length_app, drop_app_length, ascii_of_bytes.
    - apply take_app_length.
    - by rewrite drop_app_length, take_app_length. }
  assert (Hany : forall data, any_dump (JArray (map JInt data)) = data).
  { intros data. cbn. induction data as [|z data IH]; [done|]. cbn [map]. by rewrite IH. }
  assert (Hparse : forall data, any_validate data = Ok (JArray (map JInt data))) by done.
  split.
  - intros b b'. rewrite Hdump. by intros [= ->].
  - intros b document b' Hread. rewrite Hparse in Hread. assert (document = JArray (map JInt (fold_dump b))) as -> by congruence.
    rewrite Hany, Hdump. by intros [= ->].
  - intros b document Hread. rewrite Hparse in Hread. assert (document = JArray (map JInt (fold_dump b))) as -> by congruence.
    clear Hread. generalize (fold_dump b). intros data. cbn.
    assert (rmap without_downtime_credit (map JInt data) = Ok (map JInt data)) as ->; [|done].
    induction data as [|z data IH]; [done|]. cbn [map rmap]. by rewrite IH.
Qed.

(** A wait of version 44 loses its credit, moving its deadline *)
Example credit_moves_deadline :
  without_downtime_credit (JArray [JObject [("continuation_id", JString "w"); ("deadline_at", JInt 40);
      ("downtime_credit", JInt 2)]; JObject [("downtime_credit", JInt 2)]]%string)
  = Ok (JArray [JObject [("continuation_id", JString "w"); ("deadline_at", JInt 42)];
      JObject [("downtime_credit", JInt 2)]]%string).
Proof. reflexivity. Qed.
