(* ===== verification/FoldCache.v ===== *)
(** * The cache of a log's fold, and a start from it

    [libs/vs-runlog/src/vs_runlog/_fold_cache.py] and
    [libs/vs-runtime/src/vs_runtime/_fold_keeper.py] with [fold_log] of [_saved_run_record.py].
    A fold is written and read as [FoldText] has it.  What one record does to core's fold
    ([apply_logged]), SHA-256 and the wire format of [StateCache] are parameters. *)

From S2P Require Import Prelude PyFloat Identities LogRecord FoldText.

Definition SCHEMA_VERSION : Z := 1.
Definition CACHE_EVERY : Z := 1024.

Module CacheMiss.
Inductive CacheMiss : Set := ABSENT | UNREADABLE | AHEAD_OF_LOG | DIGEST_MISMATCH | STATE_REFUSED | RULES_CHANGED.
End CacheMiss.
Abbreviation CacheMiss := CacheMiss.CacheMiss.
#[export] Instance CacheMiss_dec : EqDecision CacheMiss.
Proof. solve_decision. Defined.

(** [CachedFold] *)
Record CachedFold := { cached_through : Z; cached_digest : list byte; cached_state : list byte }.
#[export] Instance CachedFold_dec : EqDecision CachedFold.
Proof. solve_decision. Defined.

(** [StateCache], the message of [state_cache.proto] *)
Record StateCache := {
  schema_version : Z;
  cache_through_seq : Z;
  cache_digest : list byte;
  cache_state : list byte
}.

(** Its rules *)
Definition validate_cache (m : StateCache) : bool :=
  (schema_version m =? 1) && (1 <=? cache_through_seq m) &&
  (Z.of_nat (length (cache_digest m)) =? 32) &&
  (1 <=? Z.of_nat (length (cache_state m))) && (Z.of_nat (length (cache_state m)) <=? 268435456).

(** Its wire format, and SHA-256 *)
Class CacheCodec := {
  cache_to_binary : StateCache -> list byte;
  cache_from_binary : list byte -> result string StateCache;
  sha256 : list byte -> list byte
}.

Section Cache.
Context `{Codec} `{CacheCodec}.

(** ** Digests *)

(** [PrefixDigest]: what the hash was fed, and how many records *)
Record PrefixDigest := { digest_fed : list byte; digest_count : Z }.

Definition fresh_digest : PrefixDigest := {| digest_fed := []; digest_count := 0 |}.

(** [PrefixDigest.extend] *)
Definition digest_extend (d : PrefixDigest) (records : list LogRecord) : PrefixDigest :=
  fold_left (fun d record => {| digest_fed := digest_fed d ++ to_binary record; digest_count := digest_count d + 1 |})
    records d.

(** [PrefixDigest.value] *)
Definition digest_value (d : PrefixDigest) : list byte := sha256 (digest_fed d).

(** [judge]: the verdict, and the digest it leaves *)
Definition judge (loaded : CachedFold + CacheMiss) (records : list LogRecord) (digest : PrefixDigest)
    : (CachedFold + CacheMiss) * PrefixDigest :=
  match loaded with
  | inr miss => (inr miss, digest_extend digest records)
  | inl cached =>
    if Z.of_nat (length records) <? cached_through cached
    then (inr CacheMiss.AHEAD_OF_LOG, digest_extend digest records)
    else
      let through := Z.to_nat (cached_through cached) in
      let digest := digest_extend digest (take through records) in
      let verdict := if eqb (digest_value digest) (cached_digest cached)
                     then inl cached else inr CacheMiss.DIGEST_MISMATCH in
      (verdict, digest_extend digest (drop through records))
  end.

(** ** The stored form *)

(** [decode_cache] *)
Definition decode_cache (data : list byte) : CachedFold + CacheMiss :=
  match cache_from_binary data with
  | Err _ => inr CacheMiss.UNREADABLE
  | Ok m =>
    if negb (validate_cache m) then inr CacheMiss.UNREADABLE
    else if negb (schema_version m =? SCHEMA_VERSION) then inr CacheMiss.UNREADABLE
    else inl {| cached_through := cache_through_seq m; cached_digest := cache_digest m; cached_state := cache_state m |}
  end.

(** [encode_cache] *)
Definition encode_cache (c : CachedFold) : result string (list byte) :=
  let m := {| schema_version := SCHEMA_VERSION; cache_through_seq := cached_through c;
              cache_digest := cached_digest c; cache_state := cached_state c |} in
  require* validate_cache m else "invalid StateCache"%string in
  Ok (cache_to_binary m).

(** [MemoryFoldCache.load] of the bytes it holds; [FileFoldCache.load] is the same of the bytes of
    the file, a file that cannot be read ([Some None]) being unreadable *)
Definition cache_load (data : option (list byte)) : CachedFold + CacheMiss :=
  match data with None => inr CacheMiss.ABSENT | Some data => decode_cache data end.

Definition file_load (data : option (option (list byte))) : CachedFold + CacheMiss :=
  match data with
  | None => inr CacheMiss.ABSENT
  | Some None => inr CacheMiss.UNREADABLE
  | Some (Some data) => decode_cache data
  end.

(** [MemoryFoldCache.store], and [FileFoldCache.store] when its write succeeds: what the cache
    holds then; a value no reader would accept leaves it as it was *)
Definition cache_store (data : option (list byte)) (c : CachedFold) : result string unit * option (list byte) :=
  match encode_cache c with
  | Ok encoded => (Ok tt, Some encoded)
  | Err e => (Err e, data)
  end.

(** ** Starting from a cache *)

(** The values of core's fold, and what one record does to it *)
Context {CoreState Event Discarded : Type} `{!FoldJson CoreState Event Discarded}.
Local Abbreviation Folded := (Folded CoreState Event Discarded).
Context (apply_logged : option Folded -> LogRecord -> result string (option Folded)).

(** [fold_log] *)
Definition fold_log (records : list LogRecord) (prior : option Folded) : result string (option Folded) :=
  rfold apply_logged prior records.

(** [FoldKeeper]: [start] is the [FoldStart], [inl through_seq] being [CacheUsed] *)
Record FoldKeeper := {
  keeper_digest : PrefixDigest;
  kept : option Folded;
  keeping_every : Z;
  keeping_rules : string;
  written_at : Z;
  start : Z + CacheMiss
}.

Definition new_keeper (digest : PrefixDigest) (kept : option Folded) (start : Z + CacheMiss) (every : Z)
    (rules : string) : FoldKeeper :=
  {| keeper_digest := digest; kept := kept; keeping_every := every; keeping_rules := rules;
     written_at := 0; start := start |}.

(** [start_fold]: [loaded] is what the cache gives, none being no cache; an exception of
    [Folded.decode] that is no [ValueError] is the start's *)
Definition start_fold (loaded : option (CachedFold + CacheMiss)) (prefix : list LogRecord) (every : Z)
    (rules : string) : result string (option Folded * option FoldKeeper) :=
  match loaded with
  | None => let* folded := fold_log prefix None in Ok (folded, None)
  | Some loaded =>
    let (verdict, digest) := judge loaded prefix fresh_digest in
    let whole miss :=
      let* folded := fold_log prefix None in
      Ok (folded, Some (new_keeper digest folded (inr miss) every rules)) in
    match verdict with
    | inl used =>
      match decode (cached_state used) rules with
      | Err (FoldRulesChanged _ _) => whole CacheMiss.RULES_CHANGED
      | Err FoldUnreadable => whole CacheMiss.STATE_REFUSED
      | Err FoldOverflow => Err "OverflowError"%string
      | Ok cached =>
        let* folded := fold_log (drop (Z.to_nat (cached_through used)) prefix) (Some cached) in
        Ok (folded, Some (new_keeper digest folded (inl (cached_through used)) every rules))
      end
    | inr miss => whole miss
    end
  end.

(** [FoldKeeper.keep]: the keeper, and what it stores *)
Definition keep (k : FoldKeeper) (log : list LogRecord) (appended : Z) (resting : bool)
    : result string (FoldKeeper * option CachedFold) :=
  if (appended =? written_at k) || negb (resting || (keeping_every k <=? appended - written_at k))
  then Ok (k, None)
  else
    let tail := drop (Z.to_nat (digest_count (keeper_digest k))) log in
    let digest := digest_extend (keeper_digest k) tail in
    let* folded := fold_log tail (kept k) in
    let k := {| keeper_digest := digest; kept := folded; keeping_every := keeping_every k;
                keeping_rules := keeping_rules k; written_at := appended; start := start k |} in
    Ok (k, match folded with
           | None => None
           | Some folded => Some {| cached_through := digest_count digest; cached_digest := digest_value digest;
                                    cached_state := encode folded (keeping_rules k) |}
           end).

(** ** Lemmas *)

Lemma digest_extend_app d rs rs' : digest_extend d (rs ++ rs') = digest_extend (digest_extend d rs) rs'.
Proof. unfold digest_extend. apply fold_left_app. Qed.

Lemma digest_extend_count d rs : digest_count (digest_extend d rs) = digest_count d + Z.of_nat (length rs).
Proof.
  revert d. induction rs as [|r rs IH]; intros d; [cbn; lia|].
  change (digest_extend d (r :: rs)) with (digest_extend {| digest_fed := digest_fed d ++ to_binary r; digest_count := digest_count d + 1 |} rs).
  rewrite IH. cbn [digest_count length]. lia.
Qed.

(** The digest of the records of a log *)
Definition digest_of (rs : list LogRecord) : list byte := digest_value (digest_extend fresh_digest rs).

Lemma judge_digest loaded records digest : (judge loaded records digest).2 = digest_extend digest records.
Proof.
  unfold judge. destruct loaded as [c|]; [|done]. destruct (_ <? _); [done|]. cbn [snd].
  by rewrite <- digest_extend_app, take_drop.
Qed.

Lemma judge_used loaded records used : (judge loaded records fresh_digest).1 = inl used <->
  loaded = inl used /\ cached_through used <= Z.of_nat (length records) /\
  digest_of (take (Z.to_nat (cached_through used)) records) = cached_digest used.
Proof.
  unfold judge. destruct loaded as [c|]; [|by split; [done|intros [? _]]].
  destruct (_ <? _) eqn:E; cbn [fst].
  - split; [done|]. intros ([= ->] & Hle & _). lia.
  - fold (digest_of (take (Z.to_nat (cached_through c)) records)).
    destruct (eqb _ _) eqn:Ed; cbn [fst].
    + apply eqb_eq in Ed. split; [intros [= <-]; split_and!; [done|lia|done]|by intros ([= ->] & _ & _)].
    + apply eqb_neq in Ed. split; [done|]. by intros ([= ->] & _ & ?).
Qed.

(** A cache that a keeper wrote: the fold, under the rules [rules], of the records [rs] *)
Definition kept_of (rules : string) (rs : list LogRecord) (c : CachedFold) : Prop :=
  exists f, fold_log rs None = Ok (Some f) /\ cached_through c = Z.of_nat (length rs) /\
    cached_digest c = digest_of rs /\ cached_state c = encode f rules.

(** A keeper that holds the fold of what its digest covers *)
Definition keeps (k : FoldKeeper) (log : list LogRecord) : Prop :=
  keeper_digest k = digest_extend fresh_digest log /\ fold_log log None = Ok (kept k).

Lemma fold_log_app rs rs' p : fold_log (rs ++ rs') p = rbind (fold_log rs p) (fold_log rs').
Proof. unfold fold_log. apply rfold_app. Qed.

(** The start that folds the whole log *)
Lemma whole_start prefix miss every rules :
  match (let* folded := fold_log prefix None in
         Ok (folded, Some (new_keeper (digest_extend fresh_digest prefix) folded (inr miss) every rules))) with
  | Ok (folded, keeper) => fold_log prefix None = Ok folded /\ exists k, keeper = Some k /\ keeps k prefix
  | Err e => fold_log prefix None = Err e
  end.
Proof.
  destruct (fold_log prefix None) as [f|] eqn:Hf; cbn [rbind]; [|done].
  split; [done|]. eexists. split; [done|]. by split.
Qed.

(** The fold of a log from the fold of its first records *)
Lemma fold_from rs prefix f : fold_log rs None = Ok (Some f) -> rs = take (length rs) prefix ->
  fold_log prefix None = fold_log (drop (length rs) prefix) (Some f).
Proof.
  intros Hf Htake. rewrite <- (take_drop (length rs) prefix) at 1. by rewrite fold_log_app, <- Htake, Hf.
Qed.

(** C37: a cache changes no result.  Whatever the cache holds (nothing, bytes that do not decode, the
    fold of another log or of a longer one, of other rules, of rules without a name, or of this
    log, whether or not pydantic still reads it, or a state that was damaged into one that is
    refused), as long as the digests of two different logs differ, a start has the fold of the
    whole log, or raises what folding it raises, and its keeper goes on from it. *)
Theorem cache_changes_no_result `{!FoldJsonLaws CoreState Event Discarded} loaded prefix every rules :
  (forall c, loaded = inl c ->
    (exists rules' rs, kept_of rules' rs c /\
      (digest_of rs = digest_of (take (length rs) prefix) -> rs = take (length rs) prefix)) \/
    exists e, decode (cached_state c) rules = Err e /\ e <> FoldOverflow) ->
  match start_fold (Some loaded) prefix every rules with
  | Ok (folded, keeper) => fold_log prefix None = Ok folded /\
      exists k, keeper = Some k /\ keeps k prefix
  | Err e => fold_log prefix None = Err e
  end.
Proof.
  intros Hkept. unfold start_fold.
  pose proof (judge_digest loaded prefix fresh_digest) as Hdigest.
  destruct (judge loaded prefix fresh_digest) as [verdict digest] eqn:Hjudge. cbn [snd] in Hdigest. subst digest.
  destruct verdict as [used|miss]; [|apply whole_start].
  assert (Hused : (judge loaded prefix fresh_digest).1 = inl used) by (by rewrite Hjudge).
  apply judge_used in Hused as (-> & Hle & Hd).
  destruct (Hkept used eq_refl) as [(rules' & rs & (f & Hf & Hthrough & Hdig & Hstate) & Hinj)|(e & -> & He)];
    [|by destruct e; [apply whole_start..|]].
  rewrite Hstate. destruct (decode_encode f rules' rules) as [-> | ->]; [apply whole_start|].
  destruct (_ || _); [apply whole_start|]. rewrite Hthrough, Nat2Z.id in *.
  rewrite <- (fold_from rs prefix f Hf) by (apply Hinj; congruence).
  destruct (fold_log prefix None) as [folded|] eqn:Hfold; cbn [rbind]; [|done].
  split; [done|]. eexists. split; [done|]. by split.
Qed.

(** What a keeper stores is the fold of the whole log under its rules: the cache a later start
    may use ([kept_of]), whatever records came between, core's or not. *)
Theorem keeper_stores_fold k log appended resting k' stored :
  keeps k (take (Z.to_nat (digest_count (keeper_digest k))) log) ->
  keep k log appended resting = Ok (k', stored) ->
  (stored = None /\ k' = k) \/
  (keeps k' log /\ written_at k' = appended /\
   match stored with
   | None => fold_log log None = Ok None
   | Some c => kept_of (keeping_rules k) log c
   end).
Proof.
  intros [Hd Hf]. unfold keep. destruct (_ || _); [intros [= <- <-]; by left|]. cbn zeta.
  set (n := Z.to_nat _) in *. destruct (fold_log (drop n log) (kept k)) as [folded|] eqn:E; cbn [rbind]; [|done].
  intros [= <- <-]. right.
  assert (Hall : digest_extend (keeper_digest k) (drop n log) = digest_extend fresh_digest log).
  { by rewrite Hd, <- digest_extend_app, take_drop. }
  assert (Hfold : fold_log log None = Ok folded).
  { rewrite <- (take_drop n log) at 1. rewrite fold_log_app, Hf. exact E. }
  split; [by split|]. split; [done|]. destruct folded as [f|]; [|done].
  exists f. rewrite Hall. cbn [cached_through cached_digest cached_state].
  split; [done|]. split; [by rewrite digest_extend_count|]. by split.
Qed.

(** A cache is judged by its records, never by its state: one whose state bytes were damaged
    into another fold that reads under the same rules is used, and the start has that fold. *)
Theorem damaged_state_used c data g prefix every rules :
  decode data rules = Ok g ->
  cached_through c <= Z.of_nat (length prefix) ->
  digest_of (take (Z.to_nat (cached_through c)) prefix) = cached_digest c ->
  start_fold (Some (inl {| cached_through := cached_through c; cached_digest := cached_digest c;
                           cached_state := data |})) prefix every rules =
  let* folded := fold_log (drop (Z.to_nat (cached_through c)) prefix) (Some g) in
  Ok (folded, Some (new_keeper (digest_extend fresh_digest prefix) folded (inl (cached_through c)) every rules)).
Proof.
  intros Hread Hle Hd. unfold start_fold. set (c' := {| cached_through := _ |}).
  pose proof (judge_digest (inl c') prefix fresh_digest) as Hdigest.
  assert (Hused : (judge (inl c') prefix fresh_digest).1 = inl c') by (by apply judge_used).
  destruct (judge (inl c') prefix fresh_digest) as [verdict digest]. cbn [fst snd] in *. subst.
  cbn [c' cached_state cached_through]. by rewrite Hread.
Qed.

End Cache.
Section Stored.
Context `{CacheCodec}.
Hypothesis from_to_cache : forall m, validate_cache m = true -> cache_from_binary (cache_to_binary m) = Ok m.

(** What was stored is what is read, by a cache in memory and by one in a file, and a value no
    reader would accept is refused and leaves the cache as it was. *)
Theorem store_load data c :
  match cache_store data c with
  | (Ok _, data') => cache_load data' = inl c /\ file_load (Some data') = inl c
  | (Err _, data') => data' = data
  end.
Proof.
  unfold cache_store, encode_cache. set (m := {| schema_version := _ |}).
  destruct (validate_cache m) eqn:Hv; cbn [ensure rbind]; [|done].
  cbn [cache_load file_load]. unfold decode_cache. rewrite from_to_cache, Hv by done. cbn [negb m schema_version].
  rewrite Z.eqb_refl. cbn. by destruct c.
Qed.

End Stored.

(** ** A cache codec and a fold, on which the witnesses are evaluated *)

(** The hash is the first 32 bytes fed to it. *)
#[local] Instance sample_cache : CacheCodec :=
  {| cache_to_binary m := cache_through_seq m :: cache_digest m ++ cache_state m;
     cache_from_binary data := match data with
       | through :: rest => Ok {| schema_version := SCHEMA_VERSION; cache_through_seq := through;
                                  cache_digest := take 32 rest; cache_state := drop 32 rest |}
       | [] => Err "empty"%string
       end;
     sha256 fed := take 32 (fed ++ replicate 32 0) |}.

Lemma sample_cache_law m : validate_cache m = true -> cache_from_binary (cache_to_binary m) = Ok m.
Proof.
  unfold validate_cache. rewrite !andb_true_iff. intros ((((Hs & _) & Hd) & _) & _).
  assert (Hlen : length (cache_digest m) = 32%nat) by lia. cbn [cache_from_binary cache_to_binary sample_cache].
  rewrite <- Hlen, take_app_length, drop_app_length.
  destruct m as [version]. cbn in *. unfold SCHEMA_VERSION. by replace 1 with version by lia.
Qed.

(** The fold counts the records. *)
Definition sample_fold (n : Z) : Folded Z Z Z := {| state := n; owed := {| events := [n]; discarded := [] |} |}.
Definition sample_apply (p : option (Folded Z Z Z)) (r : LogRecord) : result string (option (Folded Z Z Z)) :=
  Ok (Some (sample_fold (match p with Some f => state f | None => 0 end + 1))).

#[local] Existing Instance sample_codec.

Definition sample_log (n : nat) : list LogRecord := map (fun i => sample_entry (Z.of_nat i)) (List.seq 1 n).

(** The cache of the first two records of a log of three *)
Definition sample_cached : CachedFold :=
  {| cached_through := 2; cached_digest := digest_of (sample_log 2); cached_state := encode (sample_fold 2) "rules" |}.

Lemma cache_changes_no_result_witness :
  match start_fold sample_apply (Some (inl sample_cached)) (sample_log 3) 1024 "rules" with
  | Ok (folded, keeper) => fold_log sample_apply (sample_log 3) None = Ok folded /\
      exists k, keeper = Some k /\ keeps sample_apply k (sample_log 3)
  | Err e => fold_log sample_apply (sample_log 3) None = Err e
  end.
Proof.
  apply (cache_changes_no_result sample_apply).
  intros c [= <-]. left. exists "rules"%string, (sample_log 2). split; [|vm_compute; reflexivity].
  exists (sample_fold 2). vm_compute. split_and!; reflexivity.
Defined.

(** Of that cache a start under its rules folds one record, and one under others, or under rules
    without a name, or of a state cut short, all three. *)
Example starts_from_a_cache :
  let start_of c rules := match start_fold sample_apply (Some (inl c)) (sample_log 3) 1024 rules with
    | Ok (Some folded, Some k) => Some (state folded, start k) | _ => None end in
  let cut := {| cached_through := 2; cached_digest := cached_digest sample_cached; cached_state := [1] |} in
  start_of sample_cached "rules"%string = Some (3, inl 2) /\
  start_of sample_cached "other"%string = Some (3, inr CacheMiss.RULES_CHANGED) /\
  start_of {| cached_through := 2; cached_digest := cached_digest sample_cached;
              cached_state := encode (sample_fold 2) "" |} ""%string = Some (3, inr CacheMiss.RULES_CHANGED) /\
  start_of cut "rules"%string = Some (3, inr CacheMiss.STATE_REFUSED).
Proof. vm_compute. split_and!; reflexivity. Qed.

Definition sample_keeper : FoldKeeper :=
  new_keeper (digest_extend fresh_digest (sample_log 2)) (Some (sample_fold 2)) (inr CacheMiss.ABSENT) 1 "rules".

Lemma keeper_stores_fold_witness :
  exists k' c, keep sample_apply sample_keeper (sample_log 3) 1 false = Ok (k', Some c) /\
    keeps sample_apply k' (sample_log 3) /\ kept_of sample_apply "rules" (sample_log 3) c.
Proof.
  pose (k' := {| keeper_digest := digest_extend fresh_digest (sample_log 3); kept := Some (sample_fold 3); keeping_every := 1;
                 keeping_rules := "rules"; written_at := 1; start := inr CacheMiss.ABSENT |}).
  pose (c := {| cached_through := 3; cached_digest := digest_of (sample_log 3); cached_state := encode (sample_fold 3) "rules" |}).
  exists k', c. split; [vm_compute; reflexivity|].
  destruct (keeper_stores_fold sample_apply sample_keeper (sample_log 3) 1 false k' (Some c))
    as [[H _]|(Hk & _ & Hc)]; [by split|vm_compute; reflexivity|discriminate H|]. by split.
Defined.

Lemma damaged_state_used_witness :
  start_fold sample_apply
    (Some (inl {| cached_through := 2; cached_digest := digest_of (sample_log 2);
                  cached_state := encode (sample_fold 7) "rules" |})) (sample_log 3) 1024 "rules"
  = Ok (Some (sample_fold 8), Some (new_keeper (digest_extend fresh_digest (sample_log 3)) (Some (sample_fold 8)) (inl 2) 1024 "rules")).
Proof.
  rewrite (damaged_state_used sample_apply sample_cached (encode (sample_fold 7) "rules") (sample_fold 7)
    (sample_log 3) 1024 "rules"); [reflexivity|reflexivity|vm_compute; discriminate|reflexivity].
Defined.

Lemma store_load_witness :
  let stored := (cache_store None sample_cached).2 in cache_load stored = inl sample_cached.
Proof.
  pose proof (store_load sample_cache_law None sample_cached) as H. vm_compute in H. vm_compute. exact (proj1 H).
Defined.
