(* ===== verification/ConfirmedLog.v ===== *)
(** * The one appender of a run.log

    [libs/vs-runlog/src/vs_runlog/_confirmed_log.py]: [ConfirmedLog] numbers and dates every record
    of a run and keeps the prefix it confirmed; [SharedWriter] is its surface for the display
    projection.  The writer under it is the class [RunLogRecords] (the source's protocol of that
    name) with the laws [RunLogLaws]; [RunLog] shows that the writer of [Writer] keeps them.

    Every method holds the lock from its start to its end, so a thread sees the others' calls as
    whole operations: an interleaving is a sequence of calls. *)

From Stdlib Require Import Sorted.
From S2P Require Import Prelude PyFloat Identities LogRecord.

(** ** The writer below *)

(** What a call of the writer raises *)
Inductive WriteError : Set := OSError | ValueError (message : string).
#[export] Instance WriteError_dec : EqDecision WriteError.
Proof. solve_decision. Defined.

(** [RunLogRecords]: a state is a writer with its disk and what the committer will do *)
Class RunLogRecords (W : Type) := {
  write : W -> LogRecord -> result WriteError unit * W;
  sync : W -> result WriteError unit * W;
  read_records : W -> result WriteError (list LogRecord) * W
}.

(** The rule of [Record.clock] *)
Definition clock_ok (r : LogRecord) : bool := is_finite (clock r) && fle fzero (clock r).

(** [holds w rs d]: the log is [rs], of which the first [d] records are durable.  A record that
    is written is the next of the log and satisfies the rule of its clock; the log never loses a
    record, a call that returns did what it says, and one that raises may have written its record. *)
Class RunLogLaws (W : Type) `{RunLogRecords W} (holds : W -> list LogRecord -> nat -> Prop) : Prop := {
  holds_durable w rs d : holds w rs d -> (d <= length rs)%nat;
  write_law w rs d r : holds w rs d ->
    let next rs' w' := exists d', (d <= d')%nat /\ holds w' rs' d' in
    let written := seq r = Z.of_nat (length rs) + 1 /\ clock_ok r = true in
    match write w r with
    | (Ok _, w') => written /\ next (rs ++ [r]) w'
    | (Err _, w') => next rs w' \/ (written /\ next (rs ++ [r]) w')
    end;
  sync_law w rs d : holds w rs d ->
    match sync w with
    | (Ok _, w') => holds w' rs (length rs)
    | (Err _, w') => exists d', (d <= d')%nat /\ holds w' rs d'
    end;
  read_law w rs d : holds w rs d ->
    match read_records w with
    | (Ok records, w') => exists d', (d <= d')%nat /\ records = take d' rs /\ holds w' rs d'
    | (Err _, w') => exists d', (d <= d')%nat /\ holds w' rs d'
    end
}.

(** ** The confirmed log *)

(** [CoreMessage] *)
Inductive CoreMessage : Set :=
  | EpochStartedMessage (value : EpochStarted)
  | RunStarted (value : Canonical)
  | CoreSnapshot (value : Canonical)
  | CoreInput (value : Canonical)
  | StrategyAdvanced (value : Canonical)
  | StepStarted (value : Canonical)
  | StepFinished (value : Canonical)
  | AttemptInterrupted (value : Canonical)
  | RunEnded (value : Canonical).

(** [_step_body] and [_body] *)
Definition body_of (message : CoreMessage) : Body :=
  match message with
  | EpochStartedMessage value => Body.epoch_started value
  | RunStarted value => Body.run_started value
  | CoreSnapshot value => Body.core_snapshot value
  | CoreInput value => Body.core_input value
  | StrategyAdvanced value => Body.strategy_advanced value
  | StepStarted value => Body.step_started value
  | StepFinished value => Body.step_finished value
  | AttemptInterrupted value => Body.attempt_interrupted value
  | RunEnded value => Body.run_ended value
  end.

(** [Appended | Uncertain] *)
Inductive Appending : Set := Appended (record : LogRecord) | Uncertain.

(** [_latest]: the clock of the last record, 0 for a log with none *)
Definition latest (prefix : list LogRecord) : float :=
  match last prefix with Some r => clock r | None => fzero end.

(** [ConfirmedLog._dated], where [present] is what the run's clock reads now *)
Definition dated (present : option float) (clock : float) (prefix : list LogRecord) : float :=
  fmax (match present with None => clock | Some present => fmin clock present end) (latest prefix).

(** [record.seq = ...] and [record.clock = ...] *)
Definition numbered (record : LogRecord) (number : Z) (dated_ : float) : LogRecord :=
  {| seq := number; record_at := record_at record; epoch := epoch record; clock_field := Some dated_;
     input_measurement := input_measurement record; body := body record; record_rest := record_rest record |}.

Section Log.
Context {W : Type} `{RunLogRecords W}.

(** The fields of [ConfirmedLog], its lock and the run's clock apart *)
Record ConfirmedLog := { writer : W; confirmed : option (list LogRecord) }.

(** A method: what it returns or raises, and the log it leaves *)
Definition method (A : Type) : Type := ConfirmedLog -> result WriteError A * ConfirmedLog.
Definition ret {A} (a : A) : method A := fun log => (Ok a, log).
Definition raise {A} (e : WriteError) : method A := fun log => (Err e, log).
Definition bind {A B} (m : method A) (k : A -> method B) : method B :=
  fun log => match m log with
             | (Ok a, log) => k a log
             | (Err e, log) => (Err e, log)
             end.
Local Notation "'let!' x ':=' m 'in' k" := (bind m (fun x => k)) (at level 10, x name, k at level 200).

(** A call of the writer *)
Definition on_writer {A} (call : W -> result WriteError A * W) : method A :=
  fun log => let (r, w) := call (writer log) in (r, {| writer := w; confirmed := confirmed log |}).

(** [self._confirmed = ...] *)
Definition set_confirmed (c : option (list LogRecord)) : method unit :=
  fun log => (Ok tt, {| writer := writer log; confirmed := c |}).

(** [ConfirmedLog.__init__] *)
Definition new_log (w : W) : ConfirmedLog := {| writer := w; confirmed := None |}.

(** [ConfirmedLog._prefix] *)
Definition prefix : method (list LogRecord) :=
  fun log => match confirmed log with
             | Some prefix => (Ok prefix, log)
             | None => (let! read := on_writer read_records in
                        let! _ := set_confirmed (Some read) in
                        ret read) log
             end.

(** [ConfirmedLog.records] *)
Definition records : method (list LogRecord) := prefix.

(** [ConfirmedLog.forget] *)
Definition forget : method unit := set_confirmed None.

(** [try: ... except OSError: ...] *)
Definition except_os_error {A} (m : method A) (handler : method A) : method A :=
  fun log => match m log with
             | (Err OSError, log) => handler log
             | outcome => outcome
             end.

(** [ConfirmedLog.extend] *)
Definition extend (record : LogRecord) : method Appending :=
  let! prefix := prefix in
  if negb (seq record =? Z.of_nat (length prefix) + 1)
  then raise (ValueError "run.log record does not follow the confirmed ones")
  else if flt (clock record) (latest prefix)
  then raise (ValueError "run.log record is dated before the record that precedes it")
  else
    let! _ := set_confirmed None in
    except_os_error
      (let! _ := on_writer (fun w => write w record) in
       let! _ := on_writer sync in
       let! _ := set_confirmed (Some (prefix ++ [record])) in
       ret (Appended record))
      (ret Uncertain).

(** [ConfirmedLog.stage]; the record the caller passed becomes the one it returns *)
Definition stage (present : option float) (record : LogRecord) : method LogRecord :=
  let! prefix := prefix in
  let record := numbered record (Z.of_nat (length prefix) + 1) (dated present (clock record) prefix) in
  let! _ := set_confirmed None in
  let! _ := on_writer (fun w => write w record) in
  let! _ := set_confirmed (Some (prefix ++ [record])) in
  ret record.

(** [ConfirmedLog.commit] *)
Definition commit : method unit := on_writer sync.

(** [ConfirmedLog.next_record] *)
Definition next_record (present : option float) (message : CoreMessage) (epoch_ : Z) (at_ : Timestamp)
    (clock_ : float) : method LogRecord :=
  let! prefix := prefix in
  ret {| seq := Z.of_nat (length prefix) + 1; record_at := Some at_; epoch := epoch_;
         clock_field := Some (dated present clock_ prefix); input_measurement := None;
         body := Some (body_of message); record_rest := EmptyString |}.

(** [ConfirmedLog.append]; the clock is read once, as [next_record] does *)
Definition append (present : option float) (message : CoreMessage) (epoch_ : Z) (at_ : Timestamp)
    (clock_ : float) : method Appending :=
  let! record := next_record present message epoch_ at_ clock_ in
  extend record.

(** ** The surface of the projection *)

(** [SharedWriter]: [sequence], [append], [commit] and [read] *)
Definition shared_sequence : method Z :=
  let! records := records in
  ret (Z.of_nat (length records)).
Definition shared_append : option float -> LogRecord -> method LogRecord := stage.
Definition shared_commit : method unit := commit.
Definition shared_read : method (list LogRecord) := records.

(** ** Calls *)

(** The calls of the threads that share the log *)
Inductive Call : Type :=
  | Extend (record : LogRecord)
  | Append (message : CoreMessage) (epoch : Z) (at_ : Timestamp) (clock : float)
  | Stage (record : LogRecord)
  | Commit
  | Records
  | Forget.

Definition call (present : option float) (c : Call) (log : ConfirmedLog) : ConfirmedLog :=
  match c with
  | Extend record => (extend record log).2
  | Append message epoch_ at_ clock_ => (append present message epoch_ at_ clock_ log).2
  | Stage record => (stage present record log).2
  | Commit => (commit log).2
  | Records => (records log).2
  | Forget => (forget log).2
  end.

(** The calls of a run in the order the lock gave them, each with the present instant *)
Definition calls (log : ConfirmedLog) (cs : list (option float * Call)) : ConfirmedLog :=
  fold_left (fun log c => call c.1 c.2 log) cs log.

End Log.
Arguments ConfirmedLog W : clear implicits.

(** ** What a log keeps *)

(** An uncertain append is a call of the writer that raised an [OSError]. *)
Lemma append_uncertain {W} `{RunLogRecords W} present message epoch_ at_ clock_ (log log' : ConfirmedLog W) :
  append present message epoch_ at_ clock_ log = (Ok Uncertain, log') ->
  confirmed log' = None /\
  exists w, (exists r, write w r = (Err OSError, writer log')) \/ sync w = (Err OSError, writer log').
Proof.
  unfold append, next_record, bind at 1 2, ret. destruct (prefix log) as [[p|] log1]; [|done].
  unfold extend, bind at 1. destruct (prefix log1) as [[p1|] log2]; [|done].
  destruct (negb _); [done|]. destruct (flt _ _); [done|].
  unfold except_os_error, bind, set_confirmed, on_writer, ret. cbn [writer confirmed].
  match goal with |- context [write ?w ?r] => destruct (write w r) as [[[]|[]] w1] eqn:Ew end; cbn [writer confirmed].
  - destruct (sync w1) as [[[]|[]] w2] eqn:Es; cbn; intros [= <-]. split; [done|]. exists w1. by right.
  - intros [= <-]. split; [done|]. eexists. left. by eexists.
  - done.
Qed.

Section Laws.
Context {W : Type} {holds : W -> list LogRecord -> nat -> Prop} `{RunLogLaws W holds}.
Implicit Types (log : ConfirmedLog W) (rs : list LogRecord).

(** The log under [log] is [rs], [d] of it durable, and what it confirmed is how it starts. *)
Definition tracks log rs (d : nat) : Prop :=
  holds (writer log) rs d /\ forall p, confirmed log = Some p -> p `prefix_of` rs.

(** [r] is the record that comes next, in number and in time *)
Definition follows rs (r : LogRecord) : Prop :=
  seq r = Z.of_nat (length rs) + 1 /\ clock_ok r = true /\ flt (clock r) (latest rs) = false.

(** What a call leaves: the log, or the log and one record of which [P] holds *)
Definition left_by (P : LogRecord -> Prop) log' rs d : Prop :=
  exists rs' d', tracks log' rs' d' /\ (d <= d')%nat /\
    (rs' = rs \/ exists r, rs' = rs ++ [r] /\ follows rs r /\ P r).

Lemma left_same P log rs d d' : tracks log rs d' -> (d <= d')%nat -> left_by P log rs d.
Proof. intros Ht Hd. exists rs, d'. split_and!; [done..|by left]. Qed.

Lemma prefix_law log rs d : tracks log rs d ->
  match prefix log with
  | (Ok p, log') => exists d', (d <= d')%nat /\ holds (writer log') rs d' /\ confirmed log' = Some p /\
      p `prefix_of` rs /\ (confirmed log <> None -> log' = log) /\ (confirmed log = None -> p = take d' rs)
  | (Err _, log') => confirmed log = None /\ confirmed log' = None /\
      exists d', (d <= d')%nat /\ holds (writer log') rs d'
  end.
Proof.
  intros [Hh Hp]. unfold prefix. destruct (confirmed log) as [p|] eqn:Hc.
  - exists d. split_and!; [done..|by apply Hp|done|done].
  - unfold bind, on_writer. pose proof (read_law _ _ _ Hh) as Hr.
    destruct (read_records (writer log)) as [[records|e] w']; cbn.
    + destruct Hr as (d' & Hd & -> & Hh'). exists d'.
      split_and!; [done..|by apply prefix_take|by intros []|done].
    + by split_and!.
Qed.

(** A record of the right number fits only the whole log. *)
Lemma prefix_whole p rs r : p `prefix_of` rs ->
  seq r = Z.of_nat (length p) + 1 -> seq r = Z.of_nat (length rs) + 1 -> p = rs.
Proof. intros [q ->]. rewrite length_app. intros. destruct q; [by rewrite app_nil_r|cbn in *; lia]. Qed.

Lemma tracks_none log rs d : holds (writer log) rs d -> confirmed log = None -> tracks log rs d.
Proof. intros Hh Hc. split; [done|]. by rewrite Hc. Qed.

(** What [extend] does once the prefix is there *)
Lemma extend_law log rs d p r : tracks log rs d -> confirmed log = Some p ->
  match extend r log with
  | (Ok (Appended r'), log') => r' = r /\ p = rs /\ follows rs r /\
      holds (writer log') (rs ++ [r]) (length (rs ++ [r])) /\ confirmed log' = Some (rs ++ [r])
  | (Ok Uncertain, log') => confirmed log' = None /\ left_by (eq r) log' rs d
  | (Err (ValueError _), log') => left_by (eq r) log' rs d
  | (Err OSError, _) => False
  end.
Proof.
  intros [Hh Hp] Hc. specialize (Hp _ Hc). unfold extend, bind at 1, prefix. rewrite Hc.
  destruct (seq r =? Z.of_nat (length p) + 1) eqn:Hseq; cbn [negb raise].
  2: { apply (left_same _ _ _ _ d); [|done]. split; [done|]. rewrite Hc. by intros ? [= <-]. }
  apply Z.eqb_eq in Hseq. destruct (flt _ _) eqn:Hclk; cbn [raise].
  { apply (left_same _ _ _ _ d); [|done]. split; [done|]. rewrite Hc. by intros ? [= <-]. }
  unfold bind, set_confirmed, on_writer, except_os_error, ret. cbn [writer confirmed].
  pose proof (write_law _ _ _ r Hh) as Hw. destruct (write (writer log) r) as [[[]|e] w']; cbn [writer confirmed].
  - destruct Hw as [[Hn Hok] (d' & Hd & Hh')]. pose proof (prefix_whole _ _ _ Hp Hseq Hn) as ->.
    pose proof (sync_law _ _ _ Hh') as Hs. destruct (sync w') as [[[]|[]] w'']; cbn [writer confirmed].
    + by split_and!.
    + destruct Hs as (d'' & Hd' & Hh''). split; [done|]. exists (rs ++ [r]), d''.
      split; [by apply tracks_none|]. split; [lia|]. right. by exists r.
    + destruct Hs as (d'' & Hd' & Hh''). exists (rs ++ [r]), d''.
      split; [by apply tracks_none|]. split; [lia|]. right. by exists r.
  - assert (left_by (eq r) {| writer := w'; confirmed := None |} rs d) as Hleft.
    { destruct Hw as [(d' & Hd & Hh')|[[Hn Hok] (d' & Hd & Hh')]].
      - apply (left_same _ _ _ _ d'); [by apply tracks_none|done].
      - pose proof (prefix_whole _ _ _ Hp Hseq Hn) as ->. exists (rs ++ [r]), d'.
        split; [by apply tracks_none|]. split; [lia|]. right. by exists r. }
    by destruct e; cbn [writer confirmed].
Qed.

(** ** Dates *)

Lemma clock_ok_nan r : clock_ok r = true -> is_nan (clock r) = false.
Proof. unfold clock_ok. intros [Hf _]%andb_true_iff. by destruct (clock r). Qed.

Lemma dated_not_before present c rs : is_nan (dated present c rs) = false -> flt (dated present c rs) (latest rs) = false.
Proof.
  unfold dated. set (x := match present with None => _ | Some _ => _ end). unfold fmax.
  destruct (flt x (latest rs)) eqn:E; intros _; [by apply flt_irrefl|done].
Qed.

(** [stage], once the prefix is there *)
Lemma stage_law present log rs d p r : tracks log rs d -> confirmed log = Some p ->
  match stage present r log with
  | (Ok r', log') => p = rs /\ r' = numbered r (Z.of_nat (length rs) + 1) (dated present (clock r) rs) /\
      follows rs r' /\ confirmed log' = Some (rs ++ [r']) /\
      exists d', (d <= d')%nat /\ holds (writer log') (rs ++ [r']) d'
  | (Err _, log') => confirmed log' = None /\
      left_by (fun r' => r' = numbered r (Z.of_nat (length rs) + 1) (dated present (clock r) rs)) log' rs d
  end.
Proof.
  intros [Hh Hp] Hc. specialize (Hp _ Hc). unfold stage, bind, prefix. rewrite Hc.
  set (r' := numbered r _ _). assert (Hseq : seq r' = Z.of_nat (length p) + 1) by done.
  unfold set_confirmed, on_writer, ret. cbn [writer confirmed].
  assert (Hfit : seq r' = Z.of_nat (length rs) + 1 -> clock_ok r' = true ->
    p = rs /\ r' = numbered r (Z.of_nat (length rs) + 1) (dated present (clock r) rs) /\ follows rs r').
  { intros Hn Hok. pose proof (prefix_whole _ _ _ Hp Hseq Hn) as ->. split; [done|]. split; [done|].
    split_and!; [done..|]. apply clock_ok_nan in Hok. by apply dated_not_before. }
  pose proof (write_law _ _ _ r' Hh) as Hw. destruct (write (writer log) r') as [[[]|e] w']; cbn [writer confirmed].
  - destruct Hw as [[Hn Hok] Hnext]. destruct (Hfit Hn Hok) as (-> & Hr & Hf). by split_and!.
  - split; [done|]. destruct Hw as [(d' & Hd & Hh')|[[Hn Hok] (d' & Hd & Hh')]].
    + apply (left_same _ _ _ _ d'); [by apply tracks_none|done].
    + destruct (Hfit Hn Hok) as (-> & Hr & Hf). exists (rs ++ [r']), d'.
      split; [by apply tracks_none|]. split; [done|]. right. by exists r'.
Qed.

(** ** A run of calls *)

(** A log in order: dense from 1, every clock a number, none before the one it follows *)
Definition in_order rs : Prop :=
  map seq rs = seqZ 1 (Z.of_nat (length rs)) /\ Forall (fun r => clock_ok r = true) rs /\
  Sorted (fun r r' => fle (clock r) (clock r') = true) rs.

Lemma in_order_snoc rs r : in_order rs -> follows rs r -> in_order (rs ++ [r]).
Proof.
  intros (Hd & Hok & Hs) (Hn & Hr & Hc). split_and!.
  - by apply dense_snoc.
  - apply Forall_app. by split; [|constructor].
  - unfold latest in Hc. destruct (last rs) as [r0|] eqn:E.
    + apply last_Some in E as [rs0 ->]. rewrite <- app_assoc. cbn [app].
      apply Forall_app in Hok as [_ Hok]. inversion_clear Hok.
      revert Hs. generalize rs0. clear -Hc Hr H1. intros l. induction l as [|x l IH]; cbn; intros Hs.
      * repeat constructor. apply not_flt_fle; [by apply clock_ok_nan..|done].
      * inversion_clear Hs as [|? ? Hl Hx]. constructor; [by apply IH|]. destruct l; by inversion_clear Hx; constructor.
    + apply last_None in E as ->. by repeat constructor.
Qed.

Lemma left_weaken (P Q : LogRecord -> Prop) log' rs d d' :
  (forall r, P r -> Q r) -> (d <= d')%nat -> left_by P log' rs d' -> left_by Q log' rs d.
Proof.
  intros HPQ Hd (rs' & d'' & Ht & Hd' & Hrs). exists rs', d''. split; [done|]. split; [lia|].
  destruct Hrs as [?|(r & ? & ? & ?)]; [by left|right; by eauto].
Qed.

(** A method that begins by reading the prefix does so once. *)
Definition first_reads {A} (m : method A) : Prop := forall log,
  m log = match prefix log with (Ok _, log) => m log | (Err e, log) => (Err e, log) end.

Lemma prefix_confirms log p log' : prefix log = (Ok p, log') -> prefix log' = (Ok p, log').
Proof.
  intros E. assert (Hc : confirmed log' = Some p); [|by unfold prefix; rewrite Hc].
  revert E. unfold prefix. destruct (confirmed log) eqn:Hc; [by intros [= <- <-]|].
  unfold bind, on_writer, set_confirmed, ret. destruct (read_records _) as [[]]; by intros [= <- <-].
Qed.

Lemma first_reads_prefix : first_reads prefix.
Proof. intros log. destruct (prefix log) as [[p|e] log1] eqn:E; [|done]. by rewrite (prefix_confirms _ _ _ E). Qed.

Lemma first_reads_bind {A} (k : list LogRecord -> method A) : first_reads (bind prefix k).
Proof.
  intros log. unfold bind at 1. destruct (prefix log) as [[p|e] log1] eqn:E; [|done].
  unfold bind. by rewrite (prefix_confirms _ _ _ E).
Qed.

Lemma first_reads_stage present r : first_reads (stage present r).
Proof. apply first_reads_bind. Qed.

Lemma first_reads_append present m e a c : first_reads (append present m e a c).
Proof.
  intros log. unfold append, next_record, bind at 1. rewrite first_reads_bind.
  destruct (prefix log) as [[p|err] log1]; [|done]. done.
Qed.

(** Every call leaves the log, or the log and the record that follows it, of the body the call
    gave; a call other than [Extend] dates it between the last record and the present instant. *)
Definition bodied_by (c : Call) (b : option Body) : Prop :=
  match c with
  | Extend r | Stage r => b = body r
  | Append message _ _ _ => b = Some (body_of message)
  | Commit | Records | Forget => False
  end.
Definition dated_by (present : option float) (c : Call) rs (r : LogRecord) : Prop :=
  bodied_by c (body r) /\
  match c with Extend r' => r = r' | _ => exists c, clock r = dated present c rs end.

Lemma call_law present c log rs d : tracks log rs d ->
  exists rs' d', tracks (call present c log) rs' d' /\ (d <= d')%nat /\
    (rs' = rs \/ exists r, rs' = rs ++ [r] /\ follows rs r /\ dated_by present c rs r).
Proof.
  intros Ht. change (left_by (dated_by present c rs) (call present c log) rs d).
  pose proof (prefix_law _ _ _ Ht) as Hpre.
  assert (Hfirst : forall A (m : method A) (P : LogRecord -> Prop), first_reads m ->
    (forall log' d' p, tracks log' rs d' -> confirmed log' = Some p -> left_by P (m log').2 rs d') ->
    left_by P (m log).2 rs d).
  { intros A m P Hm Hleft. rewrite Hm. destruct (prefix log) as [[p|e] log1].
    - destruct Hpre as (d' & Hd & Hh & Hc & Hp & _). apply (left_weaken P _ _ _ _ d'); [done..|].
      apply (Hleft _ _ p); [|done]. split; [done|]. rewrite Hc. by intros ? [= <-].
    - destruct Hpre as (_ & Hc & d' & Hd & Hh). apply (left_same _ _ _ _ d'); [by apply tracks_none|done]. }
  assert (Hextend : forall log' d' p r, tracks log' rs d' -> confirmed log' = Some p ->
    left_by (eq r) (extend r log').2 rs d').
  { intros log' d' p r Ht' Hc. pose proof (extend_law _ _ _ _ r Ht' Hc) as He.
    destruct (extend r log') as [[[r'|]|[]] log1]; cbn [snd]; try first [done|by destruct He as [? ?]].
    destruct He as (_ & _ & Hf & Hh & Hc'). exists (rs ++ [r]), (length (rs ++ [r])).
    split; [split; [done|by rewrite Hc'; intros ? [= <-]]|]. destruct Ht' as [Hh' _].
    apply holds_durable in Hh'. rewrite length_app. split; [lia|]. right. by exists r. }
  destruct c; cbn [call dated_by].
  - apply Hfirst; [apply first_reads_bind|]. intros log' d' p Ht' Hc.
    apply (left_weaken (eq record) _ _ _ _ d'); [by intros ? <-|done|by eapply Hextend].
  - apply Hfirst; [apply first_reads_append|]. intros log' d' p Ht' Hc.
    unfold append, next_record, bind, prefix at 1. rewrite Hc. cbn [ret].
    match goal with |- context [extend ?r _] => set (r' := r) end.
    destruct (Hextend _ _ _ r' Ht' Hc) as (rs' & d'' & Ht'' & Hd & Hrs).
    exists rs', d''. split; [done|]. split; [done|]. destruct Hrs as [->|(r1 & -> & Hf & <-)]; [by left|].
    right. exists r'. split; [done|]. split; [done|]. split; [done|]. exists clock.
    assert (p = rs) as <-; [|done]. by apply (prefix_whole p rs r'); [apply Ht'| |apply Hf].
  - apply Hfirst; [apply first_reads_bind|]. intros log' d' p Ht' Hc.
    pose proof (stage_law present _ _ _ _ record Ht' Hc) as Hs.
    destruct (stage present record log') as [[r'|e] log1]; cbn [snd].
    + destruct Hs as (-> & -> & Hf & Hc' & d'' & Hd & Hh). eexists _, d''.
      split; [split; [done|by rewrite Hc'; intros ? [= <-]]|]. split; [done|]. right. eexists.
      split; [done|]. split; [done|]. split; [done|]. by exists (LogRecord.clock record).
    + destruct Hs as [_ Hs]. eapply left_weaken; [|reflexivity|exact Hs]. intros r' ->. split; [done|]. by exists (LogRecord.clock record).
  - destruct Ht as [Hh Hp]. unfold commit, on_writer. pose proof (sync_law _ _ _ Hh) as Hs.
    destruct (sync (writer log)) as [[[]|e] w']; cbn [snd].
    + apply (left_same _ _ _ _ (length rs)); [by split|by eapply holds_durable].
    + destruct Hs as (d' & Hd & Hh'). by apply (left_same _ _ _ _ d').
  - apply Hfirst; [apply first_reads_prefix|]. intros log' d' p Ht' Hc. unfold records, prefix. rewrite Hc. by apply (left_same _ _ _ _ d').
  - destruct Ht as [Hh _]. apply (left_same _ _ _ _ d); [by apply tracks_none|done].
Qed.

Lemma calls_cons log c cs : calls log (c :: cs) = calls (call c.1 c.2 log) cs.
Proof. done. Qed.

Lemma calls_law log rs d cs : tracks log rs d ->
  exists rs' d', tracks (calls log cs) rs' d' /\ rs `prefix_of` rs' /\ (d <= d')%nat /\
    (in_order rs -> in_order rs') /\
    forall r, r ∈ rs' -> r ∈ rs \/ exists c, c ∈ cs /\ bodied_by c.2 (body r).
Proof.
  revert log rs d. induction cs as [|c cs IH]; intros log rs d Ht; [exists rs, d; by split_and!; auto|].
  rewrite calls_cons. destruct (call_law c.1 c.2 _ _ _ Ht) as (rs1 & d1 & Ht1 & Hd & Hrs).
  destruct (IH _ _ _ Ht1) as (rs' & d' & Ht' & Hp & Hd' & Ho' & Hb). exists rs', d'. split; [done|].
  assert (forall r, r ∈ rs1 -> r ∈ rs \/ bodied_by c.2 (body r)) as Hb1.
  { destruct Hrs as [->|(r & -> & _ & Hr & _)]; [by left|]. intros r' [?|Er%list_elem_of_singleton]%elem_of_app; [by left|subst r'; by right]. }
  destruct Hrs as [->|(r & -> & Hf & _)]; (split_and!; [|lia| |]); [done|done| |by eapply prefix_app_l| |].
  2: intros Ho; by apply Ho', in_order_snoc.
  all: intros r' [Hr|(c' & Hc & Hr)]%Hb; [destruct (Hb1 r' Hr) as [?|?]; [by left|right; exists c; split; [by left|done]]|
    right; exists c'; split; [by right|done]].
Qed.

(** C33: the log of a run stays in order.  Whatever calls the threads of a run make, in whatever
    order, and whatever fails: the log is a dense sequence whose clocks never go back, it only
    grows, and no durable record stops being so. *)
Theorem log_stays_in_order log rs d cs :
  tracks log rs d -> in_order rs ->
  exists rs' d', tracks (calls log cs) rs' d' /\ in_order rs' /\ rs `prefix_of` rs' /\ (d <= d')%nat.
Proof.
  intros Ht Ho. destruct (calls_law _ _ _ cs Ht) as (rs' & d' & Ht' & Hp & Hd & Ho' & _).
  exists rs', d'. by auto.
Qed.

(** The records of the log that a caller who read [now] may see *)
Definition not_after (now : float) rs : Prop := Forall (fun r => fle (clock r) now = true) rs.

(** The run's clock never goes back. *)
Fixpoint clock_forward (now : float) (cs : list (option float * Call)) : Prop :=
  match cs with
  | [] => True
  | (present, c) :: cs => exists t, present = Some t /\ fle now t = true /\
      (match c with Extend r => fle (clock r) t = true | _ => True end) /\ clock_forward t cs
  end.

Lemma latest_not_after now rs : fle fzero now = true -> not_after now rs -> fle (latest rs) now = true.
Proof.
  intros Hz Hall. unfold latest. destruct (last rs) as [r|] eqn:E; [|done].
  apply last_Some in E as [l ->]. apply Forall_app in Hall as [_ Hr]. by inversion Hr.
Qed.

(** What the clock last read *)
Definition instant (now : float) (cs : list (option float * Call)) : float :=
  fold_left (fun now c => default now c.1) cs now.

(** No record is dated after the present: while the run's clock does not go back, every record
    of the log, whoever appended it, is no later than what the clock last read, so a fact dated
    now is never older than a record of the log. *)
Theorem no_record_after_present now log rs d cs :
  tracks log rs d -> fle fzero now = true -> not_after now rs -> clock_forward now cs ->
  exists rs' d', tracks (calls log cs) rs' d' /\ not_after (instant now cs) rs' /\
    fle (latest rs') (instant now cs) = true.
Proof.
  revert now log rs d. induction cs as [|[present c] cs IH]; intros now log rs d Ht Hz Hn Hf.
  { exists rs, d. split_and!; [apply Ht..|done|by apply latest_not_after]. }
  destruct Hf as (t & -> & Hle & Hc & Hf). rewrite calls_cons. cbn [fst snd instant fold_left default].
  destruct (call_law (Some t) c _ _ _ Ht) as (rs1 & d1 & Ht1 & _ & Hrs).
  assert (Hzt : fle fzero t = true) by (by eapply fle_trans).
  assert (Hrs0 : not_after t rs) by (eapply Forall_impl; [exact Hn|]; intros r Hr; exact (fle_trans _ _ _ Hr Hle)).
  apply (IH t _ rs1 d1); [done..| |done].
  destruct Hrs as [->|(r & -> & (_ & Hok & _) & Hby)]; [done|].
  apply Forall_app. split; [done|]. constructor; [|done].
  pose proof (latest_not_after _ _ Hzt Hrs0) as Hl. apply clock_ok_nan in Hok.
  assert (Hdated : (exists x, clock r = dated (Some t) x rs) -> fle (clock r) t = true).
  { intros [x E]. rewrite E in *. apply fmax_lub; [|done].
    destruct (is_nan x) eqn:Hx; [|apply fmin_le_r; [done|by eapply fle_nan_r]].
    destruct x as [[]|[]| |[]]; try done. revert Hok. unfold dated, fmin, fmax. by destruct t as [[]|[]| |[]], (latest rs) as [[]|[]| |[]]. }
  destruct Hby as [_ Hby]. destruct c; [by subst|by apply Hdated..].
Qed.

(** [r] is [message], stamped as the record that follows [rs] *)
Definition stamped (present : option float) (message : CoreMessage) (epoch_ : Z) (at_ : Timestamp) (clock_ : float)
    rs (r : LogRecord) : Prop :=
  r = {| seq := Z.of_nat (length rs) + 1; record_at := Some at_; epoch := epoch_;
         clock_field := Some (dated present clock_ rs); input_measurement := None;
         body := Some (body_of message); record_rest := EmptyString |}.

Lemma append_law present message epoch_ at_ clock_ log rs d :
  tracks log rs d ->
  let expected := stamped present message epoch_ at_ clock_ rs in
  match append present message epoch_ at_ clock_ log with
  | (Ok (Appended r), log') => expected r /\ follows rs r /\
      holds (writer log') (rs ++ [r]) (length (rs ++ [r])) /\ confirmed log' = Some (rs ++ [r])
  | (Ok Uncertain, log') => confirmed log' = None /\ left_by expected log' rs d
  | (Err OSError, log') => confirmed log' = None /\ exists d', (d <= d')%nat /\ tracks log' rs d'
  | (Err (ValueError _), log') => left_by expected log' rs d
  end.
Proof.
  intros Ht expected. rewrite first_reads_append. pose proof (prefix_law _ _ _ Ht) as Hpre.
  destruct (prefix log) as [[p|e] log1].
  2: { destruct Hpre as (_ & Hc & d' & Hd & Hh). apply tracks_none in Hh; [|done].
       destruct e; [by eauto|by apply (left_same _ _ _ _ d')]. }
  destruct Hpre as (d1 & Hd1 & Hh1 & Hc1 & Hp & _).
  assert (Ht1 : tracks log1 rs d1) by (split; [done|]; rewrite Hc1; by intros ? [= <-]).
  unfold append, next_record, bind, prefix at 1. rewrite Hc1. cbn [ret].
  match goal with |- context [extend ?x _] => set (r := x) end.
  assert (Hr : p = rs -> expected r) by (by intros ->).
  assert (Hleft : forall log', left_by (eq r) log' rs d1 -> left_by expected log' rs d).
  { intros log' (rs' & d' & Ht' & Hd & Hrs). exists rs', d'. split; [done|]. split; [lia|].
    destruct Hrs as [?|(r1 & ? & Hf & <-)]; [by left|right]. exists r. split_and!; [done..|].
    apply Hr. by apply (prefix_whole p rs r); [| |apply Hf]. }
  pose proof (extend_law _ _ _ _ r Ht1 Hc1) as He.
  destruct (extend r log1) as [[[r'|]|[]] log']; [|destruct He; by auto|done|by auto].
  destruct He as (-> & -> & Hf & Hh & Hc). by auto.
Qed.

(** An appended record is durable.  When [append] says [Appended], the log is the one before and
    that record, all of it durable, staged records included, and the record is the message with
    the next number, dated between the last record and the present; when it says [Uncertain] the
    log may have that record and its prefix is forgotten; what it raises leaves the log as it was,
    but for that record when its commit was refused. *)
Theorem append_outcome present message epoch_ at_ clock_ log rs d :
  tracks log rs d ->
  let expected := stamped present message epoch_ at_ clock_ rs in
  match append present message epoch_ at_ clock_ log with
  | (Ok (Appended r), log') => expected r /\ follows rs r /\
      holds (writer log') (rs ++ [r]) (length (rs ++ [r])) /\ confirmed log' = Some (rs ++ [r])
  | (Ok Uncertain, log') => confirmed log' = None /\ left_by expected log' rs d
  | (Err OSError, log') => confirmed log' = None /\ exists d', (d <= d')%nat /\ tracks log' rs d'
  | (Err (ValueError _), log') => left_by expected log' rs d
  end.
Proof. exact (append_law present message epoch_ at_ clock_ log rs d). Qed.

(** A refused record stalls the log.  When the writer refuses a staged record (it is no record of
    the schema, or too long) after records that are not durable yet, the prefix is forgotten and
    read again without them, so the next record, whatever it is, is numbered as one of them and
    refused too. *)
Theorem refused_stage_stalls present record message log rs d log1 :
  tracks log rs d -> confirmed log = Some rs -> (d < length rs)%nat ->
  stage present record log = (Err (ValueError message), log1) ->
  (read_records (writer log1)).1 = Ok (take d rs) ->
  forall present' record' appended, (stage present' record' log1).1 <> Ok appended.
Proof.
  intros Ht Hc Hd Hstage Hread present' record' appended.
  pose proof (stage_law present _ _ _ _ record Ht Hc) as Hs. rewrite Hstage in Hs.
  destruct Hs as [Hc1 (rs' & d' & Ht1 & Hd' & Hrs)].
  assert (Hlen : (length rs <= length rs')%nat) by (destruct Hrs as [->|(r & -> & _)]; [|rewrite length_app]; lia).
  rewrite first_reads_stage. pose proof (prefix_law _ _ _ Ht1) as Hpre.
  assert (Hp : forall p log2, prefix log1 = (Ok p, log2) -> p = take d rs).
  { intros p log2. unfold prefix. rewrite Hc1. unfold bind, on_writer, set_confirmed, ret.
    destruct (read_records (writer log1)) as [[]]; cbn in *; [|done]. intros [= <- _]. by injection Hread as ->. }
  destruct (prefix log1) as [[p|e] log2]; [|done]. pose proof (Hp _ _ eq_refl) as ->.
  destruct Hpre as (d2 & _ & Hh2 & Hc2 & Hpre & _).
  assert (Ht2 : tracks log2 rs' d2) by (split; [done|]; rewrite Hc2; by intros ? [= <-]).
  pose proof (stage_law present' _ _ _ _ record' Ht2 Hc2) as Hs2.
  destruct (stage present' record' log2) as [[r'|e] log3]; [|done].
  destruct Hs2 as (E & _). apply (f_equal length) in E. rewrite length_take_le in E by lia. lia.
Qed.

End Laws.
