(* ===== verification/RunLog.v ===== *)
(** * The appender over the file writer

    [ConfirmedLog] over [FileRunLogWriter], and what a run may rely on: the writer of [Writer] keeps
    the laws [ConfirmedLog] asks of it, so that a record core was told is appended is read back by
    whoever opens the log after a crash.

    A call of the writer finds the committer anywhere in its round, and each call comes with what
    happens around it ([Turn]): how many steps the committer made before, what the clock reads,
    whether the write fails and after how many bytes, and whether and where the disk fails the
    round the call waits for.  A write and a step of the committer do not overlap. *)

From S2P Require Import Prelude PyFloat Identities LogRecord Skeleton Epoch Framing LogFile Writer Durability.
From S2P Require ConfirmedLog.
Import ConfirmedLog (WriteError, OSError, ValueError, RunLogRecords, RunLogLaws, clock_ok).

Section RunLog.
Context `{CodecLaws} `{GateAttrs}.
Context (headline : Keyframe -> option RunProcess -> option RunHead) (own_pid : Z).
Context (validate_head : RunHead -> result string unit) (validate_keyframe : Keyframe -> result string unit).

Hypothesis headline_seq : forall sk p h, headline sk p = Some h -> committed_seq h = through_seq sk.

(** What the rules of [Record] say of a record: its clock is a finite number, 0 or more *)
Hypothesis valid_clock : forall r, validate r = Ok tt -> clock_ok r = true.

Abbreviation inv := (inv headline).
Abbreviation run := (run headline own_pid validate_head validate_keyframe).
Abbreviation step := (step headline own_pid validate_head validate_keyframe).

(** ** The committer's thread *)

(** What happens around one call: what the clock reads, how many steps the committer makes before
    the call gets the lock, after how many bytes of its frame a write fails, and after how many
    steps of the committer the disk fails while the call waits for it *)
Record Turn := { reads : float; moves : nat; torn : option nat; fails : option nat }.
Definition quiet (t : float) : Turn := {| reads := t; moves := 0; torn := None; fails := None |}.

(** The writer, the exception of its [_failure] while it has one, and the turns of its calls *)
Record FileLog := { owned : Writer; failure : WriteError; schedule : list Turn }.

Definition with_writer (f : FileLog) (w : Writer) : FileLog :=
  {| owned := w; failure := failure f; schedule := schedule f |}.

(** [_capture_failure]: the committer ends, and the first failure is kept.  What the failed round
    did before stays on the disk. *)
Definition stop (f : FileLog) (e : WriteError) : FileLog :=
  let w := owned f in
  {| owned := w <| failed := true |> <| phase := Stopped (publishing_head headline w) |>;
     failure := if failed w then failure f else e; schedule := schedule f |}.

(** The next step of [_run_committer] *)
Definition committer_step (w : Writer) (t : float) : result string Writer :=
  match phase w with
  | Idle =>
    match policy w t with
    | Some (CommitBatch checkpoint) => Ok (take_batch (w <| phase := Taken (pending w) checkpoint |>))
    | Some (WaitCommit _) => Ok w
    | None => Ok (w <| phase := Stopped None |>)
    end
  | Taken batch checkpoint =>
    Ok (w <| durable := synced_file w batch |>
          <| phase := Folding batch (match batch with [] => false | _ :: _ => true end) checkpoint |>)
  | Folding ((record, offset) :: rest) any_record checkpoint =>
    let* w := fold_record own_pid validate_keyframe w record offset in
    Ok (w <| phase := Folding rest any_record checkpoint |>)
  | Folding [] any_record checkpoint =>
    let* w := publish_batch headline validate_head validate_keyframe w any_record checkpoint in
    Ok (w <| phase := Published |>)
  | Published => Ok (w <| committed := through_seq (skeleton w) |> <| phase := Idle |>)
  | Stopped _ => Ok w
  end.

(** So many of its steps; what a projection or a rule refuses is a [ValueError]. *)
Fixpoint go (steps : nat) (t : float) (f : FileLog) : FileLog :=
  match steps with
  | O => f
  | S steps =>
    match committer_step (owned f) t with
    | Ok w => go steps t (with_writer f w)
    | Err message => stop f (ValueError message)
    end
  end.

(** The steps left of the round it is in *)
Definition round_left (w : Writer) : nat :=
  match phase w with
  | Taken batch _ => length batch + 3
  | Folding rest _ _ => length rest + 2
  | Published => 1
  | Idle | Stopped _ => 0
  end.

(** ** The calls *)

(** [_check_open] raises the failure of the writer, else a [ValueError]. *)
Definition closed_error (f : FileLog) (message : string) : WriteError :=
  if failed (owned f) then failure f else ValueError message.

(** [_wait_committed]: the committer ends its round, and makes one more when that did not commit
    the target.  ([wait_raises]: the policy commits for whoever waits, so the last case does not
    arise.) *)
Definition wait_committed (turn : Turn) (f : FileLog) (target : Z) (checkpoint : bool)
    : result WriteError unit * FileLog :=
  let t := reads turn in
  if failed (owned f) then (Err (failure f), f)
  else if is_committed (owned f) target checkpoint then (Ok tt, f)
  else match fails turn with
  | Some steps => let f := stop (go steps t f) OSError in (Err (failure f), f)
  | None =>
    let f := go (round_left (owned f)) t f in
    let w := owned f in
    if failed w then (Err (failure f), f)
    else if is_committed w target checkpoint then (Ok tt, f)
    else match policy w t with
    | Some (CommitBatch checkpoint) =>
      match committer_round headline own_pid validate_head validate_keyframe w checkpoint with
      | Ok w => (Ok tt, with_writer f w)
      | Err message => let f := stop f (ValueError message) in (Err (failure f), f)
      end
    | _ => (Err OSError, stop f OSError)
    end
  end.

(** A call and the turn it has: the committer moves first. *)
Definition in_turn {A} (call : Turn -> FileLog -> result WriteError A * FileLog) (f : FileLog)
    : result WriteError A * FileLog :=
  let turn := match schedule f with turn :: _ => turn | [] => quiet fzero end in
  let f := {| owned := owned f; failure := failure f; schedule := tail (schedule f) |} in
  call turn (go (moves turn) (reads turn) f).

(** [append] *)
Definition write_in (record : LogRecord) (turn : Turn) (f : FileLog) : result WriteError unit * FileLog :=
  match encode_frame record with
  | Err message => (Err (ValueError message), f)
  | Ok frame =>
    match append (owned f) (reads turn) record with
    | Err message => (Err (closed_error f message), f)
    | Ok w =>
      match torn turn with
      | Some bytes =>
        (Err OSError,
         {| owned := (owned f) <| file := file (owned f) ++ take bytes frame |> <| failed := true |>;
            failure := OSError; schedule := schedule f |})
      | None =>
        if is_boundary record then wait_committed turn (with_writer f w) (seq record) true
        else (Ok tt, with_writer f w)
      end
    end
  end.
Definition file_write (f : FileLog) (record : LogRecord) : result WriteError unit * FileLog :=
  in_turn (write_in record) f.

(** [commit] *)
Definition sync_in (turn : Turn) (f : FileLog) : result WriteError unit * FileLog :=
  match commit (owned f) false with
  | Err message => (Err (closed_error f message), f)
  | Ok w => wait_committed turn (with_writer f w) (sequence (owned f)) false
  end.
Definition file_sync : FileLog -> result WriteError unit * FileLog := in_turn sync_in.

(** [read] *)
Definition read_in (turn : Turn) (f : FileLog) : result WriteError (list LogRecord) * FileLog :=
  match read_committed (owned f) with
  | Err message => (Err (closed_error f message), f)
  | Ok records => (Ok records, f)
  end.
Definition file_read : FileLog -> result WriteError (list LogRecord) * FileLog := in_turn read_in.

#[local] Instance file_records : RunLogRecords FileLog :=
  {| ConfirmedLog.write := file_write; ConfirmedLog.sync := file_sync; ConfirmedLog.read_records := file_read |}.

(** ** What the committer's thread keeps *)

(** The committer is at work while nothing failed; the run closes its log after its last call. *)
Definition at_work (w : Writer) : Prop :=
  failed w = false -> is_stopped w = false /\ closing (intent w) = false.

Definition file_holds (f : FileLog) (rs : list LogRecord) (d : nat) : Prop :=
  (exists n m, inv rs n m (owned f)) /\ committed (owned f) = Z.of_nat d /\ at_work (owned f).

Lemma committer_step_runs w t w' : committer_step w t = Ok w' -> run w [] w'.
Proof.
  assert (forall w', step None w w' -> run w [] w') as Hstep
    by (intros w1 S; exact (run_snoc _ _ _ _ _ _ _ _ (run_start _ _ _ _ w) S)).
  unfold committer_step. destruct (phase w) as [|batch cp|[|[r o] rest] any cp| |p] eqn:Hp.
  - destruct (policy w t) as [[delay|cp]|] eqn:Hpol; intros [= <-].
    + apply run_start.
    + by apply Hstep, (step_take _ _ _ _ _ t).
    + by apply Hstep, (step_stop _ _ _ _ _ t).
  - intros [= <-]. by apply Hstep, step_sync.
  - destruct (publish_batch _ _ _ w any cp) as [w1|] eqn:E; cbn [rbind]; [|done]. intros [= <-].
    by apply Hstep, (step_publish _ _ _ _ _ any cp).
  - destruct (fold_record _ _ w r o) as [w1|] eqn:E; cbn [rbind]; [|done]. intros [= <-].
    by apply Hstep, (step_fold _ _ _ _ _ r o).
  - intros [= <-]. by apply Hstep, step_committed.
  - intros [= <-]. apply run_start.
Qed.

Lemma publish_batch_intent w any cp w' :
  publish_batch headline validate_head validate_keyframe w any cp = Ok w' ->
  intent w' = intent w /\ failed w' = failed w.
Proof. intros E. by destruct (publish_batch_queue _ _ _ _ _ _ _ E) as (? & _ & ? & _). Qed.

(** What a step that is taken leaves *)
Lemma committer_step_keeps w t w' : committer_step w t = Ok w' ->
  failed w' = failed w /\ closing (intent w') = closing (intent w)
  /\ (failed w = false -> closing (intent w) = false -> is_stopped w = false -> is_stopped w' = false)
  /\ (phase w <> Idle -> is_stopped w = false -> is_stopped w' = false /\ S (round_left w') = round_left w).
Proof.
  unfold committer_step, is_stopped, round_left. destruct (phase w) as [|batch cp|[|[r o] rest] any cp| |p] eqn:Hp.
  - destruct (policy w t) as [[delay|cp]|] eqn:Hpol; intros [= <-]; cbn; rewrite ?Hp; split_and!; try done.
    intros Hf Hc. unfold policy, next in Hpol. rewrite Hf, Hc in Hpol.
    destruct (due (intent w)); [by destruct (_ && _)|]. by destruct (_ <? _).
  - intros [= <-]. cbn. split_and!; try done; intros _ _; split; cbn; try done; lia.
  - destruct (publish_batch _ _ _ w any cp) as [w1|] eqn:E; cbn [rbind]; [|done]. intros [= <-].
    apply publish_batch_intent in E as [Ei Ef]. cbn. rewrite Ei, Ef. by split_and!.
  - destruct (fold_record _ _ w r o) as [w1|] eqn:E; cbn [rbind]; [|done]. intros [= <-].
    apply fold_record_queue in E as (Ei & _ & Ef & _). cbn. rewrite Ei, Ef. by split_and!.
  - intros [= <-]. cbn. by split_and!.
  - intros [= <-]. rewrite Hp. by split_and!.
Qed.

Lemma stop_failed f e : failed (owned (stop f e)) = true.
Proof. done. Qed.

Lemma stop_runs f e : at_work (owned f) -> run (owned f) [] (owned (stop f e)).
Proof.
  intros Hw. destruct (is_stopped (owned f)) eqn:Hs.
  - assert (owned (stop f e) = owned f) as ->; [|apply run_start]. unfold stop. cbn.
    destruct (failed (owned f)) eqn:Hf; [|destruct (Hw Hf); congruence].
    unfold is_stopped in Hs. unfold publishing_head, Writer.publishing_head.
    destruct (owned f) as [? ? ? ? ? ? ? ? ? ? ? ? ? ? p]. cbn in *. destruct p; try done. by subst.
  - exact (run_snoc _ _ _ _ _ _ _ _ (run_start _ _ _ _ _) (step_fail _ _ _ _ _ Hs)).
Qed.

Lemma run_none_trans w w1 w2 : run w [] w1 -> run w1 [] w2 -> run w [] w2.
Proof.
  intros R1 R2. remember [] as records eqn:E in R2. revert E.
  induction R2 as [|records wa label wb R IH S]; [done|]. intros [-> Hl]%app_eq_nil.
  destruct label; [done|]. exact (run_snoc _ _ _ _ _ _ _ _ (IH eq_refl) S).
Qed.

Lemma stop_at_work f e : at_work (owned (stop f e)).
Proof. by intros Hf. Qed.

Lemma step_at_work w t w' : committer_step w t = Ok w' -> at_work w -> at_work w'.
Proof.
  intros (Ef & Ec & Hs & _)%committer_step_keeps Hw Hf. rewrite Ef in Hf. destruct (Hw Hf) as [? ?].
  rewrite Ec. auto.
Qed.

Lemma go_at_work steps t f : at_work (owned f) -> at_work (owned (go steps t f)).
Proof.
  revert f. induction steps as [|steps IH]; intros f Hw; [done|]. cbn [go].
  destruct (committer_step (owned f) t) as [w|message] eqn:E; [|by apply stop_at_work].
  apply (IH (with_writer f w)). by eapply step_at_work.
Qed.

Lemma go_runs steps t f : at_work (owned f) -> run (owned f) [] (owned (go steps t f)).
Proof.
  revert f. induction steps as [|steps IH]; intros f Hw; [apply run_start|]. cbn [go].
  destruct (committer_step (owned f) t) as [w|message] eqn:E; [|by apply stop_runs].
  eapply run_none_trans; [by eapply committer_step_runs|].
  apply (IH (with_writer f w)). by eapply step_at_work.
Qed.

(** A round that ends leaves the committer waiting. *)
Lemma go_ends_round steps t f :
  round_left (owned f) = steps -> at_work (owned f) -> failed (owned f) = false ->
  failed (owned (go steps t f)) = true \/ phase (owned (go steps t f)) = Idle.
Proof.
  revert f. induction steps as [|steps IH]; intros f Hleft Hw Hf; cbn [go]; destruct (Hw Hf) as [Hs Hc].
  - right. unfold round_left, is_stopped in *. destruct (phase (owned f)); try done; cbn in *; lia.
  - destruct (committer_step (owned f) t) as [w|message] eqn:E; [|left; by apply stop_failed].
    pose proof (committer_step_keeps _ _ _ E) as (Ef & Ec & _ & Hr).
    destruct Hr as [_ Hr]; [intros Ei; unfold round_left in Hleft; by rewrite Ei in Hleft|done|].
    apply IH; [cbn; lia|by eapply step_at_work|cbn; congruence].
Qed.

(** A failure, once captured, stays the one that is raised. *)
Lemma stop_keeps f e : failed (owned f) = true ->
  failed (owned (stop f e)) = true /\ failure (stop f e) = failure f.
Proof. intros Hf. unfold stop. cbn. by rewrite Hf. Qed.

Lemma go_keeps steps t f : failed (owned f) = true ->
  failed (owned (go steps t f)) = true /\ failure (go steps t f) = failure f.
Proof.
  revert f. induction steps as [|steps IH]; intros f Hf; [done|]. cbn [go].
  destruct (committer_step (owned f) t) as [w|message] eqn:E; [|by apply stop_keeps].
  apply committer_step_keeps in E as [Ef _]. apply (IH (with_writer f w)). cbn. congruence.
Qed.

(** ** The laws *)

(** What a run of the committer makes of the log, it holds. *)
Lemma holds_run f rs d w e s :
  file_holds f rs d -> run (owned f) [] w -> at_work w ->
  exists d', (d <= d')%nat /\ file_holds {| owned := w; failure := e; schedule := s |} rs d'.
Proof.
  intros ((n & m & I) & Hc & _) R Hw. pose proof (run_commits_more _ _ _ _ headline_seq _ _ _ _ _ _ I R) as Hmore.
  destruct (inv_run _ _ _ _ headline_seq _ _ _ _ _ _ I R) as (n' & m' & I'). rewrite app_nil_r in I'.
  exists (Z.to_nat (committed w)). split; [lia|]. split; [by eauto|]. split; [cbn; lia|done].
Qed.

Lemma holds_go f rs d steps t :
  file_holds f rs d -> exists d', (d <= d')%nat /\ file_holds (go steps t f) rs d'.
Proof.
  intros Hh. pose proof Hh as (_ & _ & Hw).
  destruct (holds_run f rs d _ (failure (go steps t f)) (schedule (go steps t f)) Hh (go_runs steps t f Hw)
    (go_at_work steps t f Hw)) as (d' & Hd & Hh'). exists d'. split; [done|]. by destruct (go steps t f).
Qed.

Lemma holds_stop f rs d e :
  file_holds f rs d -> exists d', (d <= d')%nat /\ file_holds (stop f e) rs d'.
Proof.
  intros Hh. pose proof Hh as (_ & _ & Hw).
  exact (holds_run f rs d _ (failure (stop f e)) (schedule f) Hh (stop_runs f e Hw) (stop_at_work f e)).
Qed.

(** An open log that has what it was asked for has all of it. *)
Lemma holds_all f rs d checkpoint :
  file_holds f rs d -> failed (owned f) = false ->
  is_committed (owned f) (Z.of_nat (length rs)) checkpoint = true -> d = length rs.
Proof.
  intros ((n & m & I) & Hc & _) Hf Hcom. pose proof (inv_length _ _ _ _ _ I) as Hlen.
  pose proof (inv_committed _ _ _ _ _ I) as [Hm _]. unfold is_committed in Hcom.
  apply negb_true_iff, orb_false_iff in Hcom as [Hcom _]. lia.
Qed.

Lemma fold_batch_queue batch w w' : fold_batch own_pid validate_keyframe w batch = Ok w' -> same_queue w w'.
Proof.
  revert w. induction batch as [|[r o] batch IH]; intros w E; [by injection E as <-|]. cbn [fold_batch] in E.
  destruct (fold_record _ _ w r o) as [w1|] eqn:E1; cbn [rbind] in E; [|done].
  apply fold_record_queue in E1 as (? & ? & ? & ? & ?). apply IH in E as (? & ? & ? & ? & ?).
  split_and!; congruence.
Qed.

Lemma committer_round_closing w checkpoint w' :
  committer_round headline own_pid validate_head validate_keyframe w checkpoint = Ok w' ->
  closing (intent w') = closing (intent w).
Proof.
  unfold committer_round, commit_batch. intros E.
  destruct (fold_batch _ _ _ _) as [w1|] eqn:E1; cbn [rbind] in E; [|done].
  destruct (publish_batch _ _ _ w1 _ _) as [w2|] eqn:E2; cbn [rbind] in E; [|done]. injection E as <-.
  apply fold_batch_queue in E1 as (Hi1 & _). apply publish_batch_intent in E2 as [Hi2 _]. cbn. by rewrite Hi2, Hi1.
Qed.

(** A wait that returns has the whole log committed. *)
Lemma wait_law turn f rs d target checkpoint :
  file_holds f rs d -> target = sequence (owned f) -> target <= urgent_seq (intent (owned f)) ->
  (checkpoint = true -> target <= wanted_checkpoint (intent (owned f))) ->
  match wait_committed turn f target checkpoint with
  | (Ok _, f') => file_holds f' rs (length rs)
  | (Err _, f') => exists d', (d <= d')%nat /\ file_holds f' rs d'
  end.
Proof.
  intros Hh -> Hurgent Hwanted. unfold wait_committed. cbv zeta.
  destruct (failed (owned f)) eqn:Hopen; [by exists d|]. pose proof Hh as ((n & m & I) & _ & Hw).
  assert (Hseq : sequence (owned f) = Z.of_nat (length rs))
    by (rewrite (inv_sequence _ _ _ _ _ I), (inv_open _ _ _ _ _ I Hopen); done).
  destruct (is_committed (owned f) _ checkpoint) eqn:Hc.
  { rewrite Hseq in Hc. by rewrite <- (holds_all _ _ _ _ Hh Hopen Hc). }
  destruct (fails turn) as [steps|].
  { destruct (holds_go f rs d steps (reads turn) Hh) as (d1 & Hd1 & Hh1).
    destruct (holds_stop _ rs d1 OSError Hh1) as (d2 & Hd2 & Hh2). exists d2. split; [lia|done]. }
  set (f1 := go (round_left (owned f)) (reads turn) f).
  destruct (holds_go f rs d (round_left (owned f)) (reads turn) Hh) as (d1 & Hd1 & Hh1). fold f1 in Hh1.
  destruct (failed (owned f1)) eqn:Hopen1; [by exists d1|].
  destruct (is_committed (owned f1) _ checkpoint) eqn:Hc1.
  { rewrite Hseq in Hc1. by rewrite <- (holds_all _ _ _ _ Hh1 Hopen1 Hc1). }
  destruct (policy (owned f1) (reads turn)) as [[delay|cp]|] eqn:Hpol;
    [destruct (holds_stop _ rs d1 OSError Hh1) as (d2 & ? & ?); exists d2; split; [lia|done]| |
     destruct (holds_stop _ rs d1 OSError Hh1) as (d2 & ? & ?); exists d2; split; [lia|done]].
  assert (phase (owned f1) = Idle) as Hidle
    by (destruct (go_ends_round _ (reads turn) f eq_refl Hw Hopen) as [E|E]; [unfold f1 in Hopen1; congruence|done]).
  pose proof Hh1 as ((n1 & m1 & I1) & _ & Hw1).
  pose proof (committer_round_spec headline own_pid validate_head validate_keyframe headline_seq
    _ _ _ _ _ _ I1 Hidle Hpol) as Hround.
  destruct (committer_round headline own_pid validate_head validate_keyframe (owned f1) cp) as [w2|message] eqn:E2.
  - destruct Hround as (R & Hidle2 & Hopen2 & Hcom & _).
    assert (at_work w2) as Hw2.
    { intros _. unfold is_stopped. rewrite Hidle2. split; [done|].
      rewrite (committer_round_closing _ _ _ E2). by apply Hw1. }
    destruct (holds_run f1 rs d1 w2 (failure f1) (schedule f1) Hh1 R Hw2) as (d2 & Hd2 & Hh2).
    assert (d2 = length rs) as <-; [|done].
    pose proof Hh2 as (_ & Hc2 & _). cbn in Hc2. rewrite Hcom in Hc2.
    rewrite (inv_sequence _ _ _ _ _ I1), (inv_open _ _ _ _ _ I1 Hopen1) in Hc2. lia.
  - destruct (holds_stop _ rs d1 (ValueError message) Hh1) as (d2 & ? & ?). exists d2. split; [lia|done].
Qed.

(** Whatever the committer did before the call, it has the log. *)
Lemma holds_in_turn {A} (call : Turn -> FileLog -> result WriteError A * FileLog)
    (P : nat -> result WriteError A * FileLog -> Prop) f rs d :
  file_holds f rs d -> (forall turn f' d', (d <= d')%nat -> file_holds f' rs d' -> P d (call turn f')) ->
  P d (in_turn call f).
Proof.
  intros Hh Hcall. unfold in_turn. cbv zeta.
  set (f0 := {| owned := owned f; failure := failure f; schedule := tail (schedule f) |}).
  assert (file_holds f0 rs d) as Hh0 by exact Hh.
  set (turn := match schedule f with turn :: _ => turn | [] => quiet fzero end).
  destruct (holds_go f0 rs d (moves turn) (reads turn) Hh0) as (d' & Hd & Hh'). by apply (Hcall turn _ d').
Qed.

(** And what raises without a failure of the disk is what a projection or a rule refused. *)
Lemma committer_step_requests w t w' : committer_step w t = Ok w' ->
  urgent_seq (intent w') = urgent_seq (intent w) /\ wanted_checkpoint (intent w') = wanted_checkpoint (intent w).
Proof.
  unfold committer_step. destruct (phase w) as [|batch cp|[|[r o] rest] any cp| |p].
  - by destruct (policy w t) as [[delay|cp]|]; intros [= <-].
  - by intros [= <-].
  - destruct (publish_batch _ _ _ w any cp) as [w1|] eqn:E; cbn [rbind]; [|done]. intros [= <-].
    apply publish_batch_intent in E as [Ei _]. cbn. by rewrite Ei.
  - destruct (fold_record _ _ w r o) as [w1|] eqn:E; cbn [rbind]; [|done]. intros [= <-].
    apply fold_record_queue in E as (Ei & _). cbn. by rewrite Ei.
  - by intros [= <-].
  - by intros [= <-].
Qed.

Lemma go_requests steps t f :
  urgent_seq (intent (owned (go steps t f))) = urgent_seq (intent (owned f))
  /\ wanted_checkpoint (intent (owned (go steps t f))) = wanted_checkpoint (intent (owned f)).
Proof.
  revert f. induction steps as [|steps IH]; intros f; [done|]. cbn [go].
  destruct (committer_step (owned f) t) as [w|message] eqn:E; [|done].
  apply committer_step_requests in E as [<- <-]. apply (IH (with_writer f w)).
Qed.

Lemma go_failure steps t f e : failure (go steps t f) = e ->
  failed (owned f) = false -> failed (owned (go steps t f)) = true -> exists message, e = ValueError message.
Proof.
  revert f. induction steps as [|steps IH]; intros f; cbn [go]; [congruence|].
  destruct (committer_step (owned f) t) as [w|message] eqn:E.
  - apply committer_step_keeps in E as [Ef _]. intros He Hf. apply (IH (with_writer f w)); [done|]. cbn. congruence.
  - unfold stop. cbn. intros <- Hf. rewrite Hf. by exists message.
Qed.

Lemma wait_raises turn f rs d target checkpoint e f' :
  file_holds f rs d -> failed (owned f) = false -> fails turn = None ->
  target <= urgent_seq (intent (owned f)) ->
  (checkpoint = true -> target <= wanted_checkpoint (intent (owned f))) ->
  wait_committed turn f target checkpoint = (Err e, f') -> exists message, e = ValueError message.
Proof.
  intros Hh Hopen Hfails Hurgent Hwanted. unfold wait_committed. cbv zeta. rewrite Hopen, Hfails.
  pose proof Hh as ((n & m & I) & _ & Hw). destruct (is_committed (owned f) _ _); [done|].
  set (f1 := go (round_left (owned f)) (reads turn) f).
  destruct (failed (owned f1)) eqn:Hopen1; [intros [= <- <-]; by eapply (go_failure _ _ f)|].
  destruct (is_committed (owned f1) target checkpoint) eqn:Hc1; [done|].
  destruct (holds_go f rs d (round_left (owned f)) (reads turn) Hh) as (d1 & _ & ((n1 & m1 & I1) & _ & _)). fold f1 in I1.
  assert (phase (owned f1) = Idle) as Hidle
    by (destruct (go_ends_round _ (reads turn) f eq_refl Hw Hopen) as [E|E]; [unfold f1 in Hopen1; congruence|done]).
  destruct (go_requests (round_left (owned f)) (reads turn) f) as [Hu Hwc]. fold f1 in Hu, Hwc.
  destruct (policy_commits _ _ _ _ _ (reads turn) I1 Hidle Hopen1) as [cp ->].
  - rewrite Hu, Hwc. apply andb_false_iff. unfold is_committed in *.
    apply negb_false_iff, orb_true_iff in Hc1 as [Hc|Hc].
    + left. apply negb_false_iff, orb_true_iff. left. lia.
    + apply andb_true_iff in Hc as [-> Hc]. specialize (Hwanted eq_refl). right.
      apply negb_false_iff, orb_true_iff. right. cbn. lia.
  - destruct (committer_round _ _ _ _ _ _) as [w2|message]; [done|]. intros [= <- _]. unfold stop. cbn.
    rewrite Hopen1. by exists message.
Qed.

(** What an accepted record tells *)
Lemma append_facts w t r w' rs n m : inv rs n m w -> append w t r = Ok w' ->
  failed w = false /\ seq r = Z.of_nat (length rs) + 1 /\ validate r = Ok tt /\
  inv (rs ++ [r]) (S n) m w' /\ committed w' = committed w /\ phase w' = phase w /\
  failed w' = failed w /\ sequence w' = seq r /\ closing (intent w') = closing (intent w) /\
  (is_boundary r = true -> seq r <= urgent_seq (intent w') /\ seq r <= wanted_checkpoint (intent w')).
Proof.
  intros I E. destruct (inv_append _ _ _ _ _ _ _ _ I E) as (I' & Hnum & Hopen).
  assert (Hv : validate r = Ok tt).
  { unfold append, encode_frame in E. destruct (validate r) as [[]|]; [done|]. by cbn in E. }
  assert (Hc' : committed w' = committed w) by (by eapply append_committed).
  split; [done|]. split; [rewrite Hnum, (inv_open _ _ _ _ _ I Hopen); done|]. split; [done|]. split; [done|].
  split; [done|]. clear I' Hc'.
  unfold append in E. destruct (encode_frame r) as [frame|]; cbn [rbind] in E; [|done].
  destruct (is_open w); cbn [ensure rbind] in E; [|done].
  destruct (seq r =? sequence w + 1) eqn:Hseq; cbn [ensure rbind] in E; [|done].
  injection E as <-. unfold queued. destruct (is_boundary r), (due (intent w)); cbn; rewrite ?orb_false_r;
    split_and!; try done; intros; lia.
Qed.

(** The writer keeps what the appender asks of it. *)
#[local] Instance file_laws : RunLogLaws FileLog file_holds.
Proof.
  split.
  - intros f rs d ((n & m & I) & Hc & _).
    pose proof (inv_length _ _ _ _ _ I). pose proof (inv_committed _ _ _ _ _ I) as [? _]. lia.
  - intros f0 rs d r Hh0 next written. cbn [ConfirmedLog.write file_records]. unfold file_write.
    apply (holds_in_turn (write_in r) (fun _ out => match out with
      | (Ok _, w') => written /\ next (rs ++ [r]) w'
      | (Err _, w') => next rs w' \/ written /\ next (rs ++ [r]) w' end) f0 rs d Hh0).
    clear f0 Hh0. intros turn f d0 Hd Hh. unfold write_in.
    destruct (encode_frame r) as [frame|message] eqn:Hframe; [|left; by exists d0].
    destruct (append (owned f) (reads turn) r) as [w'|message] eqn:E; [|left; by exists d0].
    pose proof Hh as ((n & m & I) & Hc & Hw).
    destruct (append_facts _ _ _ _ _ _ _ I E) as (Hopen & Hseq & Hv & I' & Hc' & Hp & Hf & Hs & Hcl & Hb).
    assert (Hwritten : written) by (split; [lia|by apply valid_clock]).
    assert (at_work w') as Hw'.
    { intros _. destruct (Hw Hopen) as [? ?]. rewrite Hcl. split; [|done]. unfold is_stopped in *. by rewrite Hp. }
    assert (file_holds (with_writer f w') (rs ++ [r]) d0) as Hh'.
    { split; [by eauto|]. split; [cbn; lia|done]. }
    destruct (torn turn) as [bytes|].
    { right. split; [done|]. exists d0. split; [done|]. split; [|split; [done|by intros [=]]].
      exists n, m. apply (inv_torn _ _ _ _ _ (reads turn) r frame (take bytes frame) (drop bytes frame) w');
        [done..|]. by rewrite take_drop. }
    destruct (is_boundary r); [|split; [done|by exists d0]].
    destruct Hb as [Hu Hwanted]; [done|].
    pose proof (wait_law turn (with_writer f w') (rs ++ [r]) d0 (seq r) true Hh' (eq_sym Hs) Hu (fun _ => Hwanted)) as Hwait.
    destruct (wait_committed _ _ _ _) as [[[]|e] f'].
    + split; [done|]. exists (length (rs ++ [r])). split; [|done].
      pose proof (inv_length _ _ _ _ _ I). pose proof (inv_committed _ _ _ _ _ I) as [? _].
      rewrite length_app. lia.
    + destruct Hwait as (d' & Hd' & Hh''). right. split; [done|]. exists d'. split; [lia|done].
  - intros f0 rs d Hh0. cbn [ConfirmedLog.sync file_records]. unfold file_sync.
    apply (holds_in_turn sync_in (fun _ out => match out with
      | (Ok _, w') => file_holds w' rs (length rs)
      | (Err _, w') => exists d', (d <= d')%nat /\ file_holds w' rs d' end) f0 rs d Hh0).
    clear f0 Hh0. intros turn f d0 Hd Hh. unfold sync_in, commit.
    destruct (is_open (owned f)) eqn:Hopen; cbn [ensure rbind]; [|by exists d0].
    set (w1 := request_commit _ _ _ _).
    assert (file_holds (with_writer f w1) rs d0) as Hh1.
    { destruct Hh as ((n & m & I) & Hc & Hw). split; [|split; [done|]].
      - exists n, m. by apply (inv_request _ _ _ _ _ false false I).
      - intros Hf. destruct (Hw Hf) as [? ?]. cbn. by rewrite orb_false_r. }
    pose proof (wait_law turn (with_writer f w1) rs d0 (sequence (owned f)) false Hh1 eq_refl
      ltac:(cbn; lia) ltac:(done)) as Hwait.
    destruct (wait_committed _ _ _ _) as [[[]|e] f']; [done|].
    destruct Hwait as (d' & Hd' & Hh''). exists d'. split; [lia|done].
  - intros f0 rs d Hh0. cbn [ConfirmedLog.read_records file_records]. unfold file_read.
    apply (holds_in_turn read_in (fun _ out => match out with
      | (Ok records, w') => exists d', (d <= d')%nat /\ records = take d' rs /\ file_holds w' rs d'
      | (Err _, w') => exists d', (d <= d')%nat /\ file_holds w' rs d' end) f0 rs d Hh0).
    clear f0 Hh0. intros turn f d0 Hd Hh. unfold read_in, read_committed.
    destruct (is_open (owned f)) eqn:Hopen; cbn [ensure rbind]; [|by exists d0].
    unfold is_open in Hopen. to_prop. exists d0. split; [done|]. split; [|done].
    destruct Hh as ((n & m & I) & Hc & _). rewrite (inv_file_open _ _ _ _ _ I ltac:(done)).
    unfold log_bytes. rewrite (iterate_whole _ _ (inv_encodable _ _ _ _ _ I)), Hc. by rewrite Nat2Z.id.
Qed.

(** A record the projections take: one that is no span, or a span that is there and whose gate
    attributes decode.  Every record core appends is one. *)
Lemma foldable_body r r' : body r = body r' -> foldable r = foldable r'.
Proof. unfold foldable. by intros ->. Qed.

Definition offers_foldable (c : ConfirmedLog.Call) : Prop :=
  match c with
  | ConfirmedLog.Stage r | ConfirmedLog.Extend r => foldable r = true
  | _ => True
  end.

Lemma bodied_foldable c r : ConfirmedLog.bodied_by c (body r) -> offers_foldable c -> foldable r = true.
Proof.
  destruct c; cbn; try done.
  - intros E Hf. rewrite <- Hf. by apply foldable_body.
  - intros E _. unfold foldable. rewrite E. by destruct message.
  - intros E Hf. rewrite <- Hf. by apply foldable_body.
Qed.

(** C5: an appended record survives.  Once [append] has said [Appended], whatever the threads of the
    run do next, whatever the committer still does and whatever fails of it, and whenever the
    process or the machine stops, the next writer opens the log and reads back every record up to
    that one, the staged ones among them, in order.  The records of the log and those the threads
    stage are ones the projections take; nothing is asked of the rules of the heads and the
    keyframes, which may end the committer, nor of the disk. *)
Theorem appended_survives_crash present message epoch_ at_ clock_ log rs d r log1 cs w left_file left_head :
  ConfirmedLog.tracks (holds := file_holds) log rs d ->
  Forall (fun r => foldable r = true) rs -> Forall (fun c => offers_foldable c.2) cs ->
  ConfirmedLog.append present message epoch_ at_ clock_ log = (Ok (ConfirmedLog.Appended r), log1) ->
  run (owned (ConfirmedLog.writer (ConfirmedLog.calls log1 cs))) [] w ->
  crash_file w left_file -> crash_head headline w left_head ->
  body r = Some (ConfirmedLog.body_of message) /\
  exists records recovered, recover (option_map Ok left_head) left_file = Some (Ok recovered) /\
    recovered_from records recovered /\ (rs ++ [r]) `prefix_of` records /\
    map seq records = seqZ 1 (Z.of_nat (length records)).
Proof.
  intros Ht Hrs Hcs E R Hfile Hhead.
  pose proof (ConfirmedLog.append_law present message epoch_ at_ clock_ _ _ _ Ht) as Ha. rewrite E in Ha.
  destruct Ha as (Hr & _ & Hh & Hc).
  assert (body r = Some (ConfirmedLog.body_of message)) as Hbody by (by rewrite Hr). split; [done|].
  assert (Ht1 : ConfirmedLog.tracks (holds := file_holds) log1 (rs ++ [r]) (length (rs ++ [r]))).
  { split; [done|]. rewrite Hc. by intros ? [= <-]. }
  destruct (ConfirmedLog.calls_law _ _ _ cs Ht1) as (rs' & d' & [((n & m & I) & Hcom & _) _] & Hp & Hd & _ & Hnew).
  assert (Forall (fun r => foldable r = true) rs') as Hfoldable.
  { apply Forall_forall. intros r' [Hin|(c & Hin & Hb)]%Hnew.
    - apply elem_of_app in Hin as [Hin|E'%list_elem_of_singleton].
      { rewrite Forall_forall in Hrs. by apply Hrs. }
      subst r'.
      by eapply (bodied_foldable (ConfirmedLog.Append message epoch_ at_ clock_)).
    - eapply bodied_foldable; [done|]. rewrite Forall_forall in Hcs. by apply Hcs. }
  pose proof (run_commits_more _ _ _ _ headline_seq _ _ _ _ _ _ I R) as Hmore.
  destruct (inv_run _ _ _ _ headline_seq _ _ _ _ _ _ I R) as (n' & m' & I'). rewrite app_nil_r in I'.
  destruct (crash_keeps_synced _ _ _ _ _ _ _ I' Hfoldable Hfile Hhead) as (k & rec & Hk & Hrec & Hfrom).
  exists (take k rs'), rec. split; [done|]. split; [done|].
  destruct (inv_committed _ _ _ _ _ I') as [Hm _]. split.
  - apply prefix_take_le; [done|lia].
  - rewrite length_take_le by lia. apply dense_take; [lia|]. by apply (inv_dense _ _ _ _ _ I').
Qed.

(** What a call raises of the disk is the failure of the writer, for good. *)
Lemma wait_os_error turn f target checkpoint f' :
  wait_committed turn f target checkpoint = (Err OSError, f') ->
  failed (owned f') = true /\ failure f' = OSError.
Proof.
  unfold wait_committed. cbv zeta. destruct (failed (owned f)) eqn:Hf; [by intros [= E <-]|].
  destruct (is_committed _ _ _); [done|]. destruct (fails turn) as [steps|]; [by intros [= E <-]|].
  set (f1 := go _ _ f). destruct (failed (owned f1)) eqn:Hf1; [by intros [= E <-]|].
  destruct (is_committed _ _ _); [done|].
  destruct (policy _ _) as [[delay|cp]|]; [|destruct (committer_round _ _ _ _ _ _); [done|]|];
    unfold stop; rewrite Hf1; by intros [= <-].
Qed.

Lemma closed_os_error f message : closed_error f message = OSError ->
  failed (owned f) = true /\ failure f = OSError.
Proof. unfold closed_error. by destruct (failed (owned f)). Qed.

Lemma write_os_error r f f' : file_write f r = (Err OSError, f') ->
  failed (owned f') = true /\ failure f' = OSError.
Proof.
  unfold file_write, in_turn. cbv zeta. set (f0 := go _ _ _). unfold write_in.
  destruct (encode_frame r) as [frame|]; [|done].
  destruct (append (owned f0) _ r) as [w|message] eqn:E.
  - destruct (torn _); [by intros [= <-]|]. destruct (is_boundary r); [|done]. apply wait_os_error.
  - intros [= E' <-]. by eapply closed_os_error.
Qed.

Lemma sync_os_error f f' : file_sync f = (Err OSError, f') ->
  failed (owned f') = true /\ failure f' = OSError.
Proof.
  unfold file_sync, in_turn. cbv zeta. set (f0 := go _ _ _). unfold sync_in, commit.
  destruct (is_open (owned f0)); cbn [ensure rbind].
  - apply wait_os_error.
  - intros [= E <-]. by eapply closed_os_error.
Qed.

(** After an uncertain append the log cannot be read: the failure that made it uncertain is the
    writer's, whose every later read raises it, so no read of this process says whether the record
    is in the log. *)
Theorem uncertain_log_unreadable present message epoch_ at_ clock_ log log' :
  ConfirmedLog.append present message epoch_ at_ clock_ log = (Ok ConfirmedLog.Uncertain, log') ->
  (ConfirmedLog.records log').1 = Err OSError.
Proof.
  intros E. destruct (ConfirmedLog.append_uncertain _ _ _ _ _ _ _ E) as (Hc & w & Hw).
  assert (Hf : failed (owned (ConfirmedLog.writer log')) = true /\ failure (ConfirmedLog.writer log') = OSError).
  { destruct Hw as [[r Hw]|Hw]; [by eapply write_os_error|by eapply sync_os_error]. }
  unfold ConfirmedLog.records, ConfirmedLog.prefix. rewrite Hc. unfold ConfirmedLog.bind, ConfirmedLog.on_writer.
  cbn [ConfirmedLog.read_records file_records]. unfold file_read, in_turn. cbv zeta.
  match goal with |- context [go ?s ?t ?f] => destruct (go_keeps s t f (proj1 Hf)) as [Hf1 He]; set (f1 := go s t f) in * end.
  unfold read_in, read_committed, is_open, closed_error. rewrite Hf1. cbn. rewrite He. cbn. by rewrite (proj2 Hf).
Qed.

End RunLog.

(** ** A run at work

    A codec of small records, some of them core's. *)

Definition sample_core (n : Z) : LogRecord :=
  {| seq := n; record_at := Some {| at_seconds := 0; at_nanos := 0 |}; epoch := 1; clock_field := Some (of_int n);
     input_measurement := None; body := Some (Body.run_ended EmptyString); record_rest := EmptyString |}.

Definition core_codec : Codec :=
  {| to_binary r := match body r with Some (Body.run_ended _) => [seq r mod 256] | _ => [seq r mod 256; 0] end;
     from_binary payload := match payload with
       | [b] => Ok (sample_core b)
       | [b; _] => Ok (sample_entry b)
       | _ => Err "not a sample"%string
       end;
     validate r := ensure (bool_decide (r = sample_core (seq r) \/ r = sample_entry (seq r)) && (0 <=? seq r) && (seq r <? 256))
       "not a sample"%string;
     crc32c payload := foldr Z.add 0 payload mod 2 ^ 32 |}.

Lemma core_valid r : validate (Codec := core_codec) r = Ok tt ->
  (r = sample_core (seq r) \/ r = sample_entry (seq r)) /\ 0 <= seq r < 256.
Proof.
  intros Hr. cbn in Hr. apply ensure_Ok in Hr. rewrite !andb_true_iff, bool_decide_eq_true in Hr.
  destruct Hr as [[? ?] ?]. split; [done|lia].
Qed.

Lemma core_laws : CodecLaws core_codec.
Proof.
  split.
  - intros r. cbn. assert (is_byte (seq r mod 256)) by (apply Z.mod_pos_bound; lia).
    destruct (body r) as [[]|]; repeat (apply List.Forall_cons || apply List.Forall_nil); unfold is_byte in *; lia.
  - intros r [[Hr|Hr] Hn]%core_valid; rewrite Hr; cbn; rewrite Z.mod_small by lia; done.
  - intros payload. apply Z.mod_pos_bound. lia.
Qed.

Lemma sample_clocks n : 0 <= n < 256 -> is_finite (of_int n) && fle fzero (of_int n) = true.
Proof.
  intros Hn. assert (Hall : forallb (fun n => is_finite (of_int n) && fle fzero (of_int n)) (seqZ 0 256) = true)
    by (vm_compute; reflexivity).
  rewrite forallb_forall in Hall. apply Hall, list_elem_of_In, elem_of_seqZ. lia.
Qed.

Lemma core_clock r : validate (Codec := core_codec) r = Ok tt -> clock_ok r = true.
Proof. intros [[Hr|Hr] Hn]%core_valid; rewrite Hr; by apply sample_clocks. Qed.

#[local] Instance core_records : RunLogRecords FileLog :=
  @file_records core_codec sample_gate sample_headline 1 sample_accept sample_accept.
Abbreviation core_holds := (@file_holds core_codec sample_gate sample_headline).

Lemma core_tracks : RunLogLaws FileLog core_holds.
Proof.
  exact (@file_laws core_codec core_laws sample_gate sample_headline 1 sample_accept sample_accept sample_headline_seq
    core_clock).
Qed.

(** A new log, and the log with one record staged *)
Definition sample_created : Writer :=
  match @start sample_headline sample_accept sample_accept created None ∅ with
  | Ok w => w | Err _ => sample_first end.
Definition sample_staged : ConfirmedLog.ConfirmedLog FileLog :=
  (ConfirmedLog.stage None (sample_entry 1)
     (ConfirmedLog.new_log {| owned := sample_created; failure := OSError; schedule := [] |})).2.

Lemma sample_staged_tracks : ConfirmedLog.tracks (holds := core_holds) sample_staged [sample_entry 1] 0.
Proof.
  assert (E : ConfirmedLog.confirmed sample_staged = Some [sample_entry 1]) by (vm_compute; reflexivity).
  split; [|rewrite E; by intros ? [= <-]]. split; [|split; [vm_compute; reflexivity|intros _; by split]].
  apply (@life_inv core_codec core_laws sample_gate sample_headline 1 sample_accept sample_accept sample_headline_seq).
  apply (@life_step core_codec sample_gate sample_headline 1 sample_accept sample_accept [] sample_created (Some (sample_entry 1))).
  - apply life_created. vm_compute. reflexivity.
  - apply (step_append _ _ _ _ _ fzero). vm_compute. reflexivity.
  - by repeat constructor.
Qed.

(** Then core ends the run, while the committer has taken and synced the staged record. *)
Definition sample_busy : ConfirmedLog.ConfirmedLog FileLog :=
  {| ConfirmedLog.writer := {| owned := owned (ConfirmedLog.writer sample_staged); failure := OSError;
       schedule := [{| reads := of_int 1; moves := 2; torn := None; fails := None |}] |};
     ConfirmedLog.confirmed := ConfirmedLog.confirmed sample_staged |}.
Definition sample_ended : result WriteError ConfirmedLog.Appending * ConfirmedLog.ConfirmedLog FileLog :=
  ConfirmedLog.append (Some (of_int 2)) (ConfirmedLog.RunEnded EmptyString) 1 {| at_seconds := 0; at_nanos := 0 |}
    (of_int 3) sample_busy.

(** The projection stages one record more, and the machine stops with half of it on the disk. *)
Lemma appended_survives_crash_witness :
  sample_ended.1 = Ok (ConfirmedLog.Appended (sample_core 2)) /\
    exists records recovered,
      @recover core_codec sample_gate (Some (Ok (sample_head 2))) (@log_bytes core_codec [sample_entry 1; sample_core 2] ++ [2; 3])
      = Some (Ok recovered) /\ [sample_entry 1; sample_core 2] `prefix_of` records.
Proof.
  split; [vm_compute; reflexivity|].
  destruct (@appended_survives_crash core_codec core_laws sample_gate sample_headline 1 sample_accept sample_accept
    sample_headline_seq core_clock
    (Some (of_int 2)) (ConfirmedLog.RunEnded EmptyString) 1 {| at_seconds := 0; at_nanos := 0 |} (of_int 3)
    sample_busy [sample_entry 1] 0 (sample_core 2)
    sample_ended.2 [(Some (of_int 3), ConfirmedLog.Stage (sample_entry 3))]
    (owned (ConfirmedLog.writer (ConfirmedLog.calls sample_ended.2 [(Some (of_int 3), ConfirmedLog.Stage (sample_entry 3))])))
    (@log_bytes core_codec [sample_entry 1; sample_core 2] ++ [2; 3]) (Some (sample_head 2)) sample_staged_tracks)
    as (_ & records & recovered & Hrec & _ & Hp & _).
  - repeat constructor.
  - repeat constructor.
  - vm_compute. reflexivity.
  - apply run_start.
  - split; eexists; vm_compute; reflexivity.
  - left. vm_compute. reflexivity.
  - exists records, recovered. split; [exact Hrec|exact Hp].
Defined.

Lemma log_stays_in_order_witness :
  exists rs' d', ConfirmedLog.tracks (holds := core_holds)
      (ConfirmedLog.calls sample_staged [(None, ConfirmedLog.Forget); (None, ConfirmedLog.Stage (sample_entry 7)); (None, ConfirmedLog.Commit)])
      rs' d' /\ ConfirmedLog.in_order rs' /\ [sample_entry 1] `prefix_of` rs' /\ (0 <= d')%nat.
Proof.
  apply (@ConfirmedLog.log_stays_in_order FileLog core_holds core_records core_tracks sample_staged [sample_entry 1] 0
    _ sample_staged_tracks).
  split; [reflexivity|]. split; repeat constructor.
Defined.

Lemma no_record_after_present_witness :
  exists rs' d', ConfirmedLog.tracks (holds := core_holds)
      (ConfirmedLog.calls sample_staged [(Some (of_int 3), ConfirmedLog.Stage (sample_entry 7))]) rs' d' /\
    ConfirmedLog.not_after (of_int 3) rs' /\ fle (ConfirmedLog.latest rs') (of_int 3) = true.
Proof.
  apply (@ConfirmedLog.no_record_after_present FileLog core_holds core_records core_tracks (of_int 2) sample_staged
    [sample_entry 1] 0 [(Some (of_int 3), ConfirmedLog.Stage (sample_entry 7))] sample_staged_tracks).
  - vm_compute. reflexivity.
  - constructor; [vm_compute; reflexivity|constructor].
  - exists (of_int 3). split; [reflexivity|]. split; [vm_compute; reflexivity|]. split; exact I.
Defined.

(** The disk fails while core's record is appended. *)
Definition sample_failing : ConfirmedLog.ConfirmedLog FileLog :=
  {| ConfirmedLog.writer := {| owned := owned (ConfirmedLog.writer sample_staged); failure := OSError;
       schedule := [{| reads := fzero; moves := 0; torn := Some 1%nat; fails := None |}] |};
     ConfirmedLog.confirmed := ConfirmedLog.confirmed sample_staged |}.

Lemma append_outcome_witness :
  let '(outcome, log') := ConfirmedLog.append None (ConfirmedLog.RunEnded EmptyString) 1
    {| at_seconds := 0; at_nanos := 0 |} (of_int 2) sample_failing in
  outcome = Ok ConfirmedLog.Uncertain /\
  ConfirmedLog.left_by (holds := core_holds)
    (ConfirmedLog.stamped None (ConfirmedLog.RunEnded EmptyString) 1 {| at_seconds := 0; at_nanos := 0 |} (of_int 2) [sample_entry 1])
    log' [sample_entry 1] 0.
Proof.
  assert (Ht : ConfirmedLog.tracks (holds := core_holds) sample_failing [sample_entry 1] 0) by exact sample_staged_tracks.
  pose proof (@ConfirmedLog.append_outcome FileLog core_holds core_records core_tracks None (ConfirmedLog.RunEnded EmptyString) 1
    {| at_seconds := 0; at_nanos := 0 |} (of_int 2) sample_failing [sample_entry 1] 0 Ht) as Ha.
  destruct (ConfirmedLog.append _ _ _ _ _ _) as [outcome log'] eqn:E.
  assert (E1 : outcome = Ok ConfirmedLog.Uncertain).
  { change outcome with (fst (outcome, log')). rewrite <- E. vm_compute. reflexivity. }
  split; [exact E1|]. rewrite E1 in Ha. exact (proj2 Ha).
Defined.

(** The second record is no record of the schema; the third is, and is refused until a commit. *)
Definition sample_refused : ConfirmedLog.ConfirmedLog FileLog :=
  (ConfirmedLog.stage None (bare_record 0 0 (Body.chat EmptyString)) sample_staged).2.

Lemma refused_stage_stalls_witness :
  (forall appended, (ConfirmedLog.stage None (sample_entry 2) sample_refused).1 <> Ok appended) /\
  (ConfirmedLog.stage None (sample_entry 2) (ConfirmedLog.forget (ConfirmedLog.commit sample_refused).2).2).1
    = Ok (sample_entry 2).
Proof.
  split; [|vm_compute; reflexivity].
  apply (@ConfirmedLog.refused_stage_stalls FileLog core_holds core_records core_tracks None
    (bare_record 0 0 (Body.chat EmptyString)) "not a sample" sample_staged [sample_entry 1] 0 sample_refused sample_staged_tracks).
  - vm_compute. reflexivity.
  - cbn. lia.
  - vm_compute. reflexivity.
  - vm_compute. reflexivity.
Defined.

Lemma uncertain_log_unreadable_witness :
  let log' := (ConfirmedLog.append None (ConfirmedLog.RunEnded EmptyString) 1
    {| at_seconds := 0; at_nanos := 0 |} (of_int 2) sample_failing).2 in
  (ConfirmedLog.records log').1 = Err OSError.
Proof.
  apply (@uncertain_log_unreadable core_codec sample_gate sample_headline 1 sample_accept sample_accept None
    (ConfirmedLog.RunEnded EmptyString) 1 {| at_seconds := 0; at_nanos := 0 |} (of_int 2) sample_failing).
  vm_compute. reflexivity.
Defined.
