(* ===== verification/Operations.v ===== *)
(** * Durable asynchronous operations

    [libs/vs-async-ops/src/vs_async_ops/]: [models.py], and [OperationCoordinator] of
    [coordinator.py] as the asyncio tasks that run its methods.  A task runs from one [await] to
    the next without another between; [resume] is such a run, given what the awaited call did, and
    a task that waits for a lock runs when the lock is free ([step]).  The store, the runner and
    the clock are the caller's: the store's calls are atomic and may raise, before or after they
    took effect; a runner returns, raises or takes its cancellation when it likes. *)

From S2P Require Import Prelude PyFloat Identities.

(** ** Models *)

Module OperationState.
Inductive OperationState : Set := QUEUED | RUNNING | SUCCEEDED | FAILED | CANCELED | INTERRUPTED.
End OperationState.
Abbreviation OperationState := OperationState.OperationState.
#[export] Instance OperationState_dec : EqDecision OperationState.
Proof. solve_decision. Defined.

(** [OperationState.terminal] *)
Definition terminal (s : OperationState) : bool :=
  among s [OperationState.SUCCEEDED; OperationState.FAILED; OperationState.CANCELED; OperationState.INTERRUPTED].

(** [OperationPolicy]; the types of its fields are the annotated ones *)
Record OperationPolicy := {
  max_await_timeout_s : option float;
  max_in_flight : option Z;
  cancellation_timeout_s : option float
}.

(** [OperationPolicy.__post_init__] *)
Definition validate_policy (p : OperationPolicy) : result string unit :=
  let positive t := is_finite t && negb (fle t fzero) in
  require* match max_await_timeout_s p with Some t => positive t | None => true end else "max_await_timeout_s"%string in
  require* match max_in_flight p with Some n => 0 <? n | None => true end else "max_in_flight"%string in
  require* match cancellation_timeout_s p with Some t => positive t | None => true end
    else "cancellation_timeout_s"%string in
  Ok tt.

Record OperationRequest := { operation_id : string; concurrency_key : string; payload : Canonical }.
#[export] Instance OperationRequest_dec : EqDecision OperationRequest.
Proof. solve_decision. Defined.

(** [OperationHandle]; [handle_result] is [None] for no result and for JSON's null *)
Record OperationHandle := {
  request : OperationRequest;
  state : OperationState;
  handle_result : option Canonical;
  result_present : bool;
  failure : option string;
  revision : Z
}.
#[export] Instance OperationHandle_dec : EqDecision OperationHandle.
Proof. solve_decision. Defined.

(** [OperationHandle._terminal_fields_match_state] *)
Definition terminal_fields_match_state (h : OperationHandle) : result string unit :=
  require* negb (eqb (state h) OperationState.SUCCEEDED && negb (result_present h))
    else "succeeded operation requires a result"%string in
  require* negb (eqb (state h) OperationState.FAILED && match failure h with Some f => eqb f EmptyString | None => true end)
    else "failed operation requires a failure"%string in
  require* negb (negb (eqb (state h) OperationState.FAILED) && not_none (failure h))
    else "only failed operation may contain a failure"%string in
  require* negb (negb (eqb (state h) OperationState.SUCCEEDED) && (not_none (handle_result h) || result_present h))
    else "only succeeded operation may contain a result"%string in
  require* 0 <=? revision h else "revision"%string in
  Ok tt.

(** [OperationLifecycleEvent] *)
Record OperationLifecycleEvent := {
  event_operation_id : string; event_key : string; event_state : OperationState; event_revision : Z
}.

(** ** The coordinator *)

(** The store, the dicts of [OperationCoordinator], and what asyncio knows: the events that are
    set, the tasks that have not ended and those asked to stop.  [expired] and [lost] are the
    operations of which a cancellation's deadline passed, or a call of the store landed and
    raised. *)
Record Shared := {
  store : gmap string OperationHandle;
  latest : gmap string OperationHandle;
  changed : gmap string nat;
  next_event : nat;
  signaled : gset nat;
  tasks : gset string;
  live : gset string;
  cancelling : gset string;
  published : list OperationLifecycleEvent;
  admission_closed : bool;
  expired : gset string;
  lost : gset string
}.
#[export] Instance eta_Shared : Eta Shared := fun s =>
  {| store := store s; latest := latest s; changed := changed s; next_event := next_event s;
     signaled := signaled s; tasks := tasks s; live := live s; cancelling := cancelling s;
     published := published s; admission_closed := admission_closed s; expired := expired s; lost := lost s |}.

(** Where a task is in [_transition]: the store replaces, it has, or it raised *)
Inductive Transition :=
  | Replacing (record updated : OperationHandle)
  | Landed (updated : OperationHandle)
  | Rereading.

(** How [runner.run] ended *)
Inductive Outcome := Returned (result : option Canonical) | Raised (name message : string) | Stopped.

(** Where a task is: the call it awaits.  [submit] of a request, [_execute] of it,
    [_terminate_to_the_end] of its operation, [wait_result] of it. *)
Inductive Pc :=
  | SubmitWaiting | SubmitCreating | SubmitCreated
  | TaskCreated | WaitingKey | WaitingAdmission | WaitingLifecycle | WaitingOperation
  | ReadingQueued | Starting (t : Transition) | InRunner
  | Ending (o : Outcome) | ReadingEnd (o : Outcome) | WritingEnd (o : Outcome) (t : Transition)
  | TermWaiting (target : OperationState) | TermReading (target : OperationState)
  | TermStopping (target : OperationState) (task : bool)
  | TermGathering (target : OperationState) | TermReadingAgain (target : OperationState)
  | TermWriting (target : OperationState) (t : Transition)
  | WaitStart | Observing (event : nat) | Sleeping (event : nat)
  | Ended.

Record Task := { task_request : OperationRequest; pc : Pc }.
Definition task_id (t : Task) : string := operation_id (task_request t).

(** ** Locks *)

(** [_operation_locks], [_key_locks], [_lifecycle_lock] and [_admission] *)
Inductive Lock := OperationLock (id : string) | KeyLock (key : string) | LifecycleLock | Admission.
#[export] Instance Lock_dec : EqDecision Lock.
Proof. solve_decision. Defined.

Definition executing (p : Pc) : bool :=
  match p with
  | TaskCreated | WaitingKey | WaitingAdmission | WaitingLifecycle | WaitingOperation
  | ReadingQueued | Starting _ | InRunner | Ending _ | ReadingEnd _ | WritingEnd _ _ => true
  | _ => false
  end.

(** The locks of the [async with] blocks a task is in *)
Definition holds (t : Task) (l : Lock) : bool :=
  match l with
  | OperationLock id =>
    eqb id (task_id t) &&
    match pc t with
    | ReadingQueued | Starting _ | ReadingEnd _ | WritingEnd _ _
    | TermReading _ | TermStopping _ _ | TermGathering _ | TermReadingAgain _ | TermWriting _ _ => true
    | _ => false
    end
  | KeyLock key =>
    eqb key (concurrency_key (task_request t)) && executing (pc t) &&
    match pc t with TaskCreated | WaitingKey => false | _ => true end
  | LifecycleLock =>
    match pc t with SubmitCreating | SubmitCreated | WaitingOperation | ReadingQueued | Starting _ => true | _ => false end
  | Admission =>
    executing (pc t) &&
    match pc t with TaskCreated | WaitingKey | WaitingAdmission => false | _ => true end
  end.

(** ** Between two awaits *)

(** What the awaited call did: it returned, it raised, it took effect and raised, it returned or
    raised what [runner.run] did, or the cancellation's deadline passed. *)
Inductive Choice :=
  | Goes | Fails | Loses
  | Returns (result : option Canonical) | Raises (name message : string) | Stops
  | Expires.

(** [_publish]: what its sink raises goes no further *)
Definition publish (s : Shared) (h : OperationHandle) : Shared :=
  s <| published := published s ++ [{| event_operation_id := operation_id (request h);
    event_key := concurrency_key (request h); event_state := state h; event_revision := revision h |}] |>.

(** [self._changed.setdefault(operation_id, asyncio.Event())] *)
Definition event_of (s : Shared) (id : string) : nat * Shared :=
  match changed s !! id with
  | Some e => (e, s)
  | None => (next_event s, s <| changed := <[id := next_event s]> (changed s) |> <| next_event := S (next_event s) |>)
  end.

(** [status], once the store answered: none is an [OperationNotFoundError] *)
Definition status (s : Shared) (id : string) : option (OperationHandle * Shared) :=
  match store s !! id with
  | None => None
  | Some record =>
    Some (record, s <| latest := if terminal (state record) then delete id (latest s) else <[id := record]> (latest s) |>)
  end.

(** The handle [_transition] writes *)
Definition moved (record : OperationHandle) (state_ : OperationState) (result_ : option Canonical) (present : bool)
    (failure_ : option string) : OperationHandle :=
  {| request := request record; state := state_; handle_result := result_; result_present := present;
     failure := failure_; revision := revision record + 1 |}.

(** [self._store.replace]: whether it took effect *)
Definition replace (s : Shared) (record updated : OperationHandle) : option Shared :=
  let id := operation_id (request record) in
  match store s !! id with
  | Some current => if revision current =? revision record then Some (s <| store := <[id := updated]> (store s) |>) else None
  | None => None
  end.

(** What [_transition] does once its record is stored *)
Definition landed (s : Shared) (updated : OperationHandle) : Shared :=
  let id := operation_id (request updated) in
  let s := s <| latest := <[id := updated]> (latest s) |> in
  let s := publish s updated in
  if terminal (state updated) then
    let s := match changed s !! id with
             | Some e => s <| changed := delete id (changed s) |> <| signaled := {[e]} ∪ signaled s |>
             | None => s
             end in
    s <| latest := delete id (latest s) |>
  else s.

(** [_transition]: where it is next, or [inr] whether it returned *)
Definition transition (ch : Choice) (id : string) (t : Transition) (s : Shared) : option (Shared * (Transition + bool)) :=
  match t, ch with
  | Replacing record updated, Goes =>
    match replace s record updated with
    | Some s => Some (s, inl (Landed updated))
    | None => Some (s, inl Rereading)
    end
  | Replacing _ _, Fails => Some (s, inl Rereading)
  | Replacing record updated, Loses =>
    match replace s record updated with
    | Some s => Some (s <| lost := {[id]} ∪ lost s |>, inl Rereading)
    | None => Some (s, inl Rereading)
    end
  | Landed updated, Goes => Some (landed s updated, inr true)
  | Rereading, Goes =>
    match store s !! id with
    | Some current => Some (s, inr (terminal (state current)))
    | None => Some (s, inr false)
    end
  | Rereading, Fails => Some (s, inr false)
  | _, _ => None
  end.

(** The [finally] of [_execute] *)
Definition finished (s : Shared) (id : string) : Shared :=
  s <| tasks := tasks s ∖ {[id]} |> <| live := live s ∖ {[id]} |> <| cancelling := cancelling s ∖ {[id]} |>.

(** [task.cancel()], of a task that may have ended *)
Definition cancel_task (s : Shared) (id : string) : Shared :=
  if bool_decide (id ∈ live s) then s <| cancelling := {[id]} ∪ cancelling s |> else s.

(** The transition that the end of a run asks for, none when [_execute] leaves the record alone *)
Definition end_of (o : Outcome) (current : OperationHandle) : option OperationHandle :=
  match o with
  | Returned result =>
    if eqb (state current) OperationState.RUNNING
    then Some (moved current OperationState.SUCCEEDED result true None) else None
  | Raised name message =>
    if terminal (state current) then None
    else Some (moved current OperationState.FAILED None false (Some (name +:+ ": " +:+ message)))
  | Stopped =>
    if terminal (state current) then None else Some (moved current OperationState.INTERRUPTED None false None)
  end.

(** [_execute] from the await it is at *)
Definition execute (ch : Choice) (r : OperationRequest) (p : Pc) (s : Shared) : option (Shared * Pc) :=
  let id := operation_id r in
  let return_ (s : Shared) := Some (finished s id, Ended) in
  if bool_decide (id ∈ cancelling s) then
    (* [asyncio.CancelledError] is raised at the await; a task that has not begun never enters
       its [try], and a runner may take the cancellation its own way *)
    match p, ch with
    | TaskCreated, Goes => Some (s <| live := live s ∖ {[id]} |> <| cancelling := cancelling s ∖ {[id]} |>, Ended)
    | InRunner, Returns result => Some (s <| cancelling := cancelling s ∖ {[id]} |>, Ending (Returned result))
    | InRunner, Raises name message => Some (s <| cancelling := cancelling s ∖ {[id]} |>, Ending (Raised name message))
    | InRunner, Stops => Some (s <| cancelling := cancelling s ∖ {[id]} |>, Ending Stopped)
    | (WaitingKey | WaitingAdmission | WaitingLifecycle | WaitingOperation | InRunner | Ending _), Goes => return_ s
    | _, _ => None
    end
  else
    match p, ch with
    | TaskCreated, Goes => Some (s, WaitingKey)
    | WaitingKey, Goes => Some (s, WaitingAdmission)
    | WaitingAdmission, Goes => Some (s, WaitingLifecycle)
    | WaitingLifecycle, Goes => if admission_closed s then return_ s else Some (s, WaitingOperation)
    | WaitingOperation, Goes => Some (s, ReadingQueued)
    | ReadingQueued, Goes =>
      match status s id with
      | None => return_ s
      | Some (record, s) =>
        if eqb (state record) OperationState.QUEUED
        then Some (s, Starting (Replacing record (moved record OperationState.RUNNING None false None)))
        else return_ s
      end
    | ReadingQueued, Fails => return_ s
    | Starting t, _ =>
      match transition ch id t s with
      | Some (s, inl t) => Some (s, Starting t)
      | Some (s, inr true) => Some (s, InRunner)
      | Some (s, inr false) => return_ s
      | None => None
      end
    | InRunner, Returns result => Some (s, Ending (Returned result))
    | InRunner, Raises name message => Some (s, Ending (Raised name message))
    | InRunner, Stops => Some (s, Ending Stopped)
    | Ending o, Goes => Some (s, ReadingEnd o)
    | ReadingEnd o, Goes =>
      match status s id with
      | None => return_ s
      | Some (current, s) =>
        match end_of o current with
        | Some updated => Some (s, WritingEnd o (Replacing current updated))
        | None => return_ s
        end
      end
    | ReadingEnd _, Fails => return_ s
    | WritingEnd o t, _ =>
      match transition ch id t s with
      | Some (s, inl t) => Some (s, WritingEnd o t)
      | Some (s, inr _) => return_ s
      | None => None
      end
    | _, _ => None
    end.

(** [_terminate_to_the_end] from the await it is at; [bounded] is whether the policy has a
    cancellation timeout *)
Definition terminate (bounded : bool) (ch : Choice) (r : OperationRequest) (p : Pc) (s : Shared) : option (Shared * Pc) :=
  let id := operation_id r in
  let stop (task : bool) target (s : Shared) :=
    (* [if task is not None: task.cancel(); await asyncio.gather(task)] *)
    if task then (cancel_task s id, TermGathering target) else (s, TermReadingAgain target) in
  let expire (s : Shared) := s <| expired := {[id]} ∪ expired s |> in
  match p, ch with
  | TermWaiting target, Goes => Some (s, TermReading target)
  | TermReading target, Goes =>
    match status s id with
    | None => Some (s, Ended)
    | Some (record, s) =>
      let task := bool_decide (id ∈ tasks s) in
      if terminal (state record) then Some (s, Ended)
      else if eqb (state record) OperationState.RUNNING then Some (s, TermStopping target task)
      else Some (stop task target s)
    end
  | TermReading _, Fails => Some (s, Ended)
  | TermStopping target task, (Goes | Fails) => Some (stop task target s)
  | TermStopping target task, Expires =>
    if bounded then Some (expire (if task then cancel_task s id else s), TermReadingAgain target) else None
  | TermGathering target, Goes => if bool_decide (id ∈ live s) then None else Some (s, TermReadingAgain target)
  | TermGathering target, Expires => if bounded then Some (expire (cancel_task s id), TermReadingAgain target) else None
  | TermReadingAgain target, Goes =>
    match status s id with
    | None => Some (s, Ended)
    | Some (current, s) =>
      if terminal (state current) then Some (s, Ended)
      else Some (s, TermWriting target (Replacing current (moved current target None false None)))
    end
  | TermReadingAgain _, Fails => Some (s, Ended)
  | TermWriting target t, _ =>
    match transition ch id t s with
    | Some (s, inl t) => Some (s, TermWriting target t)
    | Some (s, inr _) => Some (s, Ended)
    | None => None
    end
  | _, _ => None
  end.

(** [submit] once it is started; the task it creates *)
Definition submit (ch : Choice) (r : OperationRequest) (p : Pc) (s : Shared) : option (Shared * Pc * option Task) :=
  let id := operation_id r in
  let record := {| request := r; state := OperationState.QUEUED; handle_result := None; result_present := false;
                   failure := None; revision := 0 |} in
  let created := s <| store := <[id := record]> (store s) |> in
  match p, ch with
  | SubmitWaiting, Goes => if admission_closed s then Some (s, Ended, None) else Some (s, SubmitCreating, None)
  | SubmitCreating, Goes =>
    match store s !! id with
    | Some _ => Some (s, Ended, None)
    | None => Some (created, SubmitCreated, None)
    end
  | SubmitCreating, Fails => Some (s, Ended, None)
  | SubmitCreating, Loses =>
    match store s !! id with
    | Some _ => Some (s, Ended, None)
    | None => Some (created <| lost := {[id]} ∪ lost s |>, Ended, None)
    end
  | SubmitCreated, Goes =>
    let s := s <| latest := <[id := record]> (latest s) |> in
    let s := publish s record in
    let s := (event_of s id).2 in
    let s := s <| tasks := {[id]} ∪ tasks s |> <| live := {[id]} ∪ live s |> in
    Some (s, Ended, Some {| task_request := r; pc := TaskCreated |})
  | _, _ => None
  end.

(** [wait_result] *)
Definition wait_result (ch : Choice) (r : OperationRequest) (p : Pc) (s : Shared) : option (Shared * Pc) :=
  let id := operation_id r in
  match p, ch with
  | WaitStart, Goes =>
    let (e, s) := event_of s id in
    Some (s <| signaled := signaled s ∖ {[e]} |>, Observing e)
  | Observing e, Goes =>
    match status s id with
    | None => Some (s, Ended)
    | Some (record, s) => Some (s, if terminal (state record) then Ended else Sleeping e)
    end
  | Observing _, Fails => Some (s, Ended)
  | Sleeping e, Goes => if bool_decide (e ∈ signaled s) then Some (s, WaitStart) else None
  | _, _ => None
  end.

(** A task, from the await it is at to the next *)
Definition resume (bounded : bool) (ch : Choice) (t : Task) (s : Shared) : option (Shared * Task * option Task) :=
  let r := task_request t in
  let at_ (next : option (Shared * Pc)) :=
    match next with Some (s, p) => Some (s, {| task_request := r; pc := p |}, None) | None => None end in
  match pc t with
  | SubmitWaiting | SubmitCreating | SubmitCreated =>
    match submit ch r (pc t) s with
    | Some (s, p, spawned) => Some (s, {| task_request := r; pc := p |}, spawned)
    | None => None
    end
  | TaskCreated | WaitingKey | WaitingAdmission | WaitingLifecycle | WaitingOperation
  | ReadingQueued | Starting _ | InRunner | Ending _ | ReadingEnd _ | WritingEnd _ _ => at_ (execute ch r (pc t) s)
  | TermWaiting _ | TermReading _ | TermStopping _ _ | TermGathering _ | TermReadingAgain _ | TermWriting _ _ =>
    at_ (terminate bounded ch r (pc t) s)
  | WaitStart | Observing _ | Sleeping _ => at_ (wait_result ch r (pc t) s)
  | Ended => None
  end.

(** ** Every task *)

Record Coordinator := { shared : Shared; running : gmap nat Task }.

(** The tasks that hold a lock *)
Definition holders (c : Coordinator) (l : Lock) : gmap nat Task :=
  filter (fun it => holds it.2 l = true) (running c).

(** A task that asks for a lock it does not hold gets it when nobody holds it; the semaphore of
    admissions when fewer than [max_in_flight] do. *)
Definition free (policy : OperationPolicy) (c : Coordinator) (l : Lock) : Prop :=
  match l with
  | Admission => match max_in_flight policy with Some n => Z.of_nat (size (holders c Admission)) < n | None => True end
  | _ => holders c l = ∅
  end.

(** What a caller may ask for: [submit], [cancel] (or [close], of each operation) and [wait_result] *)
Definition asked (p : Pc) : bool :=
  match p with
  | SubmitWaiting | WaitStart => true
  | TermWaiting target => among target [OperationState.CANCELED; OperationState.INTERRUPTED]
  | _ => false
  end.

Inductive step (policy : OperationPolicy) : Coordinator -> Coordinator -> Prop :=
  | step_call c i t : running c !! i = None -> asked (pc t) = true ->
    step policy c {| shared := shared c; running := <[i := t]> (running c) |}
  | step_close c : free policy c LifecycleLock ->
    step policy c {| shared := (shared c) <| admission_closed := true |>; running := running c |}
  | step_resume c i t ch s t' spawned j :
    running c !! i = Some t ->
    resume (not_none (cancellation_timeout_s policy)) ch t (shared c) = Some (s, t', spawned) ->
    (forall l, holds t' l = true -> holds t l = false -> free policy c l) ->
    running c !! j = None -> i <> j ->
    step policy c {| shared := s; running :=
      match spawned with Some task => <[j := task]> (<[i := t']> (running c)) | None => <[i := t']> (running c) end |}.

(** ** Starting *)

(** [start]: the operations that a stop of the process orphaned are interrupted, if the store
    answers *)
Definition start_record (s : Shared) (record : OperationHandle) : option Shared :=
  if terminal (state record) then Some s
  else
    let id := operation_id (request record) in
    let s := s <| latest := <[id := record]> (latest s) |> in
    let updated := moved record OperationState.INTERRUPTED None false None in
    match replace s record updated with
    | Some s => Some (landed s updated)
    | None => None
    end.

Fixpoint start (s : Shared) (records : list OperationHandle) : option Shared :=
  match records with
  | [] => Some s
  | record :: records => match start_record s record with Some s => start s records | None => None end
  end.

(** The fields [__init__] sets, over the store it is given *)
Definition new_coordinator (stored : gmap string OperationHandle) : Shared :=
  {| store := stored; latest := ∅; changed := ∅; next_event := 0; signaled := ∅; tasks := ∅; live := ∅;
     cancelling := ∅; published := []; admission_closed := false; expired := ∅; lost := ∅ |}.

(** What can become of a coordinator that started over a store *)
Inductive reachable (policy : OperationPolicy) (stored : gmap string OperationHandle) : Coordinator -> Prop :=
  | reach_start s : start (new_coordinator stored) (map snd (map_to_list stored)) = Some s ->
    reachable policy stored {| shared := s; running := ∅ |}
  | reach_step c c' : reachable policy stored c -> step policy c c' -> reachable policy stored c'.
