(* ===== verification/OperationsSafe.v ===== *)
(** * What the coordinator of operations keeps

    The invariant of the tasks of [Operations], and what follows: who runs beside whom, how a
    record moves. *)

From S2P Require Import Prelude PyFloat Identities Operations.

Section Coordinator.
Context (policy : OperationPolicy).
Abbreviation step := (step policy).
Abbreviation resume := (resume (not_none (cancellation_timeout_s policy))).

(** ** One task *)

Definition terminating (p : Pc) : bool :=
  match p with
  | TermWaiting _ | TermReading _ | TermStopping _ _ | TermGathering _ | TermReadingAgain _ | TermWriting _ _ => true
  | _ => false
  end.

(** Which operation of the coordinator a task runs *)
Lemma resume_cases ch t s s' t' spawned : resume ch t s = Some (s', t', spawned) ->
  exists p', t' = {| task_request := task_request t; pc := p' |} /\
  ((executing (pc t) = true /\ execute ch (task_request t) (pc t) s = Some (s', p') /\ spawned = None) \/
   (terminating (pc t) = true /\ spawned = None /\
    terminate (not_none (cancellation_timeout_s policy)) ch (task_request t) (pc t) s = Some (s', p')) \/
   submit ch (task_request t) (pc t) s = Some (s', p', spawned) \/
   (wait_result ch (task_request t) (pc t) s = Some (s', p') /\ spawned = None)).
Proof.
  intros H. unfold Operations.resume in H. destruct (pc t); try discriminate H;
    lazymatch type of H with
    | match submit ?a ?b ?c ?d with _ => _ end = _ => destruct (submit a b c d) as [[[]]|]
    | match match ?o with _ => _ end with _ => _ end = _ => destruct o as [[]|]
    | match ?o with _ => _ end = _ => destruct o as [[]|]
    end; simplify_eq/=; eexists; (split; [done|]); by auto 10.
Qed.

Lemma resume_request ch t s s' t' spawned : resume ch t s = Some (s', t', spawned) ->
  task_request t' = task_request t /\
  (spawned = None \/
   pc t = SubmitCreated /\ pc t' = Ended /\ spawned = Some {| task_request := task_request t; pc := TaskCreated |}).
Proof.
  intros (p' & -> & [(_ & _ & ->)|[(_ & -> & _)|[H|(_ & ->)]]])%resume_cases; [by auto..| |by auto].
  split; [done|]. unfold submit in H. destruct (pc t), ch; try done; repeat (case_match; try done); simplify_eq; by auto.
Qed.

Lemma holders_lookup c l i t : holders c l !! i = Some t <-> running c !! i = Some t /\ holds t l = true.
Proof. unfold holders. by rewrite map_lookup_filter_Some. Qed.

Lemma free_holds c l i t : l <> Admission -> free policy c l -> running c !! i = Some t -> holds t l = false.
Proof.
  intros Hl Hf Ht. assert (holders c l = ∅) as E by (by destruct l).
  destruct (holds t l) eqn:Hh; [|done]. assert (Hin : holders c l !! i = Some t) by (by apply holders_lookup).
  by rewrite E, lookup_empty in Hin.
Qed.

(** ** Locks *)

Definition exclusive (c : Coordinator) : Prop := forall l i j t u, l <> Admission ->
  running c !! i = Some t -> running c !! j = Some u -> holds t l = true -> holds u l = true -> i = j.

Definition admitted (c : Coordinator) : Prop :=
  match max_in_flight policy with Some n => Z.of_nat (size (holders c Admission)) <= n | None => True end.

(** The tasks of a step: every other is as it was, and the new ones hold nothing. *)
Lemma step_tasks c c' : step c c' ->
  running c' = running c \/
  (exists i t, running c !! i = None /\ asked (pc t) = true /\ shared c' = shared c /\ running c' = <[i := t]> (running c)) \/
  (exists i t ch t' spawned j, running c !! i = Some t /\ resume ch t (shared c) = Some (shared c', t', spawned) /\
    (forall l, holds t' l = true -> holds t l = false -> free policy c l) /\ running c !! j = None /\ i <> j /\
    running c' = match spawned with Some task => <[j := task]> (<[i := t']> (running c)) | None => <[i := t']> (running c) end).
Proof.
  destruct 1 as [c i t Hi Ha|c Hf|c i t ch s t' spawned j Hi Hr Hl Hj Hij]; [right; left; by eauto 10|by left|].
  right. right. by eauto 15.
Qed.

Lemma asked_holds t l : asked (pc t) = true -> holds t l = false.
Proof. destruct t as [r []], l; cbn; try done; by rewrite ?andb_false_r. Qed.

Lemma exclusive_step c c' : exclusive c -> step c c' -> exclusive c'.
Proof.
  intros E [Hc|[(i & t & Hi & Ha & _ & Hc)|(i & t & ch & t' & spawned & j & Hi & Hr & Hl & Hj & Hij & Hc)]]%step_tasks l a b u v Hlk; [rewrite Hc; by eauto| |].
  - rewrite Hc. intros [[<- <-]|[? ?]]%lookup_insert_Some [[<- <-]|[? ?]]%lookup_insert_Some Hu Hv; try done; try by eauto.
    all: first [by rewrite asked_holds in Hu by done|by rewrite asked_holds in Hv by done|by eapply E].
  - assert (Hall : forall k w, running c' !! k = Some w -> holds w l = true ->
      (k = i /\ w = t') \/ (k <> i /\ running c !! k = Some w)).
    { intros k w. rewrite Hc. apply resume_request in Hr as [_ [->|(_ & _ & ->)]].
      - intros [[<- <-]|[? ?]]%lookup_insert_Some _; auto.
      - intros [[<- <-]|[? [[<- <-]|[? ?]]%lookup_insert_Some]]%lookup_insert_Some Hw; auto.
        destruct l; cbn in Hw; by rewrite ?andb_false_r in Hw. }
    assert (Hother : forall k w, k <> i -> running c !! k = Some w -> holds w l = true -> holds t' l = true -> False).
    { intros k w Hk Hw Hhw Ht'. destruct (holds t l) eqn:Ht.
      - apply Hk. by apply (E l k i w t).
      - by rewrite (free_holds c l k w) in Hhw by auto. }
    intros Hu Hv Hhu Hhv. destruct (Hall _ _ Hu Hhu) as [[-> ->]|[? Hu']], (Hall _ _ Hv Hhv) as [[-> ->]|[? Hv']]; try done.
    + exfalso. by eapply (Hother b v).
    + exfalso. by eapply (Hother a u).
    + by eapply E.
Qed.

Lemma holders_insert (m : gmap nat Task) i t l :
  filter (fun it : nat * Task => holds it.2 l = true) (<[i := t]> m) =
  if holds t l then <[i := t]> (filter (fun it => holds it.2 l = true) m)
  else delete i (filter (fun it => holds it.2 l = true) m).
Proof.
  destruct (holds t l) eqn:E.
  - by rewrite map_filter_insert_True.
  - rewrite map_filter_insert_False by (cbn; by rewrite E). by rewrite map_filter_delete.
Qed.

Lemma admitted_step c c' : admitted c -> step c c' -> admitted c'.
Proof.
  unfold admitted, holders. destruct (max_in_flight policy) as [n|] eqn:Hn; [|done].
  intros Had Hstep. apply step_tasks in Hstep as
    [Hc|[(i & t & Hi & Ha & _ & Hc)|(i & t & ch & t' & spawned & j & Hi & Hr & Hl & Hj & Hij & Hc)]]; rewrite Hc; [done| |].
  { rewrite holders_insert, asked_holds by done. etransitivity; [|exact Had].
    apply Nat2Z.inj_le, map_subseteq_size, delete_subseteq. }
  assert (Hone : Z.of_nat (size (filter (fun it : nat * Task => holds it.2 Admission = true) (<[i := t']> (running c)))) <= n).
  { rewrite holders_insert. destruct (holds t' Admission) eqn:Ht'.
    - destruct (holds t Admission) eqn:Ht.
      + rewrite map_size_insert_Some; [done|]. exists t. by apply map_lookup_filter_Some.
      + specialize (Hl Admission Ht' Ht). cbn in Hl. rewrite Hn in Hl. unfold holders in Hl.
        rewrite map_size_insert_None; [lia|]. apply map_lookup_filter_None. right. intros u Hu Hh. rewrite Hi in Hu. injection Hu as <-. change (holds t Admission = true) in Hh. congruence.
    - etransitivity; [|exact Had]. apply Nat2Z.inj_le, map_subseteq_size, delete_subseteq. }
  apply resume_request in Hr as [_ [->|(_ & _ & ->)]]; [done|].
  rewrite holders_insert. cbn [holds executing pc andb]. etransitivity; [|exact Hone].
  apply Nat2Z.inj_le, map_subseteq_size, delete_subseteq.
Qed.

(** ** How records move *)

(** The edges of [OperationState] that the coordinator takes *)
Definition next_state (from to : OperationState) : bool :=
  match to with
  | OperationState.QUEUED => false
  | OperationState.RUNNING => eqb from OperationState.QUEUED
  | OperationState.SUCCEEDED => eqb from OperationState.RUNNING
  | OperationState.FAILED | OperationState.CANCELED | OperationState.INTERRUPTED => negb (terminal from)
  end.

(** [h'] is a record that may follow [h] *)
Definition follows (h h' : OperationHandle) : Prop :=
  request h' = request h /\ next_state (state h) (state h') = true /\ revision h' = revision h + 1 /\
  terminal_fields_match_state h' = Ok tt.

Definition well_formed (h : OperationHandle) : Prop := terminal_fields_match_state h = Ok tt.

Lemma well_formed_revision h : well_formed h -> 0 <= revision h.
Proof.
  unfold well_formed, terminal_fields_match_state. intros Hh.
  repeat (destruct (negb _) in Hh; cbn [ensure rbind] in Hh; [|done]).
  destruct (0 <=? revision h) eqn:E; [lia|done].
Qed.

Lemma follows_end o h h' : well_formed h -> end_of o h = Some h' -> follows h h'.
Proof.
  intros Hw%well_formed_revision. unfold end_of, follows, terminal_fields_match_state.
  destruct o as [r|name message|]; [destruct (eqb _ _) eqn:E; [|done]|destruct (terminal _) eqn:E; [done|]..];
    intros [= <-]; cbn; rewrite ?E; (split; [done|]); (split; [done|]); (split; [done|]);
    rewrite ?(proj2 (Z.leb_le 0 (revision h + 1))) by lia; try done.
  by destruct name.
Qed.

Lemma follows_stop h target : well_formed h -> terminal (state h) = false ->
  among target [OperationState.CANCELED; OperationState.INTERRUPTED] = true ->
  follows h (moved h target None false None).
Proof.
  intros Hw%well_formed_revision Hs Ht. unfold follows, terminal_fields_match_state.
  cbn [moved state request revision handle_result result_present failure].
  rewrite (proj2 (Z.leb_le 0 (revision h + 1))) by lia. by destruct target; cbn; rewrite ?Hs.
Qed.

Lemma follows_start h : well_formed h -> state h = OperationState.QUEUED ->
  follows h (moved h OperationState.RUNNING None false None).
Proof.
  intros Hw%well_formed_revision Hs. unfold follows, terminal_fields_match_state. cbn. rewrite Hs.
  by rewrite (proj2 (Z.leb_le 0 (revision h + 1))) by lia.
Qed.

(** ** What a task may change *)

(** The record a task is about to write over another *)
Definition writes (t : Task) : option (OperationHandle * OperationHandle) :=
  match pc t with
  | Starting (Replacing record updated) | WritingEnd _ (Replacing record updated)
  | TermWriting _ (Replacing record updated) => Some (record, updated)
  | _ => None
  end.

Definition queued_record (r : OperationRequest) : OperationHandle :=
  {| request := r; state := OperationState.QUEUED; handle_result := None; result_present := false;
     failure := None; revision := 0 |}.

Definition stop_target (target : OperationState) : Prop :=
  target = OperationState.CANCELED \/ target = OperationState.INTERRUPTED.

(** What a task knows of its operation's record, which it holds the lock of *)
Definition knows (s : Shared) (t : Task) : Prop :=
  let stored h := store s !! task_id t = Some h in
  match pc t with
  | Starting (Replacing record updated) =>
    stored record /\ follows record updated /\ state updated = OperationState.RUNNING
  | Starting (Landed updated) => stored updated /\ state updated = OperationState.RUNNING
  | Starting Rereading => exists h, stored h /\ terminal (state h) = false
  | WritingEnd _ (Replacing record updated) => stored record /\ follows record updated /\ terminal (state updated) = true
  | WritingEnd _ (Landed updated) => stored updated /\ terminal (state updated) = true
  | TermWriting target t =>
    stop_target target /\
    match t with
    | Replacing record updated => stored record /\ follows record updated /\ terminal (state updated) = true
    | Landed updated => stored updated /\ terminal (state updated) = true
    | Rereading => True
    end
  | TermWaiting target | TermReading target | TermStopping target _ | TermGathering target | TermReadingAgain target =>
    stop_target target
  | _ => True
  end.

(** The store holds each operation under its id. *)
Definition filed (s : Shared) : Prop :=
  forall id h, store s !! id = Some h -> operation_id (request h) = id /\ well_formed h.

(** How the store, the tasks and the deadlines may change, all at one operation *)
Record changes (t : Task) (s s' : Shared) : Prop := {
  changes_store : store s' = store s \/
    (pc t = SubmitCreating /\ store s !! task_id t = None /\
     store s' = <[task_id t := queued_record (task_request t)]> (store s)) \/
    (exists record updated, writes t = Some (record, updated) /\ store s !! task_id t = Some record /\
     store s' = <[task_id t := updated]> (store s));
  changes_tasks : forall id, id <> task_id t \/ executing (pc t) = false ->
    (id ∈ tasks s -> id ∈ tasks s') /\ (id ∈ live s -> id ∈ live s');
  changes_expired : expired s ⊆ expired s'
}.

Lemma changes_refl t s s' : store s' = store s -> tasks s' = tasks s -> live s' = live s -> expired s ⊆ expired s' ->
  changes t s s'.
Proof. intros E1 E2 E3 E4. split; [by left|rewrite E2, E3; by auto|done]. Qed.

Lemma status_same s id record s' : status s id = Some (record, s') ->
  store s !! id = Some record /\ store s' = store s /\ tasks s' = tasks s /\ live s' = live s /\ expired s' = expired s /\
  cancelling s' = cancelling s /\ admission_closed s' = admission_closed s.
Proof. unfold status. destruct (store s !! id); [|done]. by intros [= <- <-]. Qed.

Lemma landed_same s h : store (landed s h) = store s /\ tasks (landed s h) = tasks s /\ live (landed s h) = live s /\
  expired (landed s h) = expired s.
Proof. unfold landed, publish. destruct (terminal _); [|done]. cbn. by destruct (changed s !! _). Qed.

(** Where [_transition] is next, and what it knows *)
Lemma transition_changes ch t tr s s' next :
  filed s -> transition ch (task_id t) tr s = Some (s', next) ->
  (forall record updated, tr = Replacing record updated -> writes t = Some (record, updated) /\ store s !! task_id t = Some record) ->
  changes t s s' /\ tasks s' = tasks s /\ live s' = live s /\
  match tr, next with
  | Replacing record updated, inl (Landed u) => u = updated /\ store s' !! task_id t = Some updated
  | Replacing record updated, inl Rereading => store s' = store s \/ store s' !! task_id t = Some updated
  | Landed updated, inr b => b = true /\ store s' = store s
  | Rereading, inr b => s' = s /\ forall h, store s !! task_id t = Some h -> b = true -> terminal (state h) = true
  | _, _ => False
  end.
Proof.
  intros Hfiled H Hw. unfold transition in H. destruct tr as [record updated|updated|].
  - destruct (Hw _ _ eq_refl) as [Hwr Hst]. destruct (Hfiled _ _ Hst) as [Hid _].
    assert (Hrep : replace s record updated = Some (s <| store := <[task_id t := updated]> (store s) |>)).
    { unfold replace. by rewrite Hid, Hst, Z.eqb_refl. }
    rewrite Hrep in H. assert (Hch : forall s', store s' = <[task_id t := updated]> (store s) -> tasks s' = tasks s ->
      live s' = live s -> expired s' = expired s -> changes t s s').
    { intros s1 E1 E2 E3 E4. split; [right; right; by eauto|rewrite E2, E3; by auto|by rewrite E4]. }
    destruct ch; simplify_eq/=; (split; [first [by apply Hch|by apply changes_refl]|]);
      (split; [done|split; [done|]]); rewrite ?lookup_insert_eq; by auto.
  - destruct ch; simplify_eq/=. destruct (landed_same s updated) as (E1 & E2 & E3 & E4).
    split; [by apply changes_refl; rewrite ?E4|]. by split_and!.
  - destruct ch; simplify_eq/=.
    + destruct (store s !! task_id t) as [h|] eqn:Hst; simplify_eq/=; (split; [by apply changes_refl|]);
        (split_and!; [done..|]); intros ? [=]; by subst.
    + split; [by apply changes_refl|]. by split_and!.
Qed.

(** A task whose runner is at work, or has come back *)
Definition at_work (p : Pc) : bool := match p with InRunner | Ending _ => true | _ => false end.

Definition runs_record (s : Shared) (id : string) : Prop :=
  exists h, store s !! id = Some h /\ state h = OperationState.RUNNING.

Lemma execute_changes ch t s s' p' :
  filed s -> knows s t -> executing (pc t) = true -> execute ch (task_request t) (pc t) s = Some (s', p') ->
  changes t s s' /\ knows s' {| task_request := task_request t; pc := p' |} /\
  ((executing p' = true /\ (task_id t ∈ tasks s -> task_id t ∈ tasks s') /\ (task_id t ∈ live s -> task_id t ∈ live s')) \/
   p' = Ended) /\
  (at_work p' = true -> at_work (pc t) = true /\ store s' = store s \/
     holds t (OperationLock (task_id t)) = true /\ runs_record s' (task_id t)).
Proof.
  intros Hfiled Hk He H. unfold execute in H. fold (task_id t) in H.
  assert (Hfin : forall s1, store s1 = store s -> tasks s1 = tasks s -> live s1 = live s -> expired s1 = expired s ->
    changes t s (finished s1 (task_id t))).
  { intros s1 E1 E2 E3 E4. split; [by left| |by cbn; rewrite E4]. intros id [Hid|?]; [|congruence].
    cbn. rewrite E2, E3. set_solver. }
  assert (Hfin' : forall s1, changes t s s1 -> changes t s (finished s1 (task_id t))).
  { intros s1 [E1 E2 E3]. split; [done| |done]. intros id [Hid|?]; [|congruence].
    cbn. specialize (E2 id (or_introl Hid)). set_solver. }
  assert (Hgone : forall s1, changes t s s1 -> changes t s s1 /\ knows s1 {| task_request := task_request t; pc := Ended |} /\
    ((executing Ended = true /\ (task_id t ∈ tasks s -> task_id t ∈ tasks s1) /\ (task_id t ∈ live s -> task_id t ∈ live s1)) \/
     Ended = Ended) /\ (at_work Ended = true -> at_work (pc t) = true /\ store s1 = store s \/
     holds t (OperationLock (task_id t)) = true /\ runs_record s1 (task_id t))).
  { intros s1 Hc. split; [done|]. split; [done|]. split; [by right|done]. }
  destruct (bool_decide (task_id t ∈ cancelling s)).
  - destruct (pc t) eqn:Hp; try discriminate He; destruct ch; simplify_eq/=;
      (split; [first [by apply Hfin|by apply changes_refl|idtac]|split; [done|split; [by auto|by auto]]]).
    all: split; [by left| |done]; intros id [Hid|E]; [cbn; set_solver|by rewrite Hp in E].
  - destruct (pc t) eqn:Hp; try discriminate He; cbn [execute] in H.
    all: try (destruct ch; simplify_eq/=; repeat case_match; simplify_eq/=;
      (split; [first [by apply Hfin|by apply changes_refl]|split; [done|split; [by auto|by auto]]])).
    + destruct ch; simplify_eq; [|by apply Hgone, Hfin].
      destruct (status s (task_id t)) as [[record s1]|] eqn:Est; [|simplify_eq; by apply Hgone, Hfin].
      apply status_same in Est as (Hst & E1 & E2 & E3 & E4 & _).
      destruct (eqb _ _) eqn:Eq; simplify_eq; [|by apply Hgone, Hfin]. apply eqb_eq in Eq.
      split; [apply changes_refl; [done..|by rewrite E4]|]. unfold knows. cbn [pc task_id task_request]. split.
      { rewrite E1. split; [done|]. split; [|done]. apply follows_start; [by eapply Hfiled|done]. }
      split; [left; by rewrite E2, E3|done].
    + unfold knows in Hk. rewrite Hp in Hk.
      destruct (transition ch (task_id t) t0 s) as [[s1 next]|] eqn:Et; [|done].
      destruct (transition_changes _ _ _ _ _ _ Hfiled Et) as (Hc & E2 & E3 & Hn).
      { intros record updated ->. unfold writes. rewrite Hp. by destruct Hk. }
      destruct next as [tr|[]]; simplify_eq; [| |by apply Hgone, Hfin'].
      * split; [done|]. unfold knows. cbn [pc task_id task_request]. split; [|split; [left; by rewrite E2, E3|done]].
        destruct t0 as [record updated|updated|], tr as [record' updated'|updated'|]; try done.
        -- destruct Hn as [-> Hst]. by destruct Hk as (_ & _ & ?).
        -- destruct Hk as (Hst & (_ & Hnext & _) & Hrun). destruct Hn as [->|Hst'].
           ++ exists record. split; [done|]. rewrite Hrun in Hnext. cbn in Hnext. apply eqb_eq in Hnext. by rewrite Hnext.
           ++ exists updated. by rewrite Hrun.
      * split; [done|]. split; [done|]. split; [left; by rewrite E2, E3|]. intros _. right.
        split; [by unfold holds; rewrite eqb_refl, Hp|].
        destruct t0 as [|updated|]; [done| |].
        -- destruct Hn as [_ E1]. exists updated. by rewrite E1.
        -- destruct Hn as [-> Hn]. destruct Hk as (h & Hst & Hnt). by rewrite (Hn h) in Hnt.
    + destruct ch; simplify_eq; [|by apply Hgone, Hfin].
      destruct (status s (task_id t)) as [[current s1]|] eqn:Est; [|simplify_eq; by apply Hgone, Hfin].
      apply status_same in Est as (Hst & E1 & E2 & E3 & E4 & _).
      destruct (end_of o current) as [updated|] eqn:Eo; simplify_eq; [|by apply Hgone, Hfin].
      split; [apply changes_refl; [done..|by rewrite E4]|]. unfold knows. cbn [pc task_id task_request]. split.
      { rewrite E1. split; [done|]. split; [by eapply follows_end; [eapply Hfiled|]|].
        unfold end_of in Eo. destruct o; by case_match; simplify_eq/=. }
      split; [left; by rewrite E2, E3|done].
    + unfold knows in Hk. rewrite Hp in Hk.
      destruct (transition ch (task_id t) t0 s) as [[s1 next]|] eqn:Et; [|done].
      destruct (transition_changes _ _ _ _ _ _ Hfiled Et) as (Hc & E2 & E3 & Hn).
      { intros record updated ->. unfold writes. rewrite Hp. by destruct Hk. }
      destruct next as [tr|]; simplify_eq; [|by apply Hgone, Hfin'].
      split; [done|]. unfold knows. cbn [pc task_id task_request]. split; [|split; [left; by rewrite E2, E3|done]].
      destruct t0 as [record updated|updated|], tr as [record' updated'|updated'|]; try done.
      destruct Hn as [-> Hst]. by destruct Hk as (_ & _ & ?).
Qed.

(** A terminator that goes on without a task of [_execute] at work *)
Definition clearing (p : Pc) : bool :=
  match p with TermStopping _ false | TermReadingAgain _ | TermWriting _ _ => true | _ => false end.

Lemma cancel_same s id : store (cancel_task s id) = store s /\ tasks (cancel_task s id) = tasks s /\
  live (cancel_task s id) = live s /\ expired (cancel_task s id) = expired s.
Proof. unfold cancel_task. by destruct (bool_decide _). Qed.

Lemma terminate_changes bounded ch t s s' p' :
  filed s -> knows s t -> terminating (pc t) = true ->
  terminate bounded ch (task_request t) (pc t) s = Some (s', p') ->
  changes t s s' /\ knows s' {| task_request := task_request t; pc := p' |} /\ (terminating p' = true \/ p' = Ended) /\
  (clearing p' = true -> clearing (pc t) = true \/ task_id t ∈ expired s' \/ task_id t ∉ tasks s' \/ task_id t ∉ live s').
Proof.
  intros Hfiled Hk He H. unfold terminate in H. fold (task_id t) in H.
  assert (Hgone : forall s1, changes t s s1 -> changes t s s1 /\ knows s1 {| task_request := task_request t; pc := Ended |} /\
    (terminating Ended = true \/ Ended = Ended) /\ (clearing Ended = true -> clearing (pc t) = true \/ task_id t ∈ expired s1 \/ task_id t ∉ tasks s1 \/ task_id t ∉ live s1)).
  { intros s1 Hc. split; [done|]. split; [done|]. split; [by right|done]. }
  assert (Hsame : forall s1, store s1 = store s -> tasks s1 = tasks s -> live s1 = live s -> expired s ⊆ expired s1 -> changes t s s1)
    by (intros; by apply changes_refl).
  destruct (cancel_same s (task_id t)) as (C1 & C2 & C3 & C4).
  unfold knows in Hk. destruct (pc t) eqn:Hp; try discriminate He; cbn zeta beta iota in H.
  - destruct ch; simplify_eq. split; [by apply Hsame|]. split; [done|]. split; [by left|done].
  - destruct ch; simplify_eq; [|by apply Hgone, Hsame].
    destruct (status s (task_id t)) as [[record s1]|] eqn:Est; [|simplify_eq; by apply Hgone, Hsame].
    apply status_same in Est as (Hst & E1 & E2 & E3 & E4 & _).
    destruct (cancel_same s1 (task_id t)) as (D1 & D2 & D3 & D4).
    destruct (terminal _); simplify_eq; [apply Hgone, Hsame; by rewrite ?E4|].
    destruct (eqb _ _); simplify_eq.
    + split; [apply Hsame; by rewrite ?E4|]. split; [done|]. split; [by left|].
      cbn. destruct (bool_decide _) eqn:Eb; [done|]. apply bool_decide_eq_false in Eb. by auto.
    + destruct (bool_decide _) eqn:Eb; simplify_eq.
      * split; [apply Hsame; by rewrite ?D1, ?D2, ?D3, ?D4, ?E4|]. split; [done|]. split; [by left|done].
      * apply bool_decide_eq_false in Eb. split; [apply Hsame; by rewrite ?E4|]. split; [done|]. split; [by left|]. by auto.
  - destruct ch; try done; [..|destruct bounded; [|done]].
    1,2: destruct task; simplify_eq; (split; [apply Hsame; by rewrite ?C1, ?C2, ?C3, ?C4|]); (split; [done|]); (split; [by left|]); by auto.
    simplify_eq. destruct task; cbn [expired];
      (split; [apply Hsame; cbn; rewrite ?C1, ?C2, ?C3, ?C4; [done..|set_solver]|]); (split; [done|]); (split; [by left|]);
      intros _; right; left; cbn; set_solver.
  - destruct ch; try done; [|destruct bounded; [|done]].
    + destruct (bool_decide _) eqn:Eb; simplify_eq. apply bool_decide_eq_false in Eb.
      split; [by apply Hsame|]. split; [done|]. split; [by left|]. by auto.
    + simplify_eq. split; [apply Hsame; cbn; rewrite ?C1, ?C2, ?C3, ?C4; [done..|set_solver]|]. split; [done|]. split; [by left|].
      intros _. right. left. cbn. set_solver.
  - destruct ch; simplify_eq; [|by apply Hgone, Hsame].
    destruct (status s (task_id t)) as [[current s1]|] eqn:Est; [|simplify_eq; by apply Hgone, Hsame].
    apply status_same in Est as (Hst & E1 & E2 & E3 & E4 & _).
    destruct (terminal _) eqn:Eterm; simplify_eq; [apply Hgone, Hsame; by rewrite ?E4|].
    split; [apply Hsame; by rewrite ?E4|]. unfold knows. cbn [pc task_id task_request]. split; [|split; [by left|by auto]].
    split; [done|]. rewrite E1. split; [done|].
    split; [apply follows_stop; [by eapply Hfiled|done|]|]; by destruct Hk as [-> | ->].
  - destruct Hk as [Htarget Hk]. destruct (transition ch (task_id t) t0 s) as [[s1 next]|] eqn:Et; [|done].
    destruct (transition_changes _ _ _ _ _ _ Hfiled Et) as (Hc & E2 & E3 & Hn).
    { intros record updated ->. unfold writes. rewrite Hp. by destruct Hk. }
    destruct next as [tr|]; simplify_eq; [|by apply Hgone].
    split; [done|]. unfold knows. cbn [pc task_id task_request]. split; [|split; [by left|by auto]]. split; [done|].
    destruct t0 as [record updated|updated|], tr as [record' updated'|updated'|]; try done.
    destruct Hn as [-> Hst]. by destruct Hk as (_ & _ & ?).
Qed.

Lemma event_same s id : store (event_of s id).2 = store s /\ tasks (event_of s id).2 = tasks s /\
  live (event_of s id).2 = live s /\ expired (event_of s id).2 = expired s.
Proof. unfold event_of. by destruct (changed s !! id). Qed.

(** Who owns an operation's task: its submission, then the task *)
Definition owner (p : Pc) : bool := match p with SubmitCreated => true | _ => executing p end.

Lemma submit_changes ch t s s' p' spawned :
  submit ch (task_request t) (pc t) s = Some (s', p', spawned) ->
  changes t s s' /\ knows s' {| task_request := task_request t; pc := p' |} /\
  ((spawned = None /\ owner p' = false) \/
   (spawned = None /\ pc t = SubmitCreating /\ store s !! task_id t = None /\ p' = SubmitCreated /\
    store s' !! task_id t = Some (queued_record (task_request t))) \/
   (spawned = Some {| task_request := task_request t; pc := TaskCreated |} /\ pc t = SubmitCreated /\ p' = Ended /\
    task_id t ∈ tasks s' /\ task_id t ∈ live s')) /\
  executing p' = false /\ clearing p' = false.
Proof.
  unfold submit. fold (task_id t). destruct (pc t) eqn:Hp; try done; destruct ch; try done.
  - destruct (admission_closed s); intros [= <- <- <-]; (split; [by apply changes_refl|]); (split; [done|]); (split; [by left|done]).
  - destruct (store s !! task_id t) eqn:Hst; intros [= <- <- <-].
    { split; [by apply changes_refl|]. split; [done|]. by split; [left|]. }
    split; [|split; [done|split; [|done]]].
    + split; [right; left; by auto|by auto|done].
    + right. left. cbn. by rewrite lookup_insert_eq.
  - intros [= <- <- <-]. split; [by apply changes_refl|]. split; [done|]. by split; [left|].
  - destruct (store s !! task_id t) eqn:Hst; intros [= <- <- <-].
    { split; [by apply changes_refl|]. split; [done|]. by split; [left|]. }
    split; [|split; [done|split; [by left|done]]]. split; [right; left; by auto|by auto|done].
  - intros [= <- <- <-]. match goal with |- context [event_of ?x ?y] => destruct (event_same x y) as (E1 & E2 & E3 & E4) end.
    split; [split; cbn; [left; by rewrite E1|rewrite E2, E3; cbn; set_solver|by rewrite E4]|].
    split; [done|]. split; [|done]. right. right. cbn. split_and!; [done..|set_solver|set_solver].
Qed.

Lemma wait_changes ch t s s' p' : wait_result ch (task_request t) (pc t) s = Some (s', p') ->
  changes t s s' /\ owner p' = false /\ terminating p' = false /\
  knows s' {| task_request := task_request t; pc := p' |}.
Proof.
  unfold wait_result. fold (task_id t). destruct (pc t); try done; destruct ch; try done.
  - destruct (event_same s (task_id t)) as (E1 & E2 & E3 & E4).
    destruct (event_of s (task_id t)) as [e s1]. cbn in *. intros [= <- <-].
    split; [apply changes_refl; by rewrite ?E4|done].
  - destruct (status s (task_id t)) as [[record s1]|] eqn:Est; intros [= <- <-].
    + apply status_same in Est as (_ & E1 & E2 & E3 & E4 & _). split; [apply changes_refl; by rewrite ?E4|]. by destruct (terminal _).
    + split; [by apply changes_refl|done].
  - intros [= <- <-]. split; [by apply changes_refl|done].
  - destruct (bool_decide _); intros [= <- <-]. split; [by apply changes_refl|done].
Qed.

(** What a task's step does, whoever it is *)
Record stepped (t t' : Task) (spawned : option Task) (s s' : Shared) : Prop := {
  stepped_request : task_request t' = task_request t;
  stepped_changes : changes t s s';
  stepped_knows : knows s' t';
  stepped_owner : owner (pc t') = true ->
    (executing (pc t) = true /\ executing (pc t') = true /\ (task_id t ∈ tasks s -> task_id t ∈ tasks s') /\
     (task_id t ∈ live s -> task_id t ∈ live s')) \/
    (pc t = SubmitCreating /\ store s !! task_id t = None /\ pc t' = SubmitCreated /\
     store s' !! task_id t = Some (queued_record (task_request t)));
  stepped_spawned : spawned = None \/
    (spawned = Some {| task_request := task_request t; pc := TaskCreated |} /\ pc t = SubmitCreated /\ pc t' = Ended /\
     task_id t ∈ tasks s' /\ task_id t ∈ live s');
  stepped_at_work : at_work (pc t') = true -> at_work (pc t) = true /\ store s' = store s \/
    holds t (OperationLock (task_id t)) = true /\ runs_record s' (task_id t);
  stepped_clearing : clearing (pc t') = true ->
    clearing (pc t) = true \/ task_id t ∈ expired s' \/ task_id t ∉ tasks s' \/ task_id t ∉ live s'
}.

Lemma executing_other p : executing p = true -> clearing p = false /\ owner p = true.
Proof. by destruct p. Qed.

Lemma terminating_other p : terminating p = true -> owner p = false /\ at_work p = false.
Proof. by destruct p. Qed.

Lemma not_executing p : executing p = false -> at_work p = false.
Proof. by destruct p. Qed.

Lemma not_terminating p : terminating p = false -> clearing p = false.
Proof. by destruct p as []. Qed.

Lemma not_owner p : owner p = false -> at_work p = false.
Proof. by destruct p. Qed.

Lemma resume_stepped ch t s s' t' spawned : filed s -> knows s t ->
  resume ch t s = Some (s', t', spawned) -> stepped t t' spawned s s'.
Proof.
  intros Hfiled Hk (p' & -> & [(He & Hp & ->)|[(Ht & -> & Hp)|[Hp|(Hp & ->)]]])%resume_cases; cbn [pc task_request].
  - destruct (execute_changes _ _ _ _ _ Hfiled Hk He Hp) as (Hc & Hk' & Hexec & Hwork).
    split; cbn [pc task_request]; [done..| |by left|by auto|].
    + intros Ho. left. destruct Hexec as [(? & ? & ?)|E]; [by auto|by rewrite E in Ho].
    + intros Hcl. destruct Hexec as [(Hp' & _)|E]; [|by rewrite E in Hcl]. apply executing_other in Hp' as [E _]. congruence.
  - destruct (terminate_changes _ _ _ _ _ _ Hfiled Hk Ht Hp) as (Hc & Hk' & Hterm & Hcl).
    split; cbn [pc task_request]; [done..| |by left| |by auto].
    + intros Ho. destruct Hterm as [Hterm|E]; [|by rewrite E in Ho]. apply terminating_other in Hterm as [? _]. congruence.
    + intros Ha. destruct Hterm as [Hterm|E]; [|by rewrite E in Ha]. apply terminating_other in Hterm as [_ ?]. congruence.
  - destruct (submit_changes _ _ _ _ _ _ Hp) as (Hc & Hk' & Hcase & Hx & Hcl).
    split; cbn [pc task_request]; [done..| | | |].
    + intros Ho. right. destruct Hcase as [[_ Ho']|[(_ & ? & ? & ? & ?)|(_ & _ & E & _)]]; [congruence|by auto|by rewrite E in Ho].
    + destruct Hcase as [[-> _]|[(-> & _)|(-> & ? & E & ? & ?)]]; [by left..|right; by split_and!].
    + intros Ha. by rewrite (not_executing _ Hx) in Ha.
    + intros Hcl'. congruence.
  - destruct (wait_changes _ _ _ _ _ Hp) as (Hc & Ho & Hte & Hk').
    split; cbn [pc task_request]; rewrite ?Ho; [done..| |by left| |]; [done| |].
    + intros Ha. by rewrite (not_owner _ Ho) in Ha.
    + intros Hcl. by rewrite (not_terminating _ Hte) in Hcl.
Qed.

(** ** The invariant *)

Record inv (c : Coordinator) : Prop := {
  inv_exclusive : exclusive c;
  inv_filed : filed (shared c);
  inv_owned : forall i t, running c !! i = Some t -> owner (pc t) = true ->
    exists h, store (shared c) !! task_id t = Some h /\ request h = task_request t;
  inv_unique : forall i j t u, running c !! i = Some t -> running c !! j = Some u ->
    owner (pc t) = true -> owner (pc u) = true -> task_id t = task_id u -> i = j;
  inv_live : forall i t, running c !! i = Some t -> executing (pc t) = true ->
    task_id t ∈ tasks (shared c) /\ task_id t ∈ live (shared c);
  inv_knows : forall i t, running c !! i = Some t -> knows (shared c) t;
  inv_running : forall i t, running c !! i = Some t -> at_work (pc t) = true ->
    task_id t ∈ expired (shared c) \/ runs_record (shared c) (task_id t);
  inv_clear : forall i j t u, running c !! i = Some t -> running c !! j = Some u ->
    clearing (pc t) = true -> at_work (pc u) = true -> task_id t = task_id u -> task_id t ∈ expired (shared c)
}.

(** A task that writes, or knows what is stored, holds the operation's lock. *)
Lemma writes_holds t w : writes t = Some w -> holds t (OperationLock (task_id t)) = true.
Proof. unfold writes, holds. rewrite eqb_refl. by destruct (pc t) as [| | | | | | | | |[]| | | |? []| | | | | |? []| | | |]. Qed.

Lemma clearing_holds t : clearing (pc t) = true -> holds t (OperationLock (task_id t)) = true.
Proof. unfold holds. rewrite eqb_refl. by destruct (pc t). Qed.

Lemma knows_same s s' t : knows s t ->
  (holds t (OperationLock (task_id t)) = true -> store s !! task_id t <> None ->
   store s' !! task_id t = store s !! task_id t) -> knows s' t.
Proof.
  unfold knows, holds. rewrite eqb_refl. cbn [andb].
  destruct (pc t) as [| | | | | | | | |[]| | | |? []| | | | | |? []| | | |]; cbn; try done; intros Hk Hs;
    (rewrite Hs; [done|done|]); naive_solver.
Qed.

Lemma at_work_executing p : at_work p = true -> executing p = true.
Proof. by destruct p. Qed.

Lemma executing_owner p : executing p = true -> owner p = true.
Proof. by destruct p. Qed.

(** The records after a step *)
Lemma changed_record t s s' : filed s -> knows s t -> changes t s s' ->
  filed s' /\
  forall id h, store s !! id = Some h -> exists h', store s' !! id = Some h' /\ request h' = request h /\
    (h' = h \/ (id = task_id t /\ writes t = Some (h, h') /\ follows h h')).
Proof.
  intros Hfiled Hk [[E|[(_ & Hn & E)|(record & updated & Hw & Hst & E)]] _ _].
  - split; [intros id h; rewrite E; apply Hfiled|]. intros id h Hh. rewrite E. eauto 10.
  - split.
    + intros id h. rewrite E. intros [[<- <-]|[? ?]]%lookup_insert_Some; [by split|by apply Hfiled].
    + intros id h Hh. rewrite E. exists h. rewrite lookup_insert_ne; [by auto|]. intros <-. congruence.
  - assert (Hf : follows record updated).
    { unfold writes in Hw. unfold knows in Hk.
      destruct (pc t) as [| | | | | | | | |[]| | | |? []| | | | | |? []| | | |]; try done; simplify_eq; naive_solver. }
    destruct (Hfiled _ _ Hst) as [Hid _]. pose proof Hf as (Hreq & _ & _ & Hwf). split.
    + intros id h. rewrite E. intros [[<- <-]|[? ?]]%lookup_insert_Some; [|by apply Hfiled]. rewrite Hreq. by split.
    + intros id h Hh. rewrite E. destruct (decide (id = task_id t)) as [->|Hne].
      * rewrite Hst in Hh. injection Hh as <-. exists updated. rewrite lookup_insert_eq. by auto 10.
      * exists h. rewrite lookup_insert_ne by done. by auto.
Qed.

(** The tasks after a step of task [i]: it, the others, and the one it created *)
Section Step.
Context (c : Coordinator) (I : inv c) (i : nat) (t t' : Task) (spawned : option Task) (s' : Shared) (j : nat).
Hypothesis (Hi : running c !! i = Some t) (Hj : running c !! j = None) (Hij : i <> j).
Hypothesis (F : stepped t t' spawned (shared c) s').
Hypothesis (Hlocks : forall l, holds t' l = true -> holds t l = false -> free policy c l).
Let c' : Coordinator := {| shared := s'; running :=
  match spawned with Some task => <[j := task]> (<[i := t']> (running c)) | None => <[i := t']> (running c) end |}.

Lemma step_cases k w : running c' !! k = Some w ->
  (k = i /\ w = t') \/ (k <> i /\ k <> j /\ running c !! k = Some w) \/
  (k = j /\ spawned = Some w /\ w = {| task_request := task_request t; pc := TaskCreated |} /\ pc t = SubmitCreated /\ pc t' = Ended).
Proof using Hi Hj Hij F.
  cbn. destruct (stepped_spawned _ _ _ _ _ F) as [->|(-> & Hp & Hp' & _)].
  - intros [[<- <-]|[? Hw]]%lookup_insert_Some; [by left|]. right. left. split; [done|]. split; [|done]. congruence.
  - intros [[<- <-]|[? [[<- <-]|[? Hw]]%lookup_insert_Some]]%lookup_insert_Some; [right; right; by auto|by left|].
    right. left. by auto.
Qed.

Lemma step_id : task_id t' = task_id t.
Proof using F. unfold task_id. by rewrite (stepped_request _ _ _ _ _ F). Qed.

Lemma step_records : filed s' /\
  forall id h, store (shared c) !! id = Some h -> exists h', store s' !! id = Some h' /\ request h' = request h /\
    (h' = h \/ (id = task_id t /\ writes t = Some (h, h') /\ follows h h')).
Proof using I Hi F.
  apply changed_record; [apply (inv_filed _ I)|by eapply inv_knows|by apply F].
Qed.

Lemma step_owned k w : running c' !! k = Some w -> owner (pc w) = true ->
  exists h, store s' !! task_id w = Some h /\ request h = task_request w.
Proof using I Hi Hj Hij F.
  assert (Hold : forall k u, running c !! k = Some u -> owner (pc u) = true ->
    exists h, store s' !! task_id u = Some h /\ request h = task_request u).
  { intros k' u Hu Ho. destruct (inv_owned _ I _ _ Hu Ho) as (h & Hh & Hr).
    destruct (proj2 step_records _ _ Hh) as (h' & Hh' & Hr' & _). exists h'. by rewrite Hr'. }
  intros [[-> ->]|[(_ & _ & Hw)|(-> & _ & -> & Hp & _)]]%step_cases Ho.
  - rewrite step_id, (stepped_request _ _ _ _ _ F).
    destruct (stepped_owner _ _ _ _ _ F Ho) as [(He & _)|(_ & _ & _ & Hst)]; [|by eexists].
    apply (Hold i); [done|by apply executing_owner].
  - by eapply Hold.
  - apply (Hold i t); [done|by rewrite Hp].
Qed.

Lemma step_unique k1 k2 u1 u2 : running c' !! k1 = Some u1 -> running c' !! k2 = Some u2 ->
  owner (pc u1) = true -> owner (pc u2) = true -> task_id u1 = task_id u2 -> k1 = k2.
Proof using I Hi Hj Hij F.
  assert (Hnew : forall k u, k <> i -> running c !! k = Some u -> owner (pc u) = true -> owner (pc t') = true ->
    task_id t = task_id u -> False).
  { intros k u Hk Hu Ho Ho' Hid. destruct (stepped_owner _ _ _ _ _ F Ho') as [(He & _)|(_ & Hn & _)].
    - apply Hk. apply (inv_unique _ I k i u t); [done..|by apply executing_owner|done].
    - destruct (inv_owned _ I _ _ Hu Ho) as (h & Hh & _). congruence. }
  assert (Hsp : forall k u, k <> i -> running c !! k = Some u -> owner (pc u) = true -> pc t = SubmitCreated ->
    task_id t = task_id u -> False).
  { intros k u Hk Hu Ho Hp Hid. apply Hk. apply (inv_unique _ I k i u t); [done..|by rewrite Hp|done]. }
  intros [[-> ->]|[(? & _ & H1)|(-> & _ & -> & Hp & Hp')]]%step_cases
    [[-> ->]|[(? & _ & H2)|(-> & _ & -> & Hp2 & Hp2')]]%step_cases Ho1 Ho2 Hid; rewrite ?step_id in Hid; try done.
  all: try (exfalso; rewrite ?Hp', ?Hp2' in *; done).
  all: try by (exfalso; eapply Hnew; eauto).
  all: try by (exfalso; eapply Hsp; eauto).
  by eapply (inv_unique _ I).
Qed.

Lemma step_live k w : running c' !! k = Some w -> executing (pc w) = true ->
  task_id w ∈ tasks s' /\ task_id w ∈ live s'.
Proof using I Hi Hj Hij F.
  intros [[-> ->]|[(Hk & _ & Hw)|(-> & Hs & -> & Hp & _)]]%step_cases He.
  - rewrite step_id. destruct (stepped_owner _ _ _ _ _ F (executing_owner _ He)) as [(Ht & _ & H1 & H2)|(_ & _ & E & _)];
      [|by rewrite E in He]. destruct (inv_live _ I _ _ Hi Ht). by auto.
  - destruct (inv_live _ I _ _ Hw He) as [H1 H2].
    destruct (changes_tasks _ _ _ (stepped_changes _ _ _ _ _ F) (task_id w)) as [H3 H4]; [|by auto].
    destruct (decide (task_id w = task_id t)) as [E|]; [right|by left].
    destruct (executing (pc t)) eqn:Ht; [|done]. exfalso. apply Hk.
    by apply (inv_unique _ I k i w t); [done|done|apply executing_owner..|].
  - destruct (stepped_spawned _ _ _ _ _ F) as [E|(_ & _ & _ & ?)]; [congruence|done].
Qed.

(** A task of another operation's lock: what it knows stays *)
Lemma step_knows k w : running c' !! k = Some w -> knows s' w.
Proof using I Hi Hj Hij F.
  intros [[-> ->]|[(Hk & _ & Hw)|(-> & _ & -> & _)]]%step_cases; [by apply F| |done].
  apply (knows_same (shared c)); [by eapply inv_knows|]. intros Hh Hn.
  destruct (changes_store _ _ _ (stepped_changes _ _ _ _ _ F)) as [->|[(_ & Hnone & ->)|(record & updated & Hwr & Hst & ->)]]; [done|..].
  - apply lookup_insert_ne. intros E. by rewrite <- E in Hn.
  - apply lookup_insert_ne. intros E. apply Hk.
    apply (inv_exclusive _ I (OperationLock (task_id w)) k i w t); [done..|]. rewrite <- E. by eapply writes_holds.
Qed.

Lemma step_running k w : running c' !! k = Some w -> at_work (pc w) = true ->
  task_id w ∈ expired s' \/ runs_record s' (task_id w).
Proof using I Hi Hj Hij F.
  assert (Hexp : forall id, id ∈ expired (shared c) -> id ∈ expired s') by (intros id; apply F).
  intros [[-> ->]|[(Hk & _ & Hw)|(-> & _ & -> & _)]]%step_cases Ha; [| |done].
  - rewrite step_id. destruct (stepped_at_work _ _ _ _ _ F Ha) as [[Ht E]|[_ ?]]; [|by right].
    destruct (inv_running _ I _ _ Hi Ht) as [?|Hr]; [left; by auto|right]. unfold runs_record. by rewrite E.
  - destruct (inv_running _ I _ _ Hw Ha) as [?|(h & Hh & Hr)]; [left; by auto|].
    destruct (proj2 step_records _ _ Hh) as (h' & Hh' & _ & [->|(Hid & Hwr & Hf)]); [right; by exists h|].
    pose proof (executing_owner _ (at_work_executing _ Ha)) as Ho.
    unfold writes in Hwr. destruct (executing (pc t)) eqn:Het.
    + exfalso. apply Hk. by apply (inv_unique _ I k i w t); [..|apply executing_owner|].
    + destruct (pc t) as [| | | | | | | | |[]| | | |? []| | | | | |target []| | | |] eqn:Hp; try discriminate.
      left. rewrite Hid. apply Hexp. apply (inv_clear _ I i k t w); [done..|by rewrite Hp|done|done].
Qed.

Lemma step_clear k1 k2 u1 u2 : running c' !! k1 = Some u1 -> running c' !! k2 = Some u2 ->
  clearing (pc u1) = true -> at_work (pc u2) = true -> task_id u1 = task_id u2 -> task_id u1 ∈ expired s'.
Proof using I Hi Hj Hij F.
  intros H1 H2 Hcl Ha Hid. pose proof (step_live _ _ H2 (at_work_executing _ Ha)) as [Htasks Hlive].
  assert (Hexp : forall id, id ∈ expired (shared c) -> id ∈ expired s') by (intros id; apply F).
  apply step_cases in H1 as [[-> ->]|[(Hk1 & _ & H1)|(-> & _ & -> & _)]]; [| |done];
  apply step_cases in H2 as [[-> ->]|[(Hk2 & _ & H2)|(-> & _ & -> & _)]]; [| |done| | |done].
  - apply at_work_executing, executing_other in Ha as [Ha _]. congruence.
  - rewrite step_id in *. destruct (stepped_clearing _ _ _ _ _ F Hcl) as [Ht|[?|[?|?]]]; [|done|congruence|congruence].
    apply Hexp. by apply (inv_clear _ I i k2 t u2).
  - rewrite step_id in *. destruct (stepped_at_work _ _ _ _ _ F Ha) as [[Ht _]|[Ht _]].
    + apply Hexp. by apply (inv_clear _ I k1 i u1 t).
    + exfalso. apply Hk1. apply (inv_exclusive _ I (OperationLock (task_id t)) k1 i u1 t); [done..| |done].
      rewrite <- Hid. by apply clearing_holds.
  - apply Hexp. by apply (inv_clear _ I k1 k2 u1 u2).
Qed.

End Step.

Lemma asked_other p : asked p = true -> owner p = false /\ clearing p = false /\ at_work p = false /\ executing p = false.
Proof. by destruct p. Qed.

Lemma asked_knows s t : asked (pc t) = true -> knows s t.
Proof.
  unfold knows. destruct (pc t); try done. cbn. unfold among. rewrite bool_decide_eq_true.
  unfold stop_target. set_solver.
Qed.

Lemma inv_coordinator_step c c' : inv c -> step c c' -> inv c'.
Proof.
  intros I Hstep. pose proof (exclusive_step _ _ (inv_exclusive _ I) Hstep) as Hex.
  destruct Hstep as [c i t Hi Ha|c Hf|c i t ch s t' spawned j Hi Hr Hl Hj Hij].
  - destruct (asked_other _ Ha) as (Ho & Hcl & Haw & Hx). split; [done|by apply I|..]; cbn [shared running].
    + intros k u [[<- <-]|[_ Hu]]%lookup_insert_Some; [congruence|by eapply inv_owned].
    + intros k1 k2 u1 u2 [[<- <-]|[_ H1]]%lookup_insert_Some [[<- <-]|[_ H2]]%lookup_insert_Some; try congruence.
      by eapply inv_unique.
    + intros k u [[<- <-]|[_ Hu]]%lookup_insert_Some; [congruence|by eapply inv_live].
    + intros k u [[<- <-]|[_ Hu]]%lookup_insert_Some; [by apply asked_knows|by eapply inv_knows].
    + intros k u [[<- <-]|[_ Hu]]%lookup_insert_Some; [congruence|by eapply inv_running].
    + intros k1 k2 u1 u2 [[<- <-]|[_ H1]]%lookup_insert_Some [[<- <-]|[_ H2]]%lookup_insert_Some; try congruence.
      by eapply inv_clear.
  - destruct I. by split.
  - pose proof (resume_stepped _ _ _ _ _ _ (inv_filed _ I) (inv_knows _ I _ _ Hi) Hr) as F.
    split; [done|..]; cbn [shared running].
    + by eapply step_records.
    + by eapply step_owned.
    + by eapply step_unique.
    + by eapply step_live.
    + by eapply step_knows.
    + by eapply step_running.
    + by eapply step_clear.
Qed.

(** ** From the start *)

(** What [start] makes of a record that it finds *)
Definition orphaned (record : OperationHandle) : OperationHandle :=
  if terminal (state record) then record else moved record OperationState.INTERRUPTED None false None.

(** A state in which nothing waits and nothing runs *)
Definition idle (s : Shared) : Prop :=
  changed s = ∅ /\ signaled s = ∅ /\ tasks s = ∅ /\ live s = ∅ /\ expired s = ∅ /\ lost s = ∅.

Lemma orphaned_well_formed h : well_formed h -> well_formed (orphaned h).
Proof.
  intros Hw. unfold orphaned. destruct (terminal (state h)) eqn:E; [done|].
  by apply (follows_stop h OperationState.INTERRUPTED).
Qed.

Lemma start_record_spec s id record : filed s -> idle s -> store s !! id = Some record ->
  exists s', start_record s record = Some s' /\ store s' = <[id := orphaned record]> (store s) /\ idle s'.
Proof.
  intros Hfiled Hidle Hst. destruct (Hfiled _ _ Hst) as [Hid Hw]. unfold start_record, orphaned.
  destruct (terminal (state record)); [exists s; by rewrite insert_id|]. unfold replace. rewrite Hid. cbn [store update].
  rewrite Hst, Z.eqb_refl. eexists. split; [done|]. destruct Hidle as (E1 & E2 & E3 & E4 & E5 & E6).
  unfold landed, publish. cbn. unfold idle. rewrite E1, lookup_empty. by split_and!.
Qed.

(** [start] interrupts what a stop of the process orphaned, and leaves what had ended. *)
Lemma start_spec records s : filed s -> idle s -> NoDup records.*1 ->
  (forall id h, (id, h) ∈ records -> store s !! id = Some h) ->
  exists s', start s (map snd records) = Some s' /\ filed s' /\ idle s' /\
    forall id, store s' !! id = if bool_decide (id ∈ records.*1) then option_map orphaned (store s !! id) else store s !! id.
Proof.
  revert s. induction records as [|[id h] records IH]; intros s Hfiled Hidle Hnd Hin; [by exists s|].
  cbn [map fst snd start fmap list_fmap] in *. apply NoDup_cons in Hnd as [Hni Hnd].
  assert (Hst : store s !! id = Some h) by (apply Hin; by left).
  destruct (start_record_spec s id h Hfiled Hidle Hst) as (s1 & -> & E1 & Hidle1).
  destruct (IH s1) as (s' & Hs' & Hf' & Hi' & Hstore); [|done|done| |].
  - intros id' h'. rewrite E1. intros [[<- <-]|[? ?]]%lookup_insert_Some; [|by apply Hfiled].
    destruct (Hfiled _ _ Hst). split; [by unfold orphaned; destruct (terminal _)|by apply orphaned_well_formed].
  - intros id' h' Hin'. rewrite E1, lookup_insert_ne; [apply Hin; by right|]. intros <-. apply Hni.
    apply list_elem_of_fmap. by exists (id, h').
  - exists s'. split; [done|]. split; [done|]. split; [done|]. intros id'. rewrite Hstore, E1.
    destruct (decide (id' = id)) as [->|Hne].
    + rewrite bool_decide_eq_false_2, bool_decide_eq_true_2, lookup_insert_eq, Hst by (done || set_solver). done.
    + rewrite lookup_insert_ne by done. by rewrite (bool_decide_ext (id' ∈ records.*1) (id' ∈ id :: records.*1)) by set_solver.
Qed.

Lemma reachable_start stored s :
  (forall id h, stored !! id = Some h -> operation_id (request h) = id /\ well_formed h) ->
  start (new_coordinator stored) (map snd (map_to_list stored)) = Some s ->
  filed s /\ idle s /\ forall id, store s !! id = option_map orphaned (stored !! id).
Proof.
  intros Hfiled Hs. destruct (start_spec (map_to_list stored) (new_coordinator stored)) as (s' & Hs' & Hf & Hi & Hstore); try done.
  - apply NoDup_fst_map_to_list.
  - intros id h Hin. by apply elem_of_map_to_list.
  - rewrite Hs in Hs'. injection Hs' as <-. split; [done|]. split; [done|]. intros id. rewrite Hstore. cbn.
    destruct (bool_decide _) eqn:E; [done|]. apply bool_decide_eq_false in E.
    destruct (stored !! id) as [h|] eqn:Hid; [|done]. exfalso. apply E, list_elem_of_fmap. exists (id, h).
    split; [done|]. by apply elem_of_map_to_list.
Qed.

Context (stored : gmap string OperationHandle).
Hypothesis stored_filed : forall id h, stored !! id = Some h -> operation_id (request h) = id /\ well_formed h.

Hypothesis policy_valid : validate_policy policy = Ok tt.

Lemma reachable_inv c : reachable policy stored c -> inv c /\ admitted c.
Proof.
  induction 1 as [s Hs|c c' _ [I A] Hstep]; [|split; [by eapply inv_coordinator_step|by eapply admitted_step]].
  apply reachable_start in Hs as (Hf & Hi & _); [|done]. split.
  - by split.
  - unfold admitted, holders. cbn [running]. rewrite map_filter_empty, map_size_empty.
    revert policy_valid. unfold validate_policy. destruct (match max_await_timeout_s policy with Some t => _ | None => true end); [|done].
    destruct (max_in_flight policy) as [n|]; [|done]. destruct (0 <? n) eqn:E; [lia|done].
Qed.

Lemma reachable_later c c' : reachable policy stored c -> rtc step c c' -> reachable policy stored c'.
Proof. intros Hc. induction 1 as [|x y z Hs _ IH] in Hc |- *; [done|]. apply IH. by eapply reach_step. Qed.

(** C29: work is exclusive: two operations that share a concurrency key never run at once, and no more
    than [max_in_flight] run at all, whatever is submitted and cancelled and whatever fails. *)
Theorem work_is_exclusive c :
  reachable policy stored c ->
  (forall i j t u, running c !! i = Some t -> running c !! j = Some u -> at_work (pc t) = true -> at_work (pc u) = true ->
    concurrency_key (task_request t) = concurrency_key (task_request u) -> i = j) /\
  (forall n, max_in_flight policy = Some n ->
    Z.of_nat (size (filter (fun it => at_work (pc it.2) = true) (running c))) <= n).
Proof.
  intros [I A]%reachable_inv. split.
  - intros i j t u Ht Hu Hat Hau Hkey.
    apply (inv_exclusive _ I (KeyLock (concurrency_key (task_request t))) i j t u); [done..| |].
    + unfold holds. rewrite eqb_refl. by destruct (pc t).
    + unfold holds. rewrite Hkey, eqb_refl. by destruct (pc u).
  - intros n Hn. unfold admitted in A. rewrite Hn in A. etransitivity; [|exact A].
    apply Nat2Z.inj_le, map_subseteq_size, map_filter_subseteq_ext. intros i t _. cbn. by destruct (pc t).
Qed.

Lemma step_moves c c' id : inv c -> step c c' ->
  store (shared c') !! id = store (shared c) !! id \/
  (store (shared c) !! id = None /\ exists r, operation_id r = id /\ store (shared c') !! id = Some (queued_record r)) \/
  exists h h', store (shared c) !! id = Some h /\ store (shared c') !! id = Some h' /\ follows h h'.
Proof.
  intros I Hstep. destruct Hstep as [| |c0 i t ch s t' spawned j Hi Hr _ _ _]; [by left..|].
  pose proof (resume_stepped _ _ _ _ _ _ (inv_filed _ I) (inv_knows _ I _ _ Hi) Hr) as F.
  destruct (store (shared c0) !! id) as [h|] eqn:Hst.
  - destruct (changed_record t _ _ (inv_filed _ I) (inv_knows _ I _ _ Hi) (stepped_changes _ _ _ _ _ F)) as [_ Hch].
    destruct (Hch _ _ Hst) as (h' & Hh' & _ & [->|(_ & _ & Hf)]); [by left|]. right. right. by exists h, h'.
  - destruct (changes_store _ _ _ (stepped_changes _ _ _ _ _ F)) as [E|[(_ & Hn & E)|(record & updated & _ & Hn & E)]]; cbn [shared].
    + left. by rewrite E.
    + destruct (decide (task_id t = id)) as [<-|Hne]; [right; left|left].
      * split; [done|]. exists (task_request t). by rewrite E, lookup_insert_eq.
      * by rewrite E, lookup_insert_ne.
    + left. rewrite E, lookup_insert_ne; [done|]. intros <-. congruence.
Qed.

(** A record only moves forward: from its submission or its interruption at the start, along the
    edges QUEUED to RUNNING to an end or straight to an end, one revision at a time, keeping its
    request and always well formed; and once it has ended nothing changes it. *)
Theorem records_move_forward c c' id h :
  reachable policy stored c -> rtc step c c' -> store (shared c) !! id = Some h ->
  exists h', store (shared c') !! id = Some h' /\ rtc follows h h' /\ request h' = request h /\ well_formed h' /\
    (terminal (state h) = true -> h' = h).
Proof.
  intros Hc Hsteps. revert h. induction Hsteps as [c|c c1 c' Hstep _ IH]; intros h Hh.
  - destruct (reachable_inv _ Hc) as [I _]. exists h. split_and!; [done..|by eapply inv_filed|done].
  - destruct (reachable_inv _ Hc) as [I _].
    assert (exists h1, store (shared c1) !! id = Some h1 /\ (h1 = h \/ follows h h1)) as (h1 & Hh1 & Hrel).
    { destruct (step_moves _ _ id I Hstep) as [E|[(E & _)|(g & g' & E & E' & Hf)]]; [by exists h; rewrite E; auto|congruence|].
      exists g'. rewrite Hh in E. injection E as <-. by auto. }
    destruct (IH (reach_step _ _ _ _ Hc Hstep) h1 Hh1) as (h' & Hh' & Hr & Hreq & Hw & Hterm). exists h'. split; [done|].
    destruct Hrel as [->|Hf]; [by split_and!|]. pose proof Hf as (Hreq' & Hnext & _).
    split; [by eapply rtc_l|]. split; [by rewrite Hreq|]. split; [done|]. intros Hend.
    exfalso. by destruct (state h), (state h1).
Qed.

(** Deadlines pass only when the policy has one. *)
Lemma transition_expired ch id tr s s' next : transition ch id tr s = Some (s', next) -> expired s' = expired s.
Proof.
  unfold transition, replace. destruct tr, ch; try done; repeat case_match; intros; simplify_eq; try done.
  all: by destruct (landed_same s updated) as (_ & _ & _ & ?).
Qed.

Lemma execute_expired ch r p s s' p' : execute ch r p s = Some (s', p') -> expired s' = expired s.
Proof.
  unfold execute. destruct (bool_decide _); destruct p; try done; try (destruct ch; try done; try case_match; by intros [= <- _]).
  - destruct ch; try done; [|by intros [= <- _]]. destruct (status _ _) as [[record s1]|] eqn:E; [|by intros [= <- _]].
    apply status_same in E as (_ & _ & _ & _ & E & _). by destruct (eqb _ _); intros [= <- _].
  - destruct (transition _ _ _ _) as [[s1 next]|] eqn:E; [|done]. apply transition_expired in E. by destruct next as [|[]]; intros [= <- _].
  - destruct ch; try done; [|by intros [= <- _]]. destruct (status _ _) as [[current s1]|] eqn:E; [|by intros [= <- _]].
    apply status_same in E as (_ & _ & _ & _ & E & _). by destruct (end_of _ _); intros [= <- _].
  - destruct (transition _ _ _ _) as [[s1 next]|] eqn:E; [|done]. apply transition_expired in E. by destruct next; intros [= <- _].
Qed.

Lemma terminate_expired ch r p s s' p' : terminate false ch r p s = Some (s', p') -> expired s' = expired s.
Proof.
  assert (C : forall s id, expired (cancel_task s id) = expired s) by (intros; apply cancel_same).
  unfold terminate. destruct p; try done.
  - destruct ch; try done; by intros [= <- _].
  - destruct ch; try done; [|by intros [= <- _]]. destruct (status _ _) as [[record s1]|] eqn:E; [|by intros [= <- _]].
    apply status_same in E as (_ & _ & _ & _ & E & _).
    repeat case_match; intros [= <- _]; by rewrite ?C.
  - destruct ch; try done; destruct task; intros [= <- _]; by rewrite ?C.
  - destruct ch; try done; destruct (bool_decide _); try done; intros [= <- _]; by rewrite ?C.
  - destruct ch; try done; [|by intros [= <- _]]. destruct (status _ _) as [[current s1]|] eqn:E; [|by intros [= <- _]].
    apply status_same in E as (_ & _ & _ & _ & E & _). by destruct (terminal _); intros [= <- _].
  - destruct (transition _ _ _ _) as [[s1 next]|] eqn:E; [|done]. apply transition_expired in E. by destruct next; intros [= <- _].
Qed.

Lemma submit_expired ch r p s s' p' spawned : submit ch r p s = Some (s', p', spawned) -> expired s' = expired s.
Proof.
  assert (E : forall s id, expired (event_of s id).2 = expired s) by (intros; apply event_same).
  unfold submit. destruct p; try done; destruct ch; try done.
  - case_match; by intros [= <- _ _].
  - case_match; by intros [= <- _ _].
  - by intros [= <- _ _].
  - case_match; by intros [= <- _ _].
  - intros [= <- _ _]. cbn. by rewrite E.
Qed.

Lemma resume_unbounded ch t s s' t' spawned : Operations.resume false ch t s = Some (s', t', spawned) -> expired s' = expired s.
Proof.
  assert (E : forall s id, expired (event_of s id).2 = expired s) by (intros; apply event_same).
  unfold Operations.resume. destruct (pc t); try done.
  1-3: destruct (submit _ _ _ _) as [[[? ?] ?]|] eqn:Ex; [|done]; intros [= <- _ _]; by eapply submit_expired.
  1-11: destruct (execute _ _ _ _) as [[? ?]|] eqn:Ex; [|done]; intros [= <- _ _]; by eapply execute_expired.
  1-6: destruct (terminate _ _ _ _ _) as [[? ?]|] eqn:Ex; [|done]; intros [= <- _ _]; by eapply terminate_expired.
  - unfold wait_result. destruct ch; try done. specialize (E s (operation_id (task_request t))).
    destruct (event_of _ _) as [e s1]. by intros [= <- _ _].
  - unfold wait_result. destruct ch; try done; [|by intros [= <- _ _]].
    destruct (status _ _) as [[record s1]|] eqn:Es; [|by intros [= <- _ _]].
    apply status_same in Es as (_ & _ & _ & _ & Es & _). by intros [= <- _ _].
  - unfold wait_result. destruct ch; try done. destruct (bool_decide _); [|done]. by intros [= <- _ _].
Qed.

Lemma reachable_unbounded c : cancellation_timeout_s policy = None -> reachable policy stored c -> expired (shared c) = ∅.
Proof.
  intros Hn. induction 1 as [s Hs|c c' _ IH Hstep].
  - apply reachable_start in Hs as (_ & (_ & _ & _ & _ & E & _) & _); done.
  - destruct Hstep as [| |c i t ch s t' spawned j Hi Hr _ _ _]; [done..|]. cbn [shared]. rewrite Hn in Hr.
    by rewrite (resume_unbounded _ _ _ _ _ _ Hr).
Qed.

(** An operation has ended only when its work has: while the runner is at work on an operation,
    or its result is on its way to the store, the record says RUNNING, unless the deadline of its
    cancellation passed, which without a cancellation timeout none does.  So an operation that was
    cancelled, or interrupted by a close, is no longer at work. *)
Theorem ended_after_work c i t :
  reachable policy stored c -> running c !! i = Some t -> at_work (pc t) = true ->
  (exists h, store (shared c) !! task_id t = Some h /\ request h = task_request t /\
    (state h = OperationState.RUNNING \/ task_id t ∈ expired (shared c))) /\
  (cancellation_timeout_s policy = None -> runs_record (shared c) (task_id t)).
Proof.
  intros Hc Ht Ha. destruct (reachable_inv _ Hc) as [I _].
  destruct (inv_owned _ I _ _ Ht (executing_owner _ (at_work_executing _ Ha))) as (h & Hh & Hreq).
  pose proof (inv_running _ I _ _ Ht Ha) as Hrun. split.
  - exists h. split; [done|]. split; [done|]. destruct Hrun as [?|(h' & Hh' & Hr)]; [by right|left; congruence].
  - intros Hn. destruct Hrun as [He|Hr]; [|done]. by rewrite (reachable_unbounded _ Hn Hc) in He.
Qed.

End Coordinator.
