(* ===== verification/OperationsWake.v ===== *)
(** * Who waits for an operation

    No wakeup of [wait_result] is lost: how the events of [Operations] follow the records. *)

From S2P Require Import Prelude PyFloat Identities Operations OperationsSafe.

Section Coordinator.
Context (policy : OperationPolicy) (stored : gmap string OperationHandle).
Abbreviation step := (step policy).
Abbreviation resume := (resume (not_none (cancellation_timeout_s policy))).
Hypothesis stored_filed : forall id h, stored !! id = Some h -> operation_id (request h) = id /\ well_formed h.
Hypothesis policy_valid : validate_policy policy = Ok tt.

Definition carried (p : Pc) : option Transition :=
  match p with Starting t | WritingEnd _ t | TermWriting _ t => Some t | _ => None end.

(** A task whose record has ended in the store, and that has still to tell *)
Definition telling (t : Task) : bool :=
  match carried (pc t) with Some (Landed updated) => terminal (state updated) | _ => false end.

(** Nothing that a waiter sees has changed. *)
Definition unseen (s s' : Shared) : Prop :=
  store s' = store s /\ changed s' = changed s /\ next_event s' = next_event s /\ signaled s' = signaled s /\ lost s' = lost s.

Lemma unseen_refl s : unseen s s.
Proof. by split_and!. Qed.

Lemma status_unseen s id record s' : status s id = Some (record, s') -> unseen s s' /\ store s !! id = Some record.
Proof. unfold status. destruct (store s !! id); [|done]. intros [= <- <-]. by split_and!. Qed.

Lemma cancel_unseen s id : unseen s (cancel_task s id).
Proof. unfold cancel_task. by destruct (bool_decide _). Qed.

Lemma unseen_trans s1 s2 s3 : unseen s1 s2 -> unseen s2 s3 -> unseen s1 s3.
Proof. unfold unseen. intros (? & ? & ? & ? & ?) (? & ? & ? & ? & ?). split_and!; congruence. Qed.

Definition carries (ch : Choice) (t : Task) (p' : Pc) (s s' : Shared) : Prop :=
  match carried (pc t) with
  | Some tr => exists s1 next, transition ch (task_id t) tr s = Some (s1, next) /\ unseen s1 s' /\
      forall tr', next = inl tr' -> carried p' = Some tr'
  | None => unseen s s'
  end.

Lemma execute_carries ch t s s' p' : execute ch (task_request t) (pc t) s = Some (s', p') -> carries ch t p' s s'.
Proof.
  unfold execute, carries. fold (task_id t).
  destruct (bool_decide _); destruct (pc t); try done; cbn [carried].
  all: try (destruct ch; try done; try case_match; by intros [= <- _]).
  - destruct ch; try done; [|by intros [= <- _]]. destruct (status _ _) as [[record s1]|] eqn:E; [|by intros [= <- _]].
    apply status_unseen in E as [E _]. destruct (eqb _ _); by intros [= <- _].
  - destruct (transition _ _ _ _) as [[s1 next]|] eqn:E; [|done]. intros H. exists s1, next. split; [done|].
    destruct next as [|[]]; simplify_eq; (split; [done|]); by intros ? [= <-].
  - destruct ch; try done; [|by intros [= <- _]]. destruct (status _ _) as [[record s1]|] eqn:E; [|by intros [= <- _]].
    apply status_unseen in E as [E _]. destruct (end_of _ _); by intros [= <- _].
  - destruct (transition _ _ _ _) as [[s1 next]|] eqn:E; [|done]. intros H. exists s1, next. split; [done|].
    destruct next; simplify_eq; (split; [done|]); by intros ? [= <-].
Qed.

Lemma terminate_carries bounded ch t s s' p' :
  terminate bounded ch (task_request t) (pc t) s = Some (s', p') -> carries ch t p' s s'.
Proof.
  unfold terminate, carries. fold (task_id t). pose proof (cancel_unseen s (task_id t)) as C.
  destruct (pc t); try done; cbn [carried]; cbn zeta beta.
  - destruct ch; try done; by intros [= <- _].
  - destruct ch; try done; [|by intros [= <- _]]. destruct (status _ _) as [[record s1]|] eqn:E; [|by intros [= <- _]].
    apply status_unseen in E as [E _]. pose proof (unseen_trans _ _ _ E (cancel_unseen s1 (task_id t))).
    repeat case_match; by intros [= <- _].
  - destruct ch; try done; [..|destruct bounded; [|done]]; destruct task; by intros [= <- _].
  - destruct ch; try done; [|destruct bounded; [|done]]; repeat case_match; by intros [= <- _].
  - destruct ch; try done; [|by intros [= <- _]]. destruct (status _ _) as [[record s1]|] eqn:E; [|by intros [= <- _]].
    apply status_unseen in E as [E _]. destruct (terminal _); by intros [= <- _].
  - destruct (transition _ _ _ _) as [[s1 next]|] eqn:E; [|done]. intros H. exists s1, next. split; [done|].
    destruct next; simplify_eq; (split; [done|]); by intros ? [= <-].
Qed.

(** How the events may change in a step of [t] to [p'] *)
Record wakes (t : Task) (p' : Pc) (s s' : Shared) : Prop := {
  wakes_next : (next_event s <= next_event s')%nat;
  wakes_changed : forall id e, changed s' !! id = Some e ->
    changed s !! id = Some e \/ (id = task_id t /\ e = next_event s /\ (next_event s < next_event s')%nat);
  wakes_woken : forall id e, changed s !! id = Some e -> changed s' !! id = Some e \/ e ∈ signaled s';
  wakes_signaled : forall e, e ∈ signaled s' ->
    e ∈ signaled s \/ (changed s !! task_id t = Some e /\ changed s' !! task_id t = None);
  wakes_kept : forall e, e ∈ signaled s -> e ∈ signaled s' \/ changed s' !! task_id t = Some e;
  wakes_told : telling t = true -> changed s' !! task_id t = None;
  wakes_lost : lost s ⊆ lost s';
  wakes_wrote : forall id h, store s' !! id = Some h -> terminal (state h) = true ->
    store s !! id = Some h \/ id ∈ lost s' \/
    (id = task_id t /\ telling {| task_request := task_request t; pc := p' |} = true)
}.

Lemma unseen_wakes t p' s s' : telling t = false -> unseen s s' -> wakes t p' s s'.
Proof.
  intros Ht (E1 & E2 & E3 & E4 & E5). split; rewrite ?E1, ?E2, ?E3, ?E4, ?E5, ?Ht; first [done|by auto].
Qed.

Lemma landed_events s updated : filed s -> store s !! operation_id (request updated) = Some updated ->
  terminal (state updated) = true ->
  let s' := landed s updated in let id := operation_id (request updated) in
  store s' = store s /\ next_event s' = next_event s /\ lost s' = lost s /\ changed s' = delete id (changed s) /\
  forall e, e ∈ signaled s' <-> e ∈ signaled s \/ changed s !! id = Some e.
Proof.
  intros Hf Hst Ht. unfold landed. rewrite Ht. cbn. destruct (changed s !! _) as [e0|] eqn:E; cbn; split_and!; try done.
  - intros e. rewrite elem_of_union, elem_of_singleton. split; [intros [->|?]; auto|intros [?|[= ->]]; auto].
  - by rewrite delete_id.
  - intros e. split; [by left|]. by intros [?|?].
Qed.

Lemma landed_unseen s updated : terminal (state updated) = false -> unseen s (landed s updated).
Proof. intros Ht. unfold landed. rewrite Ht. by split_and!. Qed.

Lemma carries_wakes ch t p' s s' : filed s -> knows s t -> carries ch t p' s s' -> wakes t p' s s'.
Proof.
  intros Hfiled Hk. unfold carries. destruct (carried (pc t)) as [tr|] eqn:Hc; [|intros; apply unseen_wakes; [by unfold telling; rewrite Hc|done]].
  intros (s1 & next & Htr & (E1 & E2 & E3 & E4 & E5) & Hnext).
  assert (Hw : forall record updated, tr = Replacing record updated ->
    writes t = Some (record, updated) /\ store s !! task_id t = Some record).
  { intros record updated ->. unfold writes, knows in *. destruct (pc t); simplify_eq/=; naive_solver. }
  assert (Hl : forall updated, tr = Landed updated -> store s !! task_id t = Some updated).
  { intros updated ->. unfold knows in *. destruct (pc t); simplify_eq/=; naive_solver. }
  destruct (transition_changes _ t _ _ _ _ Hfiled Htr Hw) as ([Hch _ _] & _ & _ & Hn).
  unfold transition in Htr. destruct tr as [record updated|updated|].
  - assert (Hrep : forall s2, replace s record updated = Some s2 -> s2 = s <| store := store s2 |>).
    { unfold replace. intros s2. destruct (store s !! operation_id (request record)); [|done].
      destruct (_ =? _); [|done]. by intros [= <-]. }
    assert (Ht : telling t = false) by (unfold telling; by rewrite Hc).
    destruct (Hw _ _ eq_refl) as [Hwr Hst].
    assert (Hstore : forall id h, store s1 !! id = Some h -> store s !! id = Some h \/ (id = task_id t /\ h = updated)).
    { intros id h. destruct Hch as [->|[(_ & Hnone & _)|(r & u & Hwr' & _ & ->)]]; [by left|congruence|].
      rewrite Hwr in Hwr'. injection Hwr' as <- <-. intros [[<- <-]|[_ ?]]%lookup_insert_Some; [by right|by left]. }
    assert (Hpass : forall l', lost s ⊆ l' -> lost s1 = l' -> changed s1 = changed s -> next_event s1 = next_event s ->
      signaled s1 = signaled s ->
      (store s1 = store s \/ task_id t ∈ l' \/ telling {| task_request := task_request t; pc := p' |} = true \/ terminal (state updated) = false) ->
      wakes t p' s s').
    { intros l' Hl' F1 F2 F3 F4 Hcase. split; rewrite ?E1, ?E2, ?E3, ?E4, ?E5, ?F1, ?F2, ?F3, ?F4, ?Ht; try first [done|by auto].
      intros id h Hh Hterm. destruct (Hstore _ _ Hh) as [?|[-> ->]]; [by left|].
      destruct Hcase as [F|[?|[?|?]]]; [left; by rewrite <- F|by auto..|congruence]. }
    destruct ch; try discriminate Htr.
    + destruct (replace s record updated) as [s2|] eqn:Er; injection Htr as <- <-.
      * specialize (Hrep _ eq_refl). apply (Hpass (lost s)); [done|by rewrite Hrep..|]. right. right.
        specialize (Hnext _ eq_refl). unfold telling. cbn [pc]. rewrite Hnext. destruct (terminal _); by auto.
      * apply (Hpass (lost s)); by auto.
    + injection Htr as <- <-. apply (Hpass (lost s)); by auto.
    + destruct (replace s record updated) as [s2|] eqn:Er; injection Htr as <- <-.
      * specialize (Hrep _ eq_refl). apply (Hpass ({[task_id t]} ∪ lost s)); [set_solver|by rewrite Hrep..|].
        right. left. set_solver.
      * apply (Hpass (lost s)); by auto.
  - destruct ch; try discriminate Htr. injection Htr as <- <-. specialize (Hl _ eq_refl).
    destruct (Hfiled _ _ Hl) as [Hid _]. destruct (terminal (state updated)) eqn:Hterm.
    + destruct (landed_events s updated) as (F1 & F2 & F3 & F4 & F5); [done|by rewrite Hid|done|]. rewrite Hid in *.
      split; rewrite ?E1, ?E2, ?E3, ?E4, ?E5, ?F1, ?F2, ?F3, ?F4; try first [done|by auto].
      * intros id e [_ ?]%lookup_delete_Some. by left.
      * intros id e He. destruct (decide (id = task_id t)) as [->|Hne]; [right; apply F5; by right|left].
        by rewrite lookup_delete_ne.
      * intros e [?|?]%F5; [by left|right]. by rewrite lookup_delete_eq.
      * intros e He. left. apply F5. by left.
      * intros _. apply lookup_delete_eq.
    + apply unseen_wakes; [unfold telling; by rewrite Hc|]. eapply unseen_trans; [by apply landed_unseen|]. by split_and!.
  - apply unseen_wakes; [unfold telling; by rewrite Hc|]. eapply unseen_trans; [|by split_and!].
    destruct ch; try discriminate Htr; repeat case_match; simplify_eq; apply unseen_refl.
Qed.

Lemma event_of_spec s id : (forall id e, changed s !! id = Some e -> (e < next_event s)%nat) ->
  let '(e, s') := event_of s id in
  changed s' !! id = Some e /\ (e < next_event s')%nat /\ (next_event s <= next_event s')%nat /\
  store s' = store s /\ signaled s' = signaled s /\ lost s' = lost s /\
  (changed s' = changed s \/ (changed s !! id = None /\ e = next_event s /\ (next_event s < next_event s')%nat /\
    changed s' = <[id := e]> (changed s))).
Proof.
  intros Hlt. unfold event_of. destruct (changed s !! id) as [e|] eqn:E.
  - split_and!; [done|by eapply Hlt|done..|by left].
  - cbn. rewrite lookup_insert_eq. split_and!; [done|lia|lia|done..|right; split_and!; [done|done|lia|done]].
Qed.

(** The events of a coordinator: each belongs to one operation, is not set while a waiter may still
    find it, and is new when it is made. *)
Record events_ok (s : Shared) : Prop := {
  events_new : forall id e, changed s !! id = Some e -> (e < next_event s)%nat;
  events_clear : forall id e, changed s !! id = Some e -> e ∉ signaled s;
  events_old : forall e, e ∈ signaled s -> (e < next_event s)%nat;
  events_own : forall id id' e, changed s !! id = Some e -> changed s !! id' = Some e -> id = id'
}.

Lemma event_wakes t p' s s' e : events_ok s -> telling t = false -> event_of s (task_id t) = (e, s') ->
  wakes t p' s s' /\ changed s' !! task_id t = Some e /\ (e < next_event s')%nat /\ e ∉ signaled s' /\ store s' = store s.
Proof.
  intros [H1 H2 H3 H4] Ht E. pose proof (event_of_spec s (task_id t) H1) as Hs. rewrite E in Hs.
  destruct Hs as (Hc & He & Hn & E1 & E2 & E3 & Hcase).
  assert (Hsig : e ∉ signaled s).
  { destruct Hcase as [Hsame|(_ & -> & _)]; [rewrite Hsame in Hc; by eapply H2|]. intros Hin. apply H3 in Hin. lia. }
  split; [|by rewrite E1, E2]. split; rewrite ?E1, ?E2, ?E3, ?Ht; try first [done|by auto].
  - intros id e' He'. destruct Hcase as [<-|(Hnone & -> & Hlt & Hins)]; [by left|]. rewrite Hins in He'.
    apply lookup_insert_Some in He' as [[<- <-]|[_ ?]]; [by right|by left].
  - intros id e' He'. left. destruct Hcase as [->|(Hnone & _ & _ & ->)]; [done|]. rewrite lookup_insert_ne; [done|congruence].
Qed.

Lemma submit_wakes ch t s s' p' spawned : events_ok s ->
  submit ch (task_request t) (pc t) s = Some (s', p', spawned) -> wakes t p' s s'.
Proof.
  intros Hok. unfold submit. fold (task_id t).
  assert (Hadd : forall s1, telling t = false -> store s1 = <[task_id t := queued_record (task_request t)]> (store s) ->
    changed s1 = changed s -> next_event s1 = next_event s -> signaled s1 = signaled s -> lost s ⊆ lost s1 ->
    wakes t p' s s1).
  { intros s1 Ht E1 E2 E3 E4 E5. split; rewrite ?E1, ?E2, ?E3, ?E4, ?Ht; try first [done|by auto].
    intros id h [[<- <-]|[_ ?]]%lookup_insert_Some; [done|by left]. }
  destruct (pc t) eqn:Hp; try done; (assert (Ht : telling t = false) by (unfold telling; by rewrite Hp)); destruct ch; try done.
  - case_match; intros [= <- <- <-]; by apply unseen_wakes.
  - case_match; intros [= <- <- <-]; [by apply unseen_wakes|by apply Hadd].
  - intros [= <- <- <-]; by apply unseen_wakes.
  - case_match; intros [= <- <- <-]; [by apply unseen_wakes|]. apply Hadd; try done. cbn. set_solver.
  - match goal with |- context [event_of ?x _] => set (s1 := x) end.
    destruct (event_of s1 (task_id t)) as [e s2] eqn:E. intros [= <- <- <-].
    assert (Hok1 : events_ok s1) by (destruct Hok; by split).
    destruct (event_wakes t Ended s1 s2 e Hok1 Ht E) as [[] _]. by split.
Qed.

Lemma wait_wakes ch t s s' p' : events_ok s -> wait_result ch (task_request t) (pc t) s = Some (s', p') ->
  wakes t p' s s' /\
  (forall e, p' = Observing e -> changed s' !! task_id t = Some e /\ (e < next_event s')%nat) /\
  (forall e, p' = Sleeping e -> pc t = Observing e /\ unseen s s' /\
     exists h, store s !! task_id t = Some h /\ terminal (state h) = false) /\ (pc t = WaitStart \/ unseen s s').
Proof.
  intros Hok. unfold wait_result. fold (task_id t).
  destruct (pc t) eqn:Hp; try done; (assert (Ht : telling t = false) by (unfold telling; by rewrite Hp)); destruct ch; try done.
  - destruct (event_of s (task_id t)) as [e s1] eqn:E. intros [= <- <-].
    destruct (event_wakes t (Observing e) _ _ _ Hok Ht E) as (Hw & Hc & He & Hsig & _).
    split; [|split; [by intros ? [= <-]|split; [done|by left]]].
    assert (Hsame : signaled s1 ∖ {[e]} = signaled s1) by set_solver.
    destruct Hw. split; cbn; rewrite ?Hsame; done.
  - destruct (status s (task_id t)) as [[record s1]|] eqn:E; intros [= <- <-].
    + apply status_unseen in E as [E Hst]. split; [by apply unseen_wakes|].
      destruct (terminal _) eqn:Hterm; (split; [done|split; [|by right]]); [done|]. intros ? [= <-]. split; [done|]. split; [done|]. by exists record.
    + split; [by apply unseen_wakes|]. split; [done|split; [done|by right]].
  - intros [= <- <-]. split; [by apply unseen_wakes|]. split; [done|split; [done|by right]].
  - destruct (bool_decide _); intros [= <- <-]. split; [by apply unseen_wakes|]. split; [done|split; [done|by right]].
Qed.

Lemma resume_wakes ch t s s' t' spawned : filed s -> knows s t -> events_ok s -> resume ch t s = Some (s', t', spawned) ->
  wakes t (pc t') s s' /\
  (forall e, pc t' = Observing e -> changed s' !! task_id t = Some e /\ (e < next_event s')%nat) /\
  (forall e, pc t' = Sleeping e -> pc t = Observing e /\ unseen s s' /\
     exists h, store s !! task_id t = Some h /\ terminal (state h) = false).
Proof.
  intros Hfiled Hk Hok (p' & -> & [(He & Hp & _)|[(Ht & _ & Hp)|[Hp|(Hp & _)]]])%resume_cases; cbn [pc].
  - split; [by eapply carries_wakes, execute_carries|].
    destruct (execute_changes _ _ _ _ _ Hfiled Hk He Hp) as (_ & _ & [(Hx & _)|E] & _);
      split; intros e E'; rewrite E' in *; done.
  - split; [by eapply carries_wakes, terminate_carries|].
    destruct (terminate_changes _ _ _ _ _ _ Hfiled Hk Ht Hp) as (_ & _ & [Hx|E] & _);
      split; intros e E'; rewrite E' in *; done.
  - split; [by eapply submit_wakes|]. unfold submit in Hp. destruct (pc t), ch; try done; repeat (case_match; try done); simplify_eq; by rewrite <- ?H2.
  - destruct (wait_wakes _ _ _ _ _ Hok Hp) as (Hw & Ho & Hs & _). by auto.
Qed.

Lemma signaled_mono t p' s s' e : events_ok s -> wakes t p' s s' -> e ∈ signaled s -> e ∈ signaled s'.
Proof.
  intros [H1 H2 H3 H4] W He. destruct (wakes_kept _ _ _ _ W e He) as [?|Hc]; [done|].
  destruct (wakes_changed _ _ _ _ W _ _ Hc) as [Hc'|(_ & -> & _)]; [by apply H2 in Hc'|]. apply H3 in He. lia.
Qed.

Lemma events_step t p' s s' : events_ok s -> wakes t p' s s' -> events_ok s'.
Proof.
  intros [H1 H2 H3 H4] W. pose proof (wakes_next _ _ _ _ W) as Hn. split.
  - intros id e [He%H1|(_ & -> & ?)]%(wakes_changed _ _ _ _ W); lia.
  - intros id e Hc Hs. destruct (wakes_changed _ _ _ _ W _ _ Hc) as [He|(_ & -> & _)];
      destruct (wakes_signaled _ _ _ _ W _ Hs) as [Hin|[Hold Hnone]].
    + by apply H2 in He.
    + pose proof (H4 _ _ _ He Hold) as ->. congruence.
    + apply H3 in Hin. lia.
    + apply H1 in Hold. lia.
  - intros e [He%H3|[He%H1 _]]%(wakes_signaled _ _ _ _ W); lia.
  - intros id id' e [Ha|(-> & -> & _)]%(wakes_changed _ _ _ _ W) [Hb|(-> & Eb & _)]%(wakes_changed _ _ _ _ W); [by eapply H4| | |done].
    + subst. apply H1 in Ha. lia.
    + apply H1 in Hb. lia.
Qed.

(** The waiter of [e] for the operation [id] is not forgotten. *)
Definition remembered (c : Coordinator) (id : string) (e : nat) : Prop :=
  e ∈ signaled (shared c) \/
  (changed (shared c) !! id = Some e /\
   ((exists h, store (shared c) !! id = Some h /\ terminal (state h) = false) \/ id ∈ lost (shared c) \/
    exists k u, running c !! k = Some u /\ telling u = true /\ task_id u = id)).

Record waiters (c : Coordinator) : Prop := {
  waiters_events : events_ok (shared c);
  waiters_observing : forall i t e, running c !! i = Some t -> pc t = Observing e ->
    e ∈ signaled (shared c) \/ changed (shared c) !! task_id t = Some e;
  waiters_sleeping : forall i t e, running c !! i = Some t -> pc t = Sleeping e -> remembered c (task_id t) e
}.

Lemma step_lookup (m : gmap nat Task) i j t' (spawned : option Task) : i <> j -> m !! j = None ->
  let m' := match spawned with Some task => <[j := task]> (<[i := t']> m) | None => <[i := t']> m end in
  m' !! i = Some t' /\ forall k u, k <> i -> m !! k = Some u -> m' !! k = Some u.
Proof.
  intros Hij Hj. destruct spawned; cbn zeta.
  - split; [by rewrite lookup_insert_ne, lookup_insert_eq|]. intros k u Hk Hu.
    rewrite !lookup_insert_ne; [done|congruence..].
  - split; [by rewrite lookup_insert_eq|]. intros k u Hk Hu. by rewrite lookup_insert_ne.
Qed.

Lemma waiters_step c c' : inv c -> waiters c -> step c c' -> waiters c'.
Proof.
  intros I W Hstep. destruct Hstep as [c i t Hi Ha|c Hf|c i t ch s' t' spawned j Hi Hr Hl Hj Hij].
  - destruct W as [W1 W2 W3]. split; [done|..]; cbn [shared running].
    + intros k u e [[<- <-]|[_ Hu]]%lookup_insert_Some Hp; [by rewrite Hp in Ha|by eapply W2].
    + intros k u e [[<- <-]|[_ Hu]]%lookup_insert_Some Hp; [by rewrite Hp in Ha|].
      destruct (W3 _ _ _ Hu Hp) as [?|(Hc & [?|[?|(k' & u' & Hu' & Htell & Hid)]])]; [by left|right; by auto..|].
      right. split; [done|]. right. right. exists k', u'. split; [|done]. cbn. rewrite lookup_insert_ne; [done|congruence].
  - destruct W as [W1 W2 W3]. split; [by destruct W1|done|done].
  - pose proof (inv_knows _ I _ _ Hi) as Hk. pose proof (inv_filed _ I) as Hfiled. destruct W as [W1 W2 W3].
    pose proof (resume_stepped policy _ _ _ _ _ _ Hfiled Hk Hr) as F.
    destruct (resume_wakes _ _ _ _ _ _ Hfiled Hk W1 Hr) as (W & Hobs & Hsl).
    destruct (changed_record t _ _ Hfiled Hk (stepped_changes _ _ _ _ _ F)) as [_ Hrec].
    assert (Hid : task_id t' = task_id t) by (unfold task_id; by rewrite (stepped_request _ _ _ _ _ F)).
    set (c' := {| shared := s'; running := match spawned with Some task => _ | None => _ end |}).
    assert (Hcases : forall k w, running c' !! k = Some w -> (k = i /\ w = t') \/ running c !! k = Some w \/ pc w = TaskCreated).
    { intros k w Hw. destruct (step_cases c i t t' spawned s' j Hi Hj Hij F k w Hw) as [?|[(_ & _ & ?)|(_ & _ & -> & _)]]; by auto. }
    destruct (step_lookup (running c) i j t' spawned) as [Hti Hlook]; [done|congruence|].
    assert (P : forall id e, remembered c id e -> remembered c' id e).
    { intros id e [Hs|[Hc Hwhy]]; [left; by eapply signaled_mono|].
      destruct (wakes_woken _ _ _ _ W _ _ Hc) as [Hc'|?]; [right; split; [done|]|by left].
      destruct Hwhy as [(h & Hh & Hterm)|[Hlost|(k & u & Hu & Htell & Hidu)]].
      - destruct (Hrec _ _ Hh) as (h' & Hh' & _). destruct (terminal (state h')) eqn:Hterm'; [|left; by exists h'].
        destruct (wakes_wrote _ _ _ _ W _ _ Hh' Hterm') as [?|[?|[-> Ht]]]; [congruence|right; by left|].
        right. right. exists i, t'. split; [done|]. by rewrite Hid.
      - right. left. by apply (wakes_lost _ _ _ _ W).
      - destruct (decide (k = i)) as [->|Hne]; [|right; right; exists k, u; split; [by apply Hlook|done]].
        rewrite Hi in Hu. injection Hu as <-. subst id. pose proof (wakes_told _ _ _ _ W Htell). congruence. }
    split.
    + by eapply events_step.
    + intros k u e [[-> ->]|[Hu|Hp']]%Hcases Hp; [right; rewrite Hid; by eapply Hobs| |congruence].
      destruct (W2 _ _ _ Hu Hp) as [?|Hc]; [left; by eapply signaled_mono|].
      destruct (wakes_woken _ _ _ _ W _ _ Hc); by auto.
    + intros k u e [[-> ->]|[Hu|Hp']]%Hcases Hp; [|apply P; by eapply W3|congruence].
      rewrite Hid. apply P. destruct (Hsl _ Hp) as (Ho & _ & Hn). destruct (W2 _ _ _ Hi Ho); [by left|right; by auto].
Qed.

Lemma reachable_waiters c : reachable policy stored c -> waiters c.
Proof.
  induction 1 as [s Hs|c c' Hc W Hstep].
  2: { eapply waiters_step; [|done..]. by eapply reachable_inv. }
  apply reachable_start in Hs as (_ & (E1 & E2 & _) & _); [|done]. split; [|done..].
  cbn [shared]. split; rewrite ?E1, ?E2; set_solver.
Qed.

Lemma outside_holds r p l : executing p = false -> terminating p = false ->
  match p with SubmitWaiting | SubmitCreating | SubmitCreated => false | _ => true end = true ->
  holds {| task_request := r; pc := p |} l = false.
Proof. unfold holds. cbn [pc]. intros He Ht Hp. by destruct p; try done; destruct l; cbn; rewrite ?andb_false_r. Qed.

(** A step of a task that asks for no lock *)
Lemma step_alone c i t ch s t' : running c !! i = Some t -> resume ch t (shared c) = Some (s, t', None) ->
  (forall l, holds t' l = false) -> step c {| shared := s; running := <[i := t']> (running c) |}.
Proof.
  intros Hi Hr Hl. pose proof (not_elem_of_dom_1 _ _ (is_fresh (dom (running c)))) as Hj.
  apply (step_resume policy c i t ch s t' None (fresh (dom (running c)))); [done..| |done|congruence].
  intros l Hh. by rewrite Hl in Hh.
Qed.

Lemma waiter_returns c i t e h : running c !! i = Some t -> pc t = Sleeping e -> e ∈ signaled (shared c) ->
  store (shared c) !! task_id t = Some h -> terminal (state h) = true ->
  exists c', rtc step c c' /\ running c' !! i = Some {| task_request := task_request t; pc := Ended |}.
Proof.
  intros Hi Hp He Hh Hterm.
  assert (H1 : resume Goes t (shared c) = Some (shared c, {| task_request := task_request t; pc := WaitStart |}, None)).
  { unfold Operations.resume. rewrite Hp. cbn. by rewrite bool_decide_true. }
  destruct (event_of (shared c) (task_id t)) as [e2 s2] eqn:E2. pose proof (event_same (shared c) (task_id t)) as (Est & _). rewrite E2 in Est. cbn in Est.
  eexists. split.
  - eapply rtc_l; [eapply (step_alone _ _ _ Goes); [done|done|by intros l; apply outside_holds]|].
    eapply rtc_l; [eapply (step_alone _ _ _ Goes); [apply lookup_insert_eq| |]|].
    + unfold Operations.resume. cbn. fold (task_id t). by rewrite E2.
    + by intros l; apply outside_holds.
    + eapply rtc_l; [eapply (step_alone _ _ _ Goes); [apply lookup_insert_eq| |]|apply rtc_refl].
      * unfold Operations.resume. cbn. fold (task_id t). unfold status. cbn. rewrite Est, Hh, Hterm. done.
      * by intros l; apply outside_holds.
  - cbn. by rewrite lookup_insert_eq.
Qed.

(** Only who holds the lock of an operation cancels its task. *)
Lemma transition_cancelling ch id tr s s' next : transition ch id tr s = Some (s', next) -> cancelling s' = cancelling s.
Proof.
  unfold transition, replace, landed. destruct tr, ch; try done; repeat case_match; intros; by simplify_eq/=.
Qed.

Lemma execute_cancelling ch t s s' p' : execute ch (task_request t) (pc t) s = Some (s', p') ->
  cancelling s' ⊆ cancelling s /\
  (holds {| task_request := task_request t; pc := p' |} (OperationLock (task_id t)) = true -> task_id t ∉ cancelling s).
Proof.
  unfold execute. fold (task_id t). unfold holds. cbn [pc]. case_bool_decide as Hin.
  - destruct (pc t); try done; destruct ch; try done; intros [= <- <-]; (split; [cbn; set_solver|]);
      by rewrite andb_false_r.
  - intros H. split; [|done]. destruct (pc t); try done.
    all: try (destruct ch; try done; try case_match; injection H as <- _; cbn; set_solver).
    + destruct ch; try done; [|injection H as <- _; cbn; set_solver].
      destruct (status _ _) as [[record s1]|] eqn:E; [|injection H as <- _; cbn; set_solver].
      apply status_same in E as (_ & _ & _ & _ & _ & E & _). destruct (eqb _ _); injection H as <- _; cbn; set_solver.
    + destruct (transition _ _ _ _) as [[s1 next]|] eqn:E; [|done]. apply transition_cancelling in E.
      destruct next as [|[]]; injection H as <- _; cbn; set_solver.
    + destruct ch; try done; [|injection H as <- _; cbn; set_solver].
      destruct (status _ _) as [[record s1]|] eqn:E; [|injection H as <- _; cbn; set_solver].
      apply status_same in E as (_ & _ & _ & _ & _ & E & _). destruct (end_of _ _); injection H as <- _; cbn; set_solver.
    + destruct (transition _ _ _ _) as [[s1 next]|] eqn:E; [|done]. apply transition_cancelling in E.
      destruct next as [|[]]; injection H as <- _; cbn; set_solver.
Qed.

Lemma cancel_cancelling s id : cancelling (cancel_task s id) ⊆ {[id]} ∪ cancelling s.
Proof. unfold cancel_task. destruct (bool_decide _); cbn; set_solver. Qed.

Lemma terminate_cancelling bounded ch t s s' p' : terminate bounded ch (task_request t) (pc t) s = Some (s', p') ->
  cancelling s' = cancelling s \/
  (cancelling s' ⊆ {[task_id t]} ∪ cancelling s /\ holds t (OperationLock (task_id t)) = true).
Proof.
  unfold terminate. fold (task_id t). unfold holds. rewrite eqb_refl. pose proof (cancel_cancelling s (task_id t)) as C.
  destruct (pc t); try done; cbn zeta beta.
  - destruct ch; try done; intros [= <- _]; by left.
  - destruct ch; try done; [|intros [= <- _]; by left].
    destruct (status _ _) as [[record s1]|] eqn:E; [|intros [= <- _]; by left].
    apply status_same in E as (_ & _ & _ & _ & _ & E & _). pose proof (cancel_cancelling s1 (task_id t)) as C1. rewrite E in C1.
    repeat case_match; intros [= <- _]; by auto.
  - destruct ch; try done; [..|destruct bounded; [|done]]; destruct task; intros [= <- _]; by auto.
  - destruct ch; try done; [|destruct bounded; [|done]]; repeat case_match; intros [= <- _]; by auto.
  - destruct ch; try done; [|intros [= <- _]; by left].
    destruct (status _ _) as [[record s1]|] eqn:E; [|intros [= <- _]; by left].
    apply status_same in E as (_ & _ & _ & _ & _ & E & _). destruct (terminal _); intros [= <- _]; by left.
  - destruct (transition _ _ _ _) as [[s1 next]|] eqn:E; [|done]. apply transition_cancelling in E.
    destruct next; intros [= <- _]; by left.
Qed.

Lemma resume_cancelling ch t s s' t' spawned : filed s -> knows s t -> resume ch t s = Some (s', t', spawned) ->
  (cancelling s' ⊆ cancelling s \/
   (cancelling s' ⊆ {[task_id t]} ∪ cancelling s /\ terminating (pc t) = true /\ holds t (OperationLock (task_id t)) = true)) /\
  (executing (pc t') = true -> holds t' (OperationLock (task_id t)) = true -> task_id t ∉ cancelling s /\ executing (pc t) = true).
Proof.
  intros Hfiled Hk (p' & -> & [(He & Hp & _)|[(Ht & _ & Hp)|[Hp|(Hp & _)]]])%resume_cases; cbn [pc].
  - apply execute_cancelling in Hp as [E1 E2]. by auto.
  - split; [destruct (terminate_cancelling _ _ _ _ _ _ Hp) as [->|[? ?]]; by auto|].
    destruct (terminate_changes _ _ _ _ _ _ Hfiled Hk Ht Hp) as (_ & _ & [Hx|E] & _); [|by rewrite E].
    intros Hx'. apply executing_other in Hx' as [Hcl Ho]. apply terminating_other in Hx as [? _]. congruence.
  - destruct (submit_changes _ _ _ _ _ _ Hp) as (_ & _ & _ & Hx & _). split; [left|congruence].
    unfold submit in Hp. destruct (pc t), ch; try done; repeat (case_match; try done); simplify_eq; try done.
    cbn. unfold event_of. by case_match.
  - destruct (wait_changes _ _ _ _ _ Hp) as (_ & Ho & _). split; [left|intros He; apply executing_owner in He; congruence].
    unfold wait_result in Hp. destruct (pc t), ch; try done; unfold event_of, status in Hp; repeat (case_match; try done); by simplify_eq.
Qed.

(** A task in the middle of a write is not being cancelled. *)
Definition uncancelled (c : Coordinator) : Prop := forall i t, running c !! i = Some t -> executing (pc t) = true ->
  holds t (OperationLock (task_id t)) = true -> task_id t ∉ cancelling (shared c).

Lemma uncancelled_step c c' : inv c -> uncancelled c -> step c c' -> uncancelled c'.
Proof.
  intros I U Hstep. destruct Hstep as [c i t Hi Ha|c Hf|c i t ch s' t' spawned j Hi Hr Hl Hj Hij]; [|done|].
  - unfold uncancelled; cbn [shared running]; intros k u [[<- <-]|[_ Hu]]%lookup_insert_Some Hx Hh; [by rewrite asked_holds in Hh|by eapply U].
  - pose proof (inv_knows _ I _ _ Hi) as Hk. pose proof (inv_filed _ I) as Hfiled.
    pose proof (resume_stepped policy _ _ _ _ _ _ Hfiled Hk Hr) as F.
    assert (Hid : task_id t' = task_id t) by (unfold task_id; by rewrite (stepped_request _ _ _ _ _ F)).
    destruct (resume_cancelling _ _ _ _ _ _ Hfiled Hk Hr) as [Hc Hx].
    intros k u Hu He Hh. cbn [shared]. pose proof (step_cases c i t t' spawned s' j Hi Hj Hij F) as Hcases.
    destruct (Hcases k u Hu) as [[-> ->]|[(Hne & _ & Hu')|(_ & _ & -> & _)]].
    + rewrite Hid in *. destruct (Hx He Hh) as [Hno Hex]. intros Hin. apply Hno.
      destruct Hc as [Hc|(_ & Ht & _)]; [by apply Hc|]. apply terminating_other in Ht as [Ht _].
      by rewrite (executing_owner _ Hex) in Ht.
    + intros Hin. destruct Hc as [Hc|(Hc & Ht & Hlk)]; [by eapply U, Hc|].
      apply Hc, elem_of_union in Hin as [Hin%elem_of_singleton|Hin]; [|by eapply U].
      apply Hne. apply (inv_exclusive _ I (OperationLock (task_id u)) k i u t); [done..|by rewrite Hin].
    + cbn in Hh. by rewrite andb_false_r in Hh.
Qed.

Lemma reachable_uncancelled c : reachable policy stored c -> uncancelled c.
Proof.
  induction 1 as [s Hs|c c' Hc U Hstep]; [done|]. eapply uncancelled_step; [|done..]. by eapply reachable_inv.
Qed.

(** A task that has still to tell does, and then has set the event. *)
Lemma telling_tells c k u e : inv c -> uncancelled c -> running c !! k = Some u -> telling u = true ->
  changed (shared c) !! task_id u = Some e ->
  exists s u', step c {| shared := s; running := <[k := u']> (running c) |} /\ store s = store (shared c) /\ e ∈ signaled s.
Proof.
  intros I U Hu Htell Hc. unfold telling in Htell. destruct (carried (pc u)) as [[|updated|]|] eqn:Hcar; try done.
  pose proof (inv_knows _ I _ _ Hu) as Hk.
  assert (Hst : store (shared c) !! task_id u = Some updated).
  { unfold knows in Hk. destruct (pc u); simplify_eq/=; naive_solver. }
  destruct (inv_filed _ I _ _ Hst) as [Hid _].
  destruct (landed_events (shared c) updated) as (Es & _ & _ & _ & Esig); [apply I|by rewrite Hid|done|].
  assert (Hsame : forall s, s = landed (shared c) updated \/ s = finished (landed (shared c) updated) (task_id u) ->
    store s = store (shared c) /\ e ∈ signaled s).
  { intros s [->| ->]; cbn; (split; [done|]); apply Esig; right; by rewrite Hid. }
  assert (Hend : exists s, resume Goes u (shared c) = Some (s, {| task_request := task_request u; pc := Ended |}, None) /\
    (s = landed (shared c) updated \/ s = finished (landed (shared c) updated) (task_id u))).
  { assert (Hno : executing (pc u) = true -> bool_decide (task_id u ∈ cancelling (shared c)) = false).
    { intros He. apply bool_decide_eq_false. apply (U k); [done..|]. unfold holds. rewrite eqb_refl. by destruct (pc u). }
    unfold Operations.resume, execute, terminate, knows in *. fold (task_id u). destruct (pc u) eqn:Hp; simplify_eq/=.
    - destruct Hk as [_ Hk]. by rewrite Hk in Htell.
    - rewrite Hno by done. by eauto.
    - by eauto. }
  destruct Hend as (s & Hr & Hs). exists s, {| task_request := task_request u; pc := Ended |}.
  split; [|by apply Hsame]. eapply step_alone; [done..|by intros l; apply outside_holds].
Qed.

(** C30: no wakeup is lost: a [wait_result] that sleeps on its event while its operation has ended in the
    store is always on its way back, whatever tasks stopped where: its event is set, or the task that
    wrote the end has still to set it, and the waiter can run to its return with no help but theirs.
    Only an operation of which the store's answer was lost is outside. *)
Theorem waiters_wake c i t e h :
  reachable policy stored c -> running c !! i = Some t -> pc t = Sleeping e ->
  store (shared c) !! task_id t = Some h -> terminal (state h) = true -> task_id t ∉ lost (shared c) ->
  (e ∈ signaled (shared c) \/
   exists k u, running c !! k = Some u /\ telling u = true /\ task_id u = task_id t) /\
  exists c', rtc step c c' /\ running c' !! i = Some {| task_request := task_request t; pc := Ended |}.
Proof.
  intros Hc Hi Hp Hh Hterm Hlost. assert (I : inv c) by by eapply reachable_inv.
  destruct (waiters_sleeping _ (reachable_waiters _ Hc) _ _ _ Hi Hp) as [Hs|(Hch & [(h' & Hh' & Hn)|[?|(k & u & Hu & Htell & Hid)]])].
  - split; [by left|]. by eapply waiter_returns.
  - congruence.
  - done.
  - split; [right; by exists k, u|]. rewrite <- Hid in Hch.
    destruct (telling_tells _ _ _ _ I (reachable_uncancelled _ Hc) Hu Htell Hch) as (s & u' & Hstep & Es & He).
    assert (Hik : k <> i). { intros ->. rewrite Hi in Hu. injection Hu as <-. unfold telling in Htell. by rewrite Hp in Htell. }
    destruct (waiter_returns {| shared := s; running := <[k := u']> (running c) |} i t e h) as (c' & Hsteps & Hend);
      [cbn; by rewrite lookup_insert_ne|done|done|cbn; by rewrite Es|done|].
    exists c'. split; [by eapply rtc_l|done].
Qed.

End Coordinator.
