(* ===== verification/OperationsRuns.v ===== *)
(** * Runs of the coordinator of operations

    A script of the tasks' steps that is a run of [Operations], by evaluation; the runs at which
    the properties of [OperationsSafe] and [OperationsWake] apply; and two runs that end badly. *)

From S2P Require Import Prelude PyFloat Identities Operations OperationsSafe OperationsWake.

(** ** Scripts *)

Inductive Move :=
  | Call (i : nat) (t : Task)
  | Close
  | Run (i : nat) (ch : Choice)
  | Spawn (i j : nat).

#[export] Instance free_dec policy c l : Decision (free policy c l).
Proof. destruct l; cbn; [apply _..|]. destruct (max_in_flight policy); apply _. Defined.

(** The locks a task can hold *)
Definition locks_of (t : Task) : list Lock :=
  [OperationLock (task_id t); KeyLock (concurrency_key (task_request t)); LifecycleLock; Admission].

Lemma locks_of_all t l : holds t l = true -> l ∈ locks_of t.
Proof.
  unfold holds, locks_of. destruct l; [intros [->%eqb_eq _]%andb_prop|intros [[->%eqb_eq _]%andb_prop _]%andb_prop|..];
    intros; rewrite !elem_of_cons; by auto.
Qed.

Definition run_task policy (c : Coordinator) (i j : nat) (ch : Choice) : option Coordinator :=
  match running c !! i with
  | None => None
  | Some t =>
    match resume (not_none (cancellation_timeout_s policy)) ch t (shared c) with
    | None => None
    | Some (s, t', spawned) =>
      if forallb (fun l => negb (holds t' l) || holds t l || bool_decide (free policy c l)) (locks_of t')
         && negb (not_none (running c !! j))
      then Some {| shared := s; running :=
        match spawned with Some task => <[j := task]> (<[i := t']> (running c)) | None => <[i := t']> (running c) end |}
      else None
    end
  end.

Definition play1 policy (c : Coordinator) (m : Move) : option Coordinator :=
  match m with
  | Call i t =>
    if negb (not_none (running c !! i)) && asked (pc t)
    then Some {| shared := shared c; running := <[i := t]> (running c) |} else None
  | Close =>
    if bool_decide (free policy c LifecycleLock)
    then Some {| shared := (shared c) <| admission_closed := true |>; running := running c |} else None
  | Run i ch => run_task policy c i (fresh (dom (running c))) ch
  | Spawn i j => run_task policy c i j Goes
  end.

Fixpoint play policy (c : Coordinator) (ms : list Move) : option Coordinator :=
  match ms with
  | [] => Some c
  | m :: ms => match play1 policy c m with Some c => play policy c ms | None => None end
  end.

Lemma not_none_None {A} (o : option A) : negb (not_none o) = true -> o = None.
Proof. by destruct o. Qed.

Lemma run_task_step policy c i j ch c' : run_task policy c i j ch = Some c' -> step policy c c'.
Proof.
  unfold run_task. destruct (running c !! i) as [t|] eqn:Hi; [|done].
  destruct (resume _ _ _ _) as [[[s t'] spawned]|] eqn:Hr; [|done].
  destruct (_ && _) eqn:Hb; [|done]. intros [= <-]. apply andb_prop in Hb as [Hl Hj%not_none_None].
  eapply step_resume; [done..| |done|congruence].
  intros l Ht' Ht. assert (Hin := locks_of_all _ _ Ht'). rewrite forallb_forall in Hl.
  specialize (Hl l). rewrite <- list_elem_of_In, Ht', Ht in Hl. by apply Hl, bool_decide_eq_true in Hin.
Qed.

Lemma play_steps policy c ms c' : play policy c ms = Some c' -> rtc (step policy) c c'.
Proof.
  induction ms as [|m ms IH] in c |- *; cbn; [by intros [= <-]|].
  destruct (play1 policy c m) as [c1|] eqn:E; [|done]. intros H%IH. eapply rtc_l; [|exact H].
  destruct m as [i t| |i ch|i j]; cbn in E; [| |by eapply run_task_step..].
  - destruct (_ && _) eqn:Hb; [|done]. injection E as <-. apply andb_prop in Hb as [Hi%not_none_None Ha]. by constructor.
  - destruct (bool_decide _) eqn:Hb; [|done]. injection E as <-. constructor. by apply bool_decide_eq_true in Hb.
Qed.

Definition opened : Coordinator := {| shared := new_coordinator ∅; running := ∅ |}.

Lemma play_reachable policy ms c : play policy opened ms = Some c -> reachable policy ∅ c.
Proof. intros H. eapply reachable_later; [by apply reach_start|by eapply play_steps]. Qed.

Definition run_of policy (ms : list Move) : Coordinator := default opened (play policy opened ms).

Lemma run_of_reachable policy ms : not_none (play policy opened ms) = true -> reachable policy ∅ (run_of policy ms).
Proof.
  unfold run_of. destruct (play policy opened ms) as [c|] eqn:E; [|done]. intros _. by eapply play_reachable.
Qed.

(** ** Where the properties apply *)

Open Scope string_scope.

Definition two_at_once : OperationPolicy :=
  {| max_await_timeout_s := None; max_in_flight := Some 2; cancellation_timeout_s := None |}.

Definition request_a : OperationRequest := {| operation_id := "a"; concurrency_key := "k"; payload := "null" |}.
Definition request_b : OperationRequest := {| operation_id := "b"; concurrency_key := "l"; payload := "null" |}.

Fixpoint runs (i n : nat) : list Move := match n with O => [] | S n => Run i Goes :: runs i n end.

(** [submit], whose task is [i + 1] *)
Definition submitted (i : nat) (r : OperationRequest) : list Move :=
  [Call i {| task_request := r; pc := SubmitWaiting |}; Run i Goes; Run i Goes; Spawn i (S i)].

Definition both_work : list Move := (submitted 0 request_a ++ runs 1 8 ++ submitted 2 request_b ++ runs 3 8)%list.

Lemma nothing_stored id (h : OperationHandle) : (∅ : gmap string OperationHandle) !! id = Some h ->
  operation_id (request h) = id /\ well_formed h.
Proof. by rewrite lookup_empty. Qed.

Lemma work_is_exclusive_witness :
  let c := run_of two_at_once both_work in
  size (filter (fun it => at_work (pc it.2) = true) (running c)) = 2%nat /\
  (forall i j t u, running c !! i = Some t -> running c !! j = Some u -> at_work (pc t) = true -> at_work (pc u) = true ->
    concurrency_key (task_request t) = concurrency_key (task_request u) -> i = j) /\
  Z.of_nat (size (filter (fun it => at_work (pc it.2) = true) (running c))) <= 2.
Proof.
  assert (H : reachable two_at_once ∅ (run_of two_at_once both_work)) by (apply run_of_reachable; vm_compute; reflexivity).
  pose proof (work_is_exclusive two_at_once ∅ nothing_stored eq_refl _ H) as [H1 H2].
  split; [vm_compute; reflexivity|]. split; [exact H1|by apply H2].
Defined.

Lemma records_move_forward_witness :
  let c := run_of two_at_once (submitted 0 request_a) in
  let c' := run_of two_at_once (submitted 0 request_a ++ runs 1 8 ++ Run 1 (Returns (Some "1")) :: runs 1 4) in
  let h := queued_record request_a in
  store (shared c) !! "a" = Some h /\
  exists h', store (shared c') !! "a" = Some h' /\ rtc follows h h' /\ request h' = request h /\ well_formed h' /\
    state h' = OperationState.SUCCEEDED /\ revision h' = 2.
Proof.
  set (c := run_of two_at_once (submitted 0 request_a)).
  set (c' := run_of _ (_ ++ runs 1 8 ++ _)). set (ms := (runs 1 8 ++ Run 1 (Returns (Some "1")) :: runs 1 4)%list).
  assert (H : reachable two_at_once ∅ c) by (apply run_of_reachable; vm_compute; reflexivity).
  assert (H' : rtc (step two_at_once) c c') by (apply (play_steps _ _ ms); vm_compute; reflexivity).
  assert (Ha : store (shared c) !! "a" = Some (queued_record request_a)) by (vm_compute; reflexivity).
  split; [exact Ha|].
  destruct (records_move_forward two_at_once ∅ nothing_stored eq_refl c c' "a" _ H H' Ha) as (h' & Hh' & Hf & Hr & Hw & _).
  exists h'. split_and!; [done..| |]; vm_compute in Hh'; injection Hh' as <-; reflexivity.
Defined.

Lemma ended_after_work_witness :
  let c := run_of two_at_once both_work in
  exists t, running c !! 1%nat = Some t /\ at_work (pc t) = true /\ runs_record (shared c) "a".
Proof.
  eexists. split; [vm_compute; reflexivity|]. split; [reflexivity|].
  refine (proj2 (ended_after_work two_at_once ∅ nothing_stored eq_refl (run_of two_at_once both_work) 1%nat
    {| task_request := request_a; pc := InRunner |} _ _ _) eq_refl);
    [apply run_of_reachable; vm_compute; reflexivity|vm_compute; reflexivity|reflexivity].
Defined.

Lemma outside {A} `{Countable A} (a : A) (X : gset A) : bool_decide (a ∈ X) = false -> a ∉ X.
Proof. apply bool_decide_eq_false. Qed.

(** A waiter sleeps; the operation ends in the store, and its task has still to tell. *)
Definition about_to_tell : list Move :=
  (submitted 0 request_a ++ Call 2 {| task_request := request_a; pc := WaitStart |} :: runs 2 2 ++
   runs 1 8 ++ Run 1 (Returns (Some "1")) :: runs 1 3)%list.

Lemma waiters_wake_witness :
  let c := run_of two_at_once about_to_tell in
  0%nat ∉ signaled (shared c) /\ exists c', rtc (step two_at_once) c c' /\
  running c' !! 2%nat = Some {| task_request := request_a; pc := Ended |}.
Proof.
  split; [apply outside; vm_compute; reflexivity|].
  refine (proj2 (waiters_wake two_at_once ∅ nothing_stored eq_refl (run_of two_at_once about_to_tell) 2%nat
    {| task_request := request_a; pc := Sleeping 0 |} 0%nat
    (moved (moved (queued_record request_a) OperationState.RUNNING None false None) OperationState.SUCCEEDED (Some "1") true None)
    _ _ eq_refl _ eq_refl _));
    [apply run_of_reachable; vm_compute; reflexivity|vm_compute; reflexivity..|].
  apply outside; vm_compute; reflexivity.
Defined.

(** ** Two runs that end badly *)

(** No task can go on. *)
Definition stuck policy (c : Coordinator) : Prop := forall i t ch, running c !! i = Some t ->
  resume (not_none (cancellation_timeout_s policy)) ch t (shared c) = None.

Definition stands (s : Shared) (t : Task) : bool :=
  match pc t with Ended => true | Sleeping e => negb (bool_decide (e ∈ signaled s)) | _ => false end.

Lemma stands_stuck policy c : forallb (fun it => stands (shared c) it.2) (map_to_list (running c)) = true -> stuck policy c.
Proof.
  rewrite forallb_forall. intros H i t ch Hi%elem_of_map_to_list%list_elem_of_In. specialize (H _ Hi). cbn in H.
  unfold stands in H. unfold resume. destruct (pc t) as [| | | | | | | | | | | | | | | | | | | | | |e|]; try done.
  cbn. destruct ch; try done. by destruct (bool_decide _).
Qed.

(** [OperationCoordinator._close_to_the_end], once every operation is interrupted: what
    [NothingLeft] of the tasks releases *)
Definition close_to_the_end (s : Shared) : result string unit :=
  require* bool_decide (tasks s = ∅) else "operation coordinator tasks" in
  Ok tt.

(** The result is stored, and the store's answer is lost. *)
Definition answer_lost : list Move :=
  (submitted 0 request_a ++ Call 2 {| task_request := request_a; pc := WaitStart |} :: runs 2 2 ++
   runs 1 8 ++ Run 1 (Returns (Some "1")) :: runs 1 2 ++ [Run 1 Loses; Run 1 Goes])%list.

(** A lost answer strands the waiter: when the store keeps a result and its answer is lost, the
    coordinator finds the result stored and says no more, and a [wait_result] that was asleep by then
    sleeps on: no task can go on, the operation has SUCCEEDED, and its event is not set. *)
Theorem lost_answer_strands_waiter :
  exists c h, reachable two_at_once ∅ c /\ stuck two_at_once c /\
    running c !! 2%nat = Some {| task_request := request_a; pc := Sleeping 0 |} /\
    store (shared c) !! "a" = Some h /\ state h = OperationState.SUCCEEDED.
Proof.
  exists (run_of two_at_once answer_lost). eexists.
  split; [apply run_of_reachable; vm_compute; reflexivity|].
  split; [apply stands_stuck; vm_compute; reflexivity|].
  split; [vm_compute; reflexivity|]. split; [vm_compute; reflexivity|reflexivity].
Qed.

(** A cancellation that has read the record as [submit] creates the task *)
Definition cancelled_at_birth : list Move :=
  ([Call 0 {| task_request := request_a; pc := SubmitWaiting |}; Run 0 Goes; Run 0 Goes;
    Call 2 {| task_request := request_a; pc := TermWaiting OperationState.CANCELED |}; Run 2 Goes; Spawn 0 1;
    Run 2 Goes; Run 1 Goes] ++ runs 2 4 ++ [Close])%list.

(** A task cancelled before its first step leaves its entry: nothing is left to run, every
    operation has ended and no new one is accepted, and [close] still refuses to be released, now and
    whenever it is asked again. *)
Theorem cancelled_at_birth_refuses_close :
  exists c h, reachable two_at_once ∅ c /\ stuck two_at_once c /\ live (shared c) = ∅ /\ admission_closed (shared c) = true /\
    store (shared c) = {["a" := h]} /\ state h = OperationState.CANCELED /\
    close_to_the_end (shared c) = Err "operation coordinator tasks".
Proof.
  exists (run_of two_at_once cancelled_at_birth). eexists.
  split; [apply run_of_reachable; vm_compute; reflexivity|].
  split; [apply stands_stuck; vm_compute; reflexivity|].
  split; [vm_compute; reflexivity|]. split; [vm_compute; reflexivity|].
  split; [vm_compute; reflexivity|]. split; vm_compute; reflexivity.
Qed.
