(* ===== verification/PyText.v ===== *)
(** * Python's [str] methods

    A [str] is the list of its code points ([text]).  What is white space, and what ends a line, are
    those of Python's [str.isspace] and [str.splitlines]. *)

From S2P Require Import Prelude Regex.

(** [not s] *)
Definition empty_text (s : text) : bool := match s with [] => true | _ => false end.

(** [c.isspace()] *)
Definition space (c : Z) : bool :=
  in_ranges [(9, 13); (28, 32); (133, 133); (160, 160); (5760, 5760); (8192, 8202); (8232, 8233);
             (8239, 8239); (8287, 8287); (12288, 12288)] c.

(** A character [str.splitlines] ends a line at *)
Definition ends_line (c : Z) : bool :=
  in_ranges [(10, 13); (28, 30); (133, 133); (8232, 8233)] c.

Fixpoint lstrip (s : text) : text :=
  match s with
  | c :: s' => if space c then lstrip s' else s
  | [] => []
  end.

(** [s.strip()] *)
Definition strip (s : text) : text := rev (lstrip (rev (lstrip s))).

(** [s.split()]: [word] is the word being read *)
Fixpoint words_from (word s : text) : list text :=
  match s with
  | [] => if empty_text word then [] else [word]
  | c :: s' =>
      if space c then (if empty_text word then words_from [] s' else word :: words_from [] s')
      else words_from (word ++ [c]) s'
  end.
Definition words (s : text) : list text := words_from [] s.

(** [s.split(separator)], for one character: [field] is the field being read *)
Fixpoint fields_from (separator : Z) (field s : text) : list text :=
  match s with
  | [] => [field]
  | c :: s' =>
      if c =? separator then field :: fields_from separator [] s'
      else fields_from separator (field ++ [c]) s'
  end.
Definition fields (separator : Z) (s : text) : list text := fields_from separator [] s.

(** [s.partition(separator)], for one character, without the separator *)
Fixpoint partition (separator : Z) (s : text) : text * text :=
  match s with
  | [] => ([], [])
  | c :: s' =>
      if c =? separator then ([], s')
      else let '(before, after) := partition separator s' in (c :: before, after)
  end.

(** [s.splitlines()]: [line] is the line being read, of a string that has not ended *)
Fixpoint lines_from (line s : text) : list text :=
  match s with
  | [] => if empty_text line then [] else [line]
  | 13 :: 10 :: s' => line :: lines_from [] s'
  | c :: s' => if ends_line c then line :: lines_from [] s' else lines_from (line ++ [c]) s'
  end.
Definition splitlines (s : text) : list text := lines_from [] s.

(** ** Lemmas *)

Lemma lstrip_plain s : forallb (fun c => negb (space c)) s = true -> lstrip s = s.
Proof. destruct s as [|c s]; [done|]. cbn. intros [H _]%andb_true_iff. by rewrite (proj1 (negb_true_iff _) H). Qed.

Lemma strip_plain s : forallb (fun c => negb (space c)) s = true -> strip s = s.
Proof.
  intros H. unfold strip. rewrite (lstrip_plain s) by done. rewrite lstrip_plain, rev_involutive; [done|].
  apply forallb_forall. intros c Hc. rewrite <- in_rev in Hc. by apply (proj1 (forallb_forall _ _) H).
Qed.

Lemma words_plain word s :
  forallb (fun c => negb (space c)) s = true -> word ++ s <> [] -> words_from word s = [word ++ s].
Proof.
  revert word. induction s as [|c s IH]; intros word H Hne; cbn.
  - rewrite app_nil_r in *. by destruct word.
  - cbn in H. apply andb_true_iff in H as [Hc H]. rewrite (proj1 (negb_true_iff _) Hc), IH; [|done|].
    + by rewrite <- app_assoc.
    + by destruct word.
Qed.

Lemma partition_app separator s before after :
  partition separator s = (before, after) -> after <> [] -> s = before ++ separator :: after.
Proof.
  revert before after. induction s as [|c s IH]; cbn; intros before after E; [by simplify_eq|].
  destruct (Z.eqb_spec c separator) as [->|]; [by simplify_eq|].
  destruct (partition separator s) as [b a]. simplify_eq. intros Ha. cbn. f_equal. by apply IH.
Qed.
