(* ===== verification/SlurmStates.v ===== *)
(** * The life of a Slurm job

    [libs/vs-slurm/src/vs_slurm/scheduler_states.py]: what the scheduler's readings say of a job, and
    the life that folds them, forward only. *)

From S2P Require Import Prelude Regex PyText.

(** ** Vocabularies *)

Module SlurmJobStatus.
Inductive SlurmJobStatus : Set := UNKNOWN | PENDING | RUNNING | COMPLETED | FAILED | CANCELLED.
End SlurmJobStatus.
Abbreviation SlurmJobStatus := SlurmJobStatus.SlurmJobStatus.
#[export] Instance SlurmJobStatus_dec : EqDecision SlurmJobStatus.
Proof. solve_decision. Defined.

Definition status_terminal (self : SlurmJobStatus) : bool :=
  among self [SlurmJobStatus.COMPLETED; SlurmJobStatus.FAILED; SlurmJobStatus.CANCELLED].

Definition status_active (self : SlurmJobStatus) : bool :=
  among self [SlurmJobStatus.PENDING; SlurmJobStatus.RUNNING].

Definition status_value (self : SlurmJobStatus) : string :=
  match self with
  | SlurmJobStatus.UNKNOWN => "unknown"
  | SlurmJobStatus.PENDING => "pending"
  | SlurmJobStatus.RUNNING => "running"
  | SlurmJobStatus.COMPLETED => "completed"
  | SlurmJobStatus.FAILED => "failed"
  | SlurmJobStatus.CANCELLED => "cancelled"
  end.

Module SlurmPhase.
Inductive SlurmPhase : Set := PENDING | RUNNING | COMPLETING | ENDED | UNKNOWN.
End SlurmPhase.
Abbreviation SlurmPhase := SlurmPhase.SlurmPhase.
#[export] Instance SlurmPhase_dec : EqDecision SlurmPhase.
Proof. solve_decision. Defined.

Module SlurmRawState.
Inductive SlurmRawState : Set :=
  | BOOT_FAIL | CANCELLED | COMPLETED | COMPLETING | CONFIGURING | DEADLINE | FAILED | NODE_FAIL
  | OUT_OF_MEMORY | PENDING | PREEMPTED | REQUEUE_FED | REQUEUE_HOLD | REQUEUED | RESIZING
  | RESV_DEL_HOLD | REVOKED | RUNNING | SIGNALING | SPECIAL_EXIT | STAGE_OUT | STOPPED | SUSPENDED
  | TIMEOUT.
End SlurmRawState.
Abbreviation SlurmRawState := SlurmRawState.SlurmRawState.
#[export] Instance SlurmRawState_dec : EqDecision SlurmRawState.
Proof. solve_decision. Defined.

(** The members of [SlurmRawState] and their values *)
Definition raw_states : list (string * SlurmRawState) :=
  [("BOOT_FAIL"%string, SlurmRawState.BOOT_FAIL); ("CANCELLED"%string, SlurmRawState.CANCELLED);
   ("COMPLETED"%string, SlurmRawState.COMPLETED); ("COMPLETING"%string, SlurmRawState.COMPLETING);
   ("CONFIGURING"%string, SlurmRawState.CONFIGURING); ("DEADLINE"%string, SlurmRawState.DEADLINE);
   ("FAILED"%string, SlurmRawState.FAILED); ("NODE_FAIL"%string, SlurmRawState.NODE_FAIL);
   ("OUT_OF_MEMORY"%string, SlurmRawState.OUT_OF_MEMORY); ("PENDING"%string, SlurmRawState.PENDING);
   ("PREEMPTED"%string, SlurmRawState.PREEMPTED); ("REQUEUE_FED"%string, SlurmRawState.REQUEUE_FED);
   ("REQUEUE_HOLD"%string, SlurmRawState.REQUEUE_HOLD); ("REQUEUED"%string, SlurmRawState.REQUEUED);
   ("RESIZING"%string, SlurmRawState.RESIZING); ("RESV_DEL_HOLD"%string, SlurmRawState.RESV_DEL_HOLD);
   ("REVOKED"%string, SlurmRawState.REVOKED); ("RUNNING"%string, SlurmRawState.RUNNING);
   ("SIGNALING"%string, SlurmRawState.SIGNALING); ("SPECIAL_EXIT"%string, SlurmRawState.SPECIAL_EXIT);
   ("STAGE_OUT"%string, SlurmRawState.STAGE_OUT); ("STOPPED"%string, SlurmRawState.STOPPED);
   ("SUSPENDED"%string, SlurmRawState.SUSPENDED); ("TIMEOUT"%string, SlurmRawState.TIMEOUT)].

Module EndOutcome.
Inductive EndOutcome : Set :=
  | OK | NONZERO_EXIT | FAILED | CANCELLED | TIMED_OUT | DEADLINE_MISSED | OUT_OF_MEMORY | NODE_LOST
  | BOOT_FAILED | PREEMPTED | REVOKED | SPECIAL_EXIT.
End EndOutcome.
Abbreviation EndOutcome := EndOutcome.EndOutcome.
#[export] Instance EndOutcome_dec : EqDecision EndOutcome.
Proof. solve_decision. Defined.

(** ** Lives and readings *)

Inductive JobLife : Type :=
  | Queued (attempt : Z)
  | Running (attempt : Z)
  | Completing (attempt : Z)
  | Ended (outcome : EndOutcome) (attempt : Z)
  | Unknown (raw : option text).
#[export] Instance JobLife_dec : EqDecision JobLife.
Proof. solve_decision. Defined.

(** The [attempt] of a life; [Unknown] belongs to none *)
Definition life_attempt (life : JobLife) : Z :=
  match life with
  | Queued attempt | Running attempt | Completing attempt | Ended _ attempt => attempt
  | Unknown _ => 0
  end.

Definition INITIAL_LIFE : JobLife := Unknown None.

Record QueueRow := {
  queue_state : text;
  queue_reason : option text;
  queue_estimated_start : option text;
  queue_attempt : Z
}.

Record AccountingRow := {
  accounting_state : text;
  accounting_exit_code : text;
  accounting_attempt : Z
}.

Inductive SlurmStatus : Type :=
  | InQueue (row : QueueRow)
  | InAccounting (row : AccountingRow)
  | NotInQueue
  | NoAccountingRow.

Module Notice.
Inductive Notice : Set := REGRESSION | STALE_ATTEMPT | AFTER_END.
End Notice.
Abbreviation Notice := Notice.Notice.
#[export] Instance Notice_dec : EqDecision Notice.
Proof. solve_decision. Defined.

Record Step := {
  step_life : JobLife;
  step_notice : option Notice;
  step_requeued : bool
}.

(** [Step(life)] *)
Definition plain_step (life : JobLife) : Step := {| step_life := life; step_notice := None; step_requeued := false |}.

(** ** Reading the scheduler's text *)

Definition bar : Z := 124.

Definition row_of_line (line : text) : option AccountingRow :=
  let '(state, exit_code) := partition bar (strip line) in
  match words state with
  | word :: _ =>
      if empty_text (strip exit_code) then None
      else Some {| accounting_state := word; accounting_exit_code := strip exit_code; accounting_attempt := 0 |}
  | [] => None
  end.

(** [parse_accounting_row] *)
Definition parse_accounting_row (output : text) : SlurmStatus :=
  match omap row_of_line (splitlines output) with
  | row :: _ => InAccounting row
  | [] => NoAccountingRow
  end.

Definition EMPTY_FIELDS : list text := [[]; str "N/A"; str "Unknown"].

(** [fields[i] if len(fields) > i else ""] *)
Definition field_at (i : nat) (row : list text) : text := default [] (row !! i).

(** [parse_queue_row] *)
Definition parse_queue_row (output : text) : SlurmStatus :=
  match splitlines (strip output) with
  | [] => NotInQueue
  | line :: _ =>
      if empty_text (strip line) then NotInQueue
      else
        let row := map strip (fields bar line) in
        let reason := field_at 1 row in
        let start := field_at 2 row in
        InQueue {| queue_state := field_at 0 row;
                   queue_reason := if empty_text reason then None else Some reason;
                   queue_estimated_start := if among start EMPTY_FIELDS then None else Some start;
                   queue_attempt := 0 |}
  end.

(** [_parse_state] *)
Definition parse_state (raw_state : text) : option SlurmRawState :=
  option_map snd (next_such (fun member => eqb (str (fst member)) raw_state) raw_states).

Definition colon : Z := 58.
Definition digits : regex := plus (Class false [(48, 57)]).
Definition EXIT_CODE : regex := Seq digits (Seq (Class false [(colon, colon)]) digits).

(** [_exit_is_clean] *)
Definition exit_is_clean (exit_code : option text) : option bool :=
  match exit_code with
  | None => Some true
  | Some exit_code =>
      if matches EXIT_CODE exit_code then
        let '(code, signal) := partition colon exit_code in Some (eqb code (str "0") && eqb signal (str "0"))
      else None
  end.

Definition QUEUED_STATES : list SlurmRawState :=
  [SlurmRawState.PENDING; SlurmRawState.CONFIGURING; SlurmRawState.REQUEUED; SlurmRawState.REQUEUE_HOLD;
   SlurmRawState.REQUEUE_FED; SlurmRawState.RESV_DEL_HOLD].

Definition RUNNING_STATES : list SlurmRawState :=
  [SlurmRawState.RUNNING; SlurmRawState.SUSPENDED; SlurmRawState.STOPPED; SlurmRawState.SIGNALING;
   SlurmRawState.STAGE_OUT; SlurmRawState.RESIZING].

(** [_END_OF_STATE[state]]; a state it lacks raises [KeyError] *)
Definition END_OF_STATE (state : SlurmRawState) : option EndOutcome :=
  match state with
  | SlurmRawState.FAILED => Some EndOutcome.FAILED
  | SlurmRawState.CANCELLED => Some EndOutcome.CANCELLED
  | SlurmRawState.TIMEOUT => Some EndOutcome.TIMED_OUT
  | SlurmRawState.DEADLINE => Some EndOutcome.DEADLINE_MISSED
  | SlurmRawState.OUT_OF_MEMORY => Some EndOutcome.OUT_OF_MEMORY
  | SlurmRawState.NODE_FAIL => Some EndOutcome.NODE_LOST
  | SlurmRawState.BOOT_FAIL => Some EndOutcome.BOOT_FAILED
  | SlurmRawState.PREEMPTED => Some EndOutcome.PREEMPTED
  | SlurmRawState.REVOKED => Some EndOutcome.REVOKED
  | SlurmRawState.SPECIAL_EXIT => Some EndOutcome.SPECIAL_EXIT
  | _ => None
  end.

(** The [KeyError] of [_END_OF_STATE] *)
Inductive KeyError : Set := NoEnd (state : SlurmRawState).

(** [_life_of_state] *)
Definition life_of_state (state : SlurmRawState) (exit_code : option text) (attempt : Z) (raw : text)
  : result KeyError JobLife :=
  if among state QUEUED_STATES then Ok (Queued attempt)
  else if among state RUNNING_STATES then Ok (Running attempt)
  else if eqb state SlurmRawState.COMPLETING then Ok (Completing attempt)
  else if eqb state SlurmRawState.COMPLETED then
    match exit_is_clean exit_code with
    | None => Ok (Unknown (Some (raw ++ str " " ++ default [] exit_code)))
    | Some clean => Ok (Ended (if clean then EndOutcome.OK else EndOutcome.NONZERO_EXIT) attempt)
    end
  else match END_OF_STATE state with
       | Some outcome => Ok (Ended outcome attempt)
       | None => Err (NoEnd state)
       end.

(** [_reading_life] *)
Definition reading_life (raw : SlurmStatus) : result KeyError (option JobLife) :=
  let read text exit_code attempt :=
    match parse_state text with
    | None => Ok (Some (Unknown (Some text)))
    | Some state => let* life := life_of_state state exit_code attempt text in Ok (Some life)
    end in
  match raw with
  | InQueue row => read (queue_state row) None (queue_attempt row)
  | InAccounting row => read (accounting_state row) (Some (accounting_exit_code row)) (accounting_attempt row)
  | NotInQueue | NoAccountingRow => Ok None
  end.

(** ** The forward-only join *)

(** [_RANK[life.kind]] *)
Definition rank (life : JobLife) : Z :=
  match life with
  | Unknown _ => -1
  | Queued _ => 0
  | Running _ => 1
  | Completing _ => 2
  | Ended _ _ => 3
  end.

(** [_join_live] *)
Definition join_live (prev seen : JobLife) : Step :=
  if negb (life_attempt seen =? life_attempt prev) then
    if life_attempt seen <? life_attempt prev then
      {| step_life := prev; step_notice := Some Notice.STALE_ATTEMPT; step_requeued := false |}
    else {| step_life := seen; step_notice := None; step_requeued := true |}
  else if rank seen <? rank prev then
    {| step_life := prev; step_notice := Some Notice.REGRESSION; step_requeued := false |}
  else plain_step seen.

Definition advance_with_notice (prev seen : JobLife) : Step :=
  match seen, prev with
  | Unknown _, Unknown _ => plain_step seen
  | Unknown _, _ => plain_step prev
  | _, Unknown _ => plain_step seen
  | _, Ended _ _ =>
      {| step_life := prev; step_notice := if eqb seen prev then None else Some Notice.AFTER_END;
         step_requeued := false |}
  | _, _ => join_live prev seen
  end.

Definition advance (prev seen : JobLife) : JobLife := step_life (advance_with_notice prev seen).

Definition observe_with_notice (prev : JobLife) (raw : SlurmStatus) : result KeyError Step :=
  let* seen := reading_life raw in
  Ok match seen with None => plain_step prev | Some seen => advance_with_notice prev seen end.

Definition observe (prev : JobLife) (raw : SlurmStatus) : result KeyError JobLife :=
  let* step := observe_with_notice prev raw in Ok (step_life step).

Definition needs_accounting (life : JobLife) : bool :=
  match life with Completing _ | Unknown _ => true | _ => false end.

(** ** Projections *)

Definition phase_of (life : JobLife) : SlurmPhase :=
  match life with
  | Queued _ => SlurmPhase.PENDING
  | Running _ => SlurmPhase.RUNNING
  | Completing _ => SlurmPhase.COMPLETING
  | Ended _ _ => SlurmPhase.ENDED
  | Unknown _ => SlurmPhase.UNKNOWN
  end.

(** [_STATUS_OF_OUTCOME.get(outcome, SlurmJobStatus.FAILED)] *)
Definition STATUS_OF_OUTCOME (outcome : EndOutcome) : SlurmJobStatus :=
  match outcome with
  | EndOutcome.OK => SlurmJobStatus.COMPLETED
  | EndOutcome.CANCELLED => SlurmJobStatus.CANCELLED
  | _ => SlurmJobStatus.FAILED
  end.

Definition status_of (life : JobLife) : SlurmJobStatus :=
  match life with
  | Queued _ => SlurmJobStatus.PENDING
  | Running _ | Completing _ => SlurmJobStatus.RUNNING
  | Ended outcome _ => STATUS_OF_OUTCOME outcome
  | Unknown _ => SlurmJobStatus.UNKNOWN
  end.

Definition life_for_status (status : SlurmJobStatus) (attempt : Z) : JobLife :=
  match status with
  | SlurmJobStatus.PENDING => Queued attempt
  | SlurmJobStatus.RUNNING => Running attempt
  | SlurmJobStatus.COMPLETED => Ended EndOutcome.OK attempt
  | SlurmJobStatus.FAILED => Ended EndOutcome.FAILED attempt
  | SlurmJobStatus.CANCELLED => Ended EndOutcome.CANCELLED attempt
  | SlurmJobStatus.UNKNOWN => Unknown None
  end.

(** ** What the fold promises *)

(** [b] is no earlier than [a] on the path of a job: nothing comes after an end, an unknown life has
    no place, and otherwise attempts come first, then phases. *)
Definition no_earlier (a b : JobLife) : Prop :=
  match a with
  | Unknown _ => True
  | Ended _ _ => b = a
  | _ => 0 <= rank b /\ (life_attempt a < life_attempt b \/ life_attempt a = life_attempt b /\ rank a <= rank b)
  end.

Lemma no_earlier_refl a : no_earlier a a.
Proof. destruct a; cbn; (done || lia). Qed.

Lemma no_earlier_trans a b c : no_earlier a b -> no_earlier b c -> no_earlier a c.
Proof. destruct a; cbn; try done; [..|by intros ->]; destruct b; cbn; try lia; intros ? ->; cbn; lia. Qed.

Lemma advance_forward prev seen : no_earlier prev (advance prev seen).
Proof.
  unfold advance, advance_with_notice, join_live.
  destruct prev, seen; cbn -[Z.eqb Z.ltb]; try done; repeat case_match; cbn -[Z.eqb Z.ltb] in *; try done; lia.
Qed.

Lemma advance_either prev seen : advance prev seen = prev \/ advance prev seen = seen.
Proof.
  unfold advance, advance_with_notice, join_live.
  destruct prev, seen; cbn -[Z.eqb Z.ltb]; auto; repeat case_match; auto.
Qed.

Lemma life_of_state_total state exit_code attempt raw : exists life, life_of_state state exit_code attempt raw = Ok life.
Proof. destruct state; cbn; eauto. unfold life_of_state. cbn. destruct (exit_is_clean exit_code); eauto. Qed.

Lemma reading_life_total raw : exists seen, reading_life raw = Ok seen.
Proof.
  destruct raw as [row|row| |]; cbn; eauto; destruct (parse_state _) as [state|]; eauto;
    [destruct (life_of_state_total state None (queue_attempt row) (queue_state row)) as [life ->]
    |destruct (life_of_state_total state (Some (accounting_exit_code row)) (accounting_attempt row) (accounting_state row)) as [life ->]];
    cbn; eauto.
Qed.

Lemma reading_cases prev raw :
  exists life, observe prev raw = Ok life /\ no_earlier prev life /\
    (life = prev \/ reading_life raw = Ok (Some life)).
Proof.
  unfold observe, observe_with_notice. destruct (reading_life_total raw) as [[seen|] ->]; cbn.
  - eexists. split; [done|]. split; [apply advance_forward|]. fold (advance prev seen).
    destruct (advance_either prev seen) as [->| ->]; auto.
  - exists prev. split_and!; [done|apply no_earlier_refl|auto].
Qed.

Lemma observe_all (readings : list SlurmStatus) (prev : JobLife) :
  exists life, rfold observe prev readings = Ok life /\ no_earlier prev life /\
    (life = prev \/ exists reading, reading ∈ readings /\ reading_life reading = Ok (Some life)).
Proof.
  revert prev. induction readings as [|reading readings IH]; intros prev; cbn.
  - exists prev. split_and!; [done|apply no_earlier_refl|auto].
  - destruct (reading_cases prev reading) as (mid & -> & Hmid & Hin). cbn.
    destruct (IH mid) as (life & -> & Hlife & Hout). exists life.
    split_and!; [done|by eapply no_earlier_trans|].
    destruct Hout as [->|(r & Hr & E)]; [|right; exists r; by split; [right|]].
    destruct Hin as [->|E]; [by left|]. right. exists reading. by split; [left|].
Qed.

(** C39: whatever the scheduler's readings say and in whatever order, folding them never fails, the
    life never goes back on the path of the job, an end is final, and the life held is one a reading
    said, never a guess. *)
Theorem job_life_moves_forward (readings : list SlurmStatus) (prev : JobLife) :
  exists life, rfold observe prev readings = Ok life /\ no_earlier prev life /\
    (life = prev \/ exists reading, reading ∈ readings /\ reading_life reading = Ok (Some life)).
Proof. apply observe_all. Qed.

Lemma parse_state_text t state : parse_state t = Some state -> exists s, (s, state) ∈ raw_states /\ t = str s.
Proof.
  unfold parse_state. destruct (next_such _ _) as [[s state']|] eqn:E; [|done]. intros [= <-].
  apply next_such_Some in E as [Hin Ht%eqb_eq]. exists s. auto.
Qed.

Lemma clean_exit_text t : exit_is_clean (Some t) = Some true -> t = str "0:0".
Proof.
  unfold exit_is_clean. destruct (matches EXIT_CODE t); [|done]. destruct (partition colon t) as [code signal] eqn:E.
  intros [= H]. apply andb_true_iff in H as [->%eqb_eq ->%eqb_eq]. by apply partition_app in E.
Qed.

(** What a reading of a clean end is *)
Definition clean_end (raw : SlurmStatus) : Prop :=
  match raw with
  | InQueue row => queue_state row = str "COMPLETED"
  | InAccounting row => accounting_state row = str "COMPLETED" /\ accounting_exit_code row = str "0:0"
  | NotInQueue | NoAccountingRow => False
  end.

Lemma life_of_state_completed state exit_code attempt raw life :
  life_of_state state exit_code attempt raw = Ok life -> status_of life = SlurmJobStatus.COMPLETED ->
  state = SlurmRawState.COMPLETED /\ exit_is_clean exit_code = Some true.
Proof.
  destruct state; cbn; try (intros [= <-]; done). unfold life_of_state. cbn.
  destruct (exit_is_clean exit_code) as [[]|]; intros [= <-]; done.
Qed.

Lemma raw_states_completed s : (s, SlurmRawState.COMPLETED) ∈ raw_states -> s = "COMPLETED"%string.
Proof. unfold raw_states. intros H. repeat (apply elem_of_cons in H as [H|H]; [by simplify_eq|]). by apply not_elem_of_nil in H. Qed.

Lemma reading_life_completed raw life :
  reading_life raw = Ok (Some life) -> status_of life = SlurmJobStatus.COMPLETED -> clean_end raw.
Proof.
  intros E Hs. destruct raw as [row|row| |]; cbn in E; try done;
    (destruct (parse_state _) as [state|] eqn:Hp; [|by simplify_eq]);
    apply rbind_Ok in E as (life' & E & [= ->]);
    destruct (life_of_state_completed _ _ _ _ _ E Hs) as [-> Hc];
    apply parse_state_text in Hp as (s & ->%raw_states_completed & Ht); cbn; [done|].
  split; [done|by apply clean_exit_text].
Qed.

(** C40: a job reads as COMPLETED only when some reading said so: squeue's COMPLETED, or sacct's with
    the exit code [0:0]; no absence, no lag and no other end is ever taken for success. *)
Theorem completion_needs_clean_exit readings life :
  rfold observe INITIAL_LIFE readings = Ok life -> status_of life = SlurmJobStatus.COMPLETED ->
  exists reading, reading ∈ readings /\ clean_end reading.
Proof.
  intros E Hs. destruct (observe_all readings INITIAL_LIFE) as (life' & E' & _ & Hl). rewrite E in E'. injection E' as <-.
  destruct Hl as [->|(r & Hr & El)]; [by cbn in Hs|]. exists r. split; [done|by eapply reading_life_completed].
Qed.

Definition sample_readings : list SlurmStatus :=
  [parse_queue_row (str "PENDING|Priority|N/A"); parse_queue_row (str "RUNNING|None|2026-01-01T00:00:00");
   NotInQueue; parse_accounting_row (str "COMPLETED|0:0"); parse_queue_row (str "PENDING||")].

Lemma completion_needs_clean_exit_witness :
  exists reading, reading ∈ sample_readings /\ clean_end reading.
Proof.
  apply (completion_needs_clean_exit sample_readings (Ended EndOutcome.OK 0)); reflexivity.
Defined.
