(* ===== verification/SlurmOutcomes.v ===== *)
(** * What the cluster answers

    [libs/vs-slurm/src/vs_slurm/cluster_types.py], and the handles and results of [runner.py] it is
    about.  A handle's own checks of its paths and names are the data library's and not modelled. *)

From S2P Require Import Prelude PyFloat Regex SlurmStates.

(** ** Handles *)

Module ArtifactKind.
Inductive ArtifactKind : Set := FILE | TREE.
End ArtifactKind.
Abbreviation ArtifactKind := ArtifactKind.ArtifactKind.
#[export] Instance ArtifactKind_dec : EqDecision ArtifactKind.
Proof. solve_decision. Defined.

Record SlurmArtifactTarget := {
  target_remote_path : string;
  target_local_path : string;
  target_kind : ArtifactKind;
  target_collect_on_failure : bool
}.
#[export] Instance SlurmArtifactTarget_dec : EqDecision SlurmArtifactTarget.
Proof. solve_decision. Defined.

Record SlurmJobHandle := {
  handle_job_id : string;
  handle_invocation_id : string;
  handle_config_identity : string;
  handle_remote_workspace : string;
  handle_remote_status_path : string;
  handle_remote_log_path : string;
  handle_artifacts : list SlurmArtifactTarget;
  handle_staging_seconds : float;
  handle_content_cache_hits : Z
}.
#[export] Instance SlurmJobHandle_dec : EqDecision SlurmJobHandle.
Proof. solve_decision. Defined.

Record SlurmBatchStageHandle := {
  stage_handle_name : string;
  stage_file_artifacts : list SlurmArtifactTarget;
  stage_tree_artifacts : list SlurmArtifactTarget
}.
#[export] Instance SlurmBatchStageHandle_dec : EqDecision SlurmBatchStageHandle.
Proof. solve_decision. Defined.

Record SlurmBatchHandle := {
  batch_job : SlurmJobHandle;
  batch_stages : list SlurmBatchStageHandle;
  batch_stop_on_failure : bool;
  batch_submission_seconds : float;
  batch_waited_seconds : float
}.
#[export] Instance SlurmBatchHandle_dec : EqDecision SlurmBatchHandle.
Proof. solve_decision. Defined.

Inductive ClusterHandle : Type :=
  | JobHandle (handle : SlurmJobHandle)
  | BatchHandle (handle : SlurmBatchHandle).
#[export] Instance ClusterHandle_dec : EqDecision ClusterHandle.
Proof. solve_decision. Defined.

Inductive ClusterTarget : Type :=
  | TargetName (name : string)
  | TargetHandle (handle : ClusterHandle).

(** ** Results *)

Record SlurmJobResult := {
  result_job_id : string;
  result_exit_code : option Z;
  result_output : string;
  result_collection_failure : option string
}.
#[export] Instance SlurmJobResult_dec : EqDecision SlurmJobResult.
Proof. solve_decision. Defined.

Record SlurmBatchStageResult := {
  stage_name : string;
  stage_exit_code : option Z;
  stage_stdout : string;
  stage_stderr : string;
  stage_elapsed_seconds : option float;
  stage_skipped : bool;
  stage_artifacts : list SlurmArtifactTarget;
  stage_collection_failure : option string
}.
#[export] Instance SlurmBatchStageResult_dec : EqDecision SlurmBatchStageResult.
Proof. solve_decision. Defined.

Record SlurmBatchResult := {
  batch_job_id : string;
  batch_job_exit_code : option Z;
  batch_job_output : string;
  batch_result_stages : list SlurmBatchStageResult;
  batch_phase_timings_seconds : gmap string float;
  batch_content_cache_hits : Z;
  batch_service_log_tail : string;
  batch_collection_failure : option string;
  batch_node : option string
}.
#[export] Instance SlurmBatchResult_dec : EqDecision SlurmBatchResult.
Proof. solve_decision. Defined.

Inductive ClusterResult : Type :=
  | JobResult (outcome : SlurmJobResult)
  | BatchResult (outcome : SlurmBatchResult).
#[export] Instance ClusterResult_dec : EqDecision ClusterResult.
Proof. solve_decision. Defined.

Definition SERVICE_NOT_READY_EXIT_CODE : Z := 70.
Definition STAGE_TIMEOUT_EXIT_CODES : list Z := [124; 137].
Definition MAX_PROCESS_EXIT_CODE : Z := 255.

(** [_valid_exit_status] *)
Definition valid_exit_status (value : option Z) : bool :=
  match value with
  | Some value => (0 <=? value) && (value <=? MAX_PROCESS_EXIT_CODE)
  | None => false
  end.

(** [cluster_types._stage_problem] *)
Definition evidence_problem (stage : SlurmBatchStageResult) : option string :=
  match stage_collection_failure stage with
  | Some failure => Some failure
  | None =>
      if stage_skipped stage then
        (if not_none (stage_exit_code stage) then Some "skipped stage has a contradictory exit status"%string else None)
      else if valid_exit_status (stage_exit_code stage) then None
      else Some "missing or malformed stage exit status"%string
  end.

(** [next((p for p in map(f, l) if p is not None), None)], and the loop that returns the first one *)
Fixpoint first_some {A B : Type} (f : A -> option B) (l : list A) : option B :=
  match l with
  | [] => None
  | x :: l' => match f x with Some y => Some y | None => first_some f l' end
  end.

Definition collection_problem (outcome : ClusterResult) : option string :=
  let code := match outcome with
              | BatchResult outcome => batch_job_exit_code outcome
              | JobResult outcome => result_exit_code outcome
              end in
  if negb (valid_exit_status code) then Some "missing or malformed allocation exit status"%string
  else
    let failure := match outcome with
                   | BatchResult outcome => batch_collection_failure outcome
                   | JobResult outcome => result_collection_failure outcome
                   end in
    match failure with
    | Some failure => Some failure
    | None =>
        match outcome with
        | JobResult _ => None
        | BatchResult outcome =>
            match batch_result_stages outcome with
            | [] => Some "missing stage evidence"%string
            | stages => first_some evidence_problem stages
            end
        end
    end.

(** ** Outcomes of the cluster's operations *)

Record ClusterUnknown := {
  unknown_operation_id : option string;
  unknown_reason : string;
  unknown_job_id : option string;
  unknown_result : option ClusterResult;
  unknown_job_absent : bool
}.
#[export] Instance ClusterUnknown_dec : EqDecision ClusterUnknown.
Proof. solve_decision. Defined.

(** [ClusterUnknown._absent_names_no_job] *)
Definition absent_names_no_job (self : ClusterUnknown) : bool :=
  negb (unknown_job_absent self && (not_none (unknown_job_id self) || not_none (unknown_result self))).

Record ClusterObservation := {
  observed_operation_id : option string;
  observed_job_id : string;
  observed_life : JobLife;
  observed_pending_reason : option string;
  observed_estimated_start : option string;
  observed_handle : option ClusterHandle;
  observed_completed_stages : option Z
}.
#[export] Instance ClusterObservation_dec : EqDecision ClusterObservation.
Proof. solve_decision. Defined.

(** [ClusterObservation._known_life] *)
Definition known_life (self : ClusterObservation) : bool :=
  match observed_life self with Unknown _ => false | _ => true end.

Definition observed_status (self : ClusterObservation) : SlurmJobStatus := status_of (observed_life self).
Definition observed_phase (self : ClusterObservation) : SlurmPhase := phase_of (observed_life self).
Definition observed_attempt (self : ClusterObservation) : Z := life_attempt (observed_life self).

Inductive ClusterSubmitOutcome : Type :=
  | ClusterSubmitted (operation_id : string) (handle : ClusterHandle)
  | ClusterConflict (operation_id reason : string)
  | ClusterRejected (operation_id reason : string)
  | SubmitUnknown (unknown : ClusterUnknown).

Inductive ClusterInspectOutcome : Type :=
  | Observed (observation : ClusterObservation)
  | InspectUnknown (unknown : ClusterUnknown).

Inductive ClusterCancelOutcome : Type :=
  | ClusterCancelRequested (operation_id : option string) (job_id : option string)
  | CancelUnknown (unknown : ClusterUnknown).

Inductive ClusterCollectOutcome : Type :=
  | ClusterCollected (operation_id : option string) (outcome : ClusterResult)
  | CollectUnknown (unknown : ClusterUnknown).

(** [ClusterCollected._complete_evidence] *)
Definition complete_evidence (outcome : ClusterResult) : bool := is_none (collection_problem outcome).

Definition OBSERVED_CANCEL_CALLS : Z := 1.

(** [observation_names] *)
Definition observation_names (target : ClusterTarget) (observed : ClusterObservation) (by_job_id : bool) : bool :=
  match target with
  | TargetName name =>
      if by_job_id then eqb (observed_job_id observed) name
      else eqb (observed_operation_id observed) (Some name)
  | TargetHandle (BatchHandle handle) => eqb (observed_job_id observed) (handle_job_id (batch_job handle))
  | TargetHandle (JobHandle handle) => eqb (observed_job_id observed) (handle_job_id handle)
  end.

(** [live_observation] *)
Definition live_observation (observed : option ClusterObservation) : option ClusterObservation :=
  match observed with
  | Some observation =>
      if among (observed_phase observation) [SlurmPhase.PENDING; SlurmPhase.RUNNING] then observed else None
  | None => None
  end.

(** [OPERATION_ID]: [validate_operation_id] requires a safe stable identifier *)
Definition safe_start : ranges := [(48, 57); (65, 90); (97, 122)].
Definition safe_rest : ranges := safe_start ++ [(95, 95); (46, 46); (45, 45)].

(** [re.fullmatch(r"[first][rest]{0,n}", value)] for classes of ASCII characters *)
Definition named (first rest : ranges) (n : Z) (value : string) : bool :=
  match str value with
  | [] => false
  | c :: s => in_ranges first c && forallb (in_ranges rest) s && (Z.of_nat (length s) <=? n)
  end.

Definition valid_operation_id (value : string) : bool := named safe_start safe_rest 127 value.
