(* ===== verification/SlurmLedger.v ===== *)
(** * The evaluation ledger: its documents and its policy

    [libs/vs-slurm/src/vs_slurm/ledger.py].  A request of a project has attempts; an attempt is a
    chain of record revisions, and beside it a chain of withdrawal revisions and the leases of the
    runs that want it.  Times are epoch seconds. *)

From stdpp Require Import pretty.
From S2P Require Import Prelude PyFloat PySorted Regex SlurmStates SlurmOutcomes.

(** ** Errors *)

Inductive LedgerError : Type :=
  | Unreadable (path detail : string)
  | UnsupportedVersion (path version : string)
  | InvalidName (kind value : string)
  | IllegalTransition (key : string) (attempt : Z) (before after why : string)
  | TransportFailed (error : string)
  | MalformedReply (operation : string)
  | ClaimUnreadable (key : string)
  | WindowTooLong (message : string).

(** [str(error)] *)
Definition error_text (error : LedgerError) : string :=
  match error with
  | Unreadable path detail => "evaluation ledger document " +:+ path +:+ " is unreadable: " +:+ detail
  | UnsupportedVersion path version =>
      "evaluation ledger document " +:+ path +:+ " has unsupported format_version " +:+ version
  | InvalidName kind value => "invalid evaluation ledger " +:+ kind +:+ " '" +:+ value +:+ "'"
  | IllegalTransition key attempt before after why =>
      "evaluation ledger request " +:+ String.substring 0 12 key +:+ " attempt " +:+ pretty attempt +:+
      " cannot go from " +:+ before +:+ " to " +:+ after +:+ ": " +:+ why
  | TransportFailed error => "evaluation ledger operation failed: " +:+ error
  | MalformedReply operation => "evaluation ledger " +:+ operation +:+ " returned a malformed reply"
  | ClaimUnreadable key => "evaluation ledger request " +:+ key +:+ " was claimed but cannot be read"
  | WindowTooLong message => message
  end.

(** What an operation may raise: a [LedgerError], the data library's [ValidationError] ([Invalid]), and
    [slurm_ledger.py]'s [LedgerWithdrawnError], [LedgerAttachError] and [SlurmSubmissionRejectedError] *)
Inductive Raised : Type :=
  | Ledger (error : LedgerError)
  | Invalid (model : string)
  | LedgerWithdrawn (key reason : string)
  | LedgerAttach (key : string) (layout : Z)
  | SubmissionRejected (reason : string).

(** ** Names *)

Definition lower_hex : ranges := [(48, 57); (97, 102)].

(** [_KEY.fullmatch(value) is not None] *)
Definition is_key (value : string) : bool :=
  forallb (in_ranges lower_hex) (str value) && (String.length value =? 64)%nat.

Definition validate_key (value : string) : result Raised string :=
  require* is_key value else Ledger (InvalidName "key" value) in Ok value.
Definition validate_project (value : string) : result Raised string :=
  require* valid_operation_id value else Ledger (InvalidName "project" value) in Ok value.
Definition validate_holder (value : string) : result Raised string :=
  require* valid_operation_id value else Ledger (InvalidName "holder" value) in Ok value.

Definition ledger_operation_id (key : string) (attempt : Z) : result Raised string :=
  let* _ := validate_key key in
  Ok ("ev-" +:+ String.substring 0 48 key +:+ "-" +:+ pretty attempt).

(** ** Documents *)

Record LedgerArtifact := {
  artifact_remote_path : string;
  artifact_kind : ArtifactKind;
  artifact_collect_on_failure : bool
}.
#[export] Instance LedgerArtifact_dec : EqDecision LedgerArtifact.
Proof. solve_decision. Defined.

Record LedgerStage := {
  ledger_stage_name : string;
  ledger_stage_artifacts : list LedgerArtifact
}.
#[export] Instance LedgerStage_dec : EqDecision LedgerStage.
Proof. solve_decision. Defined.

Definition BATCH_RESULT_LAYOUT : Z := 1.

Record SubmitBoundJob := {
  job_id : string;
  job_config_identity : string;
  job_remote_workspace : string;
  job_remote_status_path : string;
  job_remote_log_path : string;
  job_stop_on_failure : bool;
  job_stages : list LedgerStage;
  job_result_layout : Z
}.
#[export] Instance SubmitBoundJob_dec : EqDecision SubmitBoundJob.
Proof. solve_decision. Defined.

(** The constraints on the fields of [SubmitBoundJob] *)
Definition job_fields (self : SubmitBoundJob) : bool :=
  negb (eqb (job_id self) ""%string) && forallb (in_ranges [(48, 57)]) (str (job_id self)) &&
  (String.length (job_id self) <=? 32)%nat && negb (length (job_stages self) =? 0)%nat.

Module LedgerState.
Inductive LedgerState : Set := SUBMITTING | SUBMITTED | COMPLETED | FAILED | WITHDRAWN.
End LedgerState.
Abbreviation LedgerState := LedgerState.LedgerState.
#[export] Instance LedgerState_dec : EqDecision LedgerState.
Proof. solve_decision. Defined.

Definition state_value (self : LedgerState) : string :=
  match self with
  | LedgerState.SUBMITTING => "submitting"
  | LedgerState.SUBMITTED => "submitted"
  | LedgerState.COMPLETED => "completed"
  | LedgerState.FAILED => "failed"
  | LedgerState.WITHDRAWN => "withdrawn"
  end.

(** [_NEXT_STATES[state]] *)
Definition NEXT_STATES (state : LedgerState) : list LedgerState :=
  match state with
  | LedgerState.SUBMITTING => [LedgerState.SUBMITTED; LedgerState.FAILED; LedgerState.WITHDRAWN]
  | LedgerState.SUBMITTED => [LedgerState.COMPLETED; LedgerState.FAILED; LedgerState.WITHDRAWN]
  | LedgerState.COMPLETED => [LedgerState.WITHDRAWN]
  | LedgerState.FAILED | LedgerState.WITHDRAWN => []
  end.

Definition state_final (self : LedgerState) : bool := (length (NEXT_STATES self) =? 0)%nat.
Definition state_settled (self : LedgerState) : bool :=
  among self [LedgerState.COMPLETED; LedgerState.FAILED; LedgerState.WITHDRAWN].

Definition ENDED_WITH_REASON : list LedgerState := [LedgerState.FAILED; LedgerState.WITHDRAWN].
Definition NAMES_A_JOB : list LedgerState := [LedgerState.SUBMITTED; LedgerState.COMPLETED].

Record LedgerLabels := { label_candidate : option string; label_workstream : option string }.
#[export] Instance LedgerLabels_dec : EqDecision LedgerLabels.
Proof. solve_decision. Defined.

Record LedgerRecord := {
  key : string;
  project : string;
  attempt : Z;
  operation_id : string;
  owner : string;
  created_at : float;
  claim_expires_at : float;
  labels : LedgerLabels;
  state : LedgerState;
  job : option SubmitBoundJob;
  reason : option string
}.
#[export] Instance LedgerRecord_dec : EqDecision LedgerRecord.
Proof. solve_decision. Defined.
#[export] Instance LedgerRecord_eta : Eta LedgerRecord := fun r => Build_LedgerRecord
  (key r) (project r) (attempt r) (operation_id r) (owner r) (created_at r) (claim_expires_at r) (labels r)
  (state r) (job r) (reason r).

(** [LedgerRecord._consistent], whose failure, as that of a field's constraint, the data library
    raises as its own error *)
Definition record_consistent (self : LedgerRecord) : bool :=
  is_key (key self) && valid_operation_id (project self) && valid_operation_id (owner self) &&
  match ledger_operation_id (key self) (attempt self) with
  | Ok derived => eqb (operation_id self) derived
  | Err _ => false
  end &&
  negb (eqb (state self) LedgerState.SUBMITTING && not_none (job self)) &&
  negb (among (state self) NAMES_A_JOB && is_none (job self)) &&
  eqb (among (state self) ENDED_WITH_REASON) (not_none (reason self)).

(** [LedgerRecord.model_validate]: its fields' constraints, and that it is consistent *)
Definition record_valid (self : LedgerRecord) : bool :=
  (0 <=? attempt self) && match job self with Some job => job_fields job | None => true end &&
  record_consistent self.

Record LedgerLease := {
  holder : string;
  renewed_at : float;
  expires_at : float
}.
#[export] Instance LedgerLease_dec : EqDecision LedgerLease.
Proof. solve_decision. Defined.

Record WithdrawalMark := {
  mark_attempt : Z;
  mark_by : string;
  mark_writer : string;
  mark_since : float;
  mark_until : float;
  mark_reason : string
}.
#[export] Instance WithdrawalMark_dec : EqDecision WithdrawalMark.
Proof. solve_decision. Defined.

(** [WithdrawalMark._consistent] *)
Definition mark_consistent (self : WithdrawalMark) : bool :=
  valid_operation_id (mark_by self) && negb (flt (mark_until self) (mark_since self)).

(** [WithdrawalDocument]: a mark, or that the withdrawal before this revision was undone *)
Inductive WithdrawalDocument : Type :=
  | Mark (mark : WithdrawalMark)
  | WithdrawalUndone (undone_attempt : Z).
#[export] Instance WithdrawalDocument_dec : EqDecision WithdrawalDocument.
Proof. solve_decision. Defined.

(** The [attempt] of either document *)
Definition document_attempt (document : WithdrawalDocument) : Z :=
  match document with Mark mark => mark_attempt mark | WithdrawalUndone attempt => attempt end.

Record UnreadableLease := { unreadable_holder : string; unreadable_written_at : float }.
#[export] Instance UnreadableLease_dec : EqDecision UnreadableLease.
Proof. solve_decision. Defined.

(** [WithdrawalRevision]: a document, or [UnreadableWithdrawal] with when it was written *)
Inductive WithdrawalRevision : Type :=
  | Readable (document : WithdrawalDocument)
  | UnreadableWithdrawal (written_at : float).

(** [UnreadableWithdrawal.__post_init__] *)
Definition unreadable_withdrawal (written_at : float) : result Raised WithdrawalRevision :=
  require* is_finite written_at else Invalid "UnreadableWithdrawal" in Ok (UnreadableWithdrawal written_at).

Definition MAX_WITHDRAWAL_WINDOW_SECONDS : float := of_int 900.
Definition UNREADABLE_WITHDRAWER : string := "unreadable-withdrawal".

(** [_unreadable_withdrawal_mark] *)
Definition unreadable_withdrawal_mark (record : LedgerRecord) (written_at : float) : WithdrawalMark :=
  let window := fmax (fsub (claim_expires_at record) (created_at record)) MAX_WITHDRAWAL_WINDOW_SECONDS in
  {| mark_attempt := attempt record; mark_by := UNREADABLE_WITHDRAWER; mark_writer := UNREADABLE_WITHDRAWER;
     mark_since := written_at; mark_until := fadd written_at window;
     mark_reason := "a withdrawal revision this build cannot read" |}.

Record LedgerEntry := {
  entry_record : LedgerRecord;
  entry_leases : list LedgerLease;
  entry_revision : Z;
  entry_unreadable_leases : list UnreadableLease;
  entry_earlier : list LedgerRecord;
  entry_withdrawal : option WithdrawalMark;
  entry_withdrawal_revision : Z
}.
#[export] Instance LedgerEntry_dec : EqDecision LedgerEntry.
Proof. solve_decision. Defined.
#[export] Instance LedgerEntry_eta : Eta LedgerEntry := fun r => Build_LedgerEntry
  (entry_record r) (entry_leases r) (entry_revision r) (entry_unreadable_leases r) (entry_earlier r)
  (entry_withdrawal r) (entry_withdrawal_revision r).

(** [LedgerEntry(record)] *)
Definition entry_of_claim (record : LedgerRecord) : LedgerEntry :=
  {| entry_record := record; entry_leases := []; entry_revision := 0; entry_unreadable_leases := [];
     entry_earlier := []; entry_withdrawal := None; entry_withdrawal_revision := -1 |}.

Definition claim_window (self : LedgerEntry) : float :=
  fsub (claim_expires_at (entry_record self)) (created_at (entry_record self)).

(** ** The state machine of an attempt *)

Definition illegal_transition (before after : LedgerRecord) (why : string) : Raised :=
  Ledger (IllegalTransition (key before) (attempt before) (state_value (state before)) (state_value (state after)) why).

Definition check_transition (before after : LedgerRecord) : result Raised unit :=
  require* eqb (key before) (key after) && eqb (project before) (project after) &&
           (attempt before =? attempt after) && eqb (operation_id before) (operation_id after) &&
           eqb (owner before) (owner after) && feq (created_at before) (created_at after) &&
           eqb (labels before) (labels after)
    else illegal_transition before after "it changes the attempt's identity" in
  require* feq (claim_expires_at before) (claim_expires_at after) && among (state after) (NEXT_STATES (state before))
    else illegal_transition before after "the state machine does not allow it" in
  require* negb (not_none (job before) && negb (eqb (job after) (job before)))
    else illegal_transition before after "it changes the attempt's job" in
  Ok tt.

Definition transitioned (record : LedgerRecord) (state' : LedgerState) (job' : option SubmitBoundJob)
    (reason' : option string) : result Raised LedgerRecord :=
  let after := record <| state := state' |> <| job := if not_none job' then job' else job record |>
                      <| reason := reason' |> in
  require* record_valid after else Invalid "LedgerRecord" in
  let* _ := check_transition record after in
  Ok after.

(** ** The entry of a request *)

(** [latest[attempt] = (revision, record)] when [attempt] is new or [revision] is higher *)
Fixpoint note_latest (attempt revision : Z) (record : LedgerRecord) (latest : list (Z * (Z * LedgerRecord)))
  : list (Z * (Z * LedgerRecord)) :=
  match latest with
  | [] => [(attempt, (revision, record))]
  | (attempt', (revision', record')) :: latest =>
      if attempt' =? attempt then
        (attempt', if revision' <? revision then (revision, record) else (revision', record')) :: latest
      else (attempt', (revision', record')) :: note_latest attempt revision record latest
  end.

Definition newest_withdrawal (attempt : Z) (withdrawals : list (Z * Z * WithdrawalRevision))
  : option (Z * WithdrawalRevision) :=
  fold_left (fun newest '(attempt', sequence, document) =>
    if (attempt' =? attempt) && match newest with None => true | Some (sequence', _) => sequence' <? sequence end
    then Some (sequence, document) else newest) withdrawals None.

Definition entry_of (records : list (Z * Z * LedgerRecord)) (withdrawals : list (Z * Z * WithdrawalRevision))
    (leases : list LedgerLease) (unreadable_leases : list UnreadableLease) : option LedgerEntry :=
  let latest := fold_left (fun latest '(attempt, revision, record) => note_latest attempt revision record latest)
                  records [] in
  match rev (sorted_by (fun a b => fst a <? fst b) latest) with
  | [] => None
  | (_, (revision, current)) :: earlier =>
      let newest := newest_withdrawal (attempt current) withdrawals in
      let withdrawal := match newest with
                        | Some (_, Readable (Mark mark)) => Some mark
                        | Some (_, UnreadableWithdrawal written_at) =>
                            Some (unreadable_withdrawal_mark current written_at)
                        | Some (_, Readable (WithdrawalUndone _)) | None => None
                        end in
      Some {| entry_record := current;
              entry_leases := sorted_by (fun a b => String.ltb (holder a) (holder b)) leases;
              entry_revision := revision;
              entry_unreadable_leases :=
                sorted_by (fun a b => String.ltb (unreadable_holder a) (unreadable_holder b)) unreadable_leases;
              entry_earlier := map (fun row => snd (snd row)) (rev earlier);
              entry_withdrawal := withdrawal;
              entry_withdrawal_revision := match newest with Some (sequence, _) => sequence | None => -1 end |}
  end.

Definition check_withdrawal (current : LedgerEntry) (document : WithdrawalDocument) : result Raised unit :=
  let record := entry_record current in
  require* document_attempt document =? attempt record
    else illegal_transition record record "a withdrawal names another attempt" in
  match document with
  | Mark _ =>
      require* negb (state_final (state record)) else illegal_transition record record "only a live attempt is withdrawn" in
      ensure (is_none (entry_withdrawal current)) (illegal_transition record record "a withdrawal is under way")
  | WithdrawalUndone _ =>
      ensure (not_none (entry_withdrawal current)) (illegal_transition record record "no withdrawal is under way")
  end.

Definition withdrawal_expired (mark : WithdrawalMark) (now : float) : bool := flt (mark_until mark) now.

(** ** How an attempt settles *)

(** [_INTERRUPTED_EXIT_CODES] *)
Definition INTERRUPTED_EXIT_CODES : list Z := STAGE_TIMEOUT_EXIT_CODES ++ [143; SERVICE_NOT_READY_EXIT_CODE].

(** [Settlement.state] is COMPLETED or FAILED *)
Record Settlement := {
  settlement_state : LedgerState;
  settlement_reason : option string
}.
#[export] Instance Settlement_dec : EqDecision Settlement.
Proof. solve_decision. Defined.

(** [f"{code}"], for an exit code or None *)
Definition code_text (code : option Z) : string := match code with Some code => pretty code | None => "None" end.

(** [f"{name!r}"], for a name with no quote and nothing to escape, as a stage's is *)
Definition quoted (name : string) : string := "'" +:+ name +:+ "'".

(** [ledger._stage_problem] *)
Definition stage_problem (name : string) (item : option SlurmBatchStageResult) : option string :=
  match item with
  | None => Some ("stage " +:+ quoted name +:+ " left no result")
  | Some item =>
      if not_none (stage_collection_failure item) || (is_none (stage_exit_code item) && negb (stage_skipped item))
      then Some ("stage " +:+ quoted name +:+ " left no result")
      else match stage_exit_code item with
           | Some code =>
               if among code INTERRUPTED_EXIT_CODES
               then Some ("stage " +:+ quoted name +:+ " timed out or was killed (exit code " +:+ pretty code +:+ ")")
               else None
           | None => None
           end
  end.

(** [{stage.name: stage for stage in result.stages}.get(name)]: the last one of the name *)
Definition stage_named (name : string) (stages : list SlurmBatchStageResult) : option SlurmBatchStageResult :=
  next_such (fun stage => eqb (stage_name stage) name) (rev stages).

(** [_unreusable] *)
Definition unreusable (collected : ClusterCollectOutcome) (job : SubmitBoundJob) : option string :=
  let uncollected detail := Some ("its results could not be collected: " +:+ detail) in
  match collected with
  | CollectUnknown unknown => uncollected (unknown_reason unknown)
  | ClusterCollected _ (JobResult _) => uncollected "they are not a batch's"
  | ClusterCollected _ (BatchResult outcome) =>
      match batch_collection_failure outcome with
      | Some failure => uncollected failure
      | None =>
          if negb (eqb (batch_job_exit_code outcome) (Some 0))
          then Some ("its batch exited with code " +:+ code_text (batch_job_exit_code outcome))
          else first_some (fun stage => stage_problem (ledger_stage_name stage)
                                          (stage_named (ledger_stage_name stage) (batch_result_stages outcome)))
                 (job_stages job)
      end
  end.

Definition settlement (status : SlurmJobStatus) (collected : option ClusterCollectOutcome) (job : SubmitBoundJob)
  : option Settlement :=
  let failed reason := Some {| settlement_state := LedgerState.FAILED; settlement_reason := Some reason |} in
  if negb (status_terminal status) then None
  else if negb (eqb status SlurmJobStatus.COMPLETED)
  then failed ("job " +:+ job_id job +:+ " ended " +:+ status_value status)
  else match collected with
       | None => None
       | Some collected =>
           if match collected with CollectUnknown unknown => is_none (unknown_result unknown) | _ => false end then None
           else match unreusable collected job with
                | None => Some {| settlement_state := LedgerState.COMPLETED; settlement_reason := None |}
                | Some problem => failed ("job " +:+ job_id job +:+ " finished, but " +:+ problem)
                end
       end.

(** ** Stored documents *)

Definition LEDGER_FORMAT_VERSION : Z := 1.

(** What is stored ([stored], a text); what the JSON reader and the data library make of it: [decode_json]
    into an object of type [json], its [format_version] and how that prints, and a model's fields; and
    what [model_dump_json] stores. *)
Class LedgerCodec := {
  stored : Type;
  json : Type;
  decode_json : stored -> option json;
  format_version : json -> option Z;
  version_repr : json -> string;
  record_fields : json -> option LedgerRecord;
  lease_fields : json -> option LedgerLease;
  withdrawal_fields : json -> option WithdrawalDocument;
  dump_record : LedgerRecord -> stored;
  dump_lease : LedgerLease -> stored;
  dump_withdrawal : WithdrawalDocument -> stored
}.

(** What was stored is read back *)
Class LedgerCodecLaws (codec : LedgerCodec) := {
  record_back : forall record, exists document, decode_json (dump_record record) = Some document /\
    format_version document = Some LEDGER_FORMAT_VERSION /\ record_fields document = Some record;
  lease_back : forall lease, exists document, decode_json (dump_lease lease) = Some document /\
    format_version document = Some LEDGER_FORMAT_VERSION /\ lease_fields document = Some lease;
  withdrawal_back : forall withdrawal, exists document, decode_json (dump_withdrawal withdrawal) = Some document /\
    format_version document = Some LEDGER_FORMAT_VERSION /\ withdrawal_fields document = Some withdrawal
}.

Section Stored.
Context `{LedgerCodec}.

(** [_decode]: [fields] and [valid] are what the data library makes of a model *)
Definition decode {A : Type} (fields : json -> option A) (valid : A -> bool) (text : stored) (path : string) : result Raised A :=
  match decode_json text with
  | None => Err (Ledger (Unreadable path "not a JSON object"))
  | Some document =>
      if negb (eqb (format_version document) (Some LEDGER_FORMAT_VERSION)) then Err (Ledger (UnsupportedVersion path (version_repr document)))
      else match fields document with
           | Some value => if valid value then Ok value else Err (Ledger (Unreadable path "invalid fields"))
           | None => Err (Ledger (Unreadable path "invalid fields"))
           end
  end.

Definition decode_record (text : stored) (path : string) : result Raised LedgerRecord :=
  decode record_fields record_valid text path.

(** [LedgerLease._safe_holder] is what makes a lease valid *)
Definition decode_lease (text : stored) (path : string) : result Raised LedgerLease :=
  decode lease_fields (fun lease => valid_operation_id (holder lease)) text path.

Definition withdrawal_valid (document : WithdrawalDocument) : bool :=
  (0 <=? document_attempt document) &&
  match document with
  | Mark mark => (1 <=? String.length (mark_writer mark))%nat && (String.length (mark_writer mark) <=? 64)%nat &&
                 mark_consistent mark
  | WithdrawalUndone _ => true
  end.

Definition decode_withdrawal (text : stored) (path : string) : result Raised WithdrawalDocument :=
  decode withdrawal_fields withdrawal_valid text path.

(** [read_withdrawal_revision], the [written_at] of an unreadable one apart: [None] is that this build
    cannot decode it *)
Definition readable_withdrawal (text : stored) (path : string) (attempt : Z) : option WithdrawalDocument :=
  match decode_withdrawal text path with
  | Ok document => if document_attempt document =? attempt then Some document else None
  | Err _ => None
  end.
End Stored.

(** ** Jobs and handles *)

(** A request, as its stages' declared artifacts; the rest of it is only handed to the cluster *)
Record SlurmBatchRequest := { request_stages : list SlurmBatchStageHandle }.

(** [batch_stage_handles], of a request that is valid: a key was computed for it *)
Definition batch_stage_handles (request : SlurmBatchRequest) : list SlurmBatchStageHandle := request_stages request.

Definition artifacts_of (stage : SlurmBatchStageHandle) : list SlurmArtifactTarget :=
  stage_file_artifacts stage ++ stage_tree_artifacts stage.

Definition job_of_handle (handle : SlurmBatchHandle) : SubmitBoundJob :=
  {| job_id := handle_job_id (batch_job handle);
     job_config_identity := handle_config_identity (batch_job handle);
     job_remote_workspace := handle_remote_workspace (batch_job handle);
     job_remote_status_path := handle_remote_status_path (batch_job handle);
     job_remote_log_path := handle_remote_log_path (batch_job handle);
     job_stop_on_failure := batch_stop_on_failure handle;
     job_stages := map (fun stage =>
       {| ledger_stage_name := stage_handle_name stage;
          ledger_stage_artifacts := map (fun item =>
            {| artifact_remote_path := target_remote_path item; artifact_kind := target_kind item;
               artifact_collect_on_failure := target_collect_on_failure item |}) (artifacts_of stage) |})
       (batch_stages handle);
     job_result_layout := BATCH_RESULT_LAYOUT |}.

Definition declared_stages (stages : list SlurmBatchStageHandle) : list (string * list (string * ArtifactKind * bool)) :=
  map (fun stage => (stage_handle_name stage,
    map (fun item => (target_remote_path item, target_kind item, target_collect_on_failure item)) (artifacts_of stage)))
    stages.

Definition recorded_stages (job : SubmitBoundJob) : list (string * list (string * ArtifactKind * bool)) :=
  map (fun stage => (ledger_stage_name stage,
    map (fun item => (artifact_remote_path item, artifact_kind item, artifact_collect_on_failure item))
      (ledger_stage_artifacts stage))) (job_stages job).

Definition handle_of_job (job : SubmitBoundJob) (operation_id : string) (request : SlurmBatchRequest)
  : result Raised SlurmBatchHandle :=
  let stages := batch_stage_handles request in
  require* eqb (declared_stages stages) (recorded_stages job)
    else Ledger (Unreadable operation_id "its stages differ from the request's") in
  Ok {| batch_job := {| handle_job_id := job_id job; handle_invocation_id := operation_id;
                        handle_config_identity := job_config_identity job;
                        handle_remote_workspace := job_remote_workspace job;
                        handle_remote_status_path := job_remote_status_path job;
                        handle_remote_log_path := job_remote_log_path job;
                        handle_artifacts := []; handle_staging_seconds := fzero; handle_content_cache_hits := 0 |};
        batch_stages := stages; batch_stop_on_failure := job_stop_on_failure job;
        batch_submission_seconds := fzero; batch_waited_seconds := fzero |}.

(** ** Policy *)

Record LedgerPolicy := {
  lease_seconds : float;
  grace_seconds : float;
  claim_seconds : float;
  run_while_detached : bool;
  keep_jobs_on_stop : bool
}.

(** [max(l)] of a nonempty tuple, and [max(l, default=default)] *)
Definition fmax_of (first : float) (rest : list float) : float := fold_left fmax rest first.
Definition fmax_default (l : list float) (default : float) : float :=
  match l with [] => default | first :: rest => fmax_of first rest end.

(** [LeaseVerdict] *)
Inductive LeaseVerdict : Type :=
  | Leased (until : float)
  | Unleased (since : float).

Definition lease_verdict (entry : LedgerEntry) (now grace_seconds : float) : LeaseVerdict :=
  let expired_at := fmax_default
    (map expires_at (entry_leases entry) ++
     map (fun lease => fadd (unreadable_written_at lease) (claim_window entry)) (entry_unreadable_leases entry))
    (created_at (entry_record entry)) in
  let until := fadd expired_at grace_seconds in
  if fle now until then Leased until else Unleased expired_at.

Definition held_by_others (entry : LedgerEntry) (holder' : string) (since : float) : bool :=
  let record := entry_record entry in
  let expiries :=
    map expires_at (List.filter (fun lease => negb (eqb (holder lease) holder')) (entry_leases entry)) ++
    map (fun lease => fadd (unreadable_written_at lease) (claim_window entry))
      (List.filter (fun lease => negb (eqb (unreadable_holder lease) holder')) (entry_unreadable_leases entry)) ++
    (if negb (eqb (owner record) holder') && eqb (state record) LedgerState.SUBMITTING
     then [claim_expires_at record] else []) in
  any (fun expiry => fle since expiry) expiries.

(** [claim_expired] *)
Definition claim_expired (entry : LedgerEntry) (now : float) : bool :=
  let record := entry_record entry in
  let renewed := fmax_of (created_at record)
    (map renewed_at (List.filter (fun lease => eqb (holder lease) (owner record)) (entry_leases entry)) ++
     map unreadable_written_at
       (List.filter (fun lease => eqb (unreadable_holder lease) (owner record)) (entry_unreadable_leases entry))) in
  flt (fmax (claim_expires_at record) (fadd renewed (claim_window entry))) now.

(** [SubmitStep] *)
Inductive SubmitStep : Type :=
  | AttachJob (record : LedgerRecord)
  | CheckJob (entry : LedgerEntry)
  | ResolveSubmission (entry : LedgerEntry) (expired : bool)
  | AwaitWithdrawal (entry : LedgerEntry) (expired : bool)
  | ClaimAttempt (attempt : Z).

Definition submit_step (entry : option LedgerEntry) (now : float) : SubmitStep :=
  match entry with
  | None => ClaimAttempt 0
  | Some entry =>
      let record := entry_record entry in
      match entry_withdrawal entry, state_final (state record) with
      | Some mark, false => AwaitWithdrawal entry (withdrawal_expired mark now)
      | _, _ =>
          match state record with
          | LedgerState.COMPLETED => AttachJob record
          | LedgerState.SUBMITTED => CheckJob entry
          | LedgerState.SUBMITTING => ResolveSubmission entry (claim_expired entry now)
          | LedgerState.FAILED | LedgerState.WITHDRAWN => ClaimAttempt (attempt record + 1)
          end
      end
  end.
