(* ===== verification/SlurmSettled.v ===== *)
(** * When an attempt is recorded completed

    [settlement], [_unreusable] and [_stage_problem] of [ledger.py]: the results a completed attempt
    stands for. *)

From S2P Require Import Prelude PyFloat SlurmStates SlurmOutcomes SlurmLedger.

Lemma first_some_None {A B} (f : A -> option B) (l : list A) : first_some f l = None <-> forall x, x ∈ l -> f x = None.
Proof.
  induction l as [|x l IH]; cbn; [split; [intros _ x []%not_elem_of_nil|done]|].
  destruct (f x) as [y|] eqn:E.
  - split; [done|]. intros H. rewrite <- (H x); [done|by left].
  - rewrite IH. split; intros H z; [intros [->|Hz]%elem_of_cons; [done|by apply H]|intros Hz; apply H; by right].
Qed.

(** A stage that ran to an end of its own, or was skipped *)
Definition stage_whole (item : SlurmBatchStageResult) : Prop :=
  stage_collection_failure item = None /\
  match stage_exit_code item with
  | Some code => code ∉ INTERRUPTED_EXIT_CODES
  | None => stage_skipped item = true
  end.

Lemma stage_problem_None name item :
  stage_problem name item = None <-> exists result, item = Some result /\ stage_whole result.
Proof.
  unfold stage_problem, stage_whole. destruct item as [item|]; [|split; [done|by intros (? & ? & _)]].
  assert (Hsome : forall P, (exists result, Some item = Some result /\ P result) <-> P item) by (intros P; naive_solver).
  rewrite Hsome. clear Hsome. destruct (stage_collection_failure item); cbn -[INTERRUPTED_EXIT_CODES]; [naive_solver|].
  destruct (stage_exit_code item) as [code|]; cbn -[INTERRUPTED_EXIT_CODES].
  - destruct (among code INTERRUPTED_EXIT_CODES) eqn:E.
    + apply among_true in E. split; [done|]. by intros [_ ?].
    + apply among_false in E. done.
  - destruct (stage_skipped item); cbn; [done|]. split; [done|]. by intros [_ ?].
Qed.

(** C9: an attempt is recorded completed exactly when its job ended completed and the results collected
    of it are a batch's, collected in full, of a batch that exited with code 0, with a result for each stage
    of the job which collected all of it and was skipped or exited with a code that no timeout or kill
    leaves.  So a completed attempt can be attached to again. *)
Theorem completed_is_whole status collected job :
  settlement status collected job = Some {| settlement_state := LedgerState.COMPLETED; settlement_reason := None |} <->
  status = SlurmJobStatus.COMPLETED /\
  exists op outcome, collected = Some (ClusterCollected op (BatchResult outcome)) /\
    batch_collection_failure outcome = None /\ batch_job_exit_code outcome = Some 0 /\
    forall stage, stage ∈ job_stages job ->
      exists item, stage_named (ledger_stage_name stage) (batch_result_stages outcome) = Some item /\ stage_whole item.
Proof.
  unfold settlement. split.
  - destruct (negb (status_terminal status)); [done|].
    destruct (eqb status SlurmJobStatus.COMPLETED) eqn:Es; cbn [negb]; [apply eqb_eq in Es as ->|done].
    split; [done|]. destruct collected as [[op outcome|unknown]|]; [| |done].
    + destruct (unreusable _ _) as [problem|] eqn:Eu; [done|]. destruct outcome as [outcome|outcome]; cbn in Eu; [done|].
      destruct (batch_collection_failure outcome) eqn:Ef; [done|]. destruct (negb _) eqn:Ec; [done|].
      apply negb_false_iff, eqb_eq in Ec. exists op, outcome. split_and!; [done..|]. intros stage Hstage.
      rewrite first_some_None in Eu. by apply stage_problem_None with (name := ledger_stage_name stage), Eu.
    + cbn. by destruct (is_none _).
  - intros (-> & op & outcome & -> & Hf & Hc & Hstages). cbn. rewrite Hf, Hc. cbn.
    rewrite (proj2 (first_some_None _ _)); [done|]. intros stage Hstage. apply stage_problem_None. by apply Hstages.
Qed.
