(* ===== verification/SlurmProg.v ===== *)
(** * Processes that share a ledger and a cluster

    What a process asks of the world: the storage of the ledger, the cluster, its clock.  A process
    is a finite program of such calls ([prog]): it can be run against any answers ([run]), so a
    theorem about every run ([always]) holds whatever other processes, failures and delays make of
    the world.  [history] is what a world of many processes does, one call at a time. *)

From S2P Require Import Prelude PyFloat SlurmStates SlurmOutcomes SlurmLedger.

(** ** Calls *)

(** The documents of a request: its project and its key *)
Abbreviation slot := (string * string)%type.
(** A revision of an attempt *)
Abbreviation position := (Z * Z)%type.

Section Calls.
Context `{codec : LedgerCodec}.

Inductive call : Type :=
  | ReadRecords (where_ : slot)
  | ReadWithdrawals (where_ : slot)
  | ReadLeases (where_ : slot)
  | CreateRecord (where_ : slot) (at_ : position) (text : stored)
  | CreateWithdrawal (where_ : slot) (at_ : position) (text : stored) (written : float)
  | PutLease (where_ : slot) (holder : string) (text : stored) (written : float)
  | DropLease (where_ : slot) (holder : string)
  | ListKeys (project : string)
  | FirstRead (path : string) (now : float)
  | Inspect (operation_id : string)
  | Cancel (operation_id : string) (observed : option ClusterObservation)
  | Submit (request : SlurmBatchRequest) (operation_id : string)
  | Now.

(** What a call answers; the storage may fail instead *)
Definition answer (c : call) : Type :=
  match c with
  | ReadRecords _ => result Raised (gmap position stored)
  | ReadWithdrawals _ => result Raised (gmap position (stored * float))
  | ReadLeases _ => result Raised (gmap string (stored * float))
  | CreateRecord _ _ _ | CreateWithdrawal _ _ _ _ => result Raised bool
  | PutLease _ _ _ _ | DropLease _ _ => result Raised unit
  | ListKeys _ => result Raised (list string)
  | FirstRead _ _ => float
  | Inspect _ => ClusterInspectOutcome
  | Cancel _ _ => ClusterCancelOutcome
  | Submit _ _ => ClusterSubmitOutcome
  | Now => float
  end.

Inductive event : Type := Event (c : call) (r : answer c).
Definition event_call (e : event) : call := match e with Event c _ => c end.

(** ** Programs *)

Inductive prog (A : Type) : Type :=
  | Ret (a : A)
  | Call (c : call) (k : answer c -> prog A).
End Calls.
Arguments Ret {_ A} a.
Arguments Call {_ A} c k.

Section Binds.
Context `{codec : LedgerCodec}.

Fixpoint pbind {A B : Type} (p : prog A) (f : A -> prog B) : prog B :=
  match p with
  | Ret a => f a
  | Call c k => Call c (fun r => pbind (k r) f)
  end.

Definition tell (c : call) : prog (answer c) := Call c Ret.

(** An exception ends a program that may raise; [try] is a match on its result *)
Definition ebind {A B : Type} (p : prog (result Raised A)) (f : A -> prog (result Raised B)) : prog (result Raised B) :=
  pbind p (fun r => match r with Ok a => f a | Err e => Ret (Err e) end).
End Binds.

(** A program that may raise *)
Abbreviation proc A := (prog (result Raised A)).

Notation "'let!' x ':=' p 'in' q" := (ebind p (fun x => q)) (at level 10, x name, q at level 200) : vibesys_scope.
Notation "'let%' x ':=' p 'in' q" := (pbind p (fun x => q)) (at level 10, x name, q at level 200) : vibesys_scope.

Section Runs.
Context `{codec : LedgerCodec}.

(** [for x in l: acc = f(acc, x)], of a body that calls and may raise *)
Fixpoint pfold {A B : Type} (f : B -> A -> proc B) (acc : B) (l : list A) : proc B :=
  match l with
  | [] => Ret (Ok acc)
  | x :: l' => let! acc' := f acc x in pfold f acc' l'
  end.

(** ** Runs *)

(** [p] does the events [t], whatever answered, and [rest] of it is left *)
Fixpoint run {A : Type} (p : prog A) (t : list event) (rest : prog A) : Prop :=
  match p with
  | Ret a => t = [] /\ rest = Ret a
  | Call c k => t = [] /\ rest = p \/ exists r t', t = Event c r :: t' /\ run (k r) t' rest
  end.

(** Along every run of [p] after the events [h], each call meets [J] and the result [Q] *)
Fixpoint always {A : Type} (J : list event -> call -> Prop) (Q : list event -> A -> Prop) (h : list event)
    (p : prog A) : Prop :=
  match p with
  | Ret a => Q h a
  | Call c k => J h c /\ forall r, always J Q (h ++ [Event c r]) (k r)
  end.

Section Always.
Context {A B : Type}.
Implicit Types (J : list event -> call -> Prop) (p : prog A) (h t : list event).

Lemma run_nil p : run p [] p.
Proof. destruct p; cbn; auto. Qed.

Lemma run_app_inv p t1 t2 p' : run p (t1 ++ t2) p' -> exists mid, run p t1 mid /\ run mid t2 p'.
Proof.
  revert t1. induction p as [a|c k IH]; intros t1; cbn.
  - intros [[-> ->]%app_eq_nil ->]. by exists (Ret a).
  - intros [[[-> ->]%app_eq_nil ->]|(r & t & E & H)]; [exists (Call c k); by cbn; auto|].
    destruct t1 as [|e t1]; cbn in E.
    + exists (Call c k). split; [auto|]. cbn. right. exists r, t. by rewrite <- E.
    + injection E as -> <-. destruct (IH r t1 H) as (mid & H1 & H2). exists mid. split; [|done]. right. eauto.
Qed.

Lemma always_mono J J' (Q Q' : list event -> A -> Prop) h p :
  (forall t c, J (h ++ t) c -> J' (h ++ t) c) -> (forall t a, Q (h ++ t) a -> Q' (h ++ t) a) ->
  always J Q h p -> always J' Q' h p.
Proof.
  revert h. induction p as [a|c k IH]; intros h HJ HQ; cbn.
  - specialize (HQ [] a). rewrite app_nil_r in HQ. exact HQ.
  - intros [Hc Hk]. split.
    + specialize (HJ [] c). rewrite app_nil_r in HJ. by apply HJ.
    + intros r. apply (IH r); [| |apply Hk]; intros t ?; rewrite <- app_assoc; [apply HJ|apply HQ].
Qed.

Lemma always_bind J (Q : list event -> B -> Prop) h p f :
  always J (fun h a => always J Q h (f a)) h p -> always J Q h (pbind p f).
Proof.
  revert h. induction p as [a|c k IH]; intros h; cbn; [done|]. intros [Hc Hk]. split; [done|].
  intros r. by apply (IH r).
Qed.

Lemma always_run J (Q : list event -> A -> Prop) h p t p' :
  always J Q h p -> run p t p' -> always J Q (h ++ t) p'.
Proof.
  revert h t. induction p as [a|c k IH]; intros h t; cbn.
  - intros HQ [-> ->]. by rewrite app_nil_r.
  - intros [Hc Hk] [[-> ->]|(r & t' & -> & H)]; [by rewrite app_nil_r|].
    specialize (IH r _ _ (Hk r) H). by rewrite <- app_assoc in IH.
Qed.

(** What [always] says of a run: of each of its calls, and of its result *)
Lemma always_call J (Q : list event -> A -> Prop) h p t1 c r t2 p' :
  always J Q h p -> run p (t1 ++ Event c r :: t2) p' -> J (h ++ t1) c.
Proof.
  intros Hp (mid & H1 & H2)%run_app_inv. pose proof (always_run _ _ _ _ _ _ Hp H1) as Hmid.
  destruct mid as [a|c' k]; cbn in H2; [by destruct H2|].
  destruct H2 as [[? _]|(r' & t & E & _)]; [done|]. apply (f_equal (option_map event_call ∘ head)) in E.
  injection E as ->. apply Hmid.
Qed.

Lemma always_result J (Q : list event -> A -> Prop) h p t a :
  always J Q h p -> run p t (Ret a) -> Q (h ++ t) a.
Proof. intros Hp Ht. exact (always_run _ _ _ _ _ _ Hp Ht). Qed.
End Always.

(** Exceptions: what holds of a [proc] whose exceptions [E] allows *)
Lemma always_ebind {A B} J (Q : list event -> result Raised B -> Prop) h (p : proc A) (f : A -> proc B) :
  always J (fun h r => match r with Ok a => always J Q h (f a) | Err e => Q h (Err e) end) h p ->
  always J Q h (ebind p f).
Proof. intros H. apply always_bind. eapply always_mono; [by auto| |exact H]. intros t [a|e]; cbn; auto. Qed.

Lemma always_post {A} J (Q Q' : list event -> A -> Prop) h (p : prog A) :
  always J Q h p -> (forall t a, Q (h ++ t) a -> Q' (h ++ t) a) -> always J Q' h p.
Proof. intros Hp HQ. eapply always_mono; [by auto|exact HQ|exact Hp]. Qed.

(** The result of a program is that of one of its runs. *)
Lemma always_with_run {A} J h (p : prog A) :
  always J (fun _ _ => True) h p -> always J (fun h' a => exists t, h' = h ++ t /\ run p t (Ret a)) h p.
Proof.
  revert h. induction p as [a|c k IH]; intros h; cbn; [intros _; exists []; by rewrite app_nil_r|].
  intros [Hc Hk]. split; [done|]. intros r. eapply always_post; [by apply (IH r)|].
  intros t a (t' & E & Ht'). exists (Event c r :: t'). split; [|right; eauto].
  rewrite E. by rewrite <- app_assoc.
Qed.

Lemma always_pfold {A B} J (I : list event -> Prop) (f : B -> A -> proc B) acc l h :
  (forall h b x, x ∈ l -> I h -> always J (fun h _ => I h) h (f b x)) -> I h ->
  always J (fun h _ => I h) h (pfold f acc l).
Proof.
  revert acc h. induction l as [|x l IH]; intros acc h Hf HI; cbn; [done|]. apply always_ebind.
  eapply always_post; [apply Hf; [by left|done]|]. intros t [b|e] Ht; [|done]. apply IH; [|done].
  intros h' b' y Hy. apply Hf. by right.
Qed.

(** Go on after a part of a program, knowing its run *)
Lemma always_bind_run {A B} J (Q : list event -> B -> Prop) h (p : prog A) f :
  always J (fun _ _ => True) h p ->
  (forall t a, run p t (Ret a) -> always J Q (h ++ t) (f a)) -> always J Q h (pbind p f).
Proof.
  intros Hp Hf. apply always_bind. eapply always_post; [by apply always_with_run|].
  intros t a (t' & E & Hrun). apply app_inv_head in E as <-. by apply Hf.
Qed.

Lemma always_ebind_run {A B} J (Q : list event -> result Raised B -> Prop) h (p : proc A) f :
  always J (fun _ _ => True) h p ->
  (forall t a, run p t (Ret (Ok a)) -> always J Q (h ++ t) (f a)) ->
  (forall t e, run p t (Ret (Err e)) -> Q (h ++ t) (Err e)) -> always J Q h (ebind p f).
Proof. intros Hp Hf He. apply always_bind_run; [done|]. intros t [a|e] Hrun; [by apply Hf|by apply He]. Qed.

(** Runs of the parts of a program *)
Lemma run_ret {A} (a b : A) t : run (Ret a) t (Ret b) -> t = [] /\ a = b.
Proof. intros [-> [= ->]]. done. Qed.

Lemma run_tell c t (r : answer c) : run (tell c) t (Ret r) -> t = [Event c r].
Proof.
  cbn. intros [[_ ?]|(r' & t' & -> & -> & E)]; [done|]. by injection E as ->.
Qed.

Lemma run_bind {A B} (p : prog A) (f : A -> prog B) t b :
  run (pbind p f) t (Ret b) -> exists t1 a t2, t = t1 ++ t2 /\ run p t1 (Ret a) /\ run (f a) t2 (Ret b).
Proof.
  revert t. induction p as [a|c k IH]; intros t; cbn; [intros H; by exists [], a, t|].
  intros [[_ ?]|(r & t' & -> & H)]; [done|]. apply IH in H as (t1 & a & t2 & -> & H1 & H2).
  exists (Event c r :: t1), a, t2. split_and!; [done| |done]. right. eauto.
Qed.

Lemma run_ebind {A B} (p : proc A) (f : A -> proc B) t b :
  run (ebind p f) t (Ret (Ok b)) -> exists t1 a t2, t = t1 ++ t2 /\ run p t1 (Ret (Ok a)) /\ run (f a) t2 (Ret (Ok b)).
Proof.
  intros (t1 & [a|e] & t2 & -> & H1 & H2)%run_bind; [|by apply run_ret in H2 as [_ ?]]. by exists t1, a, t2.
Qed.

Lemma run_pfold {A B} (f : B -> A -> proc B) acc l t acc' (P : B -> B -> Prop) :
  (forall b, P b b) -> (forall b b' b'', P b b' -> P b' b'' -> P b b'') ->
  (forall b x t b', x ∈ l -> run (f b x) t (Ret (Ok b')) -> P b b') ->
  run (pfold f acc l) t (Ret (Ok acc')) -> P acc acc'.
Proof.
  intros Hr Ht. revert acc t. induction l as [|x l IH]; intros acc t Hf; cbn.
  - by intros [_ [= ->]]%run_ret.
  - intros (t1 & b & t2 & -> & H1 & H2)%run_ebind. eapply Ht; [eapply Hf; [by left|done]|].
    eapply IH; [|done]. intros *  Hx. apply Hf. by right.
Qed.

End Runs.

(** ** Worlds

    The storage is a map per kind of document: a revision is created once and never changed, a lease
    is written by its holder.  Each call is one indivisible step of it, as one [link] or [rename] on
    the cluster's filesystem is, and one [setdefault] on a dict. *)

Section Worlds.
Context `{codec : LedgerCodec}.

Record Store := {
  store_records : gmap slot (gmap position stored);
  store_withdrawals : gmap slot (gmap position (stored * float));
  store_leases : gmap slot (gmap string (stored * float))
}.
#[global] Instance Store_eta : Eta Store := fun r => Build_Store (store_records r) (store_withdrawals r) (store_leases r).

Definition empty_store : Store := {| store_records := ∅; store_withdrawals := ∅; store_leases := ∅ |}.

(** [store.get(where, {})] *)
Definition held {V : Type} (where_ : slot) (m : gmap slot V) (none : V) : V := default none (m !! where_).

(** [store.setdefault(where, {}).setdefault(at, value)] *)
Definition created {V : Type} (where_ : slot) (at_ : position) (value : V) (m : gmap slot (gmap position V))
  : gmap slot (gmap position V) :=
  match held where_ m ∅ !! at_ with
  | Some _ => m
  | None => <[where_ := <[at_ := value]> (held where_ m ∅)]> m
  end.

(** What a call of the storage does to it *)
Definition effect (s : Store) (c : call) : Store :=
  match c with
  | CreateRecord where_ at_ text => s <| store_records := created where_ at_ text (store_records s) |>
  | CreateWithdrawal where_ at_ text written =>
      s <| store_withdrawals := created where_ at_ (text, written) (store_withdrawals s) |>
  | PutLease where_ holder text written =>
      s <| store_leases := <[where_ := <[holder := (text, written)]> (held where_ (store_leases s) ∅)]> (store_leases s) |>
  | DropLease where_ holder =>
      s <| store_leases := <[where_ := delete holder (held where_ (store_leases s) ∅)]> (store_leases s) |>
  | _ => s
  end.

(** The keys of a project's requests, in order *)
Definition keys_of (project : string) (s : Store) : list string :=
  PySorted.sorted_by String.ltb
    (omap (fun '((project', key), _) => if eqb project' project then Some key else None) (map_to_list (store_records s))).

(** The answer of a storage that does not fail; what the cluster and the clocks answer is their own *)
Definition served (s : Store) (c : call) : answer c -> Prop :=
  match c return answer c -> Prop with
  | ReadRecords where_ => fun r => r = Ok (held where_ (store_records s) ∅)
  | ReadWithdrawals where_ => fun r => r = Ok (held where_ (store_withdrawals s) ∅)
  | ReadLeases where_ => fun r => r = Ok (held where_ (store_leases s) ∅)
  | CreateRecord where_ at_ _ => fun r => r = Ok (is_none (held where_ (store_records s) ∅ !! at_))
  | CreateWithdrawal where_ at_ _ _ => fun r => r = Ok (is_none (held where_ (store_withdrawals s) ∅ !! at_))
  | PutLease _ _ _ _ | DropLease _ _ => fun r => r = Ok tt
  | ListKeys project => fun r => r = Ok (keys_of project s)
  | _ => fun _ => True
  end.

(** A call that fails: the answer is lost *)
Definition failed (c : call) : answer c -> Prop :=
  match c return answer c -> Prop with
  | ReadRecords _ | ReadWithdrawals _ | ReadLeases _ | CreateRecord _ _ _ | CreateWithdrawal _ _ _ _
  | PutLease _ _ _ _ | DropLease _ _ | ListKeys _ => fun r => exists e, r = Err (Ledger e)
  | _ => fun _ => False
  end.

(** One call of a process: answered, or failed before or after its effect *)
Definition serves (s : Store) (e : event) (s' : Store) : Prop :=
  match e with
  | Event c r => served s c r /\ s' = effect s c \/ failed c r /\ (s' = effect s c \/ s' = s)
  end.

(** What the processes of a world do, in order, each event with the process that did it; [at_ i] is the
    storage before the event [i] *)
Definition history (g : list (nat * event)) (at_ : nat -> Store) : Prop :=
  forall i pid e, g !! i = Some (pid, e) -> serves (at_ i) e (at_ (S i)).

(** The events of one process *)
Definition events_of (pid : nat) (g : list (nat * event)) : list event :=
  omap (fun '(pid', e) => if (pid' =? pid)%nat then Some e else None) g.

(** The events of a process are at increasing places of the history *)
Lemma events_places pid g :
  exists place : nat -> nat,
    (forall n e, events_of pid g !! n = Some e -> g !! place n = Some (pid, e)) /\
    (forall n m, (n < m < length (events_of pid g))%nat -> (place n < place m)%nat) /\
    (forall i e, g !! i = Some (pid, e) -> exists n, events_of pid g !! n = Some e /\ place n = i).
Proof.
  induction g as [|[pid' e'] g (place & Hp & Hm & Hi)].
  - exists id. split_and!; intros *; cbn; [done|lia|done].
  - unfold events_of in *. cbn. destruct (Nat.eqb_spec pid' pid) as [->|Hne]; cbn.
    + exists (fun n => match n with O => O | S n => S (place n) end). split_and!.
      * intros [|n] e; cbn; [by intros [= ->]|apply Hp].
      * intros [|n] [|m]; cbn; try lia. intros H. specialize (Hm n m). lia.
      * intros [|i] e; cbn; [intros [= ->]; by exists O|]. intros (n & ? & <-)%Hi. by exists (S n).
    + exists (fun n => S (place n)). split_and!.
      * intros n e ?. by apply Hp.
      * intros n m H. specialize (Hm n m H). lia.
      * intros [|i] e; cbn; [by intros [= ? _]|]. intros (n & ? & <-)%Hi. eauto.
Qed.
End Worlds.
