(* ===== verification/SlurmStore.v ===== *)
(** * The operations of a ledger

    [libs/vs-slurm/src/vs_slurm/fake_ledger.py], whose documents are stored encoded and decoded on
    read, as programs over the storage; the ledger on the cluster ([ledger_store.py]) makes the same
    calls of the cluster's filesystem, in the same order, and may fail at each. *)

From stdpp Require Import pretty.
From S2P Require Import Prelude PyFloat PySorted SlurmStates SlurmOutcomes SlurmLedger SlurmProg.

Section Ledger.
Context `{codec : LedgerCodec} (self_project : string).

(** A check that may raise, in a program *)
Definition pure {A : Type} (r : result Raised A) : proc A := Ret r.

(** [slot = (self._project, validate_key(key))] *)
Definition slot_of (key : string) : result Raised slot :=
  let* key := validate_key key in Ok (self_project, key).

Definition record_path (key : string) (attempt revision : Z) : string :=
  key +:+ "/attempt-" +:+ pretty attempt +:+ "." +:+ pretty revision +:+ ".json".
Definition withdrawal_path (key : string) (attempt revision : Z) : string :=
  key +:+ "/withdrawal-" +:+ pretty attempt +:+ "." +:+ pretty revision +:+ ".json".
Definition lease_path (key holder : string) : string := key +:+ "/leases/" +:+ holder +:+ ".json".

(** One stored record revision, read *)
Definition read_record (key' : string) (row : position * stored) : result Raised (Z * Z * LedgerRecord) :=
  let '((attempt', revision), text) := row in
  let path := record_path key' attempt' revision in
  let* record := decode_record text path in
  require* eqb (key record) key' && (attempt record =? attempt')
    else Ledger (Unreadable path "the record names another key or attempt") in
  Ok (attempt', revision, record).

(** [FirstReads.written_at] *)
Definition written_at (path : string) (file_time : float) : prog float :=
  if is_finite file_time then Ret file_time else let% now := tell Now in tell (FirstRead path now).

(** [read_withdrawal_revision], of one stored revision *)
Definition read_withdrawal_revision (key' : string) (row : position * (stored * float))
  : proc (Z * Z * WithdrawalRevision) :=
  let '((attempt', revision), (text, file_time)) := row in
  let path := withdrawal_path key' attempt' revision in
  match readable_withdrawal text path attempt' with
  | Some document => Ret (Ok (attempt', revision, Readable document))
  | None =>
      let% written := written_at path file_time in
      let! document := pure (unreadable_withdrawal written) in
      Ret (Ok (attempt', revision, document))
  end.

(** One stored lease, read: an unreadable one is a holder all the same *)
Definition read_lease (key' : string) (leases : list LedgerLease * list UnreadableLease)
    (row : string * (stored * float)) : list LedgerLease * list UnreadableLease :=
  let '(holder', (text, written)) := row in
  let '(readable, unreadable) := leases in
  match decode_lease text (lease_path key' holder') with
  | Ok lease => (readable ++ [lease], unreadable)
  | Err _ => (readable, unreadable ++ [{| unreadable_holder := holder'; unreadable_written_at := written |}])
  end.

Definition read (key' : string) : proc (option LedgerEntry) :=
  let! where_ := pure (slot_of key') in
  let! revisions := tell (ReadRecords where_) in
  let! withdrawals := tell (ReadWithdrawals where_) in
  let! leases := tell (ReadLeases where_) in
  let! records := pure (rmap (read_record key') (map_to_list revisions)) in
  let! marks := pfold (fun marks row => let! mark := read_withdrawal_revision key' row in Ret (Ok (marks ++ [mark])))
                  [] (map_to_list withdrawals) in
  let '(readable, unreadable) :=
    fold_left (read_lease key') (sorted_by (fun a b => String.ltb (fst a) (fst b)) (map_to_list leases)) ([], []) in
  Ret (Ok (entry_of records marks readable unreadable)).

(** [_create] *)
Definition create (record : LedgerRecord) (revision : Z) : proc bool :=
  let! where_ := pure (slot_of (key record)) in
  tell (CreateRecord where_ (attempt record, revision) (dump_record record)).

Definition claim (record : LedgerRecord) : proc LedgerRecord :=
  let! won := create record 0 in
  if won : bool then Ret (Ok record)
  else
    let! entry := read (key record) in
    match entry with
    | Some entry =>
        if attempt (entry_record entry) <? attempt record then Ret (Err (Ledger (ClaimUnreadable (key record))))
        else Ret (Ok (entry_record entry))
    | None => Ret (Err (Ledger (ClaimUnreadable (key record))))
    end.

Definition replace (current : LedgerEntry) (record : LedgerRecord) : proc bool :=
  let! _ := pure (check_transition (entry_record current) record) in
  create record (entry_revision current + 1).

Definition write_withdrawal (current : LedgerEntry) (document : WithdrawalDocument) : proc bool :=
  let! _ := pure (check_withdrawal current document) in
  let! where_ := pure (slot_of (key (entry_record current))) in
  tell (CreateWithdrawal where_ (document_attempt document, entry_withdrawal_revision current + 1)
          (dump_withdrawal document) finf).

Definition renew (key' : string) (lease : LedgerLease) : proc unit :=
  let! where_ := pure (slot_of key') in
  let! holder' := pure (validate_holder (holder lease)) in
  tell (PutLease where_ holder' (dump_lease lease) (renewed_at lease)).

Definition release (key' holder' : string) : proc unit :=
  let! where_ := pure (slot_of key') in
  let! holder' := pure (validate_holder holder') in
  tell (DropLease where_ holder').

Definition list_keys : proc (list string) := tell (ListKeys self_project).
End Ledger.
