(* ===== verification/SlurmActions.v ===== *)
(** * Withdrawing requests

    [libs/vs-slurm/src/vs_slurm/ledger_actions.py]: by an operator, by the run that stops wanting a
    request, or when no run has leased it for the grace period. *)

From stdpp Require Import pretty.
From S2P Require Import Prelude PyFloat SlurmStates SlurmOutcomes SlurmLedger SlurmProg SlurmStore.

(** ** Outcomes, timing, withdrawers *)

Inductive WithdrawOutcome : Type :=
  | Withdrawn (key operation_id : string) (cancelled_job : option string) (already : bool)
  | Kept (key operation_id : string)
  | NotInLedger (key : string)
  | WithdrawUnknown (key reason : string).

(** [_ROUNDS] *)
Definition ROUNDS : nat := 8.

Definition CLOCK_SKEW_SECONDS : float := of_int 60.

(** [_CALLS_AT_CANCEL], [_CALLS_AT_INSPECT], [_CALLS_TO_CANCEL] *)
Definition CALLS_AT_CANCEL : Z := OBSERVED_CANCEL_CALLS.
Definition CALLS_AT_INSPECT : Z := 1 + CALLS_AT_CANCEL.
Definition CALLS_TO_CANCEL : Z := 4 + CALLS_AT_INSPECT.

Definition withdrawal_window_seconds (call_seconds : float) : float :=
  fadd (fmul (of_int (CALLS_TO_CANCEL + 1)) call_seconds) CLOCK_SKEW_SECONDS.

Record WithdrawalTiming := { call_seconds : float }.

Definition window_seconds (self : WithdrawalTiming) : float := withdrawal_window_seconds (call_seconds self).

(** [WithdrawalTiming.__post_init__] *)
Definition withdrawal_timing (call_seconds : float) : result Raised WithdrawalTiming :=
  let self := {| call_seconds := call_seconds |} in
  require* negb (flt MAX_WITHDRAWAL_WINDOW_SECONDS (window_seconds self))
    else Ledger (WindowTooLong "lower transport_timeout_seconds") in
  Ok self.

(** What [WithdrawalTiming.holds] compares, when its clock reads [now] *)
Definition holds_at (self : WithdrawalTiming) (mark : WithdrawalMark) (calls : Z) (now : float) : bool :=
  let needed := fadd (fmul (of_int calls) (call_seconds self)) CLOCK_SKEW_SECONDS in
  fle needed (fsub (mark_until mark) now).

Record Withdrawer := {
  withdrawer_by : string;
  withdrawer_reason : string;
  withdrawer_timing : WithdrawalTiming;
  withdrawer_writer : string
}.

(** [Withdrawer.wrote] *)
Definition wrote (self : Withdrawer) (mark : option WithdrawalMark) : bool :=
  match mark with
  | Some mark => eqb (mark_by mark) (withdrawer_by self) && eqb (mark_writer mark) (withdrawer_writer self)
  | None => false
  end.

(** [Withdrawer.stamped], when its clock reads [now] *)
Definition mark_at (self : Withdrawer) (attempt : Z) (now : float) : WithdrawalMark :=
  {| mark_attempt := attempt; mark_by := withdrawer_by self; mark_writer := withdrawer_writer self;
     mark_since := now; mark_until := fadd now (window_seconds (withdrawer_timing self));
     mark_reason := withdrawer_reason self |}.

(** [a or b], of an optional string *)
Definition or_else (a b : option string) : option string :=
  match a with Some "" | None => b | Some _ => a end%string.

Section Actions.
Context `{codec : LedgerCodec} (self_project : string).
Let ledger_read := read self_project.
Let ledger_replace := replace self_project.
Let ledger_write_withdrawal := write_withdrawal self_project.

(** [WithdrawalTiming.holds] *)
Definition holds (self : WithdrawalTiming) (mark : WithdrawalMark) (calls : Z) : prog bool :=
  let% now := tell Now in Ret (holds_at self mark calls now).

(** [Withdrawer.stamped] *)
Definition stamped (self : Withdrawer) (attempt : Z) : proc WithdrawalMark :=
  let% now := tell Now in
  let mark := mark_at self attempt now in
  Ret (if withdrawal_valid (Mark mark) then Ok mark else Err (Invalid "WithdrawalMark")).

(** [try: p except LedgerError as error: handler(error)] *)
Definition except_ledger {A : Type} (p : proc A) (handler : LedgerError -> proc A) : proc A :=
  pbind p (fun r => match r with Err (Ledger error) => handler error | r => Ret r end).

(** [_undo] *)
Definition undo (entry : LedgerEntry) : proc bool :=
  ledger_write_withdrawal entry (WithdrawalUndone (attempt (entry_record entry))).

Definition undo_expired_withdrawal (entry : LedgerEntry) (now : float) : proc bool :=
  match entry_withdrawal entry with
  | Some mark => if withdrawal_expired mark now then undo entry else Ret (Ok false)
  | None => Ret (Ok false)
  end.

(** [_undo_quietly] *)
Definition undo_quietly (key : string) (withdrawer : Withdrawer) : proc unit :=
  except_ledger
    (let! entry := ledger_read key in
     match entry with
     | Some entry =>
         if wrote withdrawer (entry_withdrawal entry) then let! _ := undo entry in Ret (Ok tt) else Ret (Ok tt)
     | None => Ret (Ok tt)
     end)
    (fun _ => Ret (Ok tt)).

(** ** Ending an attempt no job runs under *)

(** [EndedJobless | JobMayRun | None] *)
Inductive Taken : Type :=
  | EndedJobless (cancel : ClusterCancelOutcome)
  | JobMayRun (reason : string)
  | NotTaken.

Definition take_over_jobless (entry : LedgerEntry) (observed : ClusterInspectOutcome) (ended : LedgerRecord)
  : proc Taken :=
  match observed with
  | InspectUnknown unknown =>
      if negb (unknown_job_absent unknown) then Ret (Ok (JobMayRun (unknown_reason unknown)))
      else
        let! won := ledger_replace entry ended in
        if negb won then Ret (Ok NotTaken)
        else
          let% cancel := tell (Cancel (operation_id (entry_record entry)) None) in
          Ret (Ok (EndedJobless cancel))
  | Observed _ => Ret (Ok (JobMayRun "a job runs under the attempt's name"))
  end.

(** [_withdraw_unseen] *)
Definition withdraw_unseen (entry : LedgerEntry) (mark : WithdrawalMark) (observed : ClusterUnknown)
  : proc (option WithdrawOutcome) :=
  let record := entry_record entry in
  let! withdrawn := pure (transitioned record LedgerState.WITHDRAWN None (Some (mark_reason mark))) in
  let! taken := take_over_jobless entry (InspectUnknown observed) withdrawn in
  match taken with
  | JobMayRun reason =>
      let! _ := undo entry in
      Ret (Ok (Some (WithdrawUnknown (key record) reason)))
  | NotTaken => Ret (Ok None)
  | EndedJobless (CancelUnknown _) => Ret (Ok (Some (Withdrawn (key record) (operation_id record) None false)))
  | EndedJobless (ClusterCancelRequested _ job_id) =>
      Ret (Ok (Some (Withdrawn (key record) (operation_id record) job_id false)))
  end.

(** ** A marked attempt *)

(** [_Cancelled | WithdrawOutcome | None] *)
Inductive Cancelling : Type :=
  | Cancelled (job : option string)
  | Otherwise (outcome : option WithdrawOutcome).

(** The job stays: the mark is undone, the outcome unknown for [reason] *)
Definition leave_job (entry : LedgerEntry) (reason : string) : proc Cancelling :=
  let! _ := undo entry in
  Ret (Ok (Otherwise (Some (WithdrawUnknown (key (entry_record entry)) reason)))).

Definition too_little : string := "too little of the withdrawal's window was left to cancel".

(** The [elif] branches of [_cancel_while_marked]: of a job that was not seen, or was seen *)
Definition cancel_live (entry : LedgerEntry) (mark : WithdrawalMark) (timing : WithdrawalTiming)
    (observed : option ClusterObservation) : proc Cancelling :=
  match live_observation observed with
  | None => Ret (Ok (Cancelled None))
  | Some live =>
      let% held := holds timing mark CALLS_AT_CANCEL in
      if negb held then leave_job entry too_little
      else
        let% outcome := tell (Cancel (operation_id (entry_record entry)) (Some live)) in
        match outcome with
        | CancelUnknown unknown => leave_job entry (unknown_reason unknown)
        | ClusterCancelRequested _ job_id => Ret (Ok (Cancelled (or_else job_id (Some (observed_job_id live)))))
        end
  end.

(** [_cancel_while_marked], once the job was inspected, or needed no inspect *)
Definition cancel_inspected (entry : LedgerEntry) (mark : WithdrawalMark) (timing : WithdrawalTiming)
    (observed : option ClusterInspectOutcome) : proc Cancelling :=
  match observed with
  | Some (InspectUnknown unknown) =>
      if eqb (state (entry_record entry)) LedgerState.SUBMITTING then
        let! outcome := withdraw_unseen entry mark unknown in Ret (Ok (Otherwise outcome))
      else leave_job entry (unknown_reason unknown)
  | Some (Observed observation) => cancel_live entry mark timing (Some observation)
  | None => cancel_live entry mark timing None
  end.

(** [_cancel_while_marked] *)
Definition cancel_while_marked (entry : LedgerEntry) (mark : WithdrawalMark) (timing : WithdrawalTiming)
  : proc Cancelling :=
  let record := entry_record entry in
  let% held := holds timing mark CALLS_AT_INSPECT in
  if negb held then leave_job entry too_little
  else if state_settled (state record) then cancel_inspected entry mark timing None
  else
    let% observed := tell (Inspect (operation_id record)) in
    cancel_inspected entry mark timing (Some observed).

(** [still(entry)], when there is a condition *)
Definition still_holds (still : option (LedgerEntry -> prog bool)) (entry : LedgerEntry) : prog bool :=
  match still with Some still => still entry | None => Ret true end.

(** [_withdraw_marked] *)
Definition withdraw_marked (entry : LedgerEntry) (withdrawer : Withdrawer)
    (still : option (LedgerEntry -> prog bool)) : proc (option WithdrawOutcome) :=
  let record := entry_record entry in
  match entry_withdrawal entry with
  | None => Ret (Ok None)
  | Some mark =>
      except_ledger
        (let% holding := still_holds still (entry <| entry_withdrawal := None |>) in
         if negb holding then
           let! _ := undo entry in Ret (Ok (Some (Kept (key record) (operation_id record))))
         else
           let! cancelled := cancel_while_marked entry mark (withdrawer_timing withdrawer) in
           match cancelled with
           | Otherwise outcome => Ret (Ok outcome)
           | Cancelled job =>
               let! withdrawn := pure (transitioned record LedgerState.WITHDRAWN None (Some (mark_reason mark))) in
               let! won := ledger_replace entry withdrawn in
               Ret (Ok (if won : bool then Some (Withdrawn (key record) (operation_id record) job false) else None))
           end)
        (fun error =>
           let! _ := undo_quietly (key record) withdrawer in
           Ret (Ok (Some (WithdrawUnknown (key record) (error_text error)))))
  end.

(** [_mark] *)
Definition write_mark (entry : LedgerEntry) (withdrawer : Withdrawer)
    (still : option (LedgerEntry -> prog bool)) : proc (option WithdrawOutcome) :=
  let record := entry_record entry in
  match entry_withdrawal entry with
  | Some standing =>
      let% now := tell Now in
      if negb (withdrawal_expired standing now) then
        Ret (Ok (Some (WithdrawUnknown (key record) (mark_by standing +:+ " is withdrawing it"))))
      else
        let% now := tell Now in
        except_ledger
          (let! _ := undo_expired_withdrawal entry now in Ret (Ok None))
          (fun error => Ret (Ok (Some (WithdrawUnknown (key record) (error_text error)))))
  | None =>
      let% holding := still_holds still entry in
      if negb holding then Ret (Ok (Some (Kept (key record) (operation_id record))))
      else
        let! mark := stamped withdrawer (attempt record) in
        except_ledger
          (let! _ := ledger_write_withdrawal entry (Mark mark) in Ret (Ok None))
          (fun _ => Ret (Ok None))
  end.

(** The rounds of [withdraw] that are left, of [ROUNDS] *)
Fixpoint withdraw_rounds (left : nat) (key : string) (withdrawer : Withdrawer)
    (still : option (LedgerEntry -> prog bool)) : proc WithdrawOutcome :=
  match left with
  | O =>
      let! _ := undo_quietly key withdrawer in
      Ret (Ok (WithdrawUnknown key "the request kept changing while it was withdrawn"))
  | S left' =>
      let% found := ledger_read key in
      match found with
      | Err (Ledger error) =>
          let! _ := if negb (left =? ROUNDS)%nat then undo_quietly key withdrawer else Ret (Ok tt) in
          Ret (Ok (WithdrawUnknown key (error_text error)))
      | Err error => Ret (Err error)
      | Ok None => Ret (Ok (NotInLedger key))
      | Ok (Some entry) =>
          let record := entry_record entry in
          if state_final (state record) then Ret (Ok (Withdrawn key (operation_id record) None true))
          else
            let! outcome := if wrote withdrawer (entry_withdrawal entry)
                            then withdraw_marked entry withdrawer still
                            else write_mark entry withdrawer still in
            match outcome with
            | Some outcome => Ret (Ok outcome)
            | None => withdraw_rounds left' key withdrawer still
            end
      end
  end.

Definition withdraw (key : string) (withdrawer : Withdrawer) (still : option (LedgerEntry -> prog bool))
  : proc WithdrawOutcome := withdraw_rounds ROUNDS key withdrawer still.

(** ** Settling, sweeping, relinquishing *)

Definition settle (entry : LedgerEntry) (status : SlurmJobStatus) (collected : option ClusterCollectOutcome) : proc bool :=
  let record := entry_record entry in
  match eqb (state record) LedgerState.SUBMITTED, job record with
  | true, Some job =>
      match settlement status collected job with
      | None => Ret (Ok false)
      | Some settled =>
          let! after := pure (transitioned record (settlement_state settled) None (settlement_reason settled)) in
          ledger_replace entry after
      end
  | _, _ => Ret (Ok false)
  end.

(** [_sweep_one] *)
Definition sweep_one (entry : LedgerEntry) (withdrawer : Withdrawer) (still : LedgerEntry -> prog bool)
  : proc (option WithdrawOutcome) :=
  let record := entry_record entry in
  let withdrawn :=
    let! outcome := withdraw (key record) withdrawer (Some still) in
    Ret (Ok match outcome with Kept _ _ => None | outcome => Some outcome end) in
  if eqb (state record) LedgerState.SUBMITTED then
    let% observed := tell (Inspect (operation_id record)) in
    match observed with
    | Observed observation =>
        if status_terminal (observed_status observation) then
          except_ledger
            (let! _ := settle entry (observed_status observation) None in Ret (Ok None))
            (fun error => Ret (Ok (Some (WithdrawUnknown (key record) (error_text error)))))
        else withdrawn
    | InspectUnknown _ => withdrawn
    end
  else withdrawn.

Record OrphanChecks := {
  orphan_window_seconds : float;
  orphan_first_seen : gmap string float;
  orphan_done : gset string
}.
#[export] Instance OrphanChecks_eta : Eta OrphanChecks := fun r => Build_OrphanChecks
  (orphan_window_seconds r) (orphan_first_seen r) (orphan_done r).

(** [OrphanChecks.ended] *)
Definition orphan_ended (self : OrphanChecks) (operation_id : string) : OrphanChecks :=
  self <| orphan_first_seen := delete operation_id (orphan_first_seen self) |>
       <| orphan_done := {[operation_id]} ∪ orphan_done self |>.

(** [OrphanChecks.due] *)
Definition due (self : OrphanChecks) (operation_id : string) (now : float) : OrphanChecks * bool :=
  if bool_decide (operation_id ∈ orphan_done self) then (self, false)
  else
    let first := default now (orphan_first_seen self !! operation_id) in
    let self := self <| orphan_first_seen := <[operation_id := first]> (orphan_first_seen self) |> in
    if fle (fsub now first) (orphan_window_seconds self) then (self, true)
    else (orphan_ended self operation_id, false).

(** [_ORPHANING_STATES] *)
Definition ORPHANING_STATES : list LedgerState := [LedgerState.FAILED; LedgerState.WITHDRAWN].

(** One attempt of [_cancel_orphans] *)
Definition cancel_orphan (now : float) (acc : OrphanChecks * list WithdrawOutcome) (record : LedgerRecord)
  : proc (OrphanChecks * list WithdrawOutcome) :=
  let '(orphans, outcomes) := acc in
  if negb (among (state record) ORPHANING_STATES) || not_none (job record) then Ret (Ok acc)
  else
    let '(orphans, is_due) := due orphans (operation_id record) now in
    if negb is_due then Ret (Ok (orphans, outcomes))
    else
      let% observed := tell (Inspect (operation_id record)) in
      match observed with
      | InspectUnknown _ => Ret (Ok (orphans, outcomes))
      | Observed observation =>
          if status_terminal (observed_status observation)
          then Ret (Ok (orphan_ended orphans (operation_id record), outcomes))
          else
            let% cancelled := tell (Cancel (operation_id record) None) in
            let outcome := match cancelled with
                           | CancelUnknown unknown => WithdrawUnknown (key record) (unknown_reason unknown)
                           | ClusterCancelRequested _ job_id =>
                               Withdrawn (key record) (operation_id record)
                                 (or_else job_id (Some (observed_job_id observation))) true
                           end in
            Ret (Ok (orphans, outcomes ++ [outcome]))
      end.

(** [_cancel_orphans] *)
Definition cancel_orphans (entry : LedgerEntry) (orphans : OrphanChecks) (now : float)
  : proc (OrphanChecks * list WithdrawOutcome) :=
  pfold (cancel_orphan now) (orphans, []) (entry_earlier entry ++ [entry_record entry]).

Definition SWEEP_WITHDRAWER : string := "vibesys-sweep".

(** [f"{x:.0f}"], of a number that is not negative *)
Definition whole_text (x : float) : string :=
  match x with
  | SpecFloat.S754_finite false m e =>
      if 0 <=? e then pretty (Z.shiftl (Z.pos m) e)
      else
        let unit_ := Z.shiftl 1 (- e) in
        let q := Z.pos m / unit_ in
        let r := Z.pos m mod unit_ in
        pretty (if (unit_ <? 2 * r) || ((2 * r =? unit_) && Z.odd q) then q + 1 else q)
  | SpecFloat.S754_infinity false => "inf"
  | SpecFloat.S754_nan => "nan"
  | _ => "0"
  end.

Definition sweep_withdrawer (timing : WithdrawalTiming) (grace_seconds : float) (writer : string) : Withdrawer :=
  {| withdrawer_by := SWEEP_WITHDRAWER;
     withdrawer_reason := "no run leased it for " +:+ whole_text grace_seconds +:+ " s";
     withdrawer_timing := timing; withdrawer_writer := writer |}.

(** [sweepable], of [sweep_unleased] *)
Definition sweepable (sweeper : Withdrawer) (grace_seconds : float) (entry : LedgerEntry) : prog bool :=
  let% now := tell Now in
  Ret (if state_settled (state (entry_record entry)) then false
       else if match entry_withdrawal entry with
               | Some mark => negb (wrote sweeper (Some mark)) && negb (withdrawal_expired mark now)
               | None => false
               end then false
       else match lease_verdict entry now grace_seconds with Unleased _ => true | Leased _ => false end).

(** One key of [sweep_unleased] *)
Definition sweep_key (sweeper : Withdrawer) (grace_seconds now : float)
    (acc : OrphanChecks * list WithdrawOutcome) (key : string) : proc (OrphanChecks * list WithdrawOutcome) :=
  let '(orphans, outcomes) := acc in
  let% found := ledger_read key in
  match found with
  | Err (Ledger error) => Ret (Ok (orphans, outcomes ++ [WithdrawUnknown key (error_text error)]))
  | Err error => Ret (Err error)
  | Ok None => Ret (Ok acc)
  | Ok (Some entry) =>
      let! cancelled := cancel_orphans entry orphans now in
      let '(orphans, orphaned) := cancelled in
      let% wanted := sweepable sweeper grace_seconds entry in
      if negb wanted then Ret (Ok (orphans, outcomes ++ orphaned))
      else
        let! outcome := sweep_one entry sweeper (sweepable sweeper grace_seconds) in
        Ret (Ok (orphans, outcomes ++ orphaned ++ match outcome with Some outcome => [outcome] | None => [] end))
  end.

Definition sweep_unleased (sweeper : Withdrawer) (grace_seconds : float) (orphans : OrphanChecks)
  : proc (OrphanChecks * list WithdrawOutcome) :=
  let% now := tell Now in
  let! keys := list_keys self_project in
  pfold (sweep_key sweeper grace_seconds now) (orphans, []) keys.

(** [unwanted], of [relinquish] *)
Definition unwanted (holder : Withdrawer) (since : float) (entry : LedgerEntry) : bool :=
  if state_settled (state (entry_record entry)) then false
  else negb (held_by_others entry (withdrawer_by holder) since).

Definition relinquish (key : string) (holder : Withdrawer) (since : float) : proc WithdrawOutcome :=
  let% found := let! _ := release self_project key (withdrawer_by holder) in ledger_read key in
  match found with
  | Err (Ledger error) => Ret (Ok (WithdrawUnknown key (error_text error)))
  | Err error => Ret (Err error)
  | Ok None => Ret (Ok (NotInLedger key))
  | Ok (Some entry) =>
      let kept := Kept key (operation_id (entry_record entry)) in
      if negb (unwanted holder since entry) then
        if wrote holder (entry_withdrawal entry) then
          except_ledger
            (let! _ := undo entry in Ret (Ok kept))
            (fun error => Ret (Ok (WithdrawUnknown key (error_text error))))
        else Ret (Ok kept)
      else
        let! outcome := sweep_one entry holder (fun entry => Ret (unwanted holder since entry)) in
        Ret (Ok match outcome with None => kept | Some outcome => outcome end)
  end.
End Actions.
