(* ===== verification/SlurmEntry.v ===== *)
(** * What a read of the ledger shows

    The entry [SlurmStore.read] makes of the snapshots it takes of a request's records, withdrawals and
    leases, in this order. *)

From stdpp Require Import sorting.
From S2P Require Import Prelude PyFloat PySorted SlurmStates SlurmOutcomes SlurmLedger SlurmProg SlurmStore.

(** ** The current record *)

Section Latest.
Abbreviation latest_rows := (list (Z * (Z * LedgerRecord))).

Lemma note_latest_keys a r record (latest : latest_rows) :
  NoDup (map fst latest) -> NoDup (map fst (note_latest a r record latest)) /\
  forall a', a' ∈ map fst (note_latest a r record latest) <-> a' = a \/ a' ∈ map fst latest.
Proof.
  induction latest as [|[a' [r' record']] latest IH]; cbn.
  - intros _. split; [by apply NoDup_singleton|]. set_solver.
  - intros [Hn Hd]%NoDup_cons. destruct (Z.eqb_spec a' a) as [->|Hne]; cbn.
    + split; [by apply NoDup_cons|]. set_solver.
    + destruct (IH Hd) as [Hd' Hk]. split; [|intros b; rewrite !elem_of_cons, Hk; tauto].
      apply NoDup_cons. split; [|done]. rewrite Hk. naive_solver.
Qed.

Lemma note_latest_rows a r record (latest : latest_rows) row :
  NoDup (map fst latest) -> row ∈ note_latest a r record latest ->
  row = (a, (r, record)) \/ row ∈ latest /\ (row.1 <> a \/ r <= row.2.1).
Proof.
  induction latest as [|[a' [r' record']] latest IH]; cbn; [set_solver|]. intros [Hn Hd]%NoDup_cons.
  destruct (Z.eqb_spec a' a) as [->|Hne]; cbn; rewrite elem_of_cons.
  - intros [->|Hin]; [destruct (Z.ltb_spec r' r)|]; [by left|right; split; [by left|cbn; lia]|].
    right. split; [by right|]. left. intros <-. apply Hn. by apply list_elem_of_fmap_2.
  - intros [->|Hin]; [right; split; [by left|by left]|]. destruct (IH Hd Hin) as [->|[? ?]]; [by left|].
    right. split; [by right|done].
Qed.

Lemma note_latest_mono a r record (latest : latest_rows) b q x :
  (b, (q, x)) ∈ latest -> exists q' x', (b, (q', x')) ∈ note_latest a r record latest /\ q <= q'.
Proof.
  induction latest as [|[a' [r' record']] latest IH]; cbn; [by intros ?%not_elem_of_nil|].
  rewrite elem_of_cons. destruct (Z.eqb_spec a' a) as [->|Hne].
  - intros [E|Hin]; [injection E as -> -> ->; destruct (Z.ltb_spec r' r)|].
    + exists r, record. split; [by left|lia].
    + exists r', record'. split; [by left|lia].
    + exists q, x. split; [by right|lia].
  - intros [E|Hin]; [injection E as -> -> ->; exists r', record'; split; [by left|lia]|].
    destruct (IH Hin) as (q' & x' & ? & ?). exists q', x'. split; [by right|done].
Qed.

Lemma note_latest_has a r record (latest : latest_rows) :
  exists q x, (a, (q, x)) ∈ note_latest a r record latest /\ r <= q.
Proof.
  induction latest as [|[a' [r' record']] latest IH]; cbn; [exists r, record; split; [by left|lia]|].
  destruct (Z.eqb_spec a' a) as [->|Hne].
  - destruct (Z.ltb_spec r' r); [exists r, record|exists r', record']; (split; [by left|lia]).
  - destruct IH as (q & x & ? & ?). exists q, x. split; [by right|done].
Qed.

Definition latest_of (records : list (Z * Z * LedgerRecord)) : latest_rows :=
  fold_left (fun latest '(attempt, revision, record) => note_latest attempt revision record latest) records [].

Lemma latest_of_spec records :
  NoDup (map fst (latest_of records)) /\
  (forall a r x, (a, (r, x)) ∈ latest_of records -> (a, r, x) ∈ records) /\
  (forall a r x, (a, r, x) ∈ records -> exists r' x', (a, (r', x')) ∈ latest_of records /\ r <= r').
Proof.
  induction records as [|[[a r] x] records IH] using rev_ind; unfold latest_of in *.
  - split_and!; [by apply NoDup_nil|by intros * ?%not_elem_of_nil..].
  - rewrite fold_left_app. cbn. set (latest := fold_left _ records []) in *. destruct IH as (Hd & Hin & Hhas).
    split_and!; [by apply note_latest_keys| |].
    + intros b q y [E|[? _]]%note_latest_rows; [|apply elem_of_app; left; by apply Hin|done].
      injection E as -> -> ->. apply elem_of_app. right. by left.
    + intros b q y [H|H%list_elem_of_singleton]%elem_of_app.
      * destruct (Hhas _ _ _ H) as (q' & y' & H' & ?). destruct (note_latest_mono a r x _ _ _ _ H') as (q'' & y'' & ? & ?).
        exists q'', y''. split; [done|lia].
      * injection H as -> -> ->. apply note_latest_has.
Qed.

(** The last of the sorted rows *)
Lemma sorted_last (latest : latest_rows) row earlier :
  NoDup (map fst latest) -> rev (sorted_by (fun a b => fst a <? fst b) latest) = row :: earlier ->
  row ∈ latest /\ forall row', row' ∈ latest -> row' = row \/ row'.1 < row.1.
Proof.
  intros Hd E. apply (f_equal (@rev _)) in E. rewrite rev_involutive in E. cbn in E.
  assert (Hin : forall x, x ∈ latest <-> x ∈ rev earlier ++ [row]) by (intros; by rewrite <- E, elem_sorted_by).
  assert (Hs : StronglySorted (not_before (fun a b : Z * (Z * LedgerRecord) => fst a <? fst b)) (rev earlier ++ [row])).
  { rewrite <- E. apply sorted_by_sorted; unfold not_before; intros *; lia. }
  assert (Hrow : row ∈ latest) by (apply Hin, elem_of_app; right; by left).
  split; [done|]. intros row' H. destruct (decide (row'.1 = row.1)) as [Ek|Hne]; [left; by eapply (key_inj fst latest)|].
  right. pose proof H as [H'|H'%list_elem_of_singleton]%Hin%elem_of_app; [|by subst].
  pose proof (StronglySorted_app_1_elem_of _ _ _ _ _ Hs H' ltac:(by left)) as Hle. unfold not_before in Hle. lia.
Qed.
End Latest.

(** ** The newest withdrawal revision *)

Lemma newest_withdrawal_spec a withdrawals :
  match newest_withdrawal a withdrawals with
  | None => forall r d, (a, r, d) ∉ withdrawals
  | Some (r, d) => (a, r, d) ∈ withdrawals /\ forall r' d', (a, r', d') ∈ withdrawals -> r' <= r
  end.
Proof.
  unfold newest_withdrawal. induction withdrawals as [|[[a' r] d] withdrawals IH] using rev_ind; [set_solver|].
  rewrite fold_left_app. cbn. destruct (fold_left _ withdrawals None) as [[q x]|];
    destruct (Z.eqb_spec a' a) as [->|Hne]; cbn.
  - destruct IH as [Hq Hle]. destruct (Z.ltb_spec q r).
    + split; [apply elem_of_app; right; by left|]. intros r' d' [H'|H'%list_elem_of_singleton]%elem_of_app.
      * specialize (Hle _ _ H'). lia.
      * injection H' as -> ->. lia.
    + split; [by apply elem_of_app; left|]. intros r' d' [H'|H'%list_elem_of_singleton]%elem_of_app; [by eauto|].
      injection H' as -> ->. lia.
  - destruct IH as [Hq Hle]. split; [by apply elem_of_app; left|].
    intros r' d' [H'|H'%list_elem_of_singleton]%elem_of_app; [by eauto|]. by injection H' as ? _ _.
  - split; [apply elem_of_app; right; by left|]. intros r' d' [H'|H'%list_elem_of_singleton]%elem_of_app.
    + by destruct (IH _ _ H').
    + injection H' as -> ->. lia.
  - intros r' d' [H'|H'%list_elem_of_singleton]%elem_of_app; [by destruct (IH _ _ H')|]. by injection H' as ? _ _.
Qed.

(** ** What an entry shows of the snapshots it was read from *)

Section Shows.
Context `{codec : LedgerCodec} (self_project : string).

Record shows (key' : string) (records : gmap position stored) (withdrawals : gmap position (stored * float))
    (leases : gmap string (stored * float)) (e : LedgerEntry) : Prop := {
  shows_record : exists text, records !! (attempt (entry_record e), entry_revision e) = Some text /\
    decode_record text (record_path key' (attempt (entry_record e)) (entry_revision e)) = Ok (entry_record e);
  shows_key : key (entry_record e) = key';
  shows_newest : forall a r text, records !! (a, r) = Some text ->
    a < attempt (entry_record e) \/ a = attempt (entry_record e) /\ r <= entry_revision e;
  shows_latest_mark : forall r text, withdrawals !! (attempt (entry_record e), r) = Some text ->
    r <= entry_withdrawal_revision e;
  shows_mark :
    (forall r text, withdrawals !! (attempt (entry_record e), r) <> Some text) /\
      entry_withdrawal e = None /\ entry_withdrawal_revision e = -1 \/
    exists text written, withdrawals !! (attempt (entry_record e), entry_withdrawal_revision e) = Some (text, written) /\
      match readable_withdrawal text (withdrawal_path key' (attempt (entry_record e)) (entry_withdrawal_revision e))
              (attempt (entry_record e)) with
      | Some (Mark mark) => entry_withdrawal e = Some mark
      | Some (WithdrawalUndone _) => entry_withdrawal e = None
      | None => exists written, entry_withdrawal e = Some (unreadable_withdrawal_mark (entry_record e) written)
      end;
  shows_lease : forall holder' text written lease, leases !! holder' = Some (text, written) ->
    decode_lease text (lease_path key' holder') = Ok lease -> lease ∈ entry_leases e
}.

(** What reading a withdrawal revision makes of its document *)
Definition read_as (key' : string) (row : position * (stored * float)) (mark : Z * Z * WithdrawalRevision) : Prop :=
  let '((a, r), (text, _)) := row in
  mark.1 = (a, r) /\
  match readable_withdrawal text (withdrawal_path key' a r) a with
  | Some document => mark.2 = Readable document
  | None => exists written, mark.2 = UnreadableWithdrawal written
  end.

Lemma read_withdrawal_run key' row t mark :
  run (read_withdrawal_revision key' row) t (Ret (Ok mark)) -> read_as key' row mark.
Proof.
  destruct row as [[a r] [text file_time]]. cbn -[readable_withdrawal]. destruct (readable_withdrawal _ _ _) as [document|].
  - by intros [_ [= <-]]%run_ret.
  - intros (t1 & written & t2 & -> & _ & H1)%run_bind.
    unfold unreadable_withdrawal, ensure, rbind in H1. destruct (is_finite written); apply run_ret in H1 as [_ H1]; [|done].
    injection H1 as <-. split; [done|]. by exists written.
Qed.

Lemma read_withdrawals_run key' rows t acc marks :
  run (pfold (fun marks row => let! mark := read_withdrawal_revision key' row in Ret (Ok (marks ++ [mark]))) acc rows)
    t (Ret (Ok marks)) ->
  exists marks', marks = acc ++ marks' /\ Forall2 (read_as key') rows marks'.
Proof.
  revert t acc. induction rows as [|row rows IH]; intros t acc; cbn -[read_withdrawal_revision].
  - intros [_ [= ->]]%run_ret. exists []. by rewrite app_nil_r.
  - intros (t1 & b & t2 & -> & H1 & H2)%run_ebind. apply run_ebind in H1 as (t3 & mark & t4 & -> & H1 & H3).
    apply run_ret in H3 as [_ [= <-]]. apply IH in H2 as (marks' & -> & Hm). exists (mark :: marks').
    rewrite <- app_assoc. split; [done|]. constructor; [by eapply read_withdrawal_run|done].
Qed.

Lemma Forall2_map_rows (key' : string) (withdrawals : gmap position (stored * float)) (marks : list (Z * Z * WithdrawalRevision)) :
  Forall2 (read_as key') (map_to_list withdrawals) marks ->
  (forall a r d, (a, r, d) ∈ marks -> exists text written, withdrawals !! (a, r) = Some (text, written) /\
     match readable_withdrawal text (withdrawal_path key' a r) a with
     | Some document => d = Readable document
     | None => exists written, d = UnreadableWithdrawal written
     end) /\
  (forall a r text, withdrawals !! (a, r) = Some text -> exists d, (a, r, d) ∈ marks).
Proof.
  intros Hm. split.
  - intros a r d (i & Hi)%list_elem_of_lookup. destruct (Forall2_lookup_r _ _ _ _ _ Hm Hi) as ([[a' r'] [text written]] & Hrow & E & Hd).
    injection E as -> ->. exists text, written. split; [|done]. apply elem_of_map_to_list. by eapply list_elem_of_lookup_2.
  - intros a r [text written] Hrow%elem_of_map_to_list. apply list_elem_of_lookup in Hrow as (i & Hi).
    destruct (Forall2_lookup_l _ _ _ _ _ Hm Hi) as ([[a' r'] d] & Hmark & E & _). injection E as -> ->.
    exists d. by eapply list_elem_of_lookup_2.
Qed.

Lemma read_leases_spec key' rows acc :
  let '(readable, unreadable) := fold_left (read_lease key') rows acc in
  (forall lease, lease ∈ acc.1 -> lease ∈ readable) /\
  (forall holder' text written lease, (holder', (text, written)) ∈ rows ->
     decode_lease text (lease_path key' holder') = Ok lease -> lease ∈ readable).
Proof.
  revert acc. induction rows as [|[holder' [text written]] rows IH]; intros [readable unreadable]; cbn -[decode_lease].
  - split; [done|by intros * ?%not_elem_of_nil].
  - destruct (decode_lease text (lease_path key' holder')) as [lease|] eqn:E;
      match goal with |- context [fold_left _ rows ?acc'] => specialize (IH acc'); destruct (fold_left (read_lease key') rows acc') end;
      destruct IH as [Hacc Hrows]; cbn in Hacc; (split; [intros; apply Hacc; set_solver|]); intros * [E'|Hin]%elem_of_cons Hd; eauto;
      injection E' as -> -> ->; [|congruence]. rewrite E in Hd. injection Hd as <-. apply Hacc, elem_of_app. right. by left.
Qed.

Lemma read_records_spec (key' : string) (records : gmap position stored) rows :
  rmap (read_record key') (map_to_list records) = Ok rows ->
  (forall a r record, (a, r, record) ∈ rows -> exists text, records !! (a, r) = Some text /\
     decode_record text (record_path key' a r) = Ok record /\ key record = key' /\ attempt record = a) /\
  (forall a r text, records !! (a, r) = Some text -> exists record, (a, r, record) ∈ rows).
Proof.
  assert (Hread : forall a r text row, read_record key' ((a, r), text) = Ok row -> exists record, row = (a, r, record) /\
    decode_record text (record_path key' a r) = Ok record /\ key record = key' /\ attempt record = a).
  { intros a r text row. cbn -[decode_record]. intros (record & -> & E)%rbind_Ok.
    unfold ensure, rbind in E. destruct (_ && _) eqn:Hc; [|done]. injection E as <-.
    apply andb_true_iff in Hc as [?%eqb_eq ?%Z.eqb_eq]. eauto. }
  intros Hrows. split.
  - intros a r record Hin. destruct (rmap_In _ _ _ _ Hrows Hin) as ([[a' r'] text] & Hrow & E).
    apply Hread in E as (record' & E & ? & ? & ?). injection E as -> -> ->. exists text. split_and!; [|done..].
    by apply elem_of_map_to_list.
  - intros a r text Hrow%elem_of_map_to_list. pose proof (rmap_Ok _ _ _ Hrows) as H2.
    apply list_elem_of_lookup in Hrow as (i & Hi). destruct (Forall2_lookup_l _ _ _ _ _ H2 Hi) as (row & Hr & E).
    apply Hread in E as (record & -> & _). exists record. by eapply list_elem_of_lookup_2.
Qed.

(** ** The reads a run of [read] makes, and what its entry shows of them *)

Definition reading (c : call) : Prop :=
  match c with ReadRecords _ | ReadWithdrawals _ | ReadLeases _ | FirstRead _ _ | Now => True | _ => False end.

Lemma read_calls (J : list event -> call -> Prop) key' h :
  (forall h c, reading c -> J h c) -> always J (fun _ _ => True) h (read self_project key').
Proof.
  intros HJ. unfold read, pure. apply always_ebind; cbn [always]. destruct (slot_of _ _) as [where_|]; [|done].
  apply always_ebind. cbn [tell always]. split; [by apply HJ|]. intros [records|]; [|done].
  apply always_ebind. cbn [tell always]. split; [by apply HJ|]. intros [withdrawals|]; [|done].
  apply always_ebind. cbn [tell always]. split; [by apply HJ|]. intros [leases|]; [|done].
  apply always_ebind. cbn [always]. destruct (rmap _ _) as [rows|]; [|done].
  apply always_ebind. eapply always_post; [apply (always_pfold _ (fun _ => True)); [|done]|].
  - intros h' b [[a r] [text file_time]] _ _. apply always_ebind. unfold read_withdrawal_revision.
    destruct (readable_withdrawal _ _ _); cbn; [done|]. apply always_bind. unfold written_at.
    destruct (is_finite file_time); cbn.
    + destruct (unreadable_withdrawal file_time); cbn; done.
    + split; [by apply HJ|]. intros now. split; [by apply HJ|]. intros written. destruct (unreadable_withdrawal written); cbn; done.
  - intros t [marks|] _; cbn [always]; [|done]. by destruct (fold_left _ _ _).
Qed.

Lemma read_run key' t found :
  run (read self_project key') t (Ret (Ok found)) ->
  exists where_ records withdrawals leases t', slot_of self_project key' = Ok where_ /\
    t = [Event (ReadRecords where_) (Ok records); Event (ReadWithdrawals where_) (Ok withdrawals);
         Event (ReadLeases where_) (Ok leases)] ++ t' /\
    match found with
    | Some e => shows key' records withdrawals leases e
    | None => records = ∅
    end.
Proof.
  intros (t1 & where_ & t2 & -> & [-> Hs]%run_ret & H1)%run_ebind.
  apply run_ebind in H1 as (t3 & records & t4 & -> & ->%(run_tell (ReadRecords _)) & H1).
  apply run_ebind in H1 as (t5 & withdrawals & t6 & -> & ->%(run_tell (ReadWithdrawals _)) & H1).
  apply run_ebind in H1 as (t7 & leases & t8 & -> & ->%(run_tell (ReadLeases _)) & H1).
  apply run_ebind in H1 as (t9 & rows & t10 & -> & [-> Hrows]%run_ret & H1).
  apply run_ebind in H1 as (t11 & marks & t12 & -> & Hmarks & H1).
  exists where_, records, withdrawals, leases, (t11 ++ t12). split_and!; [done|done|].
  apply read_withdrawals_run in Hmarks as (marks' & -> & Hmarks). cbn [app] in H1.
  apply Forall2_map_rows in Hmarks as [Hm1 Hm2]. apply read_records_spec in Hrows as [Hr1 Hr2].
  pose proof (read_leases_spec key' (sorted_by (fun a b => String.ltb a.1 b.1) (map_to_list leases)) ([], [])) as Hl.
  destruct (fold_left _ _ _) as [readable unreadable]. destruct Hl as [_ Hl].
  apply run_ret in H1 as [_ [= <-]]. unfold entry_of. fold (latest_of rows).
  destruct (latest_of_spec rows) as (Hd & Hin & Hhas).
  destruct (rev _) as [|[a [r current]] earlier] eqn:E.
  - apply map_empty. intros [a r]. destruct (records !! (a, r)) as [text|] eqn:Er; [|done]. exfalso.
    destruct (Hr2 _ _ _ Er) as (record & (r' & x' & Hx & _)%Hhas).
    apply (f_equal (@rev _)) in E. rewrite rev_involutive in E. cbn in E.
    rewrite <- (elem_sorted_by (fun a b => a.1 <? b.1)), E in Hx. by apply not_elem_of_nil in Hx.
  - apply sorted_last in E as [Hrow Hlast]; [|done].
    destruct (Hr1 _ _ _ (Hin _ _ _ Hrow)) as (text & Ht & Hdec & Hk & Ha). cbn [snd fst] in *. subst a.
    pose proof (newest_withdrawal_spec (attempt current) marks') as Hn.
    constructor; cbn [entry_record entry_revision entry_withdrawal entry_withdrawal_revision entry_leases].
    + by exists text.
    + done.
    + intros a' r' text' Ht'. destruct (Hr2 _ _ _ Ht') as (record' & (r'' & x & Hx & Hle)%Hhas).
      destruct (Hlast _ Hx) as [[= -> -> ->]|Hlt]; [right; by split|left; exact Hlt].
    + intros r' text' Ht'. destruct (Hm2 _ _ _ Ht') as (d & Hin').
      destruct (newest_withdrawal _ _) as [[q x]|]; [by apply Hn in Hin'|by apply Hn in Hin'].
    + destruct (newest_withdrawal _ _) as [[q x]|].
      * right. destruct Hn as [Hq _]. destruct (Hm1 _ _ _ Hq) as (text' & written & Ht' & Hx).
        exists text', written. split; [done|]. destruct (readable_withdrawal _ _ _) as [[mark|]|]; [by subst..|].
        destruct Hx as (written' & ->). by exists written'.
      * left. split_and!; [|done..]. intros r' text' Ht'. destruct (Hm2 _ _ _ Ht') as (d & Hin'). by apply Hn in Hin'.
    + intros holder' text' written lease Hh Hlease. apply elem_sorted_by. eapply Hl; [|done].
      apply elem_sorted_by. by apply elem_of_map_to_list.
Qed.
End Shows.
