(* ===== verification/SlurmListing.v ===== *)
(** * What an operator sees of a ledger

    [libs/vs-slurm/src/vs_slurm/ledger_listing.py]: a row per request, and the requests a removal names. *)

From S2P Require Import Prelude PyFloat SlurmStates SlurmOutcomes SlurmLedger SlurmProg SlurmStore SlurmEntry.

Definition ENTRY_ID_LENGTH : nat := 12.
Definition LISTING_FORMAT_VERSION : Z := 1.

Module EntryPhase.
Inductive EntryPhase : Set := CLAIMED | QUEUED | RUNNING | DONE | FAILED | WITHDRAWN | UNKNOWN.
End EntryPhase.
Abbreviation EntryPhase := EntryPhase.EntryPhase.
#[export] Instance EntryPhase_dec : EqDecision EntryPhase.
Proof. solve_decision. Defined.

Record LedgerRow := {
  row_entry : string;
  row_key : string;
  row_project : string;
  row_attempt : Z;
  row_owner : string;
  row_lease_holders : list string;
  row_unreadable_leases : list string;
  row_lease_age_seconds : option float;
  row_candidate : option string;
  row_workstream : option string;
  row_phase : EntryPhase;
  row_job_id : option string;
  row_waiting_seconds : option float;
  row_pending_reason : option string;
  row_estimated_start : option string;
  row_result_location : option string;
  row_detail : option string
}.

Record LedgerListing := {
  listing_format_version : Z;
  listing_project : string;
  listing_rows : list LedgerRow;
  listing_unreadable : list string
}.

Definition entry_id (key : string) : string := String.substring 0 ENTRY_ID_LENGTH key.

(** ** Naming requests *)

(** [c.lower()], of an ASCII character *)
Definition lower_ascii (c : Ascii.ascii) : Ascii.ascii :=
  let n := Ascii.nat_of_ascii c in
  if ((65 <=? n) && (n <=? 90))%nat then Ascii.ascii_of_nat (n + 32) else c.
Fixpoint lower (s : string) : string :=
  match s with
  | EmptyString => EmptyString
  | String c s' => String (lower_ascii c) (lower s')
  end.

(** [matches] of [resolve_entries] *)
Definition matches (keys : list string) (given : string) : list string :=
  List.filter (fun key => negb (eqb given ""%string) && String.prefix (lower given) key) keys.

(** [Resolved | Unresolved] *)
Inductive Resolution : Type :=
  | Resolved (keys : list string)
  | Unresolved (unknown ambiguous : list string).

(** One id of [resolve_entries] *)
Definition resolve_one (keys : list string) (acc : list string * list string * list string) (given : string)
  : list string * list string * list string :=
  let '(found, unknown, ambiguous) := acc in
  match matches keys given with
  | [] => (found, unknown ++ [given], ambiguous)
  | [key] => (if among key found then found else found ++ [key], unknown, ambiguous)
  | _ => (found, unknown, ambiguous ++ [given])
  end.

Definition resolve_entries (keys ids : list string) : Resolution :=
  let '(found, unknown, ambiguous) := fold_left (resolve_one keys) ids ([], [], []) in
  match unknown, ambiguous with
  | [], [] => Resolved found
  | _, _ => Unresolved unknown ambiguous
  end.

(** ** Rows *)

(** [PurePosixPath(s).parent.as_posix()] *)
Definition slash : Ascii.ascii := Ascii.ascii_of_nat 47.
Fixpoint split_slash (part s : string) : list string :=
  match s with
  | EmptyString => [part]
  | String c s' => if Ascii.eqb c slash then part :: split_slash EmptyString s' else split_slash (part +:+ String c EmptyString) s'
  end.
Definition path_parts (s : string) : list string :=
  List.filter (fun part => negb (eqb part ""%string) && negb (eqb part "."%string)) (split_slash "" s).
Definition path_root (s : string) : string :=
  if String.prefix "///" s then "/" else if String.prefix "//" s then "//" else if String.prefix "/" s then "/" else "".
Definition posix_parent (s : string) : string :=
  let path := path_root s +:+ String.concat "/" (removelast (path_parts s)) in
  if eqb path ""%string then "." else path.

(** [_STATUS_PHASES[status]] *)
Definition STATUS_PHASES (status : SlurmJobStatus) : EntryPhase :=
  match status with
  | SlurmJobStatus.UNKNOWN => EntryPhase.UNKNOWN
  | SlurmJobStatus.PENDING => EntryPhase.QUEUED
  | SlurmJobStatus.RUNNING => EntryPhase.RUNNING
  | SlurmJobStatus.COMPLETED => EntryPhase.DONE
  | SlurmJobStatus.FAILED | SlurmJobStatus.CANCELLED => EntryPhase.FAILED
  end.

(** [_stated_reason] *)
Definition stated_reason (entry : LedgerEntry) : option string :=
  match entry_withdrawal entry, state_final (state (entry_record entry)) with
  | Some mark, false => Some ("being withdrawn by " +:+ mark_by mark +:+ ": " +:+ mark_reason mark)
  | _, _ => reason (entry_record entry)
  end.

Section Listing.
Context `{codec : LedgerCodec} (self_project : string).

(** [_phase] *)
Definition entry_phase (entry : LedgerEntry) : prog (EntryPhase * option ClusterObservation * option string) :=
  let record := entry_record entry in
  let asked :=
    let% observed := tell (Inspect (operation_id record)) in
    Ret match observed with
        | InspectUnknown unknown =>
            if eqb (state record) LedgerState.SUBMITTING then (EntryPhase.CLAIMED, None, None)
            else (EntryPhase.UNKNOWN, None, Some (unknown_reason unknown))
        | Observed observation => (STATUS_PHASES (observed_status observation), Some observation, None)
        end in
  match state record with
  | LedgerState.WITHDRAWN => Ret (EntryPhase.WITHDRAWN, None, None)
  | LedgerState.COMPLETED => Ret (EntryPhase.DONE, None, None)
  | LedgerState.FAILED => Ret (EntryPhase.FAILED, None, None)
  | LedgerState.SUBMITTING | LedgerState.SUBMITTED => asked
  end.

(** [max((lease.renewed_at for lease in leases), default=None)] *)
Definition newest_renewal (leases : list LedgerLease) : option float :=
  match leases with
  | [] => None
  | lease :: leases => Some (fmax_of (renewed_at lease) (map renewed_at leases))
  end.

(** [_row] *)
Definition listing_row (now : float) (entry : LedgerEntry) : prog LedgerRow :=
  let record := entry_record entry in
  let newest := newest_renewal (entry_leases entry) in
  let% found := entry_phase entry in
  let '(phase, observed, detail) := found in
  Ret {| row_entry := entry_id (key record); row_key := key record; row_project := project record;
         row_attempt := attempt record; row_owner := owner record;
         row_lease_holders := map holder (entry_leases entry);
         row_unreadable_leases := map unreadable_holder (entry_unreadable_leases entry);
         row_lease_age_seconds := option_map (fun newest => fmax fzero (fsub now newest)) newest;
         row_candidate := label_candidate (labels record); row_workstream := label_workstream (labels record);
         row_phase := phase;
         row_job_id := match job record with Some job => Some (job_id job) | None => option_map observed_job_id observed end;
         row_waiting_seconds := if among phase [EntryPhase.CLAIMED; EntryPhase.QUEUED]
                                then Some (fmax fzero (fsub now (created_at record))) else None;
         row_pending_reason := match observed with Some observation => observed_pending_reason observation | None => None end;
         row_estimated_start := match observed with Some observation => observed_estimated_start observation | None => None end;
         row_result_location := option_map (fun job => posix_parent (job_remote_workspace job)) (job record);
         row_detail := match detail with Some detail => Some detail | None => stated_reason entry end |}.

(** One key of [list_entries] *)
Definition list_one (now : float) (acc : list LedgerRow * list string) (key : string)
  : proc (list LedgerRow * list string) :=
  let '(rows, unreadable) := acc in
  let% found := read self_project key in
  match found with
  | Err (Ledger error) => Ret (Ok (rows, unreadable ++ [entry_id key +:+ ": " +:+ error_text error]))
  | Err error => Ret (Err error)
  | Ok None => Ret (Ok acc)
  | Ok (Some entry) => let% row := listing_row now entry in Ret (Ok (rows ++ [row], unreadable))
  end.

Definition list_entries (project : string) (now : float) : proc LedgerListing :=
  let! keys := list_keys self_project in
  let! found := pfold (list_one now) ([], []) keys in
  Ret (Ok {| listing_format_version := LISTING_FORMAT_VERSION; listing_project := project;
             listing_rows := fst found; listing_unreadable := snd found |}).
End Listing.

Example parent_of_workspace : map posix_parent ["/scratch//jobs/./17"; "/a"; "a"; ""; "//x/y"]%string = ["/scratch/jobs"; "/"; "."; "."; "//x"]%string.
Proof. reflexivity. Qed.

(** ** What a removal names *)

Definition is_unknown (keys : list string) (given : string) : bool := (length (matches keys given) =? 0)%nat.
Definition is_ambiguous (keys : list string) (given : string) : bool := (1 <? length (matches keys given))%nat.

Lemma resolve_fold (keys ids found unknown ambiguous : list string) :
  let '(found', unknown', ambiguous') := fold_left (resolve_one keys) ids (found, unknown, ambiguous) in
  unknown' = unknown ++ List.filter (is_unknown keys) ids /\ ambiguous' = ambiguous ++ List.filter (is_ambiguous keys) ids /\
  (NoDup found -> NoDup found') /\
  (forall key, key ∈ found' <-> key ∈ found \/ exists given, given ∈ ids /\ matches keys given = [key]).
Proof.
  revert found unknown ambiguous. induction ids as [|given ids IH]; intros found unknown ambiguous; cbn [fold_left List.filter].
  - rewrite !app_nil_r. split_and!; [done..|]. intros key. split; [by left|]. by intros [?|(? & []%not_elem_of_nil & _)].
  - unfold resolve_one at 2, is_unknown at 1, is_ambiguous at 1. destruct (matches keys given) as [|key [|key' rest]] eqn:Em; cbn [length Nat.eqb Nat.ltb Nat.leb].
    + specialize (IH found (unknown ++ [given]) ambiguous). destruct (fold_left _ _ _) as [[f u] a]. destruct IH as (-> & -> & Hd & Hf).
      rewrite <- app_assoc. split_and!; [done..|]. intros k. rewrite Hf. split; [intros [?|(g & ? & ?)]; [by left|right; exists g; split; [by right|done]]|].
      intros [?|(g & [->|?]%elem_of_cons & ?)]; [by left|congruence|right; eauto].
    + specialize (IH (if among key found then found else found ++ [key]) unknown ambiguous).
      destruct (fold_left _ _ _) as [[f u] a]. destruct IH as (-> & -> & Hd & Hf). split_and!; [done..| |].
      * intros Hn. apply Hd. destruct (among key found) eqn:Ea; [done|]. apply among_false in Ea. apply NoDup_app.
        split_and!; [done| |apply NoDup_singleton]. by intros x Hx ->%list_elem_of_singleton.
      * intros k. rewrite Hf. clear Hf Hd. assert (Hk : k ∈ (if among key found then found else found ++ [key]) <-> k ∈ found \/ k = key).
        { destruct (among key found) eqn:Ea; [apply among_true in Ea; naive_solver|]. by rewrite elem_of_app, list_elem_of_singleton. }
        rewrite Hk. split.
        -- intros [[?| ->]|(g & ? & ?)]; [by left|right; exists given; split; [by left|done]|right; exists g; split; [by right|done]].
        -- intros [?|(g & [->|?]%elem_of_cons & E)]; [by left; left|left; right; congruence|right; eauto].
    + specialize (IH found unknown (ambiguous ++ [given])). destruct (fold_left _ _ _) as [[f u] a]. destruct IH as (-> & -> & Hd & Hf).
      rewrite <- app_assoc. split_and!; [done..|]. intros k. rewrite Hf. split; [intros [?|(g & ? & ?)]; [by left|right; exists g; split; [by right|done]]|].
      intros [?|(g & [->|?]%elem_of_cons & ?)]; [by left|congruence|right; eauto].
Qed.

Lemma unresolved_ids (keys ids : list string) (given : string) : given ∈ ids -> is_unknown keys given = false -> is_ambiguous keys given = false ->
  exists key, matches keys given = [key].
Proof. unfold is_unknown, is_ambiguous. destruct (matches keys given) as [|key [|]]; [done|eauto|done]. Qed.

(** Either every id an operator types names exactly one request, and the removal is of those requests, each
    once and no other; or nothing is removed, and every id that names no request, and every one that names
    several, is told. *)
Theorem removal_names_requests (keys ids : list string) :
  match resolve_entries keys ids with
  | Resolved found =>
      NoDup found /\ (forall given, given ∈ ids -> exists key, matches keys given = [key] /\ key ∈ found) /\
      (forall key, key ∈ found -> exists given, given ∈ ids /\ matches keys given = [key])
  | Unresolved unknown ambiguous =>
      unknown = List.filter (is_unknown keys) ids /\ ambiguous = List.filter (is_ambiguous keys) ids /\
      exists given, given ∈ ids /\ forall key, matches keys given <> [key]
  end.
Proof.
  unfold resolve_entries. pose proof (resolve_fold keys ids [] [] []) as H. destruct (fold_left _ _ _) as [[found unknown] ambiguous].
  cbn [app] in H. destruct H as (Hu & Ha & Hd & Hf).
  assert (Hone : forall P : string -> bool, (forall key given, matches keys given = [key] -> P given = false) -> forall given l, List.filter P ids = given :: l ->
            exists given, given ∈ ids /\ forall key, matches keys given <> [key]).
  { intros P HP given l E. assert (Hin : given ∈ List.filter P ids) by (rewrite E; by left).
    apply elem_of_filterb in Hin as [Hin Hp]. exists given. split; [done|]. intros key Em. by rewrite (HP _ _ Em) in Hp. }
  destruct unknown as [|given unknown]; [destruct ambiguous as [|given ambiguous]|].
  - split_and!; [apply Hd, NoDup_nil_2| |].
    + intros given Hg. assert (Hno : forall P, [] = List.filter P ids -> P given = false).
      { intros P E. destruct (P given) eqn:Ep; [|done]. assert (Hin : given ∈ List.filter P ids) by (by apply elem_of_filterb).
        rewrite <- E in Hin. by apply not_elem_of_nil in Hin. }
      destruct (unresolved_ids keys ids given Hg (Hno _ Hu) (Hno _ Ha)) as [key Hk]. exists key. split; [done|]. apply Hf. right. eauto.
    + intros key Hk. apply Hf in Hk as [Hk|?]; [by apply not_elem_of_nil in Hk|done].
  - split_and!; [done..|]. eapply (Hone (is_ambiguous keys)); [|by symmetry]. intros key g E. unfold is_ambiguous. by rewrite E.
  - split_and!; [done..|]. eapply (Hone (is_unknown keys)); [|by symmetry]. intros key g E. unfold is_unknown. by rewrite E.
Qed.

(** ** What a listing shows *)

Section Shown.
Context `{codec : LedgerCodec} (self_project : string).

Lemma listing_row_key now e t row : run (listing_row now e) t (Ret row) -> row_key row = key (entry_record e).
Proof. intros (t1 & [[phase observed] detail] & t2 & -> & _ & [_ <-]%run_ret)%run_bind. done. Qed.

(** A request is in its row, or told to be unreadable, or its read found no record *)
Definition shown (acc : list LedgerRow * list string) (t : list event) (key' : string) : Prop :=
  (exists row, row ∈ acc.1 /\ row_key row = key') \/
  (exists error, (entry_id key' +:+ ": " +:+ error_text error) ∈ acc.2) \/
  (exists where_, slot_of self_project key' = Ok where_ /\ Event (ReadRecords where_) (Ok ∅) ∈ t).

Lemma list_one_run now acc key' t acc' :
  run (list_one self_project now acc key') t (Ret (Ok acc')) ->
  shown acc' t key' /\ acc.1 `prefix_of` acc'.1 /\ acc.2 `prefix_of` acc'.2.
Proof.
  destruct acc as [rows unreadable]. unfold list_one. intros (t1 & found & t2 & -> & Hread & H)%run_bind. cbn [fst snd].
  destruct found as [[e|]|[error|model|k r|k l|r]]; try (by apply run_ret in H as [_ ?]).
  - apply run_bind in H as (t3 & row & t4 & -> & Hrow & H). apply run_ret in H as [_ [= <-]]. cbn [fst snd].
    split_and!; [left; exists row|by apply prefix_app_r|done]. split; [apply elem_of_app; right; by left|].
    apply listing_row_key in Hrow. apply read_run in Hread as (where_ & rs & ws & ls & t' & _ & _ & Hsh).
    by rewrite Hrow, (shows_key _ _ _ _ _ Hsh).
  - apply run_ret in H as [_ [= <-]]. split_and!; [right; right|done..].
    apply read_run in Hread as (where_ & rs & ws & ls & t' & Hs & -> & ->). exists where_. split; [done|].
    rewrite <- app_assoc. by left.
  - apply run_ret in H as [_ [= <-]]. cbn [fst snd]. split_and!; [right; left; exists error|done|by apply prefix_app_r].
    apply elem_of_app. right. by left.
Qed.

Lemma shown_mono acc acc' t t' key' :
  acc.1 `prefix_of` acc'.1 -> acc.2 `prefix_of` acc'.2 -> shown acc t key' -> shown acc' (t ++ t') key'.
Proof.
  intros [l1 E1] [l2 E2] [(row & ? & ?)|[(error & ?)|(where_ & ? & ?)]]; unfold shown; rewrite E1, E2; setoid_rewrite elem_of_app; eauto 10.
Qed.

Lemma list_all_run now keys acc t acc' :
  run (pfold (list_one self_project now) acc keys) t (Ret (Ok acc')) ->
  (forall key', key' ∈ keys -> shown acc' t key') /\ acc.1 `prefix_of` acc'.1 /\ acc.2 `prefix_of` acc'.2.
Proof.
  revert acc t. induction keys as [|key' keys IH]; intros acc t; cbn [pfold].
  - intros [_ [= <-]]%run_ret. split_and!; [by intros ? ?%not_elem_of_nil|done..].
  - intros (t1 & acc1 & t2 & -> & (Hs & H1 & H2)%list_one_run & (IHk & H3 & H4)%IH)%run_ebind.
    split_and!; [|by etrans..]. intros k [->|Hk]%elem_of_cons; [by eapply shown_mono|].
    destruct (IHk k Hk) as [?|[?|(where_ & ? & ?)]]; [by left|by right; left|right; right]. exists where_. split; [done|].
    apply elem_of_app. by right.
Qed.

(** A listing hides no request: each key the ledger lists is in a row of its own, or told with the error its
    read raised, or held no record when it was read. *)
Theorem listing_hides_nothing project now t listing :
  run (list_entries self_project project now) t (Ret (Ok listing)) ->
  exists keys, Event (ListKeys self_project) (Ok keys) ∈ t /\
    forall key', key' ∈ keys -> shown (listing_rows listing, listing_unreadable listing) t key'.
Proof.
  intros (t1 & keys & t2 & -> & ->%(run_tell (ListKeys _)) & H)%run_ebind.
  apply run_ebind in H as (t3 & found & t4 & -> & (Hk & _)%list_all_run & H). apply run_ret in H as [-> [= <-]].
  exists keys. split; [by left|]. intros key' Hin. rewrite app_nil_r. cbn [listing_rows listing_unreadable app].
  destruct (Hk _ Hin) as [?|[?|(where_ & ? & ?)]]; [by left|by right; left|right; right]. exists where_. split; [done|by right].
Qed.
End Shown.
