(* ===== verification/SlurmAttach.v ===== *)
(** * A run's attachment to the ledger

    [libs/vs-sandbox/src/vs_sandbox/slurm_ledger.py]: how a run attaches to the job of a request, keeps
    its lease, and stops wanting the request.  The lock of [guard] is the executor's. *)

From Stdlib Require Import SpecFloat.
From S2P Require Import Prelude PyFloat SlurmStates SlurmOutcomes SlurmLedger SlurmProg SlurmStore SlurmActions.

(** [x / y] *)
Definition fdiv (x y : float) : float := SFdiv prec emax x y.

(** [_ATTACH_ROUNDS] *)
Definition ATTACH_ROUNDS : nat := 8.

Inductive AttachOutcome : Type :=
  | Attached (key operation_id : string) (handle : SlurmBatchHandle)
  | AttachPending (key reason : string).

(** [SlurmLedgerAttachment]: what it was made with, and what its methods change *)
Record Attachment := {
  att_project : string;
  att_holder : string;
  att_policy : LedgerPolicy;
  att_renewed : gmap string float;
  att_swept_at : option float;
  att_sweeping : bool;
  att_users : gmap string (gset string);
  att_used : gmap string string;
  att_claimed_here : gmap string float;
  att_orphans : OrphanChecks;
  att_withdrawer : Withdrawer;
  att_sweeper : Withdrawer
}.
#[export] Instance Attachment_eta : Eta Attachment := fun r => Build_Attachment
  (att_project r) (att_holder r) (att_policy r) (att_renewed r) (att_swept_at r) (att_sweeping r) (att_users r)
  (att_used r) (att_claimed_here r) (att_orphans r) (att_withdrawer r) (att_sweeper r).

(** [SlurmLedgerAttachment.__post_init__]; [writer] and [sweep_writer] are fresh *)
Definition attachment (project holder : string) (policy : LedgerPolicy) (transport_timeout_seconds : float)
    (writer sweep_writer : string) : result Raised Attachment :=
  let* _ := validate_project project in
  let* _ := validate_holder holder in
  let* timing := withdrawal_timing transport_timeout_seconds in
  Ok {| att_project := project; att_holder := holder; att_policy := policy; att_renewed := ∅; att_swept_at := None;
        att_sweeping := false; att_users := ∅; att_used := ∅; att_claimed_here := ∅;
        att_orphans := {| orphan_window_seconds := claim_seconds policy; orphan_first_seen := ∅; orphan_done := ∅ |};
        att_withdrawer := {| withdrawer_by := holder;
                             withdrawer_reason := "its run " +:+ holder +:+ " stopped wanting it";
                             withdrawer_timing := timing; withdrawer_writer := writer |};
        att_sweeper := sweep_withdrawer timing (grace_seconds policy) sweep_writer |}.

(** ** Methods: programs that change the attachment, also when they raise *)

Section Methods.
Context `{codec : LedgerCodec}.

Definition method (A : Type) : Type := Attachment -> prog (Attachment * result Raised A).

Definition mret {A : Type} (a : A) : method A := fun self => Ret (self, Ok a).
Definition raise {A : Type} (e : Raised) : method A := fun self => Ret (self, Err e).
Definition mbind {A B : Type} (m : method A) (f : A -> method B) : method B :=
  fun self => let% r := m self in
              let '(self, r) := r in
              match r with Ok a => f a self | Err e => Ret (self, Err e) end.
(** A call of the ledger, the cluster or the clock *)
Definition lift {A : Type} (p : proc A) : method A := fun self => let% r := p in Ret (self, r).
Definition ask (c : call) : method (answer c) := fun self => let% r := tell c in Ret (self, Ok r).
(** The fields, and an assignment to one *)
Definition self_ : method Attachment := fun self => Ret (self, Ok self).
Definition assign (f : Attachment -> Attachment) : method unit := fun self => Ret (f self, Ok tt).

End Methods.

Notation "'do!' x ':=' m 'in' n" := (mbind m (fun x => n)) (at level 10, x name, n at level 200) : vibesys_scope.

(** [reason or 'no reason'] *)
Definition stated (reason : option string) : string := default "no reason"%string (or_else reason None).

Section Attaching.
Context `{codec : LedgerCodec}.

(** The ledger of the attachment's project *)
Definition with_ledger {A : Type} (p : string -> proc A) : method A :=
  do! self := self_ in lift (p (att_project self)).

(** [renew] *)
Definition att_renew (key : string) : method unit :=
  do! self := self_ in
  do! now := ask Now in
  do! _ := with_ledger (fun project => renew project key
             {| holder := att_holder self; renewed_at := now;
                expires_at := fadd now (lease_seconds (att_policy self)) |}) in
  assign (fun self => self <| att_renewed := <[key := now]> (att_renewed self) |>).

(** [release] *)
Definition att_release (key : string) : method unit :=
  do! self := self_ in
  do! _ := with_ledger (fun project => release project key (att_holder self)) in
  assign (fun self => self <| att_renewed := delete key (att_renewed self) |>).

(** [_attached] *)
Definition attached (record : LedgerRecord) (request : SlurmBatchRequest) : method AttachOutcome :=
  match job record with
  | None => raise (Ledger (Unreadable (key record) "submitted record without a job"))
  | Some job =>
      if negb (job_result_layout job =? BATCH_RESULT_LAYOUT)
      then raise (LedgerAttach (key record) (job_result_layout job))
      else match handle_of_job job (operation_id record) request with
           | Ok handle => mret (Attached (key record) (operation_id record) handle)
           | Err error => raise error
           end
  end.

(** [_check] *)
Definition check (entry : LedgerEntry) (request : SlurmBatchRequest) : method (option AttachOutcome) :=
  let record := entry_record entry in
  do! observed := ask (Inspect (operation_id record)) in
  let ended := match job record, observed with
               | Some job, Observed observation =>
                   if not_none (settlement (observed_status observation) None job)
                   then Some (observed_status observation) else None
               | _, _ => None
               end in
  match ended with
  | Some status =>
      do! _ := with_ledger (fun project => settle project entry status None) in mret None
  | None => do! outcome := attached record request in mret (Some outcome)
  end.

(** [_await_withdrawal] *)
Definition await_withdrawal (entry : LedgerEntry) (expired : bool) : method (option AttachOutcome) :=
  let record := entry_record entry in
  if negb expired then
    let by_ := match entry_withdrawal entry with Some mark => mark_by mark | None => "another process"%string end in
    mret (Some (AttachPending (key record) (by_ +:+ " is withdrawing the request")))
  else
    do! now := ask Now in
    do! _ := with_ledger (fun project => undo_expired_withdrawal project entry now) in mret None.

(** [_claim_lapsed] *)
Definition claim_lapsed (record : LedgerRecord) (expired : bool) : method bool :=
  do! self := self_ in
  if negb (eqb (owner record) (att_holder self)) then mret expired
  else match att_claimed_here self !! operation_id record with
       | None => mret true
       | Some submitted_at =>
           do! now := ask Now in
           mret (flt (fadd submitted_at (claim_seconds (att_policy self))) now)
       end.

(** [_record_job] *)
Definition record_job (entry : LedgerEntry) (request : SlurmBatchRequest) (handle : SlurmBatchHandle)
  : method (option AttachOutcome) :=
  let record := entry_record entry in
  let submitted_job := job_of_handle handle in
  do! won := with_ledger (fun project =>
               let! submitted := pure (transitioned record LedgerState.SUBMITTED (Some submitted_job) None) in
               replace project entry submitted) in
  if won : bool then
    do! _ := att_renew (key record) in
    match handle_of_job submitted_job (operation_id record) request with
    | Ok rebased => mret (Some (Attached (key record) (operation_id record) rebased))
    | Err error => raise error
    end
  else
    do! current := with_ledger (fun project => read project (key record)) in
    match current with
    | None => do! _ := ask (Cancel (operation_id record) None) in mret None
    | Some current =>
        if negb (eqb (operation_id (entry_record current)) (operation_id record)) then
          do! _ := ask (Cancel (operation_id record) None) in mret None
        else if among (state (entry_record current)) [LedgerState.FAILED; LedgerState.WITHDRAWN] then
          do! _ := ask (Cancel (operation_id record) None) in
          if eqb (state (entry_record current)) LedgerState.WITHDRAWN
          then raise (LedgerWithdrawn (key record) (stated (reason (entry_record current))))
          else mret None
        else mret None
    end.

(** [_submit] *)
Definition submit (request : SlurmBatchRequest) (entry : LedgerEntry) : method (option AttachOutcome) :=
  let record := entry_record entry in
  do! submitted := ask (Submit request (operation_id record)) in
  match submitted with
  | ClusterSubmitted _ (BatchHandle handle) => record_job entry request handle
  | ClusterSubmitted _ (JobHandle _) =>
      mret (Some (AttachPending (key record) "the submission returned no batch handle"))
  | ClusterRejected _ reason =>
      do! _ := with_ledger (fun project =>
                 let! after := pure (transitioned record LedgerState.FAILED None (Some ("rejected: " +:+ reason))) in
                 replace project entry after) in
      raise (SubmissionRejected reason)
  | ClusterConflict _ reason => mret (Some (AttachPending (key record) reason))
  | SubmitUnknown unknown => mret (Some (AttachPending (key record) (unknown_reason unknown)))
  end.

(** [_take_over_own] *)
Definition take_over_own (entry : LedgerEntry) : method (option AttachOutcome) :=
  let record := entry_record entry in
  do! cancelled := ask (Cancel (operation_id record) None) in
  match cancelled with
  | CancelUnknown unknown =>
      mret (Some (AttachPending (key record) ("the lapsed claim's job may run: " +:+ unknown_reason unknown)))
  | ClusterCancelRequested _ _ =>
      do! won := with_ledger (fun project =>
                   let! after := pure (transitioned record LedgerState.FAILED None
                                         (Some "its submission's outcome stayed unknown"%string)) in
                   replace project entry after) in
      do! _ := if won : bool
               then assign (fun self => self <| att_claimed_here := delete (operation_id record) (att_claimed_here self) |>)
               else mret tt in
      mret None
  end.

(** [_resolve] *)
Definition resolve (entry : LedgerEntry) (request : SlurmBatchRequest) (expired : bool)
  : method (option AttachOutcome) :=
  let record := entry_record entry in
  do! observed := ask (Inspect (operation_id record)) in
  do! self := self_ in
  match match observed with
        | Observed observation => match observed_handle observation with
                                  | Some (BatchHandle handle) => Some handle
                                  | _ => None
                                  end
        | InspectUnknown _ => None
        end with
  | Some handle => record_job entry request handle
  | None =>
      if negb expired && not_none (att_claimed_here self !! operation_id record) then submit request entry
      else if negb expired then
        mret (Some (AttachPending (key record) "another process is submitting the request's job"))
      else if eqb (owner record) (att_holder self) then take_over_own entry
      else
        do! taken := with_ledger (fun project =>
          let! after := pure (transitioned record LedgerState.FAILED None
                                (Some "its submitter's claim expired before it recorded a job"%string)) in
          take_over_jobless project entry observed after) in
        match taken with
        | JobMayRun reason =>
            mret (Some (AttachPending (key record) ("the lapsed claim's job may run: " +:+ reason)))
        | EndedJobless _ | NotTaken => mret None
        end
  end.

(** [_claim] *)
Definition claim_attempt (request : SlurmBatchRequest) (key' : string) (attempt' : Z) (labels' : LedgerLabels)
  : method (option AttachOutcome) :=
  do! self := self_ in
  do! now := ask Now in
  do! operation := lift (pure (ledger_operation_id key' attempt')) in
  let claimed := {| key := key'; project := att_project self; attempt := attempt'; operation_id := operation;
                    owner := att_holder self; created_at := now;
                    claim_expires_at := fadd now (claim_seconds (att_policy self)); labels := labels';
                    state := LedgerState.SUBMITTING; job := None; reason := None |} in
  if negb (record_valid claimed) then raise (Invalid "LedgerRecord")
  else
    do! stored := with_ledger (fun project => claim project claimed) in
    if negb (eqb stored claimed) then mret None
    else
      do! _ := assign (fun self => self <| att_claimed_here := <[operation_id claimed := now]> (att_claimed_here self) |>) in
      do! _ := att_renew key' in
      submit request (entry_of_claim claimed).

(** One round of [attach] *)
Definition attach_round (request : SlurmBatchRequest) (labels' : LedgerLabels) (key' : string)
  : method (option AttachOutcome) :=
  do! entry := with_ledger (fun project => read project key') in
  do! now := ask Now in
  match submit_step entry now with
  | AttachJob record => do! outcome := attached record request in mret (Some outcome)
  | CheckJob current => check current request
  | ResolveSubmission current expired =>
      do! lapsed := claim_lapsed (entry_record current) expired in resolve current request lapsed
  | AwaitWithdrawal current expired => await_withdrawal current expired
  | ClaimAttempt attempt => claim_attempt request key' attempt labels'
  end.

Fixpoint attach_rounds (rounds : nat) (request : SlurmBatchRequest) (labels' : LedgerLabels) (key' : string)
  : method AttachOutcome :=
  match rounds with
  | O => mret (AttachPending key' "the request's attempts kept changing")
  | S rounds =>
      do! outcome := attach_round request labels' key' in
      match outcome with
      | Some outcome => mret outcome
      | None => attach_rounds rounds request labels' key'
      end
  end.

(** [attach], of a request whose key was computed *)
Definition attach (request : SlurmBatchRequest) (labels' : LedgerLabels) (key' : string) : method AttachOutcome :=
  do! _ := att_renew key' in attach_rounds ATTACH_ROUNDS request labels' key'.

(** ** Using, settling, sweeping *)

Definition stop_using (user : string) (self : Attachment) : Attachment :=
  match att_used self !! user with
  | None => self
  | Some key =>
      let users := default ∅ (att_users self !! key) ∖ {[user]} in
      self <| att_used := delete user (att_used self) |>
           <| att_users := if bool_decide (users = ∅) then delete key (att_users self)
                           else <[key := users]> (att_users self) |>
  end.

Definition use (key user : string) (self : Attachment) : Attachment :=
  let self := match att_used self !! user with
              | Some before => if eqb before key then self else stop_using user self
              | None => self
              end in
  self <| att_used := <[user := key]> (att_used self) |>
       <| att_users := <[key := {[user]} ∪ default ∅ (att_users self !! key)]> (att_users self) |>.

Definition request_of (user : string) (self : Attachment) : option string := att_used self !! user.

Definition last_user (user : string) (key : option string) (self : Attachment) : option string :=
  match match att_used self !! user with Some key => Some key | None => key end with
  | None => None
  | Some key => if bool_decide (default ∅ (att_users self !! key) ∖ {[user]} = ∅) then Some key else None
  end.

(** [SlurmLedgerAttachment.relinquish] *)
Definition att_relinquish (key : string) : method WithdrawOutcome :=
  do! _ := assign (fun self => self <| att_renewed := delete key (att_renewed self) |>) in
  do! self := self_ in
  do! now := ask Now in
  with_ledger (fun project =>
    relinquish project key (att_withdrawer self) (fsub now (grace_seconds (att_policy self)))).

(** [sweep_if_due] *)
Definition sweep_if_due : method (list WithdrawOutcome) :=
  do! self := self_ in
  if att_sweeping self then mret []
  else fun self =>
    let% swept :=
      (do! _ := assign (fun self => self <| att_sweeping := true |>) in
       do! self := self_ in
       do! now := ask Now in
       if match att_swept_at self with
          | Some swept_at => flt (fsub now swept_at) (lease_seconds (att_policy self))
          | None => false
          end
       then mret []
       else
         do! _ := assign (fun self => self <| att_swept_at := Some now |>) in
         do! found := with_ledger (fun project =>
           sweep_unleased project (att_sweeper self) (grace_seconds (att_policy self)) (att_orphans self)) in
         do! _ := assign (fun self => self <| att_orphans := fst found |>) in
         mret (snd found)) self in
    let '(self, outcomes) := swept in
    Ret (self <| att_sweeping := false |>, outcomes).

(** [heartbeat] *)
Definition heartbeat (key' operation_id' : string) : method unit :=
  do! self := self_ in
  do! now := ask Now in
  do! _ :=
    (if match att_renewed self !! key' with
        | None => true
        | Some last => fle (fdiv (lease_seconds (att_policy self)) (of_int 3)) (fsub now last)
        end
     then
       do! entry := with_ledger (fun project => read project key') in
       match entry with
       | None => raise (LedgerWithdrawn key' "the request left the ledger")
       | Some entry =>
           let record := entry_record entry in
           if negb (eqb (operation_id record) operation_id')
           then raise (LedgerWithdrawn key' "a newer attempt replaced it")
           else if eqb (state record) LedgerState.WITHDRAWN
           then raise (LedgerWithdrawn key' (stated (reason record)))
           else att_renew key'
       end
     else mret tt) in
  do! _ := sweep_if_due in mret tt.

Fixpoint settle_rounds (rounds : nat) (key' operation_id' : string) (status : SlurmJobStatus)
    (collected : option ClusterCollectOutcome) : method unit :=
  match rounds with
  | O => mret tt
  | S rounds =>
      do! entry := with_ledger (fun project => read project key') in
      match entry with
      | None => mret tt
      | Some entry =>
          let record := entry_record entry in
          if negb (eqb (operation_id record) operation_id') then mret tt
          else if negb (eqb (state record) LedgerState.SUBMITTED) then mret tt
          else
            do! settled := with_ledger (fun project => settle project entry status collected) in
            if settled : bool then mret tt
            else match job record with
                 | Some job =>
                     if not_none (settlement status collected job)
                     then settle_rounds rounds key' operation_id' status collected else mret tt
                 | None => mret tt
                 end
      end
  end.

(** [SlurmLedgerAttachment.settle] *)
Definition att_settle (key' operation_id' : string) (status : SlurmJobStatus)
    (collected : option ClusterCollectOutcome) : method unit :=
  settle_rounds ATTACH_ROUNDS key' operation_id' status collected.
End Attaching.
