(* ===== verification/SlurmSim.v ===== *)
(** * A ledger whose storage never fails

    Processes that take turns over one storage ([exec]), and a run that attaches to a request by claiming
    it: what the theorems about every world are tried on. *)

From S2P Require Import Prelude PyFloat SlurmStates SlurmOutcomes SlurmLedger SlurmProg SlurmStore SlurmActions SlurmAttach.

Section Sim.
Context `{codec : LedgerCodec} (outside : forall c : call, answer c).

(** The storage answers; the rest is answered by [outside] *)
Definition reply (s : Store) (c : call) : answer c :=
  match c return answer c with
  | ReadRecords where_ => Ok (held where_ (store_records s) ∅)
  | ReadWithdrawals where_ => Ok (held where_ (store_withdrawals s) ∅)
  | ReadLeases where_ => Ok (held where_ (store_leases s) ∅)
  | CreateRecord where_ at_ _ => Ok (is_none (held where_ (store_records s) ∅ !! at_))
  | CreateWithdrawal where_ at_ _ _ => Ok (is_none (held where_ (store_withdrawals s) ∅ !! at_))
  | PutLease _ _ _ _ | DropLease _ _ => Ok tt
  | ListKeys project => Ok (keys_of project s)
  | c => outside c
  end.

Lemma reply_served s c : served s c (reply s c).
Proof. by destruct c. Qed.

(** A program run to its end *)
Fixpoint exec {A : Type} (p : prog A) (s : Store) : list event * A :=
  match p with
  | Ret a => ([], a)
  | Call c k => let '(t, a) := exec (k (reply s c)) (effect s c) in (Event c (reply s c) :: t, a)
  end.

Lemma exec_run {A} (p : prog A) s : run p (exec p s).1 (Ret (exec p s).2).
Proof.
  revert s. induction p as [a|c k IH]; intros s; cbn; [done|]. right.
  specialize (IH (reply s c) (effect s c)). destruct (exec _ _) as [t a]. eauto.
Qed.

(** The storage after some events *)
Definition store_after (s : Store) (t : list event) : Store := fold_left (fun s e => effect s (event_call e)) t s.

(** [at_ i] of a history that begins with an empty storage *)
Definition store_at (g : list (nat * event)) (i : nat) : Store := store_after empty_store (map snd (take i g)).

(** Turns, one after the other *)
Definition turn {A : Type} (pid : nat) (p : prog A) (g : list (nat * event)) : list (nat * event) :=
  g ++ map (pair pid) (exec p (store_at g (length g))).1.

Definition answered (s : Store) (e : event) : Prop := match e with Event c r => served s c r end.

Lemma exec_answered {A} (p : prog A) s i e :
  (exec p s).1 !! i = Some e -> answered (store_after s (take i (exec p s).1)) e.
Proof.
  revert s i. induction p as [a|c k IH]; intros s i; cbn; [done|].
  specialize (IH (reply s c) (effect s c)). destruct (exec _ _) as [t a]. destruct i as [|i]; cbn.
  - intros [= <-]. apply reply_served.
  - apply IH.
Qed.

Lemma store_after_app s t1 t2 : store_after s (t1 ++ t2) = store_after (store_after s t1) t2.
Proof. apply fold_left_app. Qed.

Lemma turn_history {A} pid (p : prog A) g :
  history g (store_at g) -> history (turn pid p g) (store_at (turn pid p g)).
Proof.
  intros Hg i pid' e He.
  assert (Hnext : store_at (turn pid p g) (S i) = effect (store_at (turn pid p g) i) (event_call e)).
  { unfold store_at. by rewrite (take_S_r _ _ _ He), map_app, store_after_app. }
  unfold turn in *. destruct (decide (i < length g)%nat) as [Hlt|Hge].
  - rewrite lookup_app_l in He by done. specialize (Hg _ _ _ He). revert Hg. unfold store_at.
    by rewrite !take_app_le by lia.
  - rewrite lookup_app_r in He by lia. apply list_lookup_fmap_Some in He as (e' & [= -> ->] & He).
    assert (Hat : forall t, store_at (g ++ map (pair pid) t) i = store_after (store_at g (length g)) (take (i - length g) t)).
    { intros t. unfold store_at. rewrite take_app_ge, map_app, store_after_app, (take_ge g) by lia. f_equal.
      change (snd <$> take (i - length g) (pair pid <$> t) = take (i - length g) t).
      rewrite <- fmap_take, <- list_fmap_compose. apply list_fmap_id. }
    apply exec_answered in He. rewrite <- Hat in He. rewrite Hnext. destruct e' as [c r]. by left.
Qed.

Lemma events_turn {A} pid pid' (p : prog A) g :
  events_of pid (turn pid' p g) =
  events_of pid g ++ (if (pid' =? pid)%nat then (exec p (store_at g (length g))).1 else []).
Proof.
  unfold events_of, turn. rewrite omap_app. f_equal. induction (exec _ _).1 as [|e t IH]; cbn; [by destruct (_ =? _)%nat|].
  destruct (_ =? _)%nat; [by rewrite IH|done].
Qed.

(** The storage after the first turn *)
Lemma first_turn_store {A} pid (p : prog A) :
  store_at (turn pid p []) (length (turn pid p [])) = store_after empty_store (exec p empty_store).1.
Proof.
  unfold store_at. rewrite take_ge by done. unfold turn. cbn [app length]. f_equal.
  change (snd <$> (pair pid <$> (exec p (store_at [] 0)).1) = (exec p empty_store).1).
  rewrite <- list_fmap_compose. apply list_fmap_id.
Qed.
End Sim.

(** ** Documents stored as they are *)

Inductive Plain : Type :=
  | PlainRecord (record : LedgerRecord)
  | PlainLease (lease : LedgerLease)
  | PlainWithdrawal (document : WithdrawalDocument).

#[export] Instance plain_codec : LedgerCodec := {|
  stored := Plain; json := Plain; decode_json := Some; format_version := fun _ => Some LEDGER_FORMAT_VERSION;
  version_repr := fun _ => "1"%string;
  record_fields := fun document => match document with PlainRecord record => Some record | _ => None end;
  lease_fields := fun document => match document with PlainLease lease => Some lease | _ => None end;
  withdrawal_fields := fun document => match document with PlainWithdrawal document => Some document | _ => None end;
  dump_record := PlainRecord; dump_lease := PlainLease; dump_withdrawal := PlainWithdrawal
|}.

#[export] Instance plain_codec_laws : LedgerCodecLaws plain_codec.
Proof. split; intros x; by eexists. Qed.

(** ** A run that claims a request, and its cluster *)

Definition sample_key : string := "0123456789abcdef0123456789abcdef0123456789abcdef0123456789abcdef".

Definition sample_batch : SlurmBatchHandle :=
  {| batch_job := {| handle_job_id := "17"; handle_invocation_id := "ev"; handle_config_identity := "cluster";
                     handle_remote_workspace := "/w"; handle_remote_status_path := "/w/s"; handle_remote_log_path := "/w/l";
                     handle_artifacts := []; handle_staging_seconds := fzero; handle_content_cache_hits := 0 |};
     batch_stages := [{| stage_handle_name := "measure"; stage_file_artifacts := []; stage_tree_artifacts := [] |}];
     batch_stop_on_failure := true; batch_submission_seconds := fzero; batch_waited_seconds := fzero |}.

Definition sample_request : SlurmBatchRequest := {| request_stages := batch_stages sample_batch |}.

Definition sample_labels : LedgerLabels := {| label_candidate := None; label_workstream := None |}.

Definition sample_policy : LedgerPolicy :=
  {| lease_seconds := of_int 60; grace_seconds := of_int 600; claim_seconds := of_int 300;
     run_while_detached := false; keep_jobs_on_stop := false |}.

Definition sample_timing : WithdrawalTiming := {| call_seconds := of_int 30 |}.

Definition sample_withdrawer (by_ : string) : Withdrawer :=
  {| withdrawer_by := by_; withdrawer_reason := "unwanted"; withdrawer_timing := sample_timing;
     withdrawer_writer := by_ |}.

Definition sample_attachment (run : string) : Attachment :=
  {| att_project := "project"; att_holder := run; att_policy := sample_policy; att_renewed := ∅; att_swept_at := None;
     att_sweeping := false; att_users := ∅; att_used := ∅; att_claimed_here := ∅;
     att_orphans := {| orphan_window_seconds := of_int 300; orphan_first_seen := ∅; orphan_done := ∅ |};
     att_withdrawer := sample_withdrawer run; att_sweeper := sample_withdrawer (run +:+ "-sweep") |}.

Definition sample_observation (op : string) : ClusterObservation :=
  {| observed_operation_id := Some op; observed_job_id := "17"; observed_life := Running 0; observed_pending_reason := None;
     observed_estimated_start := None; observed_handle := Some (BatchHandle sample_batch); observed_completed_stages := None |}.

(** A cluster that runs every job, and clocks that read 1000 *)
Definition sample_outside (c : call) : answer c :=
  match c return answer c with
  | ReadRecords _ => Ok ∅ | ReadWithdrawals _ => Ok ∅ | ReadLeases _ => Ok ∅
  | CreateRecord _ _ _ => Ok false | CreateWithdrawal _ _ _ _ => Ok false
  | PutLease _ _ _ _ => Ok tt | DropLease _ _ => Ok tt
  | ListKeys _ => Ok []
  | FirstRead _ now => now
  | Inspect op => Observed (sample_observation op)
  | Cancel op _ => ClusterCancelRequested (Some op) (Some "17"%string)
  | Submit _ op => ClusterSubmitted op (BatchHandle sample_batch)
  | Now => of_int 1000
  end.

Abbreviation sample_turn := (turn sample_outside).

(** The run claims the request and attaches to the job it submits *)
Definition sample_attach : prog (Attachment * result Raised AttachOutcome) :=
  attach sample_request sample_labels sample_key (sample_attachment "run-one").

(** The operation of the first attempt *)
Definition sample_operation : string := "ev-0123456789abcdef0123456789abcdef0123456789abcdef-0".
