(* ===== verification/SlurmLawful.v ===== *)
(** * What the processes of a ledger write

    Each write of each operation of a ledger's clients is one its process had a reason for: it follows
    what the process has read, by the state machine of the attempt. *)

From S2P Require Import Prelude PyFloat SlurmStates SlurmOutcomes SlurmLedger SlurmProg SlurmStore SlurmEntry SlurmActions SlurmAttach.

(** Whose process it is: the holder of its leases, and the marks that are its own *)
Record Client := { is_holder : string -> bool; is_mine : WithdrawalMark -> bool }.

(** What a legal change keeps *)
Lemma check_transition_Ok before after :
  check_transition before after = Ok tt ->
  key before = key after /\ project before = project after /\ attempt before = attempt after /\
  operation_id before = operation_id after /\ owner before = owner after /\
  state after ∈ NEXT_STATES (state before) /\ (job before = None \/ job after = job before).
Proof.
  unfold check_transition. intros ([] & E1%ensure_Ok & ([] & E2%ensure_Ok & ([] & E3%ensure_Ok & _)%rbind_Ok)%rbind_Ok)%rbind_Ok.
  apply andb_true_iff in E2 as [_ E2%among_true]. rewrite !andb_true_iff, !eqb_true, Z.eqb_eq in E1.
  destruct_and? E1. split_and!; [done..|]. destruct (job before) as [j|]; [|by left]. right. cbn in E3.
  rewrite negb_involutive in E3. by apply eqb_eq in E3.
Qed.

Section Lawful.
Context `{codec : LedgerCodec} (self_project : string) (who : Client).
Implicit Types (h t : list event).

(** [e] was read *)
Definition read_in h (where_ : slot) (e : LedgerEntry) : Prop :=
  exists records withdrawals leases,
    Event (ReadRecords where_) (Ok records) ∈ h /\ Event (ReadWithdrawals where_) (Ok withdrawals) ∈ h /\
    slot_of self_project (key (entry_record e)) = Ok where_ /\
    shows (key (entry_record e)) records withdrawals leases e.

(** [record] is the revision [r] of its attempt: it was created by this process, or read *)
Definition known h (where_ : slot) (record : LedgerRecord) (r : Z) : Prop :=
  slot_of self_project (key record) = Ok where_ /\
  (r = 0 /\ Event (CreateRecord where_ (attempt record, 0) (dump_record record)) (Ok true) ∈ h \/
   exists e, read_in h where_ e /\ entry_record e = record /\
     (r = entry_revision e \/ r = 0 /\ state record = LedgerState.SUBMITTING)).

(** The record this process may write as the revision [r] of the attempt [a] *)
Definition record_reason h (where_ : slot) (a r : Z) (text : stored) : Prop :=
  exists record, text = dump_record record /\ attempt record = a /\ slot_of self_project (key record) = Ok where_ /\
    record_valid record = true /\
    (r = 0 /\ state record = LedgerState.SUBMITTING /\ is_holder who (owner record) = true \/
     exists before, known h where_ before (r - 1) /\ check_transition before record = Ok tt).

(** The withdrawal revision it may write: a mark of its own where none stands, or that a mark is undone
    which is its own, or has expired on its clock *)
Definition withdrawal_reason h (where_ : slot) (a r : Z) (text : stored) : Prop :=
  exists e document, read_in h where_ e /\ a = attempt (entry_record e) /\ r = entry_withdrawal_revision e + 1 /\
    text = dump_withdrawal document /\ withdrawal_valid document = true /\ check_withdrawal e document = Ok tt /\
    match document with
    | Mark mark => is_mine who mark = true
    | WithdrawalUndone _ =>
        exists mark, entry_withdrawal e = Some mark /\
          (is_mine who mark = true \/ exists now, Event Now now ∈ h /\ withdrawal_expired mark now = true)
    end.

Definition lawful h (c : call) : Prop :=
  match c with
  | CreateRecord where_ (a, r) text => record_reason h where_ a r text
  | CreateWithdrawal where_ (a, r) text _ => withdrawal_reason h where_ a r text
  | PutLease _ holder' text _ =>
      is_holder who holder' = true /\ valid_operation_id holder' = true /\
      exists lease, text = dump_lease lease /\ holder lease = holder'
  | DropLease _ holder' => is_holder who holder' = true
  | Submit _ op =>
      exists where_ record, known h where_ record 0 /\ is_holder who (owner record) = true /\
        operation_id record = op /\ state record = LedgerState.SUBMITTING /\
        exists answer_, Event (CreateRecord where_ (attempt record, 0) (dump_record record)) answer_ ∈ h
  | _ => True
  end.

Lemma read_in_mono h t where_ e : read_in h where_ e -> read_in (h ++ t) where_ e.
Proof. intros (rs & ws & ls & ? & ? & ? & ?). exists rs, ws, ls. split_and!; (done || apply elem_of_app; by left). Qed.

Lemma known_mono h t where_ record r : known h where_ record r -> known (h ++ t) where_ record r.
Proof.
  intros [Hs [[-> ?]|(e & ? & ? & ?)]]; (split; [done|]); [left|right; exists e; split; [by apply read_in_mono|done]].
  split; [done|]. apply elem_of_app. by left.
Qed.

(** What a process does of which nothing is asked *)
Definition harmless {A} (p : prog A) : Prop := forall h, always lawful (fun _ _ => True) h p.

(** ** The ledger's operations *)

Lemma read_harmless key' : harmless (read self_project key').
Proof. intros h. apply read_calls. by intros h' []. Qed.

Lemma read_lawful key' h :
  always lawful (fun h' r => match r with
                             | Ok (Some e) => key (entry_record e) = key' /\ exists where_, read_in h' where_ e
                             | _ => True
                             end) h (read self_project key').
Proof.
  eapply always_post; [apply always_with_run, read_harmless|].
  intros t [[e|]|error] (t' & E & Hrun); [|done..]. apply app_inv_head in E as <-.
  apply read_run in Hrun as (where_ & rs & ws & ls & t' & Hs & -> & He).
  pose proof (shows_key _ _ _ _ _ He) as Hk. split; [done|]. exists where_, rs, ws, ls. rewrite Hk.
  split_and!; [| |done|done]; apply elem_of_app; right; apply elem_of_app; left; set_solver.
Qed.

Lemma create_lawful record r h :
  (forall where_, slot_of self_project (key record) = Ok where_ -> record_reason h where_ (attempt record) r (dump_record record)) ->
  always lawful (fun h' won => forall b, won = Ok b -> exists where_, slot_of self_project (key record) = Ok where_ /\
      Event (CreateRecord where_ (attempt record, r) (dump_record record)) (Ok b) ∈ h') h
    (create self_project record r).
Proof.
  intros Hr. unfold create, pure. apply always_ebind. cbn [always]. destruct (slot_of _ _) as [where_|]; [|by intros].
  cbn [tell always lawful]. split; [by apply Hr|]. intros won b ->. exists where_. split; [done|]. apply elem_of_app. right. by left.
Qed.

Lemma replace_lawful e record h where_ :
  known h where_ (entry_record e) (entry_revision e) -> record_valid record = true ->
  always lawful (fun h' won => won = Ok true ->
      check_transition (entry_record e) record = Ok tt /\
      Event (CreateRecord where_ (attempt record, entry_revision e + 1) (dump_record record)) (Ok true) ∈ h') h
    (replace self_project e record).
Proof.
  intros Hk Hv. unfold replace, pure. apply always_ebind. cbn [always].
  destruct (check_transition (entry_record e) record) as [[]|] eqn:Hc; [|by intros].
  assert (Hkey : key (entry_record e) = key record).
  { by apply check_transition_Ok in Hc as (? & _). }
  eapply always_post; [apply create_lawful|].
  - intros where_' Hs'. exists record. split_and!; [done..|]. right. exists (entry_record e).
    assert (where_' = where_) as -> by (destruct Hk as [Hs _]; rewrite Hkey, Hs' in Hs; by injection Hs).
    rewrite Z.add_simpl_r. done.
  - intros t won Hw ->. destruct (Hw true eq_refl) as (where_' & Hs' & Hin). split; [done|].
    assert (where_' = where_) as -> by (destruct Hk as [Hs _]; rewrite Hkey, Hs' in Hs; by injection Hs). done.
Qed.

Lemma read_in_valid h where_ e : read_in h where_ e -> record_valid (entry_record e) = true.
Proof.
  intros (rs & ws & ls & _ & _ & _ & Hs). destruct (shows_record _ _ _ _ _ Hs) as (text & _ & Hd).
  unfold decode_record, decode in Hd. rinvert Hd. by simplify_eq.
Qed.

Lemma read_in_known h where_ e : read_in h where_ e -> known h where_ (entry_record e) (entry_revision e).
Proof. intros He. split; [by destruct He as (? & ? & ? & _ & _ & ? & _)|]. right. exists e. auto. Qed.

Lemma write_withdrawal_lawful e document h where_ :
  read_in h where_ e -> withdrawal_valid document = true ->
  match document with
  | Mark mark => is_mine who mark = true
  | WithdrawalUndone _ =>
      forall mark, entry_withdrawal e = Some mark ->
        is_mine who mark = true \/ exists now, Event Now now ∈ h /\ withdrawal_expired mark now = true
  end ->
  always lawful (fun _ _ => True) h (write_withdrawal self_project e document).
Proof.
  intros He Hv Hd. unfold write_withdrawal, pure. apply always_ebind. cbn [always].
  destruct (check_withdrawal e document) as [[]|] eqn:Hc; [|done]. apply always_ebind. cbn [always].
  pose proof He as (rs & ws & ls & _ & _ & Hs & _). rewrite Hs. cbn [tell always lawful]. split; [|done].
  exists e, document. split_and!; [done| |done|done|done|done|].
  - unfold check_withdrawal in Hc. apply rbind_Ok in Hc as ([] & E%ensure_Ok & _). by apply Z.eqb_eq in E.
  - destruct document as [mark|a]; [done|]. unfold check_withdrawal in Hc. apply rbind_Ok in Hc as ([] & _ & E%ensure_Ok).
    destruct (entry_withdrawal e) as [mark|]; [|done]. exists mark. split; [done|]. by apply Hd.
Qed.

Lemma renew_lawful key' lease h :
  is_holder who (holder lease) = true -> always lawful (fun _ _ => True) h (renew self_project key' lease).
Proof.
  intros Hh. unfold renew, pure, validate_holder, ensure. apply always_ebind. cbn [always]. destruct (slot_of _ _); [|done].
  apply always_ebind. cbn [always]. destruct (valid_operation_id (holder lease)) eqn:Hv; cbn; [|done]. eauto 10.
Qed.

Lemma release_lawful key' holder' h :
  is_holder who holder' = true -> always lawful (fun _ _ => True) h (release self_project key' holder').
Proof.
  intros Hh. unfold release, pure, validate_holder, ensure. apply always_ebind. cbn [always]. destruct (slot_of _ _); [|done].
  apply always_ebind. cbn [always]. by destruct (valid_operation_id holder').
Qed.

Lemma except_harmless {A} (p : proc A) handler h :
  always lawful (fun h' r => forall e, r = Err (Ledger e) -> always lawful (fun _ _ => True) h' (handler e)) h p ->
  always lawful (fun _ _ => True) h (except_ledger p handler).
Proof.
  intros Hp. apply always_bind. eapply always_post; [exact Hp|]. intros t [a|[]] Hr; cbn; try done. by apply Hr.
Qed.
End Lawful.

(** ** The operations that withdraw *)

(** Go on after a part of a program of which [spec] says what it leaves *)
Ltac after spec := (first [apply always_ebind | apply always_bind]); (eapply always_post; [eapply spec|cbn beta iota]).
(** Go on after a call *)
Ltac told := cbn [ebind pbind tell always lawful]; (split; [done|]).
(** Go on after a check that may raise *)
Ltac checked x E := unfold pure; apply always_ebind; cbn [always]; match goal with
  | |- always _ _ _ _ => idtac
  | |- context [match ?c with Ok _ => _ | Err _ => _ end] => destruct c as [x|] eqn:E; [|done]
  end.

Lemma transitioned_valid record s j reason' after : transitioned record s j reason' = Ok after ->
  record_valid after = true /\ state after = s.
Proof.
  unfold transitioned. intros ([] & E%ensure_Ok & ([] & _ & E2)%rbind_Ok)%rbind_Ok. injection E2 as <-. done.
Qed.

Section Actions.
Context `{codec : LedgerCodec} (self_project : string) (who : Client) (withdrawer : Withdrawer).
Context (own : forall mark, wrote withdrawer (Some mark) = true -> is_mine who mark = true).
Implicit Types (h t : list event).
Abbreviation lawful_run := (always (lawful self_project who)).
Abbreviation harmless_ := (harmless self_project who).
Abbreviation reads := (read_in self_project).

Lemma undo_lawful e h where_ :
  reads h where_ e ->
  (forall mark, entry_withdrawal e = Some mark ->
     is_mine who mark = true \/ exists now, Event Now now ∈ h /\ withdrawal_expired mark now = true) ->
  lawful_run (fun _ _ => True) h (undo self_project e).
Proof.
  intros He Hm. eapply write_withdrawal_lawful; [done| |done].
  pose proof (read_in_valid _ _ _ _ He) as Hv. unfold record_valid in Hv. unfold withdrawal_valid. cbn.
  apply andb_true_iff in Hv as [Hv _]. apply andb_true_iff in Hv as [Hv _]. by rewrite Hv.
Qed.

Lemma own_mark e : wrote withdrawer (entry_withdrawal e) = true ->
  forall mark, entry_withdrawal e = Some mark -> is_mine who mark = true.
Proof. intros Hw mark E. rewrite E in Hw. by apply own. Qed.

Lemma undo_quietly_harmless key' : harmless_ (undo_quietly self_project key' withdrawer).
Proof.
  intros h. apply except_harmless. after read_lawful. intros t [[e|]|error]; [|by intros..]. intros [_ [where_ He]].
  destruct (wrote withdrawer (entry_withdrawal e)) eqn:Hw; [|by cbn].
  after undo_lawful; [done|intros; left; by eapply own_mark|]. intros t' [b|error] _; by cbn.
Qed.

Lemma take_over_lawful e observed ended h where_ :
  known self_project h where_ (entry_record e) (entry_revision e) -> record_valid ended = true ->
  lawful_run (fun _ _ => True) h (take_over_jobless self_project e observed ended).
Proof.
  intros Hk Hv. unfold take_over_jobless. destruct observed as [o|u]; [done|]. destruct (negb _); [done|].
  after replace_lawful; [done..|]. intros t [[]|error] _; cbn; done.
Qed.

Lemma withdraw_unseen_lawful e mark u h where_ :
  reads h where_ e -> wrote withdrawer (entry_withdrawal e) = true ->
  lawful_run (fun _ _ => True) h (withdraw_unseen self_project e mark u).
Proof.
  intros He Hw. unfold withdraw_unseen. checked withdrawn Et. apply transitioned_valid in Et as [Hv _].
  after take_over_lawful; [by apply read_in_known|done|]. intros t [[[]|reason|]|error] _; cbn -[undo]; try done.
  after undo_lawful; [by apply read_in_mono|intros; left; by eapply own_mark|]. by intros t' [b|error].
Qed.

Lemma leave_job_lawful e reason' h where_ :
  reads h where_ e -> wrote withdrawer (entry_withdrawal e) = true ->
  lawful_run (fun _ _ => True) h (leave_job self_project e reason').
Proof.
  intros He Hw. unfold leave_job. after undo_lawful; [done|intros; left; by eapply own_mark|].
  intros t [b|error] _; by cbn.
Qed.

Lemma cancel_live_lawful e mark timing observed h where_ :
  reads h where_ e -> wrote withdrawer (entry_withdrawal e) = true ->
  lawful_run (fun _ _ => True) h (cancel_live self_project e mark timing observed).
Proof.
  intros He Hw. unfold cancel_live, holds. destruct (live_observation observed) as [live|]; [|done]. told. intros now.
  destruct (negb _); [eapply leave_job_lawful; [by apply read_in_mono|done]|].
  told. intros [? ?|u]; [done|]. eapply leave_job_lawful; [|done]. by do 2 apply read_in_mono.
Qed.

Lemma cancel_while_marked_lawful e mark timing h where_ :
  reads h where_ e -> wrote withdrawer (entry_withdrawal e) = true ->
  lawful_run (fun _ _ => True) h (cancel_while_marked self_project e mark timing).
Proof.
  intros He Hw. unfold cancel_while_marked, holds. told. intros now.
  destruct (negb _); [eapply leave_job_lawful; [by apply read_in_mono|done]|].
  destruct (state_settled _); [eapply cancel_live_lawful; [by apply read_in_mono|done]|]. told.
  intros [o|u]; cbn [cancel_inspected]; [eapply cancel_live_lawful; [by do 2 apply read_in_mono|done]|].
  destruct (eqb _ _); [|eapply leave_job_lawful; [by do 2 apply read_in_mono|done]].
  after withdraw_unseen_lawful; [by do 2 apply read_in_mono|done|]. by intros t' [a|error].
Qed.

Lemma withdraw_marked_lawful e still h where_ :
  reads h where_ e -> wrote withdrawer (entry_withdrawal e) = true ->
  (forall still', still = Some still' -> forall e', harmless_ (still' e')) ->
  lawful_run (fun _ _ => True) h (withdraw_marked self_project e withdrawer still).
Proof.
  intros He Hw Hs. unfold withdraw_marked. destruct (entry_withdrawal e) as [mark|] eqn:Em; [|done].
  assert (Hquiet : forall h' error, lawful_run (fun _ _ => True) h' (let! _ := undo_quietly self_project (key (entry_record e)) withdrawer in
      Ret (Ok (Some (WithdrawUnknown (key (entry_record e)) (error_text error)))))).
  { intros. after undo_quietly_harmless. by intros t [a|error']. }
  rewrite <- Em in Hw. apply except_harmless. eapply (always_post _ (fun _ _ => True)); [|intros t r _ error _; apply Hquiet].
  apply always_bind. eapply (always_post _ (fun _ _ => True)).
  { destruct still as [still|]; [by eapply Hs|done]. }
  intros t b _. cbn beta. destruct (negb b).
  - after undo_lawful; [by apply read_in_mono|intros; left; by eapply own_mark|]. by intros t' [a|error].
  - after cancel_while_marked_lawful; [by apply read_in_mono|done|]. intros t' [[j|o]|error] _; [|done..].
    checked withdrawn Et. apply transitioned_valid in Et as [Hv _].
    after replace_lawful; [apply read_in_known; by do 2 apply read_in_mono|done|]. by intros t'' [won|error].
Qed.

Lemma write_mark_lawful e still h where_ :
  reads h where_ e -> (forall still', still = Some still' -> forall e', harmless_ (still' e')) ->
  lawful_run (fun _ _ => True) h (write_mark self_project e withdrawer still).
Proof.
  intros He Hs. unfold write_mark. destruct (entry_withdrawal e) as [mark|] eqn:Em.
  - told. intros now. destruct (negb _); [done|]. told. intros now'. apply except_harmless.
    unfold undo_expired_withdrawal. rewrite Em. destruct (withdrawal_expired mark now') eqn:Ex; [|by intros * ?].
    after undo_lawful; [by do 2 apply read_in_mono| |].
    + intros m E. rewrite Em in E. injection E as <-. right. exists now'. split; [|done]. apply elem_of_app. right. by left.
    + intros t [a|error] _; cbn; by intros.
  - apply always_bind. eapply (always_post _ (fun _ _ => True)).
    { destruct still as [still|]; [by eapply Hs|done]. }
    intros t b _. cbn beta. destruct (negb b); [done|]. apply always_ebind. unfold stamped. told. intros now. cbn [always].
    destruct (withdrawal_valid _) eqn:Hv; [|done]. apply except_harmless.
    after write_withdrawal_lawful; [by do 2 apply read_in_mono|done| |intros t' [a|error] _; cbn; by intros].
    apply own. unfold mark_at. cbn. by rewrite !eqb_refl.
Qed.

Lemma withdraw_lawful key' still :
  (forall still', still = Some still' -> forall e, harmless_ (still' e)) ->
  harmless_ (withdraw self_project key' withdrawer still).
Proof.
  intros Hs. unfold withdraw. generalize ROUNDS at 1 as left_. intros left_. induction left_ as [|left_ IH]; intros h.
  - after undo_quietly_harmless. by intros t [a|error].
  - cbn [withdraw_rounds]. after read_lawful. intros t [[e|]|error].
    + intros [_ [where_ He]]. destruct (state_final _); [done|]. apply always_ebind.
      eapply (always_post _ (fun _ _ => True)).
      * destruct (wrote withdrawer (entry_withdrawal e)) eqn:Hw; [by eapply withdraw_marked_lawful|by eapply write_mark_lawful].
      * intros t' [[o|]|error] _; [done| |done]. apply IH.
    + done.
    + intros _. destruct error; [|done..]. apply always_ebind. eapply (always_post _ (fun _ _ => True)).
      * destruct (negb _); [apply undo_quietly_harmless|done].
      * by intros t' [a|error'].
Qed.

Lemma settle_lawful e status collected h where_ :
  reads h where_ e -> lawful_run (fun _ _ => True) h (settle self_project e status collected).
Proof.
  intros He. unfold settle. destruct (eqb _ _), (job (entry_record e)) as [j|]; try done. destruct (settlement _ _ _) as [s|]; [|done].
  checked after' Et. apply transitioned_valid in Et as [Hv _].
  eapply always_post; [eapply replace_lawful; [by apply read_in_known|done]|done].
Qed.

Lemma sweep_one_lawful e still h where_ :
  reads h where_ e -> (forall e', harmless_ (still e')) ->
  lawful_run (fun _ _ => True) h (sweep_one self_project e withdrawer still).
Proof.
  intros He Hs. unfold sweep_one.
  assert (Hw : forall h', lawful_run (fun _ _ => True) h'
    (let! outcome := withdraw self_project (key (entry_record e)) withdrawer (Some still) in
     Ret (Ok match outcome with Kept _ _ => None | outcome => Some outcome end))).
  { intros h'. after withdraw_lawful; [by intros still' [= <-]|]. by intros t [a|error]. }
  destruct (eqb _ _); [|apply Hw]. told. intros [o|u]; [|apply Hw]. destruct (status_terminal _); [|apply Hw].
  apply except_harmless. after settle_lawful; [by apply read_in_mono|]. intros t [a|error] _; cbn; by intros.
Qed.

Lemma cancel_orphans_harmless e orphans now : harmless_ (cancel_orphans e orphans now).
Proof.
  intros h. apply (always_pfold _ (fun _ => True)); [|done]. intros h' [os outcomes] record _ _. unfold cancel_orphan.
  destruct (_ || _); [done|]. destruct (due _ _ _) as [os' []]; cbn [negb]; [|done]. told. intros [o|u]; [|done].
  destruct (status_terminal _); [done|]. by told.
Qed.

Lemma sweepable_harmless grace_seconds e : harmless_ (sweepable withdrawer grace_seconds e).
Proof. intros h. by told. Qed.

Lemma sweep_unleased_harmless grace_seconds orphans : harmless_ (sweep_unleased self_project withdrawer grace_seconds orphans).
Proof.
  intros h. unfold sweep_unleased, list_keys. told. intros now. told. intros [keys|]; [|done].
  apply (always_pfold _ (fun _ => True)); [|done]. intros h' [os outcomes] key' _ _. unfold sweep_key.
  after read_lawful. intros t [[e|]|error]; [|done|by destruct error]. intros [_ [where_ He]].
  after cancel_orphans_harmless. intros t' [[os' orphaned]|error] _; [|done].
  after sweepable_harmless. intros t'' b _. destruct (negb b); [done|].
  after sweep_one_lawful; [by do 2 apply read_in_mono|intros; apply sweepable_harmless|]. by intros t3 [a|error].
Qed.

Lemma relinquish_harmless key' since :
  is_holder who (withdrawer_by withdrawer) = true -> harmless_ (relinquish self_project key' withdrawer since).
Proof.
  intros Hh h. unfold relinquish.
  apply always_bind. apply always_ebind. eapply always_post; [by apply release_lawful|]. intros t [u|error] _; cbn beta iota.
  - eapply always_post; [apply read_lawful|]. intros t' [[e|]|error]; [|done|by destruct error].
    intros [_ [where_ He]]. destruct (negb (unwanted _ _ _)).
    + destruct (wrote withdrawer (entry_withdrawal e)) eqn:Hw; [|done]. apply except_harmless.
      after undo_lawful; [done|intros; left; by eapply own_mark|]. intros t3 [a|error] _; cbn; by intros.
    + after sweep_one_lawful; [done|done|]. by intros t3 [a|error].
  - by destruct error.
Qed.
End Actions.
