(* ===== verification/SlurmLawfulRun.v ===== *)
(** * What an attached run writes

    Each write of each method of an attachment has its reason ([SlurmLawful.lawful]), and a job is
    submitted only under an attempt the run itself claimed. *)

From S2P Require Import Prelude PyFloat SlurmStates SlurmOutcomes SlurmLedger SlurmProg SlurmStore SlurmEntry SlurmActions SlurmAttach SlurmLawful.

(** The process of an attachment: its leases are its run's, its marks those of its two withdrawers *)
Definition run_client (self : Attachment) : Client := {|
  is_holder := eqb (att_holder self);
  is_mine := fun mark => wrote (att_withdrawer self) (Some mark) || wrote (att_sweeper self) (Some mark) |}.

Section Methods.
Context `{codec : LedgerCodec} (self0 : Attachment).
Context (by_holder : withdrawer_by (att_withdrawer self0) = att_holder self0).
Implicit Types (h t : list event).
Abbreviation lawful_run := (always (lawful (att_project self0) (run_client self0))).

(** The run's claim of an attempt *)
Definition claimed_by_run h (op : string) : Prop :=
  exists where_ record, known (att_project self0) h where_ record 0 /\ owner record = att_holder self0 /\
    operation_id record = op /\ state record = LedgerState.SUBMITTING /\
    exists answer_, Event (CreateRecord where_ (attempt record, 0) (dump_record record)) answer_ ∈ h.

(** What a method keeps: what the attachment was made with, and that it claimed what it says it did *)
Record kept h (self : Attachment) : Prop := {
  kept_project : att_project self = att_project self0;
  kept_holder : att_holder self = att_holder self0;
  kept_withdrawer : att_withdrawer self = att_withdrawer self0;
  kept_sweeper : att_sweeper self = att_sweeper self0;
  kept_claims : forall op at_, att_claimed_here self !! op = Some at_ -> claimed_by_run h op
}.

Definition spec {A} (m : method A) h (Q : list event -> result Raised A -> Prop) : Prop :=
  forall self, kept h self -> lawful_run (fun h' '(self', r) => kept h' self' /\ Q h' r) h (m self).

(** [spec] with nothing said of the result *)
Definition fine {A} (m : method A) h : Prop := spec m h (fun _ _ => True).

Lemma claimed_mono h t op : claimed_by_run h op -> claimed_by_run (h ++ t) op.
Proof.
  intros (where_ & record & ? & ? & ? & ? & r & ?). exists where_, record. split_and!; [by apply known_mono|done..|].
  exists r. apply elem_of_app. by left.
Qed.

Lemma kept_mono h t self : kept h self -> kept (h ++ t) self.
Proof. intros []. constructor; try done. intros op at_ Ha. apply claimed_mono. eauto. Qed.

Lemma fine_ret {A} (a : A) h : fine (mret a) h.
Proof. intros self Hk. by cbn. Qed.

Lemma fine_raise {A} e h : fine (A:=A) (raise e) h.
Proof. intros self Hk. by cbn. Qed.

Lemma spec_bind {A B} (m : method A) (f : A -> method B) h Q Q' :
  spec m h Q' -> (forall t a, Q' (h ++ t) (Ok a) -> spec (f a) (h ++ t) Q) ->
  (forall t e, Q' (h ++ t) (Err e) -> Q (h ++ t) (Err e)) -> spec (mbind m f) h Q.
Proof.
  intros Hm Hf He self Hk. apply always_bind. eapply always_post; [by apply Hm|].
  intros t [self' [a|e]] [Hk' HQ]; cbn; [by apply Hf|]. split; [done|by apply He].
Qed.

(** Go on after a method that is fine *)
Lemma fine_bind {A B} (m : method A) (f : A -> method B) h Q' :
  spec m h Q' -> (forall t a, Q' (h ++ t) (Ok a) -> fine (f a) (h ++ t)) -> fine (mbind m f) h.
Proof. intros Hm Hf. by eapply spec_bind. Qed.

Lemma spec_self {A} (f : Attachment -> method A) h Q :
  (forall self, kept h self -> spec (f self) h Q) -> spec (mbind self_ f) h Q.
Proof. intros Hf self Hk. unfold mbind, self_. cbn. by apply Hf. Qed.

Lemma spec_ledger {A} (p : string -> proc A) h Q :
  lawful_run Q h (p (att_project self0)) -> spec (with_ledger p) h Q.
Proof.
  intros Hp. unfold with_ledger. apply spec_self. intros self1 Hk1 self Hk. unfold lift. apply always_bind.
  rewrite (kept_project _ _ Hk1). eapply always_post; [exact Hp|]. intros t r Hr. cbn. split; [by apply kept_mono|done].
Qed.

Lemma spec_ask c h :
  lawful (att_project self0) (run_client self0) h c ->
  spec (ask c) h (fun h' r => exists a, r = Ok a /\ Event c a ∈ h').
Proof.
  intros Hc self Hk. cbn. split; [done|]. intros r. split; [by apply kept_mono|]. exists r. split; [done|].
  apply elem_of_app. right. by left.
Qed.

Lemma fine_ask {A} c (f : answer c -> method A) h :
  lawful (att_project self0) (run_client self0) h c -> (forall t a, Event c a ∈ h ++ t -> fine (f a) (h ++ t)) ->
  fine (mbind (ask c) f) h.
Proof.
  intros Hc Hf. eapply fine_bind; [by apply spec_ask|]. intros t a (a' & E & Ha). injection E as <-. by apply Hf.
Qed.

Lemma fine_assign f h : (forall self, kept h self -> kept h (f self)) -> fine (assign f) h.
Proof. intros Hf self Hk. cbn. split; [by apply Hf|done]. Qed.

Lemma fine_ledger {A B} (p : string -> proc A) (f : A -> method B) h Q' :
  lawful_run Q' h (p (att_project self0)) -> (forall t a, Q' (h ++ t) (Ok a) -> fine (f a) (h ++ t)) ->
  fine (mbind (with_ledger p) f) h.
Proof. intros Hp. apply fine_bind. by apply spec_ledger. Qed.

(** A new attachment *)
Lemma kept_fresh h : att_claimed_here self0 = ∅ -> kept h self0.
Proof. intros E. split; [done..|]. intros op at_. by rewrite E, lookup_empty. Qed.

(** ** The methods *)

Ltac same_but_leases := apply fine_assign; intros ? []; by constructor.

Lemma renew_fine key' h : fine (att_renew key') h.
Proof.
  apply spec_self. intros self Hk. apply fine_ask; [done|]. intros t now _.
  eapply fine_ledger; [apply renew_lawful; cbn; rewrite (kept_holder _ _ Hk); apply eqb_refl|].
  intros t' u _. same_but_leases.
Qed.

Lemma release_fine key' h : fine (att_release key') h.
Proof.
  apply spec_self. intros self Hk.
  eapply fine_ledger; [apply release_lawful; cbn; rewrite (kept_holder _ _ Hk); apply eqb_refl|].
  intros t' u _. same_but_leases.
Qed.

Lemma attached_fine record request h : fine (attached record request) h.
Proof.
  unfold attached. destruct (job record) as [j|]; [|apply fine_raise]. destruct (negb _); [apply fine_raise|].
  destruct (handle_of_job _ _ _); [apply fine_ret|apply fine_raise].
Qed.

Abbreviation reads := (read_in (att_project self0)).
Abbreviation knows := (known (att_project self0)).

Lemma check_fine e request h where_ : reads h where_ e -> fine (check e request) h.
Proof.
  intros He. apply fine_ask; [done|]. intros t observed _. destruct (match job _ with Some _ => _ | None => _ end) as [status|].
  - eapply fine_ledger; [eapply settle_lawful; by apply read_in_mono|]. intros. apply fine_ret.
  - eapply fine_bind; [apply attached_fine|]. intros. apply fine_ret.
Qed.

Lemma await_fine e expired h where_ : reads h where_ e -> fine (await_withdrawal e expired) h.
Proof.
  intros He. unfold await_withdrawal. destruct (negb expired); [apply fine_ret|]. apply fine_ask; [done|]. intros t now Hnow.
  eapply (fine_ledger _ _ _ (fun _ _ => True)); [|intros; apply fine_ret]. unfold undo_expired_withdrawal.
  destruct (entry_withdrawal e) as [mark|] eqn:Em; [|done]. destruct (withdrawal_expired mark now) eqn:Ex; [|done].
  eapply undo_lawful; [by apply read_in_mono|]. intros m E. rewrite Em in E. injection E as <-. right. eauto.
Qed.

(** The change of a record by a run that knows its revision *)
Lemma change_lawful e s j reason' h where_ :
  knows h where_ (entry_record e) (entry_revision e) ->
  lawful_run (fun _ _ => True) h
    (let! after := pure (transitioned (entry_record e) s j reason') in replace (att_project self0) e after).
Proof.
  intros Hk. unfold pure. apply always_ebind. cbn [always]. destruct (transitioned _ _ _ _) as [after|] eqn:Et; [|done].
  apply transitioned_valid in Et as [Hv _]. eapply always_post; [by eapply replace_lawful|done].
Qed.

Lemma record_job_fine e request handle h where_ :
  knows h where_ (entry_record e) (entry_revision e) -> fine (record_job e request handle) h.
Proof.
  intros Hk. eapply fine_ledger; [by eapply change_lawful|]. intros t won _. destruct won.
  - eapply fine_bind; [apply renew_fine|]. intros. destruct (handle_of_job _ _ _); [apply fine_ret|apply fine_raise].
  - eapply fine_ledger; [apply read_lawful|]. intros t' [current|] _.
    + destruct (negb _); [apply fine_ask; [done|]; intros; apply fine_ret|]. destruct (among _ _); [|apply fine_ret].
      apply fine_ask; [done|]. intros. destruct (eqb _ _); [apply fine_raise|apply fine_ret].
    + apply fine_ask; [done|]. intros. apply fine_ret.
Qed.

Lemma submit_fine request e h where_ :
  knows h where_ (entry_record e) (entry_revision e) -> claimed_by_run h (operation_id (entry_record e)) ->
  fine (submit request e) h.
Proof.
  intros Hk (w & record & Hc & Ho & E & Es & Hin). apply fine_ask.
  { exists w, record. split_and!; [done| |done..]. cbn. rewrite Ho. apply eqb_refl. }
  intros t [op [handle|handle]|op reason'|op reason'|unknown] _; try apply fine_ret.
  - eapply record_job_fine. by apply known_mono.
  - eapply fine_ledger; [eapply change_lawful; by apply known_mono|]. intros. apply fine_raise.
Qed.

Lemma take_over_own_fine e h where_ : knows h where_ (entry_record e) (entry_revision e) -> fine (take_over_own e) h.
Proof.
  intros Hk. apply fine_ask; [done|]. intros t [? ?|u] _; [|apply fine_ret].
  eapply fine_ledger; [eapply change_lawful; by apply known_mono|]. intros t' won _.
  eapply fine_bind; [|intros; apply fine_ret]. destruct won; [|apply fine_ret].
  apply fine_assign. intros self []. constructor; try done. intros op at_. cbn. intros [_ Ha]%lookup_delete_Some. eauto.
Qed.

Lemma resolve_fine e request expired h where_ : reads h where_ e -> fine (resolve e request expired) h.
Proof.
  intros He. apply fine_ask; [done|]. intros t observed _. apply spec_self. intros self Hk.
  assert (Hkn : knows (h ++ t) where_ (entry_record e) (entry_revision e)) by (apply known_mono; by apply read_in_known).
  destruct (match observed with Observed _ => _ | InspectUnknown _ => _ end) as [handle|]; [by eapply record_job_fine|].
  destruct (att_claimed_here self !! _) as [at_|] eqn:Ec.
  - destruct (negb expired); cbn [andb not_none is_none negb].
    + eapply submit_fine; [done|]. by eapply kept_claims.
    + destruct (eqb _ _); [by eapply take_over_own_fine|].
      eapply (fine_ledger _ _ _ (fun _ _ => True)); [|intros t' [] _; apply fine_ret].
      unfold pure. apply always_ebind. cbn [always]. destruct (transitioned _ _ _ _) as [after|] eqn:Et; [|done].
      apply transitioned_valid in Et as [Hv _]. by eapply take_over_lawful.
  - rewrite andb_false_r. destruct (negb expired); [apply fine_ret|]. destruct (eqb _ _); [by eapply take_over_own_fine|].
    eapply (fine_ledger _ _ _ (fun _ _ => True)); [|intros t' [] _; apply fine_ret].
    unfold pure. apply always_ebind. cbn [always]. destruct (transitioned _ _ _ _) as [after|] eqn:Et; [|done].
    apply transitioned_valid in Et as [Hv _]. by eapply take_over_lawful.
Qed.

Lemma claim_lawful record h :
  record_valid record = true -> state record = LedgerState.SUBMITTING -> owner record = att_holder self0 ->
  lawful_run (fun h' r => forall stored, r = Ok stored -> stored = record -> exists where_, knows h' where_ record 0 /\
      exists answer_, Event (CreateRecord where_ (attempt record, 0) (dump_record record)) answer_ ∈ h') h
    (claim (att_project self0) record).
Proof.
  intros Hv Hs Ho. unfold claim. apply always_ebind. eapply always_post.
  { apply create_lawful. intros where_ Hw. exists record. split_and!; [done..|]. left. cbn. by rewrite Ho, eqb_refl. }
  intros t [[]|error] Hwon; [| |by intros].
  - cbn. intros stored [= <-] _. destruct (Hwon true eq_refl) as (where_ & Hw & Hin). exists where_.
    split; [split; [done|]; left; by split|]. by exists (Ok true).
  - apply always_ebind. eapply always_post; [apply read_lawful|]. intros t' [[e|]|error]; [|by intros..].
    intros [_ [where_ He]]. destruct (_ <? _); cbn; [by intros|]. intros stored [= <-] Est. exists where_.
    destruct (Hwon false eq_refl) as (where_' & Hw & Hin).
    assert (Hs' : slot_of (att_project self0) (key record) = Ok where_) by (rewrite <- Est; by destruct He as (? & ? & ? & _ & _ & ? & _)).
    rewrite Hs' in Hw. injection Hw as <-. split; [|exists (Ok false); apply elem_of_app; by left].
    split; [done|]. right. exists e. split_and!; [done..|]. right. by split.
Qed.

Lemma claim_attempt_fine request key' attempt' labels' h : fine (claim_attempt request key' attempt' labels') h.
Proof.
  apply spec_self. intros self Hk. apply fine_ask; [done|]. intros t now _.
  eapply (fine_bind _ _ _ (fun _ _ => True)).
  { intros self1 Hk1. cbn. destruct (ledger_operation_id key' attempt'); by cbn. }
  intros t' op _. cbn zeta. match goal with |- context [record_valid ?r] => set (claimed := r) end.
  destruct (record_valid claimed) eqn:Hv; [|apply fine_raise]. cbn [negb].
  eapply fine_ledger; [apply claim_lawful; [done..|apply (kept_holder _ _ Hk)]|]. intros t2 stored Hst. destruct (eqb stored claimed) eqn:Es; [|apply fine_ret].
  apply eqb_eq in Es. destruct (Hst _ eq_refl Es) as (where_ & Hkn & Hput). cbn [negb].
  assert (Hclaim : claimed_by_run (((h ++ t) ++ t') ++ t2) (operation_id claimed)).
  { exists where_, claimed. split_and!; [done|cbn; apply (kept_holder _ _ Hk)|done..]. }
  eapply (fine_bind _ _ _ (fun _ _ => True)).
  { apply fine_assign. intros self2 []. constructor; try done. intros o at_. cbn.
    destruct (decide (o = operation_id claimed)) as [->|Hne]; [intros _; exact Hclaim|]. rewrite lookup_insert_ne by done. eauto. }
  intros t3 u _. eapply fine_bind; [apply renew_fine|]. intros t4 u' _. eapply submit_fine.
  - by do 2 apply known_mono.
  - by do 2 apply claimed_mono.
Qed.

Lemma attach_round_fine request labels' key' h : fine (attach_round request labels' key') h.
Proof.
  eapply fine_ledger; [apply read_lawful|]. intros t entry Hentry. apply fine_ask; [done|]. intros t' now _.
  destruct entry as [e|]; [|apply claim_attempt_fine]. destruct Hentry as [_ [where_ He]].
  apply (read_in_mono _ _ t') in He. unfold submit_step.
  assert (Hst : fine match state (entry_record e) with
                     | LedgerState.COMPLETED => do! outcome := attached (entry_record e) request in mret (Some outcome)
                     | LedgerState.SUBMITTED => check e request
                     | LedgerState.SUBMITTING =>
                         do! lapsed := claim_lapsed (entry_record e) (claim_expired e now) in resolve e request lapsed
                     | _ => claim_attempt request key' (attempt (entry_record e) + 1) labels'
                     end ((h ++ t) ++ t')).
  { destruct (state (entry_record e)).
    - eapply fine_bind.
      + apply spec_self. intros self Hk. destruct (negb _); [apply fine_ret|].
        destruct (att_claimed_here self !! _); [|apply fine_ret]. apply fine_ask; [done|]. intros. apply fine_ret.
      + intros t2 lapsed _. eapply resolve_fine. by apply read_in_mono.
    - by eapply check_fine.
    - eapply fine_bind; [apply attached_fine|]. intros. apply fine_ret.
    - apply claim_attempt_fine.
    - apply claim_attempt_fine. }
  destruct (entry_withdrawal e), (state_final (state (entry_record e))) eqn:Ef; [|by eapply await_fine|..];
    destruct (state (entry_record e)); exact Hst.
Qed.

Lemma attach_rounds_fine rounds request labels' key' h : fine (attach_rounds rounds request labels' key') h.
Proof.
  revert h. induction rounds as [|rounds IH]; intros h; [apply fine_ret|]. cbn [attach_rounds].
  eapply fine_bind; [apply attach_round_fine|]. intros t [outcome|] _; [apply fine_ret|apply IH].
Qed.

Lemma attach_fine request labels' key' h : fine (attach request labels' key') h.
Proof. eapply fine_bind; [apply renew_fine|]. intros. apply attach_rounds_fine. Qed.

Lemma sweeper_own mark : wrote (att_sweeper self0) (Some mark) = true -> is_mine (run_client self0) mark = true.
Proof. intros E. cbn [is_mine run_client]. rewrite E. apply orb_true_r. Qed.

Lemma withdrawer_own mark : wrote (att_withdrawer self0) (Some mark) = true -> is_mine (run_client self0) mark = true.
Proof. intros E. cbn [is_mine run_client]. by rewrite E. Qed.

Lemma relinquish_fine key' h : fine (att_relinquish key') h.
Proof.
  eapply (fine_bind _ _ _ (fun _ _ => True)); [same_but_leases|]. intros t u _. apply spec_self. intros self Hk.
  apply fine_ask; [done|]. intros t' now _. apply spec_ledger. rewrite (kept_withdrawer _ _ Hk).
  apply relinquish_harmless; [apply withdrawer_own|]. cbn. rewrite by_holder. apply eqb_refl.
Qed.

Lemma sweep_if_due_fine h : fine sweep_if_due h.
Proof.
  apply spec_self. intros self Hk. destruct (att_sweeping self); [apply fine_ret|]. intros self1 Hk1. cbn beta.
  apply always_bind.
  match goal with |- always _ _ _ (?m self1) => assert (Hm : fine m h) end.
  { eapply (fine_bind _ _ _ (fun _ _ => True)); [same_but_leases|]. intros t u _. apply spec_self. intros self2 Hk2.
    apply fine_ask; [done|]. intros t' now _. destruct (match att_swept_at self2 with Some _ => _ | None => _ end); [apply fine_ret|].
    eapply (fine_bind _ _ _ (fun _ _ => True)); [same_but_leases|]. intros t2 u' _. eapply fine_ledger.
    - rewrite (kept_sweeper _ _ Hk2). apply sweep_unleased_harmless, sweeper_own.
    - intros t3 found _. eapply (fine_bind _ _ _ (fun _ _ => True)); [same_but_leases|]. intros. apply fine_ret. }
  eapply always_post; [by apply Hm|]. intros t [self2 outcomes] [Hk2 _]. cbn. split; [|done]. destruct Hk2. by constructor.
Qed.

Lemma heartbeat_fine key' op h : fine (heartbeat key' op) h.
Proof.
  apply spec_self. intros self Hk. apply fine_ask; [done|]. intros t now _. eapply (fine_bind _ _ _ (fun _ _ => True)).
  - destruct (match att_renewed self !! key' with Some _ => _ | None => _ end); [|apply fine_ret].
    eapply fine_ledger; [apply read_lawful|]. intros t' [e|] _; [|apply fine_raise].
    cbn zeta. destruct (negb (eqb (operation_id (entry_record e)) op)); [apply fine_raise|].
    destruct (eqb (state (entry_record e)) LedgerState.WITHDRAWN); [apply fine_raise|apply renew_fine].
  - intros t' u _. eapply fine_bind; [apply sweep_if_due_fine|]. intros. apply fine_ret.
Qed.

Lemma att_settle_fine key' op status collected h : fine (att_settle key' op status collected) h.
Proof.
  unfold att_settle. generalize ATTACH_ROUNDS as rounds. intros rounds. revert h.
  induction rounds as [|rounds IH]; intros h; [apply fine_ret|]. cbn [settle_rounds].
  eapply fine_ledger; [apply read_lawful|]. intros t [e|]; [|intros; apply fine_ret]. intros [_ [where_ He]].
  cbn zeta. destruct (negb (eqb (operation_id (entry_record e)) op)); [apply fine_ret|].
  destruct (negb (eqb (state (entry_record e)) LedgerState.SUBMITTED)); [apply fine_ret|].
  eapply fine_ledger; [by eapply settle_lawful|]. intros t' [] _; [apply fine_ret|].
  destruct (job (entry_record e)) as [j|]; [|apply fine_ret]. destruct (not_none _); [apply IH|apply fine_ret].
Qed.
End Methods.
