(* ===== verification/SlurmCancel.v ===== *)
(** * When a withdrawal cancels a job

    What a run of [withdraw] has done before it asks the cluster to cancel a job. *)

From S2P Require Import Prelude PyFloat SlurmStates SlurmOutcomes SlurmLedger SlurmProg SlurmStore SlurmEntry SlurmActions SlurmSim.

Section Quiet.
Context `{codec : LedgerCodec} (self_project : string).

(** Whether a call cancels a job, and a program none of whose calls does *)
Definition cancels (c : call) : bool := match c with Cancel _ _ => true | _ => false end.
Definition quiet {A : Type} (p : prog A) : Prop := forall h, always (fun _ c => cancels c = false) (fun _ _ => True) h p.

Lemma quiet_ret {A} (a : A) : quiet (Ret a).
Proof. by intros h. Qed.

Lemma quiet_bind {A B} (p : prog A) (f : A -> prog B) : quiet p -> (forall a, quiet (f a)) -> quiet (pbind p f).
Proof. intros Hp Hf h. apply always_bind. eapply always_post; [apply Hp|]. intros. apply Hf. Qed.

Lemma quiet_ebind {A B} (p : proc A) (f : A -> proc B) : quiet p -> (forall a, quiet (f a)) -> quiet (ebind p f).
Proof. intros Hp Hf. apply quiet_bind; [done|]. intros [a|e]; [apply Hf|apply quiet_ret]. Qed.

Lemma quiet_tell c : cancels c = false -> quiet (tell c).
Proof. by intros Hc h. Qed.

Lemma read_quiet key' : quiet (read self_project key').
Proof. intros h. apply read_calls. by intros h' []. Qed.

Lemma replace_quiet e record : quiet (replace self_project e record).
Proof.
  apply quiet_ebind; [apply quiet_ret|]. intros u. apply quiet_ebind; [apply quiet_ret|]. intros where_. by apply quiet_tell.
Qed.

Lemma write_withdrawal_quiet e document : quiet (write_withdrawal self_project e document).
Proof.
  apply quiet_ebind; [apply quiet_ret|]. intros u. apply quiet_ebind; [apply quiet_ret|]. intros where_. by apply quiet_tell.
Qed.

Lemma undo_quietly_quiet key' withdrawer : quiet (undo_quietly self_project key' withdrawer).
Proof.
  apply quiet_bind; [|by intros [a|[]]]. apply quiet_ebind; [apply read_quiet|]. intros [e|]; [|apply quiet_ret].
  destruct (wrote _ _); [|apply quiet_ret]. apply quiet_ebind; [apply write_withdrawal_quiet|]. intros. apply quiet_ret.
Qed.
End Quiet.

Section Withdrawing.
Context `{codec : LedgerCodec} (self_project key' : string) (withdrawer : Withdrawer) (still : option (LedgerEntry -> prog bool)).
Context (still_quiet : forall still', still = Some still' -> forall e, quiet (still' e)).
Implicit Types (h t : list event).

(** A read showed this withdrawal's mark standing, and the condition it withdraws under to hold still *)
Definition decided h (e : LedgerEntry) (mark : WithdrawalMark) : Prop :=
  exists h0 tr ts, h = h0 ++ tr ++ ts /\
    run (read self_project key') tr (Ret (Ok (Some e))) /\
    entry_withdrawal e = Some mark /\ wrote withdrawer (Some mark) = true /\
    run (still_holds still (e <| entry_withdrawal := None |>)) ts (Ret true).

(** The job was then seen live, and the mark to hold, on this clock, for the cancel's calls, in the last
    calls before the cancel *)
Definition marked_cancel h (op : string) (observed : option ClusterObservation) : Prop :=
  exists h0 e mark now1 now2 live, decided h0 e mark /\
    h = h0 ++ [Event Now now1; Event (Inspect op) (Observed live); Event Now now2] /\
    operation_id (entry_record e) = op /\ observed = Some live /\
    among (observed_phase live) [SlurmPhase.PENDING; SlurmPhase.RUNNING] = true /\
    holds_at (withdrawer_timing withdrawer) mark CALLS_AT_CANCEL now2 = true.

(** Or no job was there under the name of an attempt that was being submitted, and the attempt was
    withdrawn before the cancel *)
Definition jobless_cancel h (op : string) (observed : option ClusterObservation) : Prop :=
  exists h0 e mark now unknown withdrawn tc, decided h0 e mark /\
    h = h0 ++ [Event Now now; Event (Inspect op) (InspectUnknown unknown)] ++ tc /\
    operation_id (entry_record e) = op /\ observed = None /\ state (entry_record e) = LedgerState.SUBMITTING /\
    unknown_job_absent unknown = true /\
    transitioned (entry_record e) LedgerState.WITHDRAWN None (Some (mark_reason mark)) = Ok withdrawn /\
    run (replace self_project e withdrawn) tc (Ret (Ok true)).

Definition cancel_reason h (c : call) : Prop :=
  match c with
  | Cancel op observed => marked_cancel h op observed \/ jobless_cancel h op observed
  | _ => True
  end.

Abbreviation reasoned := (always cancel_reason).

Lemma quiet_reasoned {A} h (p : prog A) : quiet p -> reasoned (fun _ _ => True) h p.
Proof. intros Hp. eapply always_mono; [| |by apply Hp]; [|done]. by intros t []. Qed.

Lemma reasoned_ebind {A B} h (p : proc A) (f : A -> proc B) :
  quiet p -> (forall t a, run p t (Ret (Ok a)) -> reasoned (fun _ _ => True) (h ++ t) (f a)) ->
  reasoned (fun _ _ => True) h (ebind p f).
Proof. intros Hp Hf. apply always_ebind_run; [by apply quiet_reasoned|done|done]. Qed.

Lemma leave_job_reasoned h e reason' : reasoned (fun _ _ => True) h (leave_job self_project e reason').
Proof.
  apply quiet_reasoned, quiet_ebind; [apply write_withdrawal_quiet|]. intros. apply quiet_ret.
Qed.

Lemma withdraw_unseen_reasoned h0 e mark now op unknown :
  decided h0 e mark -> operation_id (entry_record e) = op -> state (entry_record e) = LedgerState.SUBMITTING ->
  reasoned (fun _ _ => True) (h0 ++ [Event Now now; Event (Inspect op) (InspectUnknown unknown)])
    (withdraw_unseen self_project e mark unknown).
Proof.
  intros Hd <- Hs. unfold withdraw_unseen. apply reasoned_ebind; [apply quiet_ret|].
  intros t withdrawn [-> Et]%run_ret. rewrite app_nil_r. apply always_ebind. unfold take_over_jobless.
  eapply (always_post _ (fun _ _ => True)).
  - destruct (negb (unknown_job_absent unknown)) eqn:Hj; [done|]. apply negb_false_iff in Hj.
    apply reasoned_ebind; [apply replace_quiet|]. intros tc [] Hc; cbn [negb]; [|done].
    cbn [pbind tell always cancel_reason]. split; [|done]. right. exists h0, e, mark, now, unknown, withdrawn, tc.
    rewrite <- app_assoc. done.
  - intros t [[[]|reason'|]|error] _; try done. apply quiet_reasoned, quiet_ebind; [apply write_withdrawal_quiet|].
    intros. apply quiet_ret.
Qed.

Lemma cancel_while_marked_reasoned h e mark :
  decided h e mark ->
  reasoned (fun _ _ => True) h (cancel_while_marked self_project e mark (withdrawer_timing withdrawer)).
Proof.
  intros Hd. unfold cancel_while_marked, holds. cbn [pbind tell always cancel_reason]. split; [done|]. intros now.
  destruct (negb _); [apply leave_job_reasoned|]. destruct (state_settled _); [done|].
  cbn [pbind tell always cancel_reason]. split; [done|]. intros [o|unknown]; rewrite <- app_assoc; cbn [app cancel_inspected].
  - unfold cancel_live, live_observation, holds. destruct (among _ _) eqn:Ep; [|done].
    cbn [pbind tell always cancel_reason]. split; [done|]. intros now2.
    destruct (holds_at _ _ CALLS_AT_CANCEL now2) eqn:Hh; cbn [negb]; [|apply leave_job_reasoned].
    cbn [pbind tell always cancel_reason]. split.
    + left. exists h, e, mark, now, now2, o. rewrite <- app_assoc. done.
    + intros [? ?|u]; [done|apply leave_job_reasoned].
  - destruct (eqb _ _) eqn:Es; [|apply leave_job_reasoned]. apply eqb_eq in Es. apply always_ebind.
    eapply always_post; [by apply withdraw_unseen_reasoned|]. by intros t [a|error].
Qed.

Lemma withdraw_marked_reasoned h tr e :
  run (read self_project key') tr (Ret (Ok (Some e))) -> wrote withdrawer (entry_withdrawal e) = true ->
  reasoned (fun _ _ => True) (h ++ tr) (withdraw_marked self_project e withdrawer still).
Proof.
  intros Hr Hw. unfold withdraw_marked. destruct (entry_withdrawal e) as [mark|] eqn:Em; [|done].
  apply always_bind. eapply (always_post _ (fun _ _ => True)).
  - apply always_bind_run.
    + apply quiet_reasoned. destruct still as [still'|] eqn:Es; [by eapply still_quiet|apply quiet_ret].
    + intros ts holding Hs. destruct holding; cbn [negb].
      * apply always_ebind. eapply always_post; [apply cancel_while_marked_reasoned|].
        { exists h, tr, ts. rewrite <- app_assoc. done. }
        intros t [[job|outcome]|error] _; [|done..]. apply quiet_reasoned, quiet_ebind; [apply quiet_ret|]. intros withdrawn.
        apply quiet_ebind; [apply replace_quiet|]. intros. apply quiet_ret.
      * apply quiet_reasoned, quiet_ebind; [apply write_withdrawal_quiet|]. intros. apply quiet_ret.
  - intros t [o|[error|?|? ?|? ?|?]] _; try done. apply quiet_reasoned, quiet_ebind; [apply undo_quietly_quiet|].
    intros. apply quiet_ret.
Qed.

Lemma write_mark_quiet e : quiet (write_mark self_project e withdrawer still).
Proof.
  unfold write_mark. destruct (entry_withdrawal e) as [mark|] eqn:Em.
  - apply quiet_bind; [by apply quiet_tell|]. intros now. destruct (negb _); [apply quiet_ret|].
    apply quiet_bind; [by apply quiet_tell|]. intros now'. apply quiet_bind; [|by intros [a|[]]].
    apply quiet_ebind; [|intros; apply quiet_ret]. unfold undo_expired_withdrawal. rewrite Em.
    destruct (withdrawal_expired _ _); [apply write_withdrawal_quiet|apply quiet_ret].
  - apply quiet_bind; [destruct still as [still'|] eqn:Es; [by eapply still_quiet|apply quiet_ret]|].
    intros holding. destruct (negb holding); [apply quiet_ret|]. apply quiet_ebind.
    + apply quiet_bind; [by apply quiet_tell|]. intros. apply quiet_ret.
    + intros mark. apply quiet_bind; [|by intros [a|[]]]. apply quiet_ebind; [apply write_withdrawal_quiet|].
      intros. apply quiet_ret.
Qed.

Lemma withdraw_reasoned h : reasoned (fun _ _ => True) h (withdraw self_project key' withdrawer still).
Proof.
  unfold withdraw. generalize ROUNDS at 1 as left_. intros left_. revert h.
  induction left_ as [|left_ IH]; intros h; cbn [withdraw_rounds].
  - apply quiet_reasoned, quiet_ebind; [apply undo_quietly_quiet|]. intros. apply quiet_ret.
  - apply always_bind_run; [apply quiet_reasoned, read_quiet|]. intros tr [[e|]|error] Hr; [|done|].
    + cbn zeta. destruct (state_final _); [done|]. apply always_ebind. eapply (always_post _ (fun _ _ => True)).
      * destruct (wrote withdrawer (entry_withdrawal e)) eqn:Hw; [by apply withdraw_marked_reasoned|].
        apply quiet_reasoned, write_mark_quiet.
      * intros t [[outcome|]|error] _; [done|apply IH|done].
    + destruct error; try done. apply quiet_reasoned. apply quiet_ebind.
      * destruct (negb _); [apply undo_quietly_quiet|apply quiet_ret].
      * intros. apply quiet_ret.
Qed.
End Withdrawing.

(** C7: a withdrawal asks the cluster to cancel a job in two cases only.  Either a read of the request,
    made after its mark stood, showed that mark still standing and its condition still holding, and then
    the job was seen queued or running and the mark was seen to hold for the cancel's calls on the
    withdrawer's clock, with no call between that reading and the cancel; or the attempt was being
    submitted, no job ran under its name, and the attempt was recorded withdrawn before the cancel. *)
Theorem cancel_only_while_marked `{LedgerCodec} self_project key' withdrawer still t1 op observed r t2 rest :
  (forall still', still = Some still' -> forall e, quiet (still' e)) ->
  run (withdraw self_project key' withdrawer still) (t1 ++ Event (Cancel op observed) r :: t2) rest ->
  marked_cancel self_project key' withdrawer still t1 op observed \/
  jobless_cancel self_project key' withdrawer still t1 op observed.
Proof.
  intros Hs Hrun. pose proof (withdraw_reasoned self_project key' withdrawer still Hs []) as Hw.
  exact (always_call _ _ _ _ _ _ _ _ _ Hw Hrun).
Qed.

(** An operator's withdrawal, of a request whose job runs *)
Definition sample_withdrawal : list event :=
  (exec sample_outside (withdraw "project" sample_key (sample_withdrawer "operator") None)
     (store_after empty_store (exec sample_outside sample_attach empty_store).1)).1.

Lemma sample_cancels : exists r,
  sample_withdrawal !! 11%nat = Some (Event (Cancel sample_operation (Some (sample_observation sample_operation))) r).
Proof. eexists. vm_compute. reflexivity. Qed.

Lemma cancel_only_while_marked_witness :
  let cancelled := Some (sample_observation sample_operation) in
  marked_cancel "project" sample_key (sample_withdrawer "operator") None (take 11 sample_withdrawal) sample_operation cancelled \/
  jobless_cancel "project" sample_key (sample_withdrawer "operator") None (take 11 sample_withdrawal) sample_operation cancelled.
Proof.
  intros cancelled. destruct sample_cancels as [r Hr].
  apply (cancel_only_while_marked "project" sample_key (sample_withdrawer "operator") None (take 11 sample_withdrawal)
           sample_operation cancelled r (drop 12 sample_withdrawal)
           (Ret (exec sample_outside (withdraw "project" sample_key (sample_withdrawer "operator") None)
                  (store_after empty_store (exec sample_outside sample_attach empty_store).1)).2)); [done|].
  unfold cancelled. rewrite (take_drop_middle _ _ _ Hr). apply exec_run.
Defined.
