(* ===== verification/SlurmAttached.v ===== *)
(** * What a run that attached has done

    The calls behind an [Attached] of [SlurmAttach.attach]: the lease, then the read that showed the
    attempt with no withdrawal under way, or the claim. *)

From S2P Require Import Prelude PyFloat SlurmStates SlurmOutcomes SlurmLedger SlurmProg SlurmStore SlurmEntry SlurmActions SlurmAttach SlurmLawful SlurmLawfulRun.

Section Attached.
Context `{codec : LedgerCodec}.
Implicit Types (self : Attachment).

(** ** Runs of methods *)

Lemma run_method_bind {A B} (m : method A) (f : A -> method B) self t self' b :
  run (mbind m f self) t (Ret (self', Ok b)) ->
  exists t1 self1 a t2, t = t1 ++ t2 /\ run (m self) t1 (Ret (self1, Ok a)) /\ run (f a self1) t2 (Ret (self', Ok b)).
Proof.
  intros (t1 & [self1 [a|e]] & t2 & -> & H1 & H2)%run_bind; [by exists t1, self1, a, t2|].
  by apply run_ret in H2 as [_ ?].
Qed.

Lemma run_method_self {A} (f : Attachment -> method A) self t r : run (mbind self_ f self) t r -> run (f self self) t r.
Proof. done. Qed.

Lemma run_ask {A} c (f : answer c -> method A) self t self' b :
  run (mbind (ask c) f self) t (Ret (self', Ok b)) ->
  exists r t', t = Event c r :: t' /\ run (f r self) t' (Ret (self', Ok b)).
Proof. cbn. intros [[_ ?]|(r & t' & -> & H)]; [done|]. eauto. Qed.

Lemma run_ledger {A} (p : string -> proc A) self t self' a :
  run (with_ledger p self) t (Ret (self', Ok a)) -> self' = self /\ run (p (att_project self)) t (Ret (Ok a)).
Proof.
  unfold with_ledger. intros H%run_method_self. apply run_bind in H as (t1 & r & t2 & -> & H1 & H2).
  apply run_ret in H2 as [-> [= <- ->]]. by rewrite app_nil_r.
Qed.

Lemma run_ledger_bind {A B} (p : string -> proc A) (f : A -> method B) self t self' b :
  run (mbind (with_ledger p) f self) t (Ret (self', Ok b)) ->
  exists t1 a t2, t = t1 ++ t2 /\ run (p (att_project self)) t1 (Ret (Ok a)) /\ run (f a self) t2 (Ret (self', Ok b)).
Proof. intros (t1 & self1 & a & t2 & -> & [-> H1]%run_ledger & H2)%run_method_bind. by exists t1, a, t2. Qed.

Lemma run_mret {A} (a b : A) self t self' : run (mret a self) t (Ret (self', Ok b)) -> t = [] /\ self' = self /\ a = b.
Proof. by intros [-> [= -> ->]]%run_ret. Qed.

Lemma run_raise {A} e self t self' (b : A) : ~ run (raise e self) t (Ret (self', Ok b)).
Proof. by intros [_ ?]%run_ret. Qed.

(** ** The ledger's operations *)

Lemma create_run project record r t won :
  run (create project record r) t (Ret (Ok won)) ->
  exists where_, slot_of project (key record) = Ok where_ /\
    t = [Event (CreateRecord where_ (attempt record, r) (dump_record record)) (Ok won)].
Proof.
  intros (t1 & where_ & t2 & -> & [-> Hs]%run_ret & ->%(run_tell (CreateRecord _ _ _)))%run_ebind. by exists where_.
Qed.

Lemma replace_run project e record t won :
  run (replace project e record) t (Ret (Ok won)) ->
  check_transition (entry_record e) record = Ok tt /\
  exists where_, slot_of project (key record) = Ok where_ /\
    t = [Event (CreateRecord where_ (attempt record, entry_revision e + 1) (dump_record record)) (Ok won)].
Proof.
  intros (t1 & [] & t2 & -> & [-> Hc]%run_ret & H2)%run_ebind. split; [done|]. by apply create_run in H2.
Qed.

Lemma claim_run project record t stored_ :
  run (claim project record) t (Ret (Ok stored_)) ->
  exists where_ won, slot_of project (key record) = Ok where_ /\
    Event (CreateRecord where_ (attempt record, 0) (dump_record record)) (Ok won) ∈ t /\
    (won = true \/ exists e, read_in project t where_ e /\ entry_record e = stored_ /\ key stored_ = key record).
Proof.
  intros (t1 & won & t2 & -> & H1 & H2)%run_ebind. apply create_run in H1 as (where_ & Hs & ->).
  exists where_, won. split_and!; [done|by left|]. destruct won; [by left|]. right.
  apply run_ebind in H2 as (t3 & found & t4 & -> & H1 & H2).
  apply read_run in H1 as (where_' & rs & ws & ls & t5 & Hs' & -> & He). rewrite Hs in Hs'. injection Hs' as <-.
  destruct found as [e|]; [|by apply run_ret in H2 as [_ ?]].
  destruct (_ <? _); [by apply run_ret in H2 as [_ ?]|]. apply run_ret in H2 as [-> [= <-]].
  pose proof (shows_key _ _ _ _ _ He) as Hk. exists e. split_and!; [|done|done].
  exists rs, ws, ls. rewrite Hk. split_and!; [set_solver|set_solver|done|done].
Qed.

Lemma renew_run project key' lease t :
  run (renew project key' lease) t (Ret (Ok tt)) ->
  exists where_, slot_of project key' = Ok where_ /\ valid_operation_id (holder lease) = true /\
    t = [Event (PutLease where_ (holder lease) (dump_lease lease) (renewed_at lease)) (Ok tt)].
Proof.
  intros (t1 & where_ & t2 & -> & [-> Hs]%run_ret & H1)%run_ebind.
  apply run_ebind in H1 as (t3 & h & t4 & -> & [-> Hh]%run_ret & ->%(run_tell (PutLease _ _ _ _))).
  unfold validate_holder in Hh. apply rbind_Ok in Hh as ([] & Hv%ensure_Ok & [= <-]). by exists where_.
Qed.

Lemma att_renew_run key' self t self' u :
  run (att_renew key' self) t (Ret (self', Ok u)) ->
  exists where_ lease now, slot_of (att_project self) key' = Ok where_ /\ holder lease = att_holder self /\
    valid_operation_id (att_holder self) = true /\
    t = [Event Now now; Event (PutLease where_ (att_holder self) (dump_lease lease) (renewed_at lease)) (Ok tt)].
Proof.
  intros H1. unfold att_renew in H1. apply run_method_self, run_ask in H1 as (now & t1 & -> & H1).
  apply run_ledger_bind in H1 as (t2 & [] & t3 & -> & H1 & H2). apply run_ret in H2 as [-> _].
  apply renew_run in H1 as (where_ & Hs & Hv & ->).
  eexists where_, {| holder := att_holder self; renewed_at := now; expires_at := _ |}, now. split_and!; [exact Hs|done|exact Hv|reflexivity].
Qed.

(** ** The round that attaches *)

(** The record of a submitted job was written after the revision [r] of its attempt *)
Definition job_recorded (project key' : string) (a r : Z) (t : list event) : Prop :=
  exists where_ record, slot_of project key' = Ok where_ /\ state record = LedgerState.SUBMITTED /\
    Event (CreateRecord where_ (a, r + 1) (dump_record record)) (Ok true) ∈ t.

Lemma record_job_run e request handle self t self' k op h :
  run (record_job e request handle self) t (Ret (self', Ok (Some (Attached k op h)))) ->
  op = operation_id (entry_record e) /\
  job_recorded (att_project self) (key (entry_record e)) (attempt (entry_record e)) (entry_revision e) t.
Proof.
  intros H1. apply run_ledger_bind in H1 as (t1 & won & t2 & -> & H1 & H2).
  apply run_ebind in H1 as (t3 & record & t4 & -> & [-> Ht]%run_ret & H1). cbn [app].
  apply replace_run in H1 as (Hc & where_ & Hs & ->). apply transitioned_valid in Ht as [Hv Hst].
  apply check_transition_Ok in Hc as (Hkey & _ & Ha & _). destruct won.
  - apply run_method_bind in H2 as (t5 & self1 & u & t6 & -> & _ & H2).
    destruct (handle_of_job _ _ _); [|by apply run_raise in H2]. apply run_mret in H2 as (_ & _ & E). injection E as _ <- _.
    split; [done|]. exists where_, record. rewrite Hkey, Ha. split_and!; [done..|]. by left.
  - exfalso. apply run_ledger_bind in H2 as (t5 & [current|] & t6 & -> & _ & H2).
    + destruct (negb _).
      * apply run_ask in H2 as (? & ? & -> & H2). by apply run_mret in H2 as (_ & _ & ?).
      * destruct (among _ _); [|by apply run_mret in H2 as (_ & _ & ?)].
        apply run_ask in H2 as (? & ? & -> & H2). destruct (eqb _ _); [by apply run_raise in H2|by apply run_mret in H2 as (_ & _ & ?)].
    + apply run_ask in H2 as (? & ? & -> & H2). by apply run_mret in H2 as (_ & _ & ?).
Qed.

Lemma submit_run request e self t self' k op h :
  run (submit request e self) t (Ret (self', Ok (Some (Attached k op h)))) ->
  op = operation_id (entry_record e) /\
  job_recorded (att_project self) (key (entry_record e)) (attempt (entry_record e)) (entry_revision e) t.
Proof.
  intros H1. apply run_ask in H1 as (submitted & t1 & -> & H1).
  destruct submitted as [? [handle|handle]|? ?|? ?|unknown]; try (by apply run_mret in H1 as (_ & _ & ?)).
  - apply record_job_run in H1 as (-> & where_ & record & ? & ? & ?). split; [done|]. exists where_, record.
    split_and!; [done..|]. by right.
  - apply run_ledger_bind in H1 as (? & ? & ? & -> & _ & H1). by apply run_raise in H1.
Qed.

Lemma resolve_run e request expired self t self' k op h :
  run (resolve e request expired self) t (Ret (self', Ok (Some (Attached k op h)))) ->
  op = operation_id (entry_record e) /\
  job_recorded (att_project self) (key (entry_record e)) (attempt (entry_record e)) (entry_revision e) t.
Proof.
  intros H1. apply run_ask in H1 as (observed & t1 & -> & H1). apply run_method_self in H1.
  assert (Hmore : forall t2, job_recorded (att_project self) (key (entry_record e)) (attempt (entry_record e)) (entry_revision e) t2 ->
    job_recorded (att_project self) (key (entry_record e)) (attempt (entry_record e)) (entry_revision e)
      (Event (Inspect (operation_id (entry_record e))) observed :: t2)).
  { intros t2 (where_ & record & ? & ? & ?). exists where_, record. split_and!; [done..|]. by right. }
  destruct (match observed with Observed _ => _ | InspectUnknown _ => _ end) as [handle|].
  { apply record_job_run in H1 as [-> ?]. auto. }
  destruct (negb expired && _); [apply submit_run in H1 as [-> ?]; auto|].
  destruct (negb expired); [by apply run_mret in H1 as (_ & _ & ?)|]. exfalso. destruct (eqb _ _).
  - apply run_ask in H1 as ([? ?|u] & t2 & -> & H1); [|by apply run_mret in H1 as (_ & _ & ?)].
    apply run_ledger_bind in H1 as (? & won & ? & -> & _ & H1).
    apply run_method_bind in H1 as (? & ? & ? & ? & -> & _ & H1). by apply run_mret in H1 as (_ & _ & ?).
  - apply run_ledger_bind in H1 as (? & taken & ? & -> & _ & H1). destruct taken; by apply run_mret in H1 as (_ & _ & ?).
Qed.

Lemma attached_run record request self t self' k op h :
  run (attached record request self) t (Ret (self', Ok (Attached k op h))) -> op = operation_id record.
Proof.
  unfold attached. destruct (job record) as [j|]; [|by intros ?%run_raise]. destruct (negb _); [by intros ?%run_raise|].
  destruct (handle_of_job _ _ _); [|by intros ?%run_raise]. intros (_ & _ & E)%run_mret. by injection E.
Qed.

Lemma check_run e request self t self' k op h :
  run (check e request self) t (Ret (self', Ok (Some (Attached k op h)))) -> op = operation_id (entry_record e).
Proof.
  intros H1. apply run_ask in H1 as (observed & t1 & -> & H1).
  destruct (match job (entry_record e) with Some _ => _ | None => _ end).
  - apply run_ledger_bind in H1 as (? & ? & ? & -> & _ & H1). by apply run_mret in H1 as (_ & _ & ?).
  - apply run_method_bind in H1 as (t2 & self1 & outcome & t3 & -> & H1 & H2). apply run_mret in H2 as (_ & _ & E).
    injection E as ->. by apply attached_run in H1.
Qed.

(** The claim of an attempt by [holder'], created, or found stored as this run wrote it, and its job
    recorded *)
Definition claim_recorded (project key' holder' op : string) (t : list event) : Prop :=
  exists where_ claimed won, slot_of project key' = Ok where_ /\ key claimed = key' /\ operation_id claimed = op /\
    owner claimed = holder' /\ state claimed = LedgerState.SUBMITTING /\
    Event (CreateRecord where_ (attempt claimed, 0) (dump_record claimed)) (Ok won) ∈ t /\
    (won = true \/ exists e, read_in project t where_ e /\ entry_record e = claimed) /\
    job_recorded project key' (attempt claimed) 0 t.

Lemma claim_recorded_more project key' holder' op t1 t2 :
  claim_recorded project key' holder' op t2 -> claim_recorded project key' holder' op (t1 ++ t2).
Proof.
  intros (w & claimed & won & ? & ? & ? & ? & ? & Hin & Hwon & Hrec). exists w, claimed, won. split_and!; [done..| | |].
  - apply elem_of_app. by right.
  - destruct Hwon as [?|(e & (rs & ws & ls & ? & ? & ? & ?) & ?)]; [by left|right]. exists e. split; [|done].
    exists rs, ws, ls. split_and!; [apply elem_of_app; by right..|done|done].
  - destruct Hrec as (w' & record & ? & ? & ?). exists w', record. split_and!; [done..|]. apply elem_of_app. by right.
Qed.

Lemma claim_attempt_run request key' attempt' labels' self t self' k op h :
  run (claim_attempt request key' attempt' labels' self) t (Ret (self', Ok (Some (Attached k op h)))) ->
  claim_recorded (att_project self) key' (att_holder self) op t.
Proof.
  intros H1. unfold claim_attempt in H1. apply run_method_self, run_ask in H1 as (now & t1 & -> & H1).
  apply run_method_bind in H1 as (t2 & self1 & operation & t3 & -> & H1 & H2).
  apply run_bind in H1 as (? & ? & ? & -> & [-> _]%run_ret & [-> [= <- _]]%run_ret). cbn [app] in *. cbn zeta in H2.
  match type of H2 with context [record_valid ?r] => set (claimed := r) in H2 end.
  destruct (record_valid claimed); [|by apply run_raise in H2]. cbn [negb] in H2.
  apply run_ledger_bind in H2 as (t4 & stored_ & t5 & -> & H1 & H2).
  apply claim_run in H1 as (where_ & won & Hs & Hin & Hwon).
  destruct (eqb stored_ claimed) eqn:Est; cbn [negb] in H2; [|by apply run_mret in H2 as (_ & _ & ?)]. apply eqb_eq in Est as ->.
  apply run_method_bind in H2 as (t6 & self2 & [] & t7 & -> & H3 & H2). apply run_ret in H3 as [-> E]. injection E as <-.
  apply run_method_bind in H2 as (t8 & self3 & [] & t9 & -> & H3 & H2).
  assert (Hp : att_project self3 = att_project self).
  { unfold att_renew in H3. apply run_method_self, run_ask in H3 as (? & ? & -> & H3). apply run_ledger_bind in H3 as (? & ? & ? & -> & _ & H3).
    apply run_ret in H3 as [_ E]. by injection E as <-. }
  apply submit_run in H2 as [-> (where_' & record & Hs' & Hst & Hin')]. rewrite Hp in Hs'.
  apply (claim_recorded_more _ _ _ _ [_]). exists where_, claimed, won. split_and!; [done..| | |].
  - apply elem_of_app. by left.
  - destruct Hwon as [?|(e & (rs & ws & ls & ? & ? & ? & ?) & ? & _)]; [by left|right]. exists e. split; [|done].
    exists rs, ws, ls. split_and!; [apply elem_of_app; by left..|done|done].
  - exists where_', record. split_and!; [done..|]. apply elem_of_app. right. cbn [app]. apply elem_of_app. by right.
Qed.

(** What the round that attaches has read and recorded *)
Definition attaches (project key' holder' op : string) (t : list event) : Prop :=
  exists where_ records withdrawals leases t',
    slot_of project key' = Ok where_ /\
    t = [Event (ReadRecords where_) (Ok records); Event (ReadWithdrawals where_) (Ok withdrawals);
         Event (ReadLeases where_) (Ok leases)] ++ t' /\
    ((exists e, shows key' records withdrawals leases e /\ operation_id (entry_record e) = op /\ entry_withdrawal e = None /\
        (state (entry_record e) ∈ NAMES_A_JOB \/
         state (entry_record e) = LedgerState.SUBMITTING /\
           job_recorded project key' (attempt (entry_record e)) (entry_revision e) t')) \/
     claim_recorded project key' holder' op t').

Lemma job_recorded_more project key' a r t1 t2 t3 :
  job_recorded project key' a r t2 -> job_recorded project key' a r (t1 ++ t2 ++ t3).
Proof.
  intros (where_ & record & ? & ? & ?). exists where_, record. split_and!; [done..|]. rewrite !elem_of_app. auto.
Qed.

Lemma attach_round_run request labels' key' self t self' k op h :
  run (attach_round request labels' key' self) t (Ret (self', Ok (Some (Attached k op h)))) ->
  attaches (att_project self) key' (att_holder self) op t.
Proof.
  intros H1. apply run_ledger_bind in H1 as (t1 & found & t2 & -> & Hread & H1).
  apply run_ask in H1 as (now & t3 & -> & H1).
  apply read_run in Hread as (where_ & rs & ws & ls & t4 & Hs & -> & Hfound). rewrite <- app_assoc.
  exists where_, rs, ws, ls, (t4 ++ Event Now now :: t3). split_and!; [done..|].
  assert (Hclaim : claim_recorded (att_project self) key' (att_holder self) op t3 ->
                   claim_recorded (att_project self) key' (att_holder self) op (t4 ++ Event Now now :: t3)).
  { intros Hc. apply (claim_recorded_more _ _ _ _ (t4 ++ [Event Now now])) in Hc. by rewrite <- app_assoc in Hc. }
  destruct found as [e|]; cbv beta iota zeta delta [submit_step] in H1; [|right; apply Hclaim; by eapply claim_attempt_run].
  pose proof (shows_key _ _ _ _ _ Hfound) as Hkey.
  destruct (entry_withdrawal e) as [mark|] eqn:Em, (state_final (state (entry_record e))) eqn:Ef.
  1: { destruct (state (entry_record e)) eqn:Es; try done; right; apply Hclaim; by eapply claim_attempt_run. }
  1: { exfalso. unfold await_withdrawal in H1. destruct (negb _).
       - by apply run_mret in H1 as (_ & _ & ?).
       - apply run_ask in H1 as (? & ? & -> & H1). apply run_ledger_bind in H1 as (? & ? & ? & -> & _ & H1).
         by apply run_mret in H1 as (_ & _ & ?). }
  all: destruct (state (entry_record e)) eqn:Es; try done;
    try (right; apply Hclaim; by eapply claim_attempt_run); left; exists e; split_and!; try done.
  - apply run_method_bind in H1 as (t5 & self1 & lapsed & t6 & -> & _ & H1). by apply resolve_run in H1 as [-> _].
  - right. split; [done|]. apply run_method_bind in H1 as (t5 & self1 & lapsed & t6 & -> & H2 & H1).
    assert (self1 = self) as ->.
    { unfold claim_lapsed in H2. apply run_method_self in H2. destruct (negb _); [by apply run_mret in H2 as (_ & -> & _)|].
      destruct (att_claimed_here self !! _); [|by apply run_mret in H2 as (_ & -> & _)].
      apply run_ask in H2 as (? & ? & -> & H2). by apply run_mret in H2 as (_ & -> & _). }
    apply resolve_run in H1 as [_ Hrec]. rewrite Hkey in Hrec.
    apply (job_recorded_more _ _ _ _ (t4 ++ Event Now now :: t5) t6 []) in Hrec.
    by rewrite app_nil_r, <- app_assoc in Hrec.
  - by apply check_run in H1.
  - left. set_solver.
  - apply run_method_bind in H1 as (? & ? & outcome & ? & -> & H1 & H2). apply run_mret in H2 as (_ & _ & E).
    injection E as ->. by apply attached_run in H1.
  - left. set_solver.
Qed.

Context (self0 : Attachment) (by_holder : withdrawer_by (att_withdrawer self0) = att_holder self0).

Lemma attach_rounds_run rounds request labels' key' self s t self' k op h :
  kept self0 s self -> run (attach_rounds rounds request labels' key' self) t (Ret (self', Ok (Attached k op h))) ->
  exists t1 t2, t = t1 ++ t2 /\ attaches (att_project self0) key' (att_holder self0) op t2.
Proof.
  revert self s t. induction rounds as [|rounds IH]; intros self s t Hk; cbn [attach_rounds].
  - by intros (_ & _ & ?)%run_mret.
  - intros (t1 & self1 & outcome & t2 & -> & H1 & H2)%run_method_bind.
    pose proof (attach_round_fine self0 request labels' key' s self Hk) as Hf.
    pose proof (always_result _ _ _ _ _ _ Hf H1) as [Hk' _]. destruct outcome as [outcome|].
    + apply run_mret in H2 as (-> & -> & ->). rewrite app_nil_r. exists [], t1. split; [done|].
      rewrite <- (kept_project _ _ _ Hk), <- (kept_holder _ _ _ Hk). by eapply attach_round_run.
    + apply (IH _ _ _ Hk') in H2 as (t3 & t4 & -> & H2). exists (t1 ++ t3), t4. by rewrite app_assoc.
Qed.

(** The lease is written before anything is read, and the last read decides. *)
Lemma attach_run request labels' key' self s t self' k op h :
  kept self0 s self -> run (attach request labels' key' self) t (Ret (self', Ok (Attached k op h))) ->
  exists where_ lease now t1 t2, slot_of (att_project self0) key' = Ok where_ /\ holder lease = att_holder self0 /\
    valid_operation_id (att_holder self0) = true /\
    t = [Event Now now; Event (PutLease where_ (att_holder self0) (dump_lease lease) (renewed_at lease)) (Ok tt)] ++ t1 ++ t2 /\
    attaches (att_project self0) key' (att_holder self0) op t2.
Proof.
  intros Hk (t1 & self1 & u & t2 & -> & H1 & H2)%run_method_bind.
  pose proof (renew_fine self0 key' s self Hk) as Hf. pose proof (always_result _ _ _ _ _ _ Hf H1) as [Hk' _].
  apply (attach_rounds_run _ _ _ _ _ _ _ _ _ _ _ Hk') in H2 as (t3 & t4 & -> & H2).
  apply att_renew_run in H1 as (where_ & lease & now & Hs & Hh & Hv & ->).
  rewrite (kept_project _ _ _ Hk) in Hs. rewrite (kept_holder _ _ _ Hk) in Hh, Hv |- *.
  exists where_, lease, now, t3, t4. done.
Qed.
End Attached.
