(* ===== verification/SlurmWorld.v ===== *)
(** * A world of ledger clients

    What holds of the storage whatever the clients of a ledger do, in whatever order, and whichever of
    their calls fail. *)

From S2P Require Import Prelude PyFloat SlurmStates SlurmOutcomes SlurmLedger SlurmProg SlurmStore SlurmEntry SlurmActions SlurmAttach SlurmSim SlurmLawful.

Section World.
Context `{codec : LedgerCodec} {laws : LedgerCodecLaws codec} (self_project : string) (who : nat -> Client).
Context (g : list (nat * event)) (at_ : nat -> Store).
Implicit Types (i j : nat).

(** Clients whose every write has its reason, from an empty storage *)
Record world : Prop := {
  world_history : history g at_;
  world_starts : at_ 0%nat = empty_store;
  world_lawful : forall pid t1 c r t2, events_of pid g = t1 ++ Event c r :: t2 -> lawful self_project (who pid) t1 c
}.

(** ** Decoding what was stored *)

Lemma record_decodes record path : record_valid record = true -> decode_record (dump_record record) path = Ok record.
Proof.
  intros Hv. destruct (record_back record) as (d & E1 & E2 & E3). unfold decode_record, decode. rewrite E1, E2, E3, Hv.
  by rewrite eqb_refl.
Qed.

Lemma lease_decodes lease path : valid_operation_id (holder lease) = true -> decode_lease (dump_lease lease) path = Ok lease.
Proof.
  intros Hv. destruct (lease_back lease) as (d & E1 & E2 & E3). unfold decode_lease, decode. rewrite E1, E2, E3, Hv.
  by rewrite eqb_refl.
Qed.

Lemma withdrawal_decodes document path : withdrawal_valid document = true ->
  readable_withdrawal (dump_withdrawal document) path (document_attempt document) = Some document.
Proof.
  intros Hv. destruct (withdrawal_back document) as (d & E1 & E2 & E3).
  unfold readable_withdrawal, decode_withdrawal, decode. rewrite E1, E2, E3, Hv, eqb_refl. cbn. by rewrite Z.eqb_refl.
Qed.

Lemma dump_record_inj a b : record_valid a = true -> dump_record a = dump_record b -> a = b.
Proof.
  intros Ha E. pose proof (record_decodes a "" Ha) as Hd. rewrite E in Hd.
  destruct (record_back b) as (d & E1 & E2 & E3). unfold decode_record, decode in Hd. rewrite E1, E2, E3, eqb_refl in Hd.
  cbn in Hd. destruct (record_valid b); [|done]. by injection Hd.
Qed.

Lemma dump_withdrawal_inj a b : dump_withdrawal a = dump_withdrawal b -> a = b.
Proof.
  intros E. destruct (withdrawal_back a) as (d & E1 & _ & E3), (withdrawal_back b) as (d' & E1' & _ & E3').
  rewrite E, E1' in E1. injection E1 as <-. rewrite E3' in E3. by injection E3.
Qed.

(** ** The storage only gains revisions *)

Abbreviation records_at i where_ := (held where_ (store_records (at_ i)) ∅).
Abbreviation withdrawals_at i where_ := (held where_ (store_withdrawals (at_ i)) ∅).
Abbreviation leases_at i where_ := (held where_ (store_leases (at_ i)) ∅).

Lemma held_insert {V} (where_ where_' : slot) (v none : V) (m : gmap slot V) :
  held where_ (<[where_' := v]> m) none = if decide (where_ = where_') then v else held where_ m none.
Proof.
  unfold held. case_decide as E; [subst; by rewrite lookup_insert_eq|by rewrite lookup_insert_ne].
Qed.

Lemma created_lookup {V} (where_ where_' : slot) (m : gmap slot (gmap position V)) (pos pos' : position) v :
  held where_ (created where_' pos' v m) ∅ !! pos =
  match held where_ m ∅ !! pos with
  | Some v => Some v
  | None => if decide (where_ = where_' /\ pos = pos') then Some v else None
  end.
Proof.
  unfold created. destruct (held where_' m ∅ !! pos') as [v'|] eqn:E.
  - destruct (held where_ m ∅ !! pos) eqn:E'; [done|]. case_decide as Hd; [|done]. destruct Hd as [-> ->]. congruence.
  - rewrite held_insert. case_decide as Ew; [subst where_'|].
    + destruct (decide (pos = pos')) as [->|Hne]; [rewrite lookup_insert_eq, E; by rewrite decide_True|].
      rewrite lookup_insert_ne by done. destruct (_ !! pos); [done|]. by rewrite decide_False by naive_solver.
    + destruct (_ !! pos); [done|]. by rewrite decide_False by naive_solver.
Qed.

Lemma serves_effect s e s' : serves s e s' -> s' = s \/ s' = effect s (event_call e).
Proof. destruct e as [c r]. cbn. naive_solver. Qed.

Lemma served_records s e s' where_ pos text :
  serves s e s' -> held where_ (store_records s') ∅ !! pos = Some text ->
  held where_ (store_records s) ∅ !! pos = Some text \/ event_call e = CreateRecord where_ pos text.
Proof.
  intros [->| ->]%serves_effect Ht; [by left|]. destruct (event_call e) eqn:Ec; cbn in Ht; try by left.
  rewrite created_lookup in Ht. destruct (held where_ (store_records s) ∅ !! pos); [by left|]. right.
  case_decide as Hd; [|done]. destruct Hd as [-> ->]. by injection Ht as ->.
Qed.

Lemma served_withdrawals s e s' where_ pos row :
  serves s e s' -> held where_ (store_withdrawals s') ∅ !! pos = Some row ->
  held where_ (store_withdrawals s) ∅ !! pos = Some row \/ event_call e = CreateWithdrawal where_ pos row.1 row.2.
Proof.
  intros [->| ->]%serves_effect Ht; [by left|]. destruct (event_call e) eqn:Ec; cbn in Ht; try by left.
  rewrite created_lookup in Ht. destruct (held where_ (store_withdrawals s) ∅ !! pos); [by left|]. right.
  case_decide as Hd; [|done]. destruct Hd as [-> ->]. by injection Ht as <-.
Qed.

Lemma step_keeps s e s' where_ pos :
  serves s e s' ->
  (forall text, held where_ (store_records s) ∅ !! pos = Some text -> held where_ (store_records s') ∅ !! pos = Some text) /\
  (forall row, held where_ (store_withdrawals s) ∅ !! pos = Some row -> held where_ (store_withdrawals s') ∅ !! pos = Some row).
Proof.
  intros [->| ->]%serves_effect; [done|].
  destruct (event_call e); cbn; try done; (split; [|done]) || (split; [done|]);
    intros row Ht; by rewrite created_lookup, Ht.
Qed.

Lemma stored_stays (hist : history g at_) i j where_ pos :
  (i <= j <= length g)%nat ->
  (forall text, records_at i where_ !! pos = Some text -> records_at j where_ !! pos = Some text) /\
  (forall row, withdrawals_at i where_ !! pos = Some row -> withdrawals_at j where_ !! pos = Some row).
Proof.
  intros [Hij Hj]. induction Hij as [|j Hij IH]; [done|]. destruct IH as [IH1 IH2]; [lia|].
  destruct (lookup_lt_is_Some_2 g j) as [[pid e] He]; [lia|].
  destruct (step_keeps _ _ _ where_ pos (hist _ _ _ He)) as [H1 H2]. split; intros; [by apply H1, IH1|by apply H2, IH2].
Qed.

(** A revision that came to be was created, once *)
Lemma record_origin (hist : history g at_) i j where_ pos text :
  (i <= j <= length g)%nat -> records_at i where_ !! pos = None -> records_at j where_ !! pos = Some text ->
  exists k pid e, (i <= k < j)%nat /\ g !! k = Some (pid, e) /\ event_call e = CreateRecord where_ pos text.
Proof.
  intros [Hij Hj] Hn. induction Hij as [|j Hij IH]; [congruence|]. intros Ht.
  destruct (lookup_lt_is_Some_2 g j) as [[pid e] He]; [lia|].
  destruct (served_records _ _ _ _ _ _ (hist _ _ _ He) Ht) as [Ht'|Hc].
  - destruct IH as (k & pid' & e' & ? & ? & ?); [lia|done|]. exists k, pid', e'. split; [lia|done].
  - exists j, pid, e. split; [lia|done].
Qed.

Lemma withdrawal_origin (hist : history g at_) i j where_ pos row :
  (i <= j <= length g)%nat -> withdrawals_at i where_ !! pos = None -> withdrawals_at j where_ !! pos = Some row ->
  exists k pid e, (i <= k < j)%nat /\ g !! k = Some (pid, e) /\ event_call e = CreateWithdrawal where_ pos row.1 row.2.
Proof.
  intros [Hij Hj] Hn. induction Hij as [|j Hij IH]; [congruence|]. intros Ht.
  destruct (lookup_lt_is_Some_2 g j) as [[pid e] He]; [lia|].
  destruct (served_withdrawals _ _ _ _ _ _ (hist _ _ _ He) Ht) as [Ht'|Hc].
  - destruct IH as (k & pid' & e' & ? & ? & ?); [lia|done|]. exists k, pid', e'. split; [lia|done].
  - exists j, pid, e. split; [lia|done].
Qed.

(** ** What a process saw was there *)

(** The events a process did before its event [i] are earlier in the history. *)
Lemma before_event pid i e :
  g !! i = Some (pid, e) ->
  exists t1 t2, events_of pid g = t1 ++ e :: t2 /\
    forall e', e' ∈ t1 -> exists j, (j < i)%nat /\ g !! j = Some (pid, e').
Proof.
  intros He. destruct (events_places pid g) as (place & Hp & Hm & Hi).
  destruct (Hi _ _ He) as (n & Hn & <-). exists (take n (events_of pid g)), (drop (S n) (events_of pid g)).
  split; [by rewrite take_drop_middle|]. intros e' (k & Hk)%list_elem_of_lookup.
  apply lookup_take_Some in Hk as [Hk Hlt]. exists (place k). split; [|by apply Hp].
  apply Hm. split; [done|]. by eapply lookup_lt_Some.
Qed.

Lemma records_read (hist : history g at_) j pid where_ records :
  g !! j = Some (pid, Event (ReadRecords where_) (Ok records)) -> records = records_at j where_.
Proof. intros [[E _]|[[? ?] _]]%hist; [by injection E|done]. Qed.

Lemma withdrawals_read (hist : history g at_) j pid where_ withdrawals :
  g !! j = Some (pid, Event (ReadWithdrawals where_) (Ok withdrawals)) -> withdrawals = withdrawals_at j where_.
Proof. intros [[E _]|[[? ?] _]]%hist; [by injection E|done]. Qed.

Lemma leases_read (hist : history g at_) j pid where_ leases :
  g !! j = Some (pid, Event (ReadLeases where_) (Ok leases)) -> leases = leases_at j where_.
Proof. intros [[E _]|[[? ?] _]]%hist; [by injection E|done]. Qed.

Lemma record_created (hist : history g at_) j pid where_ pos text :
  g !! j = Some (pid, Event (CreateRecord where_ pos text) (Ok true)) ->
  records_at j where_ !! pos = None /\ records_at (S j) where_ !! pos = Some text.
Proof.
  intros [[E Hs]|[[? ?] _]]%hist; [|done]. injection E as E. destruct (_ !! pos) eqn:En; [done|]. split; [done|].
  rewrite Hs. cbn. rewrite created_lookup, En. by rewrite decide_True.
Qed.

Lemma held_empty {V} (where_ : slot) (m : gmap slot V) none : m = ∅ -> held where_ m none = none.
Proof. intros ->. unfold held. by rewrite lookup_empty. Qed.

(** ** The chains of revisions *)

Definition record_row i where_ (a r : Z) (record : LedgerRecord) : Prop :=
  records_at i where_ !! (a, r) = Some (dump_record record) /\ record_valid record = true /\ attempt record = a /\
  slot_of self_project (key record) = Ok where_.

(** Each record revision is the first of its attempt, a claim, or a legal change of the one before it *)
Definition record_chain i : Prop := forall where_ a r text, records_at i where_ !! (a, r) = Some text ->
  0 <= r /\ exists record, text = dump_record record /\ record_row i where_ a r record /\
    (r = 0 /\ state record = LedgerState.SUBMITTING \/
     exists before, record_row i where_ a (r - 1) before /\ check_transition before record = Ok tt).

Lemma transition_not_submitting before after : check_transition before after = Ok tt -> state after <> LedgerState.SUBMITTING.
Proof.
  intros (_ & _ & _ & _ & _ & Hs & _)%check_transition_Ok E. rewrite E in Hs.
  destruct (state before); cbn in Hs; set_solver.
Qed.

(** What is lawful of an event, with its process's earlier events earlier in the history *)
Lemma lawful_event (w : world) i pid c r :
  g !! i = Some (pid, Event c r) ->
  exists t1, lawful self_project (who pid) t1 c /\ forall e', e' ∈ t1 -> exists j, (j < i)%nat /\ g !! j = Some (pid, e').
Proof.
  intros (t1 & t2 & E & Ht)%before_event. exists t1. split; [|done]. by eapply (world_lawful w).
Qed.

Lemma created_valid (w : world) j pid where_ a r record answer_ :
  g !! j = Some (pid, Event (CreateRecord where_ (a, r) (dump_record record)) answer_) ->
  record_valid record = true /\ attempt record = a /\ slot_of self_project (key record) = Ok where_.
Proof.
  intros (t1 & (record' & E & <- & Hs & Hv & _) & _)%(lawful_event w).
  apply eq_sym, dump_record_inj in E as <-; [|done]. done.
Qed.

(** A record read or created before the event [i] is the one stored *)
Lemma known_row (w : world) i pid t1 where_ record r :
  (i <= length g)%nat -> record_chain i ->
  (forall e', e' ∈ t1 -> exists j, (j < i)%nat /\ g !! j = Some (pid, e')) ->
  known self_project t1 where_ record r -> record_row i where_ (attempt record) r record.
Proof.
  intros Hi Hc Hearlier [Hs Hk]. pose proof (world_history w) as hist.
  destruct Hk as [[-> Hin]|(e1 & He1 & <- & Hr)].
  - destruct (Hearlier _ Hin) as (j & Hj & Hgj). pose proof (created_valid w _ _ _ _ _ _ _ Hgj) as (Hv & _ & _).
    apply (record_created hist) in Hgj as [_ Ht].
    split_and!; [|done..]. eapply stored_stays; [done| |exact Ht]. lia.
  - pose proof (read_in_valid _ _ _ _ He1) as Hv. destruct He1 as (rs & ws & ls & Hin & _ & _ & Hsh).
    destruct (Hearlier _ Hin) as (j & Hj & Hgj). apply (records_read hist) in Hgj as ->.
    destruct (shows_record _ _ _ _ _ Hsh) as (text & Ht & Hd).
    assert (Hti : records_at i where_ !! (attempt (entry_record e1), entry_revision e1) = Some text).
    { eapply stored_stays; [done| |exact Ht]. lia. }
    destruct (Hc _ _ _ _ Hti) as [Hge (record & -> & Hrow & Hfirst)].
    assert (record = entry_record e1) as -> by (destruct Hrow as (_ & Hv' & _); rewrite record_decodes in Hd by done; by injection Hd).
    destruct Hr as [->|[-> Hsub]]; [done|]. destruct Hfirst as [[E _]|(before & _ & Hbad)]; [by rewrite <- E|].
    by apply transition_not_submitting in Hbad.
Qed.

Lemma record_row_stays (hist : history g at_) i j where_ a r record :
  (i <= j <= length g)%nat -> record_row i where_ a r record -> record_row j where_ a r record.
Proof. intros Hij (Ht & ? & ? & ?). split_and!; [|done..]. by eapply stored_stays. Qed.

Lemma record_chain_step (w : world) i : (S i <= length g)%nat -> record_chain i -> record_chain (S i).
Proof.
  intros Hi Hc where_ a r text Ht. pose proof (world_history w) as hist.
  destruct (lookup_lt_is_Some_2 g i) as [[pid e] He]; [lia|].
  assert (Hstay : forall a r record, record_row i where_ a r record -> record_row (S i) where_ a r record).
  { intros *. apply record_row_stays; [done|lia]. }
  destruct (served_records _ _ _ _ _ _ (hist _ _ _ He) Ht) as [Ht'|Hcall].
  - destruct (Hc _ _ _ _ Ht') as [Hr (record & -> & Hrow & Hfirst)]. split; [done|]. exists record.
    split_and!; [done|by apply Hstay|]. destruct Hfirst as [?|(before & ? & ?)]; [by left|right].
    exists before. split; [by apply Hstay|done].
  - destruct e as [c ans]. cbn in Hcall. subst c.
    destruct (lawful_event w _ _ _ _ He) as (t1 & (record & -> & Ha & Hs & Hv & Hreason) & Hearlier).
    assert (Hrow : record_row (S i) where_ a r record) by done.
    destruct Hreason as [(-> & Hsub & _)|(before & Hk & Htr)].
    + split; [done|]. exists record. split_and!; [done..|]. by left.
    + apply (known_row w i pid t1) in Hk; [|lia|done..]. pose proof Htr as (_ & _ & Hab & _)%check_transition_Ok.
      rewrite Hab, Ha in Hk. pose proof Hk as (Hkt & _). destruct (Hc _ _ _ _ Hkt) as [Hge _]. split; [lia|].
      exists record. split_and!; [done..|]. right. exists before. split; [by apply Hstay|done].
Qed.

Lemma records_chained (w : world) i : (i <= length g)%nat -> record_chain i.
Proof.
  induction i as [|i IH]; intros Hi; [|apply record_chain_step; [done..|apply IH; lia]].
  intros where_ a r text. rewrite (world_starts w). cbn. by rewrite held_empty, lookup_empty.
Qed.

(** ** The chains of withdrawal revisions *)

Definition withdrawal_row i where_ (a k : Z) (document : WithdrawalDocument) : Prop :=
  exists written, withdrawals_at i where_ !! (a, k) = Some (dump_withdrawal document, written) /\
    withdrawal_valid document = true /\ document_attempt document = a.

(** Each withdrawal revision is the first of its attempt, or follows the one before it: a mark follows an
    undoing, and an undoing a mark *)
Definition withdrawal_chain i : Prop := forall where_ a k row, withdrawals_at i where_ !! (a, k) = Some row ->
  0 <= k /\ exists document, withdrawal_row i where_ a k document /\
    (k = 0 \/ exists before, withdrawal_row i where_ a (k - 1) before) /\
    (exists r record, record_row i where_ a r record) /\
    match document with
    | Mark _ => k = 0 \/ exists before, withdrawal_row i where_ a (k - 1) (WithdrawalUndone before)
    | WithdrawalUndone _ => exists mark, withdrawal_row i where_ a (k - 1) (Mark mark)
    end.

Lemma withdrawal_row_stays (hist : history g at_) i j where_ a k document :
  (i <= j <= length g)%nat -> withdrawal_row i where_ a k document -> withdrawal_row j where_ a k document.
Proof. intros Hij (written & Ht & ? & ?). exists written. split_and!; [|done..]. by eapply stored_stays. Qed.

Lemma withdrawal_row_inj i where_ a k d d' : withdrawal_row i where_ a k d -> withdrawal_row i where_ a k d' -> d = d'.
Proof. intros (w1 & E1 & _ & _) (w2 & E2 & _ & _). rewrite E1 in E2. injection E2 as E2 _. by apply dump_withdrawal_inj. Qed.

(** What a read shows of the withdrawal revisions *)
Lemma shown_withdrawal (hist : history g at_) j key' records leases e where_ :
  (j <= length g)%nat -> withdrawal_chain j -> shows key' records (withdrawals_at j where_) leases e ->
  (forall k d, withdrawal_row j where_ (attempt (entry_record e)) k d -> k <= entry_withdrawal_revision e) /\
  (entry_withdrawal e = None /\ entry_withdrawal_revision e = -1 /\
     (forall k row, withdrawals_at j where_ !! (attempt (entry_record e), k) <> Some row) \/
   exists document, withdrawal_row j where_ (attempt (entry_record e)) (entry_withdrawal_revision e) document /\
     entry_withdrawal e = match document with Mark mark => Some mark | WithdrawalUndone _ => None end).
Proof.
  intros Hj Hc Hsh. split.
  - intros k d (written & Ht & _). by eapply shows_latest_mark.
  - destruct (shows_mark _ _ _ _ _ Hsh) as [(Hn & -> & ->)|(text & written & Ht & Hd)]; [by left|right].
    destruct (Hc _ _ _ _ Ht) as [_ (document & Hrow & _)]. exists document. split; [done|].
    destruct Hrow as (written' & Ht' & Hv & Ha). rewrite Ht in Ht'. injection Ht' as -> _.
    rewrite <- Ha, withdrawal_decodes in Hd by done. by destruct document.
Qed.

Lemma withdrawal_chain_step (w : world) i :
  (S i <= length g)%nat -> (forall j, (j <= i)%nat -> withdrawal_chain j) -> withdrawal_chain (S i).
Proof.
  intros Hi Hc where_ a k row Ht. pose proof (world_history w) as hist.
  destruct (lookup_lt_is_Some_2 g i) as [[pid e] He]; [lia|].
  assert (Hstay : forall j k document, (j <= i)%nat -> withdrawal_row j where_ a k document -> withdrawal_row (S i) where_ a k document).
  { intros *. intros Hj. apply withdrawal_row_stays; [done|lia]. }
  destruct (served_withdrawals _ _ _ _ _ _ (hist _ _ _ He) Ht) as [Ht'|Hcall].
  - destruct (Hc i ltac:(lia) _ _ _ _ Ht') as [Hk (document & Hrow & Hprev & (r & record & Hr) & Hkind)]. split; [done|]. exists document.
    split_and!; [by eapply Hstay| |exists r, record; eapply record_row_stays; [done| |done]; lia|].
    + destruct Hprev as [?|(b & ?)]; [by left|right; exists b; by eapply Hstay].
    + destruct document; [destruct Hkind as [?|(b & ?)]; [by left|right; exists b; by eapply Hstay]|].
      destruct Hkind as (m & ?). exists m. by eapply Hstay.
  - destruct e as [c ans], row as [text written]. cbn in Hcall. subst c.
    destruct (lawful_event w _ _ _ _ He) as (t1 & (e1 & document & He1 & -> & -> & -> & Hv & Hcheck & Hkind) & Hearlier).
    assert (Hrow : withdrawal_row (S i) where_ (attempt (entry_record e1)) (entry_withdrawal_revision e1 + 1) document).
    { exists written. split_and!; [done..|]. unfold check_withdrawal in Hcheck.
      apply rbind_Ok in Hcheck as ([] & E%ensure_Ok & _). by apply Z.eqb_eq in E. }
    assert (Hrec : exists r record, record_row (S i) where_ (attempt (entry_record e1)) r record).
    { exists (entry_revision e1), (entry_record e1). apply (record_row_stays hist i); [lia|].
      apply (known_row w i pid t1); [lia|apply records_chained; [done|lia]|done|by apply read_in_known]. }
    destruct He1 as (rs & ws & ls & _ & Hws & _ & Hsh). destruct (Hearlier _ Hws) as (j & Hj & Hgj).
    apply (withdrawals_read hist) in Hgj as ->.
    destruct (shown_withdrawal hist j _ _ _ _ _ ltac:(lia) (Hc j ltac:(lia)) Hsh) as [_ Hshown].
    unfold check_withdrawal in Hcheck. apply rbind_Ok in Hcheck as ([] & _ & Hcheck).
    destruct Hshown as [(En & Er & _)|(before & Hbefore & En)].
    + split; [lia|]. exists document. split_and!; [done|left; lia|done|]. destruct document; [left; lia|].
      apply ensure_Ok in Hcheck. by rewrite En in Hcheck.
    + pose proof Hbefore as (wr & Hbt & _). destruct (Hc j ltac:(lia) _ _ _ _ Hbt) as [Hge _]. split; [lia|].
      exists document. rewrite Z.add_simpl_r. split_and!; [done|right; exists before; eapply Hstay; [|done]; lia|done|].
      destruct document as [mark|a'].
      * apply rbind_Ok in Hcheck as ([] & _ & Hcheck%ensure_Ok). rewrite En in Hcheck. destruct before; [done|].
        right. eexists. eapply Hstay; [|done]. lia.
      * apply ensure_Ok in Hcheck. rewrite En in Hcheck. destruct before as [m|]; [|done]. exists m. eapply Hstay; [|done]. lia.
Qed.

Lemma withdrawals_chained (w : world) i : (i <= length g)%nat -> withdrawal_chain i.
Proof.
  induction i as [i IH] using lt_wf_ind. intros Hi. destruct i as [|i].
  - intros where_ a r row. rewrite (world_starts w). cbn. by rewrite held_empty, lookup_empty.
  - apply withdrawal_chain_step; [done..|]. intros j Hj. apply IH; lia.
Qed.
End World.

(** ** Worlds of processes that take turns *)

Lemma empty_world `{codec : LedgerCodec} project who : world project who [] (store_at []).
Proof. split; [by intros ?|done|]. by intros pid [|]. Qed.

Lemma turn_world `{codec : LedgerCodec} outside project who g pid {A} (p : prog A) :
  world project who g (store_at g) ->
  always (lawful project (who pid)) (fun _ _ => True) (events_of pid g) p ->
  world project who (turn outside pid p g) (store_at (turn outside pid p g)).
Proof.
  intros w Hp. split; [by apply turn_history, (world_history _ _ _ _ w)|done|]. intros pid' t1 c r t2. rewrite events_turn.
  destruct (Nat.eqb_spec pid pid') as [<-|]; [|rewrite app_nil_r; apply (world_lawful _ _ _ _ w)].
  intros (l2 & [[E1 E2]|[-> E]])%app_eq_app; [|
    pose proof (exec_run outside p (store_at g (length g))) as Hrun; rewrite E in Hrun; by apply (always_call _ _ _ _ _ _ _ _ _ Hp Hrun)].
  destruct l2 as [|e l2].
  - rewrite app_nil_r in E1. cbn in E2. pose proof (exec_run outside p (store_at g (length g))) as Hrun. rewrite <- E2 in Hrun.
    pose proof (always_call _ _ _ _ [] _ _ _ _ Hp Hrun) as Hl. rewrite app_nil_r in Hl. by rewrite <- E1.
  - injection E2 as <- E2. by apply (world_lawful _ _ _ _ w _ _ _ _ _ E1).
Qed.
