(* ===== verification/SlurmClients.v ===== *)
(** * The processes of a ledger

    What the processes that share a ledger run: a run the methods of its attachment, one at a time and
    in any order, whatever they returned or raised; [vibesys evals remove] withdrawals.  Each may end, or
    be killed, at any call.  A world of such processes is one of clients that write with reason
    ([SlurmWorld.world]). *)

From S2P Require Import Prelude PyFloat SlurmStates SlurmOutcomes SlurmLedger SlurmProg SlurmStore SlurmEntry SlurmActions SlurmAttach SlurmSim SlurmLawful SlurmLawfulRun SlurmWorld.

(** ** Operations one after another *)

Section Sessions.
Context `{codec : LedgerCodec} {S O A : Type} (perform : O -> S -> prog (S * A)).

(** The events of a process in the state [s]: of the operations it was asked, the last perhaps cut *)
Inductive session : S -> list event -> Prop :=
  | session_idle s : session s []
  | session_cut s o t rest : run (perform o s) t rest -> session s t
  | session_next s o t s' a t' : run (perform o s) t (Ret (s', a)) -> session s' t' -> session s (t ++ t').

Lemma session_always (J : list event -> call -> Prop) (I : list event -> S -> Prop) s t h :
  (forall h o s, I h s -> always J (fun h' '(s', _) => I h' s') h (perform o s)) ->
  I h s -> session s t -> forall t1 c r t2, t = t1 ++ Event c r :: t2 -> J (h ++ t1) c.
Proof.
  intros Hp HI Ht. revert h HI. induction Ht as [s|s o t rest Hrun|s o t s' a t' Hrun _ IH]; intros h HI t1 c r t2 E.
  - by destruct t1.
  - rewrite E in Hrun. eapply always_call; [by apply Hp|exact Hrun].
  - pose proof (always_result _ _ _ _ _ _ (Hp h o s HI) Hrun) as HI'.
    apply app_eq_app in E as (l2 & [[E1 E2]|[-> E]]).
    + destruct l2 as [|e l2].
      * cbn in E2. rewrite app_nil_r in E1. subst t. rewrite <- (app_nil_r t1), app_assoc.
        by eapply (IH _ HI' [] c r t2).
      * injection E2 as <- ->. rewrite E1 in Hrun. eapply always_call; [by apply Hp|exact Hrun].
    + rewrite app_assoc. by eapply (IH _ HI').
Qed.
End Sessions.

(** ** The operations of a run, and of an operator *)

Inductive operation : Type :=
  | Attach (request : SlurmBatchRequest) (labels' : LedgerLabels) (key' : string)
  | Renew (key' : string)
  | Release (key' : string)
  | Heartbeat (key' operation_id' : string)
  | Settle (key' operation_id' : string) (status : SlurmJobStatus) (collected : option ClusterCollectOutcome)
  | Relinquish (key' : string)
  | Sweep
  | Use (key' user : string)
  | StopUsing (user : string).

Section Processes.
Context `{codec : LedgerCodec}.

(** The call of a method, its result dropped *)
Definition called {A} (m : method A) : method unit := do! _ := m in mret tt.

Definition perform (o : operation) : method unit :=
  match o with
  | Attach request labels' key' => called (attach request labels' key')
  | Renew key' => att_renew key'
  | Release key' => att_release key'
  | Heartbeat key' operation_id' => heartbeat key' operation_id'
  | Settle key' operation_id' status collected => att_settle key' operation_id' status collected
  | Relinquish key' => called (att_relinquish key')
  | Sweep => called sweep_if_due
  | Use key' user => assign (use key' user)
  | StopUsing user => assign (stop_using user)
  end.

(** [_remove] of [evals.py], of one key: the operator's withdrawals name their command *)
Definition remove (self_project : string) (remover : Withdrawer) (key' : string) (_ : unit)
  : prog (unit * result Raised WithdrawOutcome) :=
  let% outcome := withdraw self_project key' remover None in Ret (tt, outcome).

Inductive Process : Type :=
  | Run (self : Attachment)
  | Operator (remover : Withdrawer).

(** A process as it is made for a project *)
Definition made (self_project : string) (p : Process) : Prop :=
  match p with
  | Run self => exists holder' policy timeout writer sweep_writer,
      attachment self_project holder' policy timeout writer sweep_writer = Ok self
  | Operator _ => True
  end.

(** What it does *)
Definition does (self_project : string) (p : Process) (t : list event) : Prop :=
  match p with
  | Run self => session perform self t
  | Operator remover => session (remove self_project remover) tt t
  end.

(** Its leases and its marks *)
Definition client (p : Process) : Client :=
  match p with
  | Run self => run_client self
  | Operator remover => {| is_holder := fun _ => false; is_mine := fun mark => wrote remover (Some mark) |}
  end.

(** A world of such processes, from an empty storage: their calls interleave in any order, and any call of
    the storage may fail, before or after its effect ([SlurmProg.history]) *)
Record played (self_project : string) (processes : nat -> Process) (g : list (nat * event)) (at_ : nat -> Store) : Prop := {
  played_history : history g at_;
  played_starts : at_ 0%nat = empty_store;
  played_made pid : made self_project (processes pid);
  played_does pid : does self_project (processes pid) (events_of pid g)
}.

(** ** Every write of a process has its reason *)

Lemma stop_using_kept self0 h user self : kept self0 h self -> kept self0 h (stop_using user self).
Proof. intros []. unfold stop_using. destruct (att_used self !! user); by constructor. Qed.

Lemma perform_fine self0 o h : withdrawer_by (att_withdrawer self0) = att_holder self0 -> fine self0 (perform o) h.
Proof.
  intros Hby. destruct o; cbn [perform].
  - eapply fine_bind; [apply attach_fine|]. intros. apply fine_ret.
  - apply renew_fine.
  - apply release_fine.
  - apply heartbeat_fine.
  - apply att_settle_fine.
  - eapply fine_bind; [by apply relinquish_fine|]. intros. apply fine_ret.
  - eapply fine_bind; [apply sweep_if_due_fine|]. intros. apply fine_ret.
  - apply fine_assign. intros self Hk. unfold use. destruct (att_used self !! user) as [before|]; [destruct (eqb _ _)|];
      [|destruct (stop_using_kept _ _ user _ Hk)|]; destruct Hk; by constructor.
  - apply fine_assign. intros self. apply stop_using_kept.
Qed.

Lemma attachment_Ok self_project holder' policy timeout writer sweep_writer self :
  attachment self_project holder' policy timeout writer sweep_writer = Ok self ->
  att_project self = self_project /\ att_claimed_here self = ∅ /\ withdrawer_by (att_withdrawer self) = att_holder self.
Proof. unfold attachment. intros H. rinvert H. by simplify_eq. Qed.

Lemma does_lawful self_project p t : made self_project p -> does self_project p t ->
  forall t1 c r t2, t = t1 ++ Event c r :: t2 -> lawful self_project (client p) t1 c.
Proof.
  destruct p as [self|remover]; cbn [made does client].
  - intros (holder' & policy & timeout & writer & sweep_writer & (<- & Hc & Hby)%attachment_Ok) Ht.
    apply (session_always perform (lawful (att_project self) (run_client self)) (kept self) self t []); [|by apply kept_fresh|done].
    intros h o s Hk. eapply always_post; [by apply perform_fine|]. by intros t' [s' r] [? _].
  - intros _ Ht. apply (session_always (remove self_project remover) _ (fun _ _ => True) tt t []); [|done..]. intros h key' [] _. unfold remove.
    apply always_bind. eapply always_post; [by apply withdraw_lawful|done].
Qed.

Lemma played_world self_project processes g at_ :
  played self_project processes g at_ -> world self_project (fun pid => client (processes pid)) g at_.
Proof.
  intros [Hh Hs Hm Hd]. split; [done..|]. intros pid. by apply does_lawful.
Qed.
End Processes.
