(* ===== verification/SlurmSafe.v ===== *)
(** * What the clients of a ledger never do to each other

    No withdrawal cancels the job a run is attached to; the records of an attempt follow its state
    machine; a job is submitted by one process. *)

From stdpp Require Import pretty.
From S2P Require Import Prelude PyFloat SlurmStates SlurmOutcomes SlurmLedger SlurmProg SlurmStore SlurmEntry SlurmActions SlurmAttach SlurmSim SlurmLawful SlurmLawfulRun SlurmCancel SlurmAttached SlurmWorld SlurmClients.

Lemma prefix_inj (s a b : string) : s +:+ a = s +:+ b -> a = b.
Proof. induction s as [|c s IH]; cbn; [done|]. intros [= E]. by apply IH. Qed.

(** The operation of an attempt names it, within its request *)
Lemma operation_attempt a b :
  record_valid a = true -> record_valid b = true -> key a = key b -> operation_id a = operation_id b ->
  attempt a = attempt b.
Proof.
  intros Ha Hb Hk Ho. unfold record_valid, record_consistent in Ha, Hb. rewrite !andb_true_iff in Ha, Hb.
  destruct_and? Ha. destruct_and? Hb. unfold ledger_operation_id in *. rewrite <- Hk in *.
  destruct (validate_key (key a)) as [k|]; cbn [rbind] in *; [|done].
  repeat match goal with H : eqb (operation_id _) _ = true |- _ => apply eqb_eq in H end.
  assert (E : pretty (attempt a) = pretty (attempt b)); [|by apply (inj pretty) in E].
  assert (E : "ev-" +:+ String.substring 0 48 (key a) +:+ "-" +:+ pretty (attempt a) =
              "ev-" +:+ String.substring 0 48 (key a) +:+ "-" +:+ pretty (attempt b)) by congruence.
  by do 3 apply prefix_inj in E.
Qed.

Lemma attempt_operation a b :
  record_valid a = true -> record_valid b = true -> key a = key b -> attempt a = attempt b ->
  operation_id a = operation_id b.
Proof.
  intros Ha Hb Hk Ho. unfold record_valid, record_consistent in Ha, Hb. rewrite !andb_true_iff in Ha, Hb.
  destruct_and? Ha. destruct_and? Hb. rewrite <- Hk, <- Ho in *. destruct (ledger_operation_id _ _); [|done].
  repeat match goal with H : eqb (operation_id _) _ = true |- _ => apply eqb_eq in H end. congruence.
Qed.

(** The documents of a request name it *)
Lemma slot_of_inj project key' key'' where_ : slot_of project key' = Ok where_ -> slot_of project key'' = Ok where_ -> key' = key''.
Proof.
  unfold slot_of, validate_key, ensure, rbind. destruct (is_key key'), (is_key key''); try done.
  cbn. by intros [= <-] [= ->].
Qed.

Section Safe.
Context `{codec : LedgerCodec} {laws : LedgerCodecLaws codec} (self_project : string) (who : nat -> Client).
Context (g : list (nat * event)) (at_ : nat -> Store) (w : world self_project who g at_).
Let hist : history g at_ := world_history _ _ _ _ w.
Abbreviation records_at i where_ := (held where_ (store_records (at_ i)) ∅).
Abbreviation withdrawals_at i where_ := (held where_ (store_withdrawals (at_ i)) ∅).
Abbreviation leases_at i where_ := (held where_ (store_leases (at_ i)) ∅).
Abbreviation record_row := (record_row self_project at_).
Abbreviation withdrawal_row := (withdrawal_row at_).

(** ** The chains, end to end *)

Lemma record_below i where_ a r record (Hi : (i <= length g)%nat) :
  record_row i where_ a r record -> forall q, 0 <= q <= r -> exists record', record_row i where_ a q record'.
Proof.
  intros Hrow q Hq. remember (Z.to_nat (r - q)) as n eqn:En. revert r record Hrow Hq En.
  induction n as [|n IH]; intros r record Hrow Hq En; [assert (r = q) as -> by lia; by exists record|].
  pose proof Hrow as (Ht & _). destruct (records_chained _ _ _ _ w i Hi _ _ _ _ Ht) as [_ (record' & _ & _ & Hprev)].
  destruct Hprev as [[-> _]|(before & Hb & _)]; [lia|]. apply (IH (r - 1) before); [done|lia|lia].
Qed.

Lemma record_row_inj i where_ a r record record' :
  record_row i where_ a r record -> record_row i where_ a r record' -> record = record'.
Proof. intros (E1 & Hv & _) (E2 & _). rewrite E1 in E2. injection E2 as E2. by apply dump_record_inj in E2. Qed.

(** The entry of a read shows the record that was stored. *)
Lemma shown_record j key' where_ ws ls e (Hj : (j <= length g)%nat) :
  shows key' (records_at j where_) ws ls e ->
  record_row j where_ (attempt (entry_record e)) (entry_revision e) (entry_record e).
Proof.
  intros Hsh. destruct (shows_record _ _ _ _ _ Hsh) as (text & Ht & Hd).
  destruct (records_chained _ _ _ _ w j Hj _ _ _ _ Ht) as [_ (record & -> & Hrow & _)].
  destruct Hrow as (Ht' & Hv & Hrest). rewrite record_decodes in Hd by done. injection Hd as ->.
  exact (conj Ht' (conj Hv Hrest)).
Qed.

(** A record created is there from then on. *)
Lemma created_row i pid where_ a r record :
  g !! i = Some (pid, Event (CreateRecord where_ (a, r) (dump_record record)) (Ok true)) ->
  forall j, (i < j <= length g)%nat -> record_row j where_ a r record.
Proof.
  intros Hi j Hj. pose proof (created_valid _ _ _ _ w _ _ _ _ _ _ _ Hi) as (? & ? & ?).
  apply (record_row_stays _ _ _ hist (S i)); [lia|]. split; [|done]. by apply (record_created _ _ hist) in Hi as [_ ?].
Qed.

(** What follows a record in its attempt *)
Lemma record_next i where_ a r record after (Hi : (i <= length g)%nat) :
  record_row i where_ a r record -> record_row i where_ a (r + 1) after -> check_transition record after = Ok tt.
Proof.
  intros Hrow Hafter. pose proof Hafter as (Ht & Hv & _).
  pose proof Hrow as (Hrt & _). destruct (records_chained _ _ _ _ w i Hi _ _ _ _ Hrt) as [Hr _].
  destruct (records_chained _ _ _ _ w i Hi _ _ _ _ Ht) as [_ (record' & E & Hrow' & Hprev)].
  apply dump_record_inj in E as ->; [|done]. destruct Hprev as [[? _]|(before & Hb & Hc)]; [lia|].
  rewrite Z.add_simpl_r in Hb. by rewrite (record_row_inj _ _ _ _ _ _ Hrow Hb).
Qed.

(** An attempt withdrawn while it was being submitted never names a job. *)
Lemma withdrawn_unsubmitted i where_ a r before withdrawn q record (Hi : (i <= length g)%nat) :
  record_row i where_ a r before -> state before = LedgerState.SUBMITTING ->
  record_row i where_ a (r + 1) withdrawn -> state withdrawn = LedgerState.WITHDRAWN ->
  record_row i where_ a q record -> state record ∈ NAMES_A_JOB -> False.
Proof.
  intros Hb Hsub Hw Hst Hq Hjob. pose proof Hb as (Hbt & _). pose proof Hq as (Hqt & _).
  destruct (records_chained _ _ _ _ w i Hi _ _ _ _ Hbt) as [Hr (b & E & Hrow & Hfirst)].
  rewrite (record_row_inj _ _ _ _ _ _ Hrow Hb) in *.
  assert (r = 0) as ->.
  { destruct Hfirst as [[-> _]|(x & _ & Hbad)]; [done|]. by apply transition_not_submitting in Hbad. }
  destruct (records_chained _ _ _ _ w i Hi _ _ _ _ Hqt) as [Hq0 _].
  destruct (decide (q = 0)) as [->|]; [rewrite (record_row_inj _ _ _ _ _ _ Hq Hb), Hsub in Hjob; set_solver|].
  destruct (decide (q = 1)) as [->|]; [rewrite (record_row_inj _ _ _ _ _ _ Hq Hw), Hst in Hjob; set_solver|].
  destruct (record_below _ _ _ _ _ Hi Hq 2) as (third & Hthird); [lia|].
  pose proof (record_next i where_ a 1 _ _ Hi Hw Hthird) as (_ & _ & _ & _ & _ & Hn & _)%check_transition_Ok.
  rewrite Hst in Hn. by apply not_elem_of_nil in Hn.
Qed.

Lemma withdrawal_below i where_ a k document (Hi : (i <= length g)%nat) :
  withdrawal_row i where_ a k document -> forall q, 0 <= q <= k -> exists document', withdrawal_row i where_ a q document'.
Proof.
  intros Hrow q Hq. remember (Z.to_nat (k - q)) as n eqn:En. revert k document Hrow Hq En.
  induction n as [|n IH]; intros k document Hrow Hq En; [assert (k = q) as -> by lia; by exists document|].
  pose proof Hrow as (written & Ht & _). destruct (withdrawals_chained _ _ _ _ w i Hi _ _ _ _ Ht) as [_ (d & _ & Hprev & _)].
  destruct Hprev as [->|(before & Hb)]; [lia|]. apply (IH (k - 1) before); [done|lia|lia].
Qed.

(** ** Places *)

(** The events of a process at a place of its own list, and after it *)
Lemma placed pid l1 e l2 (E : events_of pid g = l1 ++ e :: l2) :
  exists i, g !! i = Some (pid, e) /\
    (forall e', e' ∈ l2 -> exists j, (i < j)%nat /\ g !! j = Some (pid, e')) /\
    (forall e', e' ∈ l1 -> exists j, (j < i)%nat /\ g !! j = Some (pid, e')) /\
    (forall j e', (i < j)%nat -> g !! j = Some (pid, e') -> e' ∈ l2).
Proof.
  destruct (events_places pid g) as (place & Hp & Hm & Hi). exists (place (length l1)).
  assert (Hlen : (length l1 < length (events_of pid g))%nat) by (rewrite E, length_app; cbn; lia).
  split_and!.
  - apply Hp. by rewrite E, lookup_app_r, Nat.sub_diag by lia.
  - intros e' (n & Hn)%list_elem_of_lookup. exists (place (S (length l1 + n))).
    assert (Hl : events_of pid g !! S (length l1 + n) = Some e').
    { rewrite E, lookup_app_r by lia. by replace (S (length l1 + n) - length l1)%nat with (S n) by lia. }
    split; [|by apply Hp]. apply Hm. pose proof (lookup_lt_Some _ _ _ Hl). lia.
  - intros e' (n & Hn)%list_elem_of_lookup. exists (place n). pose proof (lookup_lt_Some _ _ _ Hn).
    split; [apply Hm; lia|]. apply Hp. by rewrite E, lookup_app_l.
  - intros j e' Hj He'. destruct (Hi _ _ He') as (n & Hn & <-).
    assert (Hlt : (length l1 < n)%nat).
    { destruct (Nat.lt_total (length l1) n) as [?|[<-|Hlt]]; [done|by apply Nat.lt_irrefl in Hj|].
      assert (place n < place (length l1))%nat; [by apply Hm|]. by apply (Nat.lt_asymm _ _ Hj) in H. }
    rewrite E, lookup_app_r in Hn by lia. replace (n - length l1)%nat with (S (n - length l1 - 1)) in Hn by lia.
    cbn in Hn. by eapply list_elem_of_lookup_2.
Qed.

Lemma place_in i pid e : g !! i = Some (pid, e) -> (i < length g)%nat.
Proof. apply lookup_lt_Some. Qed.

(** ** A lease its run keeps is there to be read *)

Lemma lease_stays pid holder' where_ l lease written :
  (forall pid', pid' <> pid -> is_holder (who pid') holder' = false) -> valid_operation_id holder' = true ->
  holder lease = holder' ->
  g !! l = Some (pid, Event (PutLease where_ holder' (dump_lease lease) written) (Ok tt)) ->
  (forall m r, (l <= m)%nat -> g !! m <> Some (pid, Event (DropLease where_ holder') r)) ->
  forall j, (l < j <= length g)%nat ->
    exists lease' written' m r, (l <= m)%nat /\ leases_at j where_ !! holder' = Some (dump_lease lease', written') /\
      holder lease' = holder' /\ g !! m = Some (pid, Event (PutLease where_ holder' (dump_lease lease') written') r).
Proof.
  intros Hown Hv Hh Hl Hkeep j [Hj Hlen]. induction j as [|j IH]; [lia|].
  destruct (decide (j = l)) as [->|Hne].
  - exists lease, written, l, (Ok tt). split_and!; [lia| |done|done].
    destruct (hist _ _ _ Hl) as [[_ Hs]|[[? ?] _]]; [|done]. rewrite Hs. cbn. by rewrite held_insert, decide_True, lookup_insert_eq.
  - destruct IH as (lease' & written' & m & r & Hm & Hlook & Hh' & Hgm); [lia..|].
    destruct (lookup_lt_is_Some_2 g j) as [[pid' [c ans]] He]; [lia|].
    destruct (serves_effect _ _ _ (hist _ _ _ He)) as [->| ->]; [by eauto 10|]. cbn [event_call].
    assert (Hsame : leases_at j where_ !! holder' = Some (dump_lease lease', written')) by done.
    destruct c as [| | | | |where_' hd text' wr|where_' hd| | | | | |]; cbn; try (by eauto 10); rewrite held_insert;
      (destruct (decide (where_ = where_')) as [<-|Ew]; [|by eauto 10]).
    + destruct (decide (hd = holder')) as [->|Hne']; [|rewrite lookup_insert_ne by done; by eauto 10].
      rewrite lookup_insert_eq.
      destruct (lawful_event _ _ _ _ w _ _ _ _ He) as (t1 & (Hmine & _ & lease2 & -> & Hh2) & _).
      assert (pid' = pid) as ->.
      { destruct (decide (pid' = pid)) as [?|Hp]; [done|]. by rewrite (Hown _ Hp) in Hmine. }
      exists lease2, wr, j, ans. split_and!; [lia|done|done|done].
    + destruct (decide (hd = holder')) as [->|Hne']; [|rewrite lookup_delete_ne by done; by eauto 10].
      exfalso. destruct (lawful_event _ _ _ _ w _ _ _ _ He) as (t1 & Hmine & _). cbn in Hmine.
      destruct (decide (pid' = pid)) as [->|Hp]; [|by rewrite (Hown _ Hp) in Hmine]. eapply (Hkeep j); [lia|exact He].
Qed.
End Safe.

(** C6: whatever the runs and operators of a ledger do, in whatever order, wherever they are killed, and
    whichever of their calls the storage fails, every record stored is the valid record of its request and
    attempt; the first revision of an attempt is being submitted, and every other is a legal change of the
    revision before it, which is stored too: it moves to a next state, keeps what the attempt is, whose it
    is and the job it names. *)
Theorem stored_records_legal `{codec : LedgerCodec} {laws : LedgerCodecLaws codec} project processes g at_ i where_ a r text :
  played project processes g at_ -> (i <= length g)%nat ->
  held where_ (store_records (at_ i)) ∅ !! (a, r) = Some text ->
  0 <= r /\ exists record, text = dump_record record /\ record_valid record = true /\ attempt record = a /\
    slot_of project (key record) = Ok where_ /\
    (r = 0 /\ state record = LedgerState.SUBMITTING \/
     exists before, held where_ (store_records (at_ i)) ∅ !! (a, r - 1) = Some (dump_record before) /\
       check_transition before record = Ok tt /\ state record ∈ NEXT_STATES (state before) /\
       operation_id before = operation_id record /\ owner before = owner record /\
       (job before = None \/ job record = job before)).
Proof.
  intros w%played_world Hi Ht. destruct (records_chained _ _ _ _ w i Hi _ _ _ _ Ht) as [Hr (record & E & (_ & Hv & Ha & Hs) & Hfirst)].
  split; [done|]. exists record. split_and!; [done..|]. destruct Hfirst as [?|(before & (Hb & _) & Hc)]; [by left|right].
  exists before. pose proof Hc as (_ & _ & _ & ? & ? & ? & ?)%check_transition_Ok. by split_and!.
Qed.

(** C8: two processes never submit under the operation of one attempt, whatever they and others do and
    whichever calls fail, unless they put forward the very same claim of it (a claim names its holder,
    and when it was made): of the claims of an attempt one is stored, and a process submits only under a
    claim it made and then found stored.  Two requests share an operation only if their keys agree on the
    digits it quotes. *)
Theorem one_submitter `{codec : LedgerCodec} {laws : LedgerCodecLaws codec} project processes g at_ i j p q op request request' r r' :
  played project processes g at_ ->
  (forall m n p q where_ a text r r', g !! m = Some (p, Event (CreateRecord where_ (a, 0) text) r) ->
     g !! n = Some (q, Event (CreateRecord where_ (a, 0) text) r') -> p = q) ->
  g !! i = Some (p, Event (Submit request op) r) -> g !! j = Some (q, Event (Submit request' op) r') ->
  p = q \/
  exists where_ where_' record record', record_row project at_ i where_ (attempt record) 0 record /\
    record_row project at_ j where_' (attempt record') 0 record' /\ key record <> key record' /\
    operation_id record = op /\ operation_id record' = op.
Proof.
  intros w%played_world Hone Hi Hj. pose proof (place_in g _ _ _ Hi) as Hil. pose proof (place_in g _ _ _ Hj) as Hjl.
  pose proof (world_history _ _ _ _ w) as hist.
  destruct (lawful_event _ _ _ _ w _ _ _ _ Hi) as (t1 & (where_ & record & Hk & _ & Hop & _ & r1 & Hput) & Hearlier).
  destruct (lawful_event _ _ _ _ w _ _ _ _ Hj) as (t2 & (where_' & record' & Hk' & _ & Hop' & _ & r2 & Hput') & Hearlier').
  apply (known_row _ _ _ _ w i p t1) in Hk; [|lia|apply (records_chained _ _ _ _ w); lia|done].
  apply (known_row _ _ _ _ w j q t2) in Hk'; [|lia|apply (records_chained _ _ _ _ w); lia|done].
  destruct (decide (key record = key record')) as [Ekey|Hne]; [left|right; exists where_, where_', record, record'; done].
  pose proof Hk as (_ & Hv & _ & Hs). pose proof Hk' as (_ & Hv' & _ & Hs').
  assert (where_' = where_) as -> by (rewrite Ekey, Hs' in Hs; by injection Hs).
  pose proof (operation_attempt _ _ Hv Hv' Ekey ltac:(congruence)) as Eatt. rewrite <- Eatt in Hk'.
  apply (record_row_stays _ _ _ hist _ (length g)) in Hk; [|lia]. apply (record_row_stays _ _ _ hist _ (length g)) in Hk'; [|lia].
  rewrite (record_row_inj _ _ _ _ _ _ _ _ Hk Hk') in Hput.
  destruct (Hearlier _ Hput) as (m & _ & Hm), (Hearlier' _ Hput') as (n & _ & Hn). by eapply Hone.
Qed.

(** ** Two runs, of two requests whose keys agree on their first 48 digits *)

Definition sample_made (run : string) : Attachment :=
  match attachment "project" run sample_policy (of_int 30) run (run +:+ "-sweep") with
  | Ok self => self
  | Err _ => sample_attachment run
  end.
Definition sample_twin : string := "0123456789abcdef0123456789abcdef0123456789abcdeffedcba9876543210".
Definition sample_processes (pid : nat) : Process :=
  match pid with
  | 1%nat => Run (sample_made "run-one")
  | 2%nat => Run (sample_made "run-two")
  | _ => Operator (sample_withdrawer "operator")
  end.
Definition sample_attaching (run key' : string) : prog (Attachment * result Raised unit) :=
  perform (Attach sample_request sample_labels key') (sample_made run).
Definition sample_submission : list (nat * event) :=
  sample_turn 2%nat (sample_attaching "run-two" sample_twin) (sample_turn 1%nat (sample_attaching "run-one" sample_key) []).

Lemma sample_played : played "project" sample_processes sample_submission (store_at sample_submission).
Proof.
  unfold sample_submission, sample_attaching. split.
  - apply turn_history, turn_history. by intros ?.
  - reflexivity.
  - intros [|[|[|pid]]]; [done| | |done].
    + exists "run-one"%string, sample_policy, (of_int 30), "run-one"%string, "run-one-sweep"%string. vm_compute. reflexivity.
    + exists "run-two"%string, sample_policy, (of_int 30), "run-two"%string, "run-two-sweep"%string. vm_compute. reflexivity.
  - intros pid. rewrite !events_turn.
    do 2 match goal with |- context [exec sample_outside ?p ?s] => generalize (exec_run sample_outside p s); generalize (exec sample_outside p s) end.
    intros [t1 [s1 r1]] Hrun1 [t2 [s2 r2]] Hrun2.
    destruct pid as [|[|[|pid]]]; cbn [Nat.eqb app events_of omap sample_processes does fst snd] in *; rewrite ?app_nil_r;
      [apply session_idle| | |apply session_idle]; by eapply session_cut.
Qed.

(** The claims of the two runs are of two requests. *)
Lemma sample_claims m pid where_ a text r :
  sample_submission !! m = Some (pid, Event (CreateRecord where_ (a, 0) text) r) ->
  where_ = ("project"%string, if (pid =? 1)%nat then sample_key else sample_twin) /\ (pid = 1 \/ pid = 2)%nat.
Proof.
  intros Hm%list_elem_of_lookup_2%list_elem_of_In.
  assert (Hall : forallb (fun '(pid, e) => match event_call e with
      | CreateRecord where_ (_, 0) _ =>
          eqb where_ ("project"%string, if (pid =? 1)%nat then sample_key else sample_twin) && ((pid =? 1)%nat || (pid =? 2)%nat)
      | _ => true end) sample_submission = true) by (vm_compute; reflexivity).
  rewrite forallb_forall in Hall. apply Hall in Hm. cbn in Hm. apply andb_true_iff in Hm as [->%eqb_eq Hpid]. split; [done|].
  apply orb_true_iff in Hpid as [->%Nat.eqb_eq| ->%Nat.eqb_eq]; auto.
Qed.

Lemma sample_submits : exists r r',
  sample_submission !! 10%nat = Some (1%nat, Event (Submit sample_request sample_operation) r) /\
  sample_submission !! 24%nat = Some (2%nat, Event (Submit sample_request sample_operation) r').
Proof. do 2 eexists. vm_compute. split; reflexivity. Qed.

(** A run that asks for the request of another attaches to its job, and submits nothing. *)
Example second_run_submits_nothing :
  let s := store_after empty_store (exec sample_outside (sample_attaching "run-one" sample_key) empty_store).1 in
  let second := exec sample_outside (attach sample_request sample_labels sample_key (sample_made "run-two")) s in
  match second.2.2 with Ok (Attached _ op _) => eqb op sample_operation | _ => false end = true /\
  forallb (fun e => match event_call e with Submit _ _ => false | _ => true end) second.1 = true.
Proof. vm_compute. split; reflexivity. Qed.

Lemma one_submitter_witness :
  exists where_ where_' record record', record_row "project" (store_at sample_submission) 10 where_ (attempt record) 0 record /\
    record_row "project" (store_at sample_submission) 24 where_' (attempt record') 0 record' /\ key record <> key record' /\
    operation_id record = sample_operation /\ operation_id record' = sample_operation.
Proof.
  destruct sample_submits as (r & r' & Hr & Hr').
  destruct (one_submitter "project" sample_processes sample_submission (store_at sample_submission) 10 24 1 2 sample_operation
              sample_request sample_request r r' sample_played) as [E|H]; [|exact Hr|exact Hr'|discriminate E|exact H].
  intros m n p q where_ a text s s' (E & Hp)%sample_claims (E' & Hq)%sample_claims. rewrite E in E'.
  destruct Hp as [->| ->], Hq as [->| ->]; done.
Defined.

Definition sample_slot : slot := ("project"%string, sample_key).

Lemma sample_stored : exists text, held sample_slot (store_records (store_at sample_submission 14)) ∅ !! (0, 1) = Some text.
Proof. eexists. vm_compute. reflexivity. Qed.

Lemma stored_records_legal_witness : exists text,
  held sample_slot (store_records (store_at sample_submission 14)) ∅ !! (0, 1) = Some text /\ 0 <= 1 /\
  exists record, text = dump_record record /\ record_valid record = true /\ attempt record = 0 /\
    slot_of "project" (key record) = Ok sample_slot /\
    (1 = 0 /\ state record = LedgerState.SUBMITTING \/
     exists before, held sample_slot (store_records (store_at sample_submission 14)) ∅ !! (0, 1 - 1) = Some (dump_record before) /\
       check_transition before record = Ok tt /\ state record ∈ NEXT_STATES (state before) /\
       operation_id before = operation_id record /\ owner before = owner record /\
       (job before = None \/ job record = job before)).
Proof.
  destruct sample_stored as (text & Ht). exists text. split; [exact Ht|].
  apply (stored_records_legal "project" sample_processes sample_submission (store_at sample_submission) 14 sample_slot 0 1 text
           sample_played); [vm_compute; lia|exact Ht].
Defined.
