(* ===== verification/SlurmApart.v ===== *)
(** * No withdrawal cancels the job a run is attached to *)

From S2P Require Import Prelude PyFloat SlurmStates SlurmOutcomes SlurmLedger SlurmProg SlurmStore SlurmEntry SlurmActions SlurmAttach SlurmSim SlurmLawful SlurmLawfulRun SlurmCancel SlurmAttached SlurmWorld SlurmSafe.

(** ** A run that attached, and a withdrawal about to cancel *)

Section Cancelling.
Context `{codec : LedgerCodec}.
Context (g : list (nat * event)) (pid wid : nat) (self0 : Attachment) (withdrawer : Withdrawer)
  (still : option (LedgerEntry -> prog bool)) (key' op : string).

(** The run of the process [pid] attached to the job [op]; [since] is what it did from then on *)
Definition attached_since (since : list event) : Prop :=
  exists before self sh after request labels' self' k handle,
    events_of pid g = before ++ since /\ since = sh ++ after /\ kept self0 before self /\
    run (attach request labels' key' self) sh (Ret (self', Ok (Attached k op handle))).

(** The process [wid] withdraws the request, and is about to ask the cluster to cancel the job [op] *)
Definition about_to_cancel : Prop :=
  exists before t observed k, events_of wid g = before ++ t /\
    run (withdraw (att_project self0) key' withdrawer still) t (Call (Cancel op observed) k).

(** What the run and the withdrawal owe each other *)
Record apart (who : nat -> Client) (since : list event) : Prop := {
  (** the run's leases are its own, and the withdrawal's marks its own *)
  own_leases : forall pid', pid' <> pid -> is_holder (who pid') (att_holder self0) = false;
  own_marks : forall pid' mark, pid' <> wid -> wrote withdrawer (Some mark) = true -> is_mine (who pid') mark = false;
  (** the run keeps its lease *)
  keeps_lease : forall where_ holder' r, Event (DropLease where_ holder') r ∉ since;
  (** the condition of the withdrawal only looks, and never holds where it sees a lease the run wrote *)
  still_looks : forall still', still = Some still' -> forall e h, always (fun _ c => reading c) (fun _ _ => True) h (still' e);
  honours_lease : forall e before t after lease where_ written r, events_of wid g = before ++ t ++ after ->
    run (still_holds still e) t (Ret true) -> lease ∈ entry_leases e ->
    Event (PutLease where_ (att_holder self0) (dump_lease lease) written) r ∉ since;
  (** no clock is so far ahead that a mark is expired there while it holds for the cancel's calls on the
      withdrawal's clock *)
  clocks_close : forall pid' now before now' mark, pid' <> wid -> Event Now now ∈ events_of pid' g ->
    events_of wid g = before ++ [Event Now now'] ->
    holds_at (withdrawer_timing withdrawer) mark CALLS_AT_CANCEL now' = true -> withdrawal_expired mark now = false;
  (** the run writes a claim once *)
  claims_once : forall where_ a text i j r r', g !! i = Some (pid, Event (CreateRecord where_ (a, 0) text) r) ->
    g !! j = Some (pid, Event (CreateRecord where_ (a, 0) text) r') -> i = j
}.

Context (at_ : nat -> Store) (who : nat -> Client) (since : list event).
Context {laws : LedgerCodecLaws codec} (w : world (att_project self0) who g at_) (ap : apart who since).
Let hist : history g at_ := world_history _ _ _ _ w.
Abbreviation records_at at_ i where_ := (held where_ (store_records (at_ i)) ∅).
Abbreviation withdrawals_at at_ i where_ := (held where_ (store_withdrawals (at_ i)) ∅).

(** ** What the run did *)

(** The lease, and the calls of the run after it *)
Lemma attached_lease :
  attached_since since ->
  exists where_ lease l since', slot_of (att_project self0) key' = Ok where_ /\ holder lease = att_holder self0 /\
    valid_operation_id (att_holder self0) = true /\
    g !! l = Some (pid, Event (PutLease where_ (att_holder self0) (dump_lease lease) (renewed_at lease)) (Ok tt)) /\
    attaches (att_project self0) key' (att_holder self0) op since' /\
    (forall e, e ∈ since' -> exists j, (l < j)%nat /\ g !! j = Some (pid, e)) /\
    (forall j e, (l <= j)%nat -> g !! j = Some (pid, e) -> e ∈ since).
Proof.
  intros (before & self & sh & after & request & labels' & self' & k & handle & E & -> & Hk & Hrun).
  apply (attach_run self0 _ _ _ _ _ _ _ _ _ _ Hk) in Hrun as (where_ & lease & now & t1 & t2 & Hs & Hh & Hv & -> & Ha).
  rewrite <- !app_assoc in E. change ([?a; ?b] ++ ?l) with ([a] ++ b :: l) in E. rewrite (app_assoc before) in E.
  destruct (placed g pid _ _ _ E) as (l & Hl & Hafter & _ & Honly).
  exists where_, lease, l, t2. split_and!; try done.
  - intros e He. apply Hafter. rewrite !elem_of_app. auto.
  - intros j e Hj He. destruct (decide (j = l)) as [->|]; [|cbn; rewrite <- app_assoc; right; right; eapply Honly; [|done]; lia].
    rewrite Hl in He. injection He as <-. right. by left.
Qed.

(** ** What the withdrawal read *)

(** The last read of the withdrawal: of the revisions [ws] at the place [i], then of the leases at [j];
    after [i] it only looked *)
Definition last_read (t' : list event) (e : LedgerEntry) (mark : WithdrawalMark) : Prop :=
  exists where_ i j rs ws ls, slot_of (att_project self0) key' = Ok where_ /\ (i < j)%nat /\
    g !! i = Some (wid, Event (ReadWithdrawals where_) (Ok ws)) /\ g !! j = Some (wid, Event (ReadLeases where_) (Ok ls)) /\
    (exists k, (k < i)%nat /\ g !! k = Some (wid, Event (ReadRecords where_) (Ok rs))) /\
    shows key' rs ws ls e /\ entry_withdrawal e = Some mark /\ wrote withdrawer (Some mark) = true /\
    (forall k c r, (i < k)%nat -> g !! k = Some (wid, Event c r) -> reading c \/ Event c r ∈ t') /\
    (forall c r, Event c r ∈ t' -> exists k, (i < k)%nat /\ g !! k = Some (wid, Event c r)) /\
    (forall lease where_ written r, lease ∈ entry_leases e ->
       Event (PutLease where_ (att_holder self0) (dump_lease lease) written) r ∉ since).

Lemma run_reads {A} (p : prog A) t rest c r :
  always (fun _ c => reading c) (fun _ _ => True) [] p -> run p t rest -> Event c r ∈ t -> reading c.
Proof. intros Hp Hrun (t1 & t2 & ->)%list_elem_of_split. by apply (always_call _ _ _ _ _ _ _ _ _ Hp Hrun). Qed.

Lemma decided_read before h0 t' e mark :
  events_of wid g = before ++ h0 ++ t' ->
  decided (att_project self0) key' withdrawer still h0 e mark -> last_read t' e mark.
Proof.
  intros E (h & tr & ts & -> & Hread & Hm & Hw & Hstill).
  pose proof Hread as (where_ & rs & ws & ls & tr' & Hs & Htr & Hsh)%read_run.
  assert (Hlook : forall c r, Event c r ∈ tr' ++ ts -> reading c).
  { intros c r [Hin|Hin]%elem_of_app.
    - eapply run_reads; [apply (read_calls (att_project self0)); by intros ? ?|exact Hread|]. rewrite Htr. apply elem_of_app. by right.
    - eapply run_reads; [|exact Hstill|done]. unfold still_holds. destruct still as [s|] eqn:Es; [|done]. by apply (still_looks _ _ ap). }
  assert (E' : events_of wid g = (before ++ h ++ [Event (ReadRecords where_) (Ok rs)]) ++ Event (ReadWithdrawals where_) (Ok ws) ::
                                   Event (ReadLeases where_) (Ok ls) :: tr' ++ ts ++ t').
  { rewrite E, Htr, <- !app_assoc. done. }
  destruct (placed g wid _ _ _ E') as (i & Hi & Hafter & Hbefore & Honly).
  destruct (Hafter (Event (ReadLeases where_) (Ok ls))) as (j & Hj & Hgj); [by left|].
  exists where_, i, j, rs, ws, ls. split_and!; try done.
  - destruct (Hbefore (Event (ReadRecords where_) (Ok rs))) as (k & Hk & Hgk); [|by exists k]. rewrite !elem_of_app. right. right. by left.
  - intros k c r Hk Hgk. apply (Honly _ _ Hk) in Hgk as [[= -> _]|Hin]%elem_of_cons; [by left|].
    rewrite app_assoc in Hin. apply elem_of_app in Hin as [Hin|?]; [left|by right]. by eapply Hlook.
  - intros c r Hin. apply Hafter. right. rewrite !elem_of_app. auto.
  - intros lease where_' written r Hlease. rewrite (app_assoc h), <- (app_assoc (h ++ tr)), (app_assoc before) in E.
    by apply (honours_lease _ _ ap _ _ _ _ _ where_' written r E Hstill).
Qed.
(** The lease of the run is there to be read once it was written. *)
Lemma lease_unseen where_ lease l j rs ws ls e :
  holder lease = att_holder self0 -> valid_operation_id (att_holder self0) = true ->
  g !! l = Some (pid, Event (PutLease where_ (att_holder self0) (dump_lease lease) (renewed_at lease)) (Ok tt)) ->
  (forall j e, (l <= j)%nat -> g !! j = Some (pid, e) -> e ∈ since) ->
  g !! j = Some (wid, Event (ReadLeases where_) (Ok ls)) -> shows key' rs ws ls e ->
  (forall lease where_ written r, lease ∈ entry_leases e ->
     Event (PutLease where_ (att_holder self0) (dump_lease lease) written) r ∉ since) ->
  (j <= l)%nat.
Proof.
  intros Hh Hv Hl Hsince Hj Hsh Hno. destruct (Nat.le_gt_cases j l) as [|Hlt]; [done|]. exfalso.
  pose proof (leases_read _ _ hist _ _ _ _ Hj) as ->.
  destruct (lease_stays _ who g at_ w pid _ where_ l lease _ (own_leases _ _ ap) Hv Hh Hl) with (j := j)
    as (lease' & written & m & r & Hm & Hlook & Hh' & Hgm).
  - intros m r Hm Hgm. by apply (keeps_lease _ _ ap where_ (att_holder self0) r), (Hsince m).
  - pose proof (place_in _ _ _ _ Hj). lia.
  - apply (Hno lease' where_ written r); [|by apply (Hsince m)].
    eapply (shows_lease _ _ _ _ _ Hsh); [exact Hlook|]. apply lease_decodes. by rewrite Hh'.
Qed.
(** ** The job of the run *)

(** The attempt the run attached to names a job. *)
Lemma attached_row where_ since' :
  slot_of (att_project self0) key' = Ok where_ -> attaches (att_project self0) key' (att_holder self0) op since' ->
  (forall e, e ∈ since' -> exists j, g !! j = Some (pid, e)) ->
  exists a q record, record_row (att_project self0) at_ (length g) where_ a q record /\ key record = key' /\
    operation_id record = op /\ state record ∈ NAMES_A_JOB.
Proof.
  intros Hs (where_' & rs & ws & ls & t' & Hs' & -> & Hcase) Hin. rewrite Hs in Hs'. injection Hs' as <-.
  assert (Hjob : forall a q, job_recorded (att_project self0) key' a q t' -> exists record,
             record_row (att_project self0) at_ (length g) where_ a (q + 1) record /\ key record = key' /\ state record ∈ NAMES_A_JOB).
  { intros a q (where_' & record & Hs' & Hst & Hc). rewrite Hs in Hs'. injection Hs' as <-.
    destruct (Hin (Event (CreateRecord where_ (a, q + 1) (dump_record record)) (Ok true))) as (j & Hj); [apply elem_of_app; by right|].
    pose proof (place_in _ _ _ _ Hj). pose proof (created_row _ _ _ _ w _ _ _ _ _ _ Hj (length g) ltac:(lia)) as Hrow.
    exists record. split_and!; [done| |rewrite Hst; set_solver]. destruct Hrow as (_ & _ & _ & Hk).
    by apply (slot_of_inj _ _ _ _ Hk). }
  destruct (Hin (Event (ReadRecords where_) (Ok rs))) as (j & Hj); [by left|].
  pose proof (place_in _ _ _ _ Hj). pose proof (records_read _ _ hist _ _ _ _ Hj) as ->.
  destruct Hcase as [(e & Hsh & Hop & _ & Hst)|Hclaim].
  - pose proof (shown_record _ _ _ _ w j key' where_ ws ls e ltac:(lia) Hsh) as Hrow. apply (record_row_stays _ _ _ hist _ (length g)) in Hrow; [|lia].
    pose proof (shows_key _ _ _ _ _ Hsh) as Hk. destruct Hst as [Hst|[_ Hrec]]; [by eauto 10|].
    destruct (Hjob _ _ Hrec) as (record & Hrow' & Hk' & Hst). do 3 eexists. split_and!; [exact Hrow'|done| |done].
    destruct Hrow as (_ & Hv & Ha & _), Hrow' as (_ & Hv' & Ha' & _). rewrite <- Hop. apply attempt_operation; congruence.
  - destruct Hclaim as (where_' & claimed & won & Hs' & Hk & Hop & Ho & _ & Hc & _ & Hrec). rewrite Hs in Hs'. injection Hs' as <-.
    destruct (Hjob _ _ Hrec) as (record & Hrow' & Hk' & Hst). do 3 eexists. split_and!; [exact Hrow'|done| |done].
    destruct (Hin _ ltac:(apply elem_of_app; right; exact Hc)) as (i & Hi). apply (created_valid _ _ _ _ w) in Hi as (Hv & Ha & _).
    destruct Hrow' as (_ & Hv' & Ha' & _). rewrite <- Hop. apply attempt_operation; congruence.
Qed.
(** What the record of the withdrawal shares with the run's *)
Lemma same_attempt where_ a q record a' q' record' :
  record_row (att_project self0) at_ (length g) where_ a q record -> record_row (att_project self0) at_ (length g) where_ a' q' record' ->
  key record = key record' -> operation_id record = operation_id record' -> a = a'.
Proof. intros (_ & Hv & <- & _) (_ & Hv' & <- & _) Hk Ho. by apply operation_attempt. Qed.

Lemma jobless_unattached before t observed :
  events_of wid g = before ++ t -> jobless_cancel (att_project self0) key' withdrawer still t op observed ->
  ~ attached_since since.
Proof.
  intros E (h0 & e & mark & now & unknown & withdrawn & tc & Hd & -> & Hop & _ & Hsub & _ & Ht & Hrun) Hatt.
  apply attached_lease in Hatt as (where_ & lease & l & since' & Hs & _ & _ & _ & Ha & Hin & _).
  apply (attached_row where_) in Ha as (a & q & record & Hrow & Hk & Hop' & Hst); [|done|intros ? (? & _ & ?)%Hin; eauto].
  apply (decided_read _ _ _ _ _ E) in Hd as (where_' & i & j & rs & ws & ls & Hs' & _ & _ & _ & (k & _ & Hgk) & Hsh & _ & _ & _ & Hlater & _).
  rewrite Hs in Hs'. injection Hs' as <-. pose proof (place_in _ _ _ _ Hgk). pose proof (records_read _ _ hist _ _ _ _ Hgk) as ->.
  pose proof (shown_record _ _ _ _ w k key' where_ ws ls e ltac:(lia) Hsh) as Hbefore.
  apply (record_row_stays _ _ _ hist _ (length g)) in Hbefore; [|lia]. pose proof (shows_key _ _ _ _ _ Hsh) as Hke.
  assert (a = attempt (entry_record e)) as -> by (eapply same_attempt; [done..| |]; congruence).
  apply replace_run in Hrun as (Hc & where_' & Hs' & ->). pose proof (transitioned_valid _ _ _ _ _ Ht) as [_ Hwst].
  apply check_transition_Ok in Hc as (Hkey & _ & Hat & _). rewrite <- Hkey, Hke, Hs in Hs'. injection Hs' as <-.
  destruct (Hlater (CreateRecord where_ (attempt withdrawn, entry_revision e + 1) (dump_record withdrawn)) (Ok true)) as (m & _ & Hm); [apply elem_of_app; right; by left|]. rewrite <- Hat in Hm.
  pose proof (place_in _ _ _ _ Hm). pose proof (created_row _ _ _ _ w _ _ _ _ _ _ Hm (length g) ltac:(lia)) as Hafter.
  by eapply (withdrawn_unsubmitted _ _ _ _ w (length g) _ _ _ _ _ _ _ (Nat.le_refl _) Hbefore Hsub Hafter Hwst Hrow).
Qed.
(** ** The mark of the withdrawal *)

(** No process undid a mark that holds for the cancel's calls, by its clock or as its own. *)
Lemma mark_unanswered i where_ a k mark before now :
  withdrawal_row at_ i where_ a k (Mark mark) -> withdrawals_at at_ i where_ !! (a, k + 1) = None -> (i <= length g)%nat ->
  wrote withdrawer (Some mark) = true ->
  (forall m c r, (i <= m)%nat -> g !! m = Some (wid, Event c r) -> reading c \/ (exists op, c = Inspect op)) ->
  events_of wid g = before ++ [Event Now now] ->
  holds_at (withdrawer_timing withdrawer) mark CALLS_AT_CANCEL now = true ->
  forall j, (j <= length g)%nat -> withdrawals_at at_ j where_ !! (a, k + 1) = None.
Proof.
  intros Hmark Hnone Hi Hw Hlook E Hh j Hj. destruct (withdrawals_at at_ j where_ !! (a, k + 1)) as [row|] eqn:Er; [|done]. exfalso.
  destruct (Nat.le_ge_cases j i) as [Hji|Hij].
  { rewrite (proj2 (stored_stays _ _ hist j i where_ (a, k + 1) ltac:(lia)) _ Er) in Hnone. done. }
  destruct (withdrawal_origin _ _ hist i j _ _ _ ltac:(lia) Hnone Er) as (m & p & [c r] & Hm & Hgm & Hc). cbn in Hc. subst c.
  destruct (decide (p = wid)) as [->|Hp]; [destruct (Hlook m _ _ (proj1 Hm) Hgm) as [Hr|[? Hr]]; [exact Hr|discriminate Hr]|].
  destruct (lawful_event _ _ _ _ w _ _ _ _ Hgm) as (t1 & (e & document & He & -> & Hk & _ & _ & Hcheck & Hkind) & Hearlier).
  destruct He as (rs & ws & ls & _ & Hws & _ & Hsh). destruct (Hearlier _ Hws) as (n & Hn & Hgn).
  pose proof (place_in _ _ _ _ Hgm) as Hlen. apply (withdrawals_read _ _ hist) in Hgn as ->.
  pose proof (withdrawals_chained _ _ _ _ w n ltac:(lia)) as Hchain.
  assert (entry_withdrawal_revision e = k) as Ek by lia. clear Hk.
  destruct (shown_withdrawal _ _ _ hist n _ _ _ _ _ ltac:(lia) Hchain Hsh) as [_ [(_ & E1 & _)|(shown & Hrow & Eshown)]].
  { destruct Hmark as (wr & Hmt & _). destruct (withdrawals_chained _ _ _ _ w i Hi _ _ _ _ Hmt) as [? _]. lia. }
  rewrite Ek in Hrow. assert (shown = Mark mark) as ->.
  { apply (withdrawal_row_stays _ _ hist _ (length g)) in Hrow; [|lia]. apply (withdrawal_row_stays _ _ hist _ (length g)) in Hmark; [|lia].
    by eapply withdrawal_row_inj. }
  destruct document as [mark'|].
  - unfold check_withdrawal in Hcheck. apply rbind_Ok in Hcheck as ([] & _ & Hcheck).
    apply rbind_Ok in Hcheck as ([] & _ & Hcheck%ensure_Ok). by rewrite Eshown in Hcheck.
  - destruct Hkind as (mark' & Em & Hreason). rewrite Eshown in Em. injection Em as <-.
    destruct Hreason as [Hmine|(now' & Hnow & Hexp)]; [by rewrite (own_marks _ _ ap p mark Hp Hw) in Hmine|].
    assert (Hin : Event Now now' ∈ events_of p g).
    { destruct (Hearlier _ Hnow) as (n' & _ & Hgn'). destruct (events_places p g) as (place & _ & _ & Hpl).
      destruct (Hpl _ _ Hgn') as (x & Hx & _). by eapply list_elem_of_lookup_2. }
    by rewrite (clocks_close _ _ ap _ _ _ _ _ Hp Hin E Hh) in Hexp.
Qed.

(** An attempt the run claims is new to it. *)
Lemma claim_new where_ l t i :
  slot_of (att_project self0) key' = Ok where_ ->
  (forall e, e ∈ t -> exists j, (l < j)%nat /\ g !! j = Some (pid, e)) -> (i <= l)%nat -> (i <= length g)%nat ->
  claim_recorded (att_project self0) key' (att_holder self0) op t ->
  exists claimed m, key claimed = key' /\ operation_id claimed = op /\ (m < length g)%nat /\
    (exists r, g !! m = Some (pid, Event (CreateRecord where_ (attempt claimed, 0) (dump_record claimed)) r)) /\
    records_at at_ i where_ !! (attempt claimed, 0) = None.
Proof.
  intros Hs Hin Hi Hlen (where_' & claimed & won & Hs' & Hk & Hop & Ho & Hsub & Hc & Hwon & _).
  rewrite Hs in Hs'. injection Hs' as <-. destruct (Hin _ Hc) as (m & Hm & Hgm). pose proof (place_in _ _ _ _ Hgm) as Hml.
  exists claimed, m. split_and!; [done..|by eexists|]. destruct (records_at at_ i where_ !! (attempt claimed, 0)) as [text|] eqn:Et; [|done]. exfalso.
  destruct Hwon as [->|(e & (rs & ws & ls & Hrs & _ & _ & Hsh) & He)].
  - apply (record_created _ _ hist) in Hgm as [Hn _].
    rewrite (proj1 (stored_stays _ _ hist i m where_ _ ltac:(lia)) _ Et) in Hn. done.
  - destruct (Hin _ Hrs) as (k & Hk' & Hgk). pose proof (place_in _ _ _ _ Hgk) as Hkl. apply (records_read _ _ hist) in Hgk as ->.
    pose proof (shown_record _ _ _ _ w k _ _ _ _ _ ltac:(lia) Hsh) as Hrow. rewrite He in Hrow. pose proof Hrow as (Hkt & Hv & _).
    destruct (records_chained _ _ _ _ w k ltac:(lia) _ _ _ _ Hkt) as [_ (record & E & _ & Hfirst)].
    apply dump_record_inj in E as <-; [|done].
    destruct Hfirst as [[E0 _]|(x & _ & Hbad)]; [|by apply transition_not_submitting in Hbad]. rewrite E0 in Hkt.
    pose proof (proj1 (stored_stays _ _ hist i k where_ _ ltac:(lia)) _ Et) as Ek. rewrite Hkt in Ek. injection Ek as <-.
    assert (Hzero : records_at at_ O where_ !! (attempt claimed, 0) = None).
    { rewrite (world_starts _ _ _ _ w). cbn. by rewrite held_empty, lookup_empty. }
    destruct (record_origin _ _ hist O i _ _ _ ltac:(lia) Hzero Et) as (m0 & p & [c r] & Hm0 & Hg0 & Hcall). cbn in Hcall. subst c.
    destruct (lawful_event _ _ _ _ w _ _ _ _ Hg0) as (t1 & (record & E & _ & _ & _ & Hreason) & _).
    apply dump_record_inj in E as <-; [|done]. destruct Hreason as [(_ & _ & Hown)|(x & _ & Hbad)]; [|by apply transition_not_submitting in Hbad].
    destruct (decide (p = pid)) as [->|Hp]; [|by rewrite Ho, (own_leases _ _ ap _ Hp) in Hown].
    pose proof (claims_once _ _ ap _ _ _ _ _ _ _ Hg0 Hgm). lia.
Qed.

(** A mark none answered is shown by every later read. *)
Lemma mark_shown where_ i j k mark rs ls e :
  (i <= j <= length g)%nat -> withdrawal_row at_ i where_ (attempt (entry_record e)) k (Mark mark) ->
  withdrawals_at at_ j where_ !! (attempt (entry_record e), k + 1) = None ->
  shows key' rs (withdrawals_at at_ j where_) ls e -> entry_withdrawal e <> None.
Proof.
  intros Hij Hmark Hnone Hsh En. apply (withdrawal_row_stays _ _ hist i j) in Hmark; [|done].
  pose proof (withdrawals_chained _ _ _ _ w j (proj2 Hij)) as Hchain.
  destruct (shown_withdrawal _ _ _ hist j _ _ _ _ _ (proj2 Hij) Hchain Hsh) as [Hnewest [(_ & _ & Habsent)|(d & Hd & Ed)]].
  { destruct Hmark as (wr & Hmt & _). by apply Habsent in Hmt. }
  pose proof (Hnewest _ _ Hmark) as Hle. rewrite En in Ed. destruct d as [|u]; [done|].
  destruct (decide (entry_withdrawal_revision e = k)) as [Eq|Hne].
  - rewrite Eq in Hd. pose proof (withdrawal_row_inj _ _ _ _ _ _ _ Hd Hmark). done.
  - destruct (withdrawal_below _ _ _ _ w j _ _ _ _ (proj2 Hij) Hd (k + 1)) as (d & wr & Hdt & _); [|by rewrite Hnone in Hdt].
    destruct Hmark as (wr & Hmt & _). destruct (Hchain _ _ _ _ Hmt) as [? _]. lia.
Qed.

(** The mark the withdrawal goes by is there from its read on, and none answered it. *)
Lemma mark_stands before t observed :
  events_of wid g = before ++ t -> marked_cancel (att_project self0) key' withdrawer still t op observed ->
  exists where_ h k i j ls mark e, slot_of (att_project self0) key' = Ok where_ /\ (h <= i < j)%nat /\ (j < length g)%nat /\
    g !! j = Some (wid, Event (ReadLeases where_) (Ok ls)) /\
    shows key' (records_at at_ h where_) (withdrawals_at at_ i where_) ls e /\ operation_id (entry_record e) = op /\
    record_row (att_project self0) at_ h where_ (attempt (entry_record e)) (entry_revision e) (entry_record e) /\
    withdrawal_row at_ i where_ (attempt (entry_record e)) k (Mark mark) /\
    (forall j, (j <= length g)%nat -> withdrawals_at at_ j where_ !! (attempt (entry_record e), k + 1) = None) /\
    (forall lease where_ written r, lease ∈ entry_leases e ->
       Event (PutLease where_ (att_holder self0) (dump_lease lease) written) r ∉ since).
Proof.
  intros E (h0 & e & mark & now1 & now & live & Hd & -> & Hop & _ & _ & Hh).
  apply (decided_read _ _ _ _ _ E) in Hd as (where_ & i & j & rs & ws & ls & Hs & Hij & Hgi & Hgj & (h & Hhi & Hgh) & Hsh & Hm & Hw & Honly & _ & Hhonour).
  pose proof (place_in _ _ _ _ Hgj) as Hlen. apply (withdrawals_read _ _ hist) in Hgi as Ews. subst ws. apply (records_read _ _ hist) in Hgh as ->.
  pose proof (withdrawals_chained _ _ _ _ w i ltac:(lia)) as Hchain.
  destruct (shown_withdrawal _ _ _ hist i _ _ _ _ _ ltac:(lia) Hchain Hsh) as [Hnewest [(En & _)|(shown & Hmark & Eshown)]]; [by rewrite Hm in En|].
  rewrite Hm in Eshown. destruct shown as [mark'|]; [injection Eshown as <-|done].
  exists where_, h, (entry_withdrawal_revision e), i, j, ls, mark, e. split_and!; try done; [lia|apply (shown_record _ _ _ _ w h key' where_ _ ls e ltac:(lia) Hsh)|].
  assert (E' : events_of wid g = (before ++ h0 ++ [Event Now now1; Event (Inspect op) (Observed live)]) ++ [Event Now now]).
  { by rewrite E, <- !app_assoc. }
  eapply (mark_unanswered _ _ _ _ _ _ _ Hmark); [|lia|done| |exact E'|exact Hh].
  - destruct (withdrawals_at at_ i where_ !! _) as [row|] eqn:Er; [|done]. exfalso.
    destruct (Hchain _ _ _ _ Er) as [_ (d & Hrow & _)]. specialize (Hnewest _ _ Hrow). lia.
  - intros m c r Hm' Hgm. destruct (decide (m = i)) as [->|]; [rewrite Hgi in Hgm; injection Hgm as <-; by left|].
    destruct (Honly m c r ltac:(lia) Hgm) as [|Hin']; [by left|]. apply list_elem_of_In in Hin'.
    destruct Hin' as [Ec|[Ec|[Ec|[]]]]; apply (f_equal event_call) in Ec; cbn in Ec; subst c; [by left|right; eauto|by left].
Qed.

Lemma marked_unattached before t observed :
  events_of wid g = before ++ t -> marked_cancel (att_project self0) key' withdrawer still t op observed ->
  ~ attached_since since.
Proof.
  intros E Hcancel Hatt.
  destruct (mark_stands _ _ _ E Hcancel) as (where_ & h & k & i & j & ls & mark & e & Hs & Hij & Hlen & Hgj & Hsh & Hop & Hrow & Hmark & Hun & Hhonour).
  apply attached_lease in Hatt as (where_' & lease & l & since' & Hs' & Hl & Hv & Hgl & Ha & Hin & Hsince).
  rewrite Hs in Hs'. injection Hs' as <-. pose proof (shows_key _ _ _ _ _ Hsh) as Hke.
  pose proof (lease_unseen _ _ _ _ _ _ _ _ Hl Hv Hgl Hsince Hgj Hsh Hhonour) as Hjl.
  destruct Ha as (where_' & rs & ws & ls' & t' & Hs' & -> & Hcase). rewrite Hs in Hs'. injection Hs' as <-.
  destruct Hcase as [(e' & Hsh' & Hop' & Hun' & _)|Hclaim].
  - destruct (Hin (Event (ReadRecords where_) (Ok rs))) as (jr & _ & Hgr); [by left|].
    destruct (Hin (Event (ReadWithdrawals where_) (Ok ws))) as (jw & Hjw & Hgw); [right; by left|].
    pose proof (place_in _ _ _ _ Hgr) as Hrl. pose proof (place_in _ _ _ _ Hgw) as Hwl.
    apply (records_read _ _ hist) in Hgr as ->. apply (withdrawals_read _ _ hist) in Hgw as ->.
    pose proof (shown_record _ _ _ _ w jr key' where_ _ ls' e' ltac:(lia) Hsh') as Hrow'. pose proof (shows_key _ _ _ _ _ Hsh') as Hke'.
    assert (Ea : attempt (entry_record e) = attempt (entry_record e')).
    { apply (record_row_stays _ _ _ hist h (length g)) in Hrow; [|lia]. apply (record_row_stays _ _ _ hist jr (length g)) in Hrow'; [|lia].
      eapply same_attempt; [exact Hrow|exact Hrow'|congruence..]. }
    rewrite Ea in Hmark. by apply (mark_shown where_ i jw k mark _ ls' e' ltac:(lia) Hmark ltac:(rewrite <- Ea; apply Hun; lia) Hsh').
  - destruct (claim_new where_ l t' h Hs) as (claimed & m & Hk & Ho & Hml & (r & Hgm) & Hnew); [|lia..|exact Hclaim|].
    { intros x Hx. apply Hin, elem_of_app. by right. }
    pose proof (created_valid _ _ _ _ w _ _ _ _ _ _ _ Hgm) as (Hcv & _). pose proof Hrow as (Hkt & Hev & _).
    rewrite (operation_attempt claimed (entry_record e)) in Hnew by congruence.
    destruct (record_below _ _ _ _ w h where_ _ _ _ ltac:(lia) Hrow 0) as (record & Ht & _); [|by rewrite Ht in Hnew].
    destruct (records_chained _ _ _ _ w h ltac:(lia) _ _ _ _ Hkt) as [? _]. lia.
Qed.
End Cancelling.

(** C2: a withdrawal does not cancel the job a run is attached to.  In a world of ledger clients, whose
    storage may fail at any call and whose calls interleave in any order, let one process have attached to
    the job [op] of a request and not released its lease since, and another withdraw the request, under a
    condition that does not hold where it sees a lease of the run: the withdrawal is then never about to
    cancel [op].  The read of the withdrawal precedes the lease, and the run would have seen the mark; or it
    follows it, and sees the lease.  The processes' names, marks and claims are their own, and no other
    clock is ahead of the withdrawer's by as much as its cancel is allowed to take. *)
Theorem attached_job_not_cancelled `{codec : LedgerCodec} {laws : LedgerCodecLaws codec}
    g at_ who pid wid self0 withdrawer still key' op since :
  world (att_project self0) who g at_ -> apart g pid wid self0 withdrawer still who since ->
  attached_since g pid self0 key' op since -> ~ about_to_cancel g wid self0 withdrawer still key' op.
Proof.
  intros w ap Hatt (before & t & observed & k & E & Hrun).
  assert (Hq : forall still', still = Some still' -> forall e, quiet (still' e)).
  { intros still' Es e h. eapply always_mono; [| |by apply (still_looks _ _ _ _ _ _ _ _ ap)]; [|done]. by intros ? []. }
  pose proof (withdraw_reasoned (att_project self0) key' withdrawer still Hq []) as Hw.
  pose proof (always_run _ _ _ _ _ _ Hw Hrun) as [[Hm|Hj] _].
  - by eapply marked_unattached.
  - by eapply jobless_unattached.
Qed.

(** The condition a run relinquishes a request under honours the leases of others: where one is shown that
    expires no earlier than the grace period reaches back, the request is wanted. *)
Lemma unwanted_honours holder' since e lease :
  lease ∈ entry_leases e -> fle since (expires_at lease) = true -> holder lease <> withdrawer_by holder' ->
  unwanted holder' since e = false.
Proof.
  intros Hin Hle Hh. unfold unwanted. destruct (state_settled _); [done|]. apply negb_false_iff.
  unfold held_by_others. apply existsb_exists. exists (expires_at lease). split; [|done].
  apply in_or_app. left. apply in_map, filter_In. split; [by apply list_elem_of_In|]. by apply negb_true_iff, eqb_false.
Qed.

(** ** A run that attached, and another run that wants the request no longer *)

Definition sample_self : Attachment := sample_attachment "run-one".
Definition sample_rival : Withdrawer := sample_withdrawer "run-two".
Definition sample_still : option (LedgerEntry -> prog bool) := Some (fun entry => Ret (unwanted sample_rival (of_int 900) entry)).
Definition sample_who (pid : nat) : Client :=
  run_client match pid with 1%nat => sample_self | 2%nat => sample_attachment "run-two" | _ => sample_attachment "run-three" end.
Definition sample_history : list (nat * event) :=
  sample_turn 2%nat (withdraw "project" sample_key sample_rival sample_still) (sample_turn 1%nat sample_attach []).

Lemma sample_unwanted_harmless project who e : harmless project who (Ret (unwanted sample_rival (of_int 900) e)).
Proof. by intros h. Qed.

Lemma sample_world : world "project" sample_who sample_history (store_at sample_history).
Proof.
  unfold sample_history. apply turn_world; [apply turn_world; [apply empty_world|]|].
  - pose proof (attach_fine sample_self sample_request sample_labels sample_key [] sample_self (kept_fresh sample_self [] eq_refl)) as Hf.
    eapply always_post; [exact Hf|done].
  - apply withdraw_lawful; [|intros still' [= <-]; apply sample_unwanted_harmless].
    exact (withdrawer_own (sample_attachment "run-two")).
Qed.

Definition sample_since : list event := (exec sample_outside sample_attach empty_store).1.

Lemma sample_run_events pid :
  events_of pid sample_history =
  match pid with
  | 1%nat => sample_since
  | 2%nat => (exec sample_outside (withdraw "project" sample_key sample_rival sample_still) (store_after empty_store sample_since)).1
  | _ => []
  end.
Proof.
  unfold sample_history. rewrite !events_turn, first_turn_store. fold sample_since.
  destruct pid as [|[|[|pid]]]; cbn [Nat.eqb]; by rewrite ?app_nil_r.
Qed.

(** What the events of the example are, and where *)
Definition claims_at (e : option (nat * event)) : bool :=
  match e with Some (1%nat, Event (CreateRecord _ (_, r) _) _) => r =? 0 | _ => false end.

Lemma sample_claim i where_ a text r :
  sample_history !! i = Some (1%nat, Event (CreateRecord where_ (a, 0) text) r) -> i = 7%nat.
Proof.
  intros Hi. assert (Hall : forallb (fun i => negb (claims_at (sample_history !! i)) || (i =? 7)%nat) (seq 0 (length sample_history)) = true)
    by (vm_compute; reflexivity).
  rewrite forallb_forall in Hall. specialize (Hall i). rewrite in_seq, Hi in Hall. apply lookup_lt_Some in Hi.
  apply Nat.eqb_eq. exact (Hall (conj (Nat.le_0_l _) Hi)).
Qed.

Definition keeps_on (c : call) : bool :=
  match c with
  | DropLease _ _ => false
  | PutLease _ _ (PlainLease lease) _ => fle (of_int 900) (expires_at lease) && eqb (holder lease) "run-one"
  | PutLease _ _ _ _ => false
  | _ => true
  end.

Lemma sample_keeps e : e ∈ sample_since -> keeps_on (event_call e) = true.
Proof.
  intros He%list_elem_of_In. assert (Hall : forallb (fun e => keeps_on (event_call e)) sample_since = true) by (vm_compute; reflexivity).
  rewrite forallb_forall in Hall. by apply Hall.
Qed.

Lemma sample_apart : apart sample_history 1 2 sample_self sample_rival sample_still sample_who sample_since.
Proof.
  split.
  - intros [|[|[|pid]]] Hne; done.
  - intros pid mark Hne. cbn [wrote]. rewrite andb_true_iff. intros [Hb%eqb_eq _]. destruct pid as [|[|[|pid]]]; try done;
      cbn [sample_who run_client is_mine wrote]; by rewrite Hb.
  - by intros where_ holder' r ?%sample_keeps.
  - by intros still' [= <-] e h.
  - intros e before t after lease where_ written r _ [_ E]%run_ret Hlease Hput%sample_keeps.
    cbn in Hput. apply andb_true_iff in Hput as [Hle Hh%eqb_eq]. by rewrite (unwanted_honours _ _ e lease Hlease Hle) in E; [|rewrite Hh].
  - intros pid now before now' mark _ _ E. rewrite sample_run_events in E. apply (f_equal (fun l => event_call <$> last l)) in E.
    rewrite last_snoc in E. vm_compute in E. discriminate E.
  - intros where_ a text i j r r' Hi%sample_claim Hj%sample_claim. congruence.
Qed.

Definition sample_handle : SlurmBatchHandle :=
  match (exec sample_outside sample_attach empty_store).2.2 with Ok (Attached _ _ handle) => handle | _ => sample_batch end.

Lemma sample_attached : attached_since sample_history 1 sample_self sample_key sample_operation sample_since.
Proof.
  exists [], sample_self, sample_since, [], sample_request, sample_labels,
    (exec sample_outside sample_attach empty_store).2.1, sample_key, sample_handle. split_and!.
  - apply sample_run_events.
  - by rewrite app_nil_r.
  - by apply kept_fresh.
  - pose proof (exec_run sample_outside sample_attach empty_store) as Hrun.
    rewrite (surjective_pairing (exec sample_outside sample_attach empty_store).2) in Hrun.
    assert (E : (exec sample_outside sample_attach empty_store).2.2 = Ok (Attached sample_key sample_operation sample_handle))
      by (vm_compute; reflexivity).
    rewrite E in Hrun. exact Hrun.
Qed.

Lemma attached_job_not_cancelled_witness :
  ~ about_to_cancel sample_history 2 sample_self sample_rival sample_still sample_key sample_operation.
Proof.
  exact (attached_job_not_cancelled sample_history (store_at sample_history) sample_who 1 2 sample_self sample_rival sample_still
           sample_key sample_operation sample_since sample_world sample_apart sample_attached).
Defined.
